(* ===== verification/_CoqProject ===== *)
-Q . S2P
Prelude.v
Machine.v
Effects.v
Text.v
Memory.v
Monitors.v
ThreadManager.v
ThreadInvariant.v
ThreadHistory.v
ThreadProgress.v
ThreadJoin.v
ThreadAdd.v
ThreadTheorems.v
TimerManager.v
TimerInvariant.v
TimerTasks.v
TimerStop.v
TimerTheorems.v
Servers.v
ThreadedServer.v
ThreadedTasks.v
ServerTheorems.v
Transport.v
Posix.v
Socket.v
SocketStream.v
FdTransport.v
SocketOpen.v
BufferBase.v
MemoryBuffer.v
MemoryQueue.v
BufferedTransport.v
FramedTransport.v
PipedTransport.v
HttpTransport.v
HttpReader.v
HttpMessages.v
Protocol.v
Wire.v
Decorators.v
BinaryProtocol.v
Varint.v
DenseProtocol.v
DenseFormat.v
DenseStacks.v
DenseWriter.v
DenseReader.v
DenseValues.v
DenseStruct.v
CompactProtocol.v
ApplicationException.v
Base64.v
JsonProtocol.v
Double.v
Processors.v
StatsProcessor.v
DebugProtocol.v
JsonFormat.v
JsonWriter.v
JsonReader.v
JsonValues.v
Ppapi.v
NativeClient.v
NativeValues.v
NativeReading.v
NativeReader.v
NativeWriter.v
NativeMessages.v
Examples.v
SocketTheorems.v
ProtocolTheorems.v
TransportTheorems.v
MessageTheorems.v
NativeTheorems.v
JsonTheorems.v
HttpTheorems.v
PipedTheorems.v
ProcessorTheorems.v
DebugTheorems.v
DenseTheorems.v
