(* ===== verification/Prelude.v ===== *)
(** * A verification library for the Thrift C++ runtime of thrift-nacl

    thrift-nacl is Apache Thrift 0.9.1 with a protocol for pages that talk to a
    Native Client module.  This library models the C++ runtime under
    src/src/thrift-0.9.1/lib/cpp/src/thrift (paths below are relative to it) and the
    module of src/examples/hello_world.

    ** The program

    Generated code calls the operations of a _protocol_ (TProtocol) for every value
    it sends or receives.  The binary, compact and JSON protocols put values on a
    _transport_ (TTransport) as bytes; transports stack: buffering and framing over
    an in-memory buffer or a socket.  The Native Client protocol has no transport:
    it builds and reads browser variables, which the module posts to the page and
    gets from it.  Decorators add a service's name to calls or copy what is read.  On
    the server side a _processor_ takes the calls off a protocol and finds who
    answers them, a _server_ accepts the connections and calls the processor for each,
    a _thread manager_ runs tasks on a pool of worker threads, and a _timer manager_
    runs tasks on one thread when their time has come.

    ** Files and sources

    Foundations.  [Prelude]: notations, tactics and lists indexed by integers.
    [Machine]: fixed-width integers, objects in memory, byte order
    (protocol/TProtocol.h).  [Effects]: the exception classes, the monad of stateful
    code and its total-correctness rules.  [Memory]: memcpy, malloc, realloc.
    [Text]: characters, C strings, decimal and hexadecimal numbers.
    [Double]: a double as its 64 bits, with comparison and conversions.
    [Monitors]: threads that sleep and are woken (concurrency/Monitor.h), and sums
    over tables of threads.

    Transports.  [Transport]: the interface, its defaults, the readAll template and
    the contracts of a stream of bytes: [ReadLaws], with [EndLaws] and [ReadEndLaws];
    [WriteLaws], with [FlushLaws] and [WriteEndLaws] (transport/TTransport.h, TVirtualTransport.h).  [BufferBase], [MemoryBuffer], [BufferedTransport],
    [FramedTransport]: transport/TBufferTransports.h and .cpp, a file per class, the
    four pointers as offsets into the buffer.  [MemoryQueue]: the abstract
    specification of TMemoryBuffer.  [PipedTransport]: TTransportUtils.h and .cpp.
    [HttpTransport]: THttpTransport, THttpClient and THttpServer (.h and .cpp), a
    transport's virtual members as a [virtuals]; [HttpReader]: the message on a
    stream as pure functions, and that the code computes them; [HttpMessages]: the
    two subclasses, and the text that each sends and the other reads.

    Sockets and files.  [Posix]: the calls of the operating system, as parameters, and
    what they are relied on for; [Socket]: TSocket.cpp; [SocketStream]: a connected
    socket is a stream of bytes; [FdTransport]: TFDTransport.cpp and
    TSimpleFileTransport.cpp, and the same of a descriptor; [SocketOpen]: what opening
    leaves open, and what becomes of errors, without laws.

    Protocols.  [Protocol]: the interface, its defaults and skip
    (protocol/TProtocol.h, TVirtualProtocol.h).  [Wire]: values, the calls that
    generated code makes for one, and the contracts [WriterLaws], [ReaderLaws],
    [ReaderTotal] of a wire format, against which round trips and skipping are
    proved once.  [BinaryProtocol]; [Varint] and [CompactProtocol] (the .h and .tcc
    files); both are instances of those contracts.  [JsonProtocol]: the code of
    TJSONProtocol.cpp; [JsonFormat]: the text of a value; [JsonWriter], [JsonReader],
    [JsonValues]: that the code writes and reads that text.  [DenseProtocol]: the
    code of TDenseProtocol.cpp, its three stacks and the type specs of
    TReflectionLocal.h, found by address; [DenseFormat]: when a value fits a type
    spec and its bytes, the stacks before and after an object, well-formed specs;
    [DenseStacks]: the steps that only move the stacks; [DenseWriter], [DenseReader],
    [DenseValues], [DenseStruct]: that the code writes and reads those bytes.
    [DebugProtocol]: TDebugProtocol.cpp and ThriftDebugString.  [ApplicationException]:
    TApplicationException.cpp over any protocol.  [Base64]:
    protocol/TBase64Utils.cpp.  [Decorators]: TProtocolDecorator.h,
    TMultiplexedProtocol.cpp, TProtocolTap.h, and a protocol as a part of a larger
    state, which keeps its contracts.

    Processors.  [Processors]: TProcessor.h, TDispatchProcessor.h and
    processor/TMultiplexedProcessor.h and PeekProcessor.cpp, over any state that two
    protocols reach; [StatsProcessor]: processor/StatsProcessor.h with printf.

    Native Client.  [Ppapi]: the browser's variables, as parameters with laws, and
    one implementation.  [NativeClient]: protocol/TNativeClientProtocol.cpp over a
    heap of shared dictionaries and arrays.  [NativeValues] to [NativeWriter]: that
    what is written denotes the value, and what denotes a value is read as it.
    [NativeMessages]: the handler registry and HandleMessage (thrift_nacl.cc).

    Threads.  [ThreadManager]: concurrency/ThreadManager.cpp, the state of the
    manager beside its workers and the calls under way; [exec] is one step of one
    thread, [reachable] all that can happen.  [ThreadInvariant]: the counters and the
    sleepers; [ThreadHistory]: what became of every task; [ThreadProgress]: the
    steps of the workers and a measure they take down; [ThreadJoin]: a call of join;
    [ThreadAdd]: growth of the queue and waking of those that add.
    [TimerManager]: concurrency/TimerManager.cpp and the conversions of Util.h, the
    manager beside its dispatcher and the calls under way, with steps as before;
    [TimerInvariant]: which states of the manager go with which places of the
    dispatcher and the calls; [TimerTasks]: what became of every task, and how long
    the dispatcher sleeps; [TimerStop]: the steps to the end, and those that are left.

    Servers.  [Servers]: what a server calls and what a call comes to, the fetch of a
    client and the conversation with it, and TSimpleServer.cpp as steps from call to
    call; [ThreadedServer]: TThreadedServer.cpp, the thread in serve beside the tasks;
    [ThreadedTasks]: the set of tasks and who waits for it, the steps that are left,
    and tasks that are stranded; [ServerTheorems]: which transports are still to be
    closed and by whom, and the properties.

    The properties are in [ServerTheorems], [ProtocolTheorems], [JsonTheorems], [TransportTheorems],
    [MessageTheorems], [NativeTheorems], [ThreadTheorems], [TimerTheorems],
    [SocketTheorems], [HttpTheorems], [PipedTheorems], [ProcessorTheorems], [DebugTheorems] and [DenseTheorems];
    [Examples] has the hosts and objects of their witnesses.

    ** What the theorems show

    - Protocols: a value or message written by one host is read back by any other,
      whatever the byte order, with the right counts and nothing more consumed;
      skipping a value consumes what reading it would; on any input at all the
      binary and compact readers end, with a value of the type asked for or an
      exception, though a container goes as many rounds as announced, which for elements
      that take no bytes nothing bounds; headers of
      another version and lengths out of bounds are refused; the two paths of the
      compact varint reader agree.  JSON text that is no number, a version or a
      field id out of range are refused in the ways the code has.
    - Dense protocol: a struct that fits its type spec survives the wire; by
      well-formed type specs any input is refused or read as a value that fits, and
      no assertion fails; a refusal empties the stacks, the end of the input does
      not.  Debug protocol: it prints the text that a specification of its own lays
      out ([layout]); the quoted strings can be read back.
    - Transports: TMemoryBuffer refines a queue of bytes; it grows to hold a write,
      up to 2 GiB; buffering changes only when bytes reach the transport below;
      framing gives each flushed message as one frame and refuses what is none; a
      piped transport gives its second transport the requests and replies.
    - Sockets and descriptors: values get through, however the system cuts and
      interrupts the calls; reading ends whatever it answers, and each of its errors
      becomes the exception the code has for it; opening a socket for a host leaves one
      new descriptor or none, for a path it can leave one that only passes for open.
    - HTTP: requests and responses get through, a call in the binary protocol
      inside them too; whatever bytes come, a read with nothing buffered ends and
      delivers what a reference parser finds in them; of a chunked body the first chunk is read; a
      message that is already buffered is not.
    - Decorators and processors: a multiplexed call reaches the processor of its
      service, what the multiplexing processor refuses is answered or, where the
      name is no pair, left alone; a tap copies what is read; statistics print it;
      what PeekProcessor looked at in the binary protocol is handed over byte for byte,
      unless more was read ahead than the request is long, while the field ids
      it tells of a second compact call are wrong.
    - Native Client: writing builds fresh objects that denote the value and touches
      no other; reading gives the value and ignores unknown fields; integers and
      strings that do not fit are refused; every message of the page is answered
      once, unless the handler's read throws.
    - Thread manager: in every interleaving workerCount_ and idleCount_ are exact (but
      totalTaskCount counts the workers that are not idle, at a task or not), no wakeup
      of a worker is lost, tasks leave the queue in order, and a worker calls the
      runnable of each task it is given once ([finished] records the calls); the
      workers, if there are any, empty the queue and join comes to its end in a
      bounded number of steps; the
      queue keeps its bound; a thread blocked in add can be left behind.
    - Timer manager: every task added is run once, not before its time, or is
      dropped when the manager stops; no assertion fails; the dispatcher sleeps no
      longer than to the first task and takes all that are due; told to stop it ends
      in a bounded number of steps and wakes one caller of stop, but leaves a second
      asleep; if its thread cannot be made, stop never returns.

    - Servers: whatever the calls come to, a connection is closed before the next
      (simple) or belongs to a task (threaded); told to stop a server comes to its end
      in a bounded number of steps, as long as its peers let it; no wakeup of serve is
      lost and no task is left when its wait is over; but a thread that cannot be
      started keeps it waiting for ever, and a string that is thrown makes it return
      while tasks still run.

    ** Parameters, bounds and fuel

    - [Platform]: byte order, glibc or generic conversions, which allocations
      succeed, the contents of fresh memory; [Unbounded] hosts allocate anything.
    - [Ppapi] with [PpapiLaws]: the Pepper variables; [Tables] satisfies them.
    - [CxxLibrary] with [CxxLibraryLaws]: boost::lexical_cast and the largest size of
      a std::string; [plain_cast] satisfies them.
    - [CLibrary]: what C leaves open of atoi and sscanf; [BoostStrings] with
      [BoostLaws]: the comparisons of boost; the server's clock is a [tm].
      [DuplexLaws]: what a connection is sent does not come back.
    - [Posix]: the calls of Linux on sockets and files; [StreamLaws] of a connected
      descriptor, [DescriptorLaws] of the table of descriptors; [Host] satisfies both.
    - [Tokenizer]: boost::tokenizer; [splitter] satisfies its laws.
    - An HTTP connection holds at most 2^30 unread bytes at a time ([max_input]), so
      that the size of its buffer fits 32 bits.
    - Loops of the source that consume input run on a measure of it or on fuel with
      a theorem that it suffices: varint readers stop after ten bytes, readAll after
      one round per byte, the growing loop after 33 rounds, skipping after as
      many calls as there are bytes to come, JSON strings after the largest size of
      a string, the loops of the HTTP reader after as many rounds as there are bytes.
      Fuel for [read_value] is the size of the value; over the dense protocol,
      on any input, the rank of the type and the number of fields.  Expired tasks are
      removed by recursion on the queue.
    - A step of the thread model is a critical section, or an access without mutex.
      The condition of the loops around workerMonitor_, two reads of counters that
      another mutex guards, is one step; accesses are sequentially consistent.
      Liveness is of runs without spurious wakeups and timeouts, which the
      invariants allow.
    - What a server calls (transports, factories, processor, event handler) answers
      anything, with or without an exception, but factories do not give null pointers
      and a protocol is over the transport it was made for.  One thread at a time is in
      serve.  The steps of [steps_left] are counted apart from the answers that keep a
      conversation going.
    - The timer's clock is a choice of each step that reads it: not negative, below
      2^61 milliseconds, and in one step of the dispatcher not running backwards
      ([sane]); so are the delays asked for.  Its map holds at most 2^60 tasks.

    ** Not modelled

    The compiler and its generators, and the runtimes of other languages: generated
    output and other programs.  Server sockets, TFileTransport, SSL, zlib, HTTP over
    libevent, TNonblockingServer and the thread factories: they drive the operating system or
    libraries that are not here.  TThreadPoolServer, whose loop is that of TThreadedServer
    over the thread manager.  A runnable of the timer that throws out of the
    dispatcher's thread, and the thread managers after their destruction. *)

From Stdlib Require Export ZArith Lia List Bool String Ascii.
From stdpp Require Export base list strings.

#[global] Open Scope Z_scope.

(** ** Notation scope, hint database and tactics of the development *)

Declare Scope thrift_scope.
Delimit Scope thrift_scope with thrift.
#[global] Open Scope thrift_scope.

Create HintDb thrift.
Create Rewrite HintDb zlist.

(** [bdestruct b] cases on a boolean comparison and reflects it in [Prop]. *)
Ltac breflect :=
  repeat match goal with
  | H : (_ <? _) = true |- _ => apply Z.ltb_lt in H
  | H : (_ <? _) = false |- _ => apply Z.ltb_ge in H
  | H : (_ <=? _) = true |- _ => apply Z.leb_le in H
  | H : (_ <=? _) = false |- _ => apply Z.leb_gt in H
  | H : (_ =? _) = true |- _ => apply Z.eqb_eq in H
  | H : (_ =? _) = false |- _ => apply Z.eqb_neq in H
  | H : (_ && _)%bool = true |- _ => apply andb_true_iff in H; destruct H
  | H : (_ || _)%bool = false |- _ => apply orb_false_iff in H; destruct H
  | H : negb _ = true |- _ => apply negb_true_iff in H
  | H : negb _ = false |- _ => apply negb_false_iff in H
  end.

Ltac bcase e := let E := fresh "Hb" in destruct e eqn:E; breflect.

(** Case on the first boolean test the goal is stuck on. *)
Ltac bif :=
  match goal with
  | |- context [if ?b then _ else _] => bcase b
  end.

(** Evaluate the closed products, powers and differences of numerals in the goal. *)
Ltac is_num n :=
  lazymatch n with
  | Z0 => idtac | Zpos ?p => is_pos p | Zneg ?p => is_pos p
  end
with is_pos p :=
  lazymatch p with xH => idtac | xO ?q => is_pos q | xI ?q => is_pos q end.
Ltac zeval e := let v := eval vm_compute in e in change e with v.
Ltac zconst :=
  repeat match goal with
  | |- context [Z.mul ?a ?b] => is_num a; is_num b; zeval (Z.mul a b)
  | |- context [Z.pow ?a ?b] => is_num a; is_num b; zeval (Z.pow a b)
  | |- context [Z.sub ?a ?b] => is_num a; is_num b; zeval (Z.sub a b)
  | |- context [Z.add ?a ?b] => is_num a; is_num b; zeval (Z.add a b)
  | |- context [Z.opp ?a] => is_num a; zeval (Z.opp a)
  end.

(** [lia] for goals with division and remainder by numerals. *)
Ltac dlia := zconst; Z.to_euclidean_division_equations; lia.

(** The bytes of a string literal. *)
Definition bytes_of (s : string) : list Z :=
  map (fun a => Z.of_N (N_of_ascii a)) (list_ascii_of_string s).

(** ** Lists indexed by [Z] *)

Definition zlen {A} (l : list A) : Z := Z.of_nat (length l).
Definition ztake {A} (n : Z) (l : list A) : list A := take (Z.to_nat n) l.
Definition zdrop {A} (n : Z) (l : list A) : list A := drop (Z.to_nat n) l.
(** The elements of [l] at the positions [i <= k < j]. *)
Definition zslice {A} (i j : Z) (l : list A) : list A := ztake (j - i) (zdrop i l).
Definition znth {A} (l : list A) (i : Z) : option A :=
  if i <? 0 then None else l !! Z.to_nat i.
(** [l] with the elements from position [i] on overwritten by [d]. *)
Definition zsplice {A} (i : Z) (d l : list A) : list A :=
  ztake i l ++ d ++ zdrop (i + zlen d) l.
Definition zrep {A} (n : Z) (x : A) : list A := replicate (Z.to_nat n) x.

Section ZLists.
Context {A : Type}.
Implicit Types (l d : list A) (i j n m : Z).

Lemma zlen_nonneg l : 0 <= zlen l.
Proof. unfold zlen. lia. Qed.

Lemma zlen_nil : zlen (@nil A) = 0.
Proof. reflexivity. Qed.

Lemma zlen_cons (x : A) l : zlen (x :: l) = 1 + zlen l.
Proof. unfold zlen. simpl. lia. Qed.

Lemma zlen_app l d : zlen (l ++ d) = zlen l + zlen d.
Proof. unfold zlen. rewrite length_app. lia. Qed.

Lemma zlen_ztake n l : zlen (ztake n l) = Z.max 0 (Z.min n (zlen l)).
Proof. unfold zlen, ztake. rewrite length_take. lia. Qed.

Lemma zlen_zdrop n l : zlen (zdrop n l) = Z.max 0 (zlen l - Z.max 0 n).
Proof. unfold zlen, zdrop. rewrite length_drop. lia. Qed.

Lemma zlen_zrep n (x : A) : zlen (zrep n x) = Z.max 0 n.
Proof. unfold zlen, zrep. rewrite length_replicate. lia. Qed.

Lemma zlen_zslice i j l :
  0 <= i <= j -> j <= zlen l -> zlen (zslice i j l) = j - i.
Proof. intros. unfold zslice. rewrite zlen_ztake, zlen_zdrop. lia. Qed.

Lemma zlen_zsplice i d l :
  0 <= i -> i + zlen d <= zlen l -> zlen (zsplice i d l) = zlen l.
Proof.
  intros. pose proof (zlen_nonneg d). unfold zsplice.
  rewrite !zlen_app, zlen_ztake, zlen_zdrop. lia.
Qed.

Lemma zlen_0 l : zlen l = 0 -> l = [].
Proof. destruct l; [done|]. unfold zlen; simpl; lia. Qed.

Lemma ztake_zdrop n l : ztake n l ++ zdrop n l = l.
Proof. apply take_drop. Qed.

Lemma ztake_app n l d : n = zlen l -> ztake n (l ++ d) = l.
Proof. intros ->. unfold ztake, zlen. rewrite Nat2Z.id. apply take_app_length. Qed.

Lemma zdrop_app n l d : n = zlen l -> zdrop n (l ++ d) = d.
Proof. intros ->. unfold zdrop, zlen. rewrite Nat2Z.id. apply drop_app_length. Qed.

Lemma ztake_ge n l : zlen l <= n -> ztake n l = l.
Proof. intros. apply take_ge. unfold zlen in *. lia. Qed.

Lemma zdrop_ge n l : zlen l <= n -> zdrop n l = [].
Proof. intros. apply drop_ge. unfold zlen in *. lia. Qed.

Lemma ztake_0 n l : n <= 0 -> ztake n l = [].
Proof. intros. unfold ztake. replace (Z.to_nat n) with O by lia. reflexivity. Qed.

Lemma zdrop_0 n l : n <= 0 -> zdrop n l = l.
Proof. intros. unfold zdrop. replace (Z.to_nat n) with O by lia. reflexivity. Qed.

Lemma zdrop_zdrop i j l : 0 <= i -> 0 <= j -> zdrop i (zdrop j l) = zdrop (i + j) l.
Proof. intros. unfold zdrop. rewrite drop_drop. f_equal. lia. Qed.

Lemma ztake_ztake i j l : ztake i (ztake j l) = ztake (Z.min i j) l.
Proof. unfold ztake. rewrite take_take. f_equal. lia. Qed.

Lemma ztake_add i j l : 0 <= i -> 0 <= j -> ztake (i + j) l = ztake i l ++ ztake j (zdrop i l).
Proof.
  intros. rewrite <- (ztake_zdrop i (ztake (i + j) l)), ztake_ztake.
  f_equal; [f_equal; lia|]. unfold ztake, zdrop. rewrite skipn_firstn_comm. f_equal. lia.
Qed.

Lemma ztake_app_le n l d : n <= zlen l -> ztake n (l ++ d) = ztake n l.
Proof. intros. unfold ztake, zlen in *. apply take_app_le. lia. Qed.

Lemma zdrop_app_le n l d : n <= zlen l -> zdrop n (l ++ d) = zdrop n l ++ d.
Proof. intros. unfold zdrop, zlen in *. apply drop_app_le. lia. Qed.

(** Splitting, joining and shifting of slices. *)
Lemma zslice_split i j n l :
  0 <= i <= j -> j <= n -> zslice i n l = zslice i j l ++ zslice j n l.
Proof.
  intros Hij Hjn. unfold zslice.
  rewrite <- (ztake_zdrop (j - i) (ztake (n - i) (zdrop i l))) at 1.
  rewrite ztake_ztake. f_equal; [f_equal; lia|].
  unfold ztake, zdrop. rewrite skipn_firstn_comm, drop_drop.
  f_equal; [lia|f_equal; lia].
Qed.

Lemma zslice_empty i j l : j <= i -> zslice i j l = [].
Proof. intros. unfold zslice. apply ztake_0. lia. Qed.

Lemma zslice_prefix i j n l :
  0 <= i -> 0 <= n <= j - i -> ztake n (zslice i j l) = zslice i (i + n) l.
Proof. intros. unfold zslice. rewrite ztake_ztake. f_equal. lia. Qed.

Lemma zslice_suffix i j n l :
  0 <= i -> 0 <= n <= j - i -> zdrop n (zslice i j l) = zslice (i + n) j l.
Proof.
  intros. unfold zslice, ztake, zdrop. rewrite skipn_firstn_comm, drop_drop.
  f_equal; [lia|f_equal; lia].
Qed.

Lemma zslice_full l : zslice 0 (zlen l) l = l.
Proof. unfold zslice. rewrite zdrop_0 by lia. apply ztake_ge. lia. Qed.

Lemma zslice_app_l i j l d : 0 <= i -> j <= zlen l -> zslice i j (l ++ d) = zslice i j l.
Proof.
  intros. destruct (Z_lt_le_dec j i) as [Hlt|Hle].
  - rewrite !zslice_empty by lia. reflexivity.
  - unfold zslice. rewrite zdrop_app_le by lia.
    apply ztake_app_le. rewrite zlen_zdrop. lia.
Qed.

(** A splice leaves what is before it and reads back as the data. *)
Lemma zslice_zsplice_before i j n d l :
  0 <= i -> j <= n -> n <= zlen l -> zslice i j (zsplice n d l) = zslice i j l.
Proof.
  intros. unfold zsplice. destruct (Z_lt_le_dec j i) as [Hlt|Hle].
  { rewrite !zslice_empty by lia. reflexivity. }
  rewrite zslice_app_l; [|lia|rewrite zlen_ztake; lia].
  rewrite <- (ztake_zdrop n l) at 2. rewrite zslice_app_l; [done|lia|].
  rewrite zlen_ztake. lia.
Qed.

Lemma zdrop_app_ge n l d : zlen l <= n -> zdrop n (l ++ d) = zdrop (n - zlen l) d.
Proof.
  intros. unfold zdrop, zlen in *. rewrite drop_app_ge by lia. f_equal. lia.
Qed.

Lemma zslice_zsplice_after i j n d l :
  0 <= n -> n + zlen d <= i -> n + zlen d <= zlen l ->
  zslice i j (zsplice n d l) = zslice i j l.
Proof.
  intros. pose proof (zlen_nonneg d). unfold zslice, zsplice. f_equal. rewrite app_assoc.
  assert (zlen (ztake n l ++ d) = n + zlen d) as Hl by (rewrite zlen_app, zlen_ztake; lia).
  rewrite zdrop_app_ge by lia. rewrite Hl, zdrop_zdrop by lia. f_equal. lia.
Qed.

Lemma zslice_zsplice_at n d l :
  0 <= n <= zlen l -> zslice n (n + zlen d) (zsplice n d l) = d.
Proof.
  intros. unfold zslice, zsplice.
  rewrite zdrop_app by (rewrite zlen_ztake; lia).
  apply ztake_app. lia.
Qed.

Lemma zslice_all_app i j l d :
  i = zlen l -> j = zlen l + zlen d -> zslice i j (l ++ d) = d.
Proof.
  intros -> ->. unfold zslice. rewrite zdrop_app by done. apply ztake_ge. lia.
Qed.

Lemma znth_app_r l d i : zlen l <= i -> znth (l ++ d) i = znth d (i - zlen l).
Proof.
  intros. pose proof (zlen_nonneg l). unfold znth.
  replace (i <? 0) with false by lia. replace (i - zlen l <? 0) with false by lia.
  unfold zlen in *. rewrite lookup_app_r by lia. f_equal. lia.
Qed.

Lemma znth_app_l l d i : i < zlen l -> znth (l ++ d) i = znth l i.
Proof.
  intros. unfold znth. bif; [done|]. unfold zlen in *. apply lookup_app_l. lia.
Qed.

Lemma znth_cons_0 (x : A) l : znth (x :: l) 0 = Some x.
Proof. reflexivity. Qed.

Lemma Forall_zslice (P : A -> Prop) i j l : Forall P l -> Forall P (zslice i j l).
Proof. intros. unfold zslice, ztake, zdrop. by apply Forall_take, Forall_drop. Qed.
End ZLists.

#[export] Hint Rewrite @zlen_nil @zlen_cons @zlen_app @zlen_ztake @zlen_zdrop @zlen_zrep : zlist.
#[export] Hint Resolve zlen_nonneg : thrift.

(** [zlist] normalises lengths and calls [lia]. *)
Ltac zlen_pos l :=
  lazymatch goal with H : 0 <= zlen l |- _ => fail | _ => pose proof (zlen_nonneg l) end.
Ltac zlist :=
  autorewrite with zlist in *;
  repeat match goal with
  | |- context [zlen ?l] => zlen_pos l
  | _ : context [zlen ?l] |- _ => zlen_pos l
  end; try lia.
