(* ===== verification/Machine.v ===== *)
(** * Machine integers, object representations and byte order

    Fixed-width integers are [Z] with the wrap-around written out.  A byte is a
    [Z] in [[0,256)].  [store]/[load] give the bytes of an integer object in the
    memory of a host of either byte order; [htons], [htonl], [ntohl] and the
    64-bit conversions of protocol/TProtocol.h are defined on top of them. *)

From S2P Require Export Prelude.

(** ** Wrap-around *)

Definition wrapu (w z : Z) : Z := z mod 2 ^ w.
Definition wraps (w z : Z) : Z := (z + 2 ^ (w - 1)) mod 2 ^ w - 2 ^ (w - 1).

Abbreviation u8 := (wrapu 8).
Abbreviation u16 := (wrapu 16).
Abbreviation u32 := (wrapu 32).
Abbreviation u64 := (wrapu 64).
Abbreviation s8 := (wraps 8).
Abbreviation s16 := (wraps 16).
Abbreviation s32 := (wraps 32).
Abbreviation s64 := (wraps 64).

Definition in_u (w z : Z) : Prop := 0 <= z < 2 ^ w.
Definition in_s (w z : Z) : Prop := - 2 ^ (w - 1) <= z < 2 ^ (w - 1).

Definition is_byte (b : Z) : Prop := 0 <= b < 256.
Abbreviation bytes_ok := (Forall is_byte).

#[export] Instance is_byte_dec b : Decision (is_byte b).
Proof. unfold is_byte. apply _. Defined.
#[export] Instance in_u_dec w z : Decision (in_u w z).
Proof. unfold in_u. apply _. Defined.
#[export] Instance in_s_dec w z : Decision (in_s w z).
Proof. unfold in_s. apply _. Defined.

(** ** Object representations *)

Fixpoint le_bytes (n : nat) (z : Z) : list Z :=
  match n with
  | O => []
  | S n' => z mod 256 :: le_bytes n' (z / 256)
  end.

Fixpoint of_le (l : list Z) : Z :=
  match l with
  | [] => 0
  | b :: l' => b + 256 * of_le l'
  end.

Definition be_bytes (n : nat) (z : Z) : list Z := rev (le_bytes n z).
Definition of_be (l : list Z) : Z := of_le (rev l).

Inductive endian := LittleEndian | BigEndian.

#[export] Instance endian_eq_dec : EqDecision endian.
Proof. solve_decision. Defined.

(** What the build and the machine fix: the byte order of the host, whether the
    C library is glibc (it selects the definitions of the 64-bit conversions),
    which heap requests succeed, and the value of uninitialised heap bytes. *)
Class Platform := {
  byte_order : endian;
  glibc : bool;
  can_alloc : Z -> bool;
  junk : Z;
  junk_byte : is_byte junk
}.

(** Every heap request succeeds: assumed where a theorem is not about
    [std::bad_alloc]. *)
Class Unbounded `{Platform} : Prop := always_alloc : forall n, can_alloc n = true.

Section Host.
Context `{Platform}.

(** The bytes of an [n]-byte unsigned object holding [z]. *)
Definition store (n : nat) (z : Z) : list Z :=
  match byte_order with LittleEndian => le_bytes n z | BigEndian => be_bytes n z end.

Definition load (l : list Z) : Z :=
  match byte_order with LittleEndian => of_le l | BigEndian => of_be l end.

(** Byte reversal of an [n]-byte integer: [bswap_16], [bswap_32] and
    [bswap_64] of the C library's byteswap.h. *)
Definition bswap (n : nat) (z : Z) : Z := of_be (le_bytes n z).

(** [htons]/[ntohs] and [htonl]/[ntohl] of the C library. *)
Definition hton (n : nat) (z : Z) : Z :=
  match byte_order with LittleEndian => bswap n z | BigEndian => z end.

Abbreviation htonl := (hton 4).

(** The [bswap_64] macro TProtocol.h defines where the C library has none. *)
Definition bswap_64 (n : Z) : Z :=
  Z.lor (Z.shiftr (Z.land n 0xff00000000000000) 56)
  (Z.lor (Z.shiftr (Z.land n 0x00ff000000000000) 40)
  (Z.lor (Z.shiftr (Z.land n 0x0000ff0000000000) 24)
  (Z.lor (Z.shiftr (Z.land n 0x000000ff00000000) 8)
  (Z.lor (u64 (Z.shiftl (Z.land n 0x00000000ff000000) 8))
  (Z.lor (u64 (Z.shiftl (Z.land n 0x0000000000ff0000) 24))
  (Z.lor (u64 (Z.shiftl (Z.land n 0x000000000000ff00) 40))
         (u64 (Z.shiftl (Z.land n 0x00000000000000ff) 56)))))))).

(** [htonll] and [ntohll] have the same definition in every configuration. *)
Definition htonll (n : Z) : Z :=
  match byte_order with
  | BigEndian => n
  | LittleEndian =>
      if glibc then bswap 8 n
      else u64 (u64 (Z.shiftl (htonl (u32 n)) 32) + htonl (u32 (Z.shiftr n 32)))
  end.
Definition ntohll : Z -> Z := htonll.

Definition htolell (n : Z) : Z :=
  match byte_order with
  | BigEndian => if glibc then bswap 8 n else bswap_64 n
  | LittleEndian => n
  end.
Definition letohll : Z -> Z := htolell.
End Host.

Abbreviation htons := (hton 2).
Abbreviation ntohs := (hton 2).
Abbreviation htonl := (hton 4).
Abbreviation ntohl := (hton 4).

(** ** Lemmas: wrap-around *)

Section Wrap.
Implicit Types w z : Z.

Lemma wrapu_range w z : 0 <= w -> in_u w (wrapu w z).
Proof. intros. apply Z.mod_pos_bound. lia. Qed.

Lemma wrapu_small w z : in_u w z -> wrapu w z = z.
Proof. intros. by apply Z.mod_small. Qed.

Lemma wraps_range w z : 1 <= w -> in_s w (wraps w z).
Proof.
  intros. unfold in_s, wraps.
  replace (2 ^ w) with (2 * 2 ^ (w - 1))
    by (rewrite <- Z.pow_succ_r by lia; f_equal; lia).
  pose proof (Z.pow_pos_nonneg 2 (w - 1)).
  pose proof (Z.mod_pos_bound (z + 2 ^ (w - 1)) (2 * 2 ^ (w - 1))). lia.
Qed.

Lemma wraps_small w z : 1 <= w -> in_s w z -> wraps w z = z.
Proof.
  intros ? Hz. unfold in_s, wraps in *.
  rewrite Z.mod_small; [lia|].
  replace (2 ^ w) with (2 * 2 ^ (w - 1))
    by (rewrite <- Z.pow_succ_r by lia; f_equal; lia). lia.
Qed.

Lemma wraps_wrapu w z : 1 <= w -> wraps w (wrapu w z) = wraps w z.
Proof. intros. unfold wraps, wrapu. by rewrite Z.add_mod_idemp_l by lia. Qed.

Lemma wrapu_wraps w z : 1 <= w -> wrapu w (wraps w z) = wrapu w z.
Proof.
  intros. unfold wraps, wrapu.
  rewrite Zminus_mod_idemp_l. f_equal. lia.
Qed.

Lemma wraps_mod w z : 1 <= w -> wraps w (z mod 2 ^ w) = wraps w z.
Proof. apply wraps_wrapu. Qed.
End Wrap.

Lemma is_byte_u8 z : is_byte (u8 z).
Proof. apply (wrapu_range 8). lia. Qed.

Lemma is_byte_in_u b : is_byte b <-> in_u 8 b.
Proof. reflexivity. Qed.

Lemma u8_byte b : is_byte b -> u8 b = b.
Proof. apply (wrapu_small 8). Qed.

Lemma s8_u8 b : s8 (u8 b) = s8 b.
Proof. by apply wraps_wrapu. Qed.

Lemma u8_s8 b : is_byte b -> u8 (s8 b) = b.
Proof. intros. rewrite wrapu_wraps by lia. by apply u8_byte. Qed.

#[export] Hint Resolve is_byte_u8 : thrift.

(** Facts about all bytes, by evaluation. *)
Lemma byte_cases (f : Z -> bool) :
  forallb f (map Z.of_nat (seq 0 256)) = true -> forall x, is_byte x -> f x = true.
Proof.
  intros Hf x Hx. rewrite forallb_forall in Hf. apply Hf. unfold is_byte in Hx.
  rewrite in_map_iff. exists (Z.to_nat x). split; [lia|]. apply in_seq. lia.
Qed.

(** Sums of wrapped counts. *)
Lemma u32_add_l a b : u32 (u32 a + b) = u32 (a + b).
Proof. apply Zplus_mod_idemp_l. Qed.
Lemma u32_add_r a b : u32 (a + u32 b) = u32 (a + b).
Proof. apply Zplus_mod_idemp_r. Qed.
Lemma u32_u32 a : u32 (u32 a) = u32 a.
Proof. apply Zmod_mod. Qed.

Lemma u32_add_cong a a' b b' : u32 a = u32 a' -> u32 b = u32 b' -> u32 (a + b) = u32 (a' + b').
Proof.
  intros Ha Hb. rewrite <- (u32_add_l a), Ha, u32_add_l.
  by rewrite <- (u32_add_r a'), Hb, u32_add_r.
Qed.

Lemma u32_add_ll a b c : u32 (u32 a + b + c) = u32 (a + b + c).
Proof. apply u32_add_cong; [apply u32_add_l|done]. Qed.
Lemma u32_add_lr a b c : u32 (a + u32 b + c) = u32 (a + b + c).
Proof. apply u32_add_cong; [apply u32_add_r|done]. Qed.
Lemma u32_add_lll a b c d : u32 (u32 a + b + c + d) = u32 (a + b + c + d).
Proof. apply u32_add_cong; [apply u32_add_ll|done]. Qed.
Lemma u32_add_llr a b c d : u32 (a + u32 b + c + d) = u32 (a + b + c + d).
Proof. apply u32_add_cong; [apply u32_add_lr|done]. Qed.

Create Rewrite HintDb wrap.
#[export] Hint Rewrite u32_add_l u32_add_r u32_u32 u32_add_ll u32_add_lr u32_add_lll u32_add_llr : wrap.

(** Remove the innermost wrap-arounds of values in range. *)
Ltac unwrap :=
  repeat match goal with
  | |- context [wrapu ?w ?z] =>
      lazymatch z with context [wrapu _ _] => fail | context [wraps _ _] => fail | _ => idtac end;
      rewrite (wrapu_small w z) by (unfold in_u; lia)
  | |- context [wraps ?w ?z] =>
      lazymatch z with context [wrapu _ _] => fail | context [wraps _ _] => fail | _ => idtac end;
      rewrite (wraps_small w z) by (unfold in_s; lia)
  end.

(** ** Lemmas: object representations *)

Lemma length_le_bytes n z : length (le_bytes n z) = n.
Proof. revert z. induction n; intros; simpl; auto. Qed.

Lemma length_be_bytes n z : length (be_bytes n z) = n.
Proof. unfold be_bytes. rewrite length_rev. apply length_le_bytes. Qed.

Lemma le_bytes_ok n z : bytes_ok (le_bytes n z).
Proof.
  revert z. induction n; intros; simpl; constructor; auto.
  apply Z.mod_pos_bound. lia.
Qed.

Lemma be_bytes_ok n z : bytes_ok (be_bytes n z).
Proof. unfold be_bytes. apply Forall_rev, le_bytes_ok. Qed.

Lemma of_le_bytes n z : of_le (le_bytes n z) = z mod 256 ^ Z.of_nat n.
Proof.
  revert z. induction n as [|n IH]; intros; cbn [le_bytes of_le].
  { rewrite Z.mod_1_r. reflexivity. }
  rewrite IH, Nat2Z.inj_succ, Z.pow_succ_r by lia.
  rewrite Z.rem_mul_r by lia. reflexivity.
Qed.

Lemma of_be_bytes n z : of_be (be_bytes n z) = z mod 256 ^ Z.of_nat n.
Proof. unfold of_be, be_bytes. rewrite rev_involutive. apply of_le_bytes. Qed.

Lemma le_bytes_of_le l : bytes_ok l -> le_bytes (length l) (of_le l) = l.
Proof.
  induction 1 as [|b l Hb _ IH]; cbn [length le_bytes of_le]; [done|].
  unfold is_byte in Hb. f_equal.
  - rewrite Z.mul_comm, Z_mod_plus_full. by apply Z.mod_small.
  - rewrite Z.mul_comm, Z.div_add by lia. rewrite Z.div_small by lia. apply IH.
Qed.

Lemma be_bytes_of_be n l : bytes_ok l -> length l = n -> be_bytes n (of_be l) = l.
Proof.
  intros Hl <-. unfold be_bytes, of_be. rewrite <- (length_rev l), le_bytes_of_le by (by apply Forall_rev).
  apply rev_involutive.
Qed.

Lemma le_bytes_mod n z : le_bytes n (z mod 256 ^ Z.of_nat n) = le_bytes n z.
Proof.
  rewrite <- of_le_bytes. rewrite <- (length_le_bytes n z) at 1.
  apply le_bytes_of_le, le_bytes_ok.
Qed.

Lemma be_bytes_mod n z : be_bytes n (z mod 256 ^ Z.of_nat n) = be_bytes n z.
Proof. unfold be_bytes. by rewrite le_bytes_mod. Qed.

Lemma of_le_range l : bytes_ok l -> 0 <= of_le l < 256 ^ zlen l.
Proof.
  induction 1 as [|b l Hb _ IH]; cbn [of_le]; [split; [lia|reflexivity]|].
  rewrite zlen_cons, Z.pow_add_r by (pose proof (zlen_nonneg l); lia).
  unfold is_byte in Hb. lia.
Qed.

Section HostLemmas.
Context `{Platform}.

Lemma length_store n z : length (store n z) = n.
Proof. unfold store. case_match; [apply length_le_bytes|apply length_be_bytes]. Qed.

Lemma load_store n z : load (store n z) = z mod 256 ^ Z.of_nat n.
Proof. unfold load, store. case_match; [apply of_le_bytes|apply of_be_bytes]. Qed.

Lemma store_bytes_ok n z : bytes_ok (store n z).
Proof. unfold store. case_match; [apply le_bytes_ok|apply be_bytes_ok]. Qed.

(** The host's byte order cancels out: what goes to the wire is big-endian. *)
Lemma store_hton n z : store n (hton n z) = be_bytes n z.
Proof.
  unfold store, hton. case_match; [|done]. unfold bswap, of_be, be_bytes.
  set (l := rev (le_bytes n z)). assert (length l = n) as Hl.
  { unfold l. rewrite length_rev. apply length_le_bytes. }
  rewrite <- Hl at 1. apply le_bytes_of_le, Forall_rev, le_bytes_ok.
Qed.

Lemma ntoh_load n z : hton n (load (be_bytes n z)) = z mod 256 ^ Z.of_nat n.
Proof.
  unfold load, hton. case_match; [|apply of_be_bytes].
  unfold bswap. rewrite <- (length_be_bytes n z) at 1.
  rewrite le_bytes_of_le by apply be_bytes_ok. apply of_be_bytes.
Qed.
End HostLemmas.

(** The same for a value converted to the unsigned type of its width. *)
Lemma store_hton_wrap `{Platform} n z : store n (hton n (wrapu (8 * Z.of_nat n) z)) = be_bytes n z.
Proof.
  rewrite store_hton. unfold wrapu. rewrite Z.pow_mul_r by lia. apply be_bytes_mod.
Qed.

Lemma wraps_ntoh `{Platform} n z :
  (0 < n)%nat -> in_s (8 * Z.of_nat n) z ->
  wraps (8 * Z.of_nat n) (hton n (load (be_bytes n z))) = z.
Proof.
  intros Hn Hz. rewrite ntoh_load. change 256 with (2 ^ 8). rewrite <- Z.pow_mul_r by lia.
  rewrite wraps_mod by lia. apply wraps_small; [lia|done].
Qed.

Lemma zlen_be_bytes n z : zlen (be_bytes n z) = Z.of_nat n.
Proof. unfold zlen. by rewrite length_be_bytes. Qed.
#[export] Hint Rewrite zlen_be_bytes : zlist.

(** ** The 64-bit conversions *)

Section Conversions64.
Context `{Platform}.

Lemma land_byte n k : 0 <= k -> Z.land n (Z.shiftl 255 k) = Z.shiftl ((n / 2 ^ k) mod 256) k.
Proof.
  intros. apply Z.bits_inj'. intros i Hi.
  rewrite Z.land_spec, !Z.shiftl_spec by lia.
  destruct (Z_lt_le_dec i k) as [Hlt|Hle].
  - rewrite !(Z.testbit_neg_r _ (i - k)) by lia. apply andb_false_r.
  - change 256 with (2 ^ 8). change 255 with (Z.ones 8).
    destruct (Z_lt_le_dec (i - k) 8).
    + rewrite Z.ones_spec_low, Z.mod_pow2_bits_low, Z.div_pow2_bits by lia.
      rewrite andb_true_r. f_equal. lia.
    + rewrite Z.ones_spec_high, Z.mod_pow2_bits_high by lia. apply andb_false_r.
Qed.

Lemma lor_disjoint a b k : 0 <= k -> 0 <= b < 2 ^ k -> a mod 2 ^ k = 0 -> Z.lor a b = a + b.
Proof.
  intros Hk Hb Ha. rewrite (Z.div_mod a (2 ^ k)), Ha, Z.add_0_r by lia.
  rewrite Z.mul_comm, <- Z.shiftl_mul_pow2 by lia.
  assert (Z.land (Z.shiftl (a / 2 ^ k) k) b = 0) as Hd.
  { apply Z.bits_inj'. intros i Hi. rewrite Z.land_spec, Z.bits_0, Z.shiftl_spec by lia.
    destruct (Z_lt_le_dec i k).
    - rewrite Z.testbit_neg_r by lia. done.
    - rewrite <- (Z.mod_small b (2 ^ k)) by lia.
      rewrite Z.mod_pow2_bits_high by lia. apply andb_false_r. }
  rewrite <- Z.add_lor_land, Hd. lia.
Qed.

Lemma le_bytes_app n m z :
  le_bytes (n + m) z = le_bytes n z ++ le_bytes m (z / 256 ^ Z.of_nat n).
Proof.
  revert z. induction n as [|n IH]; intros; cbn [Nat.add le_bytes app].
  { by rewrite Z.div_1_r. }
  rewrite IH, Z.div_div by lia. do 4 f_equal.
  rewrite Nat2Z.inj_succ, Z.pow_succ_r by lia. lia.
Qed.

(** Byte [i] of [n], the digit [le_bytes] puts at position [i]. *)
Definition byte_at (i : Z) (n : Z) : Z := (n / 2 ^ (8 * i)) mod 256.

Lemma byte_at_range i n : 0 <= byte_at i n < 256.
Proof. apply Z.mod_pos_bound. lia. Qed.

Lemma bswap_8_digits n :
  bswap 8 n = byte_at 7 n + 256 * (byte_at 6 n + 256 * (byte_at 5 n + 256 * (byte_at 4 n
    + 256 * (byte_at 3 n + 256 * (byte_at 2 n + 256 * (byte_at 1 n + 256 * byte_at 0 n)))))).
Proof.
  unfold bswap, of_be, byte_at. cbn [le_bytes rev app of_le].
  rewrite !Z.div_div by lia. zconst.
  rewrite Z.div_1_r. lia.
Qed.

Lemma mask_digit n i :
  0 <= i -> Z.land n (Z.shiftl 255 (8 * i)) = byte_at i n * 2 ^ (8 * i).
Proof. intros. rewrite land_byte, Z.shiftl_mul_pow2 by lia. reflexivity. Qed.

Lemma lor_low a b k : 0 <= k -> 0 <= a < 2 ^ k -> b mod 2 ^ k = 0 -> Z.lor a b = a + b.
Proof. intros. rewrite Z.lor_comm, (lor_disjoint b a k) by done. lia. Qed.

(** Turn the innermost [Z.lor] into a sum, its left operand being below [2 ^ k]. *)
Ltac lor_add k :=
  match goal with
  | |- context [Z.lor ?a ?b] =>
      lazymatch b with context [Z.lor _ _] => fail | _ => idtac end;
      rewrite (lor_low a b k) by dlia
  end.

Lemma bswap_64_bswap n : bswap_64 n = bswap 8 n.
Proof.
  rewrite bswap_8_digits. unfold bswap_64.
  change 0xff00000000000000 with (Z.shiftl 255 (8 * 7)).
  change 0x00ff000000000000 with (Z.shiftl 255 (8 * 6)).
  change 0x0000ff0000000000 with (Z.shiftl 255 (8 * 5)).
  change 0x000000ff00000000 with (Z.shiftl 255 (8 * 4)).
  change 0x00000000ff000000 with (Z.shiftl 255 (8 * 3)).
  change 0x0000000000ff0000 with (Z.shiftl 255 (8 * 2)).
  change 0x000000000000ff00 with (Z.shiftl 255 (8 * 1)).
  change 0x00000000000000ff with (Z.shiftl 255 (8 * 0)).
  rewrite !mask_digit by lia.
  rewrite !Z.shiftr_div_pow2, !Z.shiftl_mul_pow2 by lia.
  pose proof (byte_at_range 0 n). pose proof (byte_at_range 1 n).
  pose proof (byte_at_range 2 n). pose proof (byte_at_range 3 n).
  pose proof (byte_at_range 4 n). pose proof (byte_at_range 5 n).
  pose proof (byte_at_range 6 n). pose proof (byte_at_range 7 n).
  rewrite !wrapu_small by (unfold in_u; zconst; lia).
  zconst.
  lor_add 56. lor_add 48. lor_add 40. lor_add 32. lor_add 24. lor_add 16. lor_add 8.
  dlia.
Qed.

Lemma of_be_range n z : 0 <= of_le (rev (le_bytes n z)) < 256 ^ Z.of_nat n.
Proof.
  pose proof (of_le_range (rev (le_bytes n z))) as Hr. unfold zlen in Hr.
  rewrite length_rev, length_le_bytes in Hr. apply Hr, Forall_rev, le_bytes_ok.
Qed.

Lemma htonll_bswap n : in_u 64 n -> htonll n = hton 8 n.
Proof.
  intros Hn. unfold htonll, hton. case_match; [|done]. case_match; [done|].
  unfold bswap, of_be, wrapu.
  change (2 ^ 32) with (256 ^ Z.of_nat 4). rewrite !le_bytes_mod.
  rewrite Z.shiftr_div_pow2 by lia. change (2 ^ 32) with (256 ^ Z.of_nat 4).
  rewrite (le_bytes_app 4 4). set (l1 := le_bytes 4 n). set (l2 := le_bytes 4 _).
  pose proof (of_be_range 4 n) as Hr1. pose proof (of_be_range 4 (n / 256 ^ Z.of_nat 4)) as Hr2.
  fold l1 in Hr1. fold l2 in Hr2. cbn [Z.of_nat Pos.of_succ_nat Pos.succ] in Hr1, Hr2.
  rewrite Z.shiftl_mul_pow2 by lia. zconst.
  rewrite (Z.mod_small (_ * _)) by lia. rewrite Z.mod_small by lia.
  rewrite rev_app_distr. unfold l1, l2. cbn [le_bytes rev app of_le]. lia.
Qed.

(** Whatever the host and the C library, [htonll] puts big-endian bytes on the
    wire and [ntohll] reads them back; [htolell] and [letohll] little-endian. *)
Lemma store_htonll n : in_u 64 n -> store 8 (htonll n) = be_bytes 8 n.
Proof. intros. rewrite htonll_bswap by done. apply store_hton. Qed.

Lemma load_range l : bytes_ok l -> 0 <= load l < 256 ^ zlen l.
Proof.
  intros Hl. unfold load. case_match; [by apply of_le_range|].
  replace (zlen l) with (zlen (rev l)) by (unfold zlen; by rewrite length_rev).
  by apply of_le_range, Forall_rev.
Qed.

Lemma ntohll_load n : in_u 64 n -> ntohll (load (be_bytes 8 n)) = n.
Proof.
  intros Hn. unfold ntohll. rewrite htonll_bswap.
  - rewrite ntoh_load. by apply Z.mod_small.
  - apply (load_range (be_bytes 8 n)), be_bytes_ok.
Qed.

Lemma htolell_bytes n : store 8 (htolell n) = le_bytes 8 n.
Proof.
  unfold htolell, store. destruct byte_order; [done|].
  replace (if glibc then _ else _) with (bswap 8 n)
    by (case_match; [done|by rewrite bswap_64_bswap]).
  unfold bswap, be_bytes, of_be.
  assert (length (rev (le_bytes 8 n)) = 8%nat) as Hl by reflexivity.
  rewrite <- Hl at 1. rewrite le_bytes_of_le by apply Forall_rev, le_bytes_ok.
  apply rev_involutive.
Qed.

Lemma letohll_load n : in_u 64 n -> letohll (load (le_bytes 8 n)) = n.
Proof.
  intros Hn. unfold letohll, htolell, load. destruct byte_order.
  { rewrite of_le_bytes. by apply Z.mod_small. }
  replace (if glibc then _ else _) with (bswap 8 (of_be (le_bytes 8 n)))
    by (case_match; [done|by rewrite bswap_64_bswap]).
  unfold bswap, of_be.
  assert (length (rev (le_bytes 8 n)) = 8%nat) as Hl by reflexivity.
  rewrite <- Hl at 1. rewrite le_bytes_of_le by apply Forall_rev, le_bytes_ok.
  rewrite rev_involutive, of_le_bytes. by apply Z.mod_small.
Qed.
End Conversions64.

#[global] Arguments be_bytes : simpl never.
#[global] Arguments le_bytes : simpl never.
#[global] Arguments of_be : simpl never.
#[global] Arguments of_le : simpl never.
