(* ===== verification/Effects.v ===== *)
(** * Exceptions and effects

    The exception classes of the runtime ([TException], [TTransportException],
    [TProtocolException], [std::bad_alloc]) and the monad the stateful code is
    written in: a computation takes the object's state and returns an outcome
    with the state it leaves behind, also when it throws.  [Crash] is a failed
    [assert] or undefined behaviour; [OutOfFuel] is a loop the model stopped.
    [runs m s Q E] is total correctness: [m] neither crashes nor diverges, and
    ends with a value and state in [Q] or an exception and state in [E]. *)

From S2P Require Export Prelude.

(** ** Exception classes *)

Module TTransportException.
Inductive Type_ :=
  UNKNOWN | NOT_OPEN | TIMED_OUT | END_OF_FILE | INTERRUPTED | BAD_ARGS
| CORRUPTED_DATA | INTERNAL_ERROR.

#[global] Instance Type_eq_dec : EqDecision Type_.
Proof. solve_decision. Defined.

Definition what (type_ : Type_) (message_ : string) : string :=
  if String.eqb message_ "" then
    match type_ with
    | UNKNOWN => "TTransportException: Unknown transport exception"
    | NOT_OPEN => "TTransportException: Transport not open"
    | TIMED_OUT => "TTransportException: Timed out"
    | END_OF_FILE => "TTransportException: End of file"
    | INTERRUPTED => "TTransportException: Interrupted"
    | BAD_ARGS => "TTransportException: Invalid arguments"
    | CORRUPTED_DATA => "TTransportException: Corrupted Data"
    | INTERNAL_ERROR => "TTransportException: Internal error"
    end
  else message_.
End TTransportException.

Module TProtocolException.
Inductive Type_ :=
  UNKNOWN | INVALID_DATA | NEGATIVE_SIZE | SIZE_LIMIT | BAD_VERSION
| NOT_IMPLEMENTED.

#[global] Instance Type_eq_dec : EqDecision Type_.
Proof. solve_decision. Defined.

Definition what (type_ : Type_) (message_ : string) : string :=
  if String.eqb message_ "" then
    match type_ with
    | UNKNOWN => "TProtocolException: Unknown protocol exception"
    | INVALID_DATA => "TProtocolException: Invalid data"
    | NEGATIVE_SIZE => "TProtocolException: Negative size"
    | SIZE_LIMIT => "TProtocolException: Exceeded size limit"
    | BAD_VERSION => "TProtocolException: Invalid version"
    | NOT_IMPLEMENTED => "TProtocolException: Not implemented"
    end
  else message_.
End TProtocolException.

(** A thrown object: its dynamic class, its [type_] and its [message_].
    [EProtocolPointer] is [throw new TProtocolException(...)]: what is thrown is
    a pointer, which no handler of [TException] or [std::exception] takes, and
    neither takes [EString], a string that is thrown. *)
Inductive exn :=
| ETransport (type_ : TTransportException.Type_) (message_ : string)
| EProtocol (type_ : TProtocolException.Type_) (message_ : string)
| EThrift (message_ : string)
| EBadAlloc
| EProtocolPointer (type_ : TProtocolException.Type_) (message_ : string)
| EString (message_ : string).

#[export] Instance exn_eq_dec : EqDecision exn.
Proof. solve_decision. Defined.

Definition TException_what (message_ : string) : string :=
  if String.eqb message_ "" then "Default TException." else message_.

(** The virtual [what()] of what [catch (std::exception&)] takes. *)
Definition what (e : exn) : option string :=
  match e with
  | ETransport t m => Some (TTransportException.what t m)
  | EProtocol t m => Some (TProtocolException.what t m)
  | EThrift m => Some (TException_what m)
  | EBadAlloc => Some "std::bad_alloc"
  | EProtocolPointer _ _ | EString _ => None
  end.

(** ** The monad *)

Inductive crash := AssertionFailed | UndefinedBehaviour.

Inductive outcome (A : Type) :=
| Ok (a : A)
| Throw (e : exn)
| Crash (c : crash)
| OutOfFuel.
Arguments Ok {A} a.
Arguments Throw {A} e.
Arguments Crash {A} c.
Arguments OutOfFuel {A}.

Definition M (S A : Type) : Type := S -> outcome A * S.

Section Monad.
Context {S : Type}.

Definition ret {A} (a : A) : M S A := fun s => (Ok a, s).
Definition throw {A} (e : exn) : M S A := fun s => (Throw e, s).
Definition crash_ {A} (c : crash) : M S A := fun s => (Crash c, s).
Definition diverge {A} : M S A := fun s => (OutOfFuel, s).

Definition bind {A B} (m : M S A) (k : A -> M S B) : M S B := fun s =>
  match m s with
  | (Ok a, s') => k a s'
  | (Throw e, s') => (Throw e, s')
  | (Crash c, s') => (Crash c, s')
  | (OutOfFuel, s') => (OutOfFuel, s')
  end.

Definition get : M S S := fun s => (Ok s, s).
Definition gets {A} (f : S -> A) : M S A := fun s => (Ok (f s), s).
Definition modify (f : S -> S) : M S unit := fun s => (Ok tt, f s).

(** [assert(b)] of a build without [NDEBUG]. *)
Definition assert_ (b : bool) : M S unit :=
  if b then ret tt else crash_ AssertionFailed.

(** A condition whose failure is undefined behaviour (a copy outside its
    buffer, the top of an empty stack). *)
Definition require (b : bool) : M S unit :=
  if b then ret tt else crash_ UndefinedBehaviour.

(** [while]: [body] answers [inl] to go round again, [inr] to leave.
    [rounds p] goes round at most [p] times; the binary recursion lets a large
    bound be given to a loop that leaves early. *)
Fixpoint rounds {A B} (p : positive) (body : A -> M S (A + B)) (a : A) : M S (A + B) :=
  let again (q : positive) (r : A + B) :=
    match r with inl a' => rounds q body a' | inr b => ret (inr b) end in
  match p with
  | xH => body a
  | xO q => bind (rounds q body a) (again q)
  | xI q => bind (body a) (fun r => bind (again q r) (again q))
  end.

Definition iterate {A B} (fuel : Z) (body : A -> M S (A + B)) (a : A) : M S B :=
  match fuel with
  | Zpos p => bind (rounds p body a) (fun r =>
      match r with inl _ => diverge | inr b => ret b end)
  | _ => diverge
  end.
End Monad.

(** Run a computation on a part of the state. *)
Definition lift {S T A} (proj : S -> T) (put : T -> S -> S) (m : M T A) : M S A :=
  fun s => let '(r, t') := m (proj s) in (r, put t' s).

Notation "'let!' x := m 'in' k" := (bind m (fun x => k))
  (at level 10, x name, m at level 100, k at level 200) : thrift_scope.
Notation "'let!' ' p := m 'in' k" := (bind m (fun p => k))
  (at level 10, p pattern, m at level 100, k at level 200) : thrift_scope.
Notation "'do!' m 'in' k" := (bind m (fun _ => k))
  (at level 10, m at level 100, k at level 200) : thrift_scope.

(** ** Total correctness *)

Definition runs {S A} (m : M S A) (s : S) (Q : A -> S -> Prop) (E : exn -> S -> Prop) : Prop :=
  match m s with
  | (Ok a, s') => Q a s'
  | (Throw e, s') => E e s'
  | (Crash _, _) | (OutOfFuel, _) => False
  end.

(** [m] returns. *)
Definition succeeds {S A} (m : M S A) (s : S) (Q : A -> S -> Prop) : Prop :=
  runs m s Q (fun _ _ => False).
(** [m] throws. *)
Definition raises {S A} (m : M S A) (s : S) (E : exn -> S -> Prop) : Prop :=
  runs m s (fun _ _ => False) E.

Section Rules.
Context {S : Type}.
Implicit Types (s : S) (E : exn -> S -> Prop).

Lemma runs_mono {A} (m : M S A) s (Q Q' : A -> S -> Prop) E E' :
  runs m s Q E -> (forall a s', Q a s' -> Q' a s') -> (forall e s', E e s' -> E' e s') ->
  runs m s Q' E'.
Proof. unfold runs. intros Hm HQ HE. destruct (m s) as [[] ?]; auto. Qed.

Lemma runs_ret {A} (a : A) s Q E : Q a s -> runs (ret a) s Q E.
Proof. done. Qed.

Lemma runs_throw {A} e s (Q : A -> S -> Prop) E : E e s -> runs (throw e) s Q E.
Proof. done. Qed.

Lemma runs_bind {A B} (m : M S A) (k : A -> M S B) s Q E :
  runs m s (fun a s' => runs (k a) s' Q E) E -> runs (bind m k) s Q E.
Proof. unfold runs, bind. destruct (m s) as [[] ?]; auto. Qed.

Lemma runs_get s Q E : Q s s -> runs get s Q E.
Proof. done. Qed.

Lemma runs_gets {A} (f : S -> A) s Q E : Q (f s) s -> runs (gets f) s Q E.
Proof. done. Qed.

Lemma runs_modify f s Q E : Q tt (f s) -> runs (modify f) s Q E.
Proof. done. Qed.

Lemma runs_assert b s Q E : b = true -> Q tt s -> runs (assert_ b) s Q E.
Proof. by intros ->. Qed.

Lemma runs_require b s Q E : b = true -> Q tt s -> runs (require b) s Q E.
Proof. by intros ->. Qed.

Lemma runs_lift {T A} (proj : S -> T) put (m : M T A) s Q E :
  runs m (proj s) (fun a t => Q a (put t s)) (fun e t => E e (put t s)) ->
  runs (lift proj put m) s Q E.
Proof. unfold runs, lift. destruct (m (proj s)) as [[] ?]; auto. Qed.

(** A loop whose body keeps [I] and decreases its budget when it goes round. *)
Section Loops.
Context {A B : Type} (I : Z -> A -> S -> Prop).
Context (body : A -> M S (A + B)) (Q : B -> S -> Prop) (E : exn -> S -> Prop).

(** After [k] rounds from the budget [n]. *)
Definition round_post (n k : Z) (r : A + B) (s : S) : Prop :=
  match r with
  | inl a => exists n', 0 <= n' <= n - k /\ I n' a s
  | inr b => Q b s
  end.

Context (Hbody : forall n a s, I n a s -> runs (body a) s (round_post n 1) E).

Lemma runs_rounds p n a s : I n a s -> runs (rounds p body a) s (round_post n (Zpos p)) E.
Proof using Hbody.
  assert (Hagain : forall q,
    (forall n a s, I n a s -> runs (rounds q body a) s (round_post n (Zpos q)) E) ->
    forall n k r s, round_post n k r s ->
      runs (match r with inl a' => rounds q body a' | inr b => ret (inr b) end) s
        (round_post n (k + Zpos q)) E).
  { intros q IH n' k [a1|b] s1; [|done]. intros (n1 & Hn1 & HI).
    eapply runs_mono; [by apply IH| |done]. intros [a2|b] s2; [|done].
    intros (n2 & Hn2 & HI2). exists n2. split; [lia|done]. }
  revert n a s. induction p as [q IH|q IH|]; intros n a s HI; cbn [rounds].
  - apply runs_bind. eapply runs_mono; [by apply Hbody| |done].
    intros r s1 Hr. apply runs_bind. eapply runs_mono; [by apply (Hagain q IH n 1)| |done].
    intros r2 s2 Hr2. eapply runs_mono; [by apply (Hagain q IH n (1 + Zpos q))| |done].
    intros r3 s3. by replace (1 + Zpos q + Zpos q) with (Zpos q~1) by lia.
  - apply runs_bind. eapply runs_mono; [by apply IH| |done].
    intros r s1 Hr. eapply runs_mono; [by apply (Hagain q IH n (Zpos q))| |done].
    intros r3 s3. by replace (Zpos q + Zpos q) with (Zpos q~0) by lia.
  - by apply Hbody.
Qed.

Lemma runs_iterate_budget fuel n a s :
  I n a s -> 0 <= n < fuel -> runs (iterate fuel body a) s Q E.
Proof using Hbody.
  intros HI Hf. destruct fuel as [|p|p]; [lia| |lia]. cbn [iterate].
  apply runs_bind. eapply runs_mono; [by apply runs_rounds| |done].
  intros [a'|b] s'; [|done]. intros (n' & Hn' & _). lia.
Qed.
End Loops.

(** The budget as a function of the loop's variables. *)
Lemma runs_iterate {A B} (I : A -> S -> Prop) (measure : A -> Z) (body : A -> M S (A + B))
    (Q : B -> S -> Prop) E :
  (forall a s, I a s ->
     runs (body a) s
       (fun r s' => match r with
                    | inl a' => I a' s' /\ 0 <= measure a' < measure a
                    | inr b => Q b s'
                    end) E) ->
  forall fuel a s, I a s -> 0 <= measure a < fuel -> runs (iterate fuel body a) s Q E.
Proof.
  intros Hbody fuel a s HI Hf.
  apply (runs_iterate_budget (fun n a s => I a s /\ measure a = n) body Q E) with (n := measure a);
    [|done|done].
  intros n a1 s1 [HI1 <-]. eapply runs_mono; [by apply Hbody| |done].
  intros [a2|b] s2; [|done]. intros [HI2 Hm]. exists (measure a2). by split; [lia|].
Qed.

Lemma succeeds_runs {A} (m : M S A) s Q E : succeeds m s Q -> runs m s Q E.
Proof. intros. by eapply runs_mono. Qed.

Lemma succeeds_mono {A} (m : M S A) s (Q Q' : A -> S -> Prop) :
  succeeds m s Q -> (forall a s', Q a s' -> Q' a s') -> succeeds m s Q'.
Proof. intros. by eapply runs_mono. Qed.

Lemma succeeds_run {A} (m : M S A) s Q :
  succeeds m s Q -> exists a s', m s = (Ok a, s') /\ Q a s'.
Proof.
  unfold succeeds, runs. destruct (m s) as [[] ?]; try done. eauto.
Qed.

Lemma raises_run {A} (m : M S A) s E :
  raises m s E -> exists e s', m s = (Throw e, s') /\ E e s'.
Proof.
  unfold raises, runs. destruct (m s) as [[] ?]; try done. eauto.
Qed.
End Rules.

(** ** Computations that differ by a map on their results *)

Definition map_outcome {S X Y} (f : X -> Y) (r : outcome X * S) : outcome Y * S :=
  (match r.1 with Ok x => Ok (f x) | Throw e => Throw e | Crash c => Crash c
   | OutOfFuel => OutOfFuel end, r.2).

Lemma bind_map {S X Y X' Y'} (f : X -> X') (f' : Y -> Y') (m : M S X) (m' : M S X')
    (k : X -> M S Y) (k' : X' -> M S Y') s :
  m' s = map_outcome f (m s) ->
  (forall x s1, k' (f x) s1 = map_outcome f' (k x s1)) ->
  bind m' k' s = map_outcome f' (bind m k s).
Proof. intros Hm Hk. unfold bind. rewrite Hm. destruct (m s) as [[] s1]; cbn; auto. Qed.

Lemma bind_same {S X Y Y'} (f' : Y -> Y') (m : M S X) (k : X -> M S Y) (k' : X -> M S Y') s :
  (forall x s1, k' x s1 = map_outcome f' (k x s1)) ->
  bind m k' s = map_outcome f' (bind m k s).
Proof. intros Hk. unfold bind. destruct (m s) as [[] s1]; cbn; auto. Qed.

(** A loop whose body corresponds to another's under [g] goes the same way. *)
Section IterateMap.
Context {S A A' B B' : Type} (g : A -> A') (h : B -> B').
Context (body : A -> M S (A + B)) (body' : A' -> M S (A' + B')).

Definition map_sum (r : A + B) : A' + B' :=
  match r with inl a => inl (g a) | inr b => inr (h b) end.

Context (Hbody : forall a s, body' (g a) s = map_outcome map_sum (body a s)).

Lemma rounds_map p a s : rounds p body' (g a) s = map_outcome map_sum (rounds p body a s).
Proof using Hbody.
  assert (Hagain : forall q,
    (forall a s, rounds q body' (g a) s = map_outcome map_sum (rounds q body a s)) ->
    forall r s, match map_sum r with inl a' => rounds q body' a' | inr b => ret (inr b) end s
      = map_outcome map_sum
          (match r with inl a' => rounds q body a' | inr b => ret (inr b) end s)).
  { intros q IH [a1|b] s1; [apply IH|done]. }
  revert a s. induction p as [q IH|q IH|]; intros a s; cbn [rounds].
  - apply (bind_map map_sum); [apply Hbody|]. intros r s1.
    apply (bind_map map_sum); [by apply Hagain|]. intros; by apply Hagain.
  - apply (bind_map map_sum); [apply IH|]. intros; by apply Hagain.
  - apply Hbody.
Qed.

Lemma iterate_map fuel a s :
  iterate fuel body' (g a) s = map_outcome h (iterate fuel body a s).
Proof using Hbody.
  destruct fuel as [|p|p]; cbn [iterate]; try done.
  apply (bind_map map_sum); [apply rounds_map|]. by intros [].
Qed.
End IterateMap.

(** ** Computations that return *)

Lemma bind_ok {S A B} (m : M S A) (k : A -> M S B) s b s' :
  bind m k s = (Ok b, s') -> exists a s1, m s = (Ok a, s1) /\ k a s1 = (Ok b, s').
Proof. unfold bind. destruct (m s) as [[] s1]; try done. eauto. Qed.

Lemma bind_run {S A B} (m : M S A) (k : A -> M S B) s a s1 : m s = (Ok a, s1) -> bind m k s = k a s1.
Proof. unfold bind. by intros ->. Qed.

(** A loop as plain recursion on the number of its rounds. *)
Section Turns.
Context {S A B : Type} (body : A -> M S (A + B)).

Fixpoint turns (n : nat) (a : A) : M S (A + B) :=
  match n with
  | O => ret (inl a)
  | Datatypes.S n => let! r := body a in match r with inl a' => turns n a' | inr b => ret (inr b) end
  end.

Lemma turns_add n m a s : turns (n + m) a s =
  bind (turns n a) (fun r => match r with inl a' => turns m a' | inr b => ret (inr b) end) s.
Proof.
  revert a s. induction n as [|n IH]; intros a s; [done|]. cbn [Nat.add turns]. unfold bind at 1 2 3.
  by destruct (body a s) as [[[a'|b]| | |] s1].
Qed.

Lemma rounds_turns p a s : rounds p body a s = turns (Pos.to_nat p) a s.
Proof.
  assert (Hagain : forall q, (forall a s, rounds q body a s = turns (Pos.to_nat q) a s) -> forall m (r : A + B) s,
    bind (match r with inl a' => rounds q body a' | inr b => ret (inr b) end)
      (fun r => match r with inl a' => turns m a' | inr b => ret (inr b) end) s =
    match r with inl a' => turns (Pos.to_nat q + m) a' | inr b => ret (inr b) end s).
  { intros q Hq m [a1|b] s1; [|done]. rewrite turns_add. unfold bind. by rewrite Hq. }
  revert a s. induction p as [q IH|q IH|]; intros a s; cbn [rounds].
  - rewrite Pos2Nat.inj_xI. replace (Datatypes.S (2 * Pos.to_nat q)) with (1 + (Pos.to_nat q + Pos.to_nat q))%nat by lia.
    cbn [Nat.add turns]. unfold bind at 1 3. destruct (body a s) as [[r| | |] s1]; try done.
    rewrite <- (Hagain q IH (Pos.to_nat q) r s1). unfold bind.
    by destruct (match r with inl a' => rounds q body a' | inr b => ret (inr b) end s1) as [[[]| | |] s2].
  - rewrite Pos2Nat.inj_xO. replace (2 * Pos.to_nat q)%nat with (Pos.to_nat q + Pos.to_nat q)%nat by lia.
    rewrite turns_add. unfold bind. rewrite IH. by destruct (turns (Pos.to_nat q) a s) as [[[]| | |] s1].
  - change (Pos.to_nat 1) with 1%nat. cbn [turns]. unfold bind. by destruct (body a s) as [[[]| | |] s1].
Qed.

Lemma iterate_turns fuel a s b s' :
  iterate fuel body a s = (Ok b, s') <-> turns (Z.to_nat fuel) a s = (Ok (inr b), s').
Proof.
  destruct fuel as [|p|p]; cbn [iterate]; [done| |done]. unfold bind. rewrite rounds_turns, Z2Nat.inj_pos.
  destruct (turns (Pos.to_nat p) a s) as [[[]| | |] s1]; cbn; split; intros [=]; subst; done.
Qed.
End Turns.

(** ** What a computation leaves alone *)

(** However [m] ends, the states before and after it are related. *)
Definition keeps {S A} (R : S -> S -> Prop) (m : M S A) : Prop := forall s, R s (m s).2.

Section Keeps.
Context {S : Type} (R : S -> S -> Prop) `{!PreOrder R}.

Lemma keeps_ret {A} (a : A) : keeps R (ret a).
Proof. intros s. cbn. reflexivity. Qed.
Lemma keeps_throw {A} e : keeps R (@throw S A e).
Proof. intros s. cbn. reflexivity. Qed.
Lemma keeps_gets {A} (f : S -> A) : keeps R (gets f).
Proof. intros s. cbn. reflexivity. Qed.
Lemma keeps_require b : keeps R (require b).
Proof. intros s. destruct b; cbn; reflexivity. Qed.
Lemma keeps_modify f : (forall s, R s (f s)) -> keeps R (modify f).
Proof. intros Hf s. apply Hf. Qed.

Lemma keeps_bind {A B} (m : M S A) (k : A -> M S B) :
  keeps R m -> (forall a, keeps R (k a)) -> keeps R (bind m k).
Proof.
  intros Hm Hk s. specialize (Hm s). unfold bind. destruct (m s) as [[a|e|c|] s1]; cbn in *; try done.
  etransitivity; [exact Hm|apply Hk].
Qed.

Lemma keeps_iterate {A B} fuel (body : A -> M S (A + B)) a :
  (forall a, keeps R (body a)) -> keeps R (iterate fuel body a).
Proof.
  intros Hb. assert (forall p a, keeps R (rounds p body a)) as Hr.
  { intros p. induction p as [q IH|q IH|]; intros a'; cbn [rounds]; [| |apply Hb].
    - apply keeps_bind; [apply Hb|]. intros r. apply keeps_bind;
        [destruct r; [apply IH|apply keeps_ret]|]. intros []; [apply IH|apply keeps_ret].
    - apply keeps_bind; [apply IH|]. intros []; [apply IH|apply keeps_ret]. }
  destruct fuel; cbn [iterate]; try (intros s; cbn; reflexivity).
  apply keeps_bind; [apply Hr|]. intros []; [intros s; cbn; reflexivity|apply keeps_ret].
Qed.
End Keeps.

Create HintDb keeps.
#[export] Hint Resolve keeps_ret keeps_throw keeps_gets keeps_require keeps_bind keeps_iterate : keeps.

(** A specification and what the computation keeps, together. *)
Lemma runs_keeps {S A} (R : S -> S -> Prop) (m : M S A) s Q E :
  keeps R m -> runs m s Q E ->
  runs m s (fun a s' => Q a s' /\ R s s') (fun e s' => E e s' /\ R s s').
Proof. intros Hk. specialize (Hk s). unfold runs. by destruct (m s) as [[] ?]. Qed.

#[export] Hint Resolve runs_ret runs_throw : thrift.

(** [wp] takes the monadic structure of the goal apart up to the first call of
    an operation, which [wp_apply] replaces by its specification. *)
Ltac wp1 :=
  lazymatch goal with
  | |- succeeds _ _ _ => unfold succeeds
  | |- raises _ _ _ => unfold raises
  | |- runs (bind _ _) _ _ _ => apply runs_bind
  | |- runs (ret _) _ _ _ => apply runs_ret
  | |- runs (throw _) _ _ _ => apply runs_throw
  | |- runs get _ _ _ => apply runs_get
  | |- runs (gets _) _ _ _ => apply runs_gets
  | |- runs (modify _) _ _ _ => apply runs_modify
  | |- runs (lift _ _ _) _ _ _ => apply runs_lift
  | |- runs (let '(_, _) := ?p in _) _ _ _ => destruct p
  end; cbv beta.
Ltac wp := repeat wp1.

Tactic Notation "wp_apply" uconstr(H) :=
  wp; eapply runs_mono; [eapply H| |]; cbv beta.
