(* ===== verification/Text.v ===== *)
(** * Characters, C strings and decimal text

    A character is its code; the text of a [std::string] or of a C string (without
    its terminator) is a list of codes. *)

From S2P Require Export Machine.

(** ** Characters *)

Definition chr (a : ascii) : Z := Z.of_N (N_of_ascii a).
Definition ascii_of_chr (ch : Z) : ascii := ascii_of_N (Z.to_N ch).

(** [std::string::find] and [strchr]: the first position of [ch]. *)
Fixpoint find_char (ch : Z) (l : list Z) : option Z :=
  match l with
  | [] => None
  | x :: l => if x =? ch then Some 0 else option_map Z.succ (find_char ch l)
  end.

(** A message made of characters. *)
Definition text (l : list Z) : string := string_of_list_ascii (map ascii_of_chr l).

(** ** C strings *)

(** The C string at the start of [l], if it is terminated there. *)
Fixpoint c_string (l : list Z) : option (list Z) :=
  match l with
  | [] => None
  | x :: l => if x =? 0 then Some [] else option_map (cons x) (c_string l)
  end.

Fixpoint starts_with (p l : list Z) : bool :=
  match p, l with
  | [], _ => true
  | x :: p, y :: l => ((x =? y) && starts_with p l)%bool
  | _ :: _, [] => false
  end.

(** [strstr]: the first position of [needle]. *)
Fixpoint strstr (needle l : list Z) : option Z :=
  if starts_with needle l then Some 0
  else match l with
       | [] => None
       | _ :: l => option_map Z.succ (strstr needle l)
       end.

Definition strcmp_eq (a b : list Z) : bool := bool_decide (a = b).
(** [strncmp(a, b, n) == 0]. *)
Definition strncmp_eq (a b : list Z) (n : Z) : bool := bool_decide (ztake n a = ztake n b).

Fixpoint take_while (f : Z -> bool) (l : list Z) : list Z :=
  match l with
  | [] => []
  | x :: l => if f x then x :: take_while f l else []
  end.
Fixpoint drop_while (f : Z -> bool) (l : list Z) : list Z :=
  match l with
  | [] => []
  | x :: l' => if f x then drop_while f l' else l
  end.

(** [isspace] and [tolower] of the C locale. *)
Definition isspace (ch : Z) : bool := ((ch =? 32) || ((9 <=? ch) && (ch <=? 13)))%bool.
Definition tolower (ch : Z) : Z := if ((65 <=? ch) && (ch <=? 90))%bool then ch + 32 else ch.

(** ** Decimal text *)

Fixpoint digits (fuel : nat) (n : Z) : list Z :=
  match fuel with
  | O => []
  | S fuel => (if n <? 10 then [] else digits fuel (n / 10)) ++ [chr "0" + n mod 10]
  end.

(** Twenty digits hold any 64-bit integer. *)
Definition decimal (z : Z) : list Z :=
  if z <? 0 then chr "-" :: digits 20 (- z) else digits 20 z.

Definition horner (l : list Z) : Z := fold_left (fun a d => 10 * a + (d - chr "0")) l 0.
Definition is_digit (ch : Z) : bool := ((chr "0" <=? ch) && (ch <=? chr "9"))%bool.

Definition of_decimal (l : list Z) : option Z :=
  match l with
  | [] => None
  | ch :: l' =>
      if ch =? chr "-"
      then if ((0 <? zlen l') && forallb is_digit l')%bool then Some (- horner l') else None
      else if forallb is_digit l then Some (horner l) else None
  end.

(** ** What boost and the C++ library provide *)

(** The [NumberType]s that are read. *)
Inductive NumberType := NBool | NI16 | NI32 | NI64 | NU64.

Definition number_in (t : NumberType) (z : Z) : Prop :=
  match t with
  | NBool => in_u 1 z | NI16 => in_s 16 z | NI32 => in_s 32 z | NI64 => in_s 64 z
  | NU64 => in_u 64 z
  end.

Class CxxLibrary := {
  (** [lexical_cast<std::string>] of an integer, an enumeration or a [bool], and of a double *)
  lex_show : Z -> list Z;
  lex_show_double : Z -> list Z;
  (** [lexical_cast<NumberType>] and [lexical_cast<double>]; [None] is [bad_lexical_cast] *)
  lex_parse : NumberType -> list Z -> option Z;
  lex_parse_double : list Z -> option Z;
  (** the value of [HUGE_VAL/HUGE_VAL] *)
  huge_quotient : Z;
  (** [std::string::max_size()]: no string grows past it *)
  string_max_size : Z
}.

(** ** [atoi] and [sscanf("%x")] *)

(** An optional sign. *)
Definition signed (l : list Z) : bool * list Z :=
  match l with
  | ch :: l' => if ch =? chr "-" then (true, l') else if ch =? chr "+" then (false, l') else (false, l)
  | [] => (false, [])
  end.

Definition hex_digit (ch : Z) : option Z :=
  if is_digit ch then Some (ch - chr "0")
  else let c := tolower ch in
       if ((chr "a" <=? c) && (c <=? chr "f"))%bool then Some (c - chr "a" + 10) else None.
Definition is_hex (ch : Z) : bool := match hex_digit ch with Some _ => true | None => false end.
Definition hex_horner (l : list Z) : Z :=
  fold_left (fun a d => 16 * a + default 0 (hex_digit d)) l 0.

(** C leaves open what the conversion of a number out of range gives. *)
Class CLibrary := { out_of_range : list Z -> Z }.

Section Conversions.
Context `{CLibrary}.

Definition atoi (l : list Z) : Z :=
  let '(neg, l') := signed (drop_while isspace l) in
  let n := horner (take_while is_digit l') in
  let v := if neg then - n else n in
  if bool_decide (in_s 32 v) then v else s32 (out_of_range l).

(** [None]: nothing is matched, and nothing stored. *)
Definition scan_hex (l : list Z) : option Z :=
  let '(neg, l') := signed (drop_while isspace l) in
  let l' := if (starts_with (bytes_of "0x") l' || starts_with (bytes_of "0X") l')%bool
            then zdrop 2 l' else l' in
  match take_while is_hex l' with
  | [] => None
  | ds => let n := hex_horner ds in
          let v := if neg then - n else n in
          Some (if bool_decide (in_u 32 v) then v else u32 (out_of_range l))
  end.
End Conversions.

(** ** Lemmas *)

Lemma horner_snoc l d : horner (l ++ [d]) = 10 * horner l + (d - chr "0").
Proof. unfold horner. by rewrite fold_left_app. Qed.

Lemma digits_spec fuel n :
  0 <= n < 10 ^ Z.of_nat fuel ->
  horner (digits fuel n) = n /\ forallb is_digit (digits fuel n) = true /\
  zlen (digits fuel n) <= Z.of_nat fuel /\ (0 < Z.of_nat fuel -> 0 < zlen (digits fuel n)).
Proof.
  revert n. induction fuel as [|fuel IH]; intros n Hn.
  { replace n with 0 by (cbn in Hn; lia). done. }
  cbn [digits]. pose proof (Z.mod_pos_bound n 10 ltac:(lia)).
  rewrite Nat2Z.inj_succ, Z.pow_succ_r in Hn by lia.
  assert (is_digit (chr "0" + n mod 10) = true) as Hd
    by (unfold is_digit; change (chr "0") with 48; change (chr "9") with 57; lia).
  bif.
  - cbn [app forallb]. rewrite Hd. split_and!; [|done|zlist|zlist].
    unfold horner. cbn. change (chr "0") with 48. rewrite Z.mod_small by lia. lia.
  - destruct (IH (n / 10)) as (Hh & Hf & Hl & _); [dlia|].
    rewrite horner_snoc, Hh, forallb_app, Hf. cbn [forallb]. rewrite Hd.
    split_and!; [dlia|done|zlist|zlist].
Qed.


(** ** C strings and searches *)

(** Not the terminator. *)
Definition nonzero (ch : Z) : bool := negb (ch =? 0).
Definition no_nul (l : list Z) : Prop := forallb nonzero l = true.

Lemma take_while_all f l : forallb f l = true -> take_while f l = l.
Proof. induction l as [|x l IH]; cbn; [done|]. intros Hl. breflect. rewrite H, IH; done. Qed.

Lemma take_while_app f l d : exists r, take_while f (l ++ d) = take_while f l ++ r.
Proof.
  induction l as [|x l [r IH]]; cbn; [by eexists|]. destruct (f x); [|by exists []].
  exists r. by rewrite IH.
Qed.

Lemma take_while_prefix f l : exists r, l = take_while f l ++ r.
Proof.
  induction l as [|x l [r IH]]; cbn; [by exists []|]. destruct (f x); [|by eexists].
  exists r. cbn. by rewrite <- IH.
Qed.

Lemma take_while_ok f l : forallb f (take_while f l) = true.
Proof. induction l as [|x l IH]; cbn; [done|]. destruct (f x) eqn:Hx; cbn; [by rewrite Hx|done]. Qed.

Lemma c_string_nul p l : c_string (p ++ 0 :: l) = Some (take_while nonzero p).
Proof.
  induction p as [|x p IH]; cbn; [done|]. unfold nonzero at 1. destruct (x =? 0); cbn; [done|].
  by rewrite IH.
Qed.

Lemma starts_with_app p l : starts_with p (p ++ l) = true.
Proof. induction p as [|x p IH]; cbn; [done|]. by rewrite Z.eqb_refl, IH. Qed.

Lemma starts_with_inv p l : starts_with p l = true -> exists r, l = p ++ r.
Proof.
  revert l. induction p as [|x p IH]; intros [|y l]; cbn; try done; try by eexists.
  intros Hl. breflect. subst y. destruct (IH l) as [r ->]; [done|]. by exists r.
Qed.

Lemma starts_with_more p l r : starts_with p l = true -> starts_with p (l ++ r) = true.
Proof. intros [d ->]%starts_with_inv. rewrite <- app_assoc. apply starts_with_app. Qed.

Lemma strstr_inv n l i : strstr n l = Some i -> exists a b, l = a ++ n ++ b /\ i = zlen a.
Proof.
  revert i. induction l as [|x l IH]; intros i; cbn [strstr]; destruct (starts_with n _) eqn:Hs.
  1, 3: intros [= <-]; destruct (starts_with_inv _ _ Hs) as [r ->]; by exists [], r.
  - done.
  - destruct (strstr n l) as [j|]; [|done]. cbn. intros [= <-].
    destruct (IH j eq_refl) as (a & b & -> & ->). exists (x :: a), b. split; [done|]. rewrite zlen_cons. lia.
Qed.

Lemma starts_with_long p l r : zlen p <= zlen l -> starts_with p (l ++ r) = starts_with p l.
Proof.
  revert l. induction p as [|x p IH]; intros [|y l]; cbn; try done.
  rewrite !zlen_cons. intros. rewrite IH by lia. done.
Qed.

Lemma strstr_more n l r i : strstr n l = Some i -> strstr n (l ++ r) = Some i.
Proof.
  revert i. induction l as [|x l IH]; intros i; cbn [strstr app].
  - destruct n as [|y n]; cbn; [|done]. intros [= <-]. by destruct r.
  - intros Hi. assert (zlen n <= zlen (x :: l)) as Hlen.
    { destruct (strstr_inv n (x :: l) i Hi) as (a & b & -> & _). zlist. }
    rewrite <- (starts_with_long n (x :: l) r) in Hi by done. cbn [app] in Hi.
    destruct (starts_with n (x :: l ++ r)); [done|].
    destruct (strstr n l) as [j|]; [|done]. by rewrite (IH j eq_refl).
Qed.

(** A text whose characters all differ from the first of [n] is passed over. *)
Lemma strstr_pass x n l r :
  forallb (fun ch => negb (ch =? x)) l = true -> strstr (x :: n) (l ++ (x :: n) ++ r) = Some (zlen l).
Proof.
  induction l as [|y l IH]; cbn [app forallb]; intros Hl.
  - cbn [strstr app]. cbn [starts_with]. by rewrite Z.eqb_refl, starts_with_app.
  - apply andb_true_iff in Hl as [Hy Hl]. cbn [strstr starts_with].
    rewrite Z.eqb_sym. apply negb_true_iff in Hy. rewrite Hy. cbn [andb].
    cbn [app] in IH. rewrite IH by done. cbn. f_equal. rewrite zlen_cons. lia.
Qed.

(** ** Decimal numbers *)

Lemma decimal_nonneg n : 0 <= n < 10 ^ 20 ->
  horner (decimal n) = n /\ forallb is_digit (decimal n) = true /\ 0 < zlen (decimal n) <= 20.
Proof.
  intros Hn. unfold decimal. replace (n <? 0) with false by lia.
  destruct (digits_spec 20 n) as (Hh & Hf & Hl & Hp); [done|]. change (Z.of_nat 20) with 20 in *.
  split_and!; try done; lia.
Qed.

Lemma forallb_weaken (f g : Z -> bool) l :
  (forall x, f x = true -> g x = true) -> forallb f l = true -> forallb g l = true.
Proof. intros Hfg. rewrite !forallb_forall. auto. Qed.

Lemma is_digit_range ch : is_digit ch = true -> 48 <= ch <= 57.
Proof. unfold is_digit. change (chr "0") with 48. change (chr "9") with 57. intros. breflect. lia. Qed.

(** [atoi] of a number as [ostream] prints it, after a blank. *)
Lemma atoi_decimal `{CLibrary} n : 0 <= n < 2 ^ 31 -> atoi (32 :: decimal n) = n.
Proof.
  intros Hn. destruct (decimal_nonneg n ltac:(lia)) as (Hh & Hf & Hl & _).
  unfold atoi. cbn [drop_while isspace]. change (isspace 32) with true. cbv iota.
  destruct (decimal n) as [|ch l] eqn:Hd; [done|].
  assert (48 <= ch <= 57) as Hch by (cbn in Hf; breflect; by apply is_digit_range).
  assert (isspace ch = false) as Hsp by (unfold isspace; lia).
  cbn [drop_while]. rewrite Hsp. cbn [signed]. change (chr "-") with 45. change (chr "+") with 43.
  replace (ch =? 45) with false by lia. replace (ch =? 43) with false by lia.
  rewrite take_while_all by done. rewrite Hh. rewrite bool_decide_eq_true_2; [done|unfold in_s; lia].
Qed.
