(* ===== verification/Memory.v ===== *)
(** * Copies and heap blocks

    [memcpy] between a buffer and the caller's bytes (a copy that would leave
    its buffer is undefined behaviour), [malloc], [new[]] and [realloc], and the
    growing of the string buffer both wire protocols keep. *)

From S2P Require Export Machine Effects.

(** ** Copies *)

Section Memory.
Context {S : Type}.

(** The [n] bytes at offset [o] of [mem]. *)
Definition load_mem (mem : list Z) (o n : Z) : M S (list Z) :=
  do! require ((0 <=? o) && (0 <=? n) && (o + n <=? zlen mem))%bool in
  ret (zslice o (o + n) mem).

(** [memcpy] of [d] to offset [o] of [mem]. *)
Definition store_mem (mem : list Z) (o : Z) (d : list Z) : M S (list Z) :=
  do! require ((0 <=? o) && (o + zlen d <=? zlen mem))%bool in
  ret (zsplice o d mem).
End Memory.

(** ** Heap blocks and fresh objects *)

Section Heap.
Context `{Platform} {S : Type}.

(** [std::malloc] and [new uint8_t[n]]: an uninitialised block, or
    [std::bad_alloc] (thrown by the caller of [malloc], by [new] itself). *)
Definition new_bytes (n : Z) : M S (list Z) :=
  if can_alloc n then ret (zrep n junk) else throw EBadAlloc.

(** [std::realloc]: the old contents, cut or extended to [n] bytes. *)
Definition realloc (old : list Z) (n : Z) : M S (list Z) :=
  if can_alloc n then ret (ztake n old ++ zrep (n - zlen old) junk) else throw EBadAlloc.
End Heap.


(** [if (size > string_buf_size_ || string_buf_ == NULL)]: the block to read a
    string of [size] bytes into, and its new recorded size. *)
Section StringBuffer.
Context `{Platform} {S : Type}.

Definition string_buffer (string_buf_ : option (list Z)) (string_buf_size_ size : Z)
    : M S (list Z * Z) :=
  match string_buf_ with
  | Some b =>
      if string_buf_size_ <? size
      then let! b' := realloc b (u32 size) in ret (b', size)
      else ret (b, string_buf_size_)
  | None => let! b' := realloc [] (u32 size) in ret (b', size)
  end.
End StringBuffer.

(** ** Rules *)

Lemma runs_load_mem {S} mem o n (s : S) Q E :
  0 <= o -> 0 <= n -> o + n <= zlen mem -> Q (zslice o (o + n) mem) s ->
  runs (load_mem mem o n) s Q E.
Proof.
  intros. unfold load_mem. wp. apply runs_require; [|by wp].
  rewrite !andb_true_iff. lia.
Qed.

Lemma runs_store_mem {S} mem o d (s : S) Q E :
  0 <= o -> o + zlen d <= zlen mem -> Q (zsplice o d mem) s ->
  runs (store_mem mem o d) s Q E.
Proof.
  intros. unfold store_mem. wp. apply runs_require; [|by wp].
  rewrite !andb_true_iff. lia.
Qed.


Lemma zlen_realloc (old : list Z) n : 0 <= n -> forall x, zlen (ztake n old ++ zrep (n - zlen old) x) = n.
Proof. intros. zlist. Qed.

(** A string buffer's recorded size is its block's. *)
Definition string_buf_ok (string_buf_ : option (list Z)) (string_buf_size_ : Z) : Prop :=
  match string_buf_ with Some b => zlen b = string_buf_size_ | None => True end.

Lemma runs_string_buffer `{Platform} `{!Unbounded} {S} buf bufsz n (s : S) Q E :
  string_buf_ok buf bufsz -> 0 <= n < 2 ^ 32 ->
  (forall b k, zlen b = k -> n <= k -> Q (b, k) s) ->
  runs (string_buffer buf bufsz n) s Q E.
Proof.
  intros Hok Hn HQ. unfold string_buffer, realloc. rewrite always_alloc.
  destruct buf as [b|]; [bif|]; wp; rewrite ?(wrapu_small 32 n) by done;
    apply HQ; try lia; try (apply zlen_realloc; lia); cbn in Hok; lia.
Qed.
