(* ===== verification/Monitors.v ===== *)
(** * Monitors: threads that sleep on a condition and those that wake them

    concurrency/Monitor.h over POSIX condition variables.  A thread in [wait] is an
    entry of a table of threads whose state says whether it still sleeps; [notify]
    wakes one of the sleepers, which one is not determined, [notifyAll] every one.
    A woken thread does nothing until it has the mutex again: what follows [wait]
    is a step of its own.  The sums over such tables that counters are compared
    with are here too. *)

From stdpp Require Export gmap.
From S2P Require Export Machine.

Abbreviation tid := nat.

(** ** Sums over a table *)

Section Sums.
Context {A : Type}.

Definition msum (f : A -> Z) (m : gmap tid A) : Z :=
  map_fold (fun _ a n => f a + n) 0 m.

Lemma msum_empty f : msum f ∅ = 0.
Proof. apply map_fold_empty. Qed.

Lemma msum_fresh f m t a : m !! t = None -> msum f (<[t := a]> m) = f a + msum f m.
Proof.
  intros Ht. unfold msum. rewrite map_fold_insert_L; [done| |done].
  intros. lia.
Qed.

Lemma msum_split f m t a : m !! t = Some a -> msum f m = f a + msum f (delete t m).
Proof.
  intros Ht. rewrite <- (msum_fresh f (delete t m) t a) by apply lookup_delete_eq.
  by rewrite insert_delete_id.
Qed.

Lemma msum_update f m t a b :
  m !! t = Some a -> msum f (<[t := b]> m) = msum f m - f a + f b.
Proof.
  intros Ht. rewrite (msum_split f m t a Ht).
  rewrite (msum_split f (<[t := b]> m) t b) by apply lookup_insert_eq.
  rewrite delete_insert_eq. lia.
Qed.

Lemma msum_fmap f (g : A -> A) m : msum f (g <$> m) = msum (fun a => f (g a)) m.
Proof.
  induction m as [|t a m Ht IH] using map_ind; [by rewrite fmap_empty|].
  rewrite fmap_insert, !msum_fresh, IH; [done|done|]. by rewrite lookup_fmap, Ht.
Qed.

Lemma msum_le f g m : (forall t a, m !! t = Some a -> f a <= g a) -> msum f m <= msum g m.
Proof.
  induction m as [|t a m Ht IH] using map_ind; [by rewrite !msum_empty|].
  intros Hle. rewrite !msum_fresh by done.
  pose proof (Hle t a (lookup_insert_eq _ _ _)).
  enough (msum f m <= msum g m) by lia. apply IH. intros u b Hu.
  apply (Hle u). rewrite lookup_insert_ne; [done|]. intros ->. congruence.
Qed.

Lemma msum_ext f g m : (forall t a, m !! t = Some a -> f a = g a) -> msum f m = msum g m.
Proof. intros Heq. apply Z.le_antisymm; apply msum_le; intros t a Ht; by rewrite (Heq t a Ht). Qed.

Lemma msum_nonneg f m : (forall a, 0 <= f a) -> 0 <= msum f m.
Proof.
  intros Hf. induction m as [|t a m Ht IH] using map_ind; [by rewrite msum_empty|].
  rewrite msum_fresh by done. specialize (Hf a). lia.
Qed.

Lemma msum_size m : msum (fun _ => 1) m = Z.of_nat (size m).
Proof.
  induction m as [|t a m Ht IH] using map_ind; [by rewrite msum_empty|].
  rewrite msum_fresh, map_size_insert_None by done. lia.
Qed.

Lemma msum_plus f g m : msum (fun a => f a + g a) m = msum f m + msum g m.
Proof.
  induction m as [|t a m Ht IH] using map_ind; [by rewrite !msum_empty|].
  rewrite !msum_fresh by done. lia.
Qed.

Lemma msum_positive f m : (forall a, 0 <= f a) -> 0 < msum f m -> exists t a, m !! t = Some a /\ 0 < f a.
Proof.
  intros Hf. induction m as [|t a m Ht IH] using map_ind; [by rewrite msum_empty|].
  rewrite msum_fresh by done. intros Hpos.
  destruct (Z.lt_trichotomy (f a) 0) as [|[Ha|Ha]]; [specialize (Hf a); lia| |].
  - destruct IH as (u & b & Hu & Hb); [lia|]. exists u, b. split; [|done].
    rewrite lookup_insert_ne; [done|]. intros ->. congruence.
  - exists t, a. split; [apply lookup_insert_eq|done].
Qed.

Lemma msum_zero f m t a : (forall a, 0 <= f a) -> msum f m = 0 -> m !! t = Some a -> f a = 0.
Proof.
  intros Hf Hz Ht. rewrite (msum_split f m t a Ht) in Hz.
  pose proof (msum_nonneg f (delete t m) Hf). specialize (Hf a). lia.
Qed.
End Sums.

(** How many entries of a table have a property. *)
Definition how_many {A} (p : A -> bool) (m : gmap tid A) : Z := msum (fun a => Z.b2z (p a)) m.

Lemma b2z_nonneg b : 0 <= Z.b2z b.
Proof. by destruct b. Qed.

Section Counting.
Context {A : Type} (p : A -> bool).

Lemma how_many_nonneg m : 0 <= how_many p m.
Proof. apply msum_nonneg. intros. apply b2z_nonneg. Qed.

Lemma how_many_update m t a b :
  m !! t = Some a -> how_many p (<[t := b]> m) = how_many p m - Z.b2z (p a) + Z.b2z (p b).
Proof. apply (msum_update (fun a => Z.b2z (p a))). Qed.

Lemma how_many_fresh m t a :
  m !! t = None -> how_many p (<[t := a]> m) = Z.b2z (p a) + how_many p m.
Proof. apply (msum_fresh (fun a => Z.b2z (p a))). Qed.

Lemma how_many_exists m : 0 < how_many p m -> exists t a, m !! t = Some a /\ p a = true.
Proof.
  intros (t & a & Ht & Ha)%msum_positive; [|intros; apply b2z_nonneg].
  exists t, a. split; [done|]. cbv beta in Ha. by destruct (p a).
Qed.

Lemma how_many_none m t a : how_many p m = 0 -> m !! t = Some a -> p a = false.
Proof.
  intros Hz Ht. pose proof (msum_zero _ m t a (fun a => b2z_nonneg (p a)) Hz Ht) as Ha.
  cbv beta in Ha. by destruct (p a).
Qed.

Lemma how_many_some m t a : m !! t = Some a -> p a = true -> 0 < how_many p m.
Proof.
  intros Ht Ha. unfold how_many. rewrite (msum_split _ m t a Ht), Ha.
  pose proof (how_many_nonneg (delete t m)). unfold how_many in *. cbn. lia.
Qed.
End Counting.

Lemma how_many_le {A} (p q : A -> bool) m :
  (forall a, p a = true -> q a = true) -> how_many p m <= how_many q m.
Proof.
  intros Hpq. apply msum_le. intros _ a _. specialize (Hpq a).
  destruct (p a); [by rewrite Hpq|apply b2z_nonneg].
Qed.

Lemma how_many_ext {A} (p q : A -> bool) m : (forall a, p a = q a) -> how_many p m = how_many q m.
Proof. intros Heq. apply msum_ext. intros _ a _. by rewrite Heq. Qed.

Lemma how_many_size {A} (p : A -> bool) m : how_many p m <= Z.of_nat (size m).
Proof. rewrite <- msum_size. apply msum_le. intros _ a _. by destruct (p a). Qed.

(** ** Waking *)

(** What a table of threads promises of one monitor: which entries sleep on it,
    and what one of them is when it has been woken. *)
Class Sleeping (A : Type) (asleep : A -> bool) (wake : A -> A) : Prop :=
  wake_awake a : asleep (wake a) = false.

Section Waking.
Context {A : Type} (asleep : A -> bool) (wake : A -> A).

Definition notify (choice : tid) (m : gmap tid A) : option (gmap tid A) :=
  if how_many asleep m =? 0 then Some m
  else match m !! choice with
       | Some a => if asleep a then Some (<[choice := wake a]> m) else None
       | None => None
       end.

Definition notifyAll (m : gmap tid A) : gmap tid A :=
  (fun a => if asleep a then wake a else a) <$> m.

(** [notify] once for each of the choices. *)
Fixpoint notify_each (choices : list tid) (m : gmap tid A) : option (gmap tid A) :=
  match choices with
  | [] => Some m
  | choice :: choices =>
      match notify choice m with
      | Some m => notify_each choices m
      | None => None
      end
  end.

(** A table in which some sleepers have been woken and nothing else is different. *)
Definition woken (m m' : gmap tid A) : Prop :=
  forall t, match m !! t with
            | Some a => m' !! t = Some a \/ asleep a = true /\ m' !! t = Some (wake a)
            | None => m' !! t = None
            end.

Lemma woken_refl m : woken m m.
Proof. intros t. destruct (m !! t); auto. Qed.

Lemma woken_one m t a : m !! t = Some a -> asleep a = true -> woken m (<[t := wake a]> m).
Proof.
  intros Ht Ha u. destruct (decide (t = u)) as [<-|Hne].
  - rewrite Ht. right. split; [done|apply lookup_insert_eq].
  - rewrite lookup_insert_ne by done. destruct (m !! u); auto.
Qed.

Lemma notify_woken choice m m' : notify choice m = Some m' -> woken m m'.
Proof.
  unfold notify. bcase (how_many asleep m =? 0); [intros [= <-]; apply woken_refl|].
  destruct (m !! choice) as [a|] eqn:Ht; [|done]. destruct (asleep a) eqn:Ha; [|done].
  intros [= <-]. by apply woken_one.
Qed.

Lemma notify_enabled m : exists choice m', notify choice m = Some m'.
Proof.
  unfold notify. bcase (how_many asleep m =? 0); [by exists 0%nat, m|].
  destruct (how_many_exists asleep m) as (t & a & Ht & Ha).
  { pose proof (how_many_nonneg asleep m). lia. }
  exists t. rewrite Ht, Ha. by eexists.
Qed.

Context `{!Sleeping A asleep wake}.

(** [notify] takes one from the number of sleepers, unless there is none. *)
Lemma notify_sleepers choice m m' :
  notify choice m = Some m' -> how_many asleep m' = Z.max 0 (how_many asleep m - 1).
Proof.
  pose proof (how_many_nonneg asleep m).
  unfold notify. bcase (how_many asleep m =? 0); [intros [= <-]; lia|].
  destruct (m !! choice) as [a|] eqn:Ht; [|done]. destruct (asleep a) eqn:Ha; [|done].
  intros [= <-]. rewrite (how_many_update asleep m choice a) by done.
  rewrite Ha, wake_awake. cbn. lia.
Qed.

Lemma woken_trans m1 m2 m3 : woken m1 m2 -> woken m2 m3 -> woken m1 m3.
Proof.
  intros H12 H23 t. specialize (H12 t). specialize (H23 t). destruct (m1 !! t) as [a|].
  - destruct H12 as [Heq|[Ha Heq]]; rewrite Heq in H23; [done|]. right.
    destruct H23 as [|[Hw _]]; [done|]. by rewrite wake_awake in Hw.
  - by rewrite H12 in H23.
Qed.

Lemma notify_each_spec choices m m' :
  notify_each choices m = Some m' ->
  woken m m' /\ how_many asleep m' = Z.max 0 (how_many asleep m - zlen choices).
Proof.
  revert m. induction choices as [|choice choices IH]; intros m; cbn [notify_each].
  - intros [= <-]. split; [apply woken_refl|]. pose proof (how_many_nonneg asleep m). zlist.
  - destruct (notify choice m) as [m1|] eqn:Hm1; [|done]. intros [Hw Hn]%IH. split.
    + eapply woken_trans; [by eapply notify_woken|done].
    + rewrite Hn, (notify_sleepers choice m m1 Hm1). zlist.
Qed.

Lemma notify_each_enabled k m : exists choices m', length choices = k /\ notify_each choices m = Some m'.
Proof.
  revert m. induction k as [|k IH]; intros m; [by exists [], m|].
  destruct (notify_enabled m) as (choice & m1 & Hm1). destruct (IH m1) as (choices & m' & Hl & Hm').
  exists (choice :: choices), m'. cbn. by rewrite Hl, Hm1.
Qed.

Lemma notifyAll_woken m : woken m (notifyAll m).
Proof.
  intros t. unfold notifyAll. rewrite lookup_fmap. destruct (m !! t) as [a|]; [|done].
  cbn. destruct (asleep a); auto.
Qed.

Lemma notifyAll_sleepers m : how_many asleep (notifyAll m) = 0.
Proof.
  unfold how_many, notifyAll. rewrite msum_fmap.
  rewrite (msum_ext _ (fun _ => 0)); [|intros _ a _; destruct (asleep a) eqn:Ha; by rewrite ?wake_awake, ?Ha].
  induction m as [|t a m Ht IH] using map_ind; [apply msum_empty|]. by rewrite msum_fresh.
Qed.
End Waking.

(** Woken threads count as before under any property that waking does not change. *)
Lemma woken_split {A} (asleep : A -> bool) wake m m' t a :
  woken asleep wake m m' -> m !! t = Some a ->
  exists a', m' !! t = Some a' /\ (a' = a \/ asleep a = true /\ a' = wake a).
Proof. intros Hw Ht. specialize (Hw t). rewrite Ht in Hw. destruct Hw as [|[]]; eauto. Qed.

Lemma woken_back {A} (asleep : A -> bool) wake m m' t a' :
  woken asleep wake m m' -> m' !! t = Some a' ->
  exists a, m !! t = Some a /\ (a' = a \/ asleep a = true /\ a' = wake a).
Proof.
  intros Hw Ht. specialize (Hw t). destruct (m !! t) as [a|]; [|congruence].
  destruct Hw as [Heq|[Ha Heq]]; exists a; (split; [done|]); rewrite Ht in Heq; injection Heq as ->; auto.
Qed.

Lemma woken_msum {A} (asleep : A -> bool) wake (f : A -> Z) m m' :
  woken asleep wake m m' -> (forall a, asleep a = true -> f (wake a) = f a) -> msum f m' = msum f m.
Proof.
  intros Hw Hf. revert m' Hw. induction m as [|t a m Ht IH] using map_ind; intros m' Hw.
  - assert (m' = ∅) as ->; [|done]. apply map_eq. intros t. specialize (Hw t).
    rewrite lookup_empty in Hw |- *. done.
  - destruct (woken_split _ _ _ _ t a Hw) as (a' & Ha' & Hcase); [apply lookup_insert_eq|].
    rewrite (msum_split f m' t a' Ha'), msum_fresh, (IH (delete t m')); [|intros u|done].
    + destruct Hcase as [->|[Ha ->]]; [done|]. by rewrite Hf.
    + specialize (Hw u). destruct (decide (t = u)) as [<-|Hne].
      * by rewrite Ht, lookup_delete_eq.
      * by rewrite lookup_insert_ne in Hw by done; rewrite lookup_delete_ne.
Qed.

Lemma woken_how_many {A} (asleep : A -> bool) wake (p : A -> bool) m m' :
  woken asleep wake m m' -> (forall a, asleep a = true -> p (wake a) = p a) -> how_many p m' = how_many p m.
Proof. intros Hw Hp. apply (woken_msum asleep wake); [done|]. intros a Ha. by rewrite Hp. Qed.

Lemma woken_dom {A} (asleep : A -> bool) wake m m' t :
  woken asleep wake m m' -> m !! t = None <-> m' !! t = None.
Proof.
  intros Hw. specialize (Hw t). destruct (m !! t) as [a|]; [|done].
  destruct Hw as [Heq|[_ Heq]]; by rewrite Heq.
Qed.

Lemma woken_size {A} (asleep : A -> bool) wake m m' :
  woken asleep wake m m' -> size m' = size m.
Proof.
  intros Hw. apply Nat2Z.inj. rewrite <- !msum_size. by apply (woken_msum asleep wake).
Qed.

#[export] Hint Resolve woken_refl notify_woken notifyAll_woken how_many_nonneg : thrift.
