(* ===== verification/ThreadManager.v ===== *)
(** * Thread manager: worker threads over a queue of tasks

    concurrency/ThreadManager.cpp.  [Impl] has the fields of the class, [System]
    puts it beside the threads that run: the workers ([Worker::run], whose place in
    the loop is its [pc]) and the calls other threads have made of the public
    operations (the instructions they have still to do).  A step is what a thread
    does in one piece while it holds a mutex, or one access it makes without; which
    thread is next, whom [notify] wakes and what the clock says come with the
    [event].  The mutex and the condition variables are those of POSIX: a waiter
    sleeps until it is woken, or wakes of itself ([SpuriousWorker], [SpuriousCall]). *)

From S2P Require Export Monitors.

(** ** Tasks *)

(** A [Runnable] is known by its identity. *)
Abbreviation Runnable := nat.

Module Task.

Inductive STATE := WAITING | EXECUTING | CANCELLED | COMPLETE.

Record t := Make { runnable_ : Runnable; state_ : STATE; expireTime_ : Z }.

Definition constructor (runnable : Runnable) (expiration now : Z) : t :=
  Make runnable WAITING (if negb (expiration =? 0) then s64 (now + expiration) else 0).

Definition executing (task : t) : bool :=
  match state_ task with EXECUTING => true | _ => false end.

(** The runnables it calls, and the task as it leaves it.  [ok]: the runnable
    returned and threw nothing. *)
Definition run (ok : bool) (task : t) : list Runnable * t :=
  if executing task
  then ([runnable_ task], if ok then Make (runnable_ task) COMPLETE (expireTime_ task) else task)
  else ([], task).

(** What a worker does to a task it has taken. *)
Definition start (task : t) : t :=
  match state_ task with
  | WAITING => Make (runnable_ task) EXECUTING (expireTime_ task)
  | _ => task
  end.

#[export] Instance STATE_dec : EqDecision STATE.
Proof. solve_decision. Defined.
#[export] Instance t_dec : EqDecision t.
Proof. solve_decision. Defined.
End Task.

(** ** The manager *)

Inductive STATE := UNINITIALIZED | STARTING | STARTED | JOINING | STOPPING | STOPPED.

#[export] Instance STATE_dec : EqDecision STATE.
Proof. solve_decision. Defined.

Definition is_state (x y : STATE) : bool := bool_decide (x = y).

(** What became of a task that left the queue. *)
Inductive fate :=
| Run (worker : tid)
| Expired (now : Z) (told : bool)
| Removed.

#[export] Instance fate_dec : EqDecision fate.
Proof. solve_decision. Defined.

(** The fields of [ThreadManager::Impl]; of the callback and the factory, whether
    they are set.  [added] and [taken] are history: the tasks pushed so far and the
    tasks that left the queue, in order. *)
Record Impl := MakeImpl {
  workerCount_ : Z;
  workerMaxCount_ : Z;
  idleCount_ : Z;
  pendingTaskCountMax_ : Z;
  expiredCount_ : Z;
  expireCallback_ : bool;
  state_ : STATE;
  threadFactory_ : bool;
  tasks_ : list Task.t;
  workers_ : gset tid;
  deadWorkers_ : gset tid;
  idMap_ : gset tid;
  added : list Task.t;
  taken : list (Task.t * fate)
}.

Definition set_workerCount x m := MakeImpl x (workerMaxCount_ m) (idleCount_ m) (pendingTaskCountMax_ m) (expiredCount_ m) (expireCallback_ m) (state_ m) (threadFactory_ m) (tasks_ m) (workers_ m) (deadWorkers_ m) (idMap_ m) (added m) (taken m).
Definition set_workerMaxCount x m := MakeImpl (workerCount_ m) x (idleCount_ m) (pendingTaskCountMax_ m) (expiredCount_ m) (expireCallback_ m) (state_ m) (threadFactory_ m) (tasks_ m) (workers_ m) (deadWorkers_ m) (idMap_ m) (added m) (taken m).
Definition set_idleCount x m := MakeImpl (workerCount_ m) (workerMaxCount_ m) x (pendingTaskCountMax_ m) (expiredCount_ m) (expireCallback_ m) (state_ m) (threadFactory_ m) (tasks_ m) (workers_ m) (deadWorkers_ m) (idMap_ m) (added m) (taken m).
Definition set_pendingTaskCountMax x m := MakeImpl (workerCount_ m) (workerMaxCount_ m) (idleCount_ m) x (expiredCount_ m) (expireCallback_ m) (state_ m) (threadFactory_ m) (tasks_ m) (workers_ m) (deadWorkers_ m) (idMap_ m) (added m) (taken m).
Definition set_expiredCount x m := MakeImpl (workerCount_ m) (workerMaxCount_ m) (idleCount_ m) (pendingTaskCountMax_ m) x (expireCallback_ m) (state_ m) (threadFactory_ m) (tasks_ m) (workers_ m) (deadWorkers_ m) (idMap_ m) (added m) (taken m).
Definition set_expireCallback x m := MakeImpl (workerCount_ m) (workerMaxCount_ m) (idleCount_ m) (pendingTaskCountMax_ m) (expiredCount_ m) x (state_ m) (threadFactory_ m) (tasks_ m) (workers_ m) (deadWorkers_ m) (idMap_ m) (added m) (taken m).
Definition set_state x m := MakeImpl (workerCount_ m) (workerMaxCount_ m) (idleCount_ m) (pendingTaskCountMax_ m) (expiredCount_ m) (expireCallback_ m) x (threadFactory_ m) (tasks_ m) (workers_ m) (deadWorkers_ m) (idMap_ m) (added m) (taken m).
Definition set_threadFactory x m := MakeImpl (workerCount_ m) (workerMaxCount_ m) (idleCount_ m) (pendingTaskCountMax_ m) (expiredCount_ m) (expireCallback_ m) (state_ m) x (tasks_ m) (workers_ m) (deadWorkers_ m) (idMap_ m) (added m) (taken m).
Definition set_tasks x m := MakeImpl (workerCount_ m) (workerMaxCount_ m) (idleCount_ m) (pendingTaskCountMax_ m) (expiredCount_ m) (expireCallback_ m) (state_ m) (threadFactory_ m) x (workers_ m) (deadWorkers_ m) (idMap_ m) (added m) (taken m).
Definition set_workers x m := MakeImpl (workerCount_ m) (workerMaxCount_ m) (idleCount_ m) (pendingTaskCountMax_ m) (expiredCount_ m) (expireCallback_ m) (state_ m) (threadFactory_ m) (tasks_ m) x (deadWorkers_ m) (idMap_ m) (added m) (taken m).
Definition set_deadWorkers x m := MakeImpl (workerCount_ m) (workerMaxCount_ m) (idleCount_ m) (pendingTaskCountMax_ m) (expiredCount_ m) (expireCallback_ m) (state_ m) (threadFactory_ m) (tasks_ m) (workers_ m) x (idMap_ m) (added m) (taken m).
Definition set_idMap x m := MakeImpl (workerCount_ m) (workerMaxCount_ m) (idleCount_ m) (pendingTaskCountMax_ m) (expiredCount_ m) (expireCallback_ m) (state_ m) (threadFactory_ m) (tasks_ m) (workers_ m) (deadWorkers_ m) x (added m) (taken m).
Definition set_added x m := MakeImpl (workerCount_ m) (workerMaxCount_ m) (idleCount_ m) (pendingTaskCountMax_ m) (expiredCount_ m) (expireCallback_ m) (state_ m) (threadFactory_ m) (tasks_ m) (workers_ m) (deadWorkers_ m) (idMap_ m) x (taken m).
Definition set_taken x m := MakeImpl (workerCount_ m) (workerMaxCount_ m) (idleCount_ m) (pendingTaskCountMax_ m) (expiredCount_ m) (expireCallback_ m) (state_ m) (threadFactory_ m) (tasks_ m) (workers_ m) (deadWorkers_ m) (idMap_ m) (added m) x.

Definition constructor : Impl :=
  MakeImpl 0 0 0 0 0 false UNINITIALIZED false [] ∅ ∅ ∅ [] [].

Definition pending (m : Impl) : Z := zlen (tasks_ m).
Definition tasks_empty (m : Impl) : bool := match tasks_ m with [] => true | _ => false end.

Definition state (m : Impl) : STATE := state_ m.
Definition idleWorkerCount (m : Impl) : Z := idleCount_ m.
Definition workerCount (m : Impl) : Z := workerCount_ m.
Definition pendingTaskCount (m : Impl) : Z := pending m.
Definition totalTaskCount (m : Impl) : Z := u64 (u64 (pending m + workerCount_ m) - idleCount_ m).
Definition pendingTaskCountMax (m : Impl) : Z := pendingTaskCountMax_ m.

(** A task leaves the front of the queue. *)
Definition pop (f : fate) (m : Impl) : Impl :=
  match tasks_ m with
  | [] => m
  | task :: rest => set_taken (taken m ++ [(task, f)]) (set_tasks rest m)
  end.

Definition push (value : Runnable) (expiration now : Z) (m : Impl) : Impl :=
  let task := Task.constructor value expiration now in
  set_added (added m ++ [task]) (set_tasks (tasks_ m ++ [task]) m).

Definition has_expired (now : Z) (task : Task.t) : bool :=
  if Task.expireTime_ task =? 0 then false
  else if now <? Task.expireTime_ task then false else true.

(** One round of the loop. *)
Definition expire_first (now : Z) (m : Impl) : Impl :=
  let m := pop (Expired now (expireCallback_ m)) m in
  set_expiredCount (u64 (expiredCount_ m + 1)) m.

Fixpoint removeExpiredTasks_loop (now : Z) (fuel : list Task.t) (m : Impl) : Impl :=
  match fuel, tasks_ m with
  | _ :: fuel, task :: _ =>
      if has_expired now task then removeExpiredTasks_loop now fuel (expire_first now m) else m
  | _, _ => m
  end.

(** The loop takes a task in each round, so that the queue itself is fuel enough. *)
Definition removeExpiredTasks (now : Z) (m : Impl) : Impl :=
  removeExpiredTasks_loop now (tasks_ m) m.

(** The test of [add], at the call and after every wait. *)
Definition full (m : Impl) : bool :=
  (0 <? pendingTaskCountMax_ m) && (pendingTaskCountMax_ m <=? pending m).

(** [t] is the thread that asks. *)
Definition canSleep (t : tid) (m : Impl) : bool := negb (bool_decide (t ∈ idMap_ m)).

(** ** Workers *)

Module Worker.

Inductive STATE := UNINITIALIZED | STARTING | STARTED | STOPPING | STOPPED.

(** Where [run] stands: not started; at its entry; about to tell the manager that
    all workers are there; at the head of the loop; in [monitor_.wait()]; with a task
    and without the mutex; out of the loop, [notifyManager] as it was left; over. *)
Inductive pc :=
| Created
| Entry
| Notifying
| Looping
| Waiting (asleep : bool)
| Executing (task : Task.t)
| Ending (notifyManager : bool)
| Finished.

Record t := Make { pc_ : pc; state_ : STATE; idle_ : bool }.

Definition constructor : t := Make Created UNINITIALIZED false.

Definition isActive (m : Impl) : bool :=
  (workerCount_ m <=? workerMaxCount_ m) || (is_state (state m) JOINING && negb (tasks_empty m)).

Definition goto (p : pc) (w : t) : t := Make p (state_ w) (idle_ w).
Definition set_idle (b : bool) (w : t) : t := Make (pc_ w) (state_ w) b.

Definition asleep (w : t) : bool := match pc_ w with Waiting a => a | _ => false end.
Definition wake (w : t) : t := goto (Waiting false) w.
End Worker.

#[export] Instance worker_sleeping : Sleeping Worker.t Worker.asleep Worker.wake.
Proof. done. Qed.

(** ** Calls *)

Inductive exn :=
| InvalidArgumentException
| IllegalStateException (message : string)
| TimedOutException
| TooManyPendingTasksException
| SystemResourceException
| NullPointer.

(** What a thread that called an operation has still to do: an operation from its
    start, or from where it let go of the mutex.  The flag of a wait says whether
    the thread sleeps. *)
Inductive instr :=
| Start
| Start_section
| StopImpl (join : bool)
| StopImpl_section (join : bool)
| StopImpl_removeWorker
| StopImpl_stopped
| AddWorker (value : Z)
| AddWorker_start (threads : list tid)
| AddWorker_register (thread : tid) (threads : list tid)
| AddWorker_wait (asleep : bool)
| RemoveWorker (value : Z)
| RemoveWorker_wait (asleep : bool)
| Add (value : Runnable) (timeout expiration : Z)
| Add_wait (value : Runnable) (timeout expiration : Z) (asleep : bool)
| Remove (task : Runnable)
| RemoveNextPending
| ExpiredTaskCount
| SetPendingTaskCountMax (value : Z)
| SetThreadFactory (value : bool)
| SetExpireCallback (value : bool).

Abbreviation call := (list instr).

#[export] Instance instr_dec : EqDecision instr.
Proof. solve_decision. Defined.

(** The operations as they are called. *)
Definition start : call := [Start].
Definition stop : call := [StopImpl false].
Definition join : call := [StopImpl true].
Definition destructor : call := stop.

(** [SimpleThreadManager::start]. *)
Definition SimpleThreadManager_start (workerCount pendingTaskCountMax : Z) : call :=
  [SetPendingTaskCountMax pendingTaskCountMax; Start; AddWorker workerCount].

Definition is_operation (i : instr) : bool :=
  match i with
  | AddWorker value | RemoveWorker value | SetPendingTaskCountMax value => bool_decide (in_u 64 value)
  | Start | StopImpl _ | Add _ _ _ | Remove _ | RemoveNextPending
  | ExpiredTaskCount | SetThreadFactory _ | SetExpireCallback _ => true
  | _ => false
  end.

(** The sleepers of [maxMonitor_] and of [workerMonitor_]. *)
Definition adder_asleep (c : call) : bool :=
  match c with Add_wait _ _ _ a :: _ => a | _ => false end.
Definition wake_adder (c : call) : call :=
  match c with Add_wait v t e _ :: rest => Add_wait v t e false :: rest | _ => c end.

Definition manager_asleep (c : call) : bool :=
  match c with AddWorker_wait a :: _ | RemoveWorker_wait a :: _ => a | _ => false end.
Definition wake_manager (c : call) : call :=
  match c with
  | AddWorker_wait _ :: rest => AddWorker_wait false :: rest
  | RemoveWorker_wait _ :: rest => RemoveWorker_wait false :: rest
  | _ => c
  end.

#[export] Instance adder_sleeping : Sleeping call adder_asleep wake_adder.
Proof. by intros [|[] ?]. Qed.
#[export] Instance manager_sleeping : Sleeping call manager_asleep wake_manager.
Proof. by intros [|[] ?]. Qed.

Inductive outcome :=
| Returned
| Gave (task : option Runnable)
| Counted (n : Z)
| Threw (e : exn).

(** [finished] is history: what the workers' calls of [Task::run] came to, the
    runnables they called and the task in the state they left it; [outcomes] is how the calls ended. *)
Record System := MakeSystem {
  manager : Impl;
  threads : gmap tid Worker.t;
  calls : gmap tid call;
  finished : list (tid * (list Runnable * Task.t));
  outcomes : list (tid * outcome)
}.

Definition set_manager m s := MakeSystem m (threads s) (calls s) (finished s) (outcomes s).
Definition set_threads x s := MakeSystem (manager s) x (calls s) (finished s) (outcomes s).
Definition set_calls x s := MakeSystem (manager s) (threads s) x (finished s) (outcomes s).
Definition set_finished x s := MakeSystem (manager s) (threads s) (calls s) x (outcomes s).
Definition set_outcomes x s := MakeSystem (manager s) (threads s) (calls s) (finished s) x.

Definition initial : System := MakeSystem constructor ∅ ∅ [] [].

Definition set_worker (t : tid) (w : Worker.t) (s : System) : System := set_threads (<[t := w]> (threads s)) s.

(** What the source does not determine in a step: whom [notify] wakes (once, or
    each time in [removeWorker]), the clock, the new threads in the order of their
    set, whether the system or the task does what it was asked. *)
Record choice := Choose { chosen : tid; each : list tid; now : Z; fresh : list tid; ok : bool }.

Definition notify_workers (t : tid) (s : System) : option System :=
  m ← notify Worker.asleep Worker.wake t (threads s); Some (set_threads m s).
Definition notify_adders (t : tid) (s : System) : option System :=
  m ← notify adder_asleep wake_adder t (calls s); Some (set_calls m s).
Definition notify_managers (t : tid) (s : System) : option System :=
  m ← notify manager_asleep wake_manager t (calls s); Some (set_calls m s).

(** ** [Worker::run] *)

(** The loop has a task to take: what follows [if (active)]. *)
Definition take_task (t : tid) (w : Worker.t) (c : choice) (s : System) : option System :=
  let m := removeExpiredTasks (now c) (manager s) in
  match tasks_ m with
  | [] => Some (set_worker t (Worker.goto Worker.Looping w) (set_manager m s))
  | task :: _ =>
      let m := pop (Run t) m in
      let s := set_worker t (Worker.goto (Worker.Executing (Task.start task)) w) (set_manager m s) in
      if negb (pendingTaskCountMax_ m =? 0) && (pending m <=? pendingTaskCountMax_ m - 1)
      then notify_adders (chosen c) s else Some s
  end.

Definition leave_loop (t : tid) (w : Worker.t) (s : System) : System :=
  let m := manager s in
  let m := set_workerCount (u64 (workerCount_ m - 1)) m in
  let notifyManager := workerCount_ m =? workerMaxCount_ m in
  set_worker t (Worker.goto (Worker.Ending notifyManager) (Worker.set_idle true w)) (set_manager m s).

Definition sleep (t : tid) (w : Worker.t) (s : System) : System :=
  let m := manager s in
  set_worker t (Worker.goto (Worker.Waiting true) (Worker.set_idle true w))
    (set_manager (set_idleCount (u64 (idleCount_ m + 1)) m) s).

(** The critical section of the loop, from the test of the inner [while] on. *)
Definition loop_section (active : bool) (t : tid) (w : Worker.t) (c : choice) (s : System) : option System :=
  if active && tasks_empty (manager s) then Some (sleep t w s)
  else if active then take_task t w c s
  else Some (leave_loop t w s).

(** What follows [monitor_.wait()]. *)
Definition after_wait (t : tid) (w : Worker.t) (c : choice) (s : System) : option System :=
  let m := manager s in
  let active := Worker.isActive m in
  loop_section active t (Worker.set_idle false w) c
    (set_manager (set_idleCount (u64 (idleCount_ m - 1)) m) s).

Definition entry_section (t : tid) (w : Worker.t) (s : System) : System :=
  let m := manager s in
  if workerCount_ m <? workerMaxCount_ m then
    let m := set_workerCount (u64 (workerCount_ m + 1)) m in
    let notifyManager := workerCount_ m =? workerMaxCount_ m in
    set_worker t (Worker.goto (if notifyManager then Worker.Notifying else Worker.Looping) w) (set_manager m s)
  else set_worker t (Worker.goto (Worker.Ending false) w) s.

Definition end_section (t : tid) (w : Worker.t) (notifyManager : bool) (c : choice) (s : System) : option System :=
  let m := manager s in
  let m := set_deadWorkers ({[t]} ∪ deadWorkers_ m) m in
  let s := set_worker t (Worker.goto Worker.Finished w) (set_manager m s) in
  if notifyManager then notify_managers (chosen c) s else Some s.

(** A thread that is not asleep and, while a task runs, has no call of its own. *)
Definition run (t : tid) (c : choice) (s : System) : option System :=
  w ← threads s !! t;
  match Worker.pc_ w with
  | Worker.Created | Worker.Waiting true | Worker.Finished => None
  | Worker.Entry => Some (entry_section t w s)
  | Worker.Notifying => notify_managers (chosen c) (set_worker t (Worker.goto Worker.Looping w) s)
  | Worker.Looping => loop_section (Worker.isActive (manager s)) t w c s
  | Worker.Waiting false => after_wait t w c s
  | Worker.Executing task =>
      match calls s !! t with
      | Some _ => None
      | None => Some (set_worker t (Worker.goto Worker.Looping w)
                       (set_finished (finished s ++ [(t, Task.run (ok c) task)]) s))
      end
  | Worker.Ending notifyManager => end_section t w notifyManager c s
  end.

(** ** The operations of the manager *)

(** How an instruction ends: with more to do, with a result, with an exception. *)
Inductive control :=
| Next (c : call)
| Result (o : outcome)
| Throw (e : exn).

Abbreviation section := (option (System * control)).

Definition go (s : System) (c : call) : section := Some (s, Next c).
Definition throw (s : System) (e : exn) : section := Some (s, Throw e).

Definition start_ (s : System) : section :=
  if is_state (state_ (manager s)) STOPPED then go s [] else go s [Start_section].

(** Nothing ever sets STARTING, the state whose end the loop waits for. *)
Definition start_section (s : System) : section :=
  let m := manager s in
  if is_state (state_ m) UNINITIALIZED then
    if threadFactory_ m then
      go (set_threads (notifyAll Worker.asleep Worker.wake (threads s)) (set_manager (set_state STARTED m) s)) []
    else throw s InvalidArgumentException
  else if is_state (state_ m) STARTING then None
  else go s [].

Definition stopImpl (join : bool) (s : System) : section :=
  if is_state (state_ (manager s)) STOPPED then go s [] else go s [StopImpl_section join].

Definition stopImpl_section (join : bool) (s : System) : section :=
  let m := manager s in
  if (negb (is_state (state_ m) STOPPING) && negb (is_state (state_ m) JOINING) &&
      negb (is_state (state_ m) STOPPED))%bool then
    go (set_manager (set_state (if join then JOINING else STOPPING) m) s)
       [StopImpl_removeWorker; StopImpl_stopped]
  else go s [StopImpl_stopped].

Definition stopImpl_removeWorker (s : System) : section := go s [RemoveWorker (workerCount_ (manager s))].

Definition stopImpl_stopped (s : System) : section :=
  go (set_manager (set_state STOPPED (manager s)) s) [].

(** A set of threads fits in memory: of pointers of two words each.  (The table of
    the model also keeps the threads that are over.) *)
Definition max_threads : Z := 2 ^ 60.

Definition new_threads (ts : list tid) (m : gmap tid Worker.t) : gmap tid Worker.t :=
  foldr (fun t => insert t Worker.constructor) m ts.

(** The threads are made, then published; until then no one else knows them. *)
Definition addWorker (value : Z) (c : choice) (s : System) : section :=
  let m := manager s in
  let newThreads := fresh c in
  if negb (threadFactory_ m) && (0 <? value) then throw s NullPointer
  else if max_threads <? Z.of_nat (size (threads s)) + value then throw s SystemResourceException
  else if (zlen newThreads =? value) && bool_decide (NoDup newThreads) &&
          forallb (fun t => bool_decide (threads s !! t = None) && bool_decide (calls s !! t = None)) newThreads
  then
    let m := set_workerMaxCount (u64 (workerMaxCount_ m + value)) m in
    let m := set_workers (workers_ m ∪ list_to_set newThreads) m in
    go (set_threads (new_threads newThreads (threads s)) (set_manager m s)) [AddWorker_start newThreads]
  else None.

(** [Thread::start] does nothing to a thread that has been started. *)
Definition addWorker_start (ts : list tid) (c : choice) (s : System) : section :=
  match ts with
  | [] => go s [AddWorker_wait false]
  | t :: ts =>
      match threads s !! t with
      | Some w =>
          let w := Worker.Make (Worker.pc_ w) Worker.STARTING (Worker.idle_ w) in
          match Worker.pc_ w, ok c with
          | Worker.Created, true => go (set_worker t (Worker.goto Worker.Entry w) s) [AddWorker_register t ts]
          | Worker.Created, false => throw (set_worker t w s) SystemResourceException
          | _, _ => go (set_worker t w s) [AddWorker_register t ts]
          end
      | None => None
      end
  end.

Definition addWorker_register (t : tid) (ts : list tid) (s : System) : section :=
  let m := manager s in
  go (set_manager (set_idMap ({[t]} ∪ idMap_ m) m) s) [AddWorker_start ts].

Definition addWorker_wait (s : System) : section :=
  let m := manager s in
  if negb (workerCount_ m =? workerMaxCount_ m) then go s [AddWorker_wait true] else go s [].

Definition removeWorker (value : Z) (c : choice) (s : System) : section :=
  let m := manager s in
  if workerMaxCount_ m <? value then throw s InvalidArgumentException
  else
    let m := set_workerMaxCount (workerMaxCount_ m - value) m in
    let s := set_manager m s in
    if idleCount_ m <? value then
      if zlen (each c) =? idleCount_ m then
        ts ← notify_each Worker.asleep Worker.wake (each c) (threads s);
        go (set_threads ts s) [RemoveWorker_wait false]
      else None
    else go (set_threads (notifyAll Worker.asleep Worker.wake (threads s)) s) [RemoveWorker_wait false].

Definition removeWorker_wait (s : System) : section :=
  let m := manager s in
  if negb (workerCount_ m =? workerMaxCount_ m) then go s [RemoveWorker_wait true]
  else
    let m := set_workers (workers_ m ∖ deadWorkers_ m) (set_idMap (idMap_ m ∖ deadWorkers_ m) m) in
    go (set_manager (set_deadWorkers ∅ m) s) [].

(** What [add] does when there is room. *)
Definition add_push (value : Runnable) (expiration : Z) (c : choice) (s : System) : section :=
  let s := set_manager (push value expiration (now c) (manager s)) s in
  if 0 <? idleCount_ (manager s) then s ← notify_workers (chosen c) s; go s [] else go s [].

(** The loop around [maxMonitor_.wait(timeout)]. *)
Definition add_wait (value : Runnable) (timeout expiration : Z) (c : choice) (s : System) : section :=
  if full (manager s) then go s [Add_wait value timeout expiration true]
  else add_push value expiration c s.

Definition add (t : tid) (value : Runnable) (timeout expiration : Z) (c : choice) (s : System) : section :=
  if negb (is_state (state_ (manager s)) STARTED) then
    throw s (IllegalStateException "ThreadManager::Impl::add ThreadManager not started")
  else
    let s := set_manager (removeExpiredTasks (now c) (manager s)) s in
    if full (manager s) then
      if negb (threadFactory_ (manager s)) then throw s NullPointer
      else if canSleep t (manager s) && (0 <=? timeout) then add_wait value timeout expiration c s
      else throw s TooManyPendingTasksException
    else add_push value expiration c s.

Definition remove (task : Runnable) (s : System) : section :=
  if negb (is_state (state_ (manager s)) STARTED) then
    throw s (IllegalStateException "ThreadManager::Impl::remove ThreadManager not started")
  else go s [].

Definition removeNextPending (s : System) : section :=
  let m := manager s in
  if negb (is_state (state_ m) STARTED) then
    throw s (IllegalStateException "ThreadManager::Impl::removeNextPending ThreadManager not started")
  else match tasks_ m with
       | [] => Some (s, Result (Gave None))
       | task :: _ => Some (set_manager (pop Removed m) s, Result (Gave (Some (Task.runnable_ task))))
       end.

Definition expiredTaskCount (s : System) : section :=
  let m := manager s in
  Some (set_manager (set_expiredCount 0 m) s, Result (Counted (expiredCount_ m))).

(** One step of a call of thread [t]; a sleeper has none. *)
Definition instruction (t : tid) (i : instr) (c : choice) (s : System) : section :=
  match i with
  | Start => start_ s
  | Start_section => start_section s
  | StopImpl join => stopImpl join s
  | StopImpl_section join => stopImpl_section join s
  | StopImpl_removeWorker => stopImpl_removeWorker s
  | StopImpl_stopped => stopImpl_stopped s
  | AddWorker value => addWorker value c s
  | AddWorker_start ts => addWorker_start ts c s
  | AddWorker_register t ts => addWorker_register t ts s
  | AddWorker_wait false => addWorker_wait s
  | RemoveWorker value => removeWorker value c s
  | RemoveWorker_wait false => removeWorker_wait s
  | Add value timeout expiration => add t value timeout expiration c s
  | Add_wait value timeout expiration false => add_wait value timeout expiration c s
  | AddWorker_wait true | RemoveWorker_wait true | Add_wait _ _ _ true => None
  | Remove task => remove task s
  | RemoveNextPending => removeNextPending s
  | ExpiredTaskCount => expiredTaskCount s
  | SetPendingTaskCountMax value => go (set_manager (set_pendingTaskCountMax value (manager s)) s) []
  | SetThreadFactory value => go (set_manager (set_threadFactory value (manager s)) s) []
  | SetExpireCallback value => go (set_manager (set_expireCallback value (manager s)) s) []
  end.

(** The call goes on with what the instruction left and what was to follow it. *)
Definition log (t : tid) (o : outcome) (s : System) : System := set_outcomes (outcomes s ++ [(t, o)]) s.

Definition set_call (t : tid) (c : call) (s : System) : System :=
  set_calls (match c with [] => delete t (calls s) | _ => <[t := c]> (calls s) end) s.

Definition continue (t : tid) (rest : call) (k : control) (s : System) : System :=
  match k with
  | Next c =>
      let s := set_call t (c ++ rest) s in
      match c ++ rest with [] => log t Returned s | _ => s end
  | Result o => log t o (set_call t rest s)
  | Throw e => log t (Threw e) (set_call t [] s)
  end.

(** ** Steps *)

Inductive event :=
| Call (t : tid) (c : call)
| Step (t : tid) (c : choice)
| LockTimeout (t : tid)
| WaitTimeout (t : tid)
| Work (t : tid) (c : choice)
| SpuriousWorker (t : tid)
| SpuriousCall (t : tid).

(** Who may call: a thread that is no worker, or a worker from the task it runs. *)
Definition may_call (t : tid) (s : System) : bool :=
  match calls s !! t, threads s !! t with
  | None, None => true
  | None, Some w => match Worker.pc_ w with Worker.Executing _ => true | _ => false end
  | Some _, _ => false
  end.

Definition exec (e : event) (s : System) : option System :=
  match e with
  | Call t c =>
      if may_call t s && forallb is_operation c && negb (bool_decide (c = []))
      then Some (set_calls (<[t := c]> (calls s)) s) else None
  | Step t c =>
      match calls s !! t with
      | Some (i :: rest) => '(s, k) ← instruction t i c s; Some (continue t rest k s)
      | _ => None
      end
  | LockTimeout t =>
      match calls s !! t with
      | Some (Add _ timeout _ :: rest) =>
          if negb (timeout =? 0) then Some (continue t rest (Throw TimedOutException) s) else None
      | _ => None
      end
  | WaitTimeout t =>
      match calls s !! t with
      | Some (Add_wait _ timeout _ true :: rest) =>
          if 0 <? timeout then Some (continue t rest (Throw TimedOutException) s) else None
      | _ => None
      end
  | Work t c => run t c s
  | SpuriousWorker t =>
      w ← threads s !! t;
      if Worker.asleep w then Some (set_worker t (Worker.wake w) s) else None
  | SpuriousCall t =>
      c ← calls s !! t;
      if adder_asleep c then Some (set_calls (<[t := wake_adder c]> (calls s)) s)
      else if manager_asleep c then Some (set_calls (<[t := wake_manager c]> (calls s)) s) else None
  end.

Fixpoint exec_all (es : list event) (s : System) : option System :=
  match es with
  | [] => Some s
  | e :: es => s ← exec e s; exec_all es s
  end.

Inductive reachable : System -> Prop :=
| reachable_initial : reachable initial
| reachable_step s e s' : reachable s -> exec e s = Some s' -> reachable s'.
