(* ===== verification/ThreadInvariant.v ===== *)
(** * Thread manager: what holds in every reachable state

    The counters of the manager count the workers that stand where they say, and
    there are never fewer workers awake than tasks while one sleeps ([staffed]). *)

From S2P Require Export ThreadManager.

(** ** Expired tasks *)

(** The loop takes from the queue the longest prefix of tasks that have expired. *)
Definition expires (now : Z) (m m' : Impl) : Prop :=
  exists gone rest n,
    tasks_ m = gone ++ rest /\
    Forall (fun k => has_expired now k = true) gone /\
    (match rest with k :: _ => has_expired now k = false | [] => True end) /\
    m' = set_expiredCount n
           (set_taken (taken m ++ map (fun k => (k, Expired now (expireCallback_ m))) gone) (set_tasks rest m)).

Lemma expires_none now m : (forall k rest, tasks_ m = k :: rest -> has_expired now k = false) -> expires now m m.
Proof.
  intros Hk. exists [], (tasks_ m), (expiredCount_ m). split_and!; [done..| |].
  - destruct (tasks_ m) as [|k rest]; [done|]. by eapply Hk.
  - cbn. rewrite app_nil_r. by destruct m.
Qed.

Lemma removeExpiredTasks_loop_spec now fuel m :
  fuel = tasks_ m -> expires now m (removeExpiredTasks_loop now fuel m).
Proof.
  revert m. induction fuel as [|k fuel IH]; intros m Hfuel; cbn [removeExpiredTasks_loop].
  - apply expires_none. by rewrite <- Hfuel.
  - rewrite <- Hfuel. destruct (has_expired now k) eqn:Hk.
    + assert (Hpop : tasks_ (expire_first now m) = fuel).
      { unfold expire_first, pop. by rewrite <- Hfuel. }
      destruct (IH (expire_first now m)) as (gone & rest & n & Hl & Hg & Hr & Heq); [done|].
      exists (k :: gone), rest, n. rewrite Hpop in Hl. split_and!; [by rewrite <- Hfuel, Hl|by constructor|done|].
      rewrite Heq. unfold expire_first, pop. rewrite <- Hfuel. cbn. by rewrite <- app_assoc.
    + apply expires_none. rewrite <- Hfuel. by intros ? ? [= <- <-].
Qed.

Lemma removeExpiredTasks_spec now m : expires now m (removeExpiredTasks now m).
Proof. by apply removeExpiredTasks_loop_spec. Qed.

(** ** The workers and the counters *)

(** A worker that [workerCount_] counts. *)
Definition counted (w : Worker.t) : bool :=
  match Worker.pc_ w with
  | Worker.Notifying | Worker.Looping | Worker.Waiting _ | Worker.Executing _ => true
  | _ => false
  end.

Definition waiting (w : Worker.t) : bool :=
  match Worker.pc_ w with Worker.Waiting _ => true | _ => false end.

Abbreviation asleep := (how_many Worker.asleep).

(** The last clause is why no task is stranded: unless nobody sleeps, there are at
    least as many workers awake as tasks. *)
Record staffed (m : Impl) (ts : gmap tid Worker.t) : Prop := Staffed {
  staffed_size : Z.of_nat (size ts) <= max_threads;
  staffed_max : 0 <= workerMaxCount_ m <= Z.of_nat (size ts);
  staffed_workers : workerCount_ m = how_many counted ts;
  staffed_idle : idleCount_ m = how_many waiting ts;
  staffed_leaving : workerMaxCount_ m < workerCount_ m -> asleep ts = 0;
  staffed_enough : asleep ts = 0 \/ pending m + asleep ts <= how_many counted ts
}.

Lemma asleep_waiting w : Worker.asleep w = true -> waiting w = true.
Proof. by destruct w as [[] ? ?]. Qed.
Lemma waiting_counted w : waiting w = true -> counted w = true.
Proof. by destruct w as [[] ? ?]. Qed.

Lemma asleep_le_waiting ts : asleep ts <= how_many waiting ts.
Proof. apply how_many_le, asleep_waiting. Qed.
Lemma waiting_le_counted ts : how_many waiting ts <= how_many counted ts.
Proof. apply how_many_le, waiting_counted. Qed.

Definition same_counts (m m' : Impl) : Prop :=
  workerCount_ m' = workerCount_ m /\ workerMaxCount_ m' = workerMaxCount_ m /\ idleCount_ m' = idleCount_ m.

Lemma same_counts_trans m1 m2 m3 : same_counts m1 m2 -> same_counts m2 m3 -> same_counts m1 m3.
Proof. unfold same_counts. intuition congruence. Qed.

Lemma staffed_queue m m' ts :
  staffed m ts -> same_counts m m' -> pending m' <= pending m -> staffed m' ts.
Proof. intros [] (Hw & Hm & Hi) Hp. constructor; rewrite ?Hw, ?Hm, ?Hi; lia. Qed.

Lemma wake_counts w : Worker.asleep w = true ->
  counted (Worker.wake w) = counted w /\ waiting (Worker.wake w) = waiting w.
Proof. by destruct w as [[] ? ?]. Qed.

Lemma woken_asleep ts ts' : woken Worker.asleep Worker.wake ts ts' -> asleep ts' <= asleep ts.
Proof.
  intros Hw. revert ts' Hw. induction ts as [|t w ts Ht IH] using map_ind; intros ts' Hw.
  - assert (ts' = ∅) as ->; [|done]. apply map_eq. intros t. specialize (Hw t).
    by rewrite lookup_empty in Hw |- *.
  - destruct (woken_split _ _ _ _ t w Hw) as (w' & Hw' & Hcase); [apply lookup_insert_eq|].
    unfold how_many in *. rewrite (msum_split _ ts' t w' Hw'), msum_fresh by done.
    enough (Z.b2z (Worker.asleep w') <= Z.b2z (Worker.asleep w)
      /\ msum (fun a => Z.b2z (Worker.asleep a)) (delete t ts') <= msum (fun a => Z.b2z (Worker.asleep a)) ts) by lia.
    split; [destruct Hcase as [->|[Ha ->]]; [done|by rewrite Ha]|]. apply IH. intros u.
    specialize (Hw u). destruct (decide (t = u)) as [<-|Hne].
    + by rewrite Ht, lookup_delete_eq.
    + by rewrite lookup_insert_ne in Hw by done; rewrite lookup_delete_ne.
Qed.

Lemma woken_counts ts ts' : woken Worker.asleep Worker.wake ts ts' ->
  how_many counted ts' = how_many counted ts /\ how_many waiting ts' = how_many waiting ts /\ size ts' = size ts.
Proof.
  intros Hw. split_and!; [| |by eapply woken_size]; (eapply woken_how_many; [done|]); intros w Hs; by apply wake_counts.
Qed.

Lemma staffed_woken m ts ts' : staffed m ts -> woken Worker.asleep Worker.wake ts ts' -> staffed m ts'.
Proof.
  intros [] Hw. pose proof (woken_asleep _ _ Hw). destruct (woken_counts _ _ Hw) as (Hc & Hi & Hs).
  pose proof (how_many_nonneg Worker.asleep ts'). constructor; rewrite ?Hc, ?Hi, ?Hs; lia.
Qed.

Lemma staffed_bounds m ts : staffed m ts ->
  0 <= asleep ts <= idleCount_ m /\ idleCount_ m <= workerCount_ m <= max_threads /\
  0 <= workerMaxCount_ m <= max_threads.
Proof.
  intros []. pose proof (asleep_le_waiting ts). pose proof (waiting_le_counted ts).
  pose proof (how_many_nonneg Worker.asleep ts). pose proof (how_many_size counted ts). lia.
Qed.

Lemma u64_count z : 0 <= z <= max_threads + 1 -> u64 z = z.
Proof. intros Hz. apply wrapu_small. unfold in_u, max_threads in *. lia. Qed.

(** One worker changes its place, the counters follow, the queue does not grow. *)
Lemma staffed_move m m' ts t w w' :
  staffed m ts -> ts !! t = Some w ->
  workerMaxCount_ m' = workerMaxCount_ m ->
  workerCount_ m' = workerCount_ m - Z.b2z (counted w) + Z.b2z (counted w') ->
  idleCount_ m' = idleCount_ m - Z.b2z (waiting w) + Z.b2z (waiting w') ->
  pending m' <= pending m ->
  (counted w' = false -> counted w = true -> asleep ts = 0) ->
  (counted w' = true -> counted w = false -> workerCount_ m < workerMaxCount_ m) ->
  (Worker.asleep w' = true -> workerCount_ m <= workerMaxCount_ m /\ pending m' = 0) ->
  staffed m' (<[t := w']> ts).
Proof.
  intros [Hz Hm Hc Hi Hl He] Ht Hmax Hcount Hidle Hp Hleave Henter Hsleep.
  pose proof (how_many_update counted ts t w w' Ht) as Uc.
  pose proof (how_many_update waiting ts t w w' Ht) as Ui.
  pose proof (how_many_update Worker.asleep ts t w w' Ht) as Ua.
  pose proof (how_many_nonneg Worker.asleep ts). pose proof (how_many_some Worker.asleep ts t w Ht).
  pose proof (asleep_waiting w). pose proof (asleep_waiting w').
  pose proof (waiting_counted w). pose proof (waiting_counted w').
  pose proof (how_many_le Worker.asleep counted (<[t := w']> ts)
    (fun a Ha => waiting_counted a (asleep_waiting a Ha))).
  constructor; rewrite ?Hmax, ?Uc, ?Ui, ?Ua; try (rewrite map_size_insert_Some by done); try lia.
  - intros Hlt. destruct (Worker.asleep w), (Worker.asleep w'), (counted w), (counted w'); cbn in *; lia.
  - destruct (Worker.asleep w), (Worker.asleep w'), (counted w), (counted w'); cbn in *; lia.
Qed.

(** ** Every step keeps the workers in order *)

Definition staffed_system (s : System) : Prop := staffed (manager s) (threads s).

Lemma tasks_empty_pending m : tasks_empty m = (pending m =? 0).
Proof. unfold tasks_empty, pending. destruct (tasks_ m); zlist. Qed.

Lemma expires_counts now m m' : expires now m m' -> same_counts m m' /\ pending m' <= pending m.
Proof.
  intros (gone & rest & n & Hl & _ & _ & ->). split; [done|]. unfold pending. cbn. rewrite Hl. zlist.
Qed.

Lemma pop_counts f m : same_counts m (pop f m) /\ pending (pop f m) = Z.max 0 (pending m - 1).
Proof. unfold pop, pending. destruct (tasks_ m) eqn:Hk; cbn; split; rewrite ?Hk; try done; zlist. Qed.

Lemma notify_adders_same t s s' : notify_adders t s = Some s' ->
  manager s' = manager s /\ threads s' = threads s /\ finished s' = finished s.
Proof. unfold notify_adders. destruct (notify _ _ _ _); [|done]. by intros [= <-]. Qed.

Lemma notify_managers_same t s s' : notify_managers t s = Some s' ->
  manager s' = manager s /\ threads s' = threads s /\ finished s' = finished s.
Proof. unfold notify_managers. destruct (notify _ _ _ _); [|done]. by intros [= <-]. Qed.

(** A task is taken, or all had expired: the worker is awake and in the loop. *)
Lemma take_task_spec t w c s s' : take_task t w c s = Some s' ->
  exists m, expires (now c) (manager s) m /\ finished s' = finished s /\
    (tasks_ m = [] /\ manager s' = m /\ threads s' = <[t := Worker.goto Worker.Looping w]> (threads s) \/
     exists k ks, tasks_ m = k :: ks /\ manager s' = pop (Run t) m /\
       threads s' = <[t := Worker.goto (Worker.Executing (Task.start k)) w]> (threads s)).
Proof.
  unfold take_task. pose proof (removeExpiredTasks_spec (now c) (manager s)) as He. revert He.
  generalize (removeExpiredTasks (now c) (manager s)) as m. intros m He Hs. exists m. split; [done|].
  destruct (tasks_ m) as [|k ks] eqn:Hk; [injection Hs as <-; cbn; auto|].
  destruct (_ && _)%bool in Hs; [apply notify_adders_same in Hs as (Hm & Ht & Hf)|injection Hs as <-]; cbn in *;
    (split; [done|]); right; exists k, ks; auto.
Qed.

Lemma take_task_counts t w c s s' : take_task t w c s = Some s' ->
  exists w', threads s' = <[t := w']> (threads s) /\ counted w' = true /\ waiting w' = false /\
    same_counts (manager s) (manager s') /\ pending (manager s') <= pending (manager s).
Proof.
  intros (m & [Hc Hp]%expires_counts & _ & [(_ & -> & ->)|(k & ks & _ & -> & ->)])%take_task_spec;
    [eexists; by split_and!|].
  destruct (pop_counts (Run t) m) as [Hc' Hp']. eexists. split; [done|].
  split_and!; [done|done|by eapply same_counts_trans|]. unfold pending in *. zlist.
Qed.

Lemma active_staffed m ts : staffed m ts -> Worker.isActive m = false -> asleep ts = 0.
Proof.
  intros Hs. unfold Worker.isActive. intros [Hc _]%orb_false_iff. breflect.
  apply (staffed_leaving m ts); [done|lia].
Qed.

(** The loop's critical section, entered from the loop ([idle] false) or from the
    wait ([idle] true, when [idleCount_] has been taken down). *)
Lemma loop_section_staffed t w0 w c s0 s s' active :
  staffed_system s0 -> threads s0 !! t = Some w0 -> counted w0 = true -> Worker.asleep w0 = false ->
  manager s = set_idleCount (idleCount_ (manager s0) - Z.b2z (waiting w0)) (manager s0) ->
  threads s = threads s0 -> active = Worker.isActive (manager s0) ->
  loop_section active t w c s = Some s' -> staffed_system s'.
Proof.
  unfold staffed_system. intros Hs Ht Hcnt Ha Hm Hts Hact Hloop.
  pose proof (staffed_bounds _ _ Hs) as (? & ? & ?). pose proof (staffed_idle _ _ Hs).
  pose proof (staffed_workers _ _ Hs). pose proof (how_many_some counted _ t w0 Ht Hcnt).
  pose proof (how_many_some waiting _ t w0 Ht).
  unfold loop_section in Hloop. destruct (active && tasks_empty (manager s))%bool eqn:Hsleep.
  - injection Hloop as <-. unfold sleep. cbn. rewrite Hts, Hm. cbn. rewrite Hm, tasks_empty_pending in Hsleep.
    apply andb_true_iff in Hsleep as [-> Hp]. breflect. unfold Worker.isActive in Hact.
    rewrite tasks_empty_pending in Hact. unfold pending in *. cbn in Hp. rewrite Hp, andb_false_r, orb_false_r in Hact.
    symmetry in Hact. breflect.
    apply (staffed_move (manager s0) _ _ t w0); try done; unfold pending; cbn; rewrite ?Hcnt; try lia;
      destruct (waiting w0); cbn; rewrite ?u64_count; lia.
  - destruct active.
    + apply take_task_counts in Hloop as (w' & -> & Hc' & Hw' & (Hc1 & Hc2 & Hc3) & Hp). rewrite Hts.
      rewrite Hm in *. unfold pending in *. cbn in *.
      apply (staffed_move (manager s0) _ _ t w0); try done; unfold pending; rewrite ?Hc1, ?Hc2, ?Hc3, ?Hcnt, ?Hc', ?Hw';
        cbn; try lia. intros Hs'%asleep_waiting. congruence.
    + injection Hloop as <-. unfold leave_loop. cbn. rewrite Hts, Hm. cbn.
      apply (staffed_move (manager s0) _ _ t w0); try done; unfold pending; cbn; rewrite ?Hcnt; try lia.
      * rewrite u64_count; cbn; lia.
      * intros _ _. by eapply active_staffed.
Qed.

Lemma entry_staffed t w s : staffed_system s -> threads s !! t = Some w -> Worker.pc_ w = Worker.Entry ->
  staffed_system (entry_section t w s).
Proof.
  unfold staffed_system, entry_section. intros Hs Ht Hpc. pose proof (staffed_bounds _ _ Hs) as (? & ? & ?).
  assert (Hc : counted w = false) by (unfold counted; by rewrite Hpc).
  assert (Hw : waiting w = false) by (unfold waiting; by rewrite Hpc).
  bcase (workerCount_ (manager s) <? workerMaxCount_ (manager s)); cbn;
    apply (staffed_move (manager s) _ _ t w); try done; cbn; rewrite ?Hc, ?Hw, ?u64_count; cbn; try lia;
    bif; cbn; lia.
Qed.

(** A worker that no counter looks at goes on. *)
Lemma staffed_goto m ts t w p : staffed m ts -> ts !! t = Some w ->
  counted (Worker.goto p w) = counted w -> waiting (Worker.goto p w) = waiting w ->
  (Worker.asleep (Worker.goto p w) = true -> False) -> staffed m (<[t := Worker.goto p w]> ts).
Proof. intros Hs Ht Hc Hw Ha. apply (staffed_move m m ts t w); try done; rewrite ?Hc, ?Hw; try lia; by intros ->. Qed.

Lemma run_staffed t c s s' : staffed_system s -> run t c s = Some s' -> staffed_system s'.
Proof.
  intros Hs. unfold run. destruct (threads s !! t) as [w|] eqn:Ht; [|done]. cbn.
  destruct (Worker.pc_ w) as [| | | |[]|k|n|] eqn:Hpc; intros Hrun; try done.
  - injection Hrun as <-. by apply entry_staffed.
  - apply notify_managers_same in Hrun as (Hm & Hts & _). unfold staffed_system. rewrite Hm, Hts.
    apply staffed_goto; try done; unfold counted, waiting; by rewrite Hpc.
  - eapply (loop_section_staffed t w w); try done; unfold counted, Worker.asleep, waiting; rewrite ?Hpc; try done.
    cbn. rewrite Z.sub_0_r. by destruct (manager s).
  - unfold after_wait in Hrun. pose proof (staffed_bounds _ _ Hs) as (? & ? & ?).
    assert (Hw : waiting w = true) by (unfold waiting; by rewrite Hpc).
    pose proof (staffed_idle _ _ Hs). pose proof (how_many_some waiting _ t w Ht Hw).
    refine (loop_section_staffed t w _ c s _ s' _ Hs Ht (waiting_counted _ Hw) _ _ _ _ Hrun); [| |done|done].
    + unfold Worker.asleep. by rewrite Hpc.
    + cbn. rewrite Hw, u64_count; cbn; [done|lia].
  - destruct (calls s !! t); [done|]. injection Hrun as <-.
    apply staffed_goto; try done; unfold counted, waiting; by rewrite Hpc.
  - unfold end_section in Hrun.
    assert (Hs' : staffed_system (set_worker t (Worker.goto Worker.Finished w)
      (set_manager (set_deadWorkers ({[t]} ∪ deadWorkers_ (manager s)) (manager s)) s))).
    { apply staffed_goto; try done; [|unfold counted|unfold waiting]; rewrite ?Hpc; try done.
      by eapply staffed_queue. }
    destruct n; [|by injection Hrun as <-].
    apply notify_managers_same in Hrun as (Hm & Hts & _). unfold staffed_system. by rewrite Hm, Hts.
Qed.

(** ** The calls *)

Lemma new_threads_spec l ts : NoDup l -> (forall t, t ∈ l -> ts !! t = None) ->
  (forall p : Worker.t -> bool, p Worker.constructor = false -> how_many p (new_threads l ts) = how_many p ts) /\
  Z.of_nat (size (new_threads l ts)) = Z.of_nat (size ts) + zlen l.
Proof.
  induction l as [|t l IH]; cbn; [intros; split; [done|zlist]|].
  intros [Hnin Hnd]%NoDup_cons Hfresh. destruct IH as [Hp Hs]; [done|intros; apply Hfresh; by right|].
  assert (Hnone : new_threads l ts !! t = None).
  { assert (Ht : ts !! t = None) by (apply Hfresh; by left).
    clear -Hnin Ht. induction l as [|u l IH]; [done|]. cbn. apply not_elem_of_cons in Hnin as [Hne Hnin].
    rewrite lookup_insert_ne by done. by apply IH. }
  fold (new_threads l ts). split.
  - intros p Hc. by rewrite how_many_fresh, Hc, Hp.
  - rewrite map_size_insert_None by done. zlist.
Qed.

Lemma fresh_threads s l :
  forallb (fun t => bool_decide (threads s !! t = None) && bool_decide (calls s !! t = None)) l = true ->
  forall t, t ∈ l -> threads s !! t = None /\ calls s !! t = None.
Proof.
  rewrite forallb_forall. intros Hl t Ht%list_elem_of_In. specialize (Hl t Ht).
  apply andb_true_iff in Hl as [Ht1%bool_decide_eq_true Hc1%bool_decide_eq_true]. done.
Qed.

Lemma addWorker_staffed value c s s' k : staffed_system s ->
  addWorker value c s = Some (s', k) -> staffed_system s'.
Proof.
  unfold addWorker, go, throw. intros Hs Hadd. pose proof (staffed_bounds _ _ Hs) as (? & ? & ?).
  destruct (negb _ && _); [by injection Hadd as <- <-|].
  bcase (max_threads <? Z.of_nat (size (threads s)) + value); [by injection Hadd as <- <-|].
  destruct (_ && _)%bool eqn:Hfresh in Hadd; [|done]. injection Hadd as <- <-.
  apply andb_true_iff in Hfresh as [[Hlen Hnd]%andb_true_iff Hfresh]. apply bool_decide_eq_true in Hnd. breflect.
  destruct (new_threads_spec (fresh c) (threads s) Hnd) as [Hp Hsz].
  { intros t Ht. by eapply fresh_threads. }
  pose proof (zlen_nonneg (fresh c)). destruct Hs. constructor; cbn; unfold pending; cbn; rewrite ?Hp, ?Hsz by done.
  - lia.
  - rewrite u64_count; lia.
  - done.
  - done.
  - rewrite u64_count by lia. intros. apply staffed_leaving0. lia.
  - done.
Qed.

Lemma same_staffed s s' : staffed_system s ->
  same_counts (manager s) (manager s') -> pending (manager s') <= pending (manager s) -> threads s' = threads s ->
  staffed_system s'.
Proof. unfold staffed_system. intros Hs Hc Hp ->. by eapply staffed_queue. Qed.

(** All sleepers are woken, whichever way it is done. *)
Lemma removeWorker_spec value c s s' k : staffed_system s -> value <= workerMaxCount_ (manager s) ->
  removeWorker value c s = Some (s', k) ->
  k = Next [RemoveWorker_wait false] /\
  exists ts, woken Worker.asleep Worker.wake (threads s) ts /\ asleep ts = 0 /\
    s' = set_threads ts (set_manager (set_workerMaxCount (workerMaxCount_ (manager s) - value) (manager s)) s).
Proof.
  unfold removeWorker, go, throw. intros Hs Hv Hrem. pose proof (staffed_bounds _ _ Hs) as (? & ? & ?).
  bcase (workerMaxCount_ (manager s) <? value); [lia|]. cbn in Hrem.
  bcase (idleCount_ (manager s) <? value).
  - bcase (zlen (each c) =? idleCount_ (manager s)); [|done].
    destruct (notify_each _ _ _ _) as [ts|] eqn:Hn; [|done]. injection Hrem as <- <-. split; [done|].
    apply notify_each_spec in Hn as [Hw Ha]; [|apply _]. exists ts. split_and!; [done|lia|done].
  - injection Hrem as <- <-. split; [done|]. eexists.
    split_and!; [apply notifyAll_woken; apply _|apply notifyAll_sleepers; apply _|done].
Qed.

Lemma removeWorker_staffed value c s s' k : 0 <= value -> staffed_system s ->
  removeWorker value c s = Some (s', k) -> staffed_system s'.
Proof.
  intros Hv Hs Hrem. destruct (Z.le_gt_cases value (workerMaxCount_ (manager s))) as [Hle|].
  - destruct (removeWorker_spec _ _ _ _ _ Hs Hle Hrem) as (_ & ts & Hw & Ha & ->).
    pose proof (staffed_bounds _ _ Hs). pose proof (staffed_woken _ _ _ Hs Hw) as []. constructor; cbn; try lia; done.
  - unfold removeWorker, throw in Hrem. bcase (workerMaxCount_ (manager s) <? value); [by injection Hrem as <- <-|lia].
Qed.

Lemma notify_workers_spec t s s' : notify_workers t s = Some s' ->
  manager s' = manager s /\ calls s' = calls s /\ finished s' = finished s /\
  woken Worker.asleep Worker.wake (threads s) (threads s') /\ asleep (threads s') = Z.max 0 (asleep (threads s) - 1).
Proof.
  unfold notify_workers. destruct (notify _ _ _ _) as [ts|] eqn:Hn; [|done]. intros [= <-]. cbn.
  split_and!; try done; [by eapply notify_woken|]. eapply notify_sleepers; [apply _|exact Hn].
Qed.

(** A task more, and a worker woken for it if one waits. *)
Lemma add_push_staffed value expiration c s s' k : staffed_system s ->
  add_push value expiration c s = Some (s', k) -> staffed_system s'.
Proof.
  unfold add_push, go. cbn. intros Hs Hadd. pose proof (staffed_bounds _ _ Hs) as (? & ? & ?).
  set (m := push value expiration (now c) (manager s)) in *.
  assert (Hp : pending m = pending (manager s) + 1) by (unfold m, pending; cbn; zlist).
  bcase (0 <? idleCount_ (manager s)).
  - destruct (notify_workers _ _) as [s1|] eqn:Hn; [|done]. injection Hadd as <- <-.
    apply notify_workers_spec in Hn as (Hm & _ & _ & Hw & Ha). cbn in Hm, Hw, Ha. unfold staffed_system. rewrite Hm.
    destruct (staffed_woken _ _ _ Hs Hw). constructor; cbn; try done.
    pose proof (staffed_enough _ _ Hs). destruct (woken_counts _ _ Hw) as (-> & _). lia.
  - injection Hadd as <- <-. destruct Hs. constructor; cbn; try done. lia.
Qed.

Lemma add_wait_staffed value timeout expiration c s s' k : staffed_system s ->
  add_wait value timeout expiration c s = Some (s', k) -> staffed_system s'.
Proof.
  unfold add_wait, go. intros Hs. destruct (full _); [by intros [= <- <-]|]. by apply add_push_staffed.
Qed.

Lemma add_staffed t value timeout expiration c s s' k : staffed_system s ->
  add t value timeout expiration c s = Some (s', k) -> staffed_system s'.
Proof.
  unfold add, throw. intros Hs. destruct (negb _); [by intros [= <- <-]|].
  set (s1 := set_manager (removeExpiredTasks (now c) (manager s)) s).
  destruct (expires_counts _ _ _ (removeExpiredTasks_spec (now c) (manager s))) as [Hc Hp].
  assert (Hs1 : staffed_system s1) by by apply (same_staffed s).
  cbn zeta. destruct (full _); [|by apply add_push_staffed].
  destruct (negb _); [by intros [= <- <-]|]. destruct (_ && _)%bool; [by apply add_wait_staffed|by intros [= <- <-]].
Qed.

Lemma addWorker_start_staffed ts c s s' k : staffed_system s ->
  addWorker_start ts c s = Some (s', k) -> staffed_system s'.
Proof.
  unfold addWorker_start, go, throw. intros Hs. destruct ts as [|t ts]; [by intros [= <- <-]|].
  destruct (threads s !! t) as [w|] eqn:Ht; [|done]. cbn zeta.
  set (w1 := Worker.Make (Worker.pc_ w) Worker.STARTING (Worker.idle_ w)).
  assert (Hs1 : staffed_system (set_worker t w1 s)).
  { unfold staffed_system. cbn. pose proof (staffed_leaving _ _ Hs). pose proof (staffed_enough _ _ Hs) as He.
    destruct Hs. constructor; cbn; rewrite ?(how_many_update _ _ t w) by done; cbn;
      try (rewrite map_size_insert_Some by done); rewrite ?Z.sub_simpl_r; try done. }
  destruct (Worker.pc_ w) eqn:Hpc; try by intros [= <- <-]. destruct (ok c); intros [= <- <-]; [|done].
  apply (staffed_move (manager s) (manager s) _ t w); try done; unfold counted, waiting, Worker.asleep;
    rewrite Hpc; cbn; try done; lia.
Qed.

(** The numbers in the calls are sizes. *)
Definition size_ok (i : instr) : Prop :=
  match i with RemoveWorker value => 0 <= value | _ => True end.

Definition sizes_ok (s : System) : Prop := map_Forall (fun _ => Forall size_ok) (calls s).

Lemma instruction_staffed t i c s s' k :
  size_ok i -> staffed_system s -> instruction t i c s = Some (s', k) -> staffed_system s'.
Proof.
  intros Hi Hs. unfold instruction.
  destruct i as [| |j|j| | |v|ts|u ts|[]|v|[]|v tm ex|v tm ex []|r| | |v|v|v]; intros Hrun; try discriminate.
  - unfold start_ in Hrun. by destruct (is_state _ _); injection Hrun as <- <-.
  - unfold start_section, throw, go in Hrun. destruct (is_state _ _).
    + destruct (threadFactory_ _); injection Hrun as <- <-; [|done].
      eapply staffed_woken; [|apply notifyAll_woken]. by eapply staffed_queue.
    + by destruct (is_state _ _); [|injection Hrun as <- <-].
  - unfold stopImpl in Hrun. by destruct (is_state _ _); injection Hrun as <- <-.
  - unfold stopImpl_section, go in Hrun. destruct (_ && _)%bool; injection Hrun as <- <-; [|done].
    by eapply staffed_queue.
  - by injection Hrun as <- <-.
  - injection Hrun as <- <-. by eapply staffed_queue.
  - by eapply addWorker_staffed.
  - by eapply addWorker_start_staffed.
  - injection Hrun as <- <-. by eapply staffed_queue.
  - unfold addWorker_wait in Hrun. by destruct (negb _); injection Hrun as <- <-.
  - by eapply removeWorker_staffed.
  - unfold removeWorker_wait in Hrun. destruct (negb _); injection Hrun as <- <-; [done|].
    by eapply staffed_queue.
  - by eapply add_staffed.
  - by eapply add_wait_staffed.
  - unfold remove in Hrun. by destruct (negb _); injection Hrun as <- <-.
  - unfold removeNextPending in Hrun. destruct (negb _); [by injection Hrun as <- <-|].
    destruct (pop_counts Removed (manager s)) as [Hc Hp].
    destruct (tasks_ _) eqn:Hk; injection Hrun as <- <-; [done|]. eapply (same_staffed s); try done.
    cbn. unfold pending in *. zlist.
  - injection Hrun as <- <-. by eapply staffed_queue.
  - injection Hrun as <- <-. by eapply staffed_queue.
  - injection Hrun as <- <-. by eapply staffed_queue.
  - injection Hrun as <- <-. by eapply staffed_queue.
Qed.

(** The cases of an operation, each with the state and the control it ends in. *)
Ltac section_cases H :=
  unfold instruction, start_, start_section, stopImpl, stopImpl_section, stopImpl_removeWorker, stopImpl_stopped,
    addWorker, addWorker_start, addWorker_register, addWorker_wait, removeWorker, removeWorker_wait, remove,
    removeNextPending, expiredTaskCount, add, add_wait, add_push, go, throw in H; cbn zeta in H;
  unfold mbind, option_bind in H;
  repeat match type of H with
  | context [match ?x with _ => _ end] => destruct x eqn:?; try discriminate H
  end; injection H as <- <-.

Lemma instruction_calls t i c s s' k : instruction t i c s = Some (s', k) ->
  calls s' = calls s /\ finished s' = finished s.
Proof.
  intros Hrun. section_cases Hrun; cbn; try done;
    match goal with H : notify_workers _ _ = Some _ |- _ => apply notify_workers_spec in H as (? & ? & ? & _) end;
    done.
Qed.

Lemma instruction_sizes t i c s s' c' : staffed_system s ->
  instruction t i c s = Some (s', Next c') -> Forall size_ok c'.
Proof.
  intros Hs Hrun. pose proof (staffed_bounds _ _ Hs). section_cases Hrun; repeat constructor; cbn; lia.
Qed.

Lemma sizes_set_call t c s : sizes_ok s -> Forall size_ok c -> sizes_ok (set_call t c s).
Proof.
  unfold sizes_ok, set_call. intros Hs Hc. destruct c as [|i c]; cbn; [by apply map_Forall_delete|].
  by apply map_Forall_insert_2.
Qed.

Lemma sizes_continue t rest k s : sizes_ok s -> Forall size_ok rest ->
  (forall c, k = Next c -> Forall size_ok c) -> sizes_ok (continue t rest k s).
Proof.
  intros Hs Hr Hk. destruct k as [c|o|e]; cbn.
  - assert (sizes_ok (set_call t (c ++ rest) s)); [|by destruct (c ++ rest)].
    apply sizes_set_call; [done|]. apply Forall_app. auto.
  - by apply sizes_set_call.
  - by apply sizes_set_call.
Qed.

Lemma sizes_woken f g s cs : (forall c, Forall size_ok c -> Forall size_ok (g c)) ->
  sizes_ok s -> woken f g (calls s) cs -> sizes_ok (set_calls cs s).
Proof.
  intros Hg Hs Hw t c Hc. destruct (woken_back _ _ _ _ t c Hw Hc) as (c0 & Hc0 & Hcase).
  specialize (Hs t c0 Hc0). destruct Hcase as [->|[_ ->]]; auto.
Qed.

Lemma wake_adder_sizes c : Forall size_ok c -> Forall size_ok (wake_adder c).
Proof. destruct c as [|[] c]; try done. rewrite !Forall_cons. naive_solver. Qed.
Lemma wake_manager_sizes c : Forall size_ok c -> Forall size_ok (wake_manager c).
Proof. destruct c as [|[] c]; try done; rewrite !Forall_cons; naive_solver. Qed.

Lemma notify_adders_sizes t s s' : sizes_ok s -> notify_adders t s = Some s' -> sizes_ok s'.
Proof.
  unfold notify_adders. intros Hs. destruct (notify _ _ _ _) eqn:Hn; [|done]. intros [= <-].
  eapply sizes_woken; [apply wake_adder_sizes|done|by eapply notify_woken].
Qed.

Lemma notify_managers_sizes t s s' : sizes_ok s -> notify_managers t s = Some s' -> sizes_ok s'.
Proof.
  unfold notify_managers. intros Hs. destruct (notify _ _ _ _) eqn:Hn; [|done]. intros [= <-].
  eapply sizes_woken; [apply wake_manager_sizes|done|by eapply notify_woken].
Qed.

Lemma take_task_sizes t w c s s' : sizes_ok s -> take_task t w c s = Some s' -> sizes_ok s'.
Proof.
  unfold take_task. intros Hs. destruct (tasks_ _); [by intros [= <-]|].
  destruct (_ && _)%bool; [|by intros [= <-]]. by apply notify_adders_sizes.
Qed.

Lemma run_sizes t c s s' : sizes_ok s -> run t c s = Some s' -> sizes_ok s'.
Proof.
  intros Hs. unfold run. destruct (threads s !! t) as [w|]; [|done]. cbn.
  assert (Hloop : forall active w s0, sizes_ok s0 -> loop_section active t w c s0 = Some s' -> sizes_ok s').
  { intros active w0 s0 Hs0. unfold loop_section. destruct (_ && _)%bool; [by intros [= <-]|].
    destruct active; [by apply take_task_sizes|by intros [= <-]]. }
  destruct (Worker.pc_ w) as [| | | |[]|k|[]|]; try done; try (by apply Hloop).
  - intros [= <-]. unfold entry_section. by destruct (_ <? _).
  - by apply notify_managers_sizes.
  - destruct (calls s !! t); [done|]. by intros [= <-].
  - by apply notify_managers_sizes.
  - by intros [= <-].
Qed.

Lemma continue_same t rest k s :
  manager (continue t rest k s) = manager s /\ threads (continue t rest k s) = threads s /\
  finished (continue t rest k s) = finished s.
Proof. destruct k as [c|o|e]; cbn; try done. by destruct (c ++ rest). Qed.

Lemma continue_staffed t rest k s : staffed_system s -> staffed_system (continue t rest k s).
Proof. unfold staffed_system. by destruct (continue_same t rest k s) as (-> & -> & _). Qed.

Lemma call_rest s t i rest : sizes_ok s -> calls s !! t = Some (i :: rest) -> size_ok i /\ Forall size_ok rest.
Proof. intros Hs Ht. specialize (Hs t _ Ht). by apply Forall_cons in Hs. Qed.

Lemma operation_size i : is_operation i = true -> size_ok i.
Proof. destruct i; try done. cbn. intros [? _]%bool_decide_eq_true. done. Qed.

(** A call that gives up after a timeout. *)
Lemma timeout_ok t i rest e s : staffed_system s /\ sizes_ok s -> calls s !! t = Some (i :: rest) ->
  staffed_system (continue t rest (Throw e) s) /\ sizes_ok (continue t rest (Throw e) s).
Proof.
  intros [Hs Hz] Ht. split; [by apply continue_staffed|].
  destruct (call_rest s t i rest Hz Ht). by apply sizes_continue.
Qed.

Lemma exec_staffed e s s' : staffed_system s /\ sizes_ok s -> exec e s = Some s' ->
  staffed_system s' /\ sizes_ok s'.
Proof.
  intros [Hs Hz]. destruct e as [t c|t c|t|t|t c|t|t]; cbn [exec].
  - destruct (_ && _)%bool eqn:Hc; [|done]. intros [= <-]. split; [done|].
    apply andb_true_iff in Hc as [[_ Hc]%andb_true_iff _]. apply map_Forall_insert_2; [|done].
    apply Forall_forall. intros i Hi%list_elem_of_In. apply operation_size. by eapply forallb_forall.
  - destruct (calls s !! t) as [[|i rest]|] eqn:Ht; try done.
    destruct (instruction t i c s) as [[s1 k]|] eqn:Hi; [|done]. intros [= <-].
    destruct (call_rest s t i rest Hz Ht) as [Hi' Hr]. destruct (instruction_calls _ _ _ _ _ _ Hi) as [Hc _].
    split; [apply continue_staffed; by eapply instruction_staffed|].
    apply sizes_continue; [unfold sizes_ok; by rewrite Hc|done|]. intros c' ->. by eapply instruction_sizes.
  - destruct (calls s !! t) as [[|[] rest]|] eqn:Ht; try done. destruct (negb _); [|done].
    intros [= <-]. by eapply timeout_ok.
  - destruct (calls s !! t) as [[|[| | | | | | | | | | | | |? ? ? []| | | | | |] rest]|] eqn:Ht; try done.
    destruct (_ <? _); [|done]. intros [= <-]. by eapply timeout_ok.
  - intros Hrun. split; [by eapply run_staffed|by eapply run_sizes].
  - destruct (threads s !! t) as [w|] eqn:Ht; [|done]. cbn. destruct (Worker.asleep w) eqn:Ha; [|done].
    intros [= <-]. split; [|done]. eapply staffed_woken; [exact Hs|]. by apply woken_one.
  - destruct (calls s !! t) as [c|] eqn:Ht; [|done]. cbn. specialize (Hz t c Ht) as Hc.
    destruct (adder_asleep c); [|destruct (manager_asleep c); [|done]]; intros [= <-];
      (split; [done|]; apply map_Forall_insert_2; [|done]); auto using wake_adder_sizes, wake_manager_sizes.
Qed.

Lemma initial_staffed : staffed_system initial /\ sizes_ok initial.
Proof.
  split; [|by intros t c ?]. unfold staffed_system. cbn.
  constructor; cbn; unfold how_many; rewrite ?msum_empty; try done; lia || auto.
Qed.

Lemma reachable_staffed s : reachable s -> staffed_system s /\ sizes_ok s.
Proof. induction 1; [apply initial_staffed|by eapply exec_staffed]. Qed.

#[export] Hint Resolve initial_staffed reachable_staffed : thrift.
