(* ===== verification/ThreadHistory.v ===== *)
(** * Thread manager: the history of the queue

    Tasks leave the queue in the order in which they were pushed; each is handed to
    one worker, which runs it once, or expires, or is taken by a caller. *)

From S2P Require Export ThreadInvariant.

(** ** The history of the queue *)

(** The runnables of the tasks worker [t] has been given, the runnables it has called,
    and the one it is to call for the task it is at. *)
Definition given (t : tid) (l : list (Task.t * fate)) : list Runnable :=
  omap (fun '(k, f) => match f with Run u => if decide (u = t) then Some (Task.runnable_ k) else None | _ => None end) l.

Definition ran_by (t : tid) (l : list (tid * (list Runnable * Task.t))) : list Runnable :=
  concat (map (fun e => if decide (e.1 = t) then e.2.1 else []) l).

Definition at_work (t : tid) (ts : gmap tid Worker.t) : list Runnable :=
  match ts !! t with
  | Some w => match Worker.pc_ w with Worker.Executing k => (Task.run true k).1 | _ => [] end
  | None => []
  end.

#[global] Arguments given : simpl never.
#[global] Arguments ran_by : simpl never.
#[global] Arguments at_work : simpl never.

(** A task that left the queue unrun was taken by a caller, or had expired. *)
Definition fate_ok (e : Task.t * fate) : Prop :=
  match e.2 with
  | Expired now _ => Task.expireTime_ e.1 <> 0 /\ Task.expireTime_ e.1 <= now
  | _ => True
  end.

(** The tasks in the queue are as [add] made them. *)
Definition all_waiting (m : Impl) : Prop := Forall (fun k => Task.state_ k = Task.WAITING) (tasks_ m).

Record accounted (s : System) : Prop := Accounted {
  accounted_fifo : added (manager s) = map fst (taken (manager s)) ++ tasks_ (manager s);
  accounted_fates : Forall fate_ok (taken (manager s));
  accounted_waiting : all_waiting (manager s);
  accounted_runs : forall t, given t (taken (manager s)) = ran_by t (finished s) ++ at_work t (threads s)
}.

(** A change of the manager that hands no task to a worker and keeps the accounts. *)
Definition quiet (m m' : Impl) : Prop :=
  added m = map fst (taken m) ++ tasks_ m -> Forall fate_ok (taken m) -> all_waiting m ->
  added m' = map fst (taken m') ++ tasks_ m' /\ Forall fate_ok (taken m') /\ all_waiting m' /\
  forall t, given t (taken m') = given t (taken m).

Lemma quiet_same m m' : added m' = added m -> taken m' = taken m -> tasks_ m' = tasks_ m -> quiet m m'.
Proof. intros Ha Ht Hk Hf Hg Hw. unfold all_waiting. by rewrite Ha, Ht, Hk. Qed.

Lemma quiet_trans m1 m2 m3 : quiet m1 m2 -> quiet m2 m3 -> quiet m1 m3.
Proof.
  intros H12 H23 Hf Hg Hw. destruct (H12 Hf Hg Hw) as (Hf2 & Hg2 & Hw2 & Hq2). destruct (H23 Hf2 Hg2 Hw2) as (Hf3 & Hg3 & Hw3 & Hq3).
  split_and!; [done..|]. intros t. by rewrite Hq3.
Qed.

Lemma given_app t l1 l2 : given t (l1 ++ l2) = given t l1 ++ given t l2.
Proof. apply omap_app. Qed.

Lemma given_run t u k : given u [(k, Run t)] = if decide (t = u) then [Task.runnable_ k] else [].
Proof. unfold given. cbn. by destruct (decide (t = u)). Qed.

Lemma quiet_expires now m m' : expires now m m' -> quiet m m'.
Proof.
  intros (gone & rest & n & Hl & Hgone & _ & ->) Hf Hg Hw. cbn. split_and!.
  - rewrite map_app, map_map, Hf, Hl. cbn. rewrite map_id. by rewrite app_assoc.
  - apply Forall_app. split; [done|]. apply Forall_map. eapply Forall_impl; [exact Hgone|].
    intros k. unfold has_expired, fate_ok. cbn. bif; [done|]. bif; [done|]. lia.
  - unfold all_waiting in *. rewrite Hl in Hw. by apply Forall_app in Hw as [_ Hw].
  - intros t. rewrite given_app. rewrite <- (app_nil_r (given t (taken m))) at 2. f_equal.
    clear. induction gone; [done|]. by cbn.
Qed.

Lemma quiet_push value expiration now m : quiet m (push value expiration now m).
Proof.
  intros Hf Hg Hw. cbn. rewrite Hf, app_assoc. split_and!; [done..| |done].
  apply Forall_app. split; [done|]. by constructor.
Qed.

Lemma pop_accounts f m k ks : tasks_ m = k :: ks -> fate_ok (k, f) ->
  added m = map fst (taken m) ++ tasks_ m -> Forall fate_ok (taken m) ->
  added (pop f m) = map fst (taken (pop f m)) ++ tasks_ (pop f m) /\ Forall fate_ok (taken (pop f m)) /\
  taken (pop f m) = taken m ++ [(k, f)].
Proof.
  unfold pop. intros Hk Hok Hf Hg. rewrite Hk in *. cbn. split_and!; [|by apply Forall_app; split; [|constructor]|done].
  by rewrite map_app, <- app_assoc, Hf.
Qed.

Lemma quiet_removed m : quiet m (pop Removed m).
Proof.
  destruct (tasks_ m) as [|k ks] eqn:Hk; [unfold pop; rewrite Hk; by apply quiet_same|].
  intros Hf Hg Hw. destruct (pop_accounts Removed m k ks Hk I Hf Hg) as (? & ? & Ht). split_and!; [done..| |].
  { unfold all_waiting, pop in *. rewrite Hk in *. by apply Forall_cons in Hw as [_ Hw]. }
  intros t. rewrite Ht, given_app. apply app_nil_r.
Qed.

Lemma accounted_quiet s s' : accounted s -> quiet (manager s) (manager s') -> finished s' = finished s ->
  (forall t, at_work t (threads s') = at_work t (threads s)) -> accounted s'.
Proof.
  intros [Hf Hg Hall Hr] Hq Hfin Hw. destruct (Hq Hf Hg Hall) as (Hf' & Hg' & Hall' & Hq').
  constructor; [done..|]. intros t. by rewrite Hq', Hfin, Hw.
Qed.

Lemma at_work_woken ts ts' t : woken Worker.asleep Worker.wake ts ts' -> at_work t ts' = at_work t ts.
Proof.
  intros Hw. specialize (Hw t). unfold at_work. destruct (ts !! t) as [w|]; [|by rewrite Hw].
  destruct Hw as [->|[Ha ->]]; [done|]. destruct w as [[] ? ?]; done.
Qed.

Definition busy (w : Worker.t) : list Runnable :=
  match Worker.pc_ w with Worker.Executing k => (Task.run true k).1 | _ => [] end.

Lemma at_work_insert ts t w u : at_work u (<[t := w]> ts) = if decide (t = u) then busy w else at_work u ts.
Proof.
  unfold at_work. destruct (decide (t = u)) as [<-|]; [by rewrite lookup_insert_eq|by rewrite lookup_insert_ne].
Qed.

Lemma at_work_same ts t w w' u : ts !! t = Some w -> busy w' = busy w -> at_work u (<[t := w']> ts) = at_work u ts.
Proof.
  intros Ht Hb. rewrite at_work_insert. destruct (decide (t = u)) as [<-|]; [|done].
  unfold at_work. by rewrite Ht, Hb.
Qed.

(** The worker takes a task from the queue, or finds the queue empty. *)
Lemma take_task_accounted t w0 w c s s' : accounted s -> threads s !! t = Some w0 -> busy w0 = [] ->
  take_task t w c s = Some s' -> accounted s'.
Proof.
  intros Hs Ht Hb Htake. apply take_task_spec in Htake as (m & Hex & Hfin & Hcase).
  apply quiet_expires in Hex as Hq. destruct Hcase as [(_ & Hm & Hts)|(k & ks & Hk & Hm & Hts)].
  - apply (accounted_quiet s); [done|by rewrite Hm|done|]. intros u. rewrite Hts. by eapply at_work_same.
  - destruct Hs as [Hf Hg Hall Hr]. destruct (Hq Hf Hg Hall) as (Hf' & Hg' & Hall' & Hq').
    destruct (pop_accounts (Run t) m k ks Hk I Hf' Hg') as (Hf2 & Hg2 & Ht2).
    unfold all_waiting in Hall'. rewrite Hk in Hall'. apply Forall_cons in Hall' as [Hwait Hall'].
    constructor; rewrite ?Hm; [done|done|unfold all_waiting, pop; by rewrite Hk|]. intros u.
    rewrite Ht2, given_app, given_run, Hq', Hr, Hfin, Hts, at_work_insert. cbn.
    destruct (decide (t = u)) as [<-|]; [|by rewrite app_nil_r].
    unfold at_work, busy in *. rewrite Ht. cbn. rewrite Hb, app_nil_r. destruct k as [? st ?]. cbn in Hwait. by rewrite Hwait.
Qed.

(** A worker with the same task, or none, before and after. *)
Lemma accounted_move s s' t w w' : accounted s -> threads s !! t = Some w -> busy w' = busy w ->
  quiet (manager s) (manager s') -> finished s' = finished s -> threads s' = <[t := w']> (threads s) ->
  accounted s'.
Proof.
  intros Hs Ht Hb Hq Hfin Hts. apply (accounted_quiet s); [done..|]. intros u. rewrite Hts.
  by eapply at_work_same.
Qed.

Ltac moved s t w :=
  eapply (accounted_move s _ t w); [| | | | |reflexivity];
  [done|done|match goal with H : busy w = [] |- _ => rewrite H end; done|by apply quiet_same|done].

Lemma loop_section_accounted active t w0 w c s s' : accounted s -> threads s !! t = Some w0 -> busy w0 = [] ->
  loop_section active t w c s = Some s' -> accounted s'.
Proof.
  intros Hs Ht Hb. unfold loop_section. destruct (_ && _)%bool; [|destruct active].
  - intros [= <-]. moved s t w0.
  - by eapply take_task_accounted.
  - intros [= <-]. moved s t w0.
Qed.

(** A task is done with: it moves from the worker to the finished ones. *)
Lemma accounted_finish s t w k b : accounted s -> threads s !! t = Some w -> Worker.pc_ w = Worker.Executing k ->
  accounted (set_worker t (Worker.goto Worker.Looping w) (set_finished (finished s ++ [(t, Task.run b k)]) s)).
Proof.
  intros [Hf Hg Hall Hr] Ht Hpc. constructor; [done..|]. intros u. cbn. rewrite Hr, at_work_insert.
  unfold ran_by. rewrite map_app, concat_app. cbn. destruct (decide (t = u)) as [<-|]; [|by rewrite !app_nil_r].
  unfold at_work. rewrite Ht, Hpc. cbn. rewrite !app_nil_r. f_equal. destruct k as [? [] ?], b; done.
Qed.

Lemma run_accounted t c s s' : accounted s -> run t c s = Some s' -> accounted s'.
Proof.
  intros Hs. unfold run. destruct (threads s !! t) as [w|] eqn:Ht; [|done]. cbn.
  destruct (Worker.pc_ w) as [| | | |[]|k|n|] eqn:Hpc; try done;
    try (assert (Hb : busy w = []) by (unfold busy; by rewrite Hpc)).
  - intros [= <-]. unfold entry_section. destruct (_ <? _); [destruct (_ =? _)|]; moved s t w.
  - intros (Hm & Hts & Hfin)%notify_managers_same. cbn in *.
    eapply (accounted_move s); [done|done| | |done|exact Hts]; [done|]. rewrite Hm. by apply quiet_same.
  - by eapply loop_section_accounted.
  - intros Hloop. unfold after_wait in Hloop. refine (loop_section_accounted _ t w _ c _ s' _ _ Hb Hloop); [|done].
    apply (accounted_quiet s); [done|by apply quiet_same|done|done].
  - destruct (calls s !! t); [done|]. intros [= <-]. by apply accounted_finish.
  - unfold end_section. destruct n; [intros (Hm & Hts & Hfin)%notify_managers_same|intros [= <-]]; cbn in *;
      (eapply (accounted_move s); [done|done| | |done|by cbn]; [done|]); rewrite ?Hm; by apply quiet_same.
Qed.

Lemma at_work_fresh l ts u : (forall t, t ∈ l -> ts !! t = None) -> at_work u (new_threads l ts) = at_work u ts.
Proof.
  induction l as [|t l IH]; [done|]. intros Hf. cbn. fold (new_threads l ts). rewrite at_work_insert.
  rewrite IH by (intros; apply Hf; by right). destruct (decide (t = u)) as [<-|]; [|done].
  unfold at_work. by rewrite (Hf t (list_elem_of_here _ _)).
Qed.

Lemma instruction_accounted t i c s s' k : accounted s -> instruction t i c s = Some (s', k) -> accounted s'.
Proof.
  intros Hs Hrun. destruct (instruction_calls _ _ _ _ _ _ Hrun) as [_ Hfin].
  apply (accounted_quiet s); [done| |done|].
  - pose proof (quiet_expires _ _ _ (removeExpiredTasks_spec (now c) (manager s))) as Hex.
    section_cases Hrun; cbn; try (by apply quiet_same); try done;
      try (match goal with H : notify_workers _ _ = Some _ |- _ => apply notify_workers_spec in H as (-> & _) end; cbn);
      try apply quiet_push; try apply quiet_removed; (eapply quiet_trans; [exact Hex|apply quiet_push]).
  - intros u. section_cases Hrun; cbn; try done.
    all: try by (apply at_work_woken, notifyAll_woken).
    all: try by (eapply at_work_same; [eassumption|unfold busy; cbn in *;
      match goal with H : Worker.pc_ _ = _ |- _ => by rewrite H end]).
    all: try (match goal with H : notify_workers _ _ = Some _ |- _ => apply notify_workers_spec in H as (_ & _ & _ & Hw & _) end;
      cbn in Hw; by apply at_work_woken).
    + apply at_work_fresh. intros v Hv. apply (fresh_threads s (fresh c)); [|done].
      match goal with H : (_ && _)%bool = true |- _ => by apply andb_true_iff in H as [_ H] end.
    + match goal with H : notify_each _ _ _ _ = Some _ |- _ => apply notify_each_spec in H as [Hw _]; [|apply _] end.
      by apply at_work_woken.
Qed.


Lemma continue_accounted t rest k s : accounted s -> accounted (continue t rest k s).
Proof.
  intros Hs. destruct (continue_same t rest k s) as (Hm & Ht & Hf).
  apply (accounted_quiet s); rewrite ?Hm, ?Ht, ?Hf; [done|by apply quiet_same|done|done].
Qed.

Lemma exec_accounted e s s' : accounted s -> exec e s = Some s' -> accounted s'.
Proof.
  intros Hs. destruct e as [t c|t c|t|t|t c|t|t]; cbn [exec].
  - destruct (_ && _)%bool; [|done]. intros [= <-]. by apply (accounted_quiet s); [|apply quiet_same|..].
  - destruct (calls s !! t) as [[|i rest]|]; try done.
    destruct (instruction t i c s) as [[s1 k]|] eqn:Hi; [|done]. intros [= <-].
    apply continue_accounted. by eapply instruction_accounted.
  - destruct (calls s !! t) as [[|[] rest]|]; try done. destruct (negb _); [|done].
    intros [= <-]. by apply (continue_accounted t rest (Throw TimedOutException) s).
  - destruct (calls s !! t) as [[|[| | | | | | | | | | | | |? ? ? []| | | | | |] rest]|]; try done.
    destruct (_ <? _); [|done]. intros [= <-]. by apply (continue_accounted t rest (Throw TimedOutException) s).
  - by apply run_accounted.
  - destruct (threads s !! t) as [w|] eqn:Ht; [|done]. cbn. destruct (Worker.asleep w) eqn:Ha; [|done].
    intros [= <-]. apply (accounted_quiet s); [done|by apply quiet_same|done|].
    intros u. by apply at_work_woken, woken_one.
  - destruct (calls s !! t) as [c|]; [|done]. cbn.
    destruct (adder_asleep c); [|destruct (manager_asleep c); [|done]]; intros [= <-];
      by apply (accounted_quiet s); [|apply quiet_same|..].
Qed.

Lemma reachable_accounted s : reachable s -> accounted s.
Proof. induction 1; [by constructor; try constructor|by eapply exec_accounted]. Qed.

#[export] Hint Resolve reachable_accounted : thrift.
