(* ===== verification/ThreadProgress.v ===== *)
(** * Thread manager: progress

    What one step of a worker does ([moved]), a measure that each such step takes
    down, and when a worker has a step. *)

From S2P Require Export ThreadHistory.

(** ** The steps of a worker *)

(** At the critical section of the loop, with the mutex or woken to get it. *)
Definition at_loop (w : Worker.t) : Prop :=
  Worker.pc_ w = Worker.Looping \/ Worker.pc_ w = Worker.Waiting false.

Abbreviation managers_notified := (fun cs cs' => exists u, notify manager_asleep wake_manager u cs = Some cs').
Abbreviation adders_notified := (fun cs cs' => exists u, notify adder_asleep wake_adder u cs = Some cs').

(** From [w] to [w'], with what becomes of the number of workers, of the queue and
    of the calls. *)
Inductive moved (t : tid) (w w' : Worker.t) (m m' : Impl) (cs cs' : gmap tid call) : Prop :=
| moved_enter :
    Worker.pc_ w = Worker.Entry -> workerCount_ m < workerMaxCount_ m ->
    Worker.pc_ w' = (if workerCount_ m' =? workerMaxCount_ m then Worker.Notifying else Worker.Looping) ->
    workerCount_ m' = workerCount_ m + 1 -> pending m' = pending m -> cs' = cs -> moved t w w' m m' cs cs'
| moved_refused :
    Worker.pc_ w = Worker.Entry -> workerMaxCount_ m <= workerCount_ m -> Worker.pc_ w' = Worker.Ending false ->
    workerCount_ m' = workerCount_ m -> pending m' = pending m -> cs' = cs -> moved t w w' m m' cs cs'
| moved_told :
    Worker.pc_ w = Worker.Notifying -> Worker.pc_ w' = Worker.Looping ->
    workerCount_ m' = workerCount_ m -> pending m' = pending m -> managers_notified cs cs' -> moved t w w' m m' cs cs'
| moved_sleep :
    at_loop w -> Worker.isActive m = true -> pending m = 0 -> Worker.pc_ w' = Worker.Waiting true ->
    workerCount_ m' = workerCount_ m -> pending m' = pending m -> cs' = cs -> moved t w w' m m' cs cs'
| moved_take :
    at_loop w -> Worker.isActive m = true -> pending m' < pending m ->
    (Worker.pc_ w' = Worker.Looping \/ exists k, Worker.pc_ w' = Worker.Executing k) ->
    workerCount_ m' = workerCount_ m -> cs' = cs \/ adders_notified cs cs' -> moved t w w' m m' cs cs'
| moved_leave :
    at_loop w -> Worker.isActive m = false -> Worker.pc_ w' = Worker.Ending (workerCount_ m' =? workerMaxCount_ m) ->
    workerCount_ m' = workerCount_ m - 1 -> pending m' = pending m -> cs' = cs -> moved t w w' m m' cs cs'
| moved_finish k :
    Worker.pc_ w = Worker.Executing k -> cs !! t = None -> Worker.pc_ w' = Worker.Looping ->
    workerCount_ m' = workerCount_ m -> pending m' = pending m -> cs' = cs -> moved t w w' m m' cs cs'
| moved_end b :
    Worker.pc_ w = Worker.Ending b -> Worker.pc_ w' = Worker.Finished ->
    workerCount_ m' = workerCount_ m -> pending m' = pending m ->
    (if b then managers_notified cs cs' else cs' = cs) -> moved t w w' m m' cs cs'.

Lemma moved_pending t w w' m m' cs cs' : moved t w w' m m' cs cs' -> pending m' <= pending m.
Proof. destruct 1; lia. Qed.

(** A task the workers dealt with: it was run, or it had expired. *)
Definition served (e : Task.t * fate) : Prop :=
  match e.2 with Removed => False | _ => True end.

(** What a worker's step leaves alone. *)
Record kept (s s' : System) : Prop := Kept {
  kept_state : state_ (manager s') = state_ (manager s);
  kept_max : workerMaxCount_ (manager s') = workerMaxCount_ (manager s);
  kept_added : added (manager s') = added (manager s);
  kept_outcomes : outcomes s' = outcomes s;
  kept_taken : exists l, taken (manager s') = taken (manager s) ++ l /\ Forall served l
}.

Lemma kept_same s s' : state_ (manager s') = state_ (manager s) ->
  workerMaxCount_ (manager s') = workerMaxCount_ (manager s) -> added (manager s') = added (manager s) ->
  outcomes s' = outcomes s -> taken (manager s') = taken (manager s) -> kept s s'.
Proof. intros. constructor; try done. exists []. by rewrite app_nil_r. Qed.

Lemma kept_refl s : kept s s.
Proof. by apply kept_same. Qed.

Lemma kept_trans s1 s2 s3 : kept s1 s2 -> kept s2 s3 -> kept s1 s3.
Proof.
  intros [A1 A2 A3 A4 (l & Al & Af)] [B1 B2 B3 B4 (l' & Bl & Bf)]. constructor; try congruence.
  exists (l ++ l'). rewrite Bl, Al, app_assoc. split; [done|]. by apply Forall_app.
Qed.

Definition worked (t : tid) (s s' : System) : Prop :=
  exists w w', threads s !! t = Some w /\ threads s' = <[t := w']> (threads s) /\
    moved t w w' (manager s) (manager s') (calls s) (calls s') /\ kept s s'.

Lemma notify_managers_calls t s s' : notify_managers t s = Some s' ->
  managers_notified (calls s) (calls s') /\ outcomes s' = outcomes s.
Proof. unfold notify_managers. destruct (notify _ _ _ _) eqn:Hn; [|done]. intros [= <-]. split; [by exists t|done]. Qed.

Lemma notify_adders_calls t s s' : notify_adders t s = Some s' ->
  adders_notified (calls s) (calls s') /\ outcomes s' = outcomes s.
Proof. unfold notify_adders. destruct (notify _ _ _ _) eqn:Hn; [|done]. intros [= <-]. split; [by exists t|done]. Qed.

(** The first task of the queue has expired or is taken: the queue is shorter. *)
Lemma take_task_worked t w c s s' : take_task t w c s = Some s' -> tasks_ (manager s) <> [] ->
  exists w', threads s' = <[t := w']> (threads s) /\ kept s s' /\
    workerCount_ (manager s') = workerCount_ (manager s) /\ pending (manager s') < pending (manager s) /\
    (Worker.pc_ w' = Worker.Looping \/ exists k, Worker.pc_ w' = Worker.Executing k) /\
    (calls s' = calls s \/ adders_notified (calls s) (calls s')).
Proof.
  unfold take_task. intros Htake Hne.
  destruct (removeExpiredTasks_spec (now c) (manager s)) as (gone & rest & n & Hl & Hg & _ & Hm). rewrite Hm in Htake.
  assert (Hserved : Forall served (map (fun k => (k, Expired (now c) (expireCallback_ (manager s)))) gone)).
  { by apply Forall_map, Forall_true. }
  destruct rest as [|k ks]; cbn in Htake.
  - injection Htake as <-. eexists. split; [done|]. split; [constructor; try done; by eexists|].
    split_and!; [done| |by left|by left]. unfold pending. cbn. rewrite Hl, app_nil_r in *. destruct gone; [done|zlist].
  - set (s1 := set_worker _ _ _) in Htake.
    assert (Hs : manager s' = manager s1 /\ threads s' = threads s1 /\ outcomes s' = outcomes s1 /\
      (calls s' = calls s1 \/ adders_notified (calls s1) (calls s'))).
    { destruct (_ && _)%bool in Htake; [|injection Htake as <-; auto].
      destruct (notify_adders_same _ _ _ Htake) as (? & ? & _). destruct (notify_adders_calls _ _ _ Htake). auto. }
    destruct Hs as (Hm' & Ht' & Ho' & Hc'). eexists. rewrite Ht'. split; [done|]. split.
    { constructor; rewrite ?Hm', ?Ho'; try done. cbn. rewrite <- app_assoc. eexists. split; [done|].
      apply Forall_app. split; [done|]. by constructor. }
    rewrite Hm'. split_and!; [done| |right; by eexists|done]. unfold pending. cbn. rewrite Hl. zlist.
Qed.

Lemma loop_section_worked active t w0 w c n s0 s s' :
  threads s0 !! t = Some w0 -> at_loop w0 -> 1 <= workerCount_ (manager s0) <= max_threads ->
  active = Worker.isActive (manager s0) ->
  s = set_manager (set_idleCount n (manager s0)) s0 ->
  loop_section active t w c s = Some s' -> worked t s0 s'.
Proof.
  intros Ht Hw Hc Hact -> Hloop. exists w0. unfold loop_section in Hloop. cbn in Hloop.
  assert (He : tasks_empty (set_idleCount n (manager s0)) = (pending (manager s0) =? 0))
    by exact (tasks_empty_pending (set_idleCount n (manager s0))).
  destruct active; cbn in Hloop; [destruct (tasks_empty _) eqn:Hempty|].
  - injection Hloop as <-. symmetry in He. breflect. eexists. split; [done|]. split; [reflexivity|].
    split; [by eapply moved_sleep|by apply kept_same].
  - symmetry in He. breflect. apply take_task_worked in Hloop as (w' & Hts & Hk & Hcnt & Hp & Hpc & Hcs).
    + exists w'. split; [done|]. split; [exact Hts|]. split; [|by destruct Hk; constructor].
      by eapply moved_take.
    + cbn. intros Hnil. apply He. unfold pending. by rewrite Hnil.
  - injection Hloop as <-. eexists. split; [done|]. split; [reflexivity|]. split; [|by apply kept_same].
    eapply moved_leave; try done. cbn. rewrite u64_count; lia.
Qed.

Lemma run_worked t c s s' : staffed_system s -> run t c s = Some s' -> worked t s s'.
Proof.
  intros Hs. pose proof (staffed_bounds _ _ Hs) as (? & ? & ?). unfold run.
  destruct (threads s !! t) as [w|] eqn:Ht; [|done]. cbn.
  assert (Hcounted : counted w = true -> 1 <= workerCount_ (manager s) <= max_threads).
  { intros Hc. pose proof (how_many_some counted _ t w Ht Hc). pose proof (staffed_workers _ _ Hs). lia. }
  unfold counted in Hcounted. destruct (Worker.pc_ w) as [| | | |[]|k|b|] eqn:Hpc; try done; intros Hrun.
  - injection Hrun as <-. unfold entry_section. exists w.
    bcase (workerCount_ (manager s) <? workerMaxCount_ (manager s));
      (eexists; split; [done|]; split; [reflexivity|]; split; [|by apply kept_same]).
    + eapply moved_enter; try done. cbn. rewrite u64_count; lia.
    + by eapply moved_refused.
  - destruct (notify_managers_calls _ _ _ Hrun) as [Hc Ho]. apply notify_managers_same in Hrun as (Hm & Hts & _).
    exists w. eexists. split; [done|]. split; [exact Hts|]. cbn in *. rewrite Hm.
    split; [by eapply moved_told|apply kept_same; by rewrite ?Hm].
  - eapply (loop_section_worked _ t w w c (idleCount_ (manager s)) s s); try done; [by left|by apply Hcounted|].
    by destruct s as [[] ? ? ? ?].
  - by refine (loop_section_worked _ t w _ c _ s _ s' Ht (or_intror Hpc) (Hcounted _) eq_refl eq_refl Hrun).
  - destruct (calls s !! t) eqn:Hc; [done|]. injection Hrun as <-. exists w. eexists. split; [done|].
    split; [reflexivity|]. split; [by eapply moved_finish|by apply kept_same].
  - unfold end_section in Hrun. exists w. destruct b; [|injection Hrun as <-].
    + destruct (notify_managers_calls _ _ _ Hrun) as [Hc Ho]. apply notify_managers_same in Hrun as (Hm & Hts & _).
      cbn in *. eexists. split; [done|]. split; [exact Hts|].
      split; [eapply moved_end|apply kept_same]; rewrite ?Hm; try done.
    + eexists. split; [done|]. split; [reflexivity|]. split; [by eapply moved_end|by apply kept_same].
Qed.

(** ** A worker has a step *)

(** Nothing keeps it from going on: it is started and not over, awake, and its task
    has no call of its own under way. *)
Definition can_run (s : System) (t : tid) (w : Worker.t) : bool :=
  match Worker.pc_ w with
  | Worker.Created | Worker.Waiting true | Worker.Finished => false
  | Worker.Executing _ => match calls s !! t with Some _ => false | None => true end
  | _ => true
  end.

Lemma run_needs s t c s' : run t c s = Some s' -> exists w, threads s !! t = Some w /\ can_run s t w = true.
Proof.
  unfold run, can_run. destruct (threads s !! t) as [w|]; [|done]. cbn. intros Hrun. exists w. split; [done|].
  destruct (Worker.pc_ w) as [| | | |[]|k|b|]; try done. by destruct (calls s !! t).
Qed.

Lemma notify_adders_enabled s : exists u s', notify_adders u s = Some s'.
Proof.
  destruct (notify_enabled adder_asleep wake_adder (calls s)) as (u & cs & Hn).
  exists u. unfold notify_adders. rewrite Hn. by eexists.
Qed.

Lemma notify_managers_enabled s : exists u s', notify_managers u s = Some s'.
Proof.
  destruct (notify_enabled manager_asleep wake_manager (calls s)) as (u & cs & Hn).
  exists u. unfold notify_managers. rewrite Hn. by eexists.
Qed.

Lemma take_task_enabled t w s : exists c s', take_task t w c s = Some s'.
Proof.
  unfold take_task.
  set (m := removeExpiredTasks 0 (manager s)).
  set (s1 := fun k => set_worker t (Worker.goto (Worker.Executing (Task.start k)) w) (set_manager (pop (Run t) m) s)).
  destruct (tasks_ m) as [|k ks] eqn:Hk.
  - exists (Choose 0 [] 0 [] true). cbn. fold m. rewrite Hk. by eexists.
  - destruct (notify_adders_enabled (s1 k)) as (u & s' & Hu).
    exists (Choose u [] 0 [] true). cbn. fold m. rewrite Hk. fold (s1 k). rewrite Hu.
    destruct (_ && _)%bool; by eexists.
Qed.

Lemma loop_section_enabled active t w s : exists c s', loop_section active t w c s = Some s'.
Proof.
  unfold loop_section. destruct (_ && _)%bool; [exists (Choose 0 [] 0 [] true); by eexists|].
  destruct active; [apply take_task_enabled|exists (Choose 0 [] 0 [] true); by eexists].
Qed.

Lemma run_enabled s t w : threads s !! t = Some w -> can_run s t w = true -> exists c s', run t c s = Some s'.
Proof.
  intros Ht Hcan. unfold run, can_run in *. rewrite Ht. cbn.
  destruct (Worker.pc_ w) as [| | | |[]|k|b|]; try done.
  - exists (Choose 0 [] 0 [] true). by eexists.
  - destruct (notify_managers_enabled (set_worker t (Worker.goto Worker.Looping w) s)) as (u & s' & Hu).
    exists (Choose u [] 0 [] true). by eexists.
  - apply loop_section_enabled.
  - apply loop_section_enabled.
  - destruct (calls s !! t); [done|]. exists (Choose 0 [] 0 [] true). by eexists.
  - unfold end_section. destruct b; [|exists (Choose 0 [] 0 [] true); by eexists].
    set (s1 := set_worker _ _ _). destruct (notify_managers_enabled s1) as (u & s' & Hu).
    exists (Choose u [] 0 [] true). by eexists.
Qed.

(** ** A measure *)

(** How many steps a worker has before it sleeps or is over, if it finds no task. *)
Definition rank (w : Worker.t) : Z :=
  match Worker.pc_ w with
  | Worker.Created | Worker.Waiting true | Worker.Finished => 0
  | Worker.Ending _ => 2
  | Worker.Waiting false | Worker.Looping => 3
  | Worker.Executing _ => 4
  | Worker.Notifying => 5
  | Worker.Entry => 6
  end.

(** A bound on the number of steps the workers have in a state. *)
Definition work_left (s : System) : Z := 5 * pending (manager s) + msum rank (threads s).

Lemma rank_nonneg w : 0 <= rank w.
Proof. by destruct w as [[| | | |[]|?|?|] ? ?]. Qed.

Lemma work_left_nonneg s : 0 <= work_left s.
Proof. unfold work_left, pending. pose proof (msum_nonneg rank (threads s) rank_nonneg). zlist. Qed.

Lemma at_loop_rank w : at_loop w -> rank w = 3.
Proof. unfold rank. by intros [-> | ->]. Qed.

(** Telling the managers costs a unit more, which their waking needs. *)
Lemma moved_rank t w w' m m' cs cs' : moved t w w' m m' cs cs' ->
  5 * pending m' + rank w' < 5 * pending m + rank w /\
  (cs' = cs \/ adders_notified cs cs' \/
   managers_notified cs cs' /\ 5 * pending m' + rank w' < 5 * pending m + rank w - 1).
Proof.
  destruct 1 as [Hpc ? Hpc' ? Hp ->|Hpc ? Hpc' ? Hp ->|Hpc Hpc' ? Hp Hn|Hl ? ? Hpc' ? Hp ->|Hl ? Hp Hpc' ? Hcs
    |Hl ? Hpc' ? Hp ->|k Hpc ? Hpc' ? Hp ->|b Hpc Hpc' ? Hp Hn];
    try rewrite (at_loop_rank w Hl); unfold rank; rewrite ?Hpc, ?Hpc'.
  - split; [destruct (_ =? _); lia|by left].
  - split; [lia|by left].
  - split; [lia|right; right]. split; [done|lia].
  - split; [lia|by left].
  - split; [destruct Hpc' as [->|[k ->]]; lia|tauto].
  - split; [lia|by left].
  - split; [lia|by left].
  - split; [lia|]. destruct b; [right; right; split; [done|lia]|by left].
Qed.

Lemma worked_left t s s' : worked t s s' -> work_left s' < work_left s.
Proof.
  intros (w & w' & Ht & Hts & [Hm _]%moved_rank & _). unfold work_left.
  rewrite Hts, (msum_update rank _ t w w' Ht). lia.
Qed.

(** ** Runs of the workers alone *)

Definition is_work (e : event) : Prop := match e with Work _ _ => True | _ => False end.

Lemma exec_all_cons e es s s' : exec_all (e :: es) s = Some s' ->
  exists s1, exec e s = Some s1 /\ exec_all es s1 = Some s'.
Proof. cbn. destruct (exec e s) as [s1|]; [|done]. cbn. by exists s1. Qed.

(** What every step of a worker keeps, a run of the workers keeps. *)
Lemma works_keep (P : System -> Prop) es s s' :
  (forall t s s', staffed_system s -> P s -> worked t s s' -> P s') ->
  Forall is_work es -> staffed_system s /\ sizes_ok s -> P s -> exec_all es s = Some s' ->
  P s' /\ staffed_system s' /\ kept s s' /\ Z.of_nat (length es) + work_left s' <= work_left s.
Proof.
  intros HP Hes. revert s. induction Hes as [|e es He Hes IH]; intros s Hs Hp.
  - intros [= <-]. split_and!; [done|apply Hs|apply kept_refl|cbn; lia].
  - intros (s1 & He1 & Hrest)%exec_all_cons. destruct e as [| | | |t c| |]; try done.
    pose proof (exec_staffed _ _ _ Hs He1) as Hs1. apply run_worked in He1 as Hw; [|apply Hs].
    destruct (IH s1 Hs1 (HP t s s1 (proj1 Hs) Hp Hw) Hrest) as (Hp' & Hs' & Hk & Hl).
    apply worked_left in Hw as Hlt. destruct Hw as (_ & _ & _ & _ & _ & Hk1).
    split_and!; [done|done|by eapply kept_trans|cbn [length]; lia].
Qed.

(** The tasks that run have no calls of the manager under way. *)
Definition undisturbed (s : System) : Prop :=
  forall t w, threads s !! t = Some w -> calls s !! t = None.

Lemma moved_calls t w w' m m' cs cs' u : moved t w w' m m' cs cs' -> cs !! u = None <-> cs' !! u = None.
Proof.
  intros [_ [->|[(v & Hn)|[(v & Hn) _]]]]%moved_rank; [done|..]; apply notify_woken in Hn; by eapply woken_dom.
Qed.

Lemma worked_undisturbed t s s' : undisturbed s -> worked t s s' -> undisturbed s'.
Proof.
  intros Hu (w & w' & Ht & Hts & Hm & _) u v. rewrite Hts. intros Hv.
  apply (moved_calls _ _ _ _ _ _ _ u Hm). destruct (decide (t = u)) as [<-|Hne]; [by eapply Hu|].
  rewrite lookup_insert_ne in Hv by done. by eapply Hu.
Qed.

(** As many workers as are wanted, or fewer. *)
Definition manned (s : System) : Prop := 1 <= workerCount_ (manager s) <= workerMaxCount_ (manager s).

Lemma manned_active s : manned s -> Worker.isActive (manager s) = true.
Proof. intros [_ Hc]. unfold Worker.isActive. apply orb_true_iff. left. lia. Qed.

Lemma worked_manned t s s' : manned s -> worked t s s' -> manned s'.
Proof.
  intros Hn (w & w' & Ht & Hts & Hm & Hk). pose proof (manned_active s Hn). pose proof (kept_max _ _ Hk).
  unfold manned in *. destruct Hm; try congruence; lia.
Qed.

(** No worker can move. *)
Definition stuck (s : System) : Prop := map_Forall (fun t w => can_run s t w = false) (threads s).

Lemma stuck_or_step s : stuck s \/ exists t c s', run t c s = Some s'.
Proof.
  destruct (decide (map_Forall (fun t w => can_run s t w = false) (threads s))) as [|Hn]; [by left|right].
  apply map_not_Forall in Hn as (t & w & Ht & Hcan); [|apply _]. apply not_false_is_true in Hcan.
  destruct (run_enabled s t w Ht Hcan) as (c & s' & Hrun). by exists t, c, s'.
Qed.

Lemma stuck_none s t c : stuck s -> run t c s = None.
Proof.
  intros Hs. destruct (run t c s) as [s'|] eqn:Hrun; [|done].
  apply run_needs in Hrun as (w & Ht & Hcan). specialize (Hs t w Ht). cbn in Hs. congruence.
Qed.

(** Then the workers that are counted sleep. *)
Lemma stuck_asleep s : undisturbed s -> stuck s ->
  forall t w, threads s !! t = Some w -> counted w = true -> Worker.asleep w = true.
Proof.
  intros Hu Hstuck t w Ht Hc. specialize (Hstuck t w Ht) as Hcan. cbn in Hcan.
  unfold can_run in Hcan. unfold counted, Worker.asleep in *. rewrite (Hu t w Ht) in Hcan.
  by destruct (Worker.pc_ w) as [| | | |[]|?|?|].
Qed.

Lemma stuck_idle s : staffed_system s -> undisturbed s -> stuck s ->
  asleep (threads s) = workerCount_ (manager s) /\ idleCount_ (manager s) = workerCount_ (manager s).
Proof.
  intros Hs Hu Hstuck. pose proof (stuck_asleep s Hu Hstuck) as Hall. pose proof (staffed_bounds _ _ Hs).
  assert (workerCount_ (manager s) <= asleep (threads s)); [|lia].
  rewrite (staffed_workers _ _ Hs). apply msum_le. intros t w Ht. specialize (Hall t w Ht).
  destruct (counted w); [by rewrite Hall|apply b2z_nonneg].
Qed.

Lemma stuck_done s : accounted s -> undisturbed s -> stuck s ->
  forall t, given t (taken (manager s)) = ran_by t (finished s).
Proof.
  intros Ha Hu Hstuck t. rewrite (accounted_runs s Ha). unfold at_work.
  destruct (threads s !! t) as [w|] eqn:Ht; [|apply app_nil_r].
  pose proof (stuck_asleep s Hu Hstuck t w Ht) as Hs. unfold counted, Worker.asleep in Hs.
  destruct (Worker.pc_ w); try apply app_nil_r. by discriminate Hs.
Qed.

(** No worker can move, and enough are there: all that was in the queue is done. *)
Lemma drained s s' : accounted s -> accounted s' -> staffed_system s' -> kept s s' -> manned s' -> undisturbed s' ->
  stuck s' ->
  tasks_ (manager s') = [] /\ idleCount_ (manager s') = workerCount_ (manager s') /\
  exists l, taken (manager s') = taken (manager s) ++ l /\ map fst l = tasks_ (manager s) /\ Forall served l /\
    forall t, given t (taken (manager s')) = ran_by t (finished s').
Proof.
  intros Ha Ha' Hs' Hk Hn Hu Hstuck. destruct (stuck_idle s' Hs' Hu Hstuck) as [Hsleep Hidle].
  assert (Hempty : tasks_ (manager s') = []).
  { pose proof (staffed_workers _ _ Hs'). destruct (staffed_enough _ _ Hs') as [|He]; [unfold manned in Hn; lia|].
    unfold pending in He. pose proof (zlen_nonneg (tasks_ (manager s'))).
    destruct (tasks_ (manager s')); [done|]. revert He. zlist. }
  split_and!; [done|done|]. destruct (kept_taken _ _ Hk) as (l & Hl & Hserved).
  exists l. split_and!; [done| |done|by apply stuck_done].
  pose proof (accounted_fifo _ Ha) as Hf. pose proof (accounted_fifo _ Ha') as Hf'.
  rewrite (kept_added _ _ Hk), Hl, Hempty, map_app, app_nil_r, Hf in Hf'. by apply app_inv_head in Hf'.
Qed.
