(* ===== verification/ThreadJoin.v ===== *)
(** * Thread manager: a call of join

    Where [join] and the workers it waits for stand ([phase]), and the measure their
    steps take down. *)

From S2P Require Export ThreadProgress.

(** A worker out of the loop that is to tell the manager. *)
Definition will_tell (w : Worker.t) : bool :=
  match Worker.pc_ w with Worker.Ending true => true | _ => false end.

(** The one call under way is the [join] of thread [j]. *)
Inductive phase (j : tid) (s : System) : Prop :=
| phase_stop c :
    calls s = {[j := c]} -> c = join \/ c = [StopImpl_section true] ->
    state_ (manager s) = STARTED -> workerCount_ (manager s) = workerMaxCount_ (manager s) -> phase j s
| phase_count :
    calls s = {[j := [StopImpl_removeWorker; StopImpl_stopped]]} ->
    state_ (manager s) = JOINING -> workerCount_ (manager s) = workerMaxCount_ (manager s) -> phase j s
| phase_remove :
    calls s = {[j := [RemoveWorker (workerMaxCount_ (manager s)); StopImpl_stopped]]} ->
    state_ (manager s) = JOINING -> workerCount_ (manager s) = workerMaxCount_ (manager s) -> phase j s
| phase_wait a :
    calls s = {[j := [RemoveWorker_wait a; StopImpl_stopped]]} ->
    state_ (manager s) = JOINING -> workerMaxCount_ (manager s) = 0 ->
    (a = true -> workerCount_ (manager s) <> 0 \/ 0 < how_many will_tell (threads s)) -> phase j s
| phase_stopped :
    calls s = {[j := [StopImpl_stopped]]} -> state_ (manager s) = JOINING ->
    workerMaxCount_ (manager s) = 0 -> workerCount_ (manager s) = 0 -> phase j s
| phase_done :
    calls s = ∅ -> state_ (manager s) = STOPPED ->
    workerMaxCount_ (manager s) = 0 -> workerCount_ (manager s) = 0 -> phase j s.

(** What holds from the call of [join] in [s0] on. *)
Record joining (j : tid) (s0 s : System) : Prop := Joining {
  joining_phase : phase j s;
  joining_thread : threads s !! j = None;
  joining_tasks : pending (manager s) = 0 \/ 1 <= workerCount_ (manager s);
  joining_added : added (manager s) = added (manager s0);
  joining_taken : exists l, taken (manager s) = taken (manager s0) ++ l /\ Forall served l;
  joining_outcomes : outcomes s = outcomes s0 ++ (if decide (calls s = ∅) then [(j, Returned)] else [])
}.

(** ** The steps of the workers *)

Lemma notify_one f g u j (c : call) cs : notify f g u {[j := c]} = Some cs -> cs = {[j := if f c then g c else c]}.
Proof.
  unfold notify. rewrite <- insert_empty, how_many_fresh by done.
  unfold how_many. rewrite msum_empty. destruct (f c) eqn:Hf; cbn [Z.b2z Z.add Z.eqb]; [|by intros [= <-]].
  destruct (decide (u = j)) as [->|Hne].
  - rewrite lookup_insert_eq, Hf. intros [= <-]. by rewrite insert_insert_eq.
  - rewrite lookup_insert_ne by done. by rewrite lookup_empty.
Qed.

Lemma moved_will_tell t w w' m m' cs cs' : moved t w w' m m' cs cs' ->
  (will_tell w = true -> managers_notified cs cs') /\
  (will_tell w' = true -> workerCount_ m' = workerMaxCount_ m /\ workerCount_ m' = workerCount_ m - 1) /\
  (workerCount_ m' <> workerCount_ m -> workerCount_ m' = workerMaxCount_ m ->
     workerCount_ m < workerMaxCount_ m \/ will_tell w' = true).
Proof.
  destruct 1 as [Hpc ? Hpc' ? Hp ->|Hpc ? Hpc' ? Hp ->|Hpc Hpc' ? Hp Hn|Hl ? ? Hpc' ? Hp ->|Hl ? Hp Hpc' ? Hcs
    |Hl ? Hpc' ? Hp ->|k Hpc ? Hpc' ? Hp ->|b Hpc Hpc' ? Hp Hn];
    try destruct Hl as [Hpc|Hpc]; try destruct Hpc' as [Hpc'|[k Hpc']]; unfold will_tell; rewrite Hpc, Hpc';
    split_and!; intros; try done; try lia; try (by destruct (_ =? _)); try (by destruct b);
    match goal with
    | H : (if ?b then true else false) = true |- _ => destruct b eqn:?; [breflect; lia|done]
    | H : ?a = ?b |- _ \/ _ => right; by rewrite (proj2 (Z.eqb_eq _ _) H)
    end.
Qed.

Lemma worked_thread t s s' j : threads s !! j = None -> worked t s s' -> threads s' !! j = None.
Proof.
  intros Hj (w & w' & Ht & Hts & _). rewrite Hts. rewrite lookup_insert_ne; [done|]. intros ->. congruence.
Qed.

(** Whom a worker tells in a state with the one call [c]. *)
Lemma moved_one t w w' m m' j c cs' : moved t w w' m m' {[j := c]} cs' -> adder_asleep c = false ->
  cs' = {[j := c]} \/ manager_asleep c = true /\ cs' = {[j := wake_manager c]}.
Proof.
  intros [_ [->|[(u & Hn)|[(u & Hn) _]]]]%moved_rank Ha; [by left|..]; apply notify_one in Hn.
  - left. by rewrite Ha in Hn.
  - destruct (manager_asleep c); auto.
Qed.

(** The number of workers where no worker enters or leaves unless it should. *)
Lemma moved_count t w w' m m' cs cs' : moved t w w' m m' cs cs' ->
  workerCount_ m' = workerCount_ m \/
  workerCount_ m' = workerCount_ m + 1 /\ workerCount_ m < workerMaxCount_ m \/
  workerCount_ m' = workerCount_ m - 1 /\ Worker.isActive m = false /\ counted w = true.
Proof.
  destruct 1; auto. right. right. split_and!; [done|done|]. unfold counted, at_loop in *. by destruct H as [-> | ->].
Qed.

Lemma active_count m : workerCount_ m <= workerMaxCount_ m -> Worker.isActive m = true.
Proof. unfold Worker.isActive. intros. apply orb_true_iff. left. lia. Qed.

Lemma worked_count t s s' : staffed_system s -> worked t s s' ->
  workerCount_ (manager s) = workerMaxCount_ (manager s) ->
  workerCount_ (manager s') = workerMaxCount_ (manager s').
Proof.
  intros Hs (w & w' & Ht & Hts & [Hc|[[Hc ?]|(Hc & Ha & _)]]%moved_count & Hk) Heq; rewrite (kept_max _ _ Hk); try lia.
  rewrite active_count in Ha; [done|lia].
Qed.

Lemma worked_wait t s s' j : staffed_system s -> worked t s s' ->
  calls s = {[j := [RemoveWorker_wait true; StopImpl_stopped]]} -> calls s' = calls s ->
  workerMaxCount_ (manager s) = 0 ->
  workerCount_ (manager s) <> 0 \/ 0 < how_many will_tell (threads s) ->
  workerCount_ (manager s') <> 0 \/ 0 < how_many will_tell (threads s').
Proof.
  intros Hs (w & w' & Ht & Hts & Hm & Hk) Hcs Hsame Hmax Hor. rewrite Hts.
  pose proof (moved_will_tell _ _ _ _ _ _ _ Hm) as (Htold & _ & Hreach).
  pose proof (how_many_update will_tell (threads s) t w w' Ht) as Hu.
  pose proof (staffed_bounds _ _ Hs). pose proof (how_many_nonneg will_tell (<[t := w']> (threads s))).
  assert (Hw : will_tell w = false).
  { apply not_true_is_false. intros Hw. destruct (Htold Hw) as (u & Hn). rewrite Hsame, Hcs in Hn.
    apply notify_one in Hn. cbn in Hn. apply (f_equal (fun m => m !! j)) in Hn. by rewrite !lookup_singleton_eq in Hn. }
  rewrite Hw in Hu. destruct (Z.eq_dec (workerCount_ (manager s')) 0) as [Hz|]; [right|by left].
  destruct (moved_count _ _ _ _ _ _ _ Hm) as [Hc|[[Hc ?]|(Hc & _ & _)]]; [|lia|].
  - destruct Hor; [lia|]. destruct (will_tell w'); cbn [Z.b2z] in Hu; lia.
  - destruct Hreach as [|Hw']; [lia|lia|lia|]. rewrite Hw' in Hu. cbn [Z.b2z] in Hu.
    pose proof (how_many_nonneg will_tell (threads s)). lia.
Qed.

Lemma worked_phase t s s' j : staffed_system s -> phase j s -> worked t s s' -> phase j s'.
Proof.
  intros Hs Hphase Hw. pose proof (worked_count t s s' Hs Hw) as Hcount. pose proof (staffed_bounds _ _ Hs).
  pose proof Hw as (w & w' & Ht & Hts & Hm & Hk). pose proof (kept_state _ _ Hk) as Hst. pose proof (kept_max _ _ Hk) as Hmax.
  destruct Hphase as [c Hcs Hc ? ?|Hcs ? ?|Hcs ? ?|a Hcs ? ? Hor|Hcs ? ? ?|Hcs ? ? ?]; rewrite Hcs in Hm.
  - apply moved_one in Hm as [Hcs'|[Ha _]]; [|by destruct Hc as [-> | ->]..].
    eapply phase_stop; [exact Hcs'|done|congruence|auto].
  - apply moved_one in Hm as [Hcs'|[Ha _]]; [|done..]. eapply phase_count; [exact Hcs'|congruence|auto].
  - apply moved_one in Hm as [Hcs'|[Ha _]]; [|done..]. eapply phase_remove; [by rewrite Hmax|congruence|auto].
  - apply moved_one in Hm as [Hcs'|[_ Hcs']]; [| |done]; cbn in Hcs'.
    + eapply phase_wait; [exact Hcs'|congruence|congruence|]. intros ->. eapply worked_wait; try done; [congruence|auto].
    + eapply phase_wait; [exact Hcs'|congruence|congruence|done].
  - apply moved_one in Hm as [Hcs'|[Ha _]]; [|done..].
    eapply phase_stopped; [exact Hcs'|congruence|congruence|]. rewrite Hcount; lia.
  - apply moved_rank in Hm as [_ Hm]. assert (Hcs' : calls s' = ∅).
    { destruct Hm as [|[(u & Hn)|[(u & Hn) _]]]; [done|..]; unfold notify, how_many in Hn;
        rewrite msum_empty in Hn; by injection Hn. }
    eapply phase_done; [exact Hcs'|congruence|congruence|]. rewrite Hcount; lia.
Qed.

Lemma worked_joining t j s0 s s' : staffed_system s -> joining j s0 s -> worked t s s' -> joining j s0 s'.
Proof.
  intros Hs [Hphase Hj Htasks Hadd (l & Hl & Hf) Hout] Hw.
  pose proof (worked_phase t s s' j Hs Hphase Hw) as Hphase'. pose proof Hw as (w & w' & Ht & Hts & Hm & Hk).
  pose proof (moved_pending _ _ _ _ _ _ _ Hm). assert (0 <= pending (manager s')) by apply zlen_nonneg.
  constructor; [done|by eapply worked_thread| |by rewrite (kept_added _ _ Hk)| |].
  - destruct Htasks as [|Hn]; [left; lia|].
    destruct (moved_count _ _ _ _ _ _ _ Hm) as [Hc|[[Hc ?]|(Hc & Ha & Hcnt)]]; [right; lia..|left].
    assert (state_ (manager s) = JOINING) as Hst.
    { destruct Hphase; try done; exfalso; [rewrite active_count in Ha; [done|lia]|lia]. }
    unfold Worker.isActive, state in Ha. rewrite Hst, tasks_empty_pending in Ha.
    apply orb_false_iff in Ha as [_ Ha]. cbn in Ha. apply negb_false_iff in Ha. breflect. lia.
  - destruct (kept_taken _ _ Hk) as (l' & Hl' & Hf'). exists (l ++ l'). rewrite Hl', Hl, app_assoc.
    split; [done|by apply Forall_app].
  - rewrite (kept_outcomes _ _ Hk), Hout. f_equal. apply decide_ext.
    split; intros He; apply map_eq; intros u; rewrite lookup_empty; apply (moved_calls _ _ _ _ _ _ _ u Hm);
      rewrite He; apply lookup_empty.
Qed.

(** ** The steps of the call *)

Lemma singleton_call j c d (s : System) : calls s = {[j := c]} -> calls (set_call j d s) = match d with [] => ∅ | _ => {[j := d]} end.
Proof.
  unfold set_call. intros Hcs. destruct d; cbn; rewrite Hcs; [apply delete_singleton_eq|apply insert_singleton_eq].
Qed.

Definition is_step (j : tid) (e : event) : Prop := match e with Step t _ => t = j | _ => False end.

(** One instruction of the call: the state it leaves, before the call goes on. *)
Lemma step_one j c s s' i rest : calls s = {[j := i :: rest]} -> exec (Step j c) s = Some s' ->
  exists s1 k, instruction j i c s = Some (s1, k) /\ s' = continue j rest k s1.
Proof.
  intros Hcs. cbn. rewrite Hcs, lookup_singleton_eq. destruct (instruction j i c s) as [[s1 k]|]; [|done].
  intros [= <-]. by exists s1, k.
Qed.

(** An instruction that goes on to [d], in a state with the same counters. *)
Lemma continue_joining j s0 s s1 c d : joining j s0 s -> calls s = {[j := c]} ->
  calls s1 = calls s -> outcomes s1 = outcomes s -> threads s1 !! j = None ->
  pending (manager s1) = pending (manager s) -> workerCount_ (manager s1) = workerCount_ (manager s) ->
  added (manager s1) = added (manager s) -> taken (manager s1) = taken (manager s) ->
  d <> [] -> phase j (set_call j d s1) -> joining j s0 (set_call j d s1).
Proof.
  intros [Hphase Hj Htasks Hadd Htaken Hout] Hcs Hc Ho Ht Hp Hn Ha Hk Hd Hph.
  assert (Hset : calls (set_call j d s1) = {[j := d]}).
  { rewrite (singleton_call j c) by congruence. by destruct d. }
  constructor; [done|done|cbn; by rewrite Hp, Hn|cbn; by rewrite Ha|cbn; by rewrite Hk|].
  change (outcomes (set_call j d s1)) with (outcomes s1). rewrite Ho, Hout, Hcs, Hset. done.
Qed.

Lemma step_phase_next j s0 s c s' : staffed_system s -> joining j s0 s -> exec (Step j c) s = Some s' ->
  joining j s0 s'.
Proof.
  intros Hs Hjoin Hstep. pose proof (joining_thread _ _ _ Hjoin) as Hj. pose proof (staffed_bounds _ _ Hs).
  destruct (joining_phase _ _ _ Hjoin) as [cl Hcs Hc Hst Hn|Hcs Hst Hn|Hcs Hst Hn|[] Hcs Hst Hmax Hor|Hcs Hst Hmax Hn|Hcs Hst Hmax Hn].
  - destruct Hc as [-> | ->]; apply (step_one j c s s' _ _ Hcs) in Hstep as (s1 & k & Hi & ->); cbn in Hi.
    + unfold stopImpl in Hi. rewrite Hst in Hi. injection Hi as <- <-. cbn [continue app].
      eapply continue_joining; try done. eapply phase_stop; [by erewrite singleton_call|by right|done|done].
    + unfold stopImpl_section in Hi. rewrite Hst in Hi. injection Hi as <- <-. cbn [continue app].
      eapply continue_joining; try done. by eapply phase_count; [erewrite singleton_call|..].
  - apply (step_one j c s s' _ _ Hcs) in Hstep as (s1 & k & Hi & ->). injection Hi as <- <-. cbn [continue app].
    eapply continue_joining; try done. eapply phase_remove; [|done|done].
    erewrite singleton_call by done. cbn. by rewrite Hn.
  - apply (step_one j c s s' _ _ Hcs) in Hstep as (s1 & k & Hi & ->). cbn in Hi.
    apply removeWorker_spec in Hi as (-> & ts & Hw & _ & ->); [|done|lia]. cbn [continue app].
    eapply continue_joining; try done; [by apply (woken_dom _ _ _ _ j Hw)|].
    eapply phase_wait; [by erewrite singleton_call|done|cbn; lia|done].
  - apply (step_one j c s s' _ _ Hcs) in Hstep as (s1 & k & Hi & ->). discriminate Hi.
  - apply (step_one j c s s' _ _ Hcs) in Hstep as (s1 & k & Hi & ->). cbn in Hi.
    unfold removeWorker_wait in Hi. rewrite Hmax in Hi. bcase (workerCount_ (manager s) =? 0); injection Hi as <- <-;
      cbn [continue app]; eapply continue_joining; try done.
    + by eapply phase_stopped; [erewrite singleton_call|..].
    + by eapply phase_wait; [erewrite singleton_call|..|auto].
  - apply (step_one j c s s' _ _ Hcs) in Hstep as (s1 & k & Hi & ->). injection Hi as <- <-. cbn [continue app].
    assert (Hnone : calls (set_call j [] s) = ∅) by (by erewrite singleton_call).
    destruct Hjoin as [_ _ Htasks Hadd Htaken Hout]. rewrite Hcs, decide_False in Hout by apply map_non_empty_singleton.
    constructor; try done; [by apply phase_done|]. cbn. fold (set_call j [] s). rewrite Hout.
    cbn in Hnone. rewrite Hnone, app_nil_r. done.
  - cbn in Hstep. rewrite Hcs, lookup_empty in Hstep. done.
Qed.

(** ** The measure *)

(** What the call has still to do; to wake the workers costs a round of each. *)
Definition call_cost (n : Z) (c : call) : Z :=
  match c with
  | [StopImpl _] => 3 * n + 10
  | [StopImpl_section _] => 3 * n + 9
  | [StopImpl_removeWorker; _] => 3 * n + 8
  | [RemoveWorker _; _] => 3 * n + 7
  | [RemoveWorker_wait a; _] => if a then 2 else 3
  | [StopImpl_stopped] => 1
  | _ => 0
  end.

Definition join_left (j : tid) (s : System) : Z :=
  work_left s + match calls s !! j with Some c => call_cost (Z.of_nat (size (threads s))) c | None => 0 end.

Lemma join_left_call j s c : calls s = {[j := c]} ->
  join_left j s = work_left s + call_cost (Z.of_nat (size (threads s))) c.
Proof. unfold join_left. intros ->. by rewrite lookup_singleton_eq. Qed.

Lemma join_left_none j s : calls s = ∅ -> join_left j s = work_left s.
Proof. unfold join_left. intros ->. rewrite lookup_empty. lia. Qed.

Lemma phase_calls j s : phase j s -> calls s = ∅ \/ exists c, calls s = {[j := c]} /\ adder_asleep c = false /\
  (manager_asleep c = true -> forall n, call_cost n (wake_manager c) = call_cost n c + 1) /\ forall n, 0 <= n -> 0 <= call_cost n c.
Proof.
  intros [c Hcs [-> | ->] ? ?|Hcs ? ?|Hcs ? ?|[] Hcs ? ? ?|Hcs ? ? ?|Hcs ? ? ?]; [right..|by left];
    eexists; (split; [exact Hcs|]); split_and!; try done; cbn; lia.
Qed.

Lemma worked_size t s s' : worked t s s' -> size (threads s') = size (threads s).
Proof. intros (w & w' & Ht & Hts & _). by rewrite Hts, map_size_insert_Some. Qed.

Lemma worked_join_left t j s s' : phase j s -> worked t s s' -> join_left j s' < join_left j s.
Proof.
  intros Hphase Hw. pose proof (worked_left _ _ _ Hw) as Hleft. pose proof (worked_size _ _ _ Hw) as Hsz.
  pose proof Hw as (w & w' & Ht & Hts & Hm & _).
  destruct (phase_calls j s Hphase) as [Hcs|(c & Hcs & Ha & Hwake & _)].
  - rewrite (join_left_none j s Hcs), join_left_none; [done|].
    apply map_eq. intros u. rewrite lookup_empty. apply (moved_calls _ _ _ _ _ _ _ u Hm). by rewrite Hcs, lookup_empty.
  - rewrite (join_left_call j s c Hcs). destruct (moved_rank _ _ _ _ _ _ _ Hm) as [_ Hcost].
    assert (Hcases : calls s' = {[j := c]} \/ manager_asleep c = true /\ calls s' = {[j := wake_manager c]} /\
      work_left s' < work_left s - 1).
    { rewrite Hcs in Hcost. destruct Hcost as [|[(u & Hn)|[(u & Hn) Hlt]]]; [by left|..]; apply notify_one in Hn.
      - left. by rewrite Ha in Hn.
      - destruct (manager_asleep c); [right|by left]. split_and!; [done|done|].
        unfold work_left. rewrite Hts, (msum_update rank _ t w w' Ht). lia. }
    destruct Hcases as [Hcs'|(Hs & Hcs' & Hlt)]; rewrite (join_left_call j s' _ Hcs'), Hsz; [lia|].
    rewrite Hwake by done. lia.
Qed.

(** To wake the sleepers gives each a round. *)
Lemma woken_rank ts ts' : woken Worker.asleep Worker.wake ts ts' ->
  msum rank ts' <= msum rank ts + 3 * Z.of_nat (size ts).
Proof.
  intros Hw. rewrite <- (msum_size ts).
  transitivity (msum (fun w => rank w + 3 * Z.b2z (Worker.asleep w)) ts').
  { apply msum_le. intros _ w _. pose proof (b2z_nonneg (Worker.asleep w)). lia. }
  rewrite (woken_msum _ _ _ _ _ Hw); [|by intros [[| | | |[]|?|?|] ? ?]].
  rewrite msum_plus. enough (msum (fun w => 3 * Z.b2z (Worker.asleep w)) ts <= 3 * msum (fun _ => 1) ts) by lia.
  clear. induction ts as [|t w ts Ht IH] using map_ind; [by rewrite !msum_empty|].
  rewrite !msum_fresh by done. destruct (Worker.asleep w); cbn [Z.b2z]; lia.
Qed.

Ltac less :=
  cbn [continue app]; erewrite join_left_call by (by erewrite singleton_call); unfold work_left, pending; cbn in *; lia.

Lemma step_join_left j s0 s c s' : staffed_system s -> joining j s0 s -> exec (Step j c) s = Some s' ->
  join_left j s' < join_left j s.
Proof.
  intros Hs Hjoin Hstep. pose proof (staffed_bounds _ _ Hs).
  destruct (joining_phase _ _ _ Hjoin) as [cl Hcs Hc Hst Hn|Hcs Hst Hn|Hcs Hst Hn|[] Hcs Hst Hmax Hor|Hcs Hst Hmax Hn|Hcs Hst Hmax Hn];
    [destruct Hc as [-> | ->]|..]; try (rewrite (join_left_call j s _ Hcs);
      apply (step_one j c s s' _ _ Hcs) in Hstep as (s1 & k & Hi & ->); cbn in Hi).
  - unfold stopImpl in Hi. rewrite Hst in Hi. injection Hi as <- <-. less.
  - unfold stopImpl_section in Hi. rewrite Hst in Hi. injection Hi as <- <-. less.
  - injection Hi as <- <-. less.
  - apply removeWorker_spec in Hi as (-> & ts & Hw & _ & ->); [|done|lia]. pose proof (woken_rank _ _ Hw).
    pose proof (woken_size _ _ _ _ Hw). less.
  - done.
  - unfold removeWorker_wait in Hi. rewrite Hmax in Hi. bcase (workerCount_ (manager s) =? 0); injection Hi as <- <-; less.
  - injection Hi as <- <-. cbn [continue app]. rewrite join_left_none; [unfold work_left, pending; cbn; lia|].
    by apply (singleton_call j [StopImpl_stopped] [] (set_manager (set_state STOPPED (manager s)) s)).
  - cbn in Hstep. by rewrite Hcs, lookup_empty in Hstep.
Qed.

(** ** The end *)

Lemma instruction_call j s i rest : calls s = {[j := i :: rest]} -> (exists c s1 k, instruction j i c s = Some (s1, k)) ->
  exists e s', is_step j e /\ exec e s = Some s'.
Proof.
  intros Hcs (c & s1 & k & Hi). exists (Step j c), (continue j rest k s1). split; [done|].
  cbn. by rewrite Hcs, lookup_singleton_eq, Hi.
Qed.

Lemma removeWorker_enabled value s : 0 <= idleCount_ (manager s) -> exists c s1 k, removeWorker value c s = Some (s1, k).
Proof.
  intros Hi. unfold removeWorker, go, throw. destruct (notify_each_enabled Worker.asleep Worker.wake
    (Z.to_nat (idleCount_ (manager s))) (threads s)) as (l & ts & Hl & Hn).
  exists (Choose 0 l 0 [] true). destruct (_ <? value); [by eexists _, _|]. cbn.
  destruct (_ <? value); [|by eexists _, _].
  replace (zlen l =? idleCount_ (manager s)) with true by (unfold zlen; lia).
  rewrite Hn. by eexists _, _.
Qed.

Definition of_join (j : tid) (e : event) : Prop := is_work e \/ is_step j e.

(** Until the call is over, one of them can move. *)
Lemma joining_moves j s0 s : staffed_system s -> joining j s0 s -> calls s = ∅ \/
  exists e s', of_join j e /\ exec e s = Some s'.
Proof.
  intros Hs Hjoin. pose proof (staffed_bounds _ _ Hs).
  assert (Hcall : forall i rest, calls s = {[j := i :: rest]} -> (exists c s1 k, instruction j i c s = Some (s1, k)) ->
    exists e s', of_join j e /\ exec e s = Some s').
  { intros i rest Hcs Hi. destruct (instruction_call j s i rest Hcs Hi) as (e & s' & ? & ?). exists e, s'. by split; [right|]. }
  assert (Hwork : forall t w, threads s !! t = Some w -> can_run s t w = true -> exists e s', of_join j e /\ exec e s = Some s').
  { intros t w Ht Hcan. destruct (run_enabled s t w Ht Hcan) as (c & s' & Hrun). exists (Work t c), s'. by split; [left|]. }
  pose (c0 := Choose 0 [] 0 [] true).
  destruct (joining_phase _ _ _ Hjoin) as [cl Hcs Hc Hst Hn|Hcs Hst Hn|Hcs Hst Hn|[] Hcs Hst Hmax Hor|Hcs Hst Hmax Hn|Hcs Hst Hmax Hn];
    [right|right|right|right|right|right|by left].
  - destruct Hc as [-> | ->]; (eapply Hcall; [exact Hcs|]); exists c0; cbn; unfold stopImpl, stopImpl_section;
      rewrite Hst; by eexists _, _.
  - eapply Hcall; [exact Hcs|]. exists c0. by eexists _, _.
  - eapply Hcall; [exact Hcs|]. apply removeWorker_enabled. lia.
  - assert (Hfree : forall t w, threads s !! t = Some w -> calls s !! t = None).
    { intros t w Ht. rewrite Hcs. apply lookup_singleton_ne. intros <-.
      pose proof (joining_thread _ _ _ Hjoin). congruence. }
    destruct (Hor eq_refl) as [Hn|Hn].
    + pose proof (staffed_leaving _ _ Hs ltac:(lia)) as Hawake. pose proof (staffed_workers _ _ Hs).
      destruct (how_many_exists counted (threads s)) as (t & w & Ht & Hc); [lia|].
      pose proof (how_many_none _ _ t w Hawake Ht) as Ha. apply (Hwork t w Ht).
      unfold can_run, counted, Worker.asleep in *. rewrite (Hfree t w Ht). by destruct (Worker.pc_ w) as [| | | |[]|?|?|].
    + apply how_many_exists in Hn as (t & w & Ht & Hc). apply (Hwork t w Ht).
      unfold can_run, will_tell in *. by destruct (Worker.pc_ w).
  - eapply Hcall; [exact Hcs|]. exists c0. cbn. unfold removeWorker_wait. destruct (negb _); by eexists _, _.
  - eapply Hcall; [exact Hcs|]. exists c0. by eexists _, _.
Qed.

Lemma joined j s0 s : accounted s0 -> accounted s -> staffed_system s -> joining j s0 s -> calls s = ∅ ->
  state (manager s) = STOPPED /\ workerCount_ (manager s) = 0 /\ tasks_ (manager s) = [] /\
  outcomes s = outcomes s0 ++ [(j, Returned)] /\
  exists l, taken (manager s) = taken (manager s0) ++ l /\ map fst l = tasks_ (manager s0) /\ Forall served l /\
    forall t, given t (taken (manager s)) = ran_by t (finished s).
Proof.
  intros Ha0 Ha Hs [Hphase Hj Htasks Hadd (l & Hl & Hserved) Hout] Hcs. rewrite Hcs, decide_True in Hout by done.
  assert (Hdone : state_ (manager s) = STOPPED /\ workerCount_ (manager s) = 0).
  { destruct Hphase as [? Hc|Hc|Hc|? Hc|Hc|]; try (rewrite Hcs in Hc; symmetry in Hc; by apply map_non_empty_singleton in Hc).
    done. }
  destruct Hdone as [Hst Hn]. destruct Htasks as [Hp|]; [|lia].
  assert (Hempty : tasks_ (manager s) = []).
  { unfold pending in Hp. destruct (tasks_ (manager s)); [done|]. revert Hp. zlist. }
  split_and!; [done|done|done|done|]. exists l. split_and!; [done| |done|].
  - pose proof (accounted_fifo _ Ha0) as Hf0. pose proof (accounted_fifo _ Ha) as Hf.
    rewrite Hadd, Hl, Hempty, map_app, app_nil_r, Hf0 in Hf. by apply app_inv_head in Hf.
  - intros t. rewrite (accounted_runs s Ha). unfold at_work. destruct (threads s !! t) as [w|] eqn:Ht; [|apply app_nil_r].
    pose proof (staffed_workers _ _ Hs) as Hw. rewrite Hn in Hw. symmetry in Hw.
    pose proof (how_many_none counted _ t w Hw Ht) as Hc. unfold counted in Hc.
    destruct (Worker.pc_ w); try apply app_nil_r. done.
Qed.

(** A run of the call and of the workers. *)
Lemma joining_run j s0 s es s' : Forall (of_join j) es -> staffed_system s /\ sizes_ok s -> joining j s0 s ->
  exec_all es s = Some s' ->
  joining j s0 s' /\ staffed_system s' /\ Z.of_nat (length es) + join_left j s' <= join_left j s.
Proof.
  intros Hes. revert s. induction Hes as [|e es He Hes IH]; intros s Hs Hj.
  - intros [= <-]. split_and!; [done|apply Hs|cbn; lia].
  - intros (s1 & He1 & Hrest)%exec_all_cons. pose proof (exec_staffed _ _ _ Hs He1) as Hs1.
    assert (Hstep : joining j s0 s1 /\ join_left j s1 < join_left j s).
    { destruct He as [He|He]; destruct e as [|t c| | |t c| |]; try done; cbn in He.
      - apply run_worked in He1 as Hw; [|apply Hs]. split; [eapply worked_joining; [apply Hs|done|done]|].
        eapply worked_join_left; [apply Hj|done].
      - subst t. split; [eapply step_phase_next; [apply Hs|done|done]|eapply step_join_left; [apply Hs|done|done]]. }
    destruct Hstep as [Hj1 Hlt]. destruct (IH s1 Hs1 Hj1 Hrest) as (Hj' & Hs' & Hl).
    split_and!; [done|done|cbn [length]; lia].
Qed.

Lemma join_left_nonneg j s : phase j s -> 0 <= join_left j s.
Proof.
  intros Hphase. pose proof (work_left_nonneg s). destruct (phase_calls j s Hphase) as [Hcs|(c & Hcs & _ & _ & Hc)].
  - by rewrite join_left_none.
  - rewrite (join_left_call j s c Hcs). specialize (Hc (Z.of_nat (size (threads s)))). lia.
Qed.
