(* ===== verification/ThreadAdd.v ===== *)
(** * Thread manager: add

    When the queue grows, and what wakes a thread that [add] has put to sleep. *)

From S2P Require Export ThreadProgress.

(** ** The bound on the queue *)

Lemma add_push_pending value expiration c s s' k : add_push value expiration c s = Some (s', k) ->
  pending (manager s') = pending (manager s) + 1.
Proof.
  unfold add_push, go. cbn. destruct (0 <? _); [|intros [= <- <-]; cbn; unfold pending; cbn; zlist].
  destruct (notify_workers _ _) as [s1|] eqn:Hn; [|done]. intros [= <- <-].
  apply notify_workers_spec in Hn as (-> & _). unfold pending. cbn. zlist.
Qed.

(** The queue grows only where there is room. *)
Lemma instruction_pending t i c s s' k : instruction t i c s = Some (s', k) ->
  0 < pendingTaskCountMax_ (manager s) ->
  pending (manager s') <= Z.max (pending (manager s)) (pendingTaskCountMax_ (manager s)).
Proof.
  intros Hrun Hmax. destruct (removeExpiredTasks_spec (now c) (manager s)) as (gone & rest & n & Hl & _ & _ & Hm).
  assert (Hshort : pending (removeExpiredTasks (now c) (manager s)) <= pending (manager s)).
  { rewrite Hm. unfold pending. cbn. rewrite Hl. zlist. }
  assert (Hsame : pendingTaskCountMax_ (removeExpiredTasks (now c) (manager s)) = pendingTaskCountMax_ (manager s)).
  { by rewrite Hm. }
  assert (Hwait : forall value timeout expiration s0, pendingTaskCountMax_ (manager s0) = pendingTaskCountMax_ (manager s) ->
    pending (manager s0) <= pending (manager s) -> add_wait value timeout expiration c s0 = Some (s', k) ->
    pending (manager s') <= Z.max (pending (manager s)) (pendingTaskCountMax_ (manager s))).
  { intros value timeout expiration s0 Hs0 Hp. unfold add_wait, full.
    destruct (_ && _)%bool eqn:Hfull; [intros [= <- <-]; lia|]. intros Hpush%add_push_pending.
    apply andb_false_iff in Hfull as [|]; breflect; lia. }
  assert (Hpop : pending (pop Removed (manager s)) <= pending (manager s)).
  { destruct (pop_counts Removed (manager s)) as [_ ->]. unfold pending. zlist. }
  destruct i as [| |j|j| | |v|ts|u ts|[]|v|[]|v tm ex|v tm ex []|r| | |v|v|v]; try discriminate Hrun.
  all: try (cbn in Hrun; by apply Hwait in Hrun).
  all: try (section_cases Hrun; unfold pending in *; cbn in *; lia).
  revert Hrun. cbn. unfold add, throw. destruct (negb _); [intros [= <- <-]; lia|]. cbn zeta. set (s1 := set_manager _ s).
  destruct (full (manager s1)) eqn:Hfull.
  - destruct (negb _); [intros [= <- <-]; cbn; lia|]. destruct (_ && _)%bool; [by apply Hwait|intros [= <- <-]; cbn; lia].
  - intros Hpush. apply (Hwait v tm ex s1 Hsame Hshort). unfold add_wait. by rewrite Hfull.
Qed.

Lemma exec_pending e s s' : staffed_system s -> exec e s = Some s' -> 0 < pendingTaskCountMax_ (manager s) ->
  pending (manager s') <= Z.max (pending (manager s)) (pendingTaskCountMax_ (manager s)).
Proof.
  intros Hs He Hmax. destruct e as [t c|t c|t|t|t c|t|t]; cbn [exec] in He.
  - destruct (_ && _)%bool; [|done]. injection He as <-. cbn. lia.
  - destruct (calls s !! t) as [[|i rest]|]; try done.
    destruct (instruction t i c s) as [[s1 k]|] eqn:Hi; [|done]. injection He as <-.
    destruct (continue_same t rest k s1) as (-> & _). by eapply instruction_pending.
  - destruct (calls s !! t) as [[|[] rest]|]; try done. destruct (negb _); [|done].
    injection He as <-. cbn. lia.
  - destruct (calls s !! t) as [[|[| | | | | | | | | | | | |? ? ? []| | | | | |] rest]|]; try done.
    destruct (_ <? _); [|done]. injection He as <-. cbn. lia.
  - apply run_worked in He as (w & w' & _ & _ & Hm & _); [|done].
    assert (pending (manager s') <= pending (manager s)) by by eapply moved_pending. lia.
  - destruct (threads s !! t) as [w|]; [|done]. cbn in He. destruct (Worker.asleep w); [|done].
    injection He as <-. cbn. lia.
  - destruct (calls s !! t) as [c|]; [|done]. cbn in He.
    destruct (adder_asleep c); [|destruct (manager_asleep c); [|done]]; injection He as <-; cbn; lia.
Qed.

(** ** Threads blocked in add *)

Lemma continue_other t u rest k s : t <> u -> calls (continue u rest k s) !! t = calls s !! t.
Proof.
  intros Hne. assert (Hset : forall d s, calls (set_call u d s) !! t = calls s !! t).
  { intros d s0. unfold set_call. destruct d; cbn; [by apply lookup_delete_ne|by apply lookup_insert_ne]. }
  destruct k as [c|o|e]; [|apply (Hset rest s)|apply (Hset [] s)].
  cbn. pose proof (Hset (c ++ rest) s). by destruct (c ++ rest).
Qed.

(** A call in [maxMonitor_.wait] sleeps through a notification of the others. *)
Lemma notify_managers_adder u s s' t c : notify_managers u s = Some s' -> manager_asleep c = false ->
  calls s !! t = Some c -> calls s' !! t = Some c.
Proof.
  intros [(v & Hn) _]%notify_managers_calls Ha Ht. apply notify_woken in Hn.
  destruct (woken_split _ _ _ _ t c Hn Ht) as (c' & Hc' & [->|[Hs _]]); [done|congruence].
Qed.

Lemma take_task_adder u w c s s' t d : take_task u w c s = Some s' -> calls s !! t = Some d ->
  calls s' !! t = Some d \/ exists k, last (taken (manager s')) = Some (k, Run u).
Proof.
  unfold take_task. destruct (tasks_ (removeExpiredTasks _ _)) as [|k ks] eqn:Hk; [intros [= <-]; auto|].
  intros Htake _. right. exists k.
  assert (Hm : manager s' = pop (Run u) (removeExpiredTasks (now c) (manager s))).
  { destruct (_ && _)%bool in Htake; [by apply notify_adders_same in Htake as [-> _]|by injection Htake as <-]. }
  rewrite Hm. unfold pop. rewrite Hk. cbn. apply last_snoc.
Qed.

Lemma run_adder u c s s' t d : run u c s = Some s' -> calls s !! t = Some d -> manager_asleep d = false ->
  calls s' !! t = Some d \/ exists k, last (taken (manager s')) = Some (k, Run u).
Proof.
  unfold run. destruct (threads s !! u) as [w|]; [|done]. cbn. intros Hrun Ht Ha.
  assert (Hloop : forall active w s0, calls s0 !! t = Some d -> loop_section active u w c s0 = Some s' ->
    calls s' !! t = Some d \/ exists k, last (taken (manager s')) = Some (k, Run u)).
  { intros active w0 s0 Hd. unfold loop_section. destruct (_ && _)%bool; [intros [= <-]; auto|].
    destruct active; [intros Htake; by eapply take_task_adder|intros [= <-]; auto]. }
  destruct (Worker.pc_ w) as [| | | |[]|k|[]|]; try done; try (by eapply Hloop in Hrun).
  - injection Hrun as <-. unfold entry_section. destruct (_ <? _); auto.
  - left. by eapply notify_managers_adder.
  - destruct (calls s !! u); [done|]. injection Hrun as <-. auto.
  - left. eapply notify_managers_adder; [exact Hrun|done|done].
  - injection Hrun as <-. auto.
Qed.

(** What wakes a thread asleep in [add]. *)
Lemma adder_woken t v tm ex rest e s s' : exec e s = Some s' -> calls s !! t = Some (Add_wait v tm ex true :: rest) ->
  calls s' !! t = Some (Add_wait v tm ex true :: rest) \/ e = WaitTimeout t \/ e = SpuriousCall t \/
  exists u c k, e = Work u c /\ last (taken (manager s')) = Some (k, Run u).
Proof.
  intros He Ht. destruct e as [u c|u c|u|u|u c|u|u]; cbn [exec] in He.
  - destruct (_ && _)%bool eqn:Hc; [|done]. injection He as <-. left. cbn.
    rewrite lookup_insert_ne; [done|]. intros ->. unfold may_call in Hc. by rewrite Ht in Hc.
  - left. destruct (calls s !! u) as [[|i r]|] eqn:Hu; try done.
    destruct (instruction u i c s) as [[s1 k]|] eqn:Hi; [|done]. injection He as <-.
    destruct (decide (u = t)) as [->|Hne].
    + rewrite Ht in Hu. injection Hu as <- <-. discriminate Hi.
    + rewrite continue_other by done. by rewrite (proj1 (instruction_calls _ _ _ _ _ _ Hi)).
  - left. destruct (calls s !! u) as [[|[] r]|] eqn:Hu; try done. destruct (negb _); [|done]. injection He as <-.
    rewrite <- Ht. apply (continue_other t u r (Throw TimedOutException) s). intros ->. congruence.
  - destruct (decide (u = t)) as [->|Hne]; [auto|]. left.
    destruct (calls s !! u) as [[|[| | | | | | | | | | | | |? ? ? []| | | | | |] r]|]; try done.
    destruct (_ <? _); [|done]. injection He as <-. rewrite <- Ht. apply (continue_other t u r (Throw TimedOutException) s). congruence.
  - destruct (run_adder u c s s' t _ He Ht eq_refl) as [|[k Hk]]; [auto|]. do 3 right. by exists u, c, k.
  - left. destruct (threads s !! u) as [w|]; [|done]. cbn in He. destruct (Worker.asleep w); [|done].
    by injection He as <-.
  - destruct (decide (u = t)) as [->|Hne]; [auto|]. left. destruct (calls s !! u) as [c|]; [|done]. cbn in He.
    destruct (adder_asleep c); [|destruct (manager_asleep c); [|done]]; injection He as <-; cbn;
      by rewrite lookup_insert_ne.
Qed.

(** The one call under way waits without timeout. *)
Lemma adder_alone s u v ex t c : calls s = {[u := [Add_wait v 0 ex true]]} ->
  exec (Step t c) s = None /\ exec (WaitTimeout t) s = None.
Proof.
  intros Hcs. cbn [exec]. rewrite Hcs.
  destruct (decide (t = u)) as [->|Hne]; [by rewrite lookup_singleton_eq|by rewrite lookup_singleton_ne].
Qed.
