(* ===== verification/ThreadTheorems.v ===== *)
(** * Theorems on the thread manager

    The counters and the history of the queue, the liveness of the workers and of
    [join], the bound on the queue, and how a thread blocked in [add] can be left
    behind; each with a concrete run. *)

From S2P Require Export ThreadJoin ThreadAdd.

(** ** Runs *)

Lemma reachable_exec_all es s s' : reachable s -> exec_all es s = Some s' -> reachable s'.
Proof.
  revert s. induction es as [|e es IH]; intros s Hs; [by intros [= <-]|].
  intros (s1 & He & Hrest)%exec_all_cons. eapply IH; [by eapply reachable_step|done].
Qed.

(** The state after a run from the start, [initial] if it is not a run. *)
Definition after (es : list event) : System := default initial (exec_all es initial).

Definition is_run (es : list event) : bool := bool_decide (is_Some (exec_all es initial)).

Lemma after_reachable es : is_run es = true -> reachable (after es).
Proof.
  unfold after. intros [s Hs]%bool_decide_eq_true. rewrite Hs. eapply reachable_exec_all; [constructor|exact Hs].
Qed.

Definition plain : choice := Choose 0 [] 1000 [] true.
Definition waking (u : tid) : choice := Choose u [] 1000 [] true.
Definition at_time (z : Z) : choice := Choose 0 [] z [] true.
Definition making (ts : list tid) : choice := Choose 0 [] 1000 ts true.

(** Thread 1 sets up a manager with two workers, 10 and 11, and room for one task;
    both workers go to sleep. *)
Definition started : list event :=
  [Call 1 (SetThreadFactory true :: SimpleThreadManager_start 2 1); Step 1 plain; Step 1 plain; Step 1 plain;
   Step 1 plain; Step 1 (making [10; 11]%nat); Step 1 plain; Step 1 plain; Step 1 plain; Step 1 plain; Step 1 plain;
   Work 10 plain; Step 1 plain; Work 10 plain; Work 11 plain; Work 11 (waking 1); Work 11 plain; Step 1 plain].

(** A task is added, worker 10 woken for it and at it; another task waits. *)
Definition working : list event :=
  started ++ [Call 1 [Add 7 0 0]; Step 1 (waking 10); Work 10 plain; Call 2 [Add 8 0 50]; Step 2 (waking 11)].

(** ** Counters and tasks *)

(** A worker that is at a task. *)
Definition executing (w : Worker.t) : bool := match Worker.pc_ w with Worker.Executing _ => true | _ => false end.

Lemma executing_counted w : executing w = true -> counted w && negb (waiting w) = true.
Proof. unfold executing, counted, waiting. by destruct (Worker.pc_ w). Qed.

(** C6. Thread manager: in every state the program can reach, whatever the
    threads, the scheduler, timeouts and spurious wakeups do, [workerCount_] and
    [idleCount_] are exactly the numbers of workers in the loop and in its wait, so
    that [totalTaskCount] is the number of tasks pending and of workers in the loop and
    not in its wait, as long as fewer than 2^63 tasks pend.  That is never less than the
    number of tasks pending and executing, but it can be more: a state can be reached
    where it is 1 with nothing pending and nothing executing.  And no wakeup is lost:
    unless no worker sleeps, as many workers in the loop are awake as tasks pend. *)
Theorem thread_manager_counts (s : System) :
  reachable s ->
  workerCount (manager s) = how_many counted (threads s) /\
  idleWorkerCount (manager s) = how_many waiting (threads s) /\
  (pendingTaskCount (manager s) < 2 ^ 63 ->
   totalTaskCount (manager s) =
     pendingTaskCount (manager s) + how_many (fun w => counted w && negb (waiting w)) (threads s) /\
   pendingTaskCount (manager s) + how_many executing (threads s) <= totalTaskCount (manager s)) /\
  (exists s', reachable s' /\ totalTaskCount (manager s') = 1 /\ pendingTaskCount (manager s') = 0 /\
     how_many executing (threads s') = 0) /\
  (asleep (threads s) = 0 \/
   pendingTaskCount (manager s) <= how_many (fun w => counted w && negb (Worker.asleep w)) (threads s)).
Proof.
  intros [Hs _]%reachable_staffed. pose proof (staffed_bounds _ _ Hs) as (? & ? & ?).
  pose proof (staffed_workers _ _ Hs) as Hw. pose proof (staffed_idle _ _ Hs) as Hi.
  pose proof (staffed_enough _ _ Hs) as He.
  assert (Hsub : forall p, (forall w, p w = true -> counted w = true) ->
    how_many counted (threads s) = how_many (fun w => counted w && negb (p w))%bool (threads s) + how_many p (threads s)).
  { intros p Hp. unfold how_many. rewrite <- msum_plus. apply msum_ext. intros _ w _. specialize (Hp w).
    destruct (p w); [by rewrite Hp|by destruct (counted w)]. }
  pose proof (Hsub waiting waiting_counted) as Hwait.
  pose proof (Hsub Worker.asleep (fun w Ha => waiting_counted w (asleep_waiting w Ha))) as Hasleep.
  split; [done|]. split; [done|]. split; [|split; [|unfold pendingTaskCount; lia]].
  - intros Hp. unfold totalTaskCount, pendingTaskCount, max_threads in *.
    assert (0 <= pending (manager s)) by apply zlen_nonneg.
    pose proof (how_many_le _ (fun w => counted w && negb (waiting w))%bool (threads s) executing_counted).
    rewrite !wrapu_small; unfold in_u; rewrite ?wrapu_small; unfold in_u; lia.
  - exists (after (firstn 12 started)). split; [apply after_reachable|]; by vm_compute.
Qed.

Lemma thread_manager_counts_witness :
  let s := after working in
  reachable s /\ workerCount (manager s) = 2 /\ idleWorkerCount (manager s) = 1 /\ totalTaskCount (manager s) = 2.
Proof.
  intros s. assert (Hr : reachable s) by (apply after_reachable; vm_compute; reflexivity).
  pose proof (thread_manager_counts s Hr) as (Hw & Hi & Ht & _).
  split; [exact Hr|]. rewrite Hw, Hi, (proj1 (Ht ltac:(vm_compute; reflexivity))). vm_compute. auto.
Defined.

Lemma given_sublist t l : given t l `sublist_of` map Task.runnable_ (map fst l).
Proof.
  induction l as [|[k f] l IH]; [done|]. unfold given in *. cbn. destruct f as [u|u b|]; [|by apply sublist_cons..].
  destruct (decide (u = t)); [by apply sublist_skip|by apply sublist_cons].
Qed.

(** C7. Thread manager: in every reachable state the tasks pushed so far are, in
    order, those that left the queue and those still in it; a task that left it
    unrun had an expiration that was past, or was asked for; each worker has called,
    once each and in order, the runnables of exactly the tasks it was given, but for the
    one it is at and is to call; so that what a worker has called is part of what was
    added, in that order. *)
Theorem thread_manager_tasks (s : System) :
  reachable s ->
  added (manager s) = map fst (taken (manager s)) ++ tasks_ (manager s) /\
  Forall fate_ok (taken (manager s)) /\
  forall t, given t (taken (manager s)) = ran_by t (finished s) ++ at_work t (threads s) /\
    ran_by t (finished s) `sublist_of` map Task.runnable_ (added (manager s)).
Proof.
  intros [Hf Hg _ Hr]%reachable_accounted. split; [done|]. split; [done|]. intros t. split; [apply Hr|].
  rewrite Hf, map_app. apply sublist_inserts_r. etrans; [|apply (given_sublist t)]. rewrite Hr. by apply sublist_inserts_r.
Qed.

Lemma thread_manager_tasks_witness :
  let s := after (working ++ [Work 10 plain; Work 10 plain; Work 11 (at_time 2000)]) in
  reachable s /\ map Task.runnable_ (added (manager s)) = [7; 8]%nat /\ ran_by 10 (finished s) = [7]%nat /\
  given 10 (taken (manager s)) = [7; 8]%nat.
Proof.
  intros s. assert (Hr : reachable s) by (apply after_reachable; vm_compute; reflexivity).
  pose proof (thread_manager_tasks s Hr) as (Ha & _ & Hg).
  split; [exact Hr|]. rewrite Ha, (proj1 (Hg 10%nat)). vm_compute. auto.
Defined.

(** ** Liveness *)

(** C4. Thread manager: with at least one worker and no more than are wanted, and
    tasks that do not call the manager, the workers left to themselves take a
    bounded number of steps, in any order and whatever is woken; as long as they
    can move they are not done, and when they can move no more the queue is empty,
    every task that was in it was given to a worker or had expired, none was lost, and
    every worker has called the runnables of all the tasks it was ever given. *)
Theorem workers_serve_queue (s s' : System) (es : list event) :
  reachable s -> manned s -> undisturbed s -> Forall is_work es -> exec_all es s = Some s' ->
  Z.of_nat (length es) <= work_left s /\
  ((exists t c s'', run t c s' = Some s'') \/
   tasks_ (manager s') = [] /\ idleCount_ (manager s') = workerCount_ (manager s') /\
   exists l, taken (manager s') = taken (manager s) ++ l /\ map fst l = tasks_ (manager s) /\ Forall served l /\
     forall t, given t (taken (manager s')) = ran_by t (finished s')).
Proof.
  intros Hr Hn Hu Hes Hrun.
  destruct (works_keep (fun s => manned s /\ undisturbed s) es s s') as ([Hn' Hu'] & Hs' & Hk & Hl); try done.
  { intros t s1 s2 _ [] Hw. split; [by eapply worked_manned|by eapply worked_undisturbed]. }
  { by apply reachable_staffed. }
  pose proof (work_left_nonneg s'). split; [lia|].
  destruct (stuck_or_step s') as [Hstuck|]; [right|by left].
  apply (drained s s'); try done; apply reachable_accounted; [done|by eapply reachable_exec_all].
Qed.

(** A map of threads and calls in which no worker has a call, as a computation. *)
Lemma undisturbed_check s :
  bool_decide (map_Forall (fun t _ => calls s !! t = None) (threads s)) = true -> undisturbed s.
Proof. intros Hs%bool_decide_eq_true t w Ht. by eapply Hs. Qed.

Lemma workers_serve_queue_witness :
  let s := after working in
  let es := [Work 10 plain; Work 11 plain; Work 10 plain; Work 11 plain; Work 11 plain] in
  let s' := after (working ++ es) in
  reachable s /\ exec_all es s = Some s' /\ Z.of_nat (length es) <= work_left s /\
  tasks_ (manager s') = [] /\ ran_by 10 (finished s') = [7]%nat /\ ran_by 11 (finished s') = [8]%nat.
Proof.
  intros s es s'. assert (Hr : reachable s) by (apply after_reachable; vm_compute; reflexivity).
  assert (Hrun : exec_all es s = Some s') by (vm_compute; reflexivity).
  destruct (workers_serve_queue s s' es Hr) as [Hb _]; [vm_compute; split; discriminate| | |exact Hrun|].
  - apply undisturbed_check. vm_compute. reflexivity.
  - repeat constructor.
  - split; [exact Hr|]. split; [exact Hrun|]. split; [exact Hb|]. vm_compute. auto.
Defined.

(** C5. Thread manager: [join], called while the manager is started and its
    workers are all there, with no other call under way, and with at least one worker
    or an empty queue (without workers it returns and leaves the queue), comes to an end
    with the workers in a bounded number of steps, whatever their order: as long as it
    has not returned one of them can move, and when it returns the manager is stopped,
    no worker is left in the loop, every task that was in the queue was given to a
    worker or had expired, and every worker has called the runnables of all the tasks
    it was ever given. *)
Theorem join_completes (j : tid) (s s' : System) (es : list event) :
  reachable s -> state (manager s) = STARTED -> workerCount_ (manager s) = workerMaxCount_ (manager s) ->
  1 <= workerCount_ (manager s) \/ tasks_ (manager s) = [] ->
  calls s = {[j := join]} -> threads s !! j = None ->
  Forall (of_join j) es -> exec_all es s = Some s' ->
  Z.of_nat (length es) <= join_left j s /\
  ((exists e s'', of_join j e /\ exec e s' = Some s'') \/
   calls s' = ∅ /\ state (manager s') = STOPPED /\ workerCount_ (manager s') = 0 /\ tasks_ (manager s') = [] /\
   outcomes s' = outcomes s ++ [(j, Returned)] /\
   exists l, taken (manager s') = taken (manager s) ++ l /\ map fst l = tasks_ (manager s) /\ Forall served l /\
     forall t, given t (taken (manager s')) = ran_by t (finished s')).
Proof.
  intros Hr Hst Hn Htasks Hcs Hj Hes Hrun.
  assert (Hjoin : joining j s s).
  { constructor; [by eapply phase_stop; [exact Hcs|left|..]|done| |done|exists []; by rewrite app_nil_r|].
    - destruct Htasks as [|Hnil]; [by right|left]. unfold pending. by rewrite Hnil.
    - rewrite Hcs. by rewrite app_nil_r. }
  destruct (joining_run j s s es s' Hes (reachable_staffed s Hr) Hjoin Hrun) as (Hjoin' & Hs' & Hlen).
  pose proof (join_left_nonneg j s' (joining_phase _ _ _ Hjoin')). split; [lia|].
  destruct (joining_moves j s s' Hs' Hjoin') as [Hdone|]; [right|by left]. split; [done|].
  apply (joined j s s'); try done; apply reachable_accounted; [done|by eapply reachable_exec_all].
Qed.

(** Thread 3 calls [join] while worker 10 is at a task and another waits. *)
Definition joining_now : list event := working ++ [Call 3 join].

Definition join_run : list event :=
  [Step 3 plain; Step 3 plain; Step 3 plain; Work 10 plain; Step 3 (Choose 0 [10]%nat 1000 [] true); Step 3 plain;
   Work 10 plain; Work 11 plain; Work 10 plain; Work 10 plain; Work 10 (waking 3); Step 3 plain; Step 3 plain].

Lemma join_completes_witness :
  let s := after joining_now in
  let s' := after (joining_now ++ join_run) in
  reachable s /\ exec_all join_run s = Some s' /\ Z.of_nat (length join_run) <= join_left 3 s /\
  state (manager s') = STOPPED /\ outcomes s' = outcomes s ++ [(3%nat, Returned)].
Proof.
  intros s s'. assert (Hr : reachable s) by (apply after_reachable; vm_compute; reflexivity).
  assert (Hrun : exec_all join_run s = Some s') by (vm_compute; reflexivity).
  destruct (join_completes 3 s s' join_run Hr) as [Hb _];
    [vm_compute; reflexivity|vm_compute; reflexivity|left; vm_compute; discriminate|vm_compute; reflexivity
    |vm_compute; reflexivity| |exact Hrun|].
  - unfold join_run. repeat first [apply Forall_nil_2|apply Forall_cons_2; [first [left; exact I|right; reflexivity]|]].
  - split; [exact Hr|]. split; [exact Hrun|]. split; [exact Hb|]. vm_compute. auto.
Defined.

(** ** Threads in add *)

(** C17. Thread manager: while [pendingTaskCountMax] is [m] and not 0, a queue of at
    most [m] tasks never grows past [m], however many threads add at once, are
    blocked in [add] and are woken, whether the manager is started or has been
    stopped. *)
Theorem pending_tasks_bounded (m : Z) (es : list event) (s s' : System) :
  reachable s -> 0 < m ->
  (forall es1 es2 s1, es = es1 ++ es2 -> exec_all es1 s = Some s1 -> pendingTaskCountMax (manager s1) = m) ->
  pendingTaskCount (manager s) <= m -> exec_all es s = Some s' ->
  pendingTaskCount (manager s') <= m.
Proof.
  intros Hr Hm. revert s Hr. unfold pendingTaskCount.
  induction es as [|e es IH]; intros s Hr Hmax Hp; [by intros [= <-]|].
  intros (s1 & He & Hrest)%exec_all_cons. pose proof (Hmax [] (e :: es) s eq_refl eq_refl) as Hm0.
  unfold pendingTaskCountMax in Hm0.
  apply (IH s1); [by eapply reachable_step| | |done].
  - intros es1 es2 s2 -> Hrun. apply (Hmax (e :: es1) es2 s2); [done|]. cbn. by rewrite He.
  - pose proof (exec_pending e s s1 (proj1 (reachable_staffed s Hr)) He ltac:(lia)). lia.
Qed.

(** Two threads add while the only place is taken. *)
Lemma pending_tasks_bounded_witness :
  let s := after working in
  let es := [Call 3 [Add 9 0 0]; Step 3 plain] in
  reachable s /\ pendingTaskCount (manager (after (working ++ es))) <= 1.
Proof.
  intros s es. assert (Hr : reachable s) by (apply after_reachable; vm_compute; reflexivity).
  split; [exact Hr|]. apply (pending_tasks_bounded 1 es s (after (working ++ es)) Hr).
  - reflexivity.
  - intros es1 es2 s1 Hes Hrun. destruct es1 as [|e1 [|e2 [|e3 es1]]]; cbn [app] in Hes.
    + revert Hrun. vm_compute. intros [= <-]. reflexivity.
    + injection Hes as <- Hes. revert Hrun. vm_compute. intros [= <-]. reflexivity.
    + injection Hes as <- <- Hes. revert Hrun. vm_compute. intros [= <-]. reflexivity.
    + discriminate Hes.
  - vm_compute. discriminate.
  - vm_compute. reflexivity.
Defined.

Lemma stuck_check s :
  bool_decide (map_Forall (fun t w => can_run s t w = false) (threads s)) = true -> stuck s.
Proof. intros Hs%bool_decide_eq_true. exact Hs. Qed.

(** Worker 10 is at a task; the one place is taken by a task that expires at 1050;
    thread 2 is blocked in [add]; the task expires before a worker gets to it. *)
Definition left_behind : list event :=
  started ++ [Call 1 [Add 7 0 0]; Step 1 (waking 10); Work 10 plain; Call 1 [Add 8 0 50]; Step 1 (waking 11);
    Call 2 [Add 9 0 0]; Step 2 plain; Work 10 plain; Work 10 (at_time 2000); Work 10 (at_time 2000);
    Work 11 (at_time 2000)].

(** Both workers are at tasks, a third waits and thread 2 is blocked with a fourth;
    thread 3 calls [join]; thread 2 is woken for the place that became free, but
    gets the mutex only when [join] has returned. *)
Definition pushed_late : list event :=
  started ++ [Call 1 [Add 7 0 0]; Step 1 (waking 10); Work 10 plain; Call 1 [Add 8 0 0]; Step 1 (waking 11); Work 11 plain;
    Call 1 [Add 9 0 0]; Step 1 plain; Call 2 [Add 5 0 0]; Step 2 plain;
    Call 3 join; Step 3 plain; Step 3 plain; Step 3 plain; Step 3 plain; Step 3 plain;
    Work 10 plain; Work 10 (waking 2); Work 11 plain; Work 10 plain; Work 10 plain; Work 11 plain; Work 11 (waking 3);
    Step 3 plain; Step 3 plain; Step 2 plain].

(** C8. Thread manager: of the steps others make, only a worker that takes a task
    to run wakes a thread asleep in [add]: places that become free because tasks
    expire, or because [removeNextPending] takes them, wake nobody.  So a state can
    be reached where the queue is empty, both workers sleep, and a thread waits
    without timeout for room that it has: no thread of the program has a step.  And
    since [add] does not look at the state again after its wait, a task can be
    pushed, and [add] return, when [join] has returned and no worker is left in the
    loop, though one has still to go through the section of the manager at its end. *)
Theorem adders_left_behind :
  (forall t v tm ex rest e s s', exec e s = Some s' -> calls s !! t = Some (Add_wait v tm ex true :: rest) ->
     calls s' !! t = Some (Add_wait v tm ex true :: rest) \/ e = WaitTimeout t \/ e = SpuriousCall t \/
     exists u c k, e = Work u c /\ last (taken (manager s')) = Some (k, Run u)) /\
  (exists s, reachable s /\ state (manager s) = STARTED /\ full (manager s) = false /\ tasks_ (manager s) = [] /\
     calls s = {[2%nat := [Add_wait 9 0 0 true]]} /\
     forall t c, exec (Work t c) s = None /\ exec (Step t c) s = None /\ exec (WaitTimeout t) s = None) /\
  (exists s, reachable s /\ state (manager s) = STOPPED /\ workerCount_ (manager s) = 0 /\
     map Task.runnable_ (tasks_ (manager s)) = [5]%nat /\
     drop 4 (outcomes s) = [(3%nat, Returned); (2%nat, Returned)] /\
     exists w, threads s !! 10%nat = Some w /\ Worker.pc_ w = Worker.Ending false).
Proof.
  split; [|split].
  - intros. by eapply adder_woken.
  - exists (after left_behind). split; [apply after_reachable; vm_compute; reflexivity|].
    assert (Hstuck : stuck (after left_behind)) by (apply stuck_check; vm_compute; reflexivity).
    assert (Hcalls : calls (after left_behind) = {[2%nat := [Add_wait 9 0 0 true]]}) by (vm_compute; reflexivity).
    split; [vm_compute; reflexivity|]. split; [vm_compute; reflexivity|]. split; [vm_compute; reflexivity|].
    split; [exact Hcalls|]. intros t c.
    split; [exact (stuck_none _ t c Hstuck)|exact (adder_alone _ _ _ _ t c Hcalls)].
  - exists (after pushed_late). split; [apply after_reachable; vm_compute; reflexivity|].
    split; [vm_compute; reflexivity|]. split; [vm_compute; reflexivity|]. split; [vm_compute; reflexivity|].
    split; [vm_compute; reflexivity|].
    eexists. split; [vm_compute; reflexivity|reflexivity].
Qed.

Lemma adders_left_behind_witness :
  let s := after left_behind in
  exec (Step 2 plain) s = None /\
  forall s', exec (Call 4 [Add 1 0 0]) s = Some s' -> calls s' !! 2%nat = Some [Add_wait 9 0 0 true].
Proof.
  intros s. split; [vm_compute; reflexivity|]. intros s' He.
  destruct (proj1 adders_left_behind 2%nat 9%nat 0 0 [] (Call 4 [Add 1 0 0]) s s' He) as [|[Hw|[Hw|(u & c & k & Hw & _)]]];
    [vm_compute; reflexivity|assumption|discriminate Hw..].
Defined.
