(* ===== verification/TimerManager.v ===== *)
(** * Timer manager: one thread that runs tasks when their time has come

    concurrency/TimerManager.cpp.  [TimerManager] has the fields of the class,
    [System] puts it beside the dispatcher, whose place in [Dispatcher::run] is its
    [pc], and the calls that other threads have made.  As in [ThreadManager] a step
    is what a thread does in one piece while it holds the mutex, or one access it
    makes without.  The one monitor of the class is shared by all: the dispatcher,
    those that wait in [start] and those that wait in [stop] sleep on it.  Runnables
    return and throw nothing; what one does with the manager is a call like any
    other.  A manager is not used any more once its destructor has returned. *)

From S2P Require Export Monitors.

Abbreviation Runnable := nat.

(** ** Units of time: concurrency/Util.h *)

Module Util.
Definition NS_PER_S : Z := 1000000000.
Definition US_PER_S : Z := 1000000.
Definition MS_PER_S : Z := 1000.
Definition NS_PER_MS : Z := Z.quot NS_PER_S MS_PER_S.
Definition US_PER_MS : Z := Z.quot US_PER_S MS_PER_S.

Definition toTicks (secs oldTicks oldTicksPerSec newTicksPerSec : Z) : Z :=
  let result := s64 (secs * newTicksPerSec) in
  let result := s64 (result + Z.quot (s64 (oldTicks * newTicksPerSec)) oldTicksPerSec) in
  let oldPerNew := Z.quot oldTicksPerSec newTicksPerSec in
  if (negb (oldPerNew =? 0) && (Z.quot oldPerNew 2 <=? Z.rem oldTicks oldPerNew))%bool
  then s64 (result + 1) else result.

Definition toMilliseconds_timespec (tv_sec tv_nsec : Z) : Z := toTicks tv_sec tv_nsec NS_PER_S MS_PER_S.
Definition toMilliseconds_timeval (tv_sec tv_usec : Z) : Z := toTicks tv_sec tv_usec US_PER_S MS_PER_S.

Definition toUsec_timespec (tv_sec tv_nsec : Z) : Z := toTicks tv_sec tv_nsec NS_PER_S US_PER_S.
Definition toUsec_timeval (tv_sec tv_usec : Z) : Z := toTicks tv_sec tv_usec US_PER_S US_PER_S.

Definition toTimespec (value : Z) : Z * Z := (Z.quot value MS_PER_S, Z.rem value MS_PER_S * NS_PER_MS).
Definition toTimeval (value : Z) : Z * Z :=
  (u32 (Z.quot value MS_PER_S), u32 (s64 (Z.rem value MS_PER_S * US_PER_MS))).
End Util.

(** ** Tasks *)

Module Task.
Inductive STATE := WAITING | EXECUTING | CANCELLED | COMPLETE.

Record t := Make { runnable_ : Runnable; state_ : STATE }.

Definition constructor (runnable : Runnable) : t := Make runnable WAITING.

Definition executing (task : t) : bool := match state_ task with EXECUTING => true | _ => false end.

(** What the dispatcher does to a task whose time has come. *)
Definition start (task : t) : t :=
  match state_ task with WAITING => Make (runnable_ task) EXECUTING | _ => task end.

(** [run]: the runnables it ran.  Nobody looks at a task again that has run. *)
Definition run (task : t) : list Runnable := if executing task then [runnable_ task] else [].
End Task.

(** ** The manager *)

Inductive STATE := UNINITIALIZED | STARTING | STARTED | STOPPING | STOPPED.

#[export] Instance STATE_dec : EqDecision STATE.
Proof. solve_decision. Defined.

Definition is_state (x y : STATE) : bool := bool_decide (x = y).

(** The fields of the class; of the factory, whether there is one.  A multimap is the
    list of its pairs in order.  [added], [taken] and [dropped] are history: the
    times and runnables of the tasks that were added, those the dispatcher took with
    what the clock said, and those [stop] removed. *)
Record TimerManager := MakeTimer {
  threadFactory_ : bool;
  taskMap_ : list (Z * Task.t);
  taskCount_ : Z;
  state_ : STATE;
  added : list (Z * Runnable);
  taken : list (Z * Runnable * Z);
  dropped : list (Z * Runnable)
}.

Definition constructor : TimerManager := MakeTimer false [] 0 UNINITIALIZED [] [] [].

Definition set_threadFactory x m := MakeTimer x (taskMap_ m) (taskCount_ m) (state_ m) (added m) (taken m) (dropped m).
Definition set_taskMap x m := MakeTimer (threadFactory_ m) x (taskCount_ m) (state_ m) (added m) (taken m) (dropped m).
Definition set_taskCount x m := MakeTimer (threadFactory_ m) (taskMap_ m) x (state_ m) (added m) (taken m) (dropped m).
Definition set_state x m := MakeTimer (threadFactory_ m) (taskMap_ m) (taskCount_ m) x (added m) (taken m) (dropped m).
Definition set_added x m := MakeTimer (threadFactory_ m) (taskMap_ m) (taskCount_ m) (state_ m) x (taken m) (dropped m).
Definition set_taken x m := MakeTimer (threadFactory_ m) (taskMap_ m) (taskCount_ m) (state_ m) (added m) x (dropped m).
Definition set_dropped x m := MakeTimer (threadFactory_ m) (taskMap_ m) (taskCount_ m) (state_ m) (added m) (taken m) x.

Definition taskCount (m : TimerManager) : Z := taskCount_ m.
Definition state (m : TimerManager) : STATE := state_ m.

(** [multimap::insert]: behind the pairs with the same key. *)
Fixpoint insert_task (key : Z) (task : Task.t) (l : list (Z * Task.t)) : list (Z * Task.t) :=
  match l with
  | [] => [(key, task)]
  | e :: l' => if e.1 <=? key then e :: insert_task key task l' else (key, task) :: l
  end.

(** The pairs before [upper_bound(now)], and those from there on. *)
Fixpoint expired (now : Z) (l : list (Z * Task.t)) : list (Z * Task.t) :=
  match l with e :: l => if e.1 <=? now then e :: expired now l else [] | [] => [] end.
Fixpoint pending (now : Z) (l : list (Z * Task.t)) : list (Z * Task.t) :=
  match l with e :: l' => if e.1 <=? now then pending now l' else l | [] => [] end.

Definition pairs (l : list (Z * Task.t)) : list (Z * Runnable) := map (fun e => (e.1, Task.runnable_ e.2)) l.

(** The loop over the expired tasks, and the erasure. *)
Definition take_expired (now : Z) (m : TimerManager) : TimerManager :=
  let gone := expired now (taskMap_ m) in
  set_taken (taken m ++ map (fun e => (e, now)) (pairs gone))
    (set_taskMap (pending now (taskMap_ m)) (set_taskCount (u64 (taskCount_ m - zlen gone)) m)).

(** ** The dispatcher *)

(** Not yet past its first section; at the head of the outer loop; in the wait, until
    when and how much later than [now] that was computed; with tasks to run and the
    end of the outer loop to test; out of the loop; over. *)
Inductive pc :=
| Entry
| Looping
| Waiting (asleep : bool) (until : option Z) (late : Z)
| Running (tasks : list Task.t)
| Ending
| Finished.

Definition dispatcher_asleep (p : pc) : bool := match p with Waiting a _ _ => a | _ => false end.
Definition wake_dispatcher (p : pc) : pc := match p with Waiting _ u l => Waiting false u l | _ => p end.

(** ** Calls *)

Inductive exn := InvalidArgumentException | IllegalStateException | SystemResourceException.

(** An operation from its start, or from where it let go of the mutex. *)
Inductive instr :=
| Start
| Start_thread
| Start_wait (asleep : bool)
| Stop
| Stop_wait (doStop asleep : bool)
| Stop_clean
| Destructor
| Add (task : Runnable) (timeout : Z)
| Add_section (task : Runnable) (timeout : Z)
| AddAt (task : Runnable) (expiration : Z)
| Remove (task : Runnable)
| TaskCount
| State
| SetThreadFactory (value : bool).

Definition add_timespec (task : Runnable) (tv_sec tv_nsec : Z) : instr :=
  AddAt task (Util.toMilliseconds_timespec tv_sec tv_nsec).
Definition add_timeval (task : Runnable) (tv_sec tv_usec : Z) : instr :=
  AddAt task (Util.toMilliseconds_timeval tv_sec tv_usec).

Definition is_operation (i : instr) : bool :=
  match i with
  | Start | Stop | Destructor | Add _ _ | AddAt _ _ | Remove _ | TaskCount | State | SetThreadFactory _ => true
  | _ => false
  end.

Definition call_asleep (i : instr) : bool :=
  match i with Start_wait a | Stop_wait _ a => a | _ => false end.
Definition wake_call (i : instr) : instr :=
  match i with Start_wait _ => Start_wait false | Stop_wait d _ => Stop_wait d false | _ => i end.

#[export] Instance call_sleeping : Sleeping instr call_asleep wake_call.
Proof. by intros []. Qed.

Inductive outcome :=
| Returned
| Counted (n : Z)
| Is (st : STATE)
| Threw (e : exn).

(** [dispatcher]: none before its thread is made.  [managed]: the pointer of the
    dispatcher to the manager is not null.  [failed]: an assertion did not hold, or the
    null pointer was followed.  [ran] and [outcomes] are history. *)
Record System := MakeSystem {
  manager : TimerManager;
  dispatcher : option pc;
  managed : bool;
  calls : gmap tid instr;
  ran : list Runnable;
  outcomes : list (tid * outcome);
  failed : bool
}.

Definition set_manager x s := MakeSystem x (dispatcher s) (managed s) (calls s) (ran s) (outcomes s) (failed s).
Definition set_dispatcher x s := MakeSystem (manager s) (Some x) (managed s) (calls s) (ran s) (outcomes s) (failed s).
Definition set_managed x s := MakeSystem (manager s) (dispatcher s) x (calls s) (ran s) (outcomes s) (failed s).
Definition set_calls x s := MakeSystem (manager s) (dispatcher s) (managed s) x (ran s) (outcomes s) (failed s).
Definition set_ran x s := MakeSystem (manager s) (dispatcher s) (managed s) (calls s) x (outcomes s) (failed s).
Definition set_outcomes x s := MakeSystem (manager s) (dispatcher s) (managed s) (calls s) (ran s) x (failed s).
Definition fail s := MakeSystem (manager s) (dispatcher s) (managed s) (calls s) (ran s) (outcomes s) true.

Definition initial : System := MakeSystem constructor None true ∅ [] [] false.

(** What the source does not determine in a step: whom [notify] wakes (no thread is
    the dispatcher), which of the expired tasks is next in the set ordered by
    addresses, what the clock says when it is read, and when it is read again in
    [wait], whether the system makes a thread. *)
Record choice := Choose { chosen : option tid; index : nat; now : Z; later : Z; ok : bool }.

(** The sleepers of the monitor. *)
Definition notify (who : option tid) (s : System) : option System :=
  match dispatcher s, who with
  | Some p, None => if dispatcher_asleep p then Some (set_dispatcher (wake_dispatcher p) s) else None
  | Some p, Some t =>
      if negb (dispatcher_asleep p) || from_option call_asleep false (calls s !! t)
      then m ← Monitors.notify call_asleep wake_call t (calls s); Some (set_calls m s)
      else None
  | None, Some t => m ← Monitors.notify call_asleep wake_call t (calls s); Some (set_calls m s)
  | None, None => None
  end.

Definition notifyAll (s : System) : System :=
  MakeSystem (manager s) (wake_dispatcher <$> dispatcher s) (managed s)
    (Monitors.notifyAll call_asleep wake_call (calls s)) (ran s) (outcomes s) (failed s).

(** ** [Dispatcher::run] *)

Definition entry_section (s : System) : System :=
  let s := if is_state (state_ (manager s)) STARTING
           then notifyAll (set_manager (set_state STARTED (manager s)) s) else s in
  set_dispatcher Looping s.

(** The section of the loop, from its start or from behind [wait]: to the next wait,
    or to its end with the tasks that have expired. *)
Definition loop_section (c : choice) (s : System) : System :=
  let m := manager s in
  let gone := expired (now c) (taskMap_ m) in
  if is_state (state_ m) STARTED then
    match gone with
    | [] =>
        let timeout := match taskMap_ m with e :: _ => s64 (e.1 - now c) | [] => 0 end in
        if (negb (timeout =? 0) && (0 <? taskCount_ m) || (timeout =? 0) && (taskCount_ m =? 0))%bool then
          let until := if timeout =? 0 then None else Some (s64 (later c + timeout)) in
          set_dispatcher (Waiting true until (later c - now c)) s
        else fail s
    | _ =>
        set_dispatcher (Running (map (fun e => Task.start e.2) gone)) (set_manager (take_expired (now c) m) s)
    end
  else set_dispatcher (Running []) s.

Definition end_section (c : choice) (s : System) : option System :=
  let s' := set_dispatcher Finished s in
  if is_state (state_ (manager s)) STOPPING
  then notify (chosen c) (set_manager (set_state STOPPED (manager s)) s') else Some s'.

Definition dispatch (c : choice) (s : System) : option System :=
  match dispatcher s with
  | None | Some Finished | Some (Waiting true _ _) => None
  | Some (Running (task :: tasks)) =>
      task' ← (task :: tasks) !! index c;
      Some (set_dispatcher (Running (delete (index c) (task :: tasks))) (set_ran (ran s ++ Task.run task') s))
  | Some p =>
      if negb (managed s) then Some (fail s) else
      match p with
      | Entry => Some (entry_section s)
      | Looping | Waiting _ _ _ => Some (loop_section c s)
      | Running _ =>
          Some (set_dispatcher (if is_state (state_ (manager s)) STARTED then Looping else Ending) s)
      | _ => end_section c s
      end
  end.

(** ** The operations *)

Inductive control :=
| Next (i : instr)
| Result (o : outcome).

Abbreviation section := (option (System * control)).

Definition go (s : System) (i : instr) : section := Some (s, Next i).
Definition done (s : System) (o : outcome) : section := Some (s, Result o).

Definition start (s : System) : section :=
  let m := manager s in
  if negb (threadFactory_ m) then done s (Threw InvalidArgumentException)
  else if is_state (state_ m) UNINITIALIZED then go (set_manager (set_state STARTING m) s) Start_thread
  else go s (Start_wait false).

Definition start_thread (c : choice) (s : System) : section :=
  if ok c then go (set_dispatcher Entry s) (Start_wait false) else done s (Threw SystemResourceException).

Definition start_wait (s : System) : section :=
  if is_state (state_ (manager s)) STARTING then go s (Start_wait true) else done s Returned.

(** The loop at the end of the section of [stop], and what follows it. *)
Definition stop_wait (doStop : bool) (s : System) : section :=
  if negb (is_state (state_ (manager s)) STOPPED) then go s (Stop_wait doStop true)
  else if doStop then go s Stop_clean else done s Returned.

Definition stop (s : System) : section :=
  let m := manager s in
  if is_state (state_ m) UNINITIALIZED then stop_wait false (set_manager (set_state STOPPED m) s)
  else if (negb (is_state (state_ m) STOPPING) && negb (is_state (state_ m) STOPPED))%bool
  then stop_wait true (notifyAll (set_manager (set_state STOPPING m) s))
  else stop_wait false s.

Definition stop_clean (s : System) : section :=
  let m := manager s in
  done (set_managed false (set_manager (set_dropped (dropped m ++ pairs (taskMap_ m)) (set_taskMap [] m)) s)) Returned.

Definition destructor (s : System) : section :=
  if is_state (state_ (manager s)) STOPPED then done s Returned else go s Stop.

(** The clock is read before the mutex is taken. *)
Definition add (task : Runnable) (timeout : Z) (c : choice) (s : System) : section :=
  go s (Add_section task (s64 (timeout + now c))).

(** As many tasks as fit in memory; there is no step that adds one more. *)
Definition max_tasks : Z := 2 ^ 60.

Definition add_section (task : Runnable) (timeout : Z) (c : choice) (s : System) : section :=
  let m := manager s in
  if negb (is_state (state_ m) STARTED) then done s (Threw IllegalStateException)
  else if max_tasks <=? zlen (taskMap_ m) then None
  else
    let notifyRequired :=
      if taskCount_ m =? 0 then true
      else match taskMap_ m with e :: _ => timeout <? e.1 | [] => true end in
    let m := set_taskCount (u64 (taskCount_ m + 1)) m in
    let m := set_taskMap (insert_task timeout (Task.constructor task) (taskMap_ m)) m in
    let s := set_manager (set_added (added m ++ [(timeout, task)]) m) s in
    if notifyRequired then s ← notify (chosen c) s; done s Returned else done s Returned.

Definition add_at (task : Runnable) (expiration : Z) (c : choice) (s : System) : section :=
  if expiration <? now c then done s (Threw InvalidArgumentException)
  else go s (Add task (s64 (expiration - now c))).

Definition remove (task : Runnable) (s : System) : section :=
  if negb (is_state (state_ (manager s)) STARTED) then done s (Threw IllegalStateException) else done s Returned.

Definition instruction (i : instr) (c : choice) (s : System) : section :=
  match i with
  | Start => start s
  | Start_thread => start_thread c s
  | Start_wait false => start_wait s
  | Stop => stop s
  | Stop_wait doStop false => stop_wait doStop s
  | Stop_clean => stop_clean s
  | Start_wait true | Stop_wait _ true => None
  | Destructor => destructor s
  | Add task timeout => add task timeout c s
  | Add_section task timeout => add_section task timeout c s
  | AddAt task expiration => add_at task expiration c s
  | Remove task => remove task s
  | TaskCount => done s (Counted (taskCount (manager s)))
  | State => done s (Is (state (manager s)))
  | SetThreadFactory value => done (set_manager (set_threadFactory value (manager s)) s) Returned
  end.

Definition continue (t : tid) (k : control) (s : System) : System :=
  match k with
  | Next i => set_calls (<[t := i]> (calls s)) s
  | Result o => set_outcomes (outcomes s ++ [(t, o)]) (set_calls (delete t (calls s)) s)
  end.

(** ** Steps *)

(** A sleeper wakes of itself, or because its time is over. *)
Inductive event :=
| Call (t : tid) (i : instr)
| Step (t : tid) (c : choice)
| Dispatch (c : choice)
| WakeDispatcher
| WakeCall (t : tid).

Definition exec (e : event) (s : System) : option System :=
  match e with
  | Call t i =>
      match calls s !! t with
      | None => if is_operation i then Some (set_calls (<[t := i]> (calls s)) s) else None
      | Some _ => None
      end
  | Step t c =>
      i ← calls s !! t;
      '(s', k) ← instruction i c s;
      Some (continue t k s')
  | Dispatch c => dispatch c s
  | WakeDispatcher =>
      p ← dispatcher s;
      if dispatcher_asleep p then Some (set_dispatcher (wake_dispatcher p) s) else None
  | WakeCall t =>
      i ← calls s !! t;
      if call_asleep i then Some (set_calls (<[t := wake_call i]> (calls s)) s) else None
  end.

Fixpoint exec_all (es : list event) (s : System) : option System :=
  match es with
  | [] => Some s
  | e :: es => s ← exec e s; exec_all es s
  end.

(** Times that int64_t holds the sums of: the clock has not run for 70 million years,
    and nobody asks for such a delay. *)
Definition max_time : Z := 2 ^ 61.
Definition sane_choice (c : choice) : bool := (0 <=? now c) && (now c <=? later c) && (later c <? max_time).
Definition sane (e : event) : bool :=
  match e with
  | Call _ (Add _ timeout) => (- max_time <? timeout) && (timeout <? max_time)
  | Call _ (AddAt _ expiration) => (- max_time <? expiration) && (expiration <? max_time)
  | Step _ c | Dispatch c => sane_choice c
  | _ => true
  end.

Inductive reachable : System -> Prop :=
| reachable_initial : reachable initial
| reachable_step s e s' : reachable s -> sane e = true -> exec e s = Some s' -> reachable s'.
