(* ===== verification/TimerInvariant.v ===== *)
(** * Timer manager: what holds in every reachable state

    [ctl]: which states of the manager go with which places of the dispatcher and of
    the calls.  [data]: the tasks, their times and what became of them.  [timely]: a
    dispatcher that sleeps does so no longer than to the time of the first task. *)

From S2P Require Export TimerManager.

(** ** The calls *)

Definition starting (i : instr) : bool := match i with Start_thread => true | _ => false end.
Definition stopping (i : instr) : bool := match i with Stop_wait _ _ | Stop_clean => true | _ => false end.

Definition live (p : pc) : bool := match p with Looping | Waiting _ _ _ | Running _ => true | _ => false end.

(** The states of the manager, the dispatcher, the number of calls about to make its
    thread and the number of calls within [stop]. *)
Definition phase (st : STATE) (d : option pc) (threads stops : Z) : Prop :=
  match st with
  | UNINITIALIZED => d = None /\ threads = 0 /\ stops = 0
  | STARTING => stops = 0 /\ (d = None /\ threads <= 1 \/ d = Some Entry /\ threads = 0)
  | STARTED => stops = 0 /\ threads = 0 /\ exists p, d = Some p /\ live p = true
  | STOPPING => d = None /\ threads <= 1 \/ threads = 0 /\ exists p, d = Some p /\ p <> Finished
  | STOPPED => threads = 0 /\ (d = None /\ stops = 0 \/ d = Some Finished)
  end.

Definition max_key : Z := 2 ^ 62.
Definition call_ok (st : STATE) (d : option pc) (i : instr) : Prop :=
  match i with
  | Start_wait true => st = STARTING
  | Stop_clean => d = Some Finished
  | Add _ timeout => - max_key < timeout < max_time
  | AddAt _ expiration => - max_time < expiration < max_time
  | Add_section _ key => - max_key < key < max_key
  | _ => True
  end.

Definition same_counts (cs cs' : gmap tid instr) : Prop :=
  how_many starting cs' = how_many starting cs /\ how_many stopping cs' = how_many stopping cs.

Lemma woken_calls cs cs' : woken call_asleep wake_call cs cs' -> same_counts cs cs'.
Proof. intros Hw. split; (eapply woken_how_many; [exact Hw|]); by intros []. Qed.

Lemma woken_ok st d cs cs' : woken call_asleep wake_call cs cs' ->
  (forall t i, cs !! t = Some i -> call_ok st d i) -> forall t i, cs' !! t = Some i -> call_ok st d i.
Proof.
  intros Hw Hok t i Hi. destruct (woken_back _ _ _ _ t i Hw Hi) as (j & Hj & [->|[Ha ->]]); [by apply (Hok t)|].
  specialize (Hok t j Hj). by destruct j.
Qed.

(** Awake calls are as they were. *)
Lemma woken_awake cs cs' t i : woken call_asleep wake_call cs cs' -> cs !! t = Some i -> call_asleep i = false -> cs' !! t = Some i.
Proof. intros Hw Hi Ha. destruct (woken_split _ _ _ _ t i Hw Hi) as (j & Hj & [->|[? _]]); [done|congruence]. Qed.

(** What a call leaves in the table. *)
Definition next_calls (t : tid) (k : control) (cs : gmap tid instr) : gmap tid instr :=
  match k with Next i => <[t := i]> cs | Result _ => delete t cs end.

Lemma calls_continue t k s : calls (continue t k s) = next_calls t k (calls s).
Proof. by destruct k. Qed.

Lemma how_many_next p t k cs i : cs !! t = Some i ->
  how_many p (next_calls t k cs) = how_many p cs - Z.b2z (p i) + match k with Next j => Z.b2z (p j) | Result _ => 0 end.
Proof.
  intros Hi. destruct k as [j|o]; cbn [next_calls]; [by apply how_many_update|].
  unfold how_many. rewrite (msum_split _ cs t i Hi). lia.
Qed.

Lemma next_ok st d t k cs : (forall u i, cs !! u = Some i -> call_ok st d i) ->
  (match k with Next j => call_ok st d j | Result _ => True end) ->
  forall u i, next_calls t k cs !! u = Some i -> call_ok st d i.
Proof.
  intros Hok Hk u i. destruct k as [j|o]; cbn [next_calls].
  - destruct (decide (t = u)) as [<-|Hne]; [rewrite lookup_insert_eq; by intros [= <-]|].
    rewrite lookup_insert_ne by done. apply Hok.
  - intros [_ Hu]%lookup_delete_Some. by apply (Hok u).
Qed.

(** ** The control *)

Record ctl (s : System) : Prop := Ctl {
  ctl_phase : phase (state_ (manager s)) (dispatcher s) (how_many starting (calls s)) (how_many stopping (calls s));
  ctl_calls : forall t i, calls s !! t = Some i -> call_ok (state_ (manager s)) (dispatcher s) i;
  ctl_managed : managed s = false -> dispatcher s = Some Finished;
  ctl_asleep : forall u l, dispatcher s = Some (Waiting true u l) -> state_ (manager s) = STARTED
}.

(** While the manager runs only the dispatcher can be asleep. *)
Lemma nobody_waits s t i : ctl s -> state_ (manager s) = STARTED -> calls s !! t = Some i -> call_asleep i = false.
Proof.
  intros [Hp Hc _ _] Hst Hi. specialize (Hc t i Hi). rewrite Hst in Hp. destruct Hp as (Hs & _ & _).
  pose proof (how_many_none stopping _ t i Hs Hi). destruct i as [| |[]| |? []| | | | | | | | |]; try done.
  cbn in Hc. congruence.
Qed.

Lemma no_sleepers s : ctl s -> state_ (manager s) = STARTED -> how_many call_asleep (calls s) = 0.
Proof.
  intros Hc Hst. pose proof (how_many_nonneg call_asleep (calls s)).
  destruct (Z.eq_dec (how_many call_asleep (calls s)) 0) as [|Hne]; [done|].
  destruct (how_many_exists call_asleep (calls s)) as (t & i & Hi & Ha); [lia|].
  by rewrite (nobody_waits s t i Hc Hst Hi) in Ha.
Qed.

(** What [notify] does: it wakes a sleeper, if there is one, and changes nothing else. *)
Lemma notify_spec who s s' : notify who s = Some s' ->
  manager s' = manager s /\ managed s' = managed s /\ ran s' = ran s /\ outcomes s' = outcomes s /\ failed s' = failed s /\
  woken call_asleep wake_call (calls s) (calls s') /\
  (dispatcher s' = dispatcher s \/ exists p, dispatcher s = Some p /\ dispatcher_asleep p = true /\
     dispatcher s' = Some (wake_dispatcher p) /\ calls s' = calls s).
Proof.
  unfold notify. destruct (dispatcher s) as [p|] eqn:Hd; destruct who as [t|].
  - destruct (_ || _)%bool; [|done]. destruct (Monitors.notify _ _ _ _) as [cs|] eqn:Hn; [|done]. cbn. intros [= <-].
    split_and?; try done; [by eapply notify_woken|by left].
  - destruct (dispatcher_asleep p) eqn:Ha; [|done]. intros [= <-]. split_and?; try done; [apply woken_refl|].
    right. by exists p.
  - destruct (Monitors.notify _ _ _ _) as [cs|] eqn:Hn; [|done]. cbn. intros [= <-].
    split_and?; try done; [by eapply notify_woken|by left].
  - done.
Qed.

(** With no call asleep it wakes the dispatcher. *)
Lemma notify_wakes who s s' p : notify who s = Some s' -> dispatcher s = Some p -> how_many call_asleep (calls s) = 0 ->
  dispatcher s' = Some (wake_dispatcher p).
Proof.
  intros Hn Hd Hz. unfold notify in Hn. rewrite Hd in Hn. destruct who as [t|].
  - destruct (dispatcher_asleep p) eqn:Ha; cbn [negb orb] in Hn.
    + destruct (calls s !! t) as [i|] eqn:Hi; cbn [from_option] in Hn; [|done].
      by rewrite (how_many_none call_asleep _ t i Hz Hi) in Hn.
    + destruct (Monitors.notify _ _ _ _); [|done]. cbn in Hn. injection Hn as <-. cbn. rewrite Hd. by destruct p as [| |[]| | |].
  - destruct (dispatcher_asleep p); [|done]. by injection Hn as <-.
Qed.

Lemma ctl_initial : ctl initial.
Proof. by constructor. Qed.

(** The dispatcher goes from one place to another while nothing else changes. *)
Lemma ctl_dispatcher p q s s' : ctl s -> dispatcher s = Some p -> dispatcher s' = Some q ->
  state_ (manager s') = state_ (manager s) -> managed s' = managed s -> calls s' = calls s ->
  p <> Entry -> p <> Finished -> q <> Finished -> (live p = true -> live q = true \/ state_ (manager s) <> STARTED) ->
  (forall u l, q = Waiting true u l -> state_ (manager s) = STARTED) -> ctl s'.
Proof.
  intros [Hp Hc Hm Ha] Hd Hd' Hst Hmg Hcs He Hf Hq Hl Hw. constructor; rewrite ?Hd', ?Hst, ?Hmg, ?Hcs.
  - rewrite Hd in Hp. destruct (state_ (manager s)) eqn:Hs; cbn [phase] in *.
    + destruct Hp as (? & _). congruence.
    + destruct Hp as (? & [[? _]|[? _]]); congruence.
    + destruct Hp as (? & ? & p' & [= ->] & Hlp). split_and?; try done. exists q. split; [done|].
      destruct (Hl Hlp); [done|congruence].
    + right. destruct Hp as [[? _]|[? _]]; [congruence|]. split; [done|]. by exists q.
    + destruct Hp as (? & [[? _]|?]); congruence.
  - intros t i Hi. specialize (Hc t i Hi). destruct i as [| |[]| | | | | | | | | | |]; try done. cbn in *. congruence.
  - intros Hmf. specialize (Hm Hmf). congruence.
  - intros u l [= ->]. by eapply Hw.
Qed.

Lemma notifyAll_calls s t i : calls (notifyAll s) !! t = Some i -> call_asleep i = false.
Proof.
  intros Hi. apply (how_many_none call_asleep (calls (notifyAll s)) t); [|done].
  apply (notifyAll_sleepers call_asleep wake_call).
Qed.

(** All are woken and the state moves on. *)
Lemma ctl_notifyAll d st s s' : ctl s -> same_counts (calls s) (calls s') ->
  calls s' = calls (notifyAll s) -> managed s' = managed s -> state_ (manager s') = st -> dispatcher s' = d ->
  (dispatcher s = Some Finished -> d = Some Finished) -> (forall u l, d <> Some (Waiting true u l)) ->
  phase st d (how_many starting (calls s)) (how_many stopping (calls s)) -> ctl s'.
Proof.
  intros [Hp Hc Hm Ha] [Hs1 Hs2] Hcs Hmg Hst Hd Hf Hw Hph. constructor.
  - by rewrite Hst, Hd, Hs1, Hs2.
  - intros t i Hi. rewrite Hcs in Hi. pose proof (notifyAll_calls s t i Hi) as Hawake.
    rewrite Hst, Hd. pose proof (woken_ok _ _ _ _ (notifyAll_woken call_asleep wake_call (calls s)) Hc t i Hi) as Hok.
    destruct i as [| |[]| | | | | | | | | | |]; try done. cbn in *. by apply Hf.
  - intros Hf'. rewrite Hd. apply Hf, Hm. congruence.
  - intros u l Hd'. by destruct (Hw u l); congruence.
Qed.

Lemma notifyAll_counts s : same_counts (calls s) (calls (notifyAll s)).
Proof. apply woken_calls, notifyAll_woken. Qed.

Lemma ctl_entry s : ctl s -> dispatcher s = Some Entry -> ctl (entry_section s).
Proof.
  intros Hc Hd. pose proof Hc as [Hp _ Hm _]. rewrite Hd in Hp. unfold entry_section.
  destruct (is_state (state_ (manager s)) STARTING) eqn:Hst.
  - apply bool_decide_eq_true in Hst. rewrite Hst in Hp. destruct Hp as (Hs & [[? _]|[_ Ht]]); [done|].
    eapply (ctl_notifyAll (Some Looping) STARTED s); [done|apply notifyAll_counts|done..|congruence|done|].
    cbn. split_and?; [done|done|]. by exists Looping.
  - destruct s as [m d mg cs r o f]. cbn in *. subst d. apply bool_decide_eq_false in Hst.
    destruct Hc as [Hp' Hc Hm' Ha]. cbn in *. constructor; cbn; try done.
    + destruct (state_ m); cbn in *; try (by destruct Hp as (? & _)); try done.
      * destruct Hp as (_ & _ & p & [= <-] & Hl). done.
      * destruct Hp as [[? _]|[Ht _]]; [done|]. right. split; [done|]. by exists Looping.
      * by destruct Hp as (_ & [[? _]|?]).
    + intros t i Hi. specialize (Hc t i Hi). by destruct i as [| |[]| | | | | | | | | | |].
    + intros Hf. specialize (Hm' Hf). done.
Qed.

(** A call goes on, with the rest as the premises say. *)
Lemma ctl_continue s t k i : calls s !! t = Some i ->
  (forall u j, calls s !! u = Some j -> call_ok (state_ (manager s)) (dispatcher s) j) ->
  (match k with Next j => call_ok (state_ (manager s)) (dispatcher s) j | Result _ => True end) ->
  phase (state_ (manager s)) (dispatcher s)
    (how_many starting (calls s) - Z.b2z (starting i) + match k with Next j => Z.b2z (starting j) | Result _ => 0 end)
    (how_many stopping (calls s) - Z.b2z (stopping i) + match k with Next j => Z.b2z (stopping j) | Result _ => 0 end) ->
  (managed s = false -> dispatcher s = Some Finished) ->
  (forall u l, dispatcher s = Some (Waiting true u l) -> state_ (manager s) = STARTED) ->
  ctl (continue t k s).
Proof.
  intros Hi Hc Hk Hp Hm Ha. rewrite <- !(how_many_next _ t k _ i Hi) in Hp.
  pose proof (next_ok _ _ t k (calls s) Hc Hk) as Hn.
  destruct k as [j|o]; by constructor.
Qed.

(** The common case: what the control is about stays as it is. *)
Lemma ctl_stays s s' t k i : ctl s -> calls s !! t = Some i ->
  state_ (manager s') = state_ (manager s) -> dispatcher s' = dispatcher s -> managed s' = managed s -> calls s' = calls s ->
  starting i = match k with Next j => starting j | Result _ => false end ->
  stopping i = match k with Next j => stopping j | Result _ => false end ->
  (match k with Next j => call_ok (state_ (manager s)) (dispatcher s) j | Result _ => True end) ->
  ctl (continue t k s').
Proof.
  intros [Hp Hc Hm Ha] Hi Hst Hd Hmg Hcs Hs1 Hs2 Hk.
  apply (ctl_continue s' t k i); rewrite ?Hst, ?Hd, ?Hmg, ?Hcs; try done.
  rewrite Hs1, Hs2. destruct k as [j|o]; cbn [Z.b2z]; by rewrite !Z.sub_add || (rewrite !Z.sub_0_r, !Z.add_0_r).
Qed.

(** ** Each operation *)

Ltac is_st := repeat match goal with
  | H : is_state _ _ = true |- _ => apply bool_decide_eq_true in H
  | H : is_state _ _ = false |- _ => apply bool_decide_eq_false in H
  end.

Section Operations.
Context (s : System) (t : tid) (Hctl : ctl s).

(** The states in which a call about to make the thread, or within [stop], finds the manager. *)
Lemma starting_phase : calls s !! t = Some Start_thread -> dispatcher s = None /\ how_many starting (calls s) = 1.
Proof.
  intros Hi. pose proof (how_many_some starting _ t _ Hi eq_refl) as Hpos. destruct Hctl as [Hp _ _ _].
  destruct (state_ (manager s)); cbn [phase] in Hp.
  - lia.
  - destruct Hp as (_ & [[? ?]|[_ ?]]); [split; [done|lia]|lia].
  - lia.
  - destruct Hp as [[? ?]|[? _]]; [split; [done|lia]|lia].
  - lia.
Qed.

Lemma stopping_phase i : calls s !! t = Some i -> stopping i = true ->
  state_ (manager s) = STOPPING \/ state_ (manager s) = STOPPED /\ dispatcher s = Some Finished.
Proof.
  intros Hi Ht. pose proof (how_many_some stopping _ t _ Hi Ht) as Hpos. destruct Hctl as [Hp _ _ _].
  destruct (state_ (manager s)); cbn [phase] in Hp; try lia; [by left|].
  right. split; [done|]. destruct Hp as (_ & [[_ ?]|?]); [lia|done].
Qed.

Lemma ctl_start s' k : calls s !! t = Some Start -> start s = Some (s', k) -> ctl (continue t k s').
Proof.
  intros Hi. unfold start, go, done. destruct (threadFactory_ (manager s)); cbn [negb].
  - destruct (is_state _ _) eqn:Hst; is_st; intros [= <- <-].
    + destruct Hctl as [Hp Hc Hm Ha]. rewrite Hst in Hp. destruct Hp as (Hd & Ht & Hs).
      apply (ctl_continue _ t _ Start); cbn; rewrite ?Hd; try done;
        [|split; [|left; split; [done|]]; lia|intros Hf; specialize (Hm Hf); congruence].
      intros u j Hu. specialize (Hc u j Hu). rewrite Hst, Hd in Hc. by destruct j as [| |[]| | | | | | | | | | |].
    + by eapply ctl_stays.
  - intros [= <- <-]. by eapply ctl_stays.
Qed.

Lemma ctl_start_thread c s' k : calls s !! t = Some Start_thread -> start_thread c s = Some (s', k) -> ctl (continue t k s').
Proof.
  intros Hi Hsec. destruct (starting_phase Hi) as [Hd Ht]. destruct Hctl as [Hp Hc Hm Ha].
  rewrite Hd in Hp. rewrite Ht in Hp. revert Hsec. unfold start_thread, go, done.
  assert (Hq : forall d, d = None \/ d = Some Entry ->
    phase (state_ (manager s)) d 0 (how_many stopping (calls s))).
  { intros d Hd'. destruct (state_ (manager s)); cbn [phase] in *.
    - lia.
    - split; [lia|]. destruct Hd' as [->| ->]; [left|right]; (split; [done|lia]).
    - lia.
    - destruct Hd' as [->| ->]; [left|right]; (split; [done|]); [lia|]. by exists Entry.
    - lia. }
  assert (Hok : forall d u j, calls s !! u = Some j -> call_ok (state_ (manager s)) d j).
  { intros d u j Hu. specialize (Hc u j Hu). rewrite Hd in Hc. by destruct j as [| |[]| | | | | | | | | | |]. }
  assert (Hmf : managed s <> false) by (intros Hf; specialize (Hm Hf); congruence).
  destruct (ok c); intros [= <- <-]; apply (ctl_continue _ t _ Start_thread); cbn; rewrite ?Hd; try done.
  - by apply Hok.
  - rewrite Ht, Z.sub_0_r, !Z.add_0_r. apply Hq. by right.
  - by apply Hok.
  - rewrite Ht, Z.sub_0_r, !Z.add_0_r. apply Hq. by left.
Qed.

Lemma ctl_start_wait s' k : calls s !! t = Some (Start_wait false) -> start_wait s = Some (s', k) -> ctl (continue t k s').
Proof.
  intros Hi. unfold start_wait, go, done. destruct (is_state _ _) eqn:Hst; is_st; intros [= <- <-]; by eapply ctl_stays.
Qed.

(** [stop], from a state in which it is counted or about to be. *)
Lemma ctl_stop_wait doStop s' k i : calls s !! t = Some i -> starting i = false ->
  (stopping i = true \/ state_ (manager s) = STOPPING \/ doStop = false /\ state_ (manager s) = STOPPED) ->
  stop_wait doStop s = Some (s', k) -> ctl (continue t k s').
Proof.
  intros Hi Hsi Hcase. unfold stop_wait, go, done. destruct (is_state (state_ (manager s)) STOPPED) eqn:Hst; cbn [negb]; is_st.
  - assert (Hd : stopping i = true -> dispatcher s = Some Finished).
    { intros Hs. destruct (stopping_phase i Hi Hs) as [|[_ ?]]; [congruence|done]. }
    assert (Hf : doStop = true -> stopping i = true /\ dispatcher s = Some Finished).
    { intros ->. destruct Hcase as [Hs|[?|[? _]]]; [by split; [|apply Hd]|congruence|done]. }
    destruct Hctl as [Hp Hc Hm Ha]. rewrite Hst in Hp, Hc, Ha. cbn [phase] in Hp.
    destruct doStop; intros [= <- <-]; apply (ctl_continue s t _ i); rewrite ?Hst; cbn; rewrite ?Hsi; try done.
    + by destruct Hf.
    + split; [cbn; lia|]. right. by destruct Hf.
    + split; [cbn; lia|]. destruct Hp as (_ & [[? ?]|?]); [|by right].
      destruct (stopping i) eqn:Hs; [specialize (Hd eq_refl); congruence|]. left. split; [done|cbn; lia].
  - intros [= <- <-].
    assert (Hst' : state_ (manager s) = STOPPING).
    { destruct Hcase as [Hs|[?|[_ ?]]]; [|done..]. by destruct (stopping_phase i Hi Hs) as [|[? _]]. }
    destruct Hctl as [Hp Hc Hm Ha]. rewrite Hst' in Hp, Hc, Ha. cbn [phase] in Hp.
    apply (ctl_continue s t _ i); rewrite ?Hst'; cbn; rewrite ?Hsi; try done.
    cbn. by rewrite Z.sub_0_r, Z.add_0_r.
Qed.

Lemma ctl_stop_clean s' k : calls s !! t = Some Stop_clean -> stop_clean s = Some (s', k) -> ctl (continue t k s').
Proof.
  intros Hi. assert (Hf : dispatcher s = Some Finished) by exact (ctl_calls s Hctl t _ Hi).
  destruct (stopping_phase _ Hi eq_refl) as [Hst|[Hst _]]; destruct Hctl as [Hp Hc Hm Ha]; rewrite Hst, Hf in Hp; cbn [phase] in Hp.
  - destruct Hp as [[? _]|(_ & p & [= <-] & ?)]; done.
  - intros [= <- <-]. apply (ctl_continue _ t _ Stop_clean); cbn; rewrite ?Hst, ?Hf; try done.
    + by rewrite Hst, Hf in Hc.
    + split; [lia|by right].
Qed.
End Operations.

Lemma ctl_stopping s : ctl s -> state_ (manager s) = STARTING \/ state_ (manager s) = STARTED ->
  ctl (notifyAll (set_manager (set_state STOPPING (manager s)) s)).
Proof.
  intros Hc Hst. eapply (ctl_notifyAll _ STOPPING s); [done|exact (notifyAll_counts s)|done..| | |]; cbn.
  - by intros ->.
  - intros u l. by destruct (dispatcher s) as [[]|].
  - destruct Hc as [Hp _ _ _]. destruct Hst as [Hst|Hst]; rewrite Hst in Hp; cbn [phase] in Hp.
    + destruct Hp as (_ & [[-> ?]|[-> ?]]); [by left|]. right. split; [done|]. by exists Entry.
    + destruct Hp as (_ & ? & p & -> & Hl). right. split; [done|]. exists (wake_dispatcher p). split; [done|]. by destruct p.
Qed.

Lemma ctl_never_started s : ctl s -> state_ (manager s) = UNINITIALIZED ->
  ctl (set_manager (set_state STOPPED (manager s)) s).
Proof.
  intros [Hp Hc Hm Ha] Hst. rewrite Hst in Hp, Hc, Ha. destruct Hp as (Hd & ? & ?).
  constructor; cbn; rewrite ?Hd in *; try done.
  - split; [done|]. by left.
  - intros t i Hi. specialize (Hc t i Hi). by destruct i as [| |[]| | | | | | | | | | |].
Qed.

Lemma stop_cases s : stop s =
  match state_ (manager s) with
  | UNINITIALIZED => stop_wait false (set_manager (set_state STOPPED (manager s)) s)
  | STARTING | STARTED => stop_wait true (notifyAll (set_manager (set_state STOPPING (manager s)) s))
  | STOPPING | STOPPED => stop_wait false s
  end.
Proof. unfold stop. by destruct (state_ (manager s)). Qed.

Lemma ctl_stop s t s' k : ctl s -> calls s !! t = Some Stop -> stop s = Some (s', k) -> ctl (continue t k s').
Proof.
  intros Hc Hi. rewrite stop_cases. destruct (state_ (manager s)) eqn:Hst.
  - eapply ctl_stop_wait; [by apply ctl_never_started|exact Hi|done|]. right. by right.
  - eapply (ctl_stop_wait _ t) with (i := Stop); [apply ctl_stopping; tauto| |done|by right; left].
    by eapply woken_awake; [apply notifyAll_woken|exact Hi|].
  - eapply (ctl_stop_wait _ t) with (i := Stop); [apply ctl_stopping; tauto| |done|by right; left].
    by eapply woken_awake; [apply notifyAll_woken|exact Hi|].
  - eapply ctl_stop_wait; [done|exact Hi|done|]. by right; left.
  - eapply ctl_stop_wait; [done|exact Hi|done|]. by right; right.
Qed.

Lemma sane_bounds c : sane_choice c = true -> 0 <= now c <= later c /\ later c < 2 ^ 61.
Proof. unfold sane_choice, max_time. intros [[??]%andb_prop ?]%andb_prop. lia. Qed.

Lemma ctl_add s t task timeout c s' k : ctl s -> sane_choice c = true -> calls s !! t = Some (Add task timeout) ->
  add task timeout c s = Some (s', k) -> ctl (continue t k s').
Proof.
  intros Hctl Hsane Hi [= <- <-]. pose proof (ctl_calls s Hctl t _ Hi) as Hok. cbn [call_ok] in Hok.
  eapply ctl_stays; try done. apply sane_bounds in Hsane.
  cbn [call_ok]. unfold max_key, max_time in *. rewrite wraps_small; unfold in_s; lia.
Qed.

Lemma ctl_add_at s t task expiration c s' k : ctl s -> sane_choice c = true -> calls s !! t = Some (AddAt task expiration) ->
  add_at task expiration c s = Some (s', k) -> ctl (continue t k s').
Proof.
  intros Hctl Hsane Hi. pose proof (ctl_calls s Hctl t _ Hi) as Hok. cbn [call_ok] in Hok. unfold add_at, go, done.
  bcase (expiration <? now c); intros [= <- <-]; eapply ctl_stays; try done.
  apply sane_bounds in Hsane. cbn [call_ok]. unfold max_key, max_time in *. rewrite wraps_small; unfold in_s; lia.
Qed.

Lemma ctl_manager s m : ctl s -> state_ m = state_ (manager s) -> ctl (set_manager m s).
Proof. intros [Hp Hc Hm Ha] Hst. by constructor; cbn; rewrite ?Hst. Qed.

(** Waking, of whoever it is. *)
Lemma ctl_woken s s' : ctl s -> state_ (manager s') = state_ (manager s) -> managed s' = managed s ->
  woken call_asleep wake_call (calls s) (calls s') ->
  dispatcher s' = dispatcher s \/ dispatcher s' = wake_dispatcher <$> dispatcher s -> ctl s'.
Proof.
  intros [Hp Hc Hm Ha] Hst Hmg Hw Hd. destruct (woken_calls _ _ Hw) as [Hs1 Hs2].
  assert (Hf : dispatcher s' = Some Finished <-> dispatcher s = Some Finished).
  { destruct Hd as [->| ->]; [done|]. by destruct (dispatcher s) as [[]|]. }
  constructor; rewrite ?Hst, ?Hmg, ?Hs1, ?Hs2.
  - destruct Hd as [->| ->]; [done|]. destruct (state_ (manager s)); cbn [phase] in *.
    + by destruct Hp as (-> & ?).
    + by destruct Hp as (? & [[-> ?]|[-> ?]]); (split; [done|]); [left|right].
    + destruct Hp as (? & ? & p & -> & ?). split; [done|]. split; [done|]. exists (wake_dispatcher p). by destruct p.
    + destruct Hp as [[-> ?]|(? & p & -> & ?)]; [by left|]. right. split; [done|]. exists (wake_dispatcher p). by destruct p.
    + by destruct Hp as (? & [[-> ?]| ->]); (split; [done|]); [left|right].
  - intros t i Hi. pose proof (woken_ok _ _ _ _ Hw Hc t i Hi) as Hok. destruct i as [| |[]| | | | | | | | | | |]; try done. by apply Hf.
  - intros Hmf. by apply Hf, Hm.
  - intros u l Hd'. destruct Hd as [Hd|Hd]; rewrite Hd' in Hd; [by eapply Ha|]. by destruct (dispatcher s) as [[]|].
Qed.

Lemma ctl_notify who s s' : ctl s -> notify who s = Some s' -> ctl s'.
Proof.
  intros Hc (Hm & Hmg & _ & _ & _ & Hw & Hd)%notify_spec.
  apply (ctl_woken s); try done; [by rewrite Hm|].
  destruct Hd as [|(p & Hd & _ & -> & _)]; [by left|right]. by rewrite Hd.
Qed.

Lemma ctl_add_section s t task timeout c s' k : ctl s -> calls s !! t = Some (Add_section task timeout) ->
  add_section task timeout c s = Some (s', k) -> ctl (continue t k s').
Proof.
  intros Hc Hi. unfold add_section, done.
  destruct (is_state _ _) eqn:Hst; cbn [negb]; [|intros [= <- <-]; by eapply ctl_stays].
  bcase (max_tasks <=? zlen (taskMap_ (manager s))); [done|].
  match goal with |- context [set_manager ?m s] => set (m' := m) end.
  assert (Hc' : ctl (set_manager m' s)) by by apply ctl_manager.
  destruct (if taskCount_ _ =? 0 then _ else _).
  - destruct (notify _ _) as [s2|] eqn:Hn; [|done]. intros [= <- <-].
    pose proof (ctl_notify _ _ _ Hc' Hn) as Hc2. destruct (notify_spec _ _ _ Hn) as (_ & _ & _ & _ & _ & Hw & _).
    eapply (ctl_stays s2 s2 t _ (Add_section task timeout)); try done. by apply (woken_awake _ _ t _ Hw).
  - intros [= <- <-]. by eapply (ctl_stays s).
Qed.

Lemma ctl_instruction s t i c s' k : ctl s -> sane_choice c = true -> calls s !! t = Some i ->
  instruction i c s = Some (s', k) -> ctl (continue t k s').
Proof.
  intros Hc Hs Hi. destruct i as [| |[]| |doStop []| | | | | | | | |value]; cbn [instruction]; intros Hsec; try done.
  - by eapply ctl_start.
  - by eapply ctl_start_thread.
  - by eapply ctl_start_wait.
  - by eapply ctl_stop.
  - by eapply ctl_stop_wait; [..|left|].
  - by eapply ctl_stop_clean.
  - revert Hsec. unfold destructor, go, done. destruct (is_state _ _); intros [= <- <-]; by eapply ctl_stays.
  - by eapply ctl_add.
  - by eapply ctl_add_section.
  - by eapply ctl_add_at.
  - revert Hsec. unfold remove, done. destruct (is_state _ _); intros [= <- <-]; by eapply ctl_stays.
  - injection Hsec as <- <-. by eapply ctl_stays.
  - injection Hsec as <- <-. by eapply ctl_stays.
  - injection Hsec as <- <-. by eapply (ctl_stays s).
Qed.

(** ** The dispatcher, and every event *)

Lemma ctl_same s s' : ctl s -> state_ (manager s') = state_ (manager s) -> dispatcher s' = dispatcher s ->
  managed s' = managed s -> calls s' = calls s -> ctl s'.
Proof. intros [Hp Hc Hm Ha] Hst Hd Hmg Hcs. by constructor; rewrite ?Hst, ?Hd, ?Hmg, ?Hcs. Qed.

Lemma ctl_loop c s p : ctl s -> dispatcher s = Some p -> live p = true -> ctl (loop_section c s).
Proof.
  intros Hc Hd Hl. unfold loop_section.
  assert (p <> Entry /\ p <> Finished) as [He Hf] by by destruct p.
  destruct (is_state _ _) eqn:Hst; is_st.
  - destruct (expired _ _).
    + destruct (_ || _)%bool; [|by apply (ctl_same s)].
      eapply (ctl_dispatcher p _ s); try done. by left.
    + eapply (ctl_dispatcher p _ s); try done. by left.
  - eapply (ctl_dispatcher p _ s); try done. by right.
Qed.

Lemma ctl_end c s s' : ctl s -> dispatcher s = Some Ending -> end_section c s = Some s' -> ctl s'.
Proof.
  intros Hc Hd. assert (Hst : state_ (manager s) = STOPPING).
  { destruct Hc as [Hp _ _ _]. rewrite Hd in Hp. destruct (state_ (manager s)); cbn [phase] in Hp; [| | |done|].
    - by destruct Hp.
    - by destruct Hp as (_ & [[? _]|[? _]]).
    - by destruct Hp as (_ & _ & p & [= <-] & ?).
    - by destruct Hp as (_ & [[? _]|?]). }
  unfold end_section, is_state. rewrite bool_decide_true by done.
  apply ctl_notify. destruct Hc as [Hp Hc Hm Ha]. rewrite Hst, Hd in Hp. rewrite Hst, Hd in Hc. constructor; cbn; try done.
  - destruct Hp as [[? _]|[? _]]; [done|]. split; [done|by right].
  - intros t i Hi. specialize (Hc t i Hi). by destruct i as [| |[]| | | | | | | | | | |].
Qed.

(** A dispatcher that is not over has its pointer to the manager. *)
Lemma dispatch_managed c s : ctl s -> dispatch c s =
  match dispatcher s with
  | None | Some Finished | Some (Waiting true _ _) => None
  | Some Entry => Some (entry_section s)
  | Some Looping | Some (Waiting false _ _) => Some (loop_section c s)
  | Some (Running []) => Some (set_dispatcher (if is_state (state_ (manager s)) STARTED then Looping else Ending) s)
  | Some (Running (task :: tasks)) =>
      task' ← (task :: tasks) !! index c;
      Some (set_dispatcher (Running (delete (index c) (task :: tasks))) (set_ran (ran s ++ Task.run task') s))
  | Some Ending => end_section c s
  end.
Proof.
  intros Hc. unfold dispatch. destruct (managed s) eqn:Hm.
  - by destruct (dispatcher s) as [[| |[]|[]| |]|].
  - by rewrite (ctl_managed s Hc Hm).
Qed.

Lemma ctl_dispatch c s s' : ctl s -> dispatch c s = Some s' -> ctl s'.
Proof.
  intros Hc. rewrite dispatch_managed by done.
  destruct (dispatcher s) as [p|] eqn:Hd; [|done]. destruct p as [| |[]|[|task tasks]| |]; try done.
  - intros [= <-]. by apply ctl_entry.
  - intros [= <-]. by eapply ctl_loop.
  - intros [= <-]. by eapply ctl_loop.
  - intros [= <-]. destruct (is_state _ _) eqn:Hst; is_st.
    + eapply (ctl_dispatcher (Running []) _ s); try done. by left.
    + eapply (ctl_dispatcher (Running []) _ s); try done. by right.
  - destruct (_ !! index c) as [task'|]; [|done]. intros [= <-].
    eapply (ctl_dispatcher (Running (task :: tasks)) _ s); try done. by left.
  - by apply ctl_end.
Qed.

Lemma ctl_exec e s s' : ctl s -> sane e = true -> exec e s = Some s' -> ctl s'.
Proof.
  intros Hc Hs. destruct e as [t i|t c|c| |t]; cbn [exec].
  - destruct (calls s !! t) as [j|] eqn:Hj; [done|]. destruct (is_operation i) eqn:Ho; [|done]. intros [= <-].
    destruct Hc as [Hp Hc Hm Ha]. constructor; cbn; try done.
    + rewrite !how_many_fresh by done. by destruct i.
    + intros u j. destruct (decide (t = u)) as [<-|Hne]; [rewrite lookup_insert_eq|rewrite lookup_insert_ne by done; apply Hc].
      intros [= <-]. destruct i; try done; cbn [sane] in Hs; apply andb_prop in Hs; cbn [call_ok]; unfold max_key, max_time in *; lia.
  - destruct (calls s !! t) as [i|] eqn:Hi; [|done]. cbn [mbind option_bind].
    destruct (instruction i c s) as [[s1 k]|] eqn:Hk; [|done]. intros [= <-]. by eapply ctl_instruction.
  - by apply ctl_dispatch.
  - destruct (dispatcher s) as [p|] eqn:Hd; [|done]. cbn. destruct (dispatcher_asleep p); [|done]. intros [= <-].
    apply (ctl_woken s); try done; [apply woken_refl|right; cbn; by rewrite Hd].
  - destruct (calls s !! t) as [i|] eqn:Hi; [|done]. cbn. destruct (call_asleep i) eqn:Ha; [|done]. intros [= <-].
    apply (ctl_woken s); try done; [by apply woken_one|by left].
Qed.

Lemma reachable_ctl s : reachable s -> ctl s.
Proof. induction 1 as [|s e s' _ IH Hs He]; [apply ctl_initial|by eapply ctl_exec]. Qed.
