(* ===== verification/TimerTasks.v ===== *)
(** * Timer manager: the tasks, and how long the dispatcher sleeps

    In every reachable state: the map is in the order of the times and counted by
    [taskCount_]; every task that was added is in it, or was taken by the dispatcher
    when its time had come, or was dropped by [stop]; what was taken is run once; and
    a dispatcher asleep sleeps to the time of the first task. *)

From Stdlib Require Export Sorted.
From S2P Require Export TimerInvariant.

(** ** The multimap *)

Abbreviation entry := (Z * Task.t)%type.
Definition before (a b : entry) : Prop := a.1 <= b.1.

Lemma expired_pending z l : expired z l ++ pending z l = l.
Proof. induction l as [|e l IH]; [done|]. cbn. bcase (e.1 <=? z); [cbn; by rewrite IH|done]. Qed.

Lemma expired_due z l : Forall (fun e => e.1 <= z) (expired z l).
Proof. induction l as [|e l IH]; [constructor|]. cbn. bcase (e.1 <=? z); by constructor. Qed.

Lemma pending_later z l : StronglySorted before l -> Forall (fun e => z < e.1) (pending z l).
Proof.
  induction 1 as [|e l _ IH Hf]; [constructor|]. cbn. bcase (e.1 <=? z); [done|].
  constructor; [done|]. eapply Forall_impl; [exact Hf|]. unfold before. intros. lia.
Qed.

Lemma pending_sorted z l : StronglySorted before l -> StronglySorted before (pending z l).
Proof. induction 1 as [|e l Hl IH Hf]; [constructor|]. cbn. bcase (e.1 <=? z); [done|by constructor]. Qed.

Lemma insert_task_perm key task l : insert_task key task l ≡ₚ (key, task) :: l.
Proof. induction l as [|e l IH]; [done|]. cbn. bcase (e.1 <=? key); [|done]. rewrite IH. constructor. Qed.

Lemma insert_task_sorted key task l : StronglySorted before l -> StronglySorted before (insert_task key task l).
Proof.
  induction 1 as [|e l Hl IH Hf]; [by repeat constructor|]. cbn. bcase (e.1 <=? key).
  - constructor; [done|]. rewrite insert_task_perm. by constructor.
  - repeat constructor; try done; [unfold before; cbn; lia|].
    eapply Forall_impl; [exact Hf|]. unfold before. cbn. intros. lia.
Qed.

Lemma insert_task_length key task l : zlen (insert_task key task l) = zlen l + 1.
Proof. unfold zlen. rewrite (Permutation_length (insert_task_perm key task l)). cbn [length]. lia. Qed.

(** A task that is not before the first does not come first. *)
Lemma insert_task_head key task e l : e.1 <= key -> exists l', insert_task key task (e :: l) = e :: l'.
Proof. intros He. cbn. bcase (e.1 <=? key); [by eexists|lia]. Qed.

(** ** The invariant *)

Definition at_hand (d : option pc) : list Task.t := match d with Some (Running l) => l | _ => [] end.

Definition task_ok (e : entry) : Prop := - max_key < e.1 < max_key /\ Task.state_ e.2 = Task.WAITING.

Record data (s : System) : Prop := Data {
  data_sorted : StronglySorted before (taskMap_ (manager s));
  data_ok : Forall task_ok (taskMap_ (manager s));
  data_size : zlen (taskMap_ (manager s)) <= max_tasks;
  data_count : taskCount_ (manager s) = zlen (taskMap_ (manager s)) + zlen (dropped (manager s));
  data_added : added (manager s) ≡ₚ pairs (taskMap_ (manager s)) ++ map fst (taken (manager s)) ++ dropped (manager s);
  data_taken : Forall (fun x => x.1.1 <= x.2) (taken (manager s));
  data_ran : map (fun x => x.1.2) (taken (manager s)) ≡ₚ ran s ++ map Task.runnable_ (at_hand (dispatcher s));
  data_at_hand : Forall (fun task => Task.executing task = true) (at_hand (dispatcher s));
  data_dropped : state_ (manager s) <> STOPPED -> dropped (manager s) = [];
  data_failed : failed s = false
}.

(** Steps that do nothing to the tasks. *)
Record same_tasks (s s' : System) : Prop := SameTasks {
  same_map : taskMap_ (manager s') = taskMap_ (manager s);
  same_count : taskCount_ (manager s') = taskCount_ (manager s);
  same_added : added (manager s') = added (manager s);
  same_taken : taken (manager s') = taken (manager s);
  same_dropped : dropped (manager s') = dropped (manager s);
  same_ran : ran s' = ran s;
  same_failed : failed s' = failed s;
  same_at_hand : at_hand (dispatcher s') = at_hand (dispatcher s);
  same_state : state_ (manager s) = STOPPED -> state_ (manager s') = STOPPED
}.

Lemma data_same s s' : data s -> same_tasks s s' -> data s'.
Proof.
  intros [] [Hm Hc Ha Ht Hd Hr Hf Hh Hs]. constructor; rewrite ?Hm, ?Hc, ?Ha, ?Ht, ?Hd, ?Hr, ?Hf, ?Hh; try done.
  intros Hst. tauto.
Qed.

Lemma same_tasks_trans s1 s2 s3 : same_tasks s1 s2 -> same_tasks s2 s3 -> same_tasks s1 s3.
Proof. intros [] []. constructor; try congruence. tauto. Qed.

Lemma same_tasks_continue t k s s' : same_tasks s s' -> same_tasks s (continue t k s').
Proof. intros []. destruct k; by constructor. Qed.

Lemma at_hand_wake d : at_hand (wake_dispatcher <$> d) = at_hand d.
Proof. by destruct d as [[]|]. Qed.

Lemma same_tasks_notifyAll s : same_tasks s (notifyAll s).
Proof. constructor; try done. apply at_hand_wake. Qed.

Lemma same_tasks_notify who s s' : notify who s = Some s' -> same_tasks s s'.
Proof.
  intros (Hm & _ & Hr & _ & Hf & _ & Hd)%notify_spec. constructor; rewrite ?Hm, ?Hr, ?Hf; try done.
  destruct Hd as [->|(p & -> & _ & -> & _)]; [done|]. exact (at_hand_wake (Some p)).
Qed.

(** The operations but for the two that have to do with the map. *)
Lemma same_tasks_instruction i c s s' k : instruction i c s = Some (s', k) ->
  match i with Stop_clean | Add_section _ _ => True | Start_thread => dispatcher s = None -> same_tasks s s' | _ => same_tasks s s' end.
Proof.
  assert (Hrefl : same_tasks s s) by by constructor.
  destruct i as [| |[]| |doStop []| | | | | | | | |value]; cbn [instruction]; intros Hsec; try done; revert Hsec.
  - unfold start, go, done. destruct (negb _); [by intros [= <- <-]|].
    destruct (is_state _ _) eqn:Hst; is_st; intros [= <- <-]; [|done]. constructor; try done. cbn. congruence.
  - unfold start_thread, go, done. destruct (ok c); intros [= <- <-] Hd; [|done]. constructor; try done. cbn. by rewrite Hd.
  - unfold start_wait, go, done. destruct (is_state _ _); by intros [= <- <-].
  - rewrite stop_cases. unfold stop_wait, go, done. destruct (state_ (manager s)) eqn:Hst; cbn; rewrite ?Hst; cbn.
    + intros [= <- <-]. by constructor.
    + intros [= <- <-]. eapply same_tasks_trans; [|apply same_tasks_notifyAll]. constructor; try done. cbn. congruence.
    + intros [= <- <-]. eapply same_tasks_trans; [|apply same_tasks_notifyAll]. constructor; try done. cbn. congruence.
    + by intros [= <- <-].
    + by intros [= <- <-].
  - unfold stop_wait, go, done. destruct (negb _); [|destruct doStop]; by intros [= <- <-].
  - unfold destructor, go, done. destruct (is_state _ _); by intros [= <- <-].
  - by intros [= <- <-].
  - unfold add_at, go, done. destruct (_ <? _); by intros [= <- <-].
  - unfold remove, done. destruct (negb _); by intros [= <- <-].
  - by intros [= <- <-].
  - by intros [= <- <-].
  - intros [= <- <-]. by constructor.
Qed.

(** ** The two operations on the map *)

Lemma pairs_insert key task l : pairs (insert_task key task l) ≡ₚ (key, Task.runnable_ task) :: pairs l.
Proof. unfold pairs. by rewrite insert_task_perm. Qed.

Lemma data_add_section s t task timeout c s' k : ctl s -> data s -> calls s !! t = Some (Add_section task timeout) ->
  add_section task timeout c s = Some (s', k) -> data (continue t k s').
Proof.
  intros Hc Hd Hi Hsec. eapply data_same; [|by apply same_tasks_continue; constructor].
  pose proof (ctl_calls s Hc t _ Hi) as Hok. cbn [call_ok] in Hok. revert Hsec. unfold add_section, done.
  destruct (is_state _ _) eqn:Hst; cbn [negb]; is_st; [|by intros [= <- _]].
  bcase (max_tasks <=? zlen (taskMap_ (manager s))); [done|].
  match goal with |- context [set_manager ?m s] => set (m' := m) end.
  assert (data (set_manager m' s)).
  { destruct Hd as [Hso Ht Hz Hn Ha Htk Hr Hh Hdr Hf]. rewrite Hst in Hdr. specialize (Hdr ltac:(done)).
    constructor; cbn; rewrite ?insert_task_length; try done.
    - by apply insert_task_sorted.
    - rewrite insert_task_perm. by constructor.
    - lia.
    - rewrite Hn, Hdr in *. rewrite wrapu_small; unfold in_u; change (zlen (@nil (Z * Runnable))) with 0;
        pose proof (zlen_nonneg (taskMap_ (manager s))); unfold max_tasks in *; lia.
    - rewrite pairs_insert, Ha, <- Permutation_cons_append. done. }
  destruct (if taskCount_ _ =? 0 then _ else _).
  - destruct (notify _ _) as [s2|] eqn:Hno; [|done]. intros [= <- _]. by eapply data_same, same_tasks_notify.
  - by intros [= <- _].
Qed.

Lemma data_stop_clean s t s' k : ctl s -> data s -> calls s !! t = Some Stop_clean ->
  stop_clean s = Some (s', k) -> data (continue t k s').
Proof.
  intros Hc Hd Hi [= <- <-]. assert (Hst : state_ (manager s) = STOPPED).
  { destruct (stopping_phase s t Hc _ Hi eq_refl) as [Hst|[]]; [|done].
    pose proof (ctl_calls s Hc t _ Hi) as Hf. cbn in Hf. pose proof (ctl_phase s Hc) as Hp. rewrite Hst, Hf in Hp.
    destruct Hp as [[? _]|(_ & p & [= <-] & ?)]; done. }
  destruct Hd as [Hso Ht Hz Hn Ha Htk Hr Hh Hdr Hf]. constructor; cbn; try done.
  - constructor.
  - unfold pairs, zlen in *. rewrite length_app, length_map, Hn. cbn [length]. lia.
  - rewrite Ha, (Permutation_app_comm (pairs _)). by rewrite <- app_assoc.
Qed.

(** ** The dispatcher *)

Lemma data_take c s p : data s -> dispatcher s = Some p -> at_hand (Some p) = [] -> state_ (manager s) = STARTED ->
  data (set_dispatcher (Running (map (fun e => Task.start e.2) (expired (now c) (taskMap_ (manager s)))))
         (set_manager (take_expired (now c) (manager s)) s)).
Proof.
  intros [Hso Ht Hz Hn Ha Htk Hr Hh Hdr Hf] Hd Hp Hst. rewrite Hd, Hp in Hr, Hh.
  set (l := taskMap_ (manager s)) in *. pose proof (expired_pending (now c) l) as Hsplit.
  assert (Hlen : zlen l = zlen (expired (now c) l) + zlen (pending (now c) l)) by by rewrite <- zlen_app, Hsplit.
  assert (Hall : Forall task_ok (expired (now c) l) /\ Forall task_ok (pending (now c) l)) by by rewrite <- Forall_app, Hsplit.
  destruct Hall as [He Hpe]. assert (Hnil : dropped (manager s) = []) by (apply Hdr; congruence).
  rewrite Hnil in Hn, Ha. change (zlen (@nil (Z * Runnable))) with 0 in Hn.
  pose proof (zlen_nonneg (expired (now c) l)). pose proof (zlen_nonneg (pending (now c) l)).
  constructor; cbn; fold l; rewrite ?Hnil; try done.
  - by apply pending_sorted.
  - lia.
  - rewrite wrapu_small; unfold in_u; change (zlen (@nil (Z * Runnable))) with 0; unfold max_tasks in *; lia.
  - rewrite Ha, <- Hsplit at 1. unfold pairs. rewrite !map_app, map_map. cbn. rewrite map_id, !app_nil_r.
    rewrite <- !app_assoc. rewrite (Permutation_app_comm (map _ (expired _ _))), <- app_assoc. done.
  - apply Forall_app. split; [done|]. rewrite Forall_map. unfold pairs. rewrite Forall_map. exact (expired_due (now c) l).
  - rewrite map_app, Hr, app_nil_r. unfold pairs. rewrite !map_map. cbn. f_equiv.
    erewrite map_ext_in; [reflexivity|]. intros e Hin. cbn. rewrite Forall_forall in He.
    destruct (He e) as [_ Hw]; [by apply list_elem_of_In|]. unfold Task.start. by rewrite Hw.
  - rewrite Forall_map. eapply Forall_impl; [exact He|]. intros e [_ Hw]. unfold Task.start. by rewrite Hw.
Qed.

Lemma data_run c s tasks task : data s -> dispatcher s = Some (Running tasks) -> tasks !! index c = Some task ->
  data (set_dispatcher (Running (delete (index c) tasks)) (set_ran (ran s ++ Task.run task) s)).
Proof.
  intros [Hso Ht Hz Hn Ha Htk Hr Hh Hdr Hf] Hd Hi. rewrite Hd in Hr, Hh. cbn [at_hand] in Hr, Hh.
  pose proof (delete_Permutation _ _ _ Hi) as Hp. rewrite Hp in Hh. inversion_clear Hh as [|? ? He Hh'].
  constructor; cbn; try done.
  unfold Task.run. rewrite He, Hr, Hp at 1. cbn. by rewrite <- app_assoc.
Qed.

(** Until when the dispatcher sleeps: the time of the first task, as much later as
    the clock had gone on between its two readings. *)
Definition wake_time (late : Z) (l : list entry) : option Z :=
  match l with e :: _ => Some (e.1 + late) | [] => None end.

(** What the section of the loop does while the manager runs: the assertion holds. *)
Lemma loop_section_started c s : data s -> state_ (manager s) = STARTED -> sane_choice c = true ->
  loop_section c s =
  match expired (now c) (taskMap_ (manager s)) with
  | [] => set_dispatcher (Waiting true (wake_time (later c - now c) (taskMap_ (manager s))) (later c - now c)) s
  | gone => set_dispatcher (Running (map (fun e => Task.start e.2) gone)) (set_manager (take_expired (now c) (manager s)) s)
  end.
Proof.
  intros Hd Hst Hs%sane_bounds. unfold loop_section, is_state. rewrite bool_decide_true by done.
  destruct (expired _ _) eqn:He; [|done].
  pose proof (data_count s Hd) as Hn. rewrite (data_dropped s Hd) in Hn by congruence. change (zlen (@nil (Z * Runnable))) with 0 in Hn.
  pose proof (data_ok s Hd) as Hok. destruct (taskMap_ (manager s)) as [|e l]; cbn [wake_time] in *.
  - rewrite Hn. done.
  - inversion_clear Hok as [|? ? [Hk _] _]. cbn [expired] in He. bcase (e.1 <=? now c); [done|]. unfold max_key in Hk.
    rewrite (wraps_small 64 (e.1 - now c)) by (unfold in_s; lia).
    replace (e.1 - now c =? 0) with false by lia.
    replace (0 <? taskCount_ (manager s)) with true by (rewrite Hn; zlist). cbn [negb andb orb].
    rewrite wraps_small by (unfold in_s; lia). do 3 f_equal. lia.
Qed.

Lemma data_end c s s' : ctl s -> data s -> dispatcher s = Some Ending -> end_section c s = Some s' -> data s'.
Proof.
  intros Hc Hd Hdis Hsec. eapply data_same; [exact Hd|]. revert Hsec. unfold end_section.
  assert (Hh : at_hand (dispatcher s) = []) by by rewrite Hdis.
  destruct (is_state _ _) eqn:Hst; is_st.
  - intros Hn%same_tasks_notify. eapply same_tasks_trans; [|exact Hn]. by constructor.
  - intros [= <-]. by constructor.
Qed.

Lemma data_entry s : data s -> dispatcher s = Some Entry -> data (entry_section s).
Proof.
  intros Hd Hdis. eapply data_same; [exact Hd|]. unfold entry_section.
  destruct (is_state _ _) eqn:Hst; is_st; constructor; cbn; try done; rewrite ?Hdis; try done. congruence.
Qed.

(** A step of the dispatcher that takes no task and runs none. *)
Lemma data_goes p q s : data s -> dispatcher s = Some p -> at_hand (Some p) = [] -> at_hand (Some q) = [] ->
  data (set_dispatcher q s).
Proof. intros Hd Hp Hh Hq. eapply data_same; [exact Hd|]. constructor; try done. by rewrite Hp, Hh. Qed.

Lemma data_loop c s p : data s -> sane_choice c = true -> dispatcher s = Some p -> at_hand (Some p) = [] -> data (loop_section c s).
Proof.
  intros Hd Hs Hp Hh. destruct (decide (state_ (manager s) = STARTED)) as [Hst|Hst].
  - rewrite loop_section_started by done. destruct (expired _ _) eqn:He; [by eapply data_goes|].
    rewrite <- He. by eapply data_take.
  - unfold loop_section, is_state. rewrite bool_decide_false by done. by eapply data_goes.
Qed.

Lemma data_dispatch c s s' : ctl s -> data s -> sane_choice c = true -> dispatch c s = Some s' -> data s'.
Proof.
  intros Hc Hd Hs. rewrite dispatch_managed by done.
  destruct (dispatcher s) as [p|] eqn:Hp; [|done]. destruct p as [| |[]|[|task tasks]| |]; try done.
  - intros [= <-]. by apply data_entry.
  - intros [= <-]. by eapply data_loop.
  - intros [= <-]. by eapply data_loop.
  - intros [= <-]. by destruct (is_state _ _); eapply data_goes.
  - destruct ((task :: tasks) !! index c) as [task'|] eqn:Hi; [|done]. intros [= <-]. by apply data_run.
  - by apply data_end.
Qed.

Lemma data_exec e s s' : ctl s -> data s -> sane e = true -> exec e s = Some s' -> data s'.
Proof.
  intros Hc Hd Hs. destruct e as [t i|t c|c| |t]; cbn [exec].
  - destruct (calls s !! t); [done|]. destruct (is_operation i); [|done]. intros [= <-]. eapply data_same; [exact Hd|by constructor].
  - destruct (calls s !! t) as [i|] eqn:Hi; [|done]. cbn [mbind option_bind].
    destruct (instruction i c s) as [[s1 k]|] eqn:Hk; [|done]. intros [= <-].
    pose proof (same_tasks_instruction _ _ _ _ _ Hk) as Hsame.
    destruct i; try (by eapply data_same; [exact Hd|by apply same_tasks_continue]).
    + eapply data_same; [exact Hd|]. apply same_tasks_continue, Hsame. by eapply starting_phase.
    + by eapply data_stop_clean.
    + by eapply data_add_section.
  - by apply data_dispatch.
  - destruct (dispatcher s) as [p|] eqn:Hp; [|done]. cbn. destruct (dispatcher_asleep p); [|done]. intros [= <-].
    eapply data_same; [exact Hd|]. constructor; try done. cbn. rewrite Hp. exact (at_hand_wake (Some p)).
  - destruct (calls s !! t) as [i|] eqn:Hi; [|done]. cbn. destruct (call_asleep i); [|done]. intros [= <-].
    eapply data_same; [exact Hd|by constructor].
Qed.

Lemma reachable_data s : reachable s -> data s.
Proof.
  induction 1 as [|s e s' Hr IH Hs He]; [|by eapply data_exec; [apply reachable_ctl|..]].
  constructor; try done; constructor.
Qed.

(** ** How long the dispatcher sleeps *)

Definition timely (s : System) : Prop :=
  forall u late, dispatcher s = Some (Waiting true u late) -> 0 <= late /\ u = wake_time late (taskMap_ (manager s)).

Definition awake (d : option pc) : Prop := forall u late, d <> Some (Waiting true u late).

Lemma timely_awake s : awake (dispatcher s) -> timely s.
Proof. intros Ha u late Hd. by destruct (Ha u late). Qed.

(** The dispatcher is as it was, or awake, and the map as it was. *)
Lemma timely_same s s' : timely s -> dispatcher s' = dispatcher s \/ awake (dispatcher s') ->
  taskMap_ (manager s') = taskMap_ (manager s) -> timely s'.
Proof. intros Ht [Hd|Ha] Hm; [|by apply timely_awake]. intros u late. rewrite Hd, Hm. apply Ht. Qed.

Lemma awake_wake d : awake (wake_dispatcher <$> d).
Proof. intros u late. by destruct d as [[]|]. Qed.

Lemma timely_continue t k s : timely s -> timely (continue t k s).
Proof. by destruct k. Qed.

Lemma timely_add_section s t task timeout c s' k : ctl s -> data s -> timely s -> calls s !! t = Some (Add_section task timeout) ->
  add_section task timeout c s = Some (s', k) -> timely s'.
Proof.
  intros Hc Hd Ht Hi. unfold add_section, done.
  destruct (is_state _ _) eqn:Hst; cbn [negb]; is_st; [|by intros [= <- _]].
  bcase (max_tasks <=? zlen (taskMap_ (manager s))); [done|].
  match goal with |- context [set_manager ?m s] => set (m' := m) end.
  destruct (if taskCount_ _ =? 0 then _ else _) eqn:Hreq.
  - destruct (notify _ _) as [s2|] eqn:Hno; [|done]. intros [= <- _]. apply timely_awake.
    destruct (dispatcher s) as [p|] eqn:Hp.
    + assert (dispatcher s2 = Some (wake_dispatcher p)) as ->; [|by apply (awake_wake (Some p))].
      eapply notify_wakes; [exact Hno|done|]. exact (no_sleepers s Hc Hst).
    + apply notify_spec in Hno as (_ & _ & _ & _ & _ & _ & [->|(p & Hp' & _)]); cbn in *; congruence.
  - intros [= <- _]. intros u late Hdis. destruct (Ht u late Hdis) as [Hl ->]. split; [done|]. cbn.
    pose proof (data_count s Hd) as Hn. rewrite (data_dropped s Hd) in Hn by congruence. change (zlen (@nil (Z * Runnable))) with 0 in Hn.
    bcase (taskCount_ (manager s) =? 0); [done|].
    destruct (taskMap_ (manager s)) as [|e l] eqn:Hmap; [done|]. bcase (timeout <? e.1); [done|].
    destruct (insert_task_head timeout (Task.constructor task) e l) as [l' ->]; [lia|done].
Qed.

Lemma timely_instruction s t i c s' k : ctl s -> data s -> timely s -> calls s !! t = Some i ->
  instruction i c s = Some (s', k) -> timely s'.
Proof.
  intros Hc Hd Ht Hi Hk. pose proof (same_tasks_instruction _ _ _ _ _ Hk) as Hsame.
  assert (Hgo : same_tasks s s' -> dispatcher s' = dispatcher s \/ awake (dispatcher s') -> timely s').
  { intros Hs Ha. by eapply timely_same; [..|apply same_map]. }
  destruct i as [| |[]| |doStop []| | |task timeout|task timeout|task expiration| | | |]; cbn [instruction] in Hk; try done;
    try (apply Hgo; [exact Hsame|]; revert Hk).
  - unfold start, go, done. destruct (negb _); [|destruct (is_state _ _)]; intros [= <- <-]; by left.
  - apply Hgo; [by apply Hsame; eapply starting_phase|]. revert Hk. unfold start_thread, go, done.
    destruct (ok c); intros [= <- <-]; [by right|by left].
  - unfold start_wait, go, done. destruct (is_state _ _); intros [= <- <-]; by left.
  - rewrite stop_cases. unfold stop_wait, go, done.
    destruct (state_ (manager s)) eqn:Hst; cbn; rewrite ?Hst; cbn; intros [= <- <-]; try (by left);
      right; exact (awake_wake (dispatcher s)).
  - unfold stop_wait, go, done. destruct (negb _); [|destruct doStop]; intros [= <- <-]; by left.
  - apply timely_awake. injection Hk as <- <-. cbn. intros u late. rewrite (ctl_calls s Hc t _ Hi). done.
  - unfold destructor, go, done. destruct (is_state _ _); intros [= <- <-]; by left.
  - unfold add, go. intros [= <- <-]. by left.
  - by eapply timely_add_section.
  - unfold add_at, go, done. destruct (_ <? _); intros [= <- <-]; by left.
  - unfold remove, done. destruct (negb _); intros [= <- <-]; by left.
  - intros [= <- <-]. by left.
  - intros [= <- <-]. by left.
  - intros [= <- <-]. by left.
Qed.

Lemma timely_dispatch c s s' : ctl s -> data s -> timely s -> sane_choice c = true -> dispatch c s = Some s' -> timely s'.
Proof.
  intros Hc Hd Ht Hs. rewrite dispatch_managed by done.
  assert (Hloop : timely (loop_section c s)).
  { destruct (decide (state_ (manager s) = STARTED)) as [Hst|Hst].
    - rewrite loop_section_started by done. destruct (expired _ _); [|by apply timely_awake].
      intros u late [= <- <-]. split; [|done]. apply sane_bounds in Hs. lia.
    - unfold loop_section, is_state. rewrite bool_decide_false by done. by apply timely_awake. }
  destruct (dispatcher s) as [p|] eqn:Hp; [|done]. destruct p as [| |[]|[|task tasks]| |]; try done.
  - intros [= <-]. apply timely_awake. unfold entry_section. by destruct (is_state _ _).
  - by intros [= <-].
  - by intros [= <-].
  - intros [= <-]. apply timely_awake. by destruct (is_state _ _).
  - destruct (_ !! index c); [|done]. intros [= <-]. by apply timely_awake.
  - unfold end_section. destruct (is_state _ _); [|by intros [= <-]].
    intros Hn%notify_spec. destruct Hn as (_ & _ & _ & _ & _ & _ & Hdis). apply timely_awake. cbn in Hdis.
    destruct Hdis as [->|(p & [= <-] & ? & _)]; done.
Qed.

Lemma timely_exec e s s' : ctl s -> data s -> timely s -> sane e = true -> exec e s = Some s' -> timely s'.
Proof.
  intros Hc Hd Ht Hs. destruct e as [t i|t c|c| |t]; cbn [exec].
  - destruct (calls s !! t); [done|]. destruct (is_operation i); [|done]. by intros [= <-].
  - destruct (calls s !! t) as [i|] eqn:Hi; [|done]. cbn [mbind option_bind].
    destruct (instruction i c s) as [[s1 k]|] eqn:Hk; [|done]. intros [= <-].
    apply timely_continue. by eapply timely_instruction.
  - by apply timely_dispatch.
  - destruct (dispatcher s) as [p|] eqn:Hp; [|done]. cbn. destruct (dispatcher_asleep p); [|done]. intros [= <-].
    apply timely_awake. exact (awake_wake (Some p)).
  - destruct (calls s !! t) as [i|]; [|done]. cbn. destruct (call_asleep i); [|done]. by intros [= <-].
Qed.

Lemma reachable_timely s : reachable s -> timely s.
Proof.
  induction 1 as [|s e s' Hr IH Hs He]; [by apply timely_awake|].
  by eapply timely_exec; [apply reachable_ctl|apply reachable_data|..].
Qed.
