(* ===== verification/TimerStop.v ===== *)
(** * Timer manager: how it stops

    In [STOPPING] every step of the dispatcher brings it nearer to its end, and nothing
    else moves it.  Once [STOPPED] nobody wakes anyone any more. *)

From S2P Require Export TimerTasks.

(** How many steps the dispatcher has still to take once the manager is stopping. *)
Definition pc_left (p : pc) : Z :=
  match p with
  | Entry => 4
  | Looping | Waiting _ _ _ => 3
  | Running tasks => 2 + zlen tasks
  | Ending => 1
  | Finished => 0
  end.
Definition dispatch_left (s : System) : Z := from_option pc_left 0 (dispatcher s).

Definition is_dispatch (e : event) : bool := match e with Dispatch _ => true | _ => false end.

(** The steps of the dispatcher in a run. *)
Fixpoint dispatches (es : list event) : Z :=
  match es with [] => 0 | e :: es => Z.b2z (is_dispatch e) + dispatches es end.

Lemma pc_left_nonneg p : 0 <= pc_left p.
Proof. destruct p as [| | |tasks| |]; cbn; pose proof (zlen_nonneg (@nil Z)); try lia. pose proof (zlen_nonneg tasks). lia. Qed.

(** The manager has been told to stop; its thread has been made. *)
Definition halting (s : System) : Prop :=
  dispatcher s <> None /\
  (state_ (manager s) = STOPPING \/ state_ (manager s) = STOPPED /\ dispatcher s = Some Finished).

Lemma halting_finished s : ctl s -> halting s -> state_ (manager s) = STOPPING -> dispatcher s <> Some Finished.
Proof.
  intros Hc [Hd _] Hst Hf. pose proof (ctl_phase s Hc) as Hp. rewrite Hst, Hf in Hp.
  destruct Hp as [[? _]|(_ & p & [= <-] & ?)]; done.
Qed.

(** What operations do to a manager that is stopping or has stopped: they leave it, and
    wake nobody; one may still make the thread. *)
Lemma late_instruction s i c s' k : state_ (manager s) = STOPPING \/ state_ (manager s) = STOPPED ->
  instruction i c s = Some (s', k) ->
  state_ (manager s') = state_ (manager s) /\ calls s' = calls s /\ taken (manager s') = taken (manager s) /\
  (dispatcher s' = dispatcher s \/ i = Start_thread).
Proof.
  intros Hst. destruct i as [| |[]| |doStop []| | | | | | | | |value]; cbn [instruction]; try done.
  - unfold start, go, done. destruct (negb _); [intros [= <- <-]; tauto|].
    destruct (is_state _ _) eqn:Hs; is_st; [by destruct Hst; congruence|]. intros [= <- <-]. tauto.
  - unfold start_thread, go, done. destruct (ok c); intros [= <- <-]; cbn; tauto.
  - unfold start_wait, go, done. destruct (is_state _ _); intros [= <- <-]; tauto.
  - rewrite stop_cases. unfold stop_wait, go, done.
    destruct Hst as [Hs|Hs]; rewrite Hs; unfold is_state; rewrite bool_decide_decide; cbn; intros [= <- <-]; rewrite ?Hs; tauto.
  - unfold stop_wait, go, done. destruct (negb _); [|destruct doStop]; intros [= <- <-]; tauto.
  - intros [= <- <-]. cbn. tauto.
  - unfold destructor, go, done. destruct (is_state _ _); intros [= <- <-]; tauto.
  - intros [= <- <-]. tauto.
  - unfold add_section, done, is_state. rewrite bool_decide_false by (by destruct Hst; congruence). intros [= <- <-]. tauto.
  - unfold add_at, go, done. destruct (_ <? _); intros [= <- <-]; tauto.
  - unfold remove, done. destruct (negb _); intros [= <- <-]; tauto.
  - intros [= <- <-]. tauto.
  - intros [= <- <-]. tauto.
  - intros [= <- <-]. cbn. tauto.
Qed.

Lemma halting_instruction s t i c s' k : ctl s -> halting s -> calls s !! t = Some i -> instruction i c s = Some (s', k) ->
  state_ (manager s') = state_ (manager s) /\ dispatcher s' = dispatcher s /\ calls s' = calls s /\
  taken (manager s') = taken (manager s).
Proof.
  intros Hc [Hd Hst] Hi Hk. destruct (late_instruction s i c s' k) as (? & ? & ? & Hcase); [tauto|done|].
  split; [done|]. split; [|done]. destruct Hcase as [| ->]; [done|]. by destruct (starting_phase s t Hc Hi).
Qed.

(** A step of the dispatcher while the manager is stopping. *)
Lemma halting_dispatch c s s' : ctl s -> halting s -> dispatch c s = Some s' ->
  halting s' /\ dispatch_left s' < dispatch_left s /\ taken (manager s') = taken (manager s) /\
  (state_ (manager s') = STOPPING -> calls s' = calls s) /\
  (state_ (manager s') = STOPPED -> how_many call_asleep (calls s') = Z.max 0 (how_many call_asleep (calls s) - 1)).
Proof.
  intros Hc Hh. destruct Hh as [Hd [Hst|[Hst Hf]]]; rewrite dispatch_managed by done; [|by rewrite Hf].
  unfold dispatch_left. destruct (dispatcher s) as [p|] eqn:Hp; [|done].
  destruct p as [| |[]|[|task tasks]| |]; cbn [from_option]; try done.
  - unfold entry_section, is_state. rewrite bool_decide_false by congruence. intros [= <-]. cbn. rewrite Hst.
    split; [by split; [|left]|]. by repeat split.
  - unfold loop_section, is_state. rewrite bool_decide_false by congruence. intros [= <-]. cbn. rewrite Hst.
    split; [by split; [|left]|]. by repeat split.
  - unfold loop_section, is_state. rewrite bool_decide_false by congruence. intros [= <-]. cbn. rewrite Hst.
    split; [by split; [|left]|]. by repeat split.
  - unfold is_state. rewrite bool_decide_false by congruence. intros [= <-]. cbn. rewrite Hst.
    split; [by split; [|left]|]. by repeat split.
  - destruct (_ !! index c) as [task'|] eqn:Hi; [|done]. intros [= <-]. cbn [set_dispatcher set_ran dispatcher manager calls from_option pc_left].
    rewrite Hst. split; [by split; [|left]|]. split; [|by repeat split].
    unfold zlen. rewrite length_delete by (by eexists). cbn [length]. lia.
  - unfold end_section, is_state. rewrite bool_decide_true by done. intros Hn.
    pose proof (notify_spec _ _ _ Hn) as (Hm & _ & _ & _ & _ & _ & Hdis).
    assert (Hdis' : dispatcher s' = Some Finished) by (destruct Hdis as [|(p & [= <-] & ? & _)]; done).
    unfold halting. rewrite Hm, Hdis'. cbn. split; [by split; [|right]|]. split; [done|]. split; [done|]. split; [done|].
    intros _. revert Hn. unfold notify. cbn. destruct (chosen c) as [t|]; [|done].
    destruct (Monitors.notify _ _ _ _) as [cs|] eqn:Hcs; [|done]. intros [= <-]. exact (notify_sleepers call_asleep wake_call t _ _ Hcs).
Qed.

(** While it is stopping, the dispatcher can go on. *)
Lemma halting_enabled s : ctl s -> state_ (manager s) = STOPPING -> dispatcher s <> None ->
  exists c s', sane_choice c = true /\ dispatch c s = Some s'.
Proof.
  intros Hc Hst Hd. pose proof (halting_finished s Hc ltac:(by split; [|left]) Hst) as Hf.
  destruct (notify_enabled call_asleep wake_call (calls s)) as (t & cs & Hcs).
  exists (Choose (Some t) 0 0 0 true). setoid_rewrite dispatch_managed; [|done].
  pose proof (ctl_asleep s Hc) as Ha.
  destruct (dispatcher s) as [p|]; [|done]. destruct p as [| |[]|[|task tasks]| |]; try done; try (by eexists).
  - specialize (Ha _ _ eq_refl). congruence.
  - eexists. split; [done|]. unfold end_section, is_state. rewrite bool_decide_true by done. unfold notify. cbn. by rewrite Hcs.
Qed.

Definition taken_kept (s s' : System) : Prop := taken (manager s') = taken (manager s).

Lemma halting_exec e s s' : ctl s -> halting s -> exec e s = Some s' ->
  halting s' /\ dispatch_left s' <= dispatch_left s - Z.b2z (is_dispatch e) /\ taken_kept s s'.
Proof.
  intros Hc Hh. unfold taken_kept. destruct e as [t i|t c|c| |t]; cbn [exec is_dispatch Z.b2z].
  - destruct (calls s !! t); [done|]. destruct (is_operation i); [|done]. intros [= <-]. split; [done|]. unfold dispatch_left. cbn. split; [lia|done].
  - destruct (calls s !! t) as [i|] eqn:Hi; [|done]. cbn [mbind option_bind].
    destruct (instruction i c s) as [[s1 k]|] eqn:Hk; [|done]. intros [= <-].
    destruct (halting_instruction _ _ _ _ _ _ Hc Hh Hi Hk) as (Hst & Hd & _ & Ht).
    assert (Hk' : manager (continue t k s1) = manager s1 /\ dispatcher (continue t k s1) = dispatcher s1) by by destruct k.
    destruct Hk' as [Hm' Hd']. unfold halting, dispatch_left. rewrite Hm', Hd', Hst, Hd, Ht. split; [done|]. split; [lia|done].
  - intros Hdis. destruct (halting_dispatch c s s' Hc Hh Hdis) as (? & ? & ? & _). split; [done|]. split; [lia|done].
  - destruct (dispatcher s) as [p|] eqn:Hp; [|done]. cbn. destruct (dispatcher_asleep p) eqn:Ha; [|done]. intros [= <-].
    unfold halting, dispatch_left in *. rewrite Hp in *. destruct p as [| |[]| | |]; try done. cbn. split; [|split; [lia|done]].
    split; [done|]. destruct Hh as [_ [?|[_ [=]]]]. by left.
  - destruct (calls s !! t) as [i|]; [|done]. cbn. destruct (call_asleep i); [|done]. intros [= <-].
    split; [done|]. unfold dispatch_left. cbn. split; [lia|done].
Qed.

(** Any run from there. *)
Lemma halting_run es s s' : reachable s -> halting s -> Forall (fun e => sane e = true) es -> exec_all es s = Some s' ->
  reachable s' /\ halting s' /\ dispatch_left s' <= dispatch_left s - dispatches es /\ taken_kept s s'.
Proof.
  revert s. induction es as [|e es IH]; intros s Hr Hh Hs; cbn [exec_all].
  - intros [= <-]. split; [done|]. split; [done|]. split; [cbn [dispatches]; lia|done].
  - inversion_clear Hs as [|? ? He Hes]. destruct (exec e s) as [s1|] eqn:Hex; [|done]. cbn. intros Hrest.
    pose proof (reachable_ctl s Hr) as Hc. destruct (halting_exec e s s1 Hc Hh Hex) as (Hh1 & Hl & Ht).
    destruct (IH s1) as (? & ? & Hl' & Ht'); [by eapply reachable_step|done..|]. split; [done|]. split; [done|].
    unfold taken_kept in *. cbn [dispatches]. split; [lia|congruence].
Qed.

(** ** After the end *)

(** Once the manager has stopped nothing wakes a thread asleep in [stop]. *)
Lemma stopped_asleep e s s' t doStop : ctl s -> exec e s = Some s' -> state_ (manager s) = STOPPED ->
  calls s !! t = Some (Stop_wait doStop true) -> e <> WakeCall t ->
  calls s' !! t = Some (Stop_wait doStop true) /\ state_ (manager s') = STOPPED.
Proof.
  intros Hc Hex Hst Ht Hne. destruct (stopping_phase s t Hc _ Ht eq_refl) as [|[_ Hd]]; [congruence|].
  assert (Hh : halting s) by (split; [by rewrite Hd|by right]). revert Hex.
  destruct e as [u i|u c|c| |u]; cbn [exec].
  - destruct (calls s !! u) eqn:Hu; [done|]. destruct (is_operation i); [|done]. intros [= <-]. cbn.
    split; [|done]. rewrite lookup_insert_ne; [done|]. intros ->. congruence.
  - destruct (calls s !! u) as [i|] eqn:Hu; [|done]. cbn [mbind option_bind].
    destruct (instruction i c s) as [[s1 k]|] eqn:Hk; [|done]. intros [= <-].
    destruct (halting_instruction _ _ _ _ _ _ Hc Hh Hu Hk) as (Hst1 & _ & Hcs & _).
    assert (Hut : u <> t) by (intros ->; rewrite Hu in Ht; injection Ht as ->; done).
    rewrite calls_continue, Hcs. split; [|by destruct k; cbn; rewrite Hst1].
    destruct k; cbn [next_calls]; [by rewrite lookup_insert_ne|by rewrite lookup_delete_ne].
  - rewrite dispatch_managed by done. by rewrite Hd.
  - by rewrite Hd.
  - destruct (calls s !! u) as [i|] eqn:Hu; [|done]. cbn. destruct (call_asleep i); [|done]. intros [= <-]. cbn.
    split; [|done]. rewrite lookup_insert_ne; [done|]. congruence.
Qed.

(** Only the last step of the dispatcher makes a manager that is stopping stopped. *)
Lemma stopping_wakes_one e s s' : ctl s -> exec e s = Some s' ->
  state_ (manager s) = STOPPING -> state_ (manager s') = STOPPED ->
  how_many call_asleep (calls s') = Z.max 0 (how_many call_asleep (calls s) - 1).
Proof.
  intros Hc Hex Hst Hst'. revert Hex. destruct e as [t i|t c|c| |t]; cbn [exec].
  - destruct (calls s !! t); [done|]. destruct (is_operation i); [|done]. intros [= <-]. cbn in Hst'. congruence.
  - destruct (calls s !! t) as [i|] eqn:Hi; [|done]. cbn [mbind option_bind].
    destruct (instruction i c s) as [[s1 k]|] eqn:Hk; [|done]. intros [= <-].
    assert (state_ (manager s1) = STOPPED) as Hs1 by by destruct k.
    destruct (late_instruction s i c s1 k) as (? & _); [by left|done|congruence].
  - intros Hdis. destruct (decide (dispatcher s = None)) as [Hd|Hd].
    + unfold dispatch in Hdis. by rewrite Hd in Hdis.
    + destruct (halting_dispatch c s s' Hc) as (_ & _ & _ & _ & Hw); [by split; [|left]|done|]. by apply Hw.
  - destruct (dispatcher s); [|done]. cbn. destruct (dispatcher_asleep _); [|done]. intros [= <-]. cbn in Hst'. congruence.
  - destruct (calls s !! t) as [i|]; [|done]. cbn. destruct (call_asleep i); [|done]. intros [= <-]. cbn in Hst'. congruence.
Qed.

(** ** A thread that could not be made *)

(** [start] has set [STARTING], or [stop] after it [STOPPING], and nobody is left to make
    the dispatcher's thread. *)
Definition stranded (s : System) : Prop :=
  dispatcher s = None /\ how_many starting (calls s) = 0 /\
  (state_ (manager s) = STARTING \/ state_ (manager s) = STOPPING).

Lemma stranded_instruction s t i c s' k : stranded s -> calls s !! t = Some i -> instruction i c s = Some (s', k) ->
  dispatcher s' = None /\ (calls s' = calls s \/ calls s' = calls (notifyAll s)) /\
  (state_ (manager s') = STARTING \/ state_ (manager s') = STOPPING) /\
  match k with Next Start_thread => False | _ => True end.
Proof.
  intros (Hd & Hn & Hst) Hi. pose proof (how_many_none starting _ t _ Hn Hi) as Hstart.
  assert (Hs : is_state (state_ (manager s)) UNINITIALIZED = false /\ is_state (state_ (manager s)) STARTED = false /\
    is_state (state_ (manager s)) STOPPED = false) by (by destruct Hst as [->| ->]).
  destruct Hs as (Hu & Hr & Hp).
  destruct i as [| |[]| |doStop []| | | | | | | | |value]; cbn in Hstart; cbn [instruction]; try done.
  - unfold start, go, done. rewrite Hu. destruct (negb _); intros [= <- <-]; tauto.
  - unfold start_wait, go, done. destruct (is_state _ STARTING); intros [= <- <-]; tauto.
  - rewrite stop_cases. unfold stop_wait, go, done. destruct Hst as [Hs|Hs]; rewrite Hs; cbn; rewrite ?Hs; cbn; intros [= <- <-]; cbn; rewrite ?Hd; tauto.
  - unfold stop_wait, go, done. rewrite Hp. cbn. intros [= <- <-]. tauto.
  - intros [= <- <-]. cbn. tauto.
  - unfold destructor, go, done. rewrite Hp. intros [= <- <-]. tauto.
  - intros [= <- <-]. tauto.
  - unfold add_section, done. rewrite Hr. intros [= <- <-]. tauto.
  - unfold add_at, go, done. destruct (_ <? _); intros [= <- <-]; tauto.
  - unfold remove, done. rewrite Hr. intros [= <- <-]. tauto.
  - intros [= <- <-]. tauto.
  - intros [= <- <-]. tauto.
  - intros [= <- <-]. cbn. tauto.
Qed.

Lemma stranded_exec e s s' : stranded s -> exec e s = Some s' -> stranded s'.
Proof.
  intros Hstr. pose proof Hstr as (Hd & Hn & Hst). unfold stranded. destruct e as [t i|t c|c| |t]; cbn [exec].
  - destruct (calls s !! t) eqn:Ht; [done|]. destruct (is_operation i) eqn:Ho; [|done]. intros [= <-]. cbn.
    rewrite how_many_fresh, Hn by done. by destruct i.
  - destruct (calls s !! t) as [i|] eqn:Hi; [|done]. cbn [mbind option_bind].
    destruct (instruction i c s) as [[s1 k]|] eqn:Hk; [|done]. intros [= <-].
    destruct (stranded_instruction s t i c s1 k Hstr Hi Hk) as (Hd1 & Hcs & Hst1 & Hk1).
    assert (Hw : woken call_asleep wake_call (calls s) (calls s1)).
    { destruct Hcs as [->| ->]; [apply woken_refl|apply notifyAll_woken]. }
    destruct (woken_calls _ _ Hw) as [Hn1 _]. destruct (woken_split _ _ _ _ t i Hw Hi) as (j & Hj & _).
    rewrite calls_continue, (how_many_next _ t k _ j Hj), Hn1, Hn.
    pose proof (how_many_none starting _ t _ (eq_trans Hn1 Hn) Hj) as ->.
    split; [by destruct k|]. split; [|by destruct k]. destruct k as [[]|]; done.
  - unfold dispatch. by rewrite Hd.
  - by rewrite Hd.
  - destruct (calls s !! t) as [i|] eqn:Hi; [|done]. cbn. destruct (call_asleep i) eqn:Ha; [|done]. intros [= <-]. cbn.
    rewrite (how_many_update _ _ _ _ _ Hi), Hn. by destruct i.
Qed.
