(* ===== verification/TimerTheorems.v ===== *)
(** * Theorems on the timer manager

    What becomes of the tasks, how long the dispatcher sleeps and what it does when it
    wakes, how the manager stops, and whom its stop leaves asleep; each with a
    concrete run. *)

From S2P Require Export TimerStop.

(** ** Runs *)

Lemma timer_run_reachable es s s' : reachable s -> Forall (fun e => sane e = true) es -> exec_all es s = Some s' -> reachable s'.
Proof.
  revert s. induction es as [|e es IH]; intros s Hr Hs; cbn [exec_all]; [by intros [= <-]|].
  inversion_clear Hs. destruct (exec e s) as [s1|] eqn:He; [|done]. cbn. apply IH; [by eapply reachable_step|done].
Qed.

(** The state after a run from the start, [initial] if it is not a run. *)
Definition after (es : list event) : System := default initial (exec_all es initial).

Definition is_run (es : list event) : bool := forallb sane es && bool_decide (is_Some (exec_all es initial)).

Lemma timer_after_reachable es : is_run es = true -> reachable (after es).
Proof.
  unfold after. intros [Hs [s He]%bool_decide_eq_true]%andb_prop. rewrite He.
  eapply timer_run_reachable; [constructor| |exact He]. apply Forall_forall. intros e Hin.
  rewrite forallb_forall in Hs. by apply Hs, list_elem_of_In.
Qed.

Definition at_time (z : Z) : choice := Choose None 0 z z true.
Definition waking (t : tid) : choice := Choose (Some t) 0 1000 1000 true.

(** Thread 1 starts a manager; its dispatcher goes to sleep. *)
Definition started : list event :=
  [Call 1 (SetThreadFactory true); Step 1 (at_time 0); Call 1 Start; Step 1 (at_time 0); Step 1 (at_time 0);
   Dispatch (at_time 0); Step 1 (at_time 0); Dispatch (at_time 0)].

(** At 1000, thread 2 adds a task for 1050 and one for 1200; the dispatcher, which
    read the clock twice, sleeps until 1052. *)
Definition adding : list event :=
  started ++ [Call 2 (Add 7 50); Step 2 (at_time 1000); Step 2 (at_time 1000);
    Dispatch (Choose None 0 1000 1002 true); Call 2 (Add 8 200); Step 2 (at_time 1000); Step 2 (at_time 1000)].

(** The first task is run at 1055. *)
Definition serving : list event :=
  adding ++ [WakeDispatcher; Dispatch (at_time 1055); Dispatch (at_time 1055); Dispatch (at_time 1055); Dispatch (at_time 1060)].

(** ** The tasks *)

(** C9. Timer manager: in every state the program can reach, whatever the threads,
    the scheduler, the clock and spurious wakeups do, no assertion has failed; every
    task that was added is, as often as it was added, in the map, or was taken by the
    dispatcher, at or after its time, or was dropped by [stop] once the manager had
    stopped; each task that was taken has been run once, but for those the dispatcher
    has still at hand; and [taskCount] is the number of tasks in the map and of those
    that were dropped. *)
Theorem timer_tasks (s : System) :
  reachable s ->
  failed s = false /\
  added (manager s) ≡ₚ pairs (taskMap_ (manager s)) ++ map fst (taken (manager s)) ++ dropped (manager s) /\
  (state (manager s) = STOPPED \/ dropped (manager s) = []) /\
  Forall (fun x => x.1.1 <= x.2) (taken (manager s)) /\
  map (fun x => x.1.2) (taken (manager s)) ≡ₚ ran s ++ map Task.runnable_ (at_hand (dispatcher s)) /\
  taskCount (manager s) = zlen (taskMap_ (manager s)) + zlen (dropped (manager s)).
Proof.
  intros []%reachable_data. unfold state, taskCount. split; [done|]. split; [done|]. split; [|done].
  destruct (decide (state_ (manager s) = STOPPED)); [by left|right; auto].
Qed.

Lemma timer_tasks_witness :
  let s := after serving in
  reachable s /\ failed s = false /\ taskCount (manager s) = 1 /\
  added (manager s) ≡ₚ [(1200, 8%nat); (1050, 7%nat)] /\ [7%nat] ≡ₚ ran s.
Proof.
  intros s. assert (Hr : reachable s) by (apply timer_after_reachable; vm_compute; reflexivity).
  destruct (timer_tasks s Hr) as (Hf & Ha & _ & _ & Hran & Hn).
  split; [exact Hr|]. split; [exact Hf|]. split; [rewrite Hn; vm_compute; reflexivity|].
  split; [rewrite Ha; vm_compute; reflexivity|].
  revert Hran. vm_compute. auto.
Defined.

(** C10. Timer manager: in every reachable state, a dispatcher that sleeps does so while
    the manager is started, and until the time of the first task, or until it is
    notified if there is none, later only by as much as passed between its two
    readings of the clock; and one that is about to look at the tasks takes all whose
    time has come, in the order of their times and none else, and sleeps only if there
    are none. *)
Theorem timer_in_time (s : System) :
  reachable s ->
  (forall until late, dispatcher s = Some (Waiting true until late) ->
     state (manager s) = STARTED /\ 0 <= late /\ StronglySorted before (taskMap_ (manager s)) /\
     until = match taskMap_ (manager s) with [] => None | first :: _ => Some (first.1 + late) end) /\
  (forall c, sane_choice c = true -> state (manager s) = STARTED ->
     dispatcher s = Some Looping \/ (exists until late, dispatcher s = Some (Waiting false until late)) ->
     exists s' due, exec (Dispatch c) s = Some s' /\ taskMap_ (manager s) = due ++ taskMap_ (manager s') /\
       Forall (fun e => e.1 <= now c) due /\ Forall (fun e => now c < e.1) (taskMap_ (manager s')) /\
       taken (manager s') = taken (manager s) ++ map (fun e => (e, now c)) (pairs due) /\
       dispatcher s' = Some match due with
                            | [] => Waiting true (wake_time (later c - now c) (taskMap_ (manager s))) (later c - now c)
                            | _ => Running (map (fun e => Task.start e.2) due)
                            end).
Proof.
  intros Hr. pose proof (reachable_ctl s Hr) as Hc. pose proof (reachable_data s Hr) as Hd. split.
  - intros u late Hp. destruct (reachable_timely s Hr u late Hp) as [? ->].
    split; [by eapply ctl_asleep|]. split; [done|]. split; [apply Hd|done].
  - intros c Hs Hst Hp. set (l := taskMap_ (manager s)). exists (loop_section c s), (expired (now c) l).
    assert (Hdis : exec (Dispatch c) s = Some (loop_section c s)).
    { cbn [exec]. rewrite dispatch_managed by done. by destruct Hp as [->|(u & late & ->)]. }
    assert (Hrest : taskMap_ (manager (loop_section c s)) = pending (now c) l /\
      taken (manager (loop_section c s)) = taken (manager s) ++ map (fun e => (e, now c)) (pairs (expired (now c) l))).
    { rewrite loop_section_started by done. fold l. pose proof (expired_pending (now c) l) as Hsplit.
      destruct (expired (now c) l) eqn:He; cbn [manager set_dispatcher set_manager].
      - cbn. by rewrite app_nil_r.
      - unfold take_expired. fold l. by rewrite He. }
    destruct Hrest as [Hm Ht]. rewrite Hm. split; [done|]. split; [symmetry; apply expired_pending|].
    split; [apply expired_due|]. split; [apply pending_later, Hd|]. split; [done|].
    rewrite loop_section_started by done. fold l. by destruct (expired (now c) l).
Qed.

Lemma timer_in_time_witness :
  let s := after adding in
  reachable s /\ dispatcher s = Some (Waiting true (Some 1052) 2) /\ state (manager s) = STARTED /\
  exists s', exec (Dispatch (at_time 1055)) (after (adding ++ [WakeDispatcher])) = Some s' /\
    Forall (fun e => 1055 < e.1) (taskMap_ (manager s')).
Proof.
  intros s. assert (Hr : reachable s) by (apply timer_after_reachable; vm_compute; reflexivity).
  assert (Hp : dispatcher s = Some (Waiting true (Some 1052) 2)) by (vm_compute; reflexivity).
  split; [exact Hr|]. split; [exact Hp|]. split; [exact (proj1 (proj1 (timer_in_time s Hr) _ _ Hp))|].
  assert (Hr' : reachable (after (adding ++ [WakeDispatcher]))) by (apply timer_after_reachable; vm_compute; reflexivity).
  destruct (proj2 (timer_in_time _ Hr') (at_time 1055)) as (s' & due & He & _ & _ & Hl & _);
    [reflexivity|vm_compute; reflexivity|right; eexists _, _; vm_compute; reflexivity|].
  exists s'. split; [exact He|exact Hl].
Defined.

(** ** Stopping *)

(** C11. Timer manager: once [stop] has been called on a manager whose thread has been
    made, its dispatcher, wherever it is and whatever else happens, takes at most
    [dispatch_left] more steps; as long as the manager is stopping the dispatcher can
    take one; and when it takes no more the manager is stopped, no task was taken since,
    and each task that was taken before has been run, once. *)
Theorem timer_stops (s s' : System) (es : list event) :
  reachable s -> state (manager s) = STOPPING -> dispatcher s <> None ->
  Forall (fun e => sane e = true) es -> exec_all es s = Some s' ->
  dispatches es <= dispatch_left s /\
  (state (manager s') = STOPPING /\ (exists c s'', sane_choice c = true /\ exec (Dispatch c) s' = Some s'') \/
   state (manager s') = STOPPED /\ dispatcher s' = Some Finished /\ failed s' = false /\
   taken (manager s') = taken (manager s) /\ map (fun x => x.1.2) (taken (manager s)) ≡ₚ ran s').
Proof.
  intros Hr Hst Hd Hs Hrun.
  destruct (halting_run es s s' Hr) as (Hr' & [Hd' Hcase] & Hl & Ht); [by split; [|left]|done..|].
  assert (0 <= dispatch_left s').
  { unfold dispatch_left. destruct (dispatcher s'); [apply pc_left_nonneg|done]. }
  split; [lia|]. destruct Hcase as [Hst'|[Hst' Hf]].
  - left. split; [done|]. by apply halting_enabled; [apply reachable_ctl|..].
  - right. pose proof (reachable_data s' Hr') as Hda. pose proof (data_ran s' Hda) as Hran.
    rewrite Ht, Hf in Hran. cbn in Hran. rewrite app_nil_r in Hran.
    split; [done|]. split; [done|]. split; [apply Hda|]. by split.
Qed.

(** Thread 3 calls [stop] while the dispatcher has a task at hand. *)
Definition stopping_now : list event :=
  adding ++ [WakeDispatcher; Dispatch (at_time 1055); Call 3 Stop; Step 3 (at_time 1056)].

Definition stop_run : list event :=
  [Dispatch (at_time 1057); Dispatch (at_time 1058); Dispatch (waking 3); Step 3 (at_time 1060); Step 3 (at_time 1060)].

Lemma timer_stops_witness :
  let s := after stopping_now in
  let s' := after (stopping_now ++ stop_run) in
  reachable s /\ exec_all stop_run s = Some s' /\ dispatches stop_run <= dispatch_left s /\
  state (manager s') = STOPPED /\ ran s' = [7%nat] /\ dropped (manager s') = [(1200, 8%nat)] /\ taskCount (manager s') = 1.
Proof.
  intros s s'. assert (Hr : reachable s) by (apply timer_after_reachable; vm_compute; reflexivity).
  assert (Hrun : exec_all stop_run s = Some s') by (vm_compute; reflexivity).
  destruct (timer_stops s s' stop_run Hr) as [Hb _]; [vm_compute; reflexivity|vm_compute; discriminate| |exact Hrun|].
  - repeat constructor.
  - split; [exact Hr|]. split; [exact Hrun|]. split; [exact Hb|]. vm_compute. auto.
Defined.

(** Thread 3 stops the manager and sleeps, and so does thread 4; thread 4 is woken. *)
Definition left_asleep : list event :=
  adding ++ [Call 3 Stop; Step 3 (at_time 1010); Call 4 Stop; Step 4 (at_time 1010); Dispatch (at_time 1010);
    Dispatch (at_time 1010); Dispatch (waking 4); Step 4 (at_time 1010)].

(** C12. Timer manager: the step that makes the manager [STOPPED] wakes one of the threads
    asleep, all of them in [stop], and only one: with a single caller of [stop] nobody is
    left asleep, and when it goes on it clears the map and takes the pointer of the
    dispatcher away; but a second one stays asleep, since from then on nothing but a
    spurious wakeup of its own wakes a thread asleep in [stop].  So a state can be
    reached where the manager is stopped, one caller of [stop] has returned, the other
    sleeps for ever, and the tasks have not been cleared. *)
Theorem timer_stop_wakes_one :
  (forall s s' e, reachable s -> sane e = true -> exec e s = Some s' ->
     state (manager s) = STOPPING -> state (manager s') = STOPPED ->
     how_many call_asleep (calls s') = Z.max 0 (how_many call_asleep (calls s) - 1) /\
     (forall t i, calls s !! t = Some i -> call_asleep i = true -> stopping i = true)) /\
  (forall s t c, state (manager s) = STOPPED -> calls s !! t = Some (Stop_wait true false) ->
     exists s1 s2, exec (Step t c) s = Some s1 /\ exec (Step t c) s1 = Some s2 /\
       taskMap_ (manager s2) = [] /\ managed s2 = false /\ outcomes s2 = outcomes s ++ [(t, Returned)]) /\
  (forall s s' e t doStop, reachable s -> exec e s = Some s' -> state (manager s) = STOPPED ->
     calls s !! t = Some (Stop_wait doStop true) -> e <> WakeCall t ->
     calls s' !! t = Some (Stop_wait doStop true) /\ state (manager s') = STOPPED) /\
  (exists s, reachable s /\ state (manager s) = STOPPED /\ calls s = {[3%nat := Stop_wait true true]} /\
     dispatcher s = Some Finished /\ last (outcomes s) = Some (4%nat, Returned) /\
     pairs (taskMap_ (manager s)) = [(1050, 7%nat); (1200, 8%nat)] /\
     forall c t, exec (Dispatch c) s = None /\ exec (Step t c) s = None).
Proof.
  split; [|split; [|split]].
  - intros s s' e Hr Hs He Hst Hst'. pose proof (reachable_ctl s Hr) as Hc. split.
    + by eapply stopping_wakes_one.
    + intros t i Hi Ha. pose proof (ctl_calls s Hc t i Hi) as Hok. unfold state in *. destruct i as [| |[]| |? []| | | | | | | | |]; try done.
      cbn in Hok. congruence.
  - intros s t c Hst Ht. unfold state in Hst. eexists _, _. cbn [exec]. rewrite Ht. cbn [mbind option_bind instruction].
    unfold stop_wait, is_state. rewrite bool_decide_true by done. cbn [negb]. split; [reflexivity|].
    cbn. rewrite lookup_insert_eq. cbn. split; [reflexivity|]. done.
  - intros. eapply stopped_asleep; try done. by apply reachable_ctl.
  - exists (after left_asleep). split; [apply timer_after_reachable; vm_compute; reflexivity|].
    assert (Hcs : calls (after left_asleep) = {[3%nat := Stop_wait true true]}) by (vm_compute; reflexivity).
    split; [vm_compute; reflexivity|]. split; [exact Hcs|]. split; [vm_compute; reflexivity|].
    split; [vm_compute; reflexivity|]. split; [vm_compute; reflexivity|]. intros c t. split; [vm_compute; reflexivity|].
    cbn [exec]. rewrite Hcs. destruct (decide (t = 3%nat)) as [->|Hne]; [reflexivity|].
    by rewrite lookup_singleton_ne.
Qed.

Lemma timer_stop_wakes_one_witness :
  let s := after left_asleep in
  state (manager s) = STOPPED /\
  forall s', exec (Call 5 Stop) s = Some s' -> calls s' !! 3%nat = Some (Stop_wait true true).
Proof.
  intros s. split; [vm_compute; reflexivity|]. intros s' He.
  refine (proj1 (proj1 (proj2 (proj2 timer_stop_wakes_one)) s s' (Call 5 Stop) 3%nat true _ He _ _ _)).
  - apply timer_after_reachable. vm_compute. reflexivity.
  - vm_compute. reflexivity.
  - vm_compute. reflexivity.
  - discriminate.
Defined.

(** ** Units of time *)

(** A time in milliseconds is itself again when it has been a [timespec], or a [timeval]
    as long as its seconds fit 32 bits; and the nanoseconds of a [timespec] are rounded
    to the next millisecond, upwards from the half. *)
Lemma time_units_round_trip value secs nsecs :
  0 <= value < 2 ^ 63 -> 0 <= secs < 2 ^ 50 -> 0 <= nsecs < Util.NS_PER_S ->
  uncurry Util.toMilliseconds_timespec (Util.toTimespec value) = value /\
  (value < 2 ^ 32 * 1000 -> uncurry Util.toMilliseconds_timeval (Util.toTimeval value) = value) /\
  Util.toMilliseconds_timespec secs nsecs = secs * 1000 + (nsecs + 500000) / 1000000.
Proof.
  unfold Util.toTimespec, Util.toTimeval, Util.toMilliseconds_timespec, Util.toMilliseconds_timeval, Util.toTicks, Util.NS_PER_MS,
    Util.US_PER_MS, Util.NS_PER_S, Util.US_PER_S, Util.MS_PER_S. cbn [uncurry].
  intros Hv Hs Hn.
  change (Z.quot 1000000000 1000) with 1000000. change (Z.quot 1000000 1000) with 1000.
  change (1000000 =? 0) with false. change (1000 =? 0) with false. change (Z.quot 1000000 2) with 500000. change (Z.quot 1000 2) with 500. cbn [negb andb].
  rewrite (Z.quot_div_nonneg value 1000), (Z.rem_mod_nonneg value 1000) by lia.
  pose proof (Z.div_mod value 1000 ltac:(lia)) as Hdm. pose proof (Z.mod_pos_bound value 1000 ltac:(lia)) as Hm.
  set (q := value / 1000) in *. set (r := value mod 1000) in *. clearbody q r. split; [|split].
  - rewrite (wraps_small 64 (q * 1000)) by (unfold in_s; lia).
    rewrite (wraps_small 64 (r * 1000000 * 1000)) by (unfold in_s; lia).
    replace (r * 1000000 * 1000) with (r * 1000000000) by lia. rewrite Z.quot_mul, Z.rem_mul by lia.
    change (500000 <=? 0) with false. cbv iota. rewrite wraps_small by (unfold in_s; lia). lia.
  - intros Hv'. rewrite (wrapu_small 32 q) by (unfold in_u; lia).
    rewrite (wraps_small 64 (r * 1000)) by (unfold in_s; lia). rewrite (wrapu_small 32 (r * 1000)) by (unfold in_u; lia).
    rewrite (wraps_small 64 (q * 1000)) by (unfold in_s; lia).
    rewrite (wraps_small 64 (r * 1000 * 1000)) by (unfold in_s; lia).
    replace (r * 1000 * 1000) with (r * 1000000) by lia. rewrite Z.quot_mul, Z.rem_mul by lia.
    change (500 <=? 0) with false. cbv iota. rewrite wraps_small by (unfold in_s; lia). lia.
  - rewrite (wraps_small 64 (secs * 1000)) by (unfold in_s; lia).
    rewrite (wraps_small 64 (nsecs * 1000)) by (unfold in_s; lia).
    rewrite Z.quot_div_nonneg, Z.rem_mod_nonneg by lia.
    rewrite (wraps_small 64 (secs * 1000 + _)) by (unfold in_s; Z.div_mod_to_equations; lia).
    bcase (500000 <=? nsecs mod 1000000); rewrite ?wraps_small by (unfold in_s; Z.div_mod_to_equations; lia);
      Z.div_mod_to_equations; lia.
Qed.

(** ** A start that fails *)

(** If the thread of the dispatcher cannot be made, [start] throws and leaves the manager
    starting: from then on it is never started or stopped, whatever is called, so that
    no call of [stop] returns. *)
Theorem timer_failed_start (es : list event) (s s' : System) :
  stranded s -> exec_all es s = Some s' -> state (manager s') = STARTING \/ state (manager s') = STOPPING.
Proof.
  revert s. induction es as [|e es IH]; intros s Hs; cbn [exec_all].
  - intros [= <-]. apply Hs.
  - destruct (exec e s) as [s1|] eqn:He; [|done]. cbn. apply IH. by eapply stranded_exec.
Qed.

Lemma timer_failed_start_witness :
  let s := after [Call 1 (SetThreadFactory true); Step 1 (at_time 0); Call 1 Start; Step 1 (at_time 0); Step 1 (Choose None 0 0 0 false)] in
  reachable s /\ outcomes s = [(1%nat, Returned); (1%nat, Threw SystemResourceException)] /\
  forall es s', exec_all es s = Some s' -> state (manager s') = STARTING \/ state (manager s') = STOPPING.
Proof.
  intros s. split; [apply timer_after_reachable; vm_compute; reflexivity|]. split; [vm_compute; reflexivity|].
  intros es s' He. apply (timer_failed_start es s s'); [|exact He].
  split; [vm_compute; reflexivity|]. split; [vm_compute; reflexivity|left; vm_compute; reflexivity].
Defined.
