(* ===== verification/Servers.v ===== *)
(** * Servers: what the three of them share, and the simple one

    server/TServer.h, server/TSimpleServer.cpp, server/TSimpleServer.h and
    transport/TServerTransport.h.  A server calls what it was given: a server
    transport, factories, a processor, an event handler.  What such a call comes to
    is the [answer] of a step; between two calls the place of the thread that serves
    is a point, and its local pointers are its [locals].  So a step is one call with
    what follows up to the next, and other threads may do theirs in between.
    [trace] is history: the transports that were obtained, and those that were asked
    to close.  What is written to [GlobalOutput], a log, is left out. *)

From stdpp Require Export gmap.
From S2P Require Export Effects Monitors.

Abbreviation address := nat.

(** A protocol knows the transport it was made over. *)
Record protocol := Protocol { pointer : address; getTransport : address }.

Inductive answer :=
| Returns
| Gives (transport : option address)
| GivesProtocol (p : protocol)
| Says (b : bool)
| Throws (e : exn).

Inductive call :=
| Accepted (t : address)
| Obtained (t : address)
| Closed (t : address).

(** The transports that were obtained and not asked to close since; the accepted ones
    are counted when [clients] says so. *)
Fixpoint held (clients : bool) (trace : list call) : gset address :=
  match trace with
  | [] => ∅
  | Accepted t :: trace => if clients then {[t]} ∪ held clients trace else held clients trace
  | Obtained t :: trace => {[t]} ∪ held clients trace
  | Closed t :: trace => held clients trace ∖ {[t]}
  end.

(** The calls of a trace, the last one first. *)
Abbreviation history := (list call).

(** ** Fetching a client *)

Record locals := Locals {
  client : option address;
  inputTransport : option address;
  outputTransport : option address;
  inputProtocol : option protocol;
  outputProtocol : option protocol
}.

Definition no_locals : locals := Locals None None None None None.

Inductive fetch := Accept | GetInputTransport | GetOutputTransport | GetInputProtocol | GetOutputProtocol.

Inductive fetched :=
| Fetch (p : fetch)
| Fetched
| Failed (e : exn).

(** [TServerTransport::accept]: [acceptImpl] is not to return a null pointer. *)
Definition accept (x : answer) : option (address + exn) :=
  match x with
  | Gives (Some t) => Some (inl t)
  | Gives None => Some (inr (ETransport TTransportException.UNKNOWN "accept() may not return NULL"))
  | Throws e => Some (inr e)
  | _ => None
  end.

(** From [accept] to the protocols.  A factory gives a transport, and a protocol over
    the transport it was given. *)
Definition fetch_step (p : fetch) (x : answer) (l : locals) (h : history) : option (locals * history * fetched) :=
  let '(Locals c i o ip op) := l in
  match p, x with
  | Accept, _ =>
      r ← accept x;
      match r with
      | inl t => Some (Locals (Some t) i o ip op, Accepted t :: h, Fetch GetInputTransport)
      | inr e => Some (l, h, Failed e)
      end
  | _, Throws e => Some (l, h, Failed e)
  | GetInputTransport, Gives (Some t) => Some (Locals c (Some t) o ip op, Obtained t :: h, Fetch GetOutputTransport)
  | GetOutputTransport, Gives (Some t) => Some (Locals c i (Some t) ip op, Obtained t :: h, Fetch GetInputProtocol)
  | GetInputProtocol, GivesProtocol q =>
      if bool_decide (i = Some (getTransport q)) then Some (Locals c i o (Some q) op, h, Fetch GetOutputProtocol) else None
  | GetOutputProtocol, GivesProtocol q =>
      if bool_decide (o = Some (getTransport q)) then Some (Locals c i o ip (Some q), h, Fetched) else None
  | _, _ => None
  end.

(** The handlers around it: [continue], [break], or none takes the exception. *)
Definition handler (e : exn) : option bool :=
  match e with
  | ETransport _ _ | EProtocol _ _ | EThrift _ => Some true
  | EString _ => Some false
  | EBadAlloc | EProtocolPointer _ _ => None
  end.

(** Each of them closes first the pointers that are not null. *)
Definition to_close (l : locals) : list address :=
  omap id [inputTransport l; outputTransport l; client l].

(** ** A conversation *)

Inductive talk := CreateContext | ProcessContext | Process | Peek | DeleteContext.

#[export] Instance talk_eq_dec : EqDecision talk.
Proof. solve_decision. Defined.

Inductive talked :=
| Talk (p : talk)
| Over
| Uncaught (e : exn).

(** [eventHandler]: whether there is one.  The [try] block is the loop over
    [processContext], [process] and [peek]; every exception in it is taken. *)
Definition talk_step (eventHandler : bool) (p : talk) (x : answer) : option talked :=
  match p, x with
  | CreateContext, Returns => Some (Talk ProcessContext)
  | CreateContext, Throws e => if eventHandler then Some (Uncaught e) else None
  | ProcessContext, Returns => Some (Talk Process)
  | ProcessContext, Throws _ => if eventHandler then Some (Talk DeleteContext) else None
  | Process, Says true => Some (Talk Peek)
  | Process, Says false | Process, Throws _ => Some (Talk DeleteContext)
  | Peek, Says true => Some (Talk ProcessContext)
  | Peek, Says false | Peek, Throws _ => Some (Talk DeleteContext)
  | DeleteContext, Returns => Some Over
  | DeleteContext, Throws e => if eventHandler then Some (Uncaught e) else None
  | _, _ => None
  end.

(** A call of [close] whose [TTransportException] is taken. *)
Definition close_caught (x : answer) : option (option exn) :=
  match x with
  | Returns | Throws (ETransport _ _) => Some None
  | Throws e => Some (Some e)
  | _ => None
  end.

(** Where and how a call of [serve] ended: at its last line, or with an exception. *)
Inductive ending :=
| Left
| Escaped (e : exn).

(** ** [TSimpleServer] *)

Module SimpleServer.
Inductive point :=
| Listen
| PreServe
| Test
| Fetching (p : fetch)
| Catching (todo : list address) (again : bool)
| GetProcessor
| Talking (p : talk)
| CloseInput
| CloseOutput
| CloseClient
| After
| ServerClose.

(** [serving]: none when no thread is in [serve].  [endings] is history. *)
Record System := MakeSystem {
  stop_ : bool;
  eventHandler_ : bool;
  serving : option point;
  frame : locals;
  trace : history;
  endings : list ending
}.

Definition constructor : System := MakeSystem false false None no_locals [] [].

Definition set_stop x s := MakeSystem x (eventHandler_ s) (serving s) (frame s) (trace s) (endings s).
Definition set_eventHandler x s := MakeSystem (stop_ s) x (serving s) (frame s) (trace s) (endings s).
Definition go (p : point) s := MakeSystem (stop_ s) (eventHandler_ s) (Some p) (frame s) (trace s) (endings s).
Definition set_frame l h s := MakeSystem (stop_ s) (eventHandler_ s) (serving s) l h (endings s).
Definition closed t s := set_frame (frame s) (Closed t :: trace s) s.
Definition leave (e : ending) s := MakeSystem (stop_ s) (eventHandler_ s) None (frame s) (trace s) (e :: endings s).

Definition catch_ (e : exn) (s : System) : System :=
  match handler e with
  | Some again => go (Catching (to_close (frame s)) again) s
  | None => leave (Escaped e) s
  end.

(** [close] behind the conversation. *)
Definition close_step (t : option address) (x : answer) (next : point) (s : System) : option System :=
  t ← t; r ← close_caught x;
  Some (match r with None => go next (closed t s) | Some e => leave (Escaped e) (closed t s) end).

Definition serve_step (p : point) (x : answer) (s : System) : option System :=
  match p, x with
  | Listen, Returns => Some (go PreServe s)
  | Listen, Throws e => Some (leave (Escaped e) s)
  | PreServe, Returns => Some (go Test s)
  | PreServe, Throws e => if eventHandler_ s then Some (leave (Escaped e) s) else None
  | Test, Returns => Some (go (if stop_ s then After else Fetching Accept) s)
  | Fetching q, _ =>
      '(l, h, r) ← fetch_step q x (frame s) (trace s);
      Some (match r with
            | Fetch q => go (Fetching q) (set_frame l h s)
            | Fetched => go GetProcessor (set_frame l h s)
            | Failed e => catch_ e (set_frame l h s)
            end)
  | Catching (t :: todo) again, Returns => Some (go (Catching todo again) (closed t s))
  | Catching (t :: todo) again, Throws e => Some (leave (Escaped e) (closed t s))
  | Catching [] again, Returns => Some (go (if again then Test else After) s)
  | GetProcessor, Returns => Some (go (Talking CreateContext) s)
  | GetProcessor, Throws e => Some (leave (Escaped e) s)
  | Talking q, _ =>
      r ← talk_step (eventHandler_ s) q x;
      Some (match r with
            | Talk q => go (Talking q) s
            | Over => go CloseInput s
            | Uncaught e => leave (Escaped e) s
            end)
  | CloseInput, _ => close_step (inputTransport (frame s)) x CloseOutput s
  | CloseOutput, _ => close_step (outputTransport (frame s)) x CloseClient s
  | CloseClient, _ => close_step (client (frame s)) x Test s
  | After, Returns => Some (if stop_ s then go ServerClose s else leave Left s)
  | ServerClose, _ =>
      r ← close_caught x;
      Some (match r with None => leave Left (set_stop false s) | Some e => leave (Escaped e) s end)
  | _, _ => None
  end.

(** [stop], which interrupts the server transport besides. *)
Definition stop (s : System) : System := set_stop true s.

(** The locals of a call of [serve] are null. *)
Definition serve (s : System) : System := go Listen (set_frame no_locals (trace s) s).

Inductive event :=
| Serve
| ServeStep (x : answer)
| Stop
| SetServerEventHandler (b : bool).

Definition exec (e : event) (s : System) : option System :=
  match e with
  | Serve => match serving s with None => Some (serve s) | Some _ => None end
  | ServeStep x => p ← serving s; serve_step p x s
  | Stop => Some (stop s)
  | SetServerEventHandler b => Some (set_eventHandler b s)
  end.

Fixpoint exec_all (es : list event) (s : System) : option System :=
  match es with
  | [] => Some s
  | e :: es => s ← exec e s; exec_all es s
  end.

Inductive reachable : System -> Prop :=
| reachable_constructor : reachable constructor
| reachable_step s e s' : reachable s -> exec e s = Some s' -> reachable s'.
End SimpleServer.
