(* ===== verification/ThreadedServer.v ===== *)
(** * TThreadedServer: a thread for every connection

    server/TThreadedServer.cpp and server/TThreadedServer.h.  Beside the thread in
    [serve] there is one for each connection, which is in [Task::run] at its own
    place.  A step is one call with what follows up to the next, or what is done
    while [tasksMonitor_] is held.  Threads are those of PosixThreadFactory.cpp: when
    [pthread_create] fails, the reference it was to hand to the new thread keeps the
    thread object and the task alive; an exception that leaves [Task::run] ends the
    process, and so nothing moves any more. *)

From S2P Require Export Servers.

(** ** Tasks *)

(** In [serve], not yet in [tasks_]; in [tasks_], its thread not started; left behind
    by a start that failed; and the places in [run]. *)
Inductive task_point :=
| Created
| Listed
| Stranded
| Begin
| Talking (p : talk)
| CloseInput
| CloseOutput
| Erase.

#[export] Instance task_point_eq_dec : EqDecision task_point.
Proof. solve_decision. Defined.

(** [handled] is the local [eventHandler] of [run]. *)
Record Task := MakeTask { input_ : protocol; output_ : protocol; transport_ : address; handled : bool; place : task_point }.

Definition at_ (p : task_point) (k : Task) : Task := MakeTask (input_ k) (output_ k) (transport_ k) (handled k) p.
Definition handled_by (b : bool) (k : Task) : Task := MakeTask (input_ k) (output_ k) (transport_ k) b (place k).

(** ** [serve] *)

Inductive point :=
| Listen
| PreServe
| Test
| Fetching (p : fetch)
| GetProcessor
| NewTask
| NewThread (task : address)
| Insert (task : address)
| StartThread (task : address)
| Catching (todo : list address) (again : bool)
| After
| ServerClose
| Join (asleep : bool)
| Finish.

(** [tasks]: the objects there are, by address.  [joined] is history: the calls of
    [serve] that got past the wait for the tasks. *)
Record System := MakeSystem {
  stop_ : bool;
  eventHandler_ : bool;
  tasks_ : gset address;
  serving : option point;
  frame : locals;
  tasks : gmap address Task;
  terminated : bool;
  trace : history;
  endings : list ending;
  joined : Z
}.

(** [init]. *)
Definition constructor : System := MakeSystem false false ∅ None no_locals ∅ false [] [] 0.

Definition set_stop x s := MakeSystem x (eventHandler_ s) (tasks_ s) (serving s) (frame s) (tasks s) (terminated s) (trace s) (endings s) (joined s).
Definition set_eventHandler x s := MakeSystem (stop_ s) x (tasks_ s) (serving s) (frame s) (tasks s) (terminated s) (trace s) (endings s) (joined s).
Definition set_tasks_ x s := MakeSystem (stop_ s) (eventHandler_ s) x (serving s) (frame s) (tasks s) (terminated s) (trace s) (endings s) (joined s).
Definition go (p : point) s := MakeSystem (stop_ s) (eventHandler_ s) (tasks_ s) (Some p) (frame s) (tasks s) (terminated s) (trace s) (endings s) (joined s).
Definition set_frame l h s := MakeSystem (stop_ s) (eventHandler_ s) (tasks_ s) (serving s) l (tasks s) (terminated s) h (endings s) (joined s).
Definition set_tasks x s := MakeSystem (stop_ s) (eventHandler_ s) (tasks_ s) (serving s) (frame s) x (terminated s) (trace s) (endings s) (joined s).
Definition terminate s := MakeSystem (stop_ s) (eventHandler_ s) (tasks_ s) (serving s) (frame s) (tasks s) true (trace s) (endings s) (joined s).
Definition leave (e : ending) s := MakeSystem (stop_ s) (eventHandler_ s) (tasks_ s) None (frame s) (tasks s) (terminated s) (trace s) (e :: endings s) (joined s).
Definition count_joined s := MakeSystem (stop_ s) (eventHandler_ s) (tasks_ s) (serving s) (frame s) (tasks s) (terminated s) (trace s) (endings s) (joined s + 1).
Definition closed t s := set_frame (frame s) (Closed t :: trace s) s.
Definition put a k s := set_tasks (<[a := k]> (tasks s)) s.
Definition remove a s := set_tasks (delete a (tasks s)) s.

Definition catch_ (e : exn) (s : System) : System :=
  match handler e with
  | Some again => go (Catching (to_close (frame s)) again) s
  | None => leave (Escaped e) s
  end.

(** [new Task] and the pointer that owns it; the memory is not that of a living task. *)
Definition new_task (a : address) (s : System) : option System :=
  match inputProtocol (frame s), outputProtocol (frame s), client (frame s), tasks s !! a with
  | Some ip, Some op, Some c, None => Some (go (NewThread a) (put a (MakeTask ip op c false Created) s))
  | _, _, _, _ => None
  end.

(** The section in which [tasks_.insert] is called. *)
Definition insert_section (a : address) (s : System) : option System :=
  k ← tasks s !! a;
  Some (go (StartThread a) (put a (at_ Listed k) (set_tasks_ ({[a]} ∪ tasks_ s) s))).

Definition start_thread (a : address) (x : answer) (s : System) : option System :=
  k ← tasks s !! a;
  match x with
  | Returns => Some (go Test (put a (at_ Begin k) s))
  | Throws e => Some (catch_ e (put a (at_ Stranded k) s))
  | _ => None
  end.

(** The section that waits for the tasks, from its start or from behind [wait]. *)
Definition join_section (s : System) : System :=
  if bool_decide (tasks_ s = ∅) then go Finish (count_joined s) else go (Join true) s.

Definition serve_step (p : point) (x : answer) (s : System) : option System :=
  match p, x with
  | Listen, Returns => Some (go PreServe s)
  | Listen, Throws e => Some (leave (Escaped e) s)
  | PreServe, Returns => Some (go Test s)
  | PreServe, Throws e => if eventHandler_ s then Some (leave (Escaped e) s) else None
  | Test, Returns => Some (if stop_ s then go After s else go (Fetching Accept) (set_frame no_locals (trace s) s))
  | Fetching q, _ =>
      '(l, h, r) ← fetch_step q x (frame s) (trace s);
      Some (match r with
            | Fetch q => go (Fetching q) (set_frame l h s)
            | Fetched => go GetProcessor (set_frame l h s)
            | Failed e => catch_ e (set_frame l h s)
            end)
  | GetProcessor, Returns => Some (go NewTask s)
  | GetProcessor, Throws e | NewTask, Throws e => Some (catch_ e s)
  | NewTask, Gives (Some a) => new_task a s
  | NewThread a, Returns => Some (go (Insert a) s)
  | NewThread a, Throws e | Insert a, Throws e => Some (catch_ e (remove a s))
  | Insert a, Returns => insert_section a s
  | StartThread a, _ => start_thread a x s
  | Catching (t :: todo) again, Returns => Some (go (Catching todo again) (closed t s))
  | Catching (t :: todo) again, Throws e => Some (leave (Escaped e) (closed t s))
  | Catching [] again, Returns => Some (go (if again then Test else After) s)
  | After, Returns => Some (if stop_ s then go ServerClose s else leave Left s)
  | ServerClose, Returns => Some (go (Join false) s)
  | ServerClose, Throws e =>
      Some (match handler e with Some true => go (Join false) s | _ => leave (Escaped e) s end)
  | Join false, Returns => Some (join_section s)
  | Finish, Returns => Some (leave Left (set_stop false s))
  | _, _ => None
  end.

(** ** [Task::run] *)

(** The call of [close] on the transport of a protocol. *)
Definition close_step (a : address) (k : Task) (q : protocol) (x : answer) (next : task_point) (s : System) : option System :=
  r ← close_caught x;
  let s := closed (getTransport q) s in
  Some (match r with None => put a (at_ next k) s | Some _ => terminate s end).

(** The task removes itself; whoever waits is woken when it was the last.  With the
    end of its thread the object is gone. *)
Definition erase_section (a : address) (s : System) : System :=
  let s := remove a (set_tasks_ (tasks_ s ∖ {[a]}) s) in
  match serving s with
  | Some (Join true) => if bool_decide (tasks_ s = ∅) then go (Join false) s else s
  | _ => s
  end.

Definition task_step (a : address) (k : Task) (x : answer) (s : System) : option System :=
  match place k, x with
  | Begin, Returns => Some (put a (at_ (Talking CreateContext) (handled_by (eventHandler_ s) k)) s)
  | Talking q, _ =>
      r ← talk_step (handled k) q x;
      Some (match r with
            | Talk q => put a (at_ (Talking q) k) s
            | Over => put a (at_ CloseInput k) s
            | Uncaught _ => terminate s
            end)
  | CloseInput, _ => close_step a k (input_ k) x CloseOutput s
  | CloseOutput, _ => close_step a k (output_ k) x Erase s
  | Erase, Returns => Some (erase_section a s)
  | _, _ => None
  end.

(** ** Steps *)

(** [stop], which interrupts the server transport besides. *)
Definition stop (s : System) : System := set_stop true s.

Definition serve (s : System) : System := go Listen (set_frame no_locals (trace s) s).

(** [Wake]: the thread that waits for the tasks wakes of itself. *)
Inductive event :=
| Serve
| ServeStep (x : answer)
| TaskStep (a : address) (x : answer)
| Wake
| Stop
| SetServerEventHandler (b : bool).

Definition exec (e : event) (s : System) : option System :=
  if terminated s then None else
  match e with
  | Serve => match serving s with None => Some (serve s) | Some _ => None end
  | ServeStep x => p ← serving s; serve_step p x s
  | TaskStep a x => k ← tasks s !! a; task_step a k x s
  | Wake => match serving s with Some (Join true) => Some (go (Join false) s) | _ => None end
  | Stop => Some (stop s)
  | SetServerEventHandler b => Some (set_eventHandler b s)
  end.

Fixpoint exec_all (es : list event) (s : System) : option System :=
  match es with
  | [] => Some s
  | e :: es => s ← exec e s; exec_all es s
  end.

Inductive reachable : System -> Prop :=
| reachable_constructor : reachable constructor
| reachable_step s e s' : reachable s -> exec e s = Some s' -> reachable s'.
