(* ===== verification/ThreadedTasks.v ===== *)
(** * TThreadedServer: its tasks, and how it stops

    [tasks_] holds the tasks whose threads have been started and that have not yet
    removed themselves, and those left behind by a start that failed.  Who waits for
    them sleeps only while there is one.  Once [stop_] is set every step of the server
    and of its tasks brings the end of [serve] nearer, but for the answers that keep a
    conversation going.  A task left behind by a start that failed keeps [serve]
    waiting for ever. *)

From S2P Require Export ThreadedServer.

(** The pointers that are set when the thread in [serve] is at a point. *)
Definition fetched_before (p : fetch) (l : locals) : Prop :=
  match p with
  | Accept => True
  | GetInputTransport => is_Some (client l)
  | GetOutputTransport => is_Some (client l) /\ is_Some (inputTransport l)
  | GetInputProtocol => is_Some (client l) /\ is_Some (inputTransport l) /\ is_Some (outputTransport l)
  | GetOutputProtocol =>
      is_Some (client l) /\ is_Some (outputTransport l) /\
      exists q, inputProtocol l = Some q /\ inputTransport l = Some (getTransport q)
  end.

(** The protocols are over the two transports. *)
Definition all_fetched (l : locals) : Prop :=
  is_Some (client l) /\
  (exists q, inputProtocol l = Some q /\ inputTransport l = Some (getTransport q)) /\
  (exists q, outputProtocol l = Some q /\ outputTransport l = Some (getTransport q)).

Lemma fetch_step_fetched p x l h l' h' r :
  fetch_step p x l h = Some (l', h', r) -> fetched_before p l ->
  match r with Fetch q => fetched_before q l' | Fetched => all_fetched l' | Failed _ => l' = l end.
Proof.
  destruct l as [c i o ip op]. unfold all_fetched.
  destruct p, x as [|[t|]|q|[]|e]; cbn; try case_bool_decide; try done; intros [= <- <- <-]; cbn; naive_solver.
Qed.

(** A fetch can go on, whatever it has come to. *)
Lemma fetch_step_enabled p l h : exists x r, fetch_step p x l h = Some r.
Proof.
  exists (Throws EBadAlloc). destruct l as [c i o ip op]. destruct p; by eexists.
Qed.

Lemma talk_step_enabled b p : exists x r, talk_step b p x = Some r.
Proof.
  destruct p.
  - exists Returns. by eexists.
  - exists Returns. by eexists.
  - exists (Says true). by eexists.
  - exists (Says true). by eexists.
  - exists Returns. by eexists.
Qed.

(** ** The invariant *)

(** What [serve] knows of the tasks, by its place. *)
Definition place_ok (s : System) : Prop :=
  match serving s with
  | Some (Fetching p) => fetched_before p (frame s)
  | Some GetProcessor | Some NewTask => all_fetched (frame s)
  | Some (NewThread a) | Some (Insert a) => exists k, tasks s !! a = Some k /\ place k = Created
  | Some (StartThread a) => exists k, tasks s !! a = Some k /\ place k = Listed
  | Some (Join true) => tasks_ s <> ∅
  | Some Finish => tasks s = ∅
  | _ => True
  end.

(** The task [serve] has at hand. *)
Definition own (s : System) (a : address) : Prop :=
  serving s = Some (NewThread a) \/ serving s = Some (Insert a) \/ serving s = Some (StartThread a).

Record inv (s : System) : Prop := {
  inv_tasks a : a ∈ tasks_ s <-> exists k, tasks s !! a = Some k /\ place k <> Created;
  inv_created a k : tasks s !! a = Some k -> place k = Created \/ place k = Listed -> own s a;
  inv_place : place_ok s
}.

Lemma inv_constructor : inv constructor.
Proof. split; [set_solver|set_solver|done]. Qed.

(** A step that changes neither the tasks nor the set, and leaves or enters no place
    where a task is at hand. *)
Lemma inv_moved s s' :
  inv s -> tasks_ s' = tasks_ s -> tasks s' = tasks s -> (forall a, own s a -> own s' a) -> place_ok s' -> inv s'.
Proof.
  intros [Ht Hc _] Hs Hm Ho Hp. split; [|intros a k|done]; rewrite ?Hs, ?Hm; [done|]. intros Ha Hk. eauto.
Qed.

Lemma no_own s p : serving s = Some p ->
  (forall a, p <> NewThread a /\ p <> Insert a /\ p <> StartThread a) -> forall a, ~ own s a.
Proof. unfold own. intros -> Hp a. destruct (Hp a) as (? & ? & ?). naive_solver. Qed.

(** No task is between [serve] and its thread. *)
Definition settled (s : System) : Prop :=
  forall a k, tasks s !! a = Some k -> place k <> Created /\ place k <> Listed.

Definition listed (s : System) : Prop :=
  forall a, a ∈ tasks_ s <-> exists k, tasks s !! a = Some k /\ place k <> Created.

Lemma inv_settled s : listed s -> settled s -> place_ok s -> inv s.
Proof. intros Hl Hs Hp. split; [done| |done]. intros a k Ha [|]; by destruct (Hs a k Ha). Qed.

Lemma settled_inv s : inv s -> (forall a, ~ own s a) -> settled s.
Proof. intros [_ Hc _] Hn a k Ha. split; intros Hk; apply (Hn a); eauto. Qed.

(** Nothing is at hand at the places [catch_] goes to, or outside of [serve]. *)
Lemma inv_catch e s : listed s -> settled s -> inv (catch_ e s).
Proof.
  intros Hl Hs. unfold catch_. destruct (handler e) as [again|]; by apply inv_settled.
Qed.

Lemma inv_leave e s : listed s -> settled s -> inv (leave e s).
Proof. intros Hl Hs. by apply inv_settled. Qed.

(** The task at hand is the only one that is not on its way. *)
Lemma settled_put s a k : (forall b, own s b -> b = a) -> inv s -> place k <> Created -> place k <> Listed ->
  settled (put a k s).
Proof.
  intros Ho [_ Hc _] H1 H2 b k' Hb. cbn in Hb. destruct (decide (a = b)) as [<-|Hne].
  - rewrite lookup_insert_eq in Hb. by injection Hb as <-.
  - rewrite lookup_insert_ne in Hb by done. split; intros Hk; apply Hne; symmetry; apply Ho; eauto.
Qed.

Lemma settled_remove s a : (forall b, own s b -> b = a) -> inv s -> settled (remove a s).
Proof.
  intros Ho [_ Hc _] b k Hb. cbn in Hb. apply lookup_delete_Some in Hb as [Hne Hb].
  split; intros Hk; apply Hne; symmetry; apply Ho; eauto.
Qed.

Lemma listed_put s a k k' : listed s -> tasks s !! a = Some k -> (place k = Created <-> place k' = Created) ->
  listed (put a k' s).
Proof.
  intros Hl Ha Hk b. rewrite (Hl b). cbn. destruct (decide (a = b)) as [<-|Hne].
  - rewrite lookup_insert_eq, Ha. naive_solver.
  - by rewrite lookup_insert_ne.
Qed.

Lemma listed_remove s a k : listed s -> tasks s !! a = Some k -> place k = Created -> listed (remove a s).
Proof.
  intros Hl Ha Hk b. rewrite (Hl b). cbn. setoid_rewrite lookup_delete_Some. split; [|naive_solver].
  intros (k' & Hb & Hp). exists k'. split; [|done]. split; [|done]. intros <-. congruence.
Qed.

Lemma own_only s p a : serving s = Some p -> p = NewThread a \/ p = Insert a \/ p = StartThread a ->
  forall b, own s b -> b = a.
Proof. unfold own. intros -> Hp b Hb. naive_solver. Qed.

(** ** The steps *)

Lemma new_task_spec a s s' : new_task a s = Some s' ->
  exists k, tasks s !! a = None /\ place k = Created /\ s' = go (NewThread a) (put a k s).
Proof.
  unfold new_task. destruct (inputProtocol _) as [ip|]; [|done]. destruct (outputProtocol _) as [op|]; [|done].
  destruct (client _) as [c|]; [|done]. destruct (tasks s !! a); [done|]. intros [= <-]. by exists (MakeTask ip op c false Created).
Qed.

Lemma inv_new_task a s s' : inv s -> serving s = Some NewTask -> new_task a s = Some s' -> inv s'.
Proof.
  intros Hi Hp (k & Ha & Hk & ->)%new_task_spec.
  pose proof (settled_inv s Hi (no_own s _ Hp ltac:(done))) as Hs. destruct Hi as [Hl _ _]. split; cbn.
  - intros b. rewrite (Hl b). destruct (decide (a = b)) as [<-|Hne]; [|by rewrite lookup_insert_ne].
    rewrite lookup_insert_eq, Ha. naive_solver.
  - intros b k' Hb Hk'. destruct (decide (a = b)) as [<-|Hne]; [by left|].
    rewrite lookup_insert_ne in Hb by done. by destruct (Hs b k' Hb), Hk'.
  - exists k. by rewrite lookup_insert_eq.
Qed.

Lemma inv_insert a s s' : inv s -> serving s = Some (Insert a) -> insert_section a s = Some s' -> inv s'.
Proof.
  intros Hi Hp. unfold insert_section. destruct (tasks s !! a) as [k|] eqn:Ha; [|done]. intros [= <-].
  pose proof (inv_tasks s Hi) as Hl. pose proof (inv_created s Hi) as Hc. split; cbn.
  - intros b. rewrite elem_of_union, elem_of_singleton, (Hl b). destruct (decide (a = b)) as [<-|Hne].
    + rewrite lookup_insert_eq. split; [intros _; by eexists|auto].
    + rewrite lookup_insert_ne by done. naive_solver.
  - intros b k' Hb Hk'. destruct (decide (a = b)) as [<-|Hne]; [by right; right|].
    rewrite lookup_insert_ne in Hb by done. destruct Hne. symmetry.
    eapply own_only; [exact Hp|by right; left|]. eauto.
  - exists (at_ Listed k). by rewrite lookup_insert_eq.
Qed.

Lemma inv_start a x s s' : inv s -> serving s = Some (StartThread a) -> start_thread a x s = Some s' -> inv s'.
Proof.
  intros Hi Hp. unfold start_thread. pose proof (inv_place s Hi) as Hpl. unfold place_ok in Hpl. rewrite Hp in Hpl.
  destruct Hpl as (k & Ha & Hk). rewrite Ha. cbn. pose proof (own_only s _ a Hp ltac:(auto)) as Ho.
  assert (Hput : forall q, q <> Created -> q <> Listed -> listed (put a (at_ q k) s) /\ settled (put a (at_ q k) s)).
  { intros q H1 H2. split; [|by apply settled_put]. apply (listed_put s a k); [exact (inv_tasks s Hi)|done|]. cbn. rewrite Hk. naive_solver. }
  destruct x; try done; intros [= <-].
  - destruct (Hput Begin) as [Hl Hs]; [done..|]. by apply inv_settled.
  - destruct (Hput Stranded) as [Hl Hs]; [done..|]. by apply inv_catch.
Qed.

Lemma inv_drop a e s p : inv s -> serving s = Some p -> p = NewThread a \/ p = Insert a -> inv (catch_ e (remove a s)).
Proof.
  intros Hi Hp Hpa. pose proof (inv_place s Hi) as Hpl. unfold place_ok in Hpl. rewrite Hp in Hpl.
  assert (exists k, tasks s !! a = Some k /\ place k = Created) as (k & Ha & Hk) by (by destruct Hpa as [-> | ->]).
  apply inv_catch; [by apply (listed_remove s a k); [exact (inv_tasks s Hi)|..]|].
  apply settled_remove; [|done]. eapply own_only; [exact Hp|tauto].
Qed.

Lemma inv_join s : inv s -> serving s = Some (Join false) -> inv (join_section s).
Proof.
  intros Hi Hp. pose proof (settled_inv s Hi (no_own s _ Hp ltac:(done))) as Hs. unfold join_section.
  case_bool_decide as Hz; apply inv_settled; [exact (inv_tasks s Hi)|done| |exact (inv_tasks s Hi)|done|done].
  apply map_eq. intros a. rewrite lookup_empty. destruct (tasks s !! a) as [k|] eqn:Ha; [|done].
  destruct (inv_tasks s Hi a) as [_ Hin]. cbn in Ha. rewrite Hz in Hin.
  destruct (not_elem_of_empty (C := gset address) a). apply Hin. exists k. split; [done|by apply (Hs a k)].
Qed.

(** A step of [serve] that does not concern the tasks. *)
Lemma inv_elsewhere s s' p : inv s -> serving s = Some p ->
  (forall a, p <> NewThread a /\ p <> Insert a /\ p <> StartThread a) ->
  tasks_ s' = tasks_ s -> tasks s' = tasks s -> place_ok s' -> inv s'.
Proof. intros Hi Hp Hn Hs Hm Hp'. apply (inv_moved s); [done..| |done]. intros a []%(no_own s p Hp Hn a). Qed.

Lemma catch_tasks e s : tasks_ (catch_ e s) = tasks_ s /\ tasks (catch_ e s) = tasks s /\ place_ok (catch_ e s).
Proof. unfold catch_. by destruct (handler e). Qed.

(** Where a step of the fetch goes. *)
Lemma fetching_spec q x s s' : serve_step (Fetching q) x s = Some s' ->
  exists l h r, fetch_step q x (frame s) (trace s) = Some (l, h, r) /\
    s' = match r with
         | Fetch q => go (Fetching q) (set_frame l h s)
         | Fetched => go GetProcessor (set_frame l h s)
         | Failed e => catch_ e (set_frame l h s)
         end.
Proof.
  cbn. destruct (fetch_step q x (frame s) (trace s)) as [[[l h] r]|]; [|by destruct x].
  intros He. exists l, h, r. split; [done|]. by destruct x; injection He.
Qed.

(** And one of a conversation. *)
Lemma talking_spec a k q x s s' : place k = Talking q -> task_step a k x s = Some s' ->
  exists r, talk_step (handled k) q x = Some r /\
    s' = match r with Talk q => put a (at_ (Talking q) k) s | Over => put a (at_ CloseInput k) s | Uncaught _ => terminate s end.
Proof.
  unfold task_step. intros ->. destruct (talk_step (handled k) q x) as [r|]; [|by destruct x].
  intros He. exists r. split; [done|]. by destruct x; injection He.
Qed.

Lemma inv_fetch q x s s' : inv s -> serving s = Some (Fetching q) -> serve_step (Fetching q) x s = Some s' -> inv s'.
Proof.
  intros Hi Hp (l & h & r & Hf & ->)%fetching_spec.
  pose proof (inv_place s Hi) as Hpl. unfold place_ok in Hpl. rewrite Hp in Hpl.
  pose proof (fetch_step_fetched _ _ _ _ _ _ _ Hf Hpl) as Hr.
  destruct r as [q'| |e]; (eapply inv_elsewhere; [exact Hi|exact Hp|done|..]); try done; by destruct (catch_tasks e (set_frame l h s)) as (? & ? & ?).
Qed.

Ltac elsewhere Hi Hp :=
  eapply inv_elsewhere; [exact Hi|exact Hp|done|..]; (apply catch_tasks || done || idtac).

Lemma inv_serve_step p x s s' : inv s -> serving s = Some p -> serve_step p x s = Some s' -> inv s'.
Proof.
  intros Hi Hp He. pose proof (inv_place s Hi) as Hpl. unfold place_ok in Hpl. rewrite Hp in Hpl.
  destruct p as [| | |q| | |a|a|a|[|t todo] again| | |[]|];
    try (by apply (inv_fetch q x s)); cbn [serve_step] in He; try (by apply (inv_start a x s); [..|destruct x]);
    destruct x as [|[t'|]|q|b|e]; try discriminate He;
    try (by apply (inv_new_task t' s)); try (by apply (inv_insert a s)).
  all: try (destruct (eventHandler_ s); [|discriminate He]); injection He as <-.
  all: try (eapply inv_drop; [done|exact Hp|tauto]); try by apply inv_join.
  all: repeat match goal with |- context [if ?b then _ else _] => destruct b end.
  all: try (match goal with |- context [handler ?e] => destruct (handler e) as [[]|] end); try (elsewhere Hi Hp).
  apply (inv_moved s); [done..| |done]. unfold own. rewrite Hp. naive_solver.
Qed.

(** ** The tasks *)

(** A task that moves on its own is not at hand. *)
Lemma inv_put a k k' s : inv s -> tasks s !! a = Some k ->
  place k <> Created -> place k <> Listed -> place k' <> Created -> place k' <> Listed -> inv (put a k' s).
Proof.
  intros Hi Ha H1 H2 H3 H4. pose proof (inv_place s Hi) as Hpl.
  assert (Hne : forall b j, tasks s !! b = Some j -> place j = Created \/ place j = Listed -> a <> b).
  { intros b j Hb Hj ->. rewrite Ha in Hb. injection Hb as <-. tauto. }
  split.
  - apply (listed_put s a k); [exact (inv_tasks s Hi)|done|tauto].
  - intros b j Hb Hj. cbn in Hb. destruct (decide (a = b)) as [<-|Hab].
    + rewrite lookup_insert_eq in Hb. injection Hb as <-. tauto.
    + rewrite lookup_insert_ne in Hb by done. exact (inv_created s Hi b j Hb Hj).
  - unfold place_ok in *. cbn. destruct (serving s) as [[| | |q| | |b|b|b| | | |[]|]|]; try done.
    + destruct Hpl as (j & Hj & ?). exists j. by rewrite lookup_insert_ne by eauto.
    + destruct Hpl as (j & Hj & ?). exists j. by rewrite lookup_insert_ne by eauto.
    + destruct Hpl as (j & Hj & ?). exists j. by rewrite lookup_insert_ne by eauto.
    + by rewrite Hpl in Ha.
Qed.

(** What a task tells about the world leaves the rest. *)
Lemma inv_closed t s : inv s -> inv (closed t s).
Proof. intros [Hl Hc Hp]. by split. Qed.

Lemma inv_terminate s : inv s -> inv (terminate s).
Proof. intros [Hl Hc Hp]. by split. Qed.

Lemma inv_erase a k s : inv s -> tasks s !! a = Some k -> place k = Erase -> inv (erase_section a s).
Proof.
  intros Hi Ha Hk. pose proof (inv_place s Hi) as Hpl. unfold place_ok in Hpl.
  set (s1 := remove a (set_tasks_ (tasks_ s ∖ {[a]}) s)).
  assert (Hl : listed s1).
  { intros b. cbn. rewrite elem_of_difference, elem_of_singleton, (inv_tasks s Hi b).
    setoid_rewrite lookup_delete_Some. naive_solver. }
  assert (Hc : forall b j, tasks s1 !! b = Some j -> place j = Created \/ place j = Listed -> own s b).
  { intros b j Hb. cbn in Hb. apply lookup_delete_Some in Hb as [_ Hb]. exact (inv_created s Hi b j Hb). }
  assert (Hne : forall b j, tasks s !! b = Some j -> place j <> Erase -> tasks s1 !! b = Some j).
  { intros b j Hb Hj. cbn. rewrite lookup_delete_ne; [done|]. intros <-. congruence. }
  unfold erase_section. fold s1. change (serving s1) with (serving s).
  destruct (serving s) as [[| | |q| | |b|b|b| | | |[]|]|] eqn:Hp.
  13: { assert (Hs : settled s1).
    { intros b j Hb. split; intros Hj; (destruct (Hc b j Hb) as [Ho|[Ho|Ho]]; [tauto|congruence..]). }
    case_bool_decide as Hz; apply inv_settled; try done. unfold place_ok. cbn [s1 remove set_tasks set_tasks_ serving]. by rewrite Hp. }
  all: split; [done|exact Hc|]; unfold place_ok; cbn [s1 remove set_tasks set_tasks_ serving]; rewrite Hp; try done.
  - destruct Hpl as (j & Hj & Hjp). exists j. split; [apply Hne; congruence|done].
  - destruct Hpl as (j & Hj & Hjp). exists j. split; [apply Hne; congruence|done].
  - destruct Hpl as (j & Hj & Hjp). exists j. split; [apply Hne; congruence|done].
  - by rewrite Hpl in Ha.
Qed.

Lemma inv_close a k q x next s s' : inv s -> tasks s !! a = Some k -> place k <> Created -> place k <> Listed ->
  next <> Created -> next <> Listed -> close_step a k q x next s = Some s' -> inv s'.
Proof.
  intros Hi Ha H1 H2 H3 H4. unfold close_step. destruct (close_caught x) as [[e|]|]; [| |done]; intros [= <-].
  - by apply inv_terminate, inv_closed.
  - eapply (inv_put a k); try done. by apply inv_closed.
Qed.

Lemma inv_task_step a k x s s' : inv s -> tasks s !! a = Some k -> task_step a k x s = Some s' -> inv s'.
Proof.
  intros Hi Ha He. destruct (place k) as [| | | |q| | |] eqn:Hk.
  5: { destruct (talking_spec a k q x s s' Hk He) as ([r| |] & _ & ->);
      [by apply (inv_put a k); rewrite ?Hk..|by apply inv_terminate]. }
  all: unfold task_step in He; rewrite Hk in He.
  - done.
  - done.
  - done.
  - destruct x; try done. injection He as <-. apply (inv_put a k); rewrite ?Hk; done.
  - apply (inv_close a k (input_ k) x CloseOutput s); by rewrite ?Hk.
  - apply (inv_close a k (output_ k) x Erase s); by rewrite ?Hk.
  - destruct x; try done. injection He as <-. by eapply inv_erase.
Qed.

Lemma inv_exec e s s' : inv s -> exec e s = Some s' -> inv s'.
Proof.
  intros Hi. unfold exec. destruct (terminated s); [done|]. destruct e as [|x|a x| | |b].
  - destruct (serving s) eqn:Hp; [done|]. intros [= <-]. apply inv_settled; [exact (inv_tasks s Hi)| |done].
    apply (settled_inv s); [done|]. unfold own. rewrite Hp. naive_solver.
  - destruct (serving s) as [p|] eqn:Hp; [|done]. by apply inv_serve_step.
  - destruct (tasks s !! a) as [k|] eqn:Ha; [|done]. by apply inv_task_step.
  - destruct (serving s) as [[| | |q| | |b|b|b| | | |[]|]|] eqn:Hp; try done. intros [= <-].
    by apply (inv_elsewhere s _ (Join true)).
  - intros [= <-]. destruct Hi as [Hl Hc Hp]. by split.
  - intros [= <-]. destruct Hi as [Hl Hc Hp]. by split.
Qed.

Lemma reachable_inv s : reachable s -> inv s.
Proof. induction 1; [apply inv_constructor|by eapply inv_exec]. Qed.

Lemma exec_run_cons e es s s' : exec_all (e :: es) s = Some s' -> exists s1, exec e s = Some s1 /\ exec_all es s1 = Some s'.
Proof. cbn. destruct (exec e s) as [s1|]; [|done]. intros He. by exists s1. Qed.

Lemma reachable_all es s s' : reachable s -> exec_all es s = Some s' -> reachable s'.
Proof.
  revert s. induction es as [|e es IH]; intros s Hr; [by intros [= <-]|].
  intros (s1 & He & Hes)%exec_run_cons. eapply IH; [|done]. by eapply reachable_step.
Qed.

(** ** What can go on *)

(** A task whose thread has been started, and that has not removed itself, can. *)
Lemma task_enabled a k s : terminated s = false -> tasks s !! a = Some k ->
  place k <> Created -> place k <> Listed -> place k <> Stranded -> exists x s', exec (TaskStep a x) s = Some s'.
Proof.
  intros Ht Ha H1 H2 H3. unfold exec. rewrite Ht, Ha. cbn [mbind option_bind]. unfold task_step, close_step.
  destruct (place k) as [| | | |q| | |] eqn:Hk; try done.
  - exists Returns. by eexists.
  - destruct (talk_step_enabled (handled k) q) as (x & r & Hr). exists x. rewrite Hr. by destruct x; eexists.
  - exists Returns. by eexists.
  - exists Returns. by eexists.
  - exists Returns. by eexists.
Qed.

(** An address where there is no task: memory does not run out. *)
Lemma new_task_enabled s : all_fetched (frame s) -> exists a s', new_task a s = Some s'.
Proof.
  intros ([c Hc] & (ip & Hip & _) & (op & Hop & _)). exists (fresh (dom (tasks s))). unfold new_task.
  rewrite Hc, Hip, Hop. destruct (tasks s !! _) eqn:Ha; [|by eexists].
  destruct (is_fresh (dom (tasks s))). apply elem_of_dom. by eexists.
Qed.

Lemma serve_enabled p s : inv s -> terminated s = false -> serving s = Some p -> p <> Join true ->
  exists x s', exec (ServeStep x) s = Some s'.
Proof.
  intros Hi Ht Hp Hne. unfold exec. rewrite Ht, Hp. cbn [mbind option_bind].
  pose proof (inv_place s Hi) as Hpl. unfold place_ok in Hpl. rewrite Hp in Hpl.
  destruct p as [| | |q| | |a|a|a|[|t todo] again| | |[]|]; try done; try (by exists Returns; eexists).
  - destruct (fetch_step_enabled q (frame s) (trace s)) as (x & [[l h] r] & Hr). exists x. cbn. rewrite Hr. by destruct x; eexists.
  - destruct (new_task_enabled s Hpl) as (a & s' & Ha). by exists (Gives (Some a)), s'.
  - destruct Hpl as (k & Ha & _). exists Returns. cbn. unfold insert_section. rewrite Ha. by eexists.
  - destruct Hpl as (k & Ha & _). exists Returns. cbn. unfold start_thread. rewrite Ha. by eexists.
Qed.

(** ** What is left to do *)

Definition fetch_left (p : fetch) : Z :=
  match p with
  | Accept => 29
  | GetInputTransport => 28
  | GetOutputTransport => 27
  | GetInputProtocol => 26
  | GetOutputProtocol => 25
  end.

Lemma fetch_left_step p x l h l' h' q : fetch_step p x l h = Some (l', h', Fetch q) -> fetch_left q + 1 = fetch_left p.
Proof.
  destruct l as [c i o ip op]. destruct p, x as [|[]|q2|b|e]; cbn; try case_bool_decide; try done; by intros [= _ _ <-].
Qed.

(** Steps to the end of [serve] when [stop_] is set; a new task has nine to take. *)
Definition point_left (nobody : bool) (p : point) : Z :=
  match p with
  | Listen => 8
  | PreServe => 7
  | Test => 6
  | Fetching q => fetch_left q
  | GetProcessor => 24
  | NewTask => 23
  | NewThread _ => 13
  | Insert _ => 12
  | StartThread _ => 11
  | Catching todo _ => 7 + zlen todo
  | After => 5
  | ServerClose => 4
  | Join false => if nobody then 2 else 3
  | Join true => 2
  | Finish => 1
  end.

Definition talk_left (p : talk) : Z :=
  match p with CreateContext => 8 | ProcessContext => 7 | Process => 6 | Peek => 5 | DeleteContext => 4 end.

Definition task_left (k : Task) : Z :=
  match place k with
  | Created | Listed | Begin => 9
  | Stranded => 0
  | Talking p => talk_left p
  | CloseInput => 3
  | CloseOutput => 2
  | Erase => 1
  end.

Definition serve_left (s : System) : Z := from_option (point_left (bool_decide (tasks_ s = ∅))) 0 (serving s).
Definition steps_left (s : System) : Z :=
  if terminated s then 0 else serve_left s + msum task_left (tasks s).

Lemma point_left_nonneg b p : 0 <= point_left b p.
Proof. destruct p as [| | |[]| | | | | |todo| | |[]|]; cbn; try lia. - pose proof (zlen_nonneg todo). lia. - destruct b; lia. Qed.

Lemma task_left_nonneg k : 0 <= task_left k.
Proof. unfold task_left. destruct (place k) as [| | | |[]| | |]; cbn; lia. Qed.

Lemma steps_left_nonneg s : 0 <= steps_left s.
Proof.
  unfold steps_left, serve_left. destruct (terminated s); [done|].
  pose proof (msum_nonneg task_left (tasks s) task_left_nonneg).
  destruct (serving s) as [p|]; cbn; [|lia]. pose proof (point_left_nonneg (bool_decide (tasks_ s = ∅)) p). lia.
Qed.

(** Told to stop, or not serving. *)
Definition stopping (s : System) : Prop := stop_ s = true \/ serving s = None.

Definition tasks_left (s : System) : Z := msum task_left (tasks s).

Lemma to_close_left l : zlen (to_close l) <= 3.
Proof. unfold to_close. destruct l as [[] [] [] ip op]; cbn; zlist. Qed.

Lemma catch_left e s : stop_ s = true ->
  serve_left (catch_ e s) <= 10 /\ tasks_left (catch_ e s) = tasks_left s /\
  terminated (catch_ e s) = terminated s /\ stopping (catch_ e s).
Proof.
  intros Hs. unfold catch_, serve_left, stopping. pose proof (to_close_left (frame s)).
  destruct (handler e) as [again|]; cbn [go leave serving from_option point_left]; (split_and!; [lia|done|done|auto]).
Qed.

Lemma tasks_left_put a k k' s : tasks s !! a = Some k -> tasks_left (put a k' s) = tasks_left s - task_left k + task_left k'.
Proof. intros Ha. unfold tasks_left. cbn. by apply msum_update. Qed.

Lemma tasks_left_remove a k s : tasks s !! a = Some k -> tasks_left (remove a s) = tasks_left s - task_left k.
Proof. intros Ha. unfold tasks_left. cbn. rewrite (msum_split _ _ _ _ Ha). lia. Qed.

Lemma tasks_left_new a k s : tasks s !! a = None -> tasks_left (put a k s) = tasks_left s + task_left k.
Proof. intros Ha. unfold tasks_left. cbn. rewrite msum_fresh by done. lia. Qed.

(** One step nearer. *)
Definition nearer (s s' : System) : Prop :=
  terminated s' = terminated s /\ stopping s' /\ serve_left s' + tasks_left s' + 1 <= serve_left s + tasks_left s.

Lemma nearer_moved s s' p : serving s = Some p -> stopping s' -> terminated s' = terminated s -> tasks s' = tasks s ->
  serve_left s' + 1 <= point_left (bool_decide (tasks_ s = ∅)) p -> nearer s s'.
Proof. intros Hp Hs Ht Hm Hl. unfold nearer, tasks_left. rewrite Hm. unfold serve_left at 2. rewrite Hp. split_and!; [done|done|cbn; lia]. Qed.

Lemma nearer_catch e s s1 p : serving s = Some p -> stop_ s1 = true -> terminated s1 = terminated s ->
  tasks_left s1 <= tasks_left s -> 11 <= point_left (bool_decide (tasks_ s = ∅)) p -> nearer s (catch_ e s1).
Proof.
  intros Hp Hs Ht Hm Hl. destruct (catch_left e s1 Hs) as (? & ? & ? & ?). unfold nearer.
  unfold serve_left at 2. rewrite Hp. split_and!; [congruence|done|cbn; lia].
Qed.

(** ... with the task at hand. *)
Lemma nearer_put s s' a k k' p : stop_ s = true -> tasks s !! a = Some k -> tasks s' = <[a := k']> (tasks s) ->
  stop_ s' = stop_ s -> terminated s' = terminated s -> serving s' = Some p ->
  serve_left s' + task_left k' + 1 <= serve_left s + task_left k -> nearer s s'.
Proof.
  intros Hs Ha Hm Hs' Ht Hp Hl. split; [done|]. split; [left; congruence|].
  pose proof (tasks_left_put a k k' s Ha) as Hput. unfold tasks_left in *. cbn in Hput. rewrite Hm, Hput. lia.
Qed.

Lemma fetch_left_ge p : 25 <= fetch_left p.
Proof. by destruct p. Qed.

Lemma fetch_nearer q x s s' : serving s = Some (Fetching q) -> stop_ s = true ->
  serve_step (Fetching q) x s = Some s' -> nearer s s'.
Proof.
  intros Hp Hs (l & h & r & Hf & ->)%fetching_spec. pose proof (fetch_left_ge q). destruct r as [q'| |e].
  - apply (nearer_moved s _ _ Hp); [by left|done..|]. cbn [serve_left go set_frame serving from_option point_left].
    pose proof (fetch_left_step _ _ _ _ _ _ _ Hf). unfold serve_left. cbn. lia.
  - apply (nearer_moved s _ _ Hp); [by left|done..|]. unfold serve_left. cbn. lia.
  - apply (nearer_catch e s _ _ Hp); [done..| |]; unfold tasks_left; cbn; lia.
Qed.

Lemma new_task_nearer a s s' : serving s = Some NewTask -> stop_ s = true -> new_task a s = Some s' -> nearer s s'.
Proof.
  intros Hp Hs (k & Ha & Hk & ->)%new_task_spec. split; [done|]. split; [by left|].
  change (tasks_left (go (NewThread a) (put a k s))) with (tasks_left (put a k s)). rewrite tasks_left_new by done.
  unfold serve_left, task_left. rewrite Hp, Hk. cbn. lia.
Qed.

Lemma insert_nearer a s s' : inv s -> serving s = Some (Insert a) -> stop_ s = true -> insert_section a s = Some s' -> nearer s s'.
Proof.
  intros Hi Hp Hs. pose proof (inv_place s Hi) as Hpl. unfold place_ok in Hpl. rewrite Hp in Hpl.
  destruct Hpl as (k & Ha & Hk). unfold insert_section. rewrite Ha. intros [= <-].
  apply (nearer_put s _ a k (at_ Listed k) (StartThread a)); [done..|]. unfold serve_left, task_left. rewrite Hp, Hk. cbn. lia.
Qed.

Lemma drop_nearer a e s p : serving s = Some p -> inv s -> stop_ s = true -> p = NewThread a \/ p = Insert a ->
  nearer s (catch_ e (remove a s)).
Proof.
  intros Hp Hi Hs Hpa. pose proof (inv_place s Hi) as Hpl. unfold place_ok in Hpl. rewrite Hp in Hpl.
  assert (exists k, tasks s !! a = Some k) as (k & Ha) by (destruct Hpa as [-> | ->]; naive_solver).
  apply (nearer_catch e s _ _ Hp); [done..| |by destruct Hpa as [-> | ->]].
  rewrite (tasks_left_remove a k) by done. pose proof (task_left_nonneg k). lia.
Qed.

Lemma join_nearer s : serving s = Some (Join false) -> stop_ s = true -> nearer s (join_section s).
Proof.
  intros Hp Hs. unfold join_section. case_bool_decide as Hz; (eapply nearer_moved; [exact Hp|by left|done..|]);
    unfold serve_left; cbn; by rewrite ?(bool_decide_false _ Hz), ?(bool_decide_true _ Hz).
Qed.

Lemma serve_nearer p x s s' : inv s -> serving s = Some p -> stop_ s = true -> serve_step p x s = Some s' -> nearer s s'.
Proof.
  intros Hi Hp Hs He. pose proof (inv_place s Hi) as Hpl. unfold place_ok in Hpl. rewrite Hp in Hpl.
  destruct p as [| | |q| | |a|a|a|[|t todo] again| | |[]|]; try (by apply (fetch_nearer q x)); cbn [serve_step] in He.
  8: { destruct Hpl as (k & Ha & Hk). unfold start_thread in He. rewrite Ha in He. cbn in He.
    destruct x; try done; injection He as <-.
    - apply (nearer_put s _ a k (at_ Begin k) Test); [done..|]. unfold serve_left, task_left. rewrite Hp, Hk. cbn. lia.
    - apply (nearer_catch e s _ _ Hp); [done..| |done]. rewrite (tasks_left_put a k) by done. pose proof (task_left_nonneg k).
      change (task_left (at_ Stranded k)) with 0. lia. }
  all: destruct x as [|[t'|]|q|b|e]; try discriminate He; try (by apply (new_task_nearer t' s)); try (by apply (insert_nearer a s)).
  all: try (destruct (eventHandler_ s); [|discriminate He]); injection He as <-; rewrite ?Hs.
  all: try (apply (drop_nearer a e s _ Hp); [done..|tauto]); try (by apply (nearer_catch e s s _ Hp)); try (by apply join_nearer).
  all: try (match goal with |- context [handler ?e] => destruct (handler e) as [[]|] end);
    try (match goal with |- context [if ?b then _ else _] => destruct b end);
    (eapply nearer_moved; [exact Hp|first [by left|by right]|done..|]).
  all: cbn [serve_left go leave set_frame closed count_joined set_stop serving from_option point_left]; try lia;
    try case_bool_decide; rewrite ?zlen_cons; try (pose proof (zlen_nonneg todo)); zlist.
Qed.

(** ** The tasks *)

(** An answer that keeps a conversation going. *)
Definition again (x : answer) : bool := match x with Says true => true | _ => false end.

Lemma talk_left_step b p x r : talk_step b p x = Some r ->
  match r with
  | Talk q => talk_left q + 1 <= talk_left p + 3 * Z.b2z (again x)
  | Over => p = DeleteContext
  | Uncaught _ => True
  end.
Proof. destruct p, x as [| | |[]|]; cbn; destruct b; try done; intros [= <-]; cbn; done || lia. Qed.

Lemma task_left_positive k : place k <> Stranded -> 1 <= task_left k.
Proof. unfold task_left. destruct (place k) as [| | | |[]| | |]; cbn; done || lia. Qed.

Lemma put_left a k k' s : tasks s !! a = Some k ->
  serve_left (put a k' s) + tasks_left (put a k' s) = serve_left s + tasks_left s - task_left k + task_left k'.
Proof. intros Ha. rewrite (tasks_left_put a k k' s Ha). change (serve_left (put a k' s)) with (serve_left s). lia. Qed.

Definition erased (a : address) (s : System) : System := remove a (set_tasks_ (tasks_ s ∖ {[a]}) s).

Lemma erase_spec a s :
  erase_section a s = erased a s \/
  serving s = Some (Join true) /\ tasks_ (erased a s) = ∅ /\ erase_section a s = go (Join false) (erased a s).
Proof.
  unfold erase_section. fold (erased a s). change (serving (erased a s)) with (serving s).
  destruct (serving s) as [[| | |q| | |b|b|b| | | |[]|]|]; auto. case_bool_decide; auto.
Qed.

Lemma point_left_mono b b' p : (b = true -> b' = true) -> point_left b' p <= point_left b p.
Proof. intros Hb. destruct p as [| | |q| | | | | |todo| | |[]|]; cbn [point_left]; try done. destruct b; [by rewrite Hb|by destruct b']. Qed.

Lemma erased_left a s : serve_left (erased a s) <= serve_left s.
Proof.
  unfold serve_left. change (serving (erased a s)) with (serving s). destruct (serving s) as [p|]; [|done].
  apply point_left_mono. rewrite !bool_decide_eq_true. cbn. set_solver.
Qed.

Lemma erase_left a k s : tasks s !! a = Some k ->
  let s' := erase_section a s in
  serve_left s' <= serve_left s /\ tasks_left s' = tasks_left s - task_left k /\ terminated s' = terminated s /\
  stop_ s' = stop_ s /\ (serving s = None -> serving s' = None).
Proof.
  intros Ha. cbv zeta. pose proof (tasks_left_remove a k (set_tasks_ (tasks_ s ∖ {[a]}) s) Ha) as Hr.
  destruct (erase_spec a s) as [->|(Hp & Hz & ->)].
  - split; [apply erased_left|]. split; [exact Hr|]. by repeat split.
  - split; [|split; [exact Hr|]; by rewrite Hp].
    unfold serve_left. rewrite Hp. cbn [go serving from_option point_left]. by rewrite bool_decide_true.
Qed.

Lemma serve_left_nonneg s : 0 <= serve_left s.
Proof. unfold serve_left. destruct (serving s); [apply point_left_nonneg|done]. Qed.

Lemma tasks_left_ge a k s : tasks s !! a = Some k -> task_left k <= tasks_left s.
Proof.
  intros Ha. unfold tasks_left. rewrite (msum_split _ _ _ _ Ha).
  pose proof (msum_nonneg task_left (delete a (tasks s)) task_left_nonneg). lia.
Qed.

(** A task that moves: it is one step nearer, or has been answered to go on. *)
Definition closer (x : answer) (s s' : System) : Prop :=
  (stopping s -> stopping s') /\ steps_left s' + 1 <= steps_left s + 3 * Z.b2z (again x).

Lemma closer_put a k k' x s : terminated s = false -> tasks s !! a = Some k ->
  task_left k' + 1 <= task_left k + 3 * Z.b2z (again x) -> closer x s (put a k' s).
Proof.
  intros Ht Ha Hl. split; [done|]. unfold steps_left. change (terminated (put a k' s)) with (terminated s). rewrite Ht.
  change (msum task_left (tasks ?s)) with (tasks_left s). pose proof (put_left a k k' s Ha). lia.
Qed.

Lemma closer_terminate a k x s s' : terminated s = false -> tasks s !! a = Some k -> place k <> Stranded ->
  terminated s' = true -> stop_ s' = stop_ s -> serving s' = serving s -> closer x s s'.
Proof.
  intros Ht Ha Hk Ht' Hs Hp. unfold closer, stopping, steps_left. rewrite Ht, Ht', Hs, Hp. split; [done|].
  pose proof (tasks_left_ge a k s Ha). pose proof (task_left_positive k Hk). pose proof (serve_left_nonneg s).
  unfold tasks_left in *. destruct (again x); cbn; lia.
Qed.

Lemma closer_close a k q x next s s' : terminated s = false -> tasks s !! a = Some k -> place k <> Stranded ->
  task_left (at_ next k) + 1 <= task_left k -> close_step a k q x next s = Some s' -> closer x s s'.
Proof.
  intros Ht Ha Hk Hl. unfold close_step. destruct (close_caught x) as [[e|]|]; [| |done]; intros [= <-].
  - by eapply closer_terminate.
  - pose proof (b2z_nonneg (again x)).
    apply (closer_put a k (at_ next k) x (closed (getTransport q) s)) in Ht as [? ?]; [|done|lia]. by split.
Qed.

Lemma task_closer a k x s s' : terminated s = false -> tasks s !! a = Some k -> task_step a k x s = Some s' -> closer x s s'.
Proof.
  intros Ht Ha He. destruct (place k) as [| | | |q| | |] eqn:Hk.
  5: { assert (Hl : task_left k = talk_left q) by (unfold task_left; by rewrite Hk).
    destruct (talking_spec a k q x s s' Hk He) as (r & Hr & ->). pose proof (talk_left_step _ _ _ _ Hr) as Hr'.
    destruct r as [q'| |e]; [|subst q|by eapply closer_terminate; rewrite ?Hk].
    - apply (closer_put a k); [done..|]. rewrite Hl. exact Hr'.
    - apply (closer_put a k); [done..|]. rewrite Hl. pose proof (b2z_nonneg (again x)). cbn [task_left at_ place talk_left]. cbn. lia. }
  all: unfold task_step in He; rewrite Hk in He; try done.
  - destruct x; try done. injection He as <-. apply (closer_put a k); [done..|]. unfold task_left. rewrite Hk. cbn. lia.
  - eapply closer_close; [done|done|by rewrite Hk| |exact He]. unfold task_left. rewrite Hk. cbn. lia.
  - eapply closer_close; [done|done|by rewrite Hk| |exact He]. unfold task_left. rewrite Hk. cbn. lia.
  - destruct x; try done. injection He as <-. destruct (erase_left a k s Ha) as (H1 & H2 & H3 & H4 & H5). split.
    + intros [Hs|Hs]; [left; congruence|right; auto].
    + unfold steps_left. rewrite H3, Ht. change (msum task_left (tasks ?s)) with (tasks_left s).
      assert (task_left k = 1) by (unfold task_left; by rewrite Hk). cbn. lia.
Qed.

(** ** Runs *)

Definition is_serve (e : event) : bool := match e with Serve => true | _ => false end.

(** The steps of [serve] and of the tasks in a run; the answers in it that keep a
    conversation going; the times [serve] wakes without a reason. *)
Definition is_step (e : event) : bool := match e with ServeStep _ | TaskStep _ _ => true | _ => false end.
Definition is_answer (e : event) : bool := match e with TaskStep _ x => again x | _ => false end.
Definition is_wake (e : event) : bool := match e with Wake => true | _ => false end.

Fixpoint count (f : event -> bool) (es : list event) : Z :=
  match es with [] => 0 | e :: es => Z.b2z (f e) + count f es end.

Lemma closer_exec e s s' : inv s -> stopping s -> is_serve e = false -> exec e s = Some s' ->
  stopping s' /\
  Z.b2z (is_step e) + steps_left s' <= steps_left s + 3 * Z.b2z (is_answer e) + Z.b2z (is_wake e).
Proof.
  intros Hi Hs Hns. unfold exec. destruct (terminated s) eqn:Ht; [done|]. destruct e as [|x|a x| | |b]; [done|..].
  - destruct (serving s) as [p|] eqn:Hp; [|done]. cbn [mbind option_bind]. intros He.
    assert (Hst : stop_ s = true) by (destruct Hs; congruence).
    destruct (serve_nearer p x s s' Hi Hp Hst He) as (Ht' & Hs' & Hl). split; [done|].
    unfold steps_left. rewrite Ht', Ht. fold (tasks_left s') (tasks_left s). cbn. lia.
  - destruct (tasks s !! a) as [k|] eqn:Ha; [|done]. cbn [mbind option_bind]. intros He.
    destruct (task_closer a k x s s' Ht Ha He) as [Hs' Hl]. split; [auto|]. cbn. lia.
  - destruct (serving s) as [[| | |q| | |b|b|b| | | |[]|]|] eqn:Hp; try done. intros [= <-].
    split; [by left; destruct Hs; [|congruence]|].
    unfold steps_left, serve_left. change (terminated (go (Join false) s)) with (terminated s). rewrite Ht, Hp.
    cbn [go serving from_option point_left tasks is_step is_answer is_wake Z.b2z]. case_bool_decide; lia.
  - intros [= <-]. split; [by left|]. change (steps_left (stop s)) with (steps_left s). cbn. lia.
  - intros [= <-]. split; [done|]. change (steps_left (set_eventHandler b s)) with (steps_left s). cbn. lia.
Qed.

Lemma closer_run es s s' : inv s -> stopping s -> Forall (fun e => is_serve e = false) es -> exec_all es s = Some s' ->
  inv s' /\ count is_step es + steps_left s' <= steps_left s + 3 * count is_answer es + count is_wake es.
Proof.
  revert s. induction es as [|e es IH]; intros s Hi Hs Hns.
  - intros [= <-]. split; [done|]. cbn. lia.
  - inversion_clear Hns as [|? ? He Hes]. intros (s1 & Hex & Hrest)%exec_run_cons.
    destruct (closer_exec e s s1 Hi Hs He Hex) as [Hs1 Hl].
    destruct (IH s1) as [Hi' Hl']; [by eapply inv_exec|done..|]. split; [done|]. cbn [count]. lia.
Qed.

(** ** After the wait *)

(** [serve] has waited and all tasks are gone. *)
Definition waited (s : System) : Prop := tasks s = ∅ /\ (serving s = Some Finish \/ serving s = None).

Lemma waited_exec e s s' : waited s -> is_serve e = false -> exec e s = Some s' -> waited s' /\ joined s' = joined s.
Proof.
  intros [Hm Hp] Hns. unfold exec. destruct (terminated s); [done|]. unfold waited.
  destruct e as [|x|a x| | |b]; [done|..].
  - destruct Hp as [Hp|Hp]; rewrite Hp; [|done]. destruct x; try done. intros [= <-]. cbn. auto.
  - by rewrite Hm.
  - destruct Hp as [Hp|Hp]; by rewrite Hp.
  - intros [= <-]. auto.
  - intros [= <-]. auto.
Qed.

Lemma joined_catch e s : joined (catch_ e s) = joined s.
Proof. unfold catch_. by destruct (handler e). Qed.

Lemma joined_serve_step p x s s' : serve_step p x s = Some s' -> serving s = Some p ->
  joined s' = joined s \/ joined s' = joined s + 1 /\ p = Join false /\ tasks_ s = ∅ /\ s' = go Finish (count_joined s).
Proof.
  intros He Hp. destruct p as [| | |q| | |a|a|a|[|t todo] again| | |[]|].
  4: { left. apply fetching_spec in He as (l & h & r & _ & ->). destruct r; rewrite ?joined_catch; done. }
  all: cbn [serve_step] in He.
  8: { left. unfold start_thread in He. destruct (tasks s !! a); [|by destruct x]. destruct x; try done;
    injection He as <-; rewrite ?joined_catch; done. }
  all: destruct x as [|[t'|]|q|b|e]; try discriminate He.
  all: try (destruct (eventHandler_ s); [|discriminate He]).
  all: try (left; by apply new_task_spec in He as (k & _ & _ & ->)).
  all: try (unfold insert_section in He; destruct (tasks s !! a); [|discriminate He]).
  all: injection He as <-; rewrite ?joined_catch; try (by left).
  - left. by destruct (stop_ s).
  - left. by destruct (stop_ s).
  - left. by destruct (handler e) as [[]|].
  - unfold join_section. case_bool_decide; [right|by left]. done.
Qed.

Lemma joined_task_step a k x s s' : task_step a k x s = Some s' -> joined s' = joined s.
Proof.
  intros He. destruct (place k) as [| | | |q| | |] eqn:Hk.
  5: { destruct (talking_spec a k q x s s' Hk He) as ([] & _ & ->); done. }
  all: unfold task_step, close_step in He; rewrite Hk in He; try done.
  - destruct x; try done. by injection He as <-.
  - destruct (close_caught x) as [[]|]; [..|done]; by injection He as <-.
  - destruct (close_caught x) as [[]|]; [..|done]; by injection He as <-.
  - destruct x; try done. injection He as <-. by destruct (erase_spec a s) as [->|(_ & _ & ->)].
Qed.

Lemma joined_exec e s s' : inv s -> exec e s = Some s' ->
  joined s' = joined s \/ joined s' = joined s + 1 /\ tasks_ s = ∅ /\ waited s'.
Proof.
  intros Hi He. pose proof (inv_exec e s s' Hi He) as Hi'. revert He.
  unfold exec. destruct (terminated s); [done|]. destruct e as [|x|a x| | |b].
  - destruct (serving s); [done|]. intros [= <-]. by left.
  - destruct (serving s) as [p|] eqn:Hp; [|done]. intros He.
    destruct (joined_serve_step p x s s' He Hp) as [|(Hj & _ & Hz & ->)]; [by left|right].
    split; [done|]. split; [done|]. split; [|by left]. exact (inv_place _ Hi').
  - destruct (tasks s !! a) as [k|]; [|done]. intros He. left. by eapply joined_task_step.
  - destruct (serving s) as [[| | |q| | |c|c|c| | | |[]|]|]; try done. intros [= <-]. by left.
  - intros [= <-]. by left.
  - intros [= <-]. by left.
Qed.

(** As long as [serve] is not called again. *)
Lemma joined_run es s s' : inv s -> Forall (fun e => is_serve e = false) es -> exec_all es s = Some s' ->
  joined s' = joined s \/ joined s' = joined s + 1 /\ waited s'.
Proof.
  revert s. induction es as [|e es IH]; intros s Hi Hns; [intros [= <-]; by left|].
  inversion_clear Hns as [|? ? He Hes]. intros (s1 & Hex & Hrest)%exec_run_cons.
  pose proof (inv_exec e s s1 Hi Hex) as Hi1.
  destruct (joined_exec e s s1 Hi Hex) as [<-|(Hj & _ & Hw)]; [by apply IH|].
  right. clear -Hj Hw Hes Hrest. revert s1 Hj Hw Hrest. induction es as [|e es IH]; intros s1 Hj Hw; [intros [= <-]; done|].
  inversion_clear Hes as [|? ? He Hes']. intros (s2 & Hex & Hrest)%exec_run_cons.
  destruct (waited_exec e s1 s2 Hw He Hex) as [Hw2 Hj2]. apply (IH Hes' s2); [congruence|done|done].
Qed.

(** ** A start that failed *)

Definition stranded (a : address) (s : System) : Prop := exists k, tasks s !! a = Some k /\ place k = Stranded.

Lemma stranded_put a b k s : stranded a s -> (forall k', tasks s !! b = Some k' -> place k' <> Stranded) -> stranded a (put b k s).
Proof.
  intros (k' & Ha & Hk) Hb. exists k'. split; [|done]. cbn. rewrite lookup_insert_ne; [done|]. intros ->. by destruct (Hb k').
Qed.

Lemma stranded_remove a b s : stranded a s -> (forall k', tasks s !! b = Some k' -> place k' <> Stranded) -> stranded a (remove b s).
Proof.
  intros (k' & Ha & Hk) Hb. exists k'. split; [|done]. cbn. rewrite lookup_delete_ne; [done|]. intros ->. by destruct (Hb k').
Qed.

Lemma stranded_catch a e s : stranded a s -> stranded a (catch_ e s).
Proof. unfold catch_. by destruct (handler e). Qed.

(** Waiting for it never ends. *)
Lemma stranded_waits a s : inv s -> stranded a s -> tasks_ s <> ∅ /\ serving s <> Some Finish.
Proof.
  intros Hi (k & Ha & Hk). split.
  - intros Hz. pose proof (proj2 (inv_tasks s Hi a)) as Hin. rewrite Hz in Hin.
    apply (not_elem_of_empty (C := gset address) a), Hin. exists k. by rewrite Hk.
  - intros Hp. pose proof (inv_place s Hi) as Hpl. unfold place_ok in Hpl. rewrite Hp in Hpl. by rewrite Hpl in Ha.
Qed.

Lemma stranded_serve_step a p x s s' : inv s -> stranded a s -> serving s = Some p -> serve_step p x s = Some s' -> stranded a s'.
Proof.
  intros Hi Hst Hp He. pose proof (inv_place s Hi) as Hpl. unfold place_ok in Hpl. rewrite Hp in Hpl.
  destruct p as [| | |q| | |b|b|b|[|t todo] again| | |[]|].
  4: { apply fetching_spec in He as (l & h & r & _ & ->). destruct r; try apply stranded_catch; done. }
  all: cbn [serve_step] in He.
  8: { destruct Hpl as (k & Hb & Hk). unfold start_thread in He. rewrite Hb in He. cbn in He.
    assert (Hput : forall q, stranded a (put b (at_ q k) s)) by (intros q; apply stranded_put; [done|congruence]).
    destruct x; try done; injection He as <-; [exact (Hput Begin)|apply stranded_catch; exact (Hput Stranded)]. }
  all: destruct x as [|[t'|]|q|c|e]; try discriminate He.
  all: try (destruct (eventHandler_ s); [|discriminate He]).
  all: try (apply new_task_spec in He as (k & Hb & _ & ->); apply (stranded_put a t' k s); [done|by rewrite Hb]).
  all: try destruct Hpl as (k & Hb & Hk); try (unfold insert_section in He; rewrite Hb in He).
  all: injection He as <-; try apply stranded_catch; try done.
  all: try (apply (stranded_remove a b); [done|congruence]).
  all: unfold join_section; repeat (case_match; try done).
  apply (stranded_put a b (at_ Listed k) s); [done|congruence].
Qed.

Lemma stranded_task_step a b k x s s' : stranded a s -> tasks s !! b = Some k -> task_step b k x s = Some s' -> stranded a s'.
Proof.
  intros Hst Hb He.
  assert (Hne : place k <> Stranded) by (intros Hk; unfold task_step in He; by rewrite Hk in He).
  assert (Hput : forall j s1, tasks s1 = tasks s -> stranded a (put b j s1)).
  { intros j s1 Hm. apply stranded_put; unfold stranded; rewrite Hm; [done|congruence]. }
  destruct (place k) as [| | | |q| | |] eqn:Hk.
  5: { destruct (talking_spec b k q x s s' Hk He) as ([] & _ & ->); [by apply Hput..|done]. }
  all: unfold task_step, close_step in He; rewrite Hk in He; try done.
  - destruct x; try done. injection He as <-. by apply Hput.
  - destruct (close_caught x) as [[]|]; [..|done]; injection He as <-; [done|by apply Hput].
  - destruct (close_caught x) as [[]|]; [..|done]; injection He as <-; [done|by apply Hput].
  - destruct x; try done. injection He as <-.
    assert (Hr : stranded a (erased b s)) by (apply (stranded_remove a b (set_tasks_ _ s)); [done|cbn; congruence]).
    by destruct (erase_spec b s) as [->|(_ & _ & ->)].
Qed.

Lemma stranded_task_exec a e s s' : inv s -> stranded a s -> exec e s = Some s' -> stranded a s' /\ joined s' = joined s.
Proof.
  intros Hi Hst He. split.
  - revert He. unfold exec. destruct (terminated s); [done|]. destruct e as [|x|b x| | |b].
    + destruct (serving s); [done|]. by intros [= <-].
    + destruct (serving s) as [p|] eqn:Hp; [|done]. by apply stranded_serve_step.
    + destruct (tasks s !! b) as [k|] eqn:Hb; [|done]. by apply stranded_task_step.
    + destruct (serving s) as [[| | |q| | |c|c|c| | | |[]|]|]; try done. by intros [= <-].
    + by intros [= <-].
    + by intros [= <-].
  - destruct (joined_exec e s s' Hi He) as [|(_ & Hz & _)]; [done|]. by destruct (stranded_waits a s Hi Hst).
Qed.

Lemma stranded_run a es s s' : inv s -> stranded a s -> exec_all es s = Some s' ->
  inv s' /\ stranded a s' /\ joined s' = joined s.
Proof.
  revert s. induction es as [|e es IH]; intros s Hi Hst; [by intros [= <-]|].
  intros (s1 & He & Hes)%exec_run_cons. destruct (stranded_task_exec a e s s1 Hi Hst He) as [Hst1 <-].
  apply IH; [by eapply inv_exec|done..].
Qed.

(** ** When nothing moves *)

Lemma blocked s p : inv s -> terminated s = false -> serving s = Some p ->
  (forall x, exec (ServeStep x) s = None) -> (forall a x, exec (TaskStep a x) s = None) ->
  p = Join true /\ tasks_ s <> ∅ /\ forall a, a ∈ tasks_ s -> stranded a s.
Proof.
  intros Hi Ht Hp Hs Hk.
  assert (p = Join true) as ->.
  { destruct p as [| | |q| | |b|b|b| | | |[]|]; try done;
      (destruct (serve_enabled _ s Hi Ht Hp) as (x & s' & Hx); [done|by rewrite Hs in Hx]). }
  pose proof (inv_place s Hi) as Hpl. unfold place_ok in Hpl. rewrite Hp in Hpl.
  split; [done|]. split; [done|]. intros a (k & Ha & Hc)%(inv_tasks s Hi). exists k. split; [done|].
  assert (Hl : place k <> Listed).
  { intros Hl. destruct (inv_created s Hi a k Ha (or_intror Hl)) as [|[|]]; congruence. }
  destruct (decide (place k = Stranded)) as [|Hn]; [done|].
  destruct (task_enabled a k s Ht Ha Hc Hl Hn) as (x & s' & Hx). by rewrite Hk in Hx.
Qed.
