(* ===== verification/ServerTheorems.v ===== *)
(** * Theorems on the servers

    That TSimpleServer closes each connection before the next and ends when it is told
    to; which tasks TThreadedServer knows of, how it waits for them and how it stops;
    what becomes of it when a thread cannot be started; each with a concrete run.
    Before them, that what has been obtained and has not been asked to close is at the
    hand of the thread in [serve] or of a task. *)

From S2P Require Export ThreadedTasks.

Lemma held_closed b t u h : u ∈ held b (Closed t :: h) <-> u ∈ held b h /\ u <> t.
Proof. cbn. set_solver. Qed.
Lemma held_obtained b t u h : u ∈ held b (Obtained t :: h) <-> u = t \/ u ∈ held b h.
Proof. cbn. set_solver. Qed.
Lemma held_accepted t u h : u ∈ held true (Accepted t :: h) <-> u = t \/ u ∈ held true h.
Proof. cbn. set_solver. Qed.

Lemma in_to_close t l : t ∈ to_close l <-> inputTransport l = Some t \/ outputTransport l = Some t \/ client l = Some t.
Proof. destruct l as [[] [] [] ip op]; cbn; rewrite ?elem_of_cons, elem_of_nil; naive_solver. Qed.

(** ** TSimpleServer *)

Module Simple.
Import SimpleServer.

(** What has been obtained in this round, by the place in the fetch. *)
Definition fetch_owns (p : fetch) (l : locals) (t : address) : Prop :=
  match p with
  | Accept => False
  | GetInputTransport => client l = Some t
  | GetOutputTransport => client l = Some t \/ inputTransport l = Some t
  | _ => client l = Some t \/ inputTransport l = Some t \/ outputTransport l = Some t
  end.

Definition owns (s : System) (t : address) : Prop :=
  match serving s with
  | Some (Fetching p) => fetch_owns p (frame s) t
  | Some (Catching todo _) => t ∈ todo
  | Some (GetProcessor | Talking _ | CloseInput) => t ∈ to_close (frame s)
  | Some CloseOutput => outputTransport (frame s) = Some t \/ client (frame s) = Some t
  | Some CloseClient => client (frame s) = Some t
  | _ => False
  end.

Definition place_ok (s : System) : Prop :=
  match serving s with
  | Some (Fetching p) => fetched_before p (frame s)
  | Some (GetProcessor | Talking _ | CloseInput | CloseOutput | CloseClient) => all_fetched (frame s)
  | _ => True
  end.

Definition left_well (s : System) : Prop := Forall (fun e => e = Left) (endings s).

Record inv (s : System) : Prop := {
  inv_place : place_ok s;
  inv_owns t : left_well s -> t ∈ held true (trace s) -> owns s t
}.

Lemma simple_inv_catch e s :
  (forall t, left_well s -> t ∈ held true (trace s) -> t ∈ to_close (frame s)) -> inv (catch_ e s).
Proof.
  intros Ho. unfold catch_. destruct (handler e) as [again|]; (split; [done|]); [exact Ho|].
  intros t Hl. by inversion_clear Hl.
Qed.

Lemma inv_escape e s : inv (leave (Escaped e) s).
Proof. split; [done|]. intros t Hl. by inversion_clear Hl. Qed.

Lemma fetch_step_owns p x l h l' h' r t : fetch_step p x l h = Some (l', h', r) -> fetched_before p l ->
  (t ∈ held true h -> fetch_owns p l t) -> t ∈ held true h' ->
  match r with Fetch q => fetch_owns q l' t | _ => t ∈ to_close l' end.
Proof.
  intros Hf Hb Ho Ht. destruct l as [c i o ip op].
  destruct p, x as [|[u|]|q|[]|e]; cbn in Hf; try case_bool_decide; try done; injection Hf as <- <- <-;
    rewrite ?in_to_close; rewrite ?held_accepted, ?held_obtained in Ht; cbn in *; naive_solver.
Qed.

Lemma inv_close_step t x next s s' : inv s -> close_step t x next s = Some s' -> t <> None ->
  (place_ok (go next s)) ->
  (forall u, owns s u -> Some u = t \/ owns (go next s) u) -> inv s'.
Proof.
  intros Hi He Ht Hp Ho. unfold close_step in He. destruct t as [t|]; [|done]. cbn in He.
  destruct (close_caught x) as [[e|]|]; [| |done]; injection He as <-; [apply inv_escape|].
  split; [done|]. intros u Hl [Hu Hne]%held_closed. destruct (Ho u) as [[= ->]|]; [by apply (inv_owns s Hi)|done|done].
Qed.

Lemma simple_inv_serve_step p x s s' : inv s -> serving s = Some p -> serve_step p x s = Some s' -> inv s'.
Proof.
  intros Hi Hp He. pose proof (inv_place s Hi) as Hpl. pose proof (inv_owns s Hi) as Ho. unfold place_ok, owns in *. rewrite Hp in *.
  destruct p as [| | |q|[|t todo] again| |q| | | | |]; cbn [serve_step] in He.
  4: { destruct (fetch_step q x (frame s) (trace s)) as [[[l h] r]|] eqn:Hf; [|by destruct x].
    assert (s' = match r with Fetch q => go (Fetching q) (set_frame l h s) | Fetched => go GetProcessor (set_frame l h s)
      | Failed e => catch_ e (set_frame l h s) end) as -> by (destruct x; by injection He).
    pose proof (fetch_step_fetched _ _ _ _ _ _ _ Hf Hpl) as Hr.
    assert (Hr' : forall t, left_well s -> t ∈ held true h -> match r with Fetch q => fetch_owns q l t | _ => t ∈ to_close l end)
      by (intros t Hl Ht; eapply fetch_step_owns; eauto).
    destruct r as [q'| |e]; [by split|by split|by apply simple_inv_catch]. }
  7: { destruct (talk_step (eventHandler_ s) q x) as [r|] eqn:Hr; [|by destruct x].
    assert (s' = match r with Talk q => go (Talking q) s | Over => go CloseInput s | Uncaught e => leave (Escaped e) s end)
      as -> by (destruct x; by injection He).
    destruct r as [q'| |e]; [by split|by split|apply inv_escape]. }
  7: { apply (inv_close_step (inputTransport (frame s)) x CloseOutput s); try done.
    - destruct Hpl as (_ & (j & _ & ->) & _). done.
    - unfold owns. rewrite Hp. intros u. rewrite in_to_close. cbn. naive_solver. }
  7: { apply (inv_close_step (outputTransport (frame s)) x CloseClient s); try done.
    - destruct Hpl as (_ & _ & j & _ & ->). done.
    - unfold owns. rewrite Hp. cbn. naive_solver. }
  7: { apply (inv_close_step (client (frame s)) x Test s); try done.
    - destruct Hpl as ([c ->] & _). done.
    - unfold owns. rewrite Hp. cbn. naive_solver. }
  8: { destruct (close_caught x) as [[e|]|]; [| |done]; injection He as <-; [apply inv_escape|].
    split; [done|]. intros t Hl. inversion_clear Hl. by apply Ho. }
  all: destruct x as [|[t'|]|q|b|e]; try discriminate He.
  all: try (destruct (eventHandler_ s); [|discriminate He]); injection He as <-; try apply inv_escape.
  all: repeat match goal with |- context [if ?b then _ else _] => destruct b end; try (by split).
  all: split; [done|]; intros u Hl Hu; try (apply held_closed in Hu as [Hu Hne]).
  - by destruct (not_elem_of_nil u (Ho u Hl Hu)).
  - by destruct (not_elem_of_nil u (Ho u Hl Hu)).
  - cbn. by destruct (proj1 (elem_of_cons _ _ _) (Ho u Hl Hu)).
  - inversion_clear Hl. by destruct (Ho u).
Qed.

Lemma simple_inv_exec e s s' : inv s -> exec e s = Some s' -> inv s'.
Proof.
  intros Hi. destruct e as [|x| |b]; cbn [exec].
  - destruct (serving s) eqn:Hp; [done|]. intros [= <-]. split; [done|]. intros t Hl Ht.
    pose proof (inv_owns s Hi t Hl Ht) as Ho. unfold owns in Ho. by rewrite Hp in Ho.
  - destruct (serving s) as [p|] eqn:Hp; [|done]. by apply simple_inv_serve_step.
  - intros [= <-]. destruct Hi as [Hp Ho]. by split.
  - intros [= <-]. destruct Hi as [Hp Ho]. by split.
Qed.

Lemma simple_reachable_inv s : reachable s -> inv s.
Proof. induction 1; [split; [done|]; intros t _; cbn; set_solver|by eapply simple_inv_exec]. Qed.

(** ** How it stops *)

Lemma simple_serve_enabled s p : inv s -> serving s = Some p -> exists x s', exec (ServeStep x) s = Some s'.
Proof.
  intros Hi Hp. pose proof (inv_place s Hi) as Hpl. unfold place_ok in Hpl. cbn [exec]. rewrite Hp in *. cbn [mbind option_bind].
  destruct p as [| | |q|[|t todo] again| |q| | | | |]; try (by exists Returns; eexists).
  - destruct (fetch_step_enabled q (frame s) (trace s)) as (x & [[l h] r] & Hr). exists x. cbn. rewrite Hr. by destruct x; eexists.
  - destruct (talk_step_enabled (eventHandler_ s) q) as (x & r & Hr). exists x. cbn. rewrite Hr. by destruct x; eexists.
  - exists Returns. destruct Hpl as (_ & (j & _ & Hj) & _). cbn. unfold close_step. rewrite Hj. by eexists.
  - exists Returns. destruct Hpl as (_ & _ & j & _ & Hj). cbn. unfold close_step. rewrite Hj. by eexists.
  - exists Returns. destruct Hpl as ([c Hc] & _). cbn. unfold close_step. rewrite Hc. by eexists.
Qed.

(** Steps to the end when [stop_] is set. *)
Definition point_left (p : point) : Z :=
  match p with
  | Listen => 5
  | PreServe => 4
  | Test => 3
  | Fetching q => fetch_left q - 12
  | Catching todo _ => 4 + zlen todo
  | GetProcessor => 12
  | Talking q => talk_left q + 3
  | CloseInput => 6
  | CloseOutput => 5
  | CloseClient => 4
  | After => 2
  | ServerClose => 1
  end.

Definition serve_left (s : System) : Z := from_option point_left 0 (serving s).
Definition stopping (s : System) : Prop := stop_ s = true \/ serving s = None.

Lemma simple_serve_left_nonneg s : 0 <= serve_left s.
Proof.
  unfold serve_left. destruct (serving s) as [[| | |q|todo again| |q| | | | |]|]; cbn [from_option point_left]; try lia.
  - pose proof (fetch_left_ge q). lia.
  - pose proof (zlen_nonneg todo). lia.
  - destruct q; cbn; lia.
Qed.

Lemma simple_catch_left e s : stop_ s = true -> stopping (catch_ e s) /\ serve_left (catch_ e s) <= 7.
Proof.
  intros Hs. unfold catch_, stopping, serve_left. pose proof (to_close_left (frame s)).
  destruct (handler e); cbn [go leave serving from_option point_left]; (split; [auto|lia]).
Qed.

Lemma close_left t x next s s' : stop_ s = true -> close_step t x next s = Some s' -> 0 <= point_left next ->
  stopping s' /\ serve_left s' <= point_left next.
Proof.
  intros Hs He Hn. unfold close_step in He. destruct t; [|done]. cbn in He.
  destruct (close_caught x) as [[e|]|]; [| |done]; injection He as <-; (split; [by (left; exact Hs) || by right|done]).
Qed.

Lemma simple_serve_nearer p x s s' : serving s = Some p -> stop_ s = true -> serve_step p x s = Some s' ->
  stopping s' /\ serve_left s' + 1 <= serve_left s + 3 * Z.b2z (again x).
Proof.
  intros Hp Hs He. unfold serve_left at 2. rewrite Hp. cbn [from_option]. pose proof (b2z_nonneg (again x)) as Hb.
  destruct p as [| | |q|[|t todo] more| |q| | | | |]; cbn [serve_step] in He.
  4: { destruct (fetch_step q x (frame s) (trace s)) as [[[l h] r]|] eqn:Hf; [|by destruct x].
    assert (s' = match r with Fetch q => go (Fetching q) (set_frame l h s) | Fetched => go GetProcessor (set_frame l h s)
      | Failed e => catch_ e (set_frame l h s) end) as -> by (destruct x; by injection He).
    pose proof (fetch_left_ge q). destruct r as [q'| |e].
    - split; [by left|]. unfold serve_left. cbn [go serving from_option point_left]. pose proof (fetch_left_step _ _ _ _ _ _ _ Hf). lia.
    - split; [by left|]. unfold serve_left. cbn [go serving from_option point_left]. lia.
    - destruct (simple_catch_left e (set_frame l h s) Hs). split; [done|]. cbn [point_left]. lia. }
  7: { destruct (talk_step (eventHandler_ s) q x) as [r|] eqn:Hr; [|by destruct x].
    pose proof (talk_left_step _ _ _ _ Hr) as Hl.
    assert (s' = match r with Talk q => go (Talking q) s | Over => go CloseInput s | Uncaught e => leave (Escaped e) s end)
      as -> by (destruct x; by injection He).
    destruct r as [q'| |e]; [|subst q|]; (split; [by left; exact Hs || by right|]); unfold serve_left;
      cbn [go leave serving from_option point_left talk_left]; try lia. destruct q; cbn; lia. }
  all: try (destruct (close_left _ _ _ _ _ Hs He) as [? Hl]; [done|]; cbn [point_left] in *; split; [done|lia]).
  8: { destruct (close_caught x) as [[e|]|]; [| |done]; injection He as <-; (split; [by right|]); cbn; lia. }
  all: destruct x as [|[t'|]|q|b|e]; try discriminate He.
  all: try (destruct (eventHandler_ s); [|discriminate He]); injection He as <-; rewrite ?Hs.
  all: repeat match goal with |- context [if ?b then _ else _] => destruct b end.
  all: (split; [first [by left|by right]|]); unfold serve_left; cbn [go leave closed set_frame serving from_option point_left]; zlist.
  cbn. lia.
Qed.

Definition is_serve (e : event) : bool := match e with Serve => true | _ => false end.
Definition is_step (e : event) : bool := match e with ServeStep _ => true | _ => false end.
Definition is_answer (e : event) : bool := match e with ServeStep x => again x | _ => false end.

(** How many of the events of a run are such. *)
Fixpoint count (f : event -> bool) (es : list event) : Z :=
  match es with [] => 0 | e :: es => Z.b2z (f e) + count f es end.

Lemma nearer_exec e s s' : stopping s -> is_serve e = false -> exec e s = Some s' ->
  stopping s' /\ Z.b2z (is_step e) + serve_left s' <= serve_left s + 3 * Z.b2z (is_answer e).
Proof.
  intros Hs Hn. destruct e as [|x| |b]; [done|..]; cbn [exec].
  - destruct (serving s) as [p|] eqn:Hp; [|done]. cbn [mbind option_bind]. intros He.
    assert (Hst : stop_ s = true) by (destruct Hs; congruence).
    destruct (simple_serve_nearer p x s s' Hp Hst He) as [? Hl]. split; [done|]. cbn [is_step is_answer Z.b2z]. lia.
  - intros [= <-]. split; [by left|]. change (serve_left (stop s)) with (serve_left s). cbn. lia.
  - intros [= <-]. split; [done|]. change (serve_left (set_eventHandler b s)) with (serve_left s). cbn. lia.
Qed.

Lemma nearer_run es s s' : stopping s -> Forall (fun e => is_serve e = false) es -> exec_all es s = Some s' ->
  stopping s' /\ count is_step es + serve_left s' <= serve_left s + 3 * count is_answer es.
Proof.
  revert s. induction es as [|e es IH]; intros s Hs Hn; cbn [exec_all].
  - intros [= <-]. split; [done|]. cbn. lia.
  - inversion_clear Hn as [|? ? He Hes]. destruct (exec e s) as [s1|] eqn:Hex; [|done]. cbn [mbind option_bind]. intros Hrest.
    destruct (nearer_exec e s s1 Hs He Hex) as [Hs1 Hl]. destruct (IH s1 Hs1 Hes Hrest) as [Hs' Hl']. split; [done|].
    cbn [count]. lia.
Qed.

Lemma simple_reachable_all es s s' : reachable s -> exec_all es s = Some s' -> reachable s'.
Proof.
  revert s. induction es as [|e es IH]; intros s Hr; cbn [exec_all]; [by intros [= <-]|].
  destruct (exec e s) as [s1|] eqn:He; [|done]. cbn [mbind option_bind]. apply IH. by eapply reachable_step.
Qed.
End Simple.

(** ** TThreadedServer *)

(** What a task has still to close. *)
Definition task_owns (k : Task) (t : address) : Prop :=
  match place k with
  | CloseOutput => t = getTransport (output_ k)
  | Erase | Stranded => False
  | _ => t = getTransport (input_ k) \/ t = getTransport (output_ k)
  end.

(** What [serve] has at hand of what the factories made in this round. *)
Definition serve_owns (s : System) (t : address) : Prop :=
  match serving s with
  | Some (Fetching GetOutputTransport) => inputTransport (frame s) = Some t
  | Some (Fetching (GetInputProtocol | GetOutputProtocol) | GetProcessor | NewTask | NewThread _ | Insert _ | StartThread _) =>
      inputTransport (frame s) = Some t \/ outputTransport (frame s) = Some t
  | Some (Catching todo _) => t ∈ todo
  | _ => False
  end.

(** The task at hand is over these transports. *)
Definition linked (s : System) : Prop :=
  forall a k, own s a -> tasks s !! a = Some k ->
    inputTransport (frame s) = Some (getTransport (input_ k)) /\ outputTransport (frame s) = Some (getTransport (output_ k)).

Definition owned (s : System) (t : address) : Prop :=
  serve_owns s t \/ exists a k, tasks s !! a = Some k /\ task_owns k t.

Definition left_well (s : System) : Prop := Forall (fun e => e = Left) (endings s).

Definition kept (s : System) : Prop :=
  linked s /\ (left_well s -> forall t, t ∈ held false (trace s) -> owned s t).

Lemma owned_put a k k' s t : tasks s !! a = Some k -> owned s t -> (task_owns k t -> task_owns k' t) -> owned (put a k' s) t.
Proof.
  intros Ha [Ho|(b & j & Hb & Hj)] Hk; [by left|right]. destruct (decide (a = b)) as [<-|Hne].
  - exists a, k'. cbn. rewrite lookup_insert_eq. split; [done|]. apply Hk. rewrite Ha in Hb. by injection Hb as ->.
  - exists b, j. cbn. by rewrite lookup_insert_ne.
Qed.

Lemma linked_put a k k' s : tasks s !! a = Some k -> linked s -> input_ k' = input_ k -> output_ k' = output_ k -> linked (put a k' s).
Proof.
  intros Ha Hl Hi Ho b j Hb Hj. cbn in Hj. destruct (decide (a = b)) as [<-|Hne].
  - rewrite lookup_insert_eq in Hj. injection Hj as <-. rewrite Hi, Ho. by apply (Hl a).
  - rewrite lookup_insert_ne in Hj by done. by apply (Hl b).
Qed.

Lemma kept_put a k k' s : tasks s !! a = Some k -> kept s -> input_ k' = input_ k -> output_ k' = output_ k ->
  (forall t, task_owns k t -> task_owns k' t) -> kept (put a k' s).
Proof.
  intros Ha [Hl Hh] Hi Ho Hk. split; [by eapply linked_put|]. intros Hw t Ht. eapply owned_put; [done|by apply Hh|apply Hk].
Qed.

(** [serve] goes to a place without a task at hand. *)
Lemma kept_go s s' : kept s -> tasks s' = tasks s -> trace s' = trace s -> (left_well s' -> left_well s) ->
  (forall a, ~ own s' a) -> (forall t, left_well s -> serve_owns s t -> serve_owns s' t) -> kept s'.
Proof.
  intros [Hl Hh] Hm Ht Hw Hn Ho. split; [by intros a k []%Hn|]. rewrite Ht. intros Hw' t Hin.
  destruct (Hh (Hw Hw') t Hin) as [Hs|(a & k & Ha & Hk)]; [left; auto|]. right. exists a, k. by rewrite Hm.
Qed.

Lemma kept_escape e s : kept (leave (Escaped e) s).
Proof. split; [intros a k [Ha|[Ha|Ha]]; discriminate Ha|]. intros Hw. by inversion_clear Hw. Qed.

Lemma kept_catch e s :
  (left_well s -> forall t, t ∈ held false (trace s) -> t ∈ to_close (frame s) \/ exists a k, tasks s !! a = Some k /\ task_owns k t) ->
  kept (catch_ e s).
Proof.
  intros Hh. unfold catch_. destruct (handler e) as [again|]; [|apply kept_escape].
  split; [intros a k [Ha|[Ha|Ha]]; discriminate Ha|]. intros Hw t Ht. by destruct (Hh Hw t Ht); [left|right].
Qed.

(** Whatever [serve] owns before a handler is entered is closed there. *)
Lemma serve_owns_close s t p : serving s = Some p -> (forall todo b, p <> Catching todo b) -> serve_owns s t -> t ∈ to_close (frame s).
Proof.
  unfold serve_owns. intros -> Hn. rewrite in_to_close. destruct p as [| | |[]| | |a|a|a|todo b| | |[]|]; try tauto. by destruct (Hn todo b).
Qed.

Lemma held_fetch_step p x l h l' h' r t : fetch_step p x l h = Some (l', h', r) -> t ∈ held false h' ->
  t ∈ held false h \/
  match r with Fetch GetOutputTransport => inputTransport l' = Some t | Fetch GetInputProtocol => outputTransport l' = Some t | _ => False end.
Proof.
  intros Hf Ht. destruct l as [c i o ip op].
  destruct p, x as [|[u|]|q|[]|e]; cbn in Hf; try case_bool_decide; try done; injection Hf as <- <- <-; cbn in *; set_solver.
Qed.

Lemma kept_fetch q x s s' : kept s -> serving s = Some (Fetching q) -> serve_step (Fetching q) x s = Some s' -> kept s'.
Proof.
  intros [_ Hh] Hp (l & h & r & Hf & ->)%fetching_spec.
  assert (Ho : left_well s -> forall t, t ∈ held false h ->
    match r with
    | Fetch q => serve_owns (go (Fetching q) (set_frame l h s)) t
    | _ => inputTransport l = Some t \/ outputTransport l = Some t
    end \/ exists a k, tasks s !! a = Some k /\ task_owns k t).
  { intros Hw t Ht. destruct (held_fetch_step _ _ _ _ _ _ _ t Hf Ht) as [Hin|Hr].
    - destruct (Hh Hw t Hin) as [Hs|]; [left|by right]. unfold serve_owns in Hs. rewrite Hp in Hs.
      destruct (frame s) as [c i o ip op]. unfold serve_owns.
      destruct q, x as [|[u|]|q2|[]|e]; cbn in Hf; try case_bool_decide; try done; injection Hf as <- <- <-; cbn in *; tauto.
    - left. unfold serve_owns. destruct r as [[]| |]; cbn; tauto. }
  destruct r as [q'| |e].
  - split; [intros a k [Ha|[Ha|Ha]]; discriminate Ha|exact Ho].
  - split; [intros a k [Ha|[Ha|Ha]]; discriminate Ha|exact Ho].
  - apply kept_catch. intros Hw t Ht. rewrite in_to_close. destruct (Ho Hw t Ht); tauto.
Qed.

(** The task at hand is given up. *)
Lemma kept_drop a e s p : inv s -> kept s -> serving s = Some p -> p = NewThread a \/ p = Insert a -> kept (catch_ e (remove a s)).
Proof.
  intros Hi [Hl Hh] Hp Hpa. assert (Hown : own s a) by (unfold own; rewrite Hp; naive_solver).
  apply kept_catch. intros Hw t Ht. destruct (Hh Hw t Ht) as [Hs|(b & k & Hb & Hk)].
  - left. eapply serve_owns_close; [exact Hp| |exact Hs]. by destruct Hpa as [-> | ->].
  - destruct (decide (a = b)) as [<-|Hne]; [left|right; exists b, k; cbn; by rewrite lookup_delete_ne].
    destruct (Hl a k Hown Hb) as [Hin Hout]. rewrite in_to_close. cbn. rewrite Hin, Hout.
    unfold task_owns in Hk. destruct (place k); naive_solver.
Qed.

Lemma kept_new_task a s s' : inv s -> kept s -> serving s = Some NewTask -> new_task a s = Some s' -> kept s'.
Proof.
  intros Hi [Hl Hh] Hp He. pose proof (inv_place s Hi) as Hpl. unfold place_ok in Hpl. rewrite Hp in Hpl.
  destruct Hpl as ([c Hc] & (ip & Hip & Hin) & (op & Hop & Hout)).
  unfold new_task in He. rewrite Hip, Hop, Hc in He. destruct (tasks s !! a) eqn:Ha; [done|]. injection He as <-. split.
  - intros b k [[= <-]|[Hb|Hb]]; [|discriminate Hb..]. cbn. rewrite lookup_insert_eq. intros [= <-]. by rewrite Hin, Hout.
  - intros Hw t Ht. destruct (Hh Hw t Ht) as [Hs|(b & k & Hb & Hk)].
    + left. unfold serve_owns in *. by rewrite Hp in Hs.
    + right. exists b, k. cbn. rewrite lookup_insert_ne; [done|]. intros ->. congruence.
Qed.

Lemma kept_start a x s s' : inv s -> kept s -> serving s = Some (StartThread a) -> start_thread a x s = Some s' -> kept s'.
Proof.
  intros Hi [Hl Hh] Hp He. pose proof (inv_place s Hi) as Hpl. unfold place_ok in Hpl. rewrite Hp in Hpl.
  destruct Hpl as (k & Ha & Hk). destruct (Hl a k) as [Hin Hout]; [unfold own; tauto|done|].
  assert (Hs : forall t, serve_owns s t \/ task_owns k t -> t = getTransport (input_ k) \/ t = getTransport (output_ k)).
  { unfold serve_owns, task_owns. rewrite Hp, Hk, Hin, Hout. naive_solver. }
  assert (Ho : left_well s -> forall t, t ∈ held false (trace s) ->
    (t = getTransport (input_ k) \/ t = getTransport (output_ k)) \/ exists b j, tasks s !! b = Some j /\ task_owns j t /\ b <> a).
  { intros Hw t Ht. destruct (Hh Hw t Ht) as [|(b & j & Hb & Hj)]; [left; auto|].
    destruct (decide (b = a)) as [->|]; [|right; eauto]. rewrite Ha in Hb. injection Hb as <-. left; auto. }
  unfold start_thread in He. rewrite Ha in He. cbn in He. destruct x; try done; injection He as <-.
  - split; [intros b j [Hb|[Hb|Hb]]; discriminate Hb|]. intros Hw t Ht. right.
    destruct (Ho Hw t Ht) as [|(b & j & Hb & Hj & Hne)].
    + exists a, (at_ Begin k). cbn. by rewrite lookup_insert_eq.
    + exists b, j. cbn. by rewrite lookup_insert_ne by congruence.
  - apply kept_catch. intros Hw t Ht. destruct (Ho Hw t Ht) as [Hc|(b & j & Hb & Hj & Hne)].
    + left. rewrite in_to_close. cbn. rewrite Hin, Hout. naive_solver.
    + right. exists b, j. cbn. by rewrite lookup_insert_ne by congruence.
Qed.

Lemma kept_insert a s s' : inv s -> kept s -> serving s = Some (Insert a) -> insert_section a s = Some s' -> kept s'.
Proof.
  intros Hi [Hl Hh] Hp. pose proof (inv_place s Hi) as Hpl. unfold place_ok in Hpl. rewrite Hp in Hpl.
  destruct Hpl as (k & Ha & Hk). unfold insert_section. rewrite Ha. intros [= <-]. split.
  - intros b j [Hb|[Hb|[= <-]]]; [discriminate Hb..|]. cbn. rewrite lookup_insert_eq. intros [= <-].
    apply (Hl a k); [unfold own; tauto|done].
  - intros Hw t Ht. destruct (Hh Hw t Ht) as [Hs|(b & j & Hb & Hj)].
    + left. unfold serve_owns in *. by rewrite Hp in Hs.
    + right. cbn. destruct (decide (b = a)) as [->|Hne].
      * exists a, (at_ Listed k). rewrite lookup_insert_eq. split; [done|]. rewrite Ha in Hb. injection Hb as <-.
        unfold task_owns in *. by rewrite Hk in Hj.
      * exists b, j. by rewrite lookup_insert_ne by congruence.
Qed.

(** A call of [close] for a pointer in a handler. *)
Lemma kept_closed t todo again s : kept s -> serving s = Some (Catching (t :: todo) again) -> kept (go (Catching todo again) (closed t s)).
Proof.
  intros [Hl Hh] Hp. split; [intros b j [Hb|[Hb|Hb]]; discriminate Hb|]. intros Hw u [Hu Hne]%held_closed.
  destruct (Hh Hw u Hu) as [Hs|]; [left|by right]. unfold serve_owns in *. rewrite Hp in Hs. cbn.
  by apply elem_of_cons in Hs as [->|].
Qed.

Lemma left_well_leave e s : left_well (leave e s) -> left_well s.
Proof. intros Hw. by inversion_clear Hw. Qed.

Lemma kept_serve_step p x s s' : inv s -> kept s -> serving s = Some p -> serve_step p x s = Some s' -> kept s'.
Proof.
  intros Hi Hk Hp He.
  assert (Hcatch : forall e, (forall todo b, p <> Catching todo b) -> kept (catch_ e s)).
  { intros e Hn. apply kept_catch. intros Hw t Ht. destruct (proj2 Hk Hw t Ht); [left|by right]. by eapply serve_owns_close. }
  destruct p as [| | |q| | |a|a|a|[|t todo] again| | |[]|]; try (by apply (kept_fetch q x s)); cbn [serve_step] in He;
    try (by apply (kept_start a x s); [..|destruct x]);
    destruct x as [|[t'|]|q|b|e]; try discriminate He;
    try (by apply (kept_new_task t' s)); try (by apply (kept_insert a s)).
  all: try (destruct (eventHandler_ s); [|discriminate He]); injection He as <-; try apply kept_escape.
  all: try (eapply kept_drop; [done|done|exact Hp|tauto]); try (by apply Hcatch); try (by apply kept_closed).
  all: try (unfold join_section; case_bool_decide).
  all: repeat match goal with |- context [if ?b then _ else _] => destruct b end.
  all: try (match goal with |- context [handler ?e] => destruct (handler e) as [[]|] end); try apply kept_escape.
  all: try (by (apply (kept_go s); [done..|apply left_well_leave || done|by intros a' [Ha|[Ha|Ha]]|
    intros t' _; unfold serve_owns; rewrite Hp; cbn; try tauto; by intros ?%elem_of_nil])).
  destruct Hk as [Hl Hh]. split.
  - intros b k Hb. apply Hl. unfold own in *. rewrite Hp. cbn in Hb. naive_solver.
  - intros Hw t Ht. destruct (Hh Hw t Ht) as [Hs|]; [left|by right]. unfold serve_owns in *. by rewrite Hp in Hs.
Qed.

(** ** Its tasks *)

Lemma kept_close_step a k q x next s s' : kept s -> tasks s !! a = Some k -> close_step a k q x next s = Some s' ->
  (forall t, t <> getTransport q -> task_owns k t -> task_owns (at_ next k) t) -> kept s'.
Proof.
  intros [Hl Hh] Ha He Hk.
  assert (Hs : close_caught x <> Some None -> kept (terminate (closed (getTransport q) s))).
  { intros _. split; [done|]. intros Hw t [Ht Hne]%held_closed. exact (Hh Hw t Ht). }
  unfold close_step in He. destruct (close_caught x) as [[e|]|]; [| |done]; injection He as <-; [by apply Hs|].
  split; [by apply (linked_put a k (at_ next k) (closed (getTransport q) s))|]. intros Hw t [Ht Hne]%held_closed.
  apply (owned_put a k _ (closed (getTransport q) s)); [done|exact (Hh Hw t Ht)|auto].
Qed.

Lemma serve_owns_erase a s t : serve_owns s t -> serve_owns (erase_section a s) t.
Proof. destruct (erase_spec a s) as [->|(Hp & _ & ->)]; [done|]. unfold serve_owns. by rewrite Hp. Qed.

Lemma kept_erase a k s : kept s -> tasks s !! a = Some k -> place k = Erase -> kept (erase_section a s).
Proof.
  intros [Hl Hh] Ha Hk.
  assert (Hm : tasks (erase_section a s) = delete a (tasks s) /\ trace (erase_section a s) = trace s /\
    endings (erase_section a s) = endings s /\ frame (erase_section a s) = frame s /\
    (forall b, own (erase_section a s) b -> own s b)).
  { destruct (erase_spec a s) as [->|(Hp & _ & ->)]; [done|]. repeat split; try done. intros b [Hb|[Hb|Hb]]; discriminate Hb. }
  destruct Hm as (Hm & Ht & He & Hf & Ho). split.
  - intros b j Hb%Ho. rewrite Hm, Hf. intros [_ Hj]%lookup_delete_Some. by apply (Hl b).
  - unfold left_well. rewrite He, Ht. intros Hw t Hin. destruct (Hh Hw t Hin) as [Hs|(b & j & Hb & Hj)].
    + left. by apply serve_owns_erase.
    + right. exists b, j. rewrite Hm. split; [|done]. rewrite lookup_delete_ne; [done|]. intros <-.
      rewrite Ha in Hb. injection Hb as <-. unfold task_owns in Hj. by rewrite Hk in Hj.
Qed.

Lemma kept_task_step a k x s s' : kept s -> tasks s !! a = Some k -> task_step a k x s = Some s' -> kept s'.
Proof.
  intros Hk Ha He. destruct (place k) as [| | | |q| | |] eqn:Hp.
  5: { destruct (talking_spec a k q x s s' Hp He) as ([] & _ & ->); [..|by destruct Hk];
      (apply (kept_put a k); [done..|unfold task_owns; by rewrite Hp]). }
  all: unfold task_step in He; rewrite Hp in He; try done.
  - destruct x; try done. injection He as <-. apply (kept_put a k); [done..|unfold task_owns; by rewrite Hp].
  - eapply kept_close_step; [done|done|exact He|]. unfold task_owns. rewrite Hp. cbn. tauto.
  - eapply kept_close_step; [done|done|exact He|]. unfold task_owns. rewrite Hp. cbn. tauto.
  - destruct x; try done. injection He as <-. by eapply kept_erase.
Qed.

Lemma kept_exec e s s' : inv s -> kept s -> exec e s = Some s' -> kept s'.
Proof.
  intros Hi Hk. unfold exec. destruct (terminated s); [done|]. destruct e as [|x|a x| | |b].
  - destruct (serving s) eqn:Hp; [done|]. intros [= <-].
    apply (kept_go s); [done..|by intros a [Ha|[Ha|Ha]]|]. intros t _. unfold serve_owns. by rewrite Hp.
  - destruct (serving s) as [p|] eqn:Hp; [|done]. by apply kept_serve_step.
  - destruct (tasks s !! a) as [k|] eqn:Ha; [|done]. by apply kept_task_step.
  - destruct (serving s) as [[| | |q| | |b|b|b| | | |[]|]|] eqn:Hp; try done. intros [= <-].
    apply (kept_go s); [done..|by intros a [Ha|[Ha|Ha]]|]. intros t _. unfold serve_owns. by rewrite Hp.
  - by intros [= <-].
  - by intros [= <-].
Qed.

Lemma reachable_kept s : reachable s -> kept s.
Proof.
  induction 1 as [|s e s' Hr IH He].
  - split; [by intros a k [Ha|[Ha|Ha]]|]. intros _ t. cbn. set_solver.
  - eapply kept_exec; [by apply reachable_inv|done|exact He].
Qed.

(** ** The properties of TSimpleServer *)

(** C16. Simple server: as long as no exception has left [serve], everything it obtained
    from the server transport and the factories has been asked to close, once more
    since, when it turns to the next client and when it is not serving; wherever it is,
    it can go on, following no null pointer; and once [stop_] is set, whatever the calls
    come to, it takes at most [serve_left] steps to the end of [serve], and three more
    for each time a call or the peer keeps the conversation going. *)
Theorem simple_server_serves (s : SimpleServer.System) :
  SimpleServer.reachable s ->
  (Forall (fun e => e = Left) (SimpleServer.endings s) ->
   SimpleServer.serving s = Some (SimpleServer.Fetching Accept) \/ SimpleServer.serving s = None ->
   held true (SimpleServer.trace s) = ∅) /\
  (forall p, SimpleServer.serving s = Some p -> exists x s', SimpleServer.exec (SimpleServer.ServeStep x) s = Some s') /\
  (forall es s', SimpleServer.stop_ s = true -> Forall (fun e => Simple.is_serve e = false) es ->
   SimpleServer.exec_all es s = Some s' ->
   Simple.count Simple.is_step es <= Simple.serve_left s + 3 * Simple.count Simple.is_answer es).
Proof.
  intros Hr. pose proof (Simple.simple_reachable_inv s Hr) as Hi. split; [|split].
  - intros Hl Hp. apply set_eq. intros t. split; [|set_solver]. intros Ht.
    pose proof (Simple.inv_owns s Hi t Hl Ht) as Ho. unfold Simple.owns in Ho. by destruct Hp as [Hp|Hp]; rewrite Hp in Ho.
  - intros p Hp. by apply (Simple.simple_serve_enabled s p).
  - intros es s' Hs Hn He. destruct (Simple.nearer_run es s s') as [_ Hl]; [by left|done..|].
    pose proof (Simple.simple_serve_left_nonneg s'). lia.
Qed.

(** A client with one call; [stop] is called meanwhile, and a [close] fails. *)
Definition one_client : list SimpleServer.event :=
  SimpleServer.Serve :: map SimpleServer.ServeStep
    [Returns; Returns; Returns; Gives (Some 1%nat); Gives (Some 2%nat); Gives (Some 3%nat);
     GivesProtocol (Protocol 4 2); GivesProtocol (Protocol 5 3); Returns; Returns; Returns] ++ [SimpleServer.Stop].
Definition to_the_end : list SimpleServer.event :=
  map SimpleServer.ServeStep
    [Says true; Says false; Returns; Throws (ETransport TTransportException.NOT_OPEN "closed"); Returns; Returns; Returns; Returns; Returns].

Definition simple_after (es : list SimpleServer.event) : SimpleServer.System :=
  default SimpleServer.constructor (SimpleServer.exec_all es SimpleServer.constructor).

Lemma simple_server_serves_witness :
  let s := simple_after one_client in
  let s' := simple_after (one_client ++ to_the_end) in
  Simple.count Simple.is_step to_the_end <= Simple.serve_left s + 3 /\ held true (SimpleServer.trace s) = {[1; 2; 3]}%nat /\
  SimpleServer.endings s' = [Left] /\ held true (SimpleServer.trace s') = ∅.
Proof.
  intros s s'.
  assert (Hs : SimpleServer.exec_all one_client SimpleServer.constructor = Some s) by (vm_compute; reflexivity).
  assert (Hs' : SimpleServer.exec_all to_the_end s = Some s') by (vm_compute; reflexivity).
  assert (Hr : SimpleServer.reachable s) by (eapply Simple.simple_reachable_all; [constructor|exact Hs]).
  assert (Hr' : SimpleServer.reachable s') by (eapply Simple.simple_reachable_all; [exact Hr|exact Hs']).
  split; [|split; [vm_compute; reflexivity|split; [vm_compute; reflexivity|]]].
  - apply (proj2 (proj2 (simple_server_serves s Hr)) to_the_end s'); [vm_compute; reflexivity| |exact Hs'].
    repeat constructor.
  - apply (simple_server_serves s' Hr'); [vm_compute; repeat constructor|right; vm_compute; reflexivity].
Defined.

(** ** The properties of TThreadedServer *)

(** The state after a run from the start. *)
Definition after (es : list event) : System := default constructor (exec_all es constructor).

Lemma server_after_reachable es s : exec_all es constructor = Some s -> reachable s.
Proof. apply reachable_all. constructor. Qed.

(** C14. Threaded server: [tasks_] holds the tasks from the insertion to their last step,
    and no others; the thread in [serve] waits asleep only while there is one, so that
    no wakeup is lost; when its wait is over there is no task any more; a task whose
    thread has been started and that has not removed itself can go on; and as long as no
    exception has left [serve], whatever the factories made and was not asked to close
    belongs to a task or is at hand in [serve]: nothing is left when the wait is over. *)
Theorem threaded_server_tasks (s : System) :
  reachable s ->
  (forall a, a ∈ tasks_ s <-> exists k, tasks s !! a = Some k /\ place k <> Created) /\
  (serving s = Some (Join true) -> tasks_ s <> ∅) /\
  (serving s = Some Finish -> tasks s = ∅) /\
  (forall a k, terminated s = false -> tasks s !! a = Some k ->
     place k <> Created -> place k <> Listed -> place k <> Stranded -> exists x s', exec (TaskStep a x) s = Some s') /\
  (Forall (fun e => e = Left) (endings s) ->
   (forall t, t ∈ held false (trace s) -> serve_owns s t \/ exists a k, tasks s !! a = Some k /\ task_owns k t) /\
   (serving s = Some Finish -> held false (trace s) = ∅)).
Proof.
  intros Hr. pose proof (reachable_inv s Hr) as Hi. pose proof (reachable_kept s Hr) as [_ Hk].
  pose proof (inv_place s Hi) as Hpl. unfold place_ok in Hpl.
  split; [exact (inv_tasks s Hi)|]. split; [intros Hp; by rewrite Hp in Hpl|].
  split; [intros Hp; by rewrite Hp in Hpl|]. split; [intros a k Ht Ha H1 H2 H3; by apply (task_enabled a k)|].
  intros Hl. split; [exact (Hk Hl)|]. intros Hp. rewrite Hp in Hpl. apply set_eq. intros t. split; [|set_solver].
  intros Ht. destruct (Hk Hl t Ht) as [Hs|(a & k & Ha & _)]; [unfold serve_owns in Hs; by rewrite Hp in Hs|by rewrite Hpl in Ha].
Qed.

Definition accepting (a c i o : address) : list event :=
  map ServeStep [Returns; Gives (Some c); Gives (Some i); Gives (Some o); GivesProtocol (Protocol 90 i);
    GivesProtocol (Protocol 91 o); Returns; Gives (Some a); Returns; Returns; Returns].

(** Two clients; the first task is about to close its input, [serve] waits. *)
Definition two_clients : list event :=
  Serve :: map ServeStep [Returns; Returns] ++ accepting 10 1 2 3 ++ accepting 11 4 5 6 ++
  Stop :: map ServeStep [Returns; Returns; Returns; Returns] ++
  map (TaskStep 10) [Returns; Returns; Returns; Throws EBadAlloc; Returns].

(** Both tasks go to their ends; the second wakes [serve]. *)
Definition both_end : list event :=
  map (TaskStep 10) [Returns; Returns; Returns] ++ map (TaskStep 11) [Returns; Returns; Returns; Says true; Says false; Returns; Returns; Returns; Returns].

Lemma threaded_server_tasks_witness :
  let s := after two_clients in
  let s' := after (two_clients ++ both_end ++ [ServeStep Returns]) in
  serving s = Some (Join true) /\ tasks_ s <> ∅ /\ held false (trace s) = {[2; 3; 5; 6]}%nat /\
  serving s' = Some Finish /\ tasks s' = ∅ /\ held false (trace s') = ∅.
Proof.
  intros s s'. assert (Hr : reachable s) by (apply (server_after_reachable two_clients); vm_compute; reflexivity).
  assert (Hr' : reachable s') by (apply (server_after_reachable (two_clients ++ both_end ++ [ServeStep Returns])); vm_compute; reflexivity).
  assert (Hp : serving s = Some (Join true)) by (vm_compute; reflexivity).
  assert (Hp' : serving s' = Some Finish) by (vm_compute; reflexivity).
  split; [exact Hp|]. split; [exact (proj1 (proj2 (threaded_server_tasks s Hr)) Hp)|]. split; [vm_compute; reflexivity|].
  split; [exact Hp'|]. destruct (threaded_server_tasks s' Hr') as (_ & _ & Hf & _ & Hl). split; [exact (Hf Hp')|].
  apply Hl; [vm_compute; constructor|exact Hp'].
Defined.

(** C13. Threaded server: once [stop_] is set and until [serve] is called again, the
    server and its tasks take at most [steps_left] steps, three more for each time a
    call or a peer keeps a conversation going and one for each wakeup without a reason;
    and when none of them can take one, the process has been ended by an exception in a
    task, or [serve] has returned or thrown, or it waits for tasks whose threads could
    not be started.  If it got past its wait then no task is left. *)
Theorem threaded_server_stops (s s' : System) (es : list event) :
  reachable s -> stop_ s = true -> Forall (fun e => is_serve e = false) es -> exec_all es s = Some s' ->
  count is_step es <= steps_left s + 3 * count is_answer es + count is_wake es /\
  ((forall x, exec (ServeStep x) s' = None) -> (forall a x, exec (TaskStep a x) s' = None) ->
   terminated s' = true \/ serving s' = None \/
   serving s' = Some (Join true) /\ tasks_ s' <> ∅ /\ (forall a, a ∈ tasks_ s' -> stranded a s')) /\
  (joined s' = joined s \/ joined s' = joined s + 1 /\ tasks s' = ∅ /\ (serving s' = Some Finish \/ serving s' = None)).
Proof.
  intros Hr Hs Hn He. pose proof (reachable_inv s Hr) as Hi.
  destruct (closer_run es s s' Hi (or_introl Hs) Hn He) as [Hi' Hl]. pose proof (steps_left_nonneg s').
  split; [lia|]. split; [|by apply (joined_run es)].
  intros H1 H2. destruct (terminated s') eqn:Ht; [by left|right]. destruct (serving s') as [p|] eqn:Hp; [right|by left].
  destruct (blocked s' p Hi' Ht Hp H1 H2) as [-> ?]. done.
Qed.

(** [serve] is asleep; the tasks end, and it is woken. *)
Lemma threaded_server_stops_witness :
  let s := after two_clients in
  let rest := both_end ++ map ServeStep [Returns; Returns] in
  let s' := after (two_clients ++ rest) in
  count is_step rest <= steps_left s + 3 /\ steps_left s = 14 /\
  serving s' = None /\ endings s' = [Left] /\ joined s' = joined s + 1 /\ stop_ s' = false.
Proof.
  intros s rest s'. assert (Hr : reachable s) by (apply (server_after_reachable two_clients); vm_compute; reflexivity).
  assert (He : exec_all rest s = Some s') by (vm_compute; reflexivity).
  split; [|vm_compute; auto].
  apply (threaded_server_stops s s' rest); [exact Hr|vm_compute; reflexivity|repeat constructor|exact He].
Defined.

(** C15. Threaded server: a thread that cannot be started leaves its task in [tasks_].
    The step that fails strands the task, whatever the exception; and a stranded task
    stays so, whatever happens and however often [serve] is called again: from then on
    no call of [serve] gets past its wait for the tasks.  A state can be reached where
    the server has been told to stop, every connection is closed, nothing can move, and
    [serve] sleeps for ever. *)
Theorem threaded_start_fails :
  (forall s s' a e, reachable s -> serving s = Some (StartThread a) -> exec (ServeStep (Throws e)) s = Some s' ->
     stranded a s' /\ a ∈ tasks_ s') /\
  (forall s s' a es, reachable s -> stranded a s -> exec_all es s = Some s' ->
     stranded a s' /\ a ∈ tasks_ s' /\ joined s' = joined s /\ serving s' <> Some Finish) /\
  (exists s, reachable s /\ serving s = Some (Join true) /\ terminated s = false /\ tasks_ s = {[11%nat]} /\
     held false (trace s) = ∅ /\ forall a x, exec (ServeStep x) s = None /\ exec (TaskStep a x) s = None).
Proof.
  assert (Hin : forall a s, reachable s -> stranded a s -> a ∈ tasks_ s).
  { intros a s Hr (k & Ha & Hk). apply (inv_tasks s (reachable_inv s Hr)). exists k. by rewrite Hk. }
  split; [|split].
  - intros s s' a e Hr Hp He. assert (Hr' : reachable s') by (by eapply reachable_step).
    cut (stranded a s'); [intros; split; [done|by apply Hin]|]. revert He. unfold exec. destruct (terminated s); [done|]. rewrite Hp.
    cbn. unfold start_thread. destruct (tasks s !! a) as [k|]; [|done]. intros [= <-]. apply stranded_catch.
    exists (at_ Stranded k). split; [apply lookup_insert_eq|done].
  - intros s s' a es Hr Hst He. pose proof (reachable_all es s s' Hr He) as Hr'.
    destruct (stranded_run a es s s' (reachable_inv s Hr) Hst He) as (Hi' & Hst' & Hj).
    split; [done|]. split; [by apply Hin|]. split; [done|]. by apply (stranded_waits a s').
  - pose (es := Serve :: map ServeStep [Returns; Returns] ++ accepting 10 1 2 3 ++ removelast (accepting 11 4 5 6) ++
      map ServeStep [Throws (EThrift "pthread_create failed"); Returns; Returns; Returns; Returns] ++
      Stop :: map ServeStep [Returns; Returns; Returns; Returns] ++
      map (TaskStep 10) [Returns; Returns; Returns; Throws EBadAlloc; Returns; Returns; Returns; Returns]).
    exists (after es). split; [apply (server_after_reachable es); vm_compute; reflexivity|].
    split; [vm_compute; reflexivity|]. split; [vm_compute; reflexivity|]. split; [vm_compute; reflexivity|].
    split; [vm_compute; reflexivity|].
    assert (Hm : tasks (after es) = {[11%nat := MakeTask (Protocol 90 5) (Protocol 91 6) 4 false Stranded]}) by (vm_compute; reflexivity).
    intros a x. split; [by destruct x|]. unfold exec. rewrite Hm. change (terminated (after es)) with false.
    destruct (decide (a = 11%nat)) as [->|Hne]; [by destruct x|by rewrite lookup_singleton_ne].
Qed.

Lemma threaded_start_fails_witness :
  let failing := Serve :: map ServeStep [Returns; Returns] ++ removelast (accepting 10 1 2 3) in
  let s := after (failing ++ [ServeStep (Throws (EThrift "pthread_create failed"))]) in
  stranded 10 s /\ forall es s', exec_all es s = Some s' -> serving s' <> Some Finish.
Proof.
  intros failing s.
  assert (Hr : reachable s) by (apply (server_after_reachable (failing ++ [ServeStep (Throws (EThrift "pthread_create failed"))])); vm_compute; reflexivity).
  assert (Hst : stranded 10 s).
  { apply (proj1 threaded_start_fails (after failing) s 10%nat (EThrift "pthread_create failed"));
      [apply (server_after_reachable failing); vm_compute; reflexivity|vm_compute; reflexivity|vm_compute; reflexivity]. }
  split; [exact Hst|]. intros es s' He. apply (proj1 (proj2 threaded_start_fails) s s' 10%nat es Hr Hst He).
Defined.

(** A string that is thrown ends the loop, and [serve] returns without waiting: the
    caller that destroys the server then leaves a task with a reference to it. *)
Lemma threaded_left_behind :
  exists s a k, reachable s /\ serving s = None /\ endings s = [Left] /\ joined s = 0 /\
    tasks s !! a = Some k /\ place k = Talking Process.
Proof.
  pose (es := Serve :: map ServeStep [Returns; Returns] ++ accepting 10 1 2 3 ++
    map (TaskStep 10) [Returns; Returns; Returns] ++ map ServeStep [Returns; Throws (EString "no"); Returns; Returns]).
  exists (after es), 10%nat, (MakeTask (Protocol 90 2) (Protocol 91 3) 1 false (Talking Process)).
  split; [apply (server_after_reachable es); vm_compute; reflexivity|]. vm_compute. auto 10.
Qed.
