(* ===== verification/Transport.v ===== *)
(** * Transports: transport/TTransport.h, TVirtualTransport.h

    The operations of [TTransport] as a class of records of computations (the
    virtual dispatch of [TTransport] and [TVirtualTransport]), the base class's
    defaults, the [readAll] template every transport inherits, and the contract
    a protocol relies on: [ReadLaws] and [WriteLaws] say that a transport is a
    byte stream, whatever its buffering.

    A call [read(buf, len)] is [t_read len], which returns the bytes stored into
    [buf] from its start; their number is the [uint32_t] the C++ returns.
    [borrow(buf, &len)] returns the bytes readable at the returned pointer, or
    [None] for [NULL]. *)

From S2P Require Export Machine Effects.

Class TTransport (T : Type) := {
  t_isOpen : M T bool;
  t_peek : M T bool;
  t_open : M T unit;
  t_close : M T unit;
  t_read : Z -> M T (list Z);
  t_readAll : Z -> M T (list Z);
  t_readEnd : M T Z;
  t_write : list Z -> M T unit;
  t_writeEnd : M T Z;
  t_flush : M T unit;
  t_borrow : Z -> M T (option (list Z));
  t_consume : Z -> M T unit
}.

Abbreviation END_OF_FILE := TTransportException.END_OF_FILE.
Abbreviation NOT_OPEN := TTransportException.NOT_OPEN.
Abbreviation BAD_ARGS := TTransportException.BAD_ARGS.

(** ** [apache::thrift::transport::readAll] *)

Section ReadAll.
Context {T : Type} (read : Z -> M T (list Z)).

(** One round of [while (have < len)]; [buf] holds the [have] bytes read. *)
Definition readAll_body (len : Z) (buf : list Z) : M T (list Z + list Z) :=
  if zlen buf <? len then
    let! got := read (len - zlen buf) in
    if zlen got <=? 0
    then throw (ETransport END_OF_FILE "No more data to read.")
    else ret (inl (buf ++ got))
  else ret (inr buf).

Definition readAll (len : Z) : M T (list Z) :=
  iterate (Z.max 0 len + 1) (readAll_body len) [].
End ReadAll.

(** ** The defaults of the base class *)

Module BaseTransport.
Section Defaults.
Context {T : Type}.
Definition isOpen : M T bool := ret false.
(** [peek()] calls the virtual [isOpen()]. *)
Definition peek (isOpen_ : M T bool) : M T bool := isOpen_.
Definition open_ : M T unit :=
  throw (ETransport NOT_OPEN "Cannot open base TTransport.").
Definition close : M T unit :=
  throw (ETransport NOT_OPEN "Cannot close base TTransport.").
Definition read_virt (len : Z) : M T (list Z) :=
  throw (ETransport NOT_OPEN "Base TTransport cannot read.").
Definition readAll_virt (read : Z -> M T (list Z)) (len : Z) : M T (list Z) :=
  readAll read len.
Definition readEnd : M T Z := ret 0.
Definition write_virt (d : list Z) : M T unit :=
  throw (ETransport NOT_OPEN "Base TTransport cannot write.").
Definition writeEnd : M T Z := ret 0.
Definition flush : M T unit := ret tt.
Definition borrow_virt (len : Z) : M T (option (list Z)) := ret None.
Definition consume_virt (len : Z) : M T unit :=
  throw (ETransport NOT_OPEN "Base TTransport cannot consume.").
End Defaults.
End BaseTransport.

(** ** The contract of a byte stream *)

(** [read] over a stream [I s bs] returns a prefix of at most the requested
    length, and not an empty one as long as there is data. *)
Definition reads_prefix {T} (read : Z -> M T (list Z)) (I : T -> list Z -> Prop) : Prop :=
  forall s n bs, I s bs -> 0 < n < 2 ^ 32 ->
    succeeds (read n) s (fun got s' => exists k,
      got = ztake k bs /\ I s' (zdrop k bs) /\ 0 <= k <= Z.min n (zlen bs) /\
      (0 < zlen bs -> 0 < k)).

(** The same, but for the end of the stream, where [read] may throw. *)
Definition reads_some {T} (read : Z -> M T (list Z)) (I : T -> list Z -> Prop) : Prop :=
  forall s n bs, I s bs -> 0 < n < 2 ^ 32 -> 0 < zlen bs ->
    succeeds (read n) s (fun got s' => exists k,
      got = ztake k bs /\ I s' (zdrop k bs) /\ 0 < k <= Z.min n (zlen bs)).
Definition reads_end {T} (read : Z -> M T (list Z)) (I : T -> list Z -> Prop) : Prop :=
  forall s n, I s [] -> 0 < n < 2 ^ 32 ->
    succeeds (read n) s (fun got s' => got = [] /\ I s' []).

Lemma reads_prefix_some {T} (read : Z -> M T (list Z)) I : reads_prefix read I -> reads_some read I.
Proof.
  intros Hr s n bs HI Hn Hbs. eapply succeeds_mono; [by apply Hr|].
  cbn. intros got s' (k & -> & HI' & Hk & Hpos). exists k. split_and!; [done|done|auto|lia].
Qed.
Lemma reads_prefix_end {T} (read : Z -> M T (list Z)) I : reads_prefix read I -> reads_end read I.
Proof.
  intros Hr s n HI Hn. eapply succeeds_mono; [by apply Hr|].
  cbn. intros got s' (k & -> & HI' & Hk & _). unfold ztake, zdrop in *. by rewrite take_nil, drop_nil in *.
Qed.
Lemma some_end_prefix {T} (read : Z -> M T (list Z)) I :
  reads_some read I -> reads_end read I -> reads_prefix read I.
Proof.
  intros Hs He s n bs HI Hn. pose proof (zlen_nonneg bs). destruct (Z.eq_dec (zlen bs) 0) as [H0|H0].
  - apply zlen_0 in H0 as ->. eapply succeeds_mono; [by apply He|]. cbn. intros got s' [-> HI'].
    exists 0. change (zlen (@nil Z)) with 0. split_and!; done || lia.
  - eapply succeeds_mono; [apply Hs; [done|done|lia]|]. cbn. intros got s' (k & -> & HI' & Hk).
    exists k. split_and!; [done|done|lia|lia|lia].
Qed.

(** [incoming s bs]: [s] is usable and will deliver exactly [bs].
    [lent s bs m]: moreover its last operation lent at least [m] bytes.
    [stream_end e]: what asking for more than there is may throw. *)
Class ReadLaws (T : Type) `{TTransport T} := {
  incoming : T -> list Z -> Prop;
  lent : T -> list Z -> Z -> Prop;
  stream_end : exn -> Prop;
  lent_incoming s bs m : lent s bs m -> incoming s bs;
  read_some : reads_some t_read incoming;
  readAll_ok s n bs rest :
    incoming s (bs ++ rest) -> zlen bs = n -> n < 2 ^ 32 ->
    succeeds (t_readAll n) s (fun r s' => r = bs /\ incoming s' rest);
  readAll_eof s n bs :
    incoming s bs -> zlen bs < n -> n < 2 ^ 32 ->
    raises (t_readAll n) s (fun e _ => stream_end e);
  borrow_ok s n bs :
    incoming s bs -> 0 <= n < 2 ^ 32 ->
    succeeds (t_borrow n) s (fun r s' =>
      match r with
      | None => incoming s' bs
      | Some b => n <= zlen b /\ b = ztake (zlen b) bs /\ lent s' bs (zlen b)
      end);
  consume_ok s n bs m :
    lent s bs m -> 0 <= n <= m ->
    succeeds (t_consume n) s (fun _ s' => incoming s' (zdrop n bs))
}.

(** At its end the stream gives nothing, again and again. *)
Class EndLaws (T : Type) `{ReadLaws T} : Prop := read_end : reads_end t_read incoming.

Lemma read_prefix `{EndLaws T} : reads_prefix t_read incoming.
Proof. apply some_end_prefix; [apply read_some|apply read_end]. Qed.

(** The usual end of a stream. *)
Definition no_more (e : exn) : Prop := e = ETransport END_OF_FILE "No more data to read.".

(** [outgoing s out room]: [s] is usable, has been given [out], and will accept
    [room] more bytes. *)
Class WriteLaws (T : Type) `{TTransport T} := {
  outgoing : T -> list Z -> Z -> Prop;
  write_ok s out room d :
    outgoing s out room -> zlen d <= room -> zlen d < 2 ^ 32 ->
    succeeds (t_write d) s (fun _ s' => outgoing s' (out ++ d) (room - zlen d))
}.

(** [flush] loses nothing and costs nothing. *)
Class FlushLaws (T : Type) `{WriteLaws T} : Prop :=
  flush_ok : forall s out room,
    outgoing s out room -> succeeds t_flush s (fun _ s' => outgoing s' out room).

(** [readEnd], the end of a message, takes nothing from the stream. *)
Class ReadEndLaws (T : Type) `{ReadLaws T} : Prop :=
  readEnd_ok : forall s bs,
    incoming s bs -> succeeds t_readEnd s (fun _ s' => incoming s' bs).

(** [writeEnd], the end of a message, changes nothing of what was written. *)
Class WriteEndLaws (T : Type) `{WriteLaws T} : Prop :=
  writeEnd_ok : forall s out room,
    outgoing s out room -> succeeds t_writeEnd s (fun _ s' => outgoing s' out room).

(** ** Properties of the [readAll] template *)

Section ReadAllProps.
Context {T : Type} (read : Z -> M T (list Z)).

Context (I : T -> list Z -> Prop).

Lemma readAll_stream s n bs rest :
  reads_some read I ->
  I s (bs ++ rest) -> zlen bs = n -> n < 2 ^ 32 ->
  succeeds (readAll read n) s (fun r s' => r = bs /\ I s' rest).
Proof.
  intros Hread HI Hn Hmax. unfold readAll.
  eapply (runs_iterate
    (fun buf s' => exists l, bs = buf ++ l /\ I s' (l ++ rest)) (fun buf => n - zlen buf)).
  - intros buf s1 (l & -> & HI1). unfold readAll_body. zlist. bif.
    + wp_apply Hread; [done|lia|zlist| |done].
      intros got s2 (k & -> & HI2 & Hk). zlist.
      rewrite ztake_app_le in * by lia. zlist.
      replace (_ <=? 0) with false by lia. wp. zlist.
      split; [|lia]. exists (zdrop k l). split.
      * by rewrite <- app_assoc, ztake_zdrop.
      * by rewrite zdrop_app_le in HI2 by lia.
    + wp. assert (l = []) as -> by (apply zlen_0; zlist). by rewrite app_nil_r.
  - by exists bs.
  - zlist.
Qed.

(** Of a stream that is too short: at its end [read] gives nothing or throws. *)
Lemma readAll_short s n bs (E : exn -> Prop) :
  reads_some read I ->
  (forall s n, I s [] -> 0 < n < 2 ^ 32 -> runs (read n) s (fun got _ => got = []) (fun e _ => E e)) ->
  E (ETransport END_OF_FILE "No more data to read.") ->
  I s bs -> zlen bs < n -> n < 2 ^ 32 -> raises (readAll read n) s (fun e _ => E e).
Proof.
  intros Hread Hend HE HI Hn Hmax. unfold readAll.
  eapply (runs_iterate
    (fun buf s' => exists l, bs = buf ++ l /\ I s' l) (fun buf => n - zlen buf)).
  - intros buf s1 (l & -> & HI1). unfold readAll_body. zlist.
    replace (_ <? _) with true by lia. destruct (Z.eq_dec (zlen l) 0) as [Hl|Hl].
    + apply zlen_0 in Hl as ->. wp_apply Hend; [done|lia| |done]. intros got s2 ->. by wp.
    + wp_apply Hread; [done|lia|lia| |done]. intros got s2 (k & -> & HI2 & Hk). zlist.
      replace (_ <=? 0) with false by lia. wp. zlist. split; [|lia].
      exists (zdrop k l). by rewrite <- app_assoc, ztake_zdrop.
  - by exists bs.
  - zlist.
Qed.

Lemma readAll_stream_eof s n bs :
  reads_prefix read I -> I s bs -> zlen bs < n -> n < 2 ^ 32 ->
  raises (readAll read n) s (fun e s' => no_more e /\ I s' []).
Proof.
  intros Hread HI Hn Hmax. unfold readAll.
  eapply (runs_iterate
    (fun buf s' => exists l, bs = buf ++ l /\ I s' l) (fun buf => n - zlen buf)).
  - intros buf s1 (l & -> & HI1). unfold readAll_body. zlist.
    replace (_ <? _) with true by lia.
    wp_apply Hread; [done|lia| |done].
    intros got s2 (k & -> & HI2 & Hk & Hpos). zlist. bif; wp; zlist.
    + assert (l = []) as -> by (apply zlen_0; lia). split; [done|].
      by rewrite zdrop_ge in HI2 by lia.
    + split; [|lia]. exists (zdrop k l). by rewrite <- app_assoc, ztake_zdrop.
  - by exists bs.
  - zlist.
Qed.
End ReadAllProps.

(** ** Sequences of calls *)

Section Sequences.
Context {T : Type} `{TTransport T}.

(** Write the chunks [ds], one call each. *)
Definition write_all (ds : list (list Z)) : M T unit :=
  fold_right (fun d m => do! t_write d in m) (ret tt) ds.

(** Read chunks of the lengths [ns]. *)
Definition read_all (ns : list Z) : M T (list (list Z)) :=
  fold_right (fun n m => let! d := t_readAll n in let! ds := m in ret (d :: ds)) (ret []) ns.

(** Write a message in chunks and flush it; do so with each message. *)
Definition send (ds : list (list Z)) : M T unit := do! write_all ds in t_flush.
Definition send_all (ms : list (list (list Z))) : M T unit :=
  fold_right (fun ds m => do! send ds in m) (ret tt) ms.

Lemma write_all_ok `{!WriteLaws T} s out room ds :
  outgoing s out room -> Forall (fun d => zlen d < 2 ^ 32) ds -> zlen (concat ds) <= room ->
  succeeds (write_all ds) s (fun _ s' => outgoing s' (out ++ concat ds) (room - zlen (concat ds))).
Proof using Type.
  revert s out room. induction ds as [|d ds IH]; intros s out room Hs Hds Hroom; cbn [write_all fold_right concat] in *.
  - wp. by rewrite app_nil_r, Z.sub_0_r.
  - apply Forall_cons in Hds as [Hd Hds]. rewrite zlen_app in *. pose proof (zlen_nonneg (concat ds)).
    wp. eapply runs_mono; [apply (write_ok s out room d Hs); [lia|done]| |done]. cbn. intros _ s1 Hs1.
    eapply runs_mono; [apply (IH _ _ _ Hs1 Hds); lia| |done]. cbn. intros _ s2.
    by rewrite app_assoc, Z.sub_add_distr.
Qed.

Lemma read_all_ok `{!ReadLaws T} s ds rest :
  incoming s (concat ds ++ rest) -> Forall (fun d => zlen d < 2 ^ 32) ds ->
  succeeds (read_all (map zlen ds)) s (fun r s' => r = ds /\ incoming s' rest).
Proof using Type.
  revert s. induction ds as [|d ds IH]; intros s Hs Hds; cbn [read_all fold_right map concat] in *.
  - by wp.
  - apply Forall_cons in Hds as [Hd Hds]. rewrite <- app_assoc in Hs. wp.
    eapply runs_mono; [by apply (readAll_ok s _ _ _ Hs)| |done]. cbn. intros r s1 [-> Hs1]. wp.
    eapply runs_mono; [by apply IH| |done]. cbn. intros r s2 [-> Hs2]. by wp.
Qed.
End Sequences.
