(* ===== verification/Posix.v ===== *)
(** * The operating system's calls that sockets and descriptors use

    Code outside the repository: a parameter [Posix] of the model, a function of the
    state [OS] of the system per call, which answers what the call returns; what it
    leaves in [errno] is part of the state.  The numbers are those of Linux.  What the
    calls are relied on for is in classes of laws: [StreamLaws] of a connected
    descriptor, [DescriptorLaws] of the table of descriptors. *)

From stdpp Require Export gmap.
From S2P Require Export Text Effects Transport.

(** [struct sockaddr]: the family, and what follows it. *)
Record sockaddr := Sockaddr { sa_family : Z; sa_data : list Z }.

(** An element of the list that [getaddrinfo] makes. *)
Record addrinfo := AddrInfo {
  ai_family : Z;
  ai_socktype : Z;
  ai_protocol : Z;
  ai_addr : sockaddr;
  ai_addrlen : Z
}.

Module Number.
Definition EINTR : Z := 4.
Definition EAGAIN : Z := 11.
Definition EWOULDBLOCK : Z := 11.
Definition EPIPE : Z := 32.
Definition ECONNRESET : Z := 104.
Definition ENOTCONN : Z := 107.
Definition ETIMEDOUT : Z := 110.
Definition EINPROGRESS : Z := 115.
Definition AF_UNSPEC : Z := 0.
Definition AF_UNIX : Z := 1.
Definition AF_INET : Z := 2.
Definition AF_INET6 : Z := 10.
Definition SOCK_STREAM : Z := 1.
Definition IPPROTO_IP : Z := 0.
Definition IPPROTO_TCP : Z := 6.
Definition SOL_SOCKET : Z := 1.
Definition SO_LINGER : Z := 13.
Definition SO_RCVTIMEO : Z := 20.
Definition SO_SNDTIMEO : Z := 21.
Definition TCP_NODELAY : Z := 1.
Definition F_GETFL : Z := 3.
Definition F_SETFL : Z := 4.
Definition O_NONBLOCK : Z := 2048.
Definition POLLOUT : Z := 4.
Definition MSG_PEEK : Z := 2.
Definition MSG_NOSIGNAL : Z := 16384.
Definition SHUT_RDWR : Z := 2.
Definition AI_PASSIVE : Z := 1.
Definition AI_ADDRCONFIG : Z := 32.
Definition NI_NUMERICHOST : Z := 1.
Definition NI_NUMERICSERV : Z := 2.
Definition O_RDONLY : Z := 0.
Definition O_WRONLY : Z := 1.
Definition O_RDWR : Z := 2.
Definition O_CREAT : Z := 64.
Definition O_APPEND : Z := 1024.
(** S_IRUSR | S_IWUSR | S_IRGRP | S_IROTH. *)
Definition mode_644 : Z := 420.
Definition sizeof_sockaddr_in : Z := 16.
Definition sizeof_sockaddr_in6 : Z := 28.
Definition sizeof_sockaddr_un : Z := 110.
Definition sizeof_sun_path : Z := 108.
End Number.
Export Number.

(** The calls.  [recv] and [read] answer the bytes they stored; [getsockopt(SO_ERROR)]
    also the value; [getaddrinfo] the list; [getpeername] the address and its length;
    [getnameinfo] what is in the two buffers after it. *)
Class Posix (OS : Type) := {
  errno : OS -> Z;
  strerror_s : Z -> string;
  sys_socket : Z -> Z -> Z -> OS -> Z * OS;
  sys_connect : Z -> sockaddr -> Z -> OS -> Z * OS;
  sys_fcntl : Z -> Z -> Z -> OS -> Z * OS;
  sys_poll : Z -> Z -> Z -> OS -> Z * OS;
  sys_getsockopt_error : Z -> OS -> (Z * Z) * OS;
  sys_setsockopt : Z -> Z -> Z -> Z * Z -> OS -> Z * OS;
  sys_recv : Z -> Z -> Z -> OS -> (Z * list Z) * OS;
  sys_send : Z -> list Z -> Z -> OS -> Z * OS;
  sys_shutdown : Z -> Z -> OS -> Z * OS;
  sys_close : Z -> OS -> Z * OS;
  sys_getaddrinfo : list Z -> list Z -> Z -> Z -> Z -> OS -> (Z * list addrinfo) * OS;
  sys_freeaddrinfo : list addrinfo -> OS -> unit * OS;
  sys_getpeername : Z -> OS -> (Z * (sockaddr * Z)) * OS;
  sys_getnameinfo : sockaddr -> Z -> Z -> OS -> (list Z * list Z) * OS;
  sys_gettimeofday : OS -> (Z * Z) * OS;
  sys_usleep : Z -> OS -> unit * OS;
  sys_read : Z -> Z -> OS -> (Z * list Z) * OS;
  sys_write : Z -> list Z -> OS -> Z * OS;
  sys_open : list Z -> Z -> Z -> OS -> Z * OS
}.

(** ** Objects that make calls *)

Section Calls.
Context {S OS : Type} `{Posix OS}.

Definition call {A} (f : OS -> A * OS) : M (S * OS) A := fun s => let '(a, os) := f s.2 in (Ok a, (s.1, os)).
Definition get_errno : M (S * OS) Z := gets (fun s => errno s.2).
Definition this {A} (f : S -> A) : M (S * OS) A := gets (fun s => f s.1).
Definition update (f : S -> S) : M (S * OS) unit := modify (fun s => (f s.1, s.2)).

(** [TTransportException(type, message, errno_copy)]. *)
Definition transport_error (type : TTransportException.Type_) (message : string) (errno_copy : Z) : exn :=
  ETransport type (message ++ ": " ++ strerror_s errno_copy).

Lemma runs_call {A} (f : OS -> A * OS) s (Q : A -> S * OS -> Prop) E :
  (let '(a, os) := f s.2 in Q a (s.1, os)) -> runs (call f) s Q E.
Proof. unfold runs, call. by destruct (f s.2). Qed.

Lemma runs_get_errno s (Q : Z -> S * OS -> Prop) E : Q (errno s.2) s -> runs get_errno s Q E.
Proof. done. Qed.

Lemma runs_this {A} (f : S -> A) s (Q : A -> S * OS -> Prop) E : Q (f s.1) s -> runs (this f) s Q E.
Proof. done. Qed.

Lemma runs_update f s (Q : unit -> S * OS -> Prop) E : Q tt (f s.1, s.2) -> runs (update f) s Q E.
Proof. done. Qed.
End Calls.

(** [wp], also through the object's members. *)
Ltac os1 :=
  lazymatch goal with
  | |- runs (this _) _ _ _ => apply runs_this
  | |- runs (update _) _ _ _ => apply runs_update
  | |- runs get_errno _ _ _ => apply runs_get_errno
  | |- _ => wp1
  end; cbv beta.
Ltac os := repeat os1; cbn [fst snd].

(** ** Laws *)

(** What a stream of bytes behind a descriptor promises.  [pending os fd bs i]: [fd] is
    connected, and its other side has sent [bs] and will send no more; a call may be
    interrupted by a signal, at most [i] times before it gets through, and [patience]
    times after that.  [accepting os fd out room]: what was sent through [fd] is [out],
    and [room] more bytes will be taken. *)
Class StreamLaws (OS : Type) `{Posix OS} := {
  pending : OS -> Z -> list Z -> Z -> Prop;
  accepting : OS -> Z -> list Z -> Z -> Prop;
  patience : Z;
  pending_fd os fd bs i : pending os fd bs i -> 0 <= fd /\ 0 <= i <= patience;
  accepting_fd os fd out room : accepting os fd out room -> 0 <= fd;
  recv_law os fd bs i n : pending os fd bs i -> 0 < n < 2 ^ 32 ->
    let '((got, d), os') := sys_recv fd n 0 os in
    got = -1 /\ errno os' = EINTR /\ 0 < i /\ pending os' fd bs (i - 1) \/
    exists j, 0 <= got <= Z.min n (zlen bs) /\ (0 < zlen bs -> 0 < got) /\ got < 2 ^ 31 /\
      d = ztake got bs /\ pending os' fd (zdrop got bs) j;
  peek_law os fd bs : pending os fd bs 0 ->
    let '((got, d), os') := sys_recv fd 1 MSG_PEEK os in
    got = Z.min 1 (zlen bs) /\ d = ztake got bs /\ pending os' fd bs 0;
  send_law os fd out room d : accepting os fd out room -> 0 < zlen d <= room -> zlen d < 2 ^ 32 ->
    let '(sent, os') := sys_send fd d MSG_NOSIGNAL os in
    0 < sent <= zlen d /\ sent < 2 ^ 31 /\ accepting os' fd (out ++ ztake sent d) (room - sent);
  read_law os fd bs i n : pending os fd bs i -> 0 < n < 2 ^ 32 ->
    let '((got, d), os') := sys_read fd n os in
    got = -1 /\ errno os' = EINTR /\ 0 < i /\ pending os' fd bs (i - 1) \/
    exists j, 0 <= got <= Z.min n (zlen bs) /\ (0 < zlen bs -> 0 < got) /\
      d = ztake got bs /\ pending os' fd (zdrop got bs) j;
  write_law os fd out room d : accepting os fd out room -> 0 < zlen d <= room -> zlen d < 2 ^ 32 ->
    let '(sent, os') := sys_write fd d os in
    0 < sent <= zlen d /\ accepting os' fd (out ++ ztake sent d) (room - sent);
  time_law os fd bs i : pending os fd bs i -> pending (sys_gettimeofday os).2 fd bs i
}.

(** What is relied on of the table of descriptors: [descriptors os] are those that are
    open; [lists os] is the number of lists from [getaddrinfo] that have not been
    freed. *)
Class DescriptorLaws (OS : Type) `{Posix OS} := {
  descriptors : OS -> gset Z;
  lists : OS -> Z;
  socket_law os family type protocol :
    let '(fd, os') := sys_socket family type protocol os in
    lists os' = lists os /\
    (fd = -1 /\ descriptors os' = descriptors os \/
     0 <= fd /\ fd ∉ descriptors os /\ descriptors os' = {[fd]} ∪ descriptors os);
  close_law os fd :
    lists (sys_close fd os).2 = lists os /\ descriptors (sys_close fd os).2 = descriptors os ∖ {[fd]};
  getaddrinfo_law os host port family type flags :
    let '((error, res), os') := sys_getaddrinfo host port family type flags os in
    descriptors os' = descriptors os /\
    (error = 0 /\ res <> [] /\ lists os' = lists os + 1 \/ error <> 0 /\ lists os' = lists os);
  freeaddrinfo_law os res :
    descriptors (sys_freeaddrinfo res os).2 = descriptors os /\ lists (sys_freeaddrinfo res os).2 = lists os - 1;
  same_table (os os' : OS) : Prop := descriptors os' = descriptors os /\ lists os' = lists os;
  connect_table os fd a l : same_table os (sys_connect fd a l os).2;
  fcntl_table os fd c a : same_table os (sys_fcntl fd c a os).2;
  poll_table os fd e t : same_table os (sys_poll fd e t os).2;
  getsockopt_table os fd : same_table os (sys_getsockopt_error fd os).2;
  setsockopt_table os fd l n v : same_table os (sys_setsockopt fd l n v os).2;
  shutdown_table os fd h : same_table os (sys_shutdown fd h os).2;
  getpeername_table os fd : same_table os (sys_getpeername fd os).2;
  getnameinfo_table os a l f : same_table os (sys_getnameinfo a l f os).2
}.
