(* ===== verification/Socket.v ===== *)
(** * TSocket: transport/TSocket.h and TSocket.cpp

    The object beside the state of the system, as built for Linux.  [perror] stands for
    [GlobalOutput.perror] of a message that ends with [getSocketInfo()]: the log is not
    part of the state, but asking for the peer's address changes the object. *)

From S2P Require Export Posix.

Definition INVALID_SOCKET : Z := -1.

(** [cachedPeerAddr_]: the family is [AF_UNSPEC] or what the memory held. *)
Record TSocket := Socket {
  host_ : list Z;
  peerHost_ : list Z;
  peerAddress_ : list Z;
  peerPort_ : Z;
  port_ : Z;
  path_ : list Z;
  socket_ : Z;
  connTimeout_ : Z;
  sendTimeout_ : Z;
  recvTimeout_ : Z;
  lingerOn_ : bool;
  lingerVal_ : Z;
  noDelay_ : bool;
  maxRecvRetries_ : Z;
  recvTimeval_ : Z * Z;
  cachedPeerAddr_ : sockaddr
}.

Definition set_host x s := Socket x (peerHost_ s) (peerAddress_ s) (peerPort_ s) (port_ s) (path_ s) (socket_ s) (connTimeout_ s) (sendTimeout_ s) (recvTimeout_ s) (lingerOn_ s) (lingerVal_ s) (noDelay_ s) (maxRecvRetries_ s) (recvTimeval_ s) (cachedPeerAddr_ s).
Definition set_peerHost x s := Socket (host_ s) x (peerAddress_ s) (peerPort_ s) (port_ s) (path_ s) (socket_ s) (connTimeout_ s) (sendTimeout_ s) (recvTimeout_ s) (lingerOn_ s) (lingerVal_ s) (noDelay_ s) (maxRecvRetries_ s) (recvTimeval_ s) (cachedPeerAddr_ s).
Definition set_peerAddress x y s := Socket (host_ s) (peerHost_ s) x y (port_ s) (path_ s) (socket_ s) (connTimeout_ s) (sendTimeout_ s) (recvTimeout_ s) (lingerOn_ s) (lingerVal_ s) (noDelay_ s) (maxRecvRetries_ s) (recvTimeval_ s) (cachedPeerAddr_ s).
Definition set_port x s := Socket (host_ s) (peerHost_ s) (peerAddress_ s) (peerPort_ s) x (path_ s) (socket_ s) (connTimeout_ s) (sendTimeout_ s) (recvTimeout_ s) (lingerOn_ s) (lingerVal_ s) (noDelay_ s) (maxRecvRetries_ s) (recvTimeval_ s) (cachedPeerAddr_ s).
Definition set_socket x s := Socket (host_ s) (peerHost_ s) (peerAddress_ s) (peerPort_ s) (port_ s) (path_ s) x (connTimeout_ s) (sendTimeout_ s) (recvTimeout_ s) (lingerOn_ s) (lingerVal_ s) (noDelay_ s) (maxRecvRetries_ s) (recvTimeval_ s) (cachedPeerAddr_ s).
Definition set_connTimeout x s := Socket (host_ s) (peerHost_ s) (peerAddress_ s) (peerPort_ s) (port_ s) (path_ s) (socket_ s) x (sendTimeout_ s) (recvTimeout_ s) (lingerOn_ s) (lingerVal_ s) (noDelay_ s) (maxRecvRetries_ s) (recvTimeval_ s) (cachedPeerAddr_ s).
Definition set_sendTimeout x s := Socket (host_ s) (peerHost_ s) (peerAddress_ s) (peerPort_ s) (port_ s) (path_ s) (socket_ s) (connTimeout_ s) x (recvTimeout_ s) (lingerOn_ s) (lingerVal_ s) (noDelay_ s) (maxRecvRetries_ s) (recvTimeval_ s) (cachedPeerAddr_ s).
Definition set_recvTimeout x s := Socket (host_ s) (peerHost_ s) (peerAddress_ s) (peerPort_ s) (port_ s) (path_ s) (socket_ s) (connTimeout_ s) (sendTimeout_ s) x (lingerOn_ s) (lingerVal_ s) (noDelay_ s) (maxRecvRetries_ s) (recvTimeval_ s) (cachedPeerAddr_ s).
Definition set_linger x y s := Socket (host_ s) (peerHost_ s) (peerAddress_ s) (peerPort_ s) (port_ s) (path_ s) (socket_ s) (connTimeout_ s) (sendTimeout_ s) (recvTimeout_ s) x y (noDelay_ s) (maxRecvRetries_ s) (recvTimeval_ s) (cachedPeerAddr_ s).
Definition set_noDelay x s := Socket (host_ s) (peerHost_ s) (peerAddress_ s) (peerPort_ s) (port_ s) (path_ s) (socket_ s) (connTimeout_ s) (sendTimeout_ s) (recvTimeout_ s) (lingerOn_ s) (lingerVal_ s) x (maxRecvRetries_ s) (recvTimeval_ s) (cachedPeerAddr_ s).
Definition set_maxRecvRetries x s := Socket (host_ s) (peerHost_ s) (peerAddress_ s) (peerPort_ s) (port_ s) (path_ s) (socket_ s) (connTimeout_ s) (sendTimeout_ s) (recvTimeout_ s) (lingerOn_ s) (lingerVal_ s) (noDelay_ s) x (recvTimeval_ s) (cachedPeerAddr_ s).
Definition set_recvTimeval x s := Socket (host_ s) (peerHost_ s) (peerAddress_ s) (peerPort_ s) (port_ s) (path_ s) (socket_ s) (connTimeout_ s) (sendTimeout_ s) (recvTimeout_ s) (lingerOn_ s) (lingerVal_ s) (noDelay_ s) (maxRecvRetries_ s) x (cachedPeerAddr_ s).
Definition set_cachedPeerAddr x s := Socket (host_ s) (peerHost_ s) (peerAddress_ s) (peerPort_ s) (port_ s) (path_ s) (socket_ s) (connTimeout_ s) (sendTimeout_ s) (recvTimeout_ s) (lingerOn_ s) (lingerVal_ s) (noDelay_ s) (maxRecvRetries_ s) (recvTimeval_ s) x.

(** ** Constructors *)

(** [memory] and [garbage] are what the members that are not set hold. *)
Definition unspecified : sockaddr := Sockaddr AF_UNSPEC [].

Definition constructor_host (host : list Z) (port garbage : Z) (memory : sockaddr) : TSocket :=
  Socket host [] [] garbage port [] INVALID_SOCKET 0 0 0 true 0 true 5 (0, 0) memory.
Definition constructor_path (path : list Z) (garbage : Z) : TSocket :=
  Socket [] [] [] garbage 0 path INVALID_SOCKET 0 0 0 true 0 true 5 (0, 0) unspecified.
Definition constructor (garbage : Z) : TSocket :=
  Socket [] [] [] garbage 0 [] INVALID_SOCKET 0 0 0 true 0 true 5 (0, 0) unspecified.
Definition constructor_socket (socket garbage : Z) : TSocket :=
  Socket [] [] [] garbage 0 [] socket 0 0 0 true 0 true 5 (0, 0) unspecified.

Definition empty (l : list Z) : bool := match l with [] => true | _ => false end.

Section Operations.
Context {OS : Type} `{Posix OS} `{CLibrary}.
Abbreviation St := (TSocket * OS)%type.

Definition isOpen : M St bool := this (fun s => negb (socket_ s =? INVALID_SOCKET)).

(** ** The address of the peer *)

Definition setCachedAddress (addr : sockaddr) (len : Z) : M St unit :=
  let! path := this path_ in
  if negb (empty path) then ret tt
  else if ((sa_family addr =? AF_INET) && (len =? sizeof_sockaddr_in)
           || (sa_family addr =? AF_INET6) && (len =? sizeof_sockaddr_in6))%bool
  then update (set_cachedPeerAddr addr) else ret tt.

Definition getCachedAddress : M St (option (sockaddr * Z)) :=
  this (fun s =>
    let family := sa_family (cachedPeerAddr_ s) in
    if family =? AF_INET then Some (cachedPeerAddr_ s, sizeof_sockaddr_in)
    else if family =? AF_INET6 then Some (cachedPeerAddr_ s, sizeof_sockaddr_in6) else None).

(** The address of the peer, from the cache or the system; none if that fails. *)
Definition peer_addr : M St (option (sockaddr * Z)) :=
  let! cached := getCachedAddress in
  match cached with
  | Some a => ret (Some a)
  | None =>
      let! fd := this socket_ in
      let! '(rv, (addr, addrLen)) := call (sys_getpeername fd) in
      if negb (rv =? 0) then ret None
      else do! setCachedAddress addr addrLen in ret (Some (addr, addrLen))
  end.

Definition c_str (l : list Z) : list Z := default l (c_string l).

Definition getPeerHost : M St (list Z) :=
  let! peerHost := this peerHost_ in
  let! path := this path_ in
  if (empty peerHost && empty path)%bool then
    let! fd := this socket_ in
    if fd =? INVALID_SOCKET then this host_ else
    let! addr := peer_addr in
    match addr with
    | None => this peerHost_
    | Some (addr, addrLen) =>
        let! '(clienthost, _) := call (sys_getnameinfo addr addrLen 0) in
        do! update (set_peerHost (c_str clienthost)) in
        this peerHost_
    end
  else ret peerHost.

Definition getPeerAddress : M St (list Z) :=
  let! peerAddress := this peerAddress_ in
  let! path := this path_ in
  if (empty peerAddress && empty path)%bool then
    let! fd := this socket_ in
    if fd =? INVALID_SOCKET then ret peerAddress else
    let! addr := peer_addr in
    match addr with
    | None => this peerAddress_
    | Some (addr, addrLen) =>
        let! '(clienthost, clientservice) := call (sys_getnameinfo addr addrLen (Z.lor NI_NUMERICHOST NI_NUMERICSERV)) in
        do! update (set_peerAddress (c_str clienthost) (atoi (c_str clientservice))) in
        this peerAddress_
    end
  else ret peerAddress.

Definition getPeerPort : M St Z :=
  do! getPeerAddress in this peerPort_.

Definition getSocketInfo : M St (list Z) :=
  let! host := this host_ in
  let! port := this port_ in
  if (empty host || (port =? 0))%bool then
    let! address := getPeerAddress in
    let! peerPort := getPeerPort in
    ret (bytes_of "<Host: " ++ address ++ bytes_of " Port: " ++ decimal peerPort ++ bytes_of ">")
  else ret (bytes_of "<Host: " ++ host ++ bytes_of " Port: " ++ decimal port ++ bytes_of ">").

Definition perror : M St unit := do! getSocketInfo in ret tt.

(** ** Options *)

(** [setsockopt], and the message if it fails. *)
Definition set_option (level name : Z) (value : Z * Z) : M St unit :=
  let! fd := this socket_ in
  let! rv := call (sys_setsockopt fd level name value) in
  if rv =? -1 then perror else ret tt.

Definition setLinger (on : bool) (linger : Z) : M St unit :=
  do! update (set_linger on linger) in
  let! fd := this socket_ in
  if fd =? INVALID_SOCKET then ret tt
  else set_option SOL_SOCKET SO_LINGER (if on then 1 else 0, linger).

Definition setNoDelay (noDelay : bool) : M St unit :=
  do! update (set_noDelay noDelay) in
  let! fd := this socket_ in
  let! path := this path_ in
  if ((fd =? INVALID_SOCKET) || negb (empty path))%bool then ret tt
  else set_option IPPROTO_TCP TCP_NODELAY (if noDelay then 1 else 0, 0).

Definition setConnTimeout (ms : Z) : M St unit := update (set_connTimeout ms).

(** Milliseconds as a [struct timeval]. *)
Definition timeval (ms : Z) : Z * Z := (Z.quot ms 1000, Z.rem ms 1000 * 1000).

Definition setRecvTimeout (ms : Z) : M St unit :=
  if ms <? 0 then ret tt else
  do! update (set_recvTimeout ms) in
  let! fd := this socket_ in
  if fd =? INVALID_SOCKET then ret tt else
  do! update (set_recvTimeval (timeval ms)) in
  set_option SOL_SOCKET SO_RCVTIMEO (timeval ms).

Definition setSendTimeout (ms : Z) : M St unit :=
  if ms <? 0 then ret tt else
  do! update (set_sendTimeout ms) in
  let! fd := this socket_ in
  if fd =? INVALID_SOCKET then ret tt else
  set_option SOL_SOCKET SO_SNDTIMEO (timeval ms).

Definition setMaxRecvRetries (maxRecvRetries : Z) : M St unit := update (set_maxRecvRetries maxRecvRetries).

Definition getHost : M St (list Z) := this host_.
Definition getPort : M St Z := this port_.
Definition setHost (host : list Z) : M St unit := update (set_host host).
Definition setPort (port : Z) : M St unit := update (set_port port).

(** ** Opening and closing *)

Definition close : M St unit :=
  let! fd := this socket_ in
  do! (if negb (fd =? INVALID_SOCKET) then
         do! call (sys_shutdown fd SHUT_RDWR) in
         do! call (sys_close fd) in ret tt
       else ret tt) in
  update (set_socket INVALID_SOCKET).

Definition setSocketFD (socket : Z) : M St unit :=
  let! fd := this socket_ in
  do! (if negb (fd =? INVALID_SOCKET) then close else ret tt) in
  update (set_socket socket).

(** [perror] and the exception that says why. *)
Definition fails {A} (message : string) (errno_copy : Z) : M St A :=
  do! perror in throw (transport_error NOT_OPEN message errno_copy).

(** The mode of the descriptor for [connect]: [flags] is what it had. *)
Definition connect_mode (flags : Z) : M St unit :=
  let! fd := this socket_ in
  let! connTimeout := this connTimeout_ in
  let! rv := call (sys_fcntl fd F_SETFL
    (if 0 <? connTimeout then Z.lor flags O_NONBLOCK else Z.land flags (Z.lnot O_NONBLOCK))) in
  if rv =? -1 then let! errno_copy := get_errno in fails "THRIFT_FCNTL() failed" errno_copy else ret tt.

Definition no_addrinfo : addrinfo := AddrInfo 0 0 0 unspecified 0.

(** The call of [connect]; a path is cut to what fits the address. *)
Definition connect_call (res : option addrinfo) : M St Z :=
  let! fd := this socket_ in
  let! path := this path_ in
  if negb (empty path) then
    if sizeof_sun_path <? zlen path then
      throw (ETransport NOT_OPEN " Unix Domain socket path too long")
    else
      let address := Sockaddr AF_UNIX (ztake (sizeof_sun_path - 1) (c_str path)) in
      call (sys_connect fd address sizeof_sockaddr_un)
  else
    do! require (match res with Some _ => true | None => false end) in
    let r := default no_addrinfo res in
    call (sys_connect fd (ai_addr r) (ai_addrlen r)).

(** Until the connection is there, or has failed. *)
Definition await_connection : M St unit :=
  let! fd := this socket_ in
  let! connTimeout := this connTimeout_ in
  let! ret_ := call (sys_poll fd POLLOUT connTimeout) in
  if 0 <? ret_ then
    let! '(ret2, val) := call (sys_getsockopt_error fd) in
    if ret2 =? -1 then let! errno_copy := get_errno in fails "getsockopt()" errno_copy
    else if val =? 0 then ret tt
    else fails "socket open() error" val
  else if ret_ =? 0 then
    do! perror in throw (ETransport NOT_OPEN "open() timed out")
  else let! errno_copy := get_errno in fails "THRIFT_POLL() failed" errno_copy.

(** The options of the object, for a socket just made. *)
Definition apply_options : M St unit :=
  let! sendTimeout := this sendTimeout_ in
  do! (if 0 <? sendTimeout then setSendTimeout sendTimeout else ret tt) in
  let! recvTimeout := this recvTimeout_ in
  do! (if 0 <? recvTimeout then setRecvTimeout recvTimeout else ret tt) in
  let! lingerOn := this lingerOn_ in
  let! lingerVal := this lingerVal_ in
  do! setLinger lingerOn lingerVal in
  let! noDelay := this noDelay_ in
  setNoDelay noDelay.

(** [connect], and what its answer leads to. *)
Definition connect_socket (res : option addrinfo) : M St unit :=
  let! ret_ := connect_call res in
  if ret_ =? 0 then ret tt else
  let! e := get_errno in
  if (negb (e =? EINPROGRESS) && negb (e =? EWOULDBLOCK))%bool then fails "connect() failed" e
  else await_connection.

(** What is done with a socket just made. *)
Definition connect_new (res : option addrinfo) : M St unit :=
  let! fd := this socket_ in
  let! path := this path_ in
  do! apply_options in
  let! flags := call (sys_fcntl fd F_GETFL 0) in
  do! connect_mode flags in
  do! connect_socket res in
  do! call (sys_fcntl fd F_SETFL flags) in
  let r := default no_addrinfo res in
  if empty path then setCachedAddress (ai_addr r) (ai_addrlen r) else ret tt.

Definition openConnection (res : option addrinfo) : M St unit :=
  let! already := isOpen in
  if already then ret tt else
  let! path := this path_ in
  do! require (negb (empty path) || match res with Some _ => true | None => false end) in
  let r := default no_addrinfo res in
  let! fd := call (if negb (empty path) then sys_socket AF_UNIX SOCK_STREAM IPPROTO_IP
                   else sys_socket (ai_family r) (ai_socktype r) (ai_protocol r)) in
  do! update (set_socket fd) in
  if fd =? INVALID_SOCKET then let! errno_copy := get_errno in fails "socket()" errno_copy
  else connect_new res.

Definition unix_open : M St unit :=
  let! path := this path_ in
  if negb (empty path) then openConnection None else ret tt.

(** [try { m } catch (TTransportException&) { h; }], where [h] is told what to throw. *)
Definition catch_transport {A} (m : M St A) (h : exn -> M St A) : M St A := fun s =>
  match m s with
  | (Throw (ETransport t x), s') => h (ETransport t x) s'
  | r => r
  end.

(** One address after the other; [res0] is the list that has to be freed. *)
Fixpoint try_addresses (res0 res : list addrinfo) : M St unit :=
  match res with
  | [] => ret tt
  | r :: next =>
      let! connected :=
        catch_transport (do! openConnection (Some r) in ret true)
          (fun x =>
             do! close in
             match next with
             | _ :: _ => ret false
             | [] => do! call (sys_freeaddrinfo res0) in throw x
             end) in
      if connected then ret tt else try_addresses res0 next
  end.

Definition could_not_resolve : exn := ETransport NOT_OPEN "Could not resolve host for client socket.".

Definition local_open : M St unit :=
  let! already := isOpen in
  if already then ret tt else
  let! port := this port_ in
  if ((port <? 0) || (65535 <? port))%bool then throw (ETransport NOT_OPEN "Specified port is invalid") else
  let! host := this host_ in
  let! '(error, res0) := call (sys_getaddrinfo (c_str host) (decimal port) AF_UNSPEC SOCK_STREAM (Z.lor AI_PASSIVE AI_ADDRCONFIG)) in
  if negb (error =? 0) then
    do! perror in
    do! close in
    throw could_not_resolve
  else
    do! try_addresses res0 res0 in
    call (sys_freeaddrinfo res0).

Definition open : M St unit :=
  let! already := isOpen in
  if already then ret tt else
  let! path := this path_ in
  if negb (empty path) then unix_open else local_open.

Definition destructor : M St unit := close.

(** ** Reading and writing *)

(** Looks at the next byte and leaves it there. *)
Definition peek : M St bool :=
  let! open_ := isOpen in
  if negb open_ then ret false else
  let! fd := this socket_ in
  let! '(rv, _) := call (sys_recv fd 1 MSG_PEEK) in
  let r := s32 rv in
  if r =? -1 then
    let! errno_copy := get_errno in
    do! perror in
    throw (transport_error TTransportException.UNKNOWN "recv()" errno_copy)
  else ret (0 <? r).

Definition eagain_unavailable : exn := ETransport TTransportException.TIMED_OUT "THRIFT_EAGAIN (unavailable resources)".
Definition eagain_timed_out : exn := ETransport TTransportException.TIMED_OUT "THRIFT_EAGAIN (timed out)".

(** What an error that is not tried again is thrown as. *)
Definition recv_error (errno_copy : Z) : exn :=
  if errno_copy =? ECONNRESET then ETransport NOT_OPEN "THRIFT_ECONNRESET"
  else if errno_copy =? ENOTCONN then ETransport NOT_OPEN "THRIFT_ENOTCONN"
  else if errno_copy =? ETIMEDOUT then ETransport TTransportException.TIMED_OUT "THRIFT_ETIMEDOUT"
  else transport_error TTransportException.UNKNOWN "Unknown" errno_copy.

(** The time of day, if there is a timeout to compare it with. *)
Definition begin_time : M St (Z * Z) :=
  let! recvTimeout := this recvTimeout_ in
  if 0 <? recvTimeout then call sys_gettimeofday else ret (0, 0).

Definition elapsed_micros (begin_ end_ : Z * Z) : Z :=
  u32 ((end_.1 - begin_.1) * 1000 * 1000 + (end_.2 - begin_.2)).

(** A [recv] that gave [EAGAIN]: [inl] to try again. *)
Definition after_eagain (begin_ : Z * Z) (threshold retries : Z) : M St (Z + list Z) :=
  let! recvTimeout := this recvTimeout_ in
  let! maxRecvRetries := this maxRecvRetries_ in
  if recvTimeout =? 0 then throw eagain_unavailable else
  let! end_ := call sys_gettimeofday in
  if ((threshold =? 0) || (elapsed_micros begin_ end_ <? threshold))%bool then
    if retries <? maxRecvRetries then do! call (sys_usleep 50) in ret (inl (retries + 1))
    else throw eagain_unavailable
  else throw eagain_timed_out.

(** From [try_again] on. *)
Definition read_round (len threshold retries : Z) : M St (Z + list Z) :=
  let! fd := this socket_ in
  let! maxRecvRetries := this maxRecvRetries_ in
  let! begin_ := begin_time in
  let! '(rv, buf) := call (sys_recv fd len 0) in
  let got := s32 rv in
  let! errno_copy := get_errno in
  if got <? 0 then
    if errno_copy =? EAGAIN then after_eagain begin_ threshold retries
    else if ((errno_copy =? EINTR) && (retries <? maxRecvRetries))%bool then ret (inl (retries + 1))
    else do! perror in throw (recv_error errno_copy)
  else ret (inr buf).

Definition read (len : Z) : M St (list Z) :=
  let! fd := this socket_ in
  if fd =? INVALID_SOCKET then throw (ETransport NOT_OPEN "Called read on non-open socket") else
  let! recvTimeout := this recvTimeout_ in
  let! maxRecvRetries := this maxRecvRetries_ in
  do! require (recvTimeout * 1000 <? 2 ^ 31) in
  let threshold :=
    if recvTimeout =? 0 then 0
    else u32 (Z.quot (recvTimeout * 1000) (if 0 <? maxRecvRetries then maxRecvRetries else 2)) in
  iterate (Z.max 0 maxRecvRetries + 1) (read_round len threshold) 0.

(** [send] once: how much of [buf] it took. *)
Definition write_partial (buf : list Z) : M St Z :=
  let! fd := this socket_ in
  if fd =? INVALID_SOCKET then throw (ETransport NOT_OPEN "Called write on non-open socket") else
  let! rv := call (sys_send fd buf MSG_NOSIGNAL) in
  let b := s32 rv in
  if b <? 0 then
    let! errno_copy := get_errno in
    if ((errno_copy =? EWOULDBLOCK) || (errno_copy =? EAGAIN))%bool then ret 0 else
    do! perror in
    if ((errno_copy =? EPIPE) || (errno_copy =? ECONNRESET) || (errno_copy =? ENOTCONN))%bool then
      do! close in throw (transport_error NOT_OPEN "write() send()" errno_copy)
    else throw (transport_error TTransportException.UNKNOWN "write() send()" errno_copy)
  else if b =? 0 then throw (ETransport NOT_OPEN "Socket send returned 0.")
  else ret b.

Definition write_round (buf : list Z) (sent : Z) : M St (Z + unit) :=
  if sent <? zlen buf then
    let! b := write_partial (zdrop sent buf) in
    if b =? 0 then throw (ETransport TTransportException.TIMED_OUT "send timeout expired")
    else ret (inl (u32 (sent + b)))
  else ret (inr tt).

Definition write (buf : list Z) : M St unit := iterate (zlen buf + 1) (write_round buf) 0.

#[export] Instance TSocket_transport : TTransport St := {
  t_isOpen := isOpen;
  t_peek := peek;
  t_open := open;
  t_close := close;
  t_read := read;
  t_readAll := readAll read;
  t_readEnd := BaseTransport.readEnd;
  t_write := write;
  t_writeEnd := BaseTransport.writeEnd;
  t_flush := BaseTransport.flush;
  t_borrow := BaseTransport.borrow_virt;
  t_consume := BaseTransport.consume_virt
}.
End Operations.
