(* ===== verification/SocketStream.v ===== *)
(** * A connected socket is a stream of bytes

    Over [StreamLaws]: reading delivers what the other side sent, whatever the pieces
    it comes in and however often a call is interrupted, as long as the retries of the
    socket suffice; writing sends all, whatever the pieces it is taken in.  With the
    contracts of [Transport] every protocol and transport works over sockets. *)

From S2P Require Export Socket.

Lemma s32_small z : - 2 ^ 31 <= z < 2 ^ 31 -> s32 z = z.
Proof. intros. apply wraps_small; [lia|]. unfold in_s. lia. Qed.

Section Stream.
Context {OS : Type} `{Posix OS} `{CLibrary} `{!StreamLaws OS}.
Abbreviation St := (TSocket * OS)%type.

(** The settings of a socket with which it reads on through interruptions. *)
Definition patient (t : TSocket) : Prop := patience <= maxRecvRetries_ t /\ 0 <= recvTimeout_ t * 1000 < 2 ^ 31.

Definition receiving (s : St) (bs : list Z) : Prop :=
  patient s.1 /\ exists i, pending s.2 (socket_ s.1) bs i.
Definition sending (s : St) (out : list Z) (room : Z) : Prop := accepting s.2 (socket_ s.1) out room.

Lemma begin_time_ok (s : St) fd bs i : pending s.2 fd bs i ->
  succeeds begin_time s (fun _ s' => s'.1 = s.1 /\ pending s'.2 fd bs i).
Proof.
  intros Hp. unfold begin_time. os. destruct (0 <? recvTimeout_ s.1); [|by wp].
  apply runs_call. pose proof (time_law _ _ _ _ Hp) as Ht. by destruct (sys_gettimeofday s.2).
Qed.

Lemma read_round_ok len threshold retries (s : St) bs i :
  patience <= maxRecvRetries_ s.1 -> pending s.2 (socket_ s.1) bs i -> 0 < len < 2 ^ 32 ->
  0 <= retries -> i + retries <= patience ->
  succeeds (read_round len threshold retries) s (fun r s' => s'.1 = s.1 /\
    match r with
    | inl retries' => retries' = retries + 1 /\ retries < maxRecvRetries_ s.1 /\ pending s'.2 (socket_ s.1) bs (i - 1)
    | inr got => exists k j, got = ztake k bs /\ 0 <= k <= Z.min len (zlen bs) /\ (0 < zlen bs -> 0 < k) /\
                   pending s'.2 (socket_ s.1) (zdrop k bs) j
    end).
Proof.
  intros Hmax Hp Hlen Hr Hi. unfold read_round. os.
  wp_apply (begin_time_ok s _ bs i Hp); [|done]. intros b s1 [Hs1 Hp1]. os. apply runs_call.
  pose proof (recv_law _ _ _ _ len Hp1 Hlen) as Hrecv. destruct (sys_recv _ len 0 s1.2) as [[got d] os'].
  os. destruct Hrecv as [(-> & He & Hpos & Hp')|(j & Hk & Hk0 & Hk31 & -> & Hp')].
  - change (s32 (-1) <? 0) with true. cbv iota. rewrite He.
    replace (EINTR =? EAGAIN) with false by done. rewrite Z.eqb_refl.
    replace (retries <? maxRecvRetries_ s.1) with true by lia. wp. cbn. split; [done|]. split; [done|]. split; [lia|done].
  - rewrite s32_small by lia. replace (got <? 0) with false by lia. wp. cbn. split; [done|].
    exists got, j. by split_and!; try lia.
Qed.

Lemma read_prefix_ok : reads_prefix read receiving.
Proof.
  intros s n bs [[Hmax Ht] (i & Hp)] Hn. pose proof (pending_fd _ _ _ _ Hp) as [Hfd Hi]. unfold read.
  os. unfold INVALID_SOCKET. replace (socket_ s.1 =? -1) with false by lia.
  os. apply runs_require; [lia|]. wp.
  eapply (runs_iterate (fun retries s' => s'.1 = s.1 /\ 0 <= retries <= maxRecvRetries_ s.1 /\
      exists i, i + retries <= patience /\ pending s'.2 (socket_ s.1) bs i)
    (fun retries => maxRecvRetries_ s.1 - retries)).
  - intros retries s1 (Hs1 & Hr & i1 & Hi1 & Hp1). rewrite <- Hs1 in Hp1, Hmax.
    eapply runs_mono; [apply (read_round_ok _ _ retries s1 bs i1); (done || lia)| |done].
    intros [retries'|got] s2 [Hs2 Hcase]; rewrite Hs1 in *.
    + destruct Hcase as (-> & Hlt & Hp2). split; [|lia]. split; [done|]. split; [lia|]. exists (i1 - 1). split; [lia|done].
    + destruct Hcase as (k & j & -> & Hk & Hk0 & Hp2). exists k. split; [done|]. split; [|split; [lia|done]].
      rewrite <- Hs2 in Hp2, Hmax, Ht. split; [by split|]. by exists j.
  - split; [done|]. split; [lia|]. exists i. split; [lia|done].
  - lia.
Qed.

Lemma write_partial_ok (s : St) out room d : sending s out room -> 0 < zlen d <= room -> zlen d < 2 ^ 32 ->
  succeeds (write_partial d) s (fun b s' => s'.1 = s.1 /\ 0 < b <= zlen d /\ sending s' (out ++ ztake b d) (room - b)).
Proof.
  intros Hs Hd Hmax. pose proof (accepting_fd _ _ _ _ Hs) as Hfd. unfold write_partial. os.
  unfold INVALID_SOCKET. replace (socket_ s.1 =? -1) with false by lia. os. apply runs_call.
  pose proof (send_law _ _ _ _ d Hs Hd Hmax) as Hsend. destruct (sys_send _ d _ s.2) as [b os']. destruct Hsend as (Hb & Hb31 & Ha).
  rewrite s32_small by lia. replace (b <? 0) with false by lia. replace (b =? 0) with false by lia. by wp.
Qed.

Lemma write_all_sent (s : St) out room d : sending s out room -> zlen d <= room -> zlen d < 2 ^ 32 ->
  succeeds (write d) s (fun _ s' => s'.1 = s.1 /\ sending s' (out ++ d) (room - zlen d)).
Proof.
  intros Hs Hd Hmax. pose proof (zlen_nonneg d). unfold write.
  eapply (runs_iterate (fun sent s' => s'.1 = s.1 /\ 0 <= sent <= zlen d /\ sending s' (out ++ ztake sent d) (room - sent))
    (fun sent => zlen d - sent)).
  - intros sent s1 (Hs1 & Hk & Hs1'). unfold write_round. bif.
    + wp_apply (write_partial_ok s1 _ _ (zdrop sent d) Hs1'); [zlist|zlist| |done].
      intros b s2 (Hs2 & Hb2 & Hs2'). zlist. replace (b =? 0) with false by lia. wp.
      rewrite wrapu_small by (unfold in_u; lia). split; [|lia]. split; [congruence|]. split; [lia|]. rewrite <- app_assoc, <- ztake_add in Hs2' by lia.
      by replace (room - (sent + b)) with (room - sent - b) by lia.
    + wp. split; [done|]. by rewrite ztake_ge in Hs1' by lia; replace sent with (zlen d) in Hs1' by lia.
  - rewrite ztake_0, app_nil_r, Z.sub_0_r by lia. by split_and!; try lia.
  - lia.
Qed.

(** Whether there is more, as long as no signal comes in between. *)
Lemma peek_ok (s : St) bs : pending s.2 (socket_ s.1) bs 0 ->
  succeeds peek s (fun r s' => s'.1 = s.1 /\ r = negb (zlen bs =? 0) /\ pending s'.2 (socket_ s.1) bs 0).
Proof.
  intros Hp. pose proof (pending_fd _ _ _ _ Hp) as [Hfd _]. pose proof (zlen_nonneg bs). unfold peek, isOpen. os.
  unfold INVALID_SOCKET. replace (socket_ s.1 =? -1) with false by lia. cbn [negb]. os. os. apply runs_call.
  pose proof (peek_law _ _ _ Hp) as Hpeek. destruct (sys_recv _ 1 MSG_PEEK s.2) as [[r d] os']. destruct Hpeek as (-> & -> & Hp').
  wp. rewrite s32_small by lia. replace (Z.min 1 (zlen bs) =? -1) with false by lia. wp. cbn.
  split; [done|]. split; [|done]. lia.
Qed.

#[export] Program Instance TSocket_reads : ReadLaws St := {
  incoming := receiving;
  lent _ _ _ := False;
  stream_end := no_more
}.
Next Obligation. done. Qed.
Next Obligation. apply reads_prefix_some, read_prefix_ok. Qed.
Next Obligation. intros. apply readAll_stream; [apply reads_prefix_some, read_prefix_ok|done..]. Qed.
Next Obligation.
  intros. eapply runs_mono; [by apply (readAll_stream_eof _ receiving s n bs read_prefix_ok)|done|]. by intros e s' [? _].
Qed.
Next Obligation. done. Qed.
Next Obligation. done. Qed.

#[export] Instance TSocket_end : EndLaws St.
Proof. apply reads_prefix_end, read_prefix_ok. Qed.

#[export] Program Instance TSocket_writes : WriteLaws St := { outgoing := sending }.
Next Obligation. intros. eapply succeeds_mono; [by apply (write_all_sent s out room d)|]. by intros [] s' [_ ?]. Qed.

#[export] Instance TSocket_flush : FlushLaws St.
Proof. intros s out room Hs. exact Hs. Qed.
#[export] Instance TSocket_readEnd : ReadEndLaws St.
Proof. intros s bs Hs. exact Hs. Qed.
#[export] Instance TSocket_writeEnd : WriteEndLaws St.
Proof. intros s out room Hs. exact Hs. Qed.
End Stream.
