(* ===== verification/FdTransport.v ===== *)
(** * TFDTransport and TSimpleFileTransport: a descriptor as a transport

    transport/TFDTransport.h and .cpp, TSimpleFileTransport.cpp.  Over [StreamLaws] a
    descriptor is a stream of bytes like a socket. *)

From S2P Require Export SocketStream.

Inductive ClosePolicy := NO_CLOSE_ON_DESTROY | CLOSE_ON_DESTROY.

Record TFDTransport := FdTransport { fd_ : Z; close_policy_ : ClosePolicy }.

Section Descriptor.
Context {OS : Type} `{Posix OS}.
Abbreviation St := (TFDTransport * OS)%type.

Definition setFD (fd : Z) : M St unit := update (fun s => FdTransport fd (close_policy_ s)).
Definition getFD : M St Z := this fd_.

Definition isOpen : M St bool := this (fun s => 0 <=? fd_ s).
Definition open : M St unit := ret tt.

(** [uncaught] is [std::uncaught_exception()]. *)
Definition close (uncaught : bool) : M St unit :=
  let! open_ := isOpen in
  if negb open_ then ret tt else
  let! fd := this fd_ in
  let! rv := call (sys_close fd) in
  let! errno_copy := get_errno in
  do! setFD (-1) in
  if ((rv <? 0) && negb uncaught)%bool
  then throw (transport_error TTransportException.UNKNOWN "TFDTransport::close()" errno_copy)
  else ret tt.

Definition destructor (uncaught : bool) : M St unit :=
  let! policy := this close_policy_ in
  match policy with CLOSE_ON_DESTROY => close uncaught | NO_CLOSE_ON_DESTROY => ret tt end.

Definition maxRetries : Z := 5.

Definition read_round (len retries : Z) : M St (Z + list Z) :=
  let! fd := this fd_ in
  let! '(rv, buf) := call (sys_read fd len) in
  if rv <? 0 then
    let! errno_copy := get_errno in
    if ((errno_copy =? EINTR) && (retries <? maxRetries))%bool then ret (inl (retries + 1))
    else throw (transport_error TTransportException.UNKNOWN "TFDTransport::read()" errno_copy)
  else ret (inr buf).

Definition read (len : Z) : M St (list Z) := iterate (maxRetries + 1) (read_round len) 0.

(** [buf] is what is left to write. *)
Definition write_round (buf : list Z) : M St (list Z + unit) :=
  if 0 <? zlen buf then
    let! fd := this fd_ in
    let! rv := call (sys_write fd buf) in
    if rv <? 0 then
      let! errno_copy := get_errno in
      throw (transport_error TTransportException.UNKNOWN "TFDTransport::write()" errno_copy)
    else if rv =? 0 then throw (ETransport END_OF_FILE "TFDTransport::write()")
    else ret (inl (zdrop rv buf))
  else ret (inr tt).

Definition write (buf : list Z) : M St unit := iterate (zlen buf + 1) write_round buf.

#[export] Instance TFDTransport_transport : TTransport St := {
  t_isOpen := isOpen;
  t_peek := BaseTransport.peek isOpen;
  t_open := open;
  t_close := close false;
  t_read := read;
  t_readAll := readAll read;
  t_readEnd := BaseTransport.readEnd;
  t_write := write;
  t_writeEnd := BaseTransport.writeEnd;
  t_flush := BaseTransport.flush;
  t_borrow := BaseTransport.borrow_virt;
  t_consume := BaseTransport.consume_virt
}.
End Descriptor.

(** ** TSimpleFileTransport *)

Section SimpleFile.
Context {OS : Type} `{Posix OS}.

(** The flags of [open]; none if the file is to be neither read nor written. *)
Definition file_flags (read write : bool) : option Z :=
  let flags := match read, write with
               | true, true => Some O_RDWR | true, false => Some O_RDONLY
               | false, true => Some O_WRONLY | false, false => None end in
  if write then option_map (fun f => Z.lor f (Z.lor O_CREAT O_APPEND)) flags else flags.

(** The constructor: the object, or why there is none; the base object has no
    descriptor then. *)
Definition TSimpleFileTransport (path : list Z) (read write : bool) : M (TFDTransport * OS) unit :=
  do! update (fun _ => FdTransport (-1) CLOSE_ON_DESTROY) in
  match file_flags read write with
  | None => throw (ETransport TTransportException.UNKNOWN "Neither READ nor WRITE specified")
  | Some flags =>
      let! fd := call (sys_open (c_str path) flags mode_644) in
      if fd <? 0 then throw (ETransport TTransportException.UNKNOWN ("failed to open file for writing: " ++ text path))
      else do! setFD fd in open
  end.
End SimpleFile.

(** ** A stream of bytes *)

Section Stream.
Context {OS : Type} `{Posix OS} `{!StreamLaws OS}.
Abbreviation St := (TFDTransport * OS)%type.

Definition incoming_fd (s : St) (bs : list Z) : Prop :=
  patience <= maxRetries /\ exists i, pending s.2 (fd_ s.1) bs i.
Definition outgoing_fd (s : St) (out : list Z) (room : Z) : Prop := accepting s.2 (fd_ s.1) out room.

Lemma read_fd_ok : reads_prefix read incoming_fd.
Proof.
  intros s n bs [Hmax (i & Hp)] Hn. pose proof (pending_fd _ _ _ _ Hp) as [_ Hi]. unfold read.
  eapply (runs_iterate (fun retries s' => s'.1 = s.1 /\ 0 <= retries <= maxRetries /\
      exists i, i + retries <= patience /\ pending s'.2 (fd_ s.1) bs i) (fun retries => maxRetries - retries)).
  - intros retries s1 (Hs1 & Hr & i1 & Hi1 & Hp1). unfold read_round. os. apply runs_call.
    rewrite <- Hs1 in Hp1. pose proof (read_law _ _ _ _ n Hp1 Hn) as Hread. destruct (sys_read _ n s1.2) as [[got d] os'].
    destruct Hread as [(-> & He & Hpos & Hp')|(j & Hk & Hk0 & -> & Hp')]; rewrite Hs1 in *.
    + change (-1 <? 0) with true. cbv iota. os. rewrite He, Z.eqb_refl.
      replace (retries <? maxRetries) with true by lia. os. split; [|lia]. split; [done|]. split; [lia|]. exists (i1 - 1). split; [lia|done].
    + replace (got <? 0) with false by lia. os. exists got. split; [done|]. split; [|done]. split; [done|]. cbn. by exists j.
  - split; [done|]. split; [unfold maxRetries; lia|]. exists i. split; [lia|done].
  - unfold maxRetries. lia.
Qed.

Lemma write_fd_ok (s : St) out room d : outgoing_fd s out room -> zlen d <= room -> zlen d < 2 ^ 32 ->
  succeeds (write d) s (fun _ s' => outgoing_fd s' (out ++ d) (room - zlen d)).
Proof.
  intros Hs Hd Hmax. pose proof (zlen_nonneg d). unfold write.
  eapply (runs_iterate (fun buf s' => exists sent, d = sent ++ buf /\ outgoing_fd s' (out ++ sent) (room - zlen sent)) zlen).
  - intros buf s1 (sent & -> & Hs1). unfold write_round. zlist. bif; [|wp; assert (buf = []) as -> by (apply zlen_0; lia)].
    + os. apply runs_call. pose proof (write_law _ _ _ _ buf Hs1 ltac:(lia) ltac:(lia)) as Hw.
      destruct (sys_write _ buf s1.2) as [rv os']. destruct Hw as (Hrv & Ha).
      replace (rv <? 0) with false by lia. replace (rv =? 0) with false by lia. os. split; [|zlist].
      exists (sent ++ ztake rv buf). split; [by rewrite <- app_assoc, ztake_zdrop|]. unfold outgoing_fd. cbn.
      rewrite app_assoc. replace (room - zlen (sent ++ ztake rv buf)) with (room - zlen sent - rv) by zlist. done.
    + change (zlen (@nil Z)) with 0. by rewrite !app_nil_r, Z.add_0_r.
  - exists []. rewrite app_nil_r, Z.sub_0_r. done.
  - lia.
Qed.

#[export] Program Instance TFDTransport_reads : ReadLaws St := {
  incoming := incoming_fd;
  lent _ _ _ := False;
  stream_end := no_more
}.
Next Obligation. done. Qed.
Next Obligation. apply reads_prefix_some, read_fd_ok. Qed.
Next Obligation. intros. apply readAll_stream; [apply reads_prefix_some, read_fd_ok|done..]. Qed.
Next Obligation.
  intros. eapply runs_mono; [by apply (readAll_stream_eof _ incoming_fd s n bs read_fd_ok)|done|]. by intros e s' [? _].
Qed.
Next Obligation. done. Qed.
Next Obligation. done. Qed.

#[export] Instance TFDTransport_end : EndLaws St.
Proof. apply reads_prefix_end, read_fd_ok. Qed.
#[export] Program Instance TFDTransport_writes : WriteLaws St := { outgoing := outgoing_fd }.
Next Obligation. intros. by apply write_fd_ok. Qed.
#[export] Instance TFDTransport_flush : FlushLaws St.
Proof. intros s out room Hs. exact Hs. Qed.
#[export] Instance TFDTransport_readEnd : ReadEndLaws St.
Proof. intros s bs Hs. exact Hs. Qed.
#[export] Instance TFDTransport_writeEnd : WriteEndLaws St.
Proof. intros s out room Hs. exact Hs. Qed.
End Stream.
