(* ===== verification/SocketOpen.v ===== *)
(** * Opening a socket: what is left open; and what it does when the system refuses

    Over [DescriptorLaws]: the steps of [openConnection] behind [socket()] change
    neither the table of descriptors nor the one in the object, and fail in one way;
    [local_open] leaves one new descriptor open or none, and no list unfreed.
    Without any laws: asking for the peer's address never fails; [read] ends, whatever
    the system answers; each error becomes the exception it is to. *)

From S2P Require Export Socket.

Definition not_open (e : exn) : Prop := exists message, e = ETransport NOT_OPEN message.

Section Opening.
Context {OS : Type} `{Posix OS} `{CLibrary} `{!DescriptorLaws OS}.
Abbreviation St := (TSocket * OS)%type.

(** The descriptor, the path and the table are as they were. *)
Definition kept (s s' : St) : Prop :=
  socket_ s'.1 = socket_ s.1 /\ path_ s'.1 = path_ s.1 /\ descriptors s'.2 = descriptors s.2 /\ lists s'.2 = lists s.2.

Lemma socket_kept_refl s : kept s s.
Proof. done. Qed.
Lemma socket_kept_trans s1 s2 s3 : kept s1 s2 -> kept s2 s3 -> kept s1 s3.
Proof. intros (? & ? & ? & ?) (? & ? & ? & ?). unfold kept. split_and!; congruence. Qed.

(** A computation that, from [s], ends, throws nothing but that the socket is not open,
    and keeps that; one that does so from anywhere. *)
Definition harmless_from {A} (s : St) (m : M St A) : Prop :=
  runs m s (fun _ s' => kept s s') (fun e s' => not_open e /\ kept s s').
Definition harmless {A} (m : M St A) : Prop := forall s, harmless_from s m.

Lemma from_bind {A B} (m : M St A) (k : A -> M St B) s :
  harmless_from s m -> (forall a s1, kept s s1 -> harmless_from s1 (k a)) -> harmless_from s (bind m k).
Proof.
  intros Hm Hk. apply runs_bind. eapply runs_mono; [apply Hm| |done]. intros a s1 Hs1.
  eapply runs_mono; [by apply Hk| |]; cbv beta.
  - intros b s2 Hs2. exact (socket_kept_trans _ _ _ Hs1 Hs2).
  - intros e s2 [He Hs2]. split; [done|]. exact (socket_kept_trans _ _ _ Hs1 Hs2).
Qed.

Lemma harmless_ret {A} (a : A) : harmless (ret a).
Proof. intros s. by apply runs_ret. Qed.
Lemma harmless_throw {A} message : harmless (@throw St A (ETransport NOT_OPEN message)).
Proof. intros s. apply runs_throw. split; [by eexists|done]. Qed.
Lemma harmless_this {A} (f : TSocket -> A) : harmless (this f).
Proof. intros s. by apply runs_this. Qed.
Lemma harmless_require : harmless (require true).
Proof. intros s. by apply runs_require. Qed.
Lemma harmless_errno : harmless get_errno.
Proof. intros s. by apply runs_get_errno. Qed.
Lemma harmless_call {A} (f : OS -> A * OS) : (forall os, same_table os (f os).2) -> harmless (call f).
Proof. intros Hf s. apply runs_call. specialize (Hf s.2). destruct (f s.2). destruct Hf as [? ?]. by split_and!. Qed.
Lemma harmless_update f : (forall t, socket_ (f t) = socket_ t /\ path_ (f t) = path_ t) -> harmless (update f).
Proof. intros Hf s. apply runs_update. destruct (Hf s.1). by split_and!. Qed.

Lemma harmless_bind {A B} (m : M St A) (k : A -> M St B) : harmless m -> (forall a, harmless (k a)) -> harmless (bind m k).
Proof. intros Hm Hk s. apply from_bind; [apply Hm|]. intros a s1 _. apply Hk. Qed.
End Opening.

Create HintDb harmless.
#[export] Hint Resolve harmless_ret harmless_throw harmless_this harmless_require harmless_errno : harmless.
#[export] Hint Resolve connect_table fcntl_table poll_table getsockopt_table setsockopt_table shutdown_table
  getpeername_table getnameinfo_table : harmless.

(** Take a computation apart, down to what is harmless by itself. *)
Ltac harmless :=
  repeat first
    [ progress (auto with harmless)
    | apply harmless_bind; [|intros]
    | apply harmless_call; intros
    | apply harmless_update; done
    | progress cbv beta
    | match goal with |- harmless (match ?x with _ => _ end) => destruct x end ].

Section Steps.
Context {OS : Type} `{Posix OS} `{CLibrary} `{!DescriptorLaws OS}.
Abbreviation St := (TSocket * OS)%type.

Lemma harmless_setCachedAddress addr len : harmless (setCachedAddress addr len).
Proof. unfold setCachedAddress. harmless. Qed.

Lemma harmless_peer_addr : harmless peer_addr.
Proof. unfold peer_addr, getCachedAddress. pose proof harmless_setCachedAddress. harmless. Qed.

Lemma harmless_perror : harmless perror.
Proof. unfold perror, getSocketInfo, getPeerPort, getPeerAddress. pose proof harmless_peer_addr. harmless. Qed.

Lemma harmless_set_option level name value : harmless (set_option level name value).
Proof. unfold set_option. pose proof harmless_perror. harmless. Qed.

Lemma harmless_fails {A} message e : harmless (@fails OS _ _ A message e).
Proof. unfold fails, transport_error. pose proof harmless_perror. harmless. Qed.

Lemma fails_raises {A} message e s : raises (@fails OS _ _ A message e) s (fun e s' => not_open e /\ kept s s').
Proof.
  apply runs_bind. eapply runs_mono; [apply harmless_perror| |done]. cbv beta. intros [] s' Hk.
  apply runs_throw. split; [by eexists|done].
Qed.

Lemma harmless_options : harmless apply_options.
Proof. unfold apply_options, setSendTimeout, setRecvTimeout, setLinger, setNoDelay. pose proof harmless_set_option. harmless. Qed.

Lemma harmless_connect_mode flags : harmless (connect_mode flags).
Proof. unfold connect_mode. pose proof @harmless_fails. harmless. Qed.

(** Whether there is an address to connect to. *)
Definition addressed (s : St) (res : option addrinfo) : Prop := path_ s.1 <> [] \/ res <> None.

Lemma addressed_kept s s' res : addressed s res -> kept s s' -> addressed s' res.
Proof. intros [Ha|Ha] (_ & Hp & _); [left; congruence|by right]. Qed.

Lemma connect_call_ok res s : addressed s res -> harmless_from s (connect_call res).
Proof.
  intros Ha. unfold connect_call, harmless_from. os. destruct (path_ s.1) as [|x path] eqn:Hp; cbn [empty negb].
  - destruct res as [r|]; [|by destruct Ha]. apply runs_bind, runs_require; [done|].
    apply (harmless_call (sys_connect _ _ _)). auto with harmless.
  - destruct (_ <? _); [apply runs_throw; split; [by eexists|apply socket_kept_refl]|]. apply (harmless_call (sys_connect _ _ _)). auto with harmless.
Qed.

Lemma connect_new_ok res s : addressed s res -> harmless_from s (connect_new res).
Proof.
  intros Ha. unfold connect_new.
  assert (Hstep : forall {A B} (m : M St A) (k : A -> M St B) s, harmless m -> addressed s res ->
    (forall a s1, addressed s1 res -> harmless_from s1 (k a)) -> harmless_from s (bind m k)).
  { intros A B m k s1 Hm Ha1 Hk. apply from_bind; [apply Hm|]. intros a s2 Hs2. apply Hk. by eapply addressed_kept. }
  apply Hstep; [auto with harmless|done|]. intros fd s1 Ha1. apply Hstep; [auto with harmless|done|]. intros path s2 Ha2.
  apply Hstep; [apply harmless_options|done|]. intros [] s3 Ha3.
  apply Hstep; [apply harmless_call; auto with harmless|done|]. intros flags s4 Ha4.
  apply Hstep; [apply harmless_connect_mode|done|]. intros [] s5 Ha5.
  apply from_bind.
  - unfold connect_socket. apply from_bind; [by apply connect_call_ok|]. intros rv s6 _.
    unfold await_connection. revert s6. change (harmless (if rv =? 0 then ret tt else
      let! e := get_errno in
      if (negb (e =? EINPROGRESS) && negb (e =? EWOULDBLOCK))%bool then fails "connect() failed" e else await_connection)).
    pose proof @harmless_fails. pose proof harmless_perror. unfold await_connection. harmless.
  - intros [] s6 _. apply from_bind; [by apply harmless_call; auto with harmless|]. intros _ s7 _.
    destruct (empty path); [apply harmless_setCachedAddress|apply harmless_ret].
Qed.

(** ** [openConnection] *)

(** No descriptor, or a new one, beside those of [s]. *)
Definition closed_beside (s s' : St) : Prop :=
  socket_ s'.1 = INVALID_SOCKET /\ path_ s'.1 = path_ s.1 /\ descriptors s'.2 = descriptors s.2 /\ lists s'.2 = lists s.2.
Definition opened_beside (s s' : St) : Prop :=
  0 <= socket_ s'.1 /\ socket_ s'.1 ∉ descriptors s.2 /\ path_ s'.1 = path_ s.1 /\
  descriptors s'.2 = {[socket_ s'.1]} ∪ descriptors s.2 /\ lists s'.2 = lists s.2.

Lemma opened_kept s s1 s2 : opened_beside s s1 -> kept s1 s2 -> opened_beside s s2.
Proof. intros (? & ? & ? & ? & ?) (Hk & ? & ? & ?). unfold opened_beside. rewrite Hk. split_and!; congruence. Qed.
Lemma closed_kept s s1 s2 : closed_beside s s1 -> kept s1 s2 -> closed_beside s s2.
Proof. intros (? & ? & ? & ?) (? & ? & ? & ?). unfold closed_beside. split_and!; congruence. Qed.

Lemma openConnection_ok res s : socket_ s.1 = INVALID_SOCKET -> addressed s res ->
  runs (openConnection res) s (fun _ s' => opened_beside s s')
    (fun e s' => not_open e /\ (closed_beside s s' \/ opened_beside s s')).
Proof.
  intros Hs Ha. unfold openConnection, isOpen. os. rewrite Hs. change (negb (INVALID_SOCKET =? INVALID_SOCKET)) with false.
  cbv iota. os. apply runs_require; [destruct Ha; [by destruct (path_ s.1)|]; destruct res; [apply orb_true_r|done]|].
  os. apply runs_call. set (f := if negb (empty (path_ s.1)) then _ else _).
  assert (Hf : let '(fd, os') := f s.2 in lists os' = lists s.2 /\
    (fd = -1 /\ descriptors os' = descriptors s.2 \/
     0 <= fd /\ fd ∉ descriptors s.2 /\ descriptors os' = {[fd]} ∪ descriptors s.2)).
  { unfold f. destruct (negb _); apply socket_law. }
  destruct (f s.2) as [fd os']. destruct Hf as [Hl Hfd]. os. unfold INVALID_SOCKET in *. bcase (fd =? -1).
  - os. eapply runs_mono; [apply fails_raises|done|]. cbv beta. intros e s' [He Hk]. split; [done|]. left.
    eapply closed_kept; [|exact Hk]. destruct Hfd as [[-> ?]|[? _]]; [|lia]. by split_and!.
  - destruct Hfd as [[? _]|(Hpos & Hnew & Hdes)]; [done|].
    assert (Hs0 : opened_beside s (set_socket fd s.1, os')) by by split_and!.
    eapply runs_mono; [apply connect_new_ok; exact Ha| |]; cbv beta.
    + intros [] s' Hk. by eapply opened_kept.
    + intros e s' [He Hk]. split; [done|]. right. by eapply opened_kept.
Qed.
(** ** The addresses of a host *)

Lemma close_ok s s' : closed_beside s s' \/ opened_beside s s' -> succeeds close s' (fun _ s'' => closed_beside s s'').
Proof.
  intros Hcase. unfold close, INVALID_SOCKET. os. bcase (socket_ s'.1 =? -1); cbn [negb].
  - os. destruct Hcase as [(? & ? & ? & ?)|(? & _)]; [by split_and!|lia].
  - destruct Hcase as [(? & _)|(? & Hn & Hp & Hd & Hl)]; [done|]. os. apply runs_call. cbn [fst snd].
    pose proof (shutdown_table s'.2 (socket_ s'.1) SHUT_RDWR) as [Hd1 Hl1]. destruct (sys_shutdown _ _ s'.2) as [r1 os1]. cbn in Hd1, Hl1.
    os. apply runs_call. cbn [fst snd]. pose proof (close_law os1 (socket_ s'.1)) as [Hl2 Hd2]. destruct (sys_close _ os1) as [r2 os2]. cbn in Hd2, Hl2.
    os. split_and!; cbn; [done|done| |congruence]. rewrite Hd2, Hd1, Hd. set_solver.
Qed.

Lemma runs_catch {A} (m : M St A) h s (Q : A -> St -> Prop) (E : exn -> St -> Prop) :
  runs m s Q (fun e s' => match e with ETransport t x => runs (h (ETransport t x)) s' Q E | _ => E e s' end) ->
  runs (catch_transport m h) s Q E.
Proof. unfold runs, catch_transport. destruct (m s) as [[a|[]|c|] s']; auto. Qed.

(** All is as in [s] but for the list from [getaddrinfo], which has been freed. *)
Definition failed_beside (s s' : St) : Prop :=
  socket_ s'.1 = INVALID_SOCKET /\ path_ s'.1 = path_ s.1 /\ descriptors s'.2 = descriptors s.2 /\ lists s'.2 = lists s.2 - 1.

Lemma try_addresses_ok res0 res s s1 : res <> [] -> closed_beside s s1 ->
  runs (try_addresses res0 res) s1 (fun _ s' => opened_beside s s') (fun e s' => not_open e /\ failed_beside s s').
Proof.
  intros Hres. revert s1. induction res as [|r next IH]; intros s1 Hs1; [done|]. cbn [try_addresses].
  pose proof Hs1 as (Hinv & Hp1 & Hd1 & Hl1).
  assert (Hbeside : forall s', closed_beside s1 s' -> closed_beside s s').
  { intros s' (? & ? & ? & ?). unfold closed_beside. split_and!; congruence. }
  assert (Hopened : forall s', opened_beside s1 s' -> opened_beside s s').
  { intros s' (? & Hn & ? & Hd & ?). unfold opened_beside. rewrite Hd1 in Hn, Hd. split_and!; congruence. }
  pose proof (openConnection_ok (Some r) s1 Hinv ltac:(by right)) as Hopen.
  apply runs_bind, runs_catch, runs_bind. eapply runs_mono; [exact Hopen| |]; cbv beta.
  - intros [] s2 Hs2. apply runs_ret, runs_ret. by apply Hopened.
  - intros e s2 [[message ->] Hcase]. apply runs_bind. eapply runs_mono; [by apply close_ok| |done].
    cbv beta. intros [] s3 Hs3%Hbeside. destruct next as [|r' next].
    + apply runs_bind, runs_call. pose proof (freeaddrinfo_law s3.2 res0) as [Hd Hl]. destruct (sys_freeaddrinfo res0 s3.2) as [u os4].
      apply runs_throw. split; [by eexists|]. destruct Hs3 as (? & ? & ? & ?). cbn in Hd, Hl. unfold failed_beside. cbn. split_and!; congruence.
    + apply runs_ret. by apply IH.
Qed.

Lemma local_open_ok s : socket_ s.1 = INVALID_SOCKET ->
  runs local_open s (fun _ s' => opened_beside s s') (fun e s' => not_open e /\ closed_beside s s').
Proof.
  intros Hs. unfold local_open, isOpen. os. rewrite Hs. change (negb (INVALID_SOCKET =? INVALID_SOCKET)) with false. cbv iota.
  os. destruct (_ || _)%bool; [os; split; [by eexists|by split_and!]|]. os. apply runs_call. cbn [fst snd].
  cbn [fst snd]. pose proof (getaddrinfo_law s.2 (c_str (host_ s.1)) (decimal (port_ s.1)) AF_UNSPEC SOCK_STREAM (Z.lor AI_PASSIVE AI_ADDRCONFIG)) as Hai.
  destruct (sys_getaddrinfo _ _ _ _ _ s.2) as [[error res0] os1]. destruct Hai as (Hd & Hcase). os. bcase (error =? 0); cbn [negb].
  - destruct Hcase as [(_ & Hne & Hl)|[? _]]; [|done]. os.
    eapply runs_mono; [apply (try_addresses_ok res0 res0 (s.1, os1)); [done|by split_and!]| |]; cbv beta.
    + intros [] s2 (Hfd & Hn & Hp & Hd2 & Hl2). apply runs_call. pose proof (freeaddrinfo_law s2.2 res0) as [Hd3 Hl3].
      destruct (sys_freeaddrinfo res0 s2.2) as [u os3]. cbn in *. rewrite Hd in Hn, Hd2. unfold opened_beside. cbn. split_and!; [done|done|done|congruence|lia].
    + intros e s2 (He & Hi & Hp & Hd2 & Hl2). split; [done|]. cbn in *. unfold closed_beside. split_and!; [done|done|congruence|lia].
  - destruct Hcase as [[? _]|[_ Hl]]; [done|]. os.
    assert (Hs1 : closed_beside s (s.1, os1)) by by split_and!.
    eapply runs_mono; [apply harmless_perror| |]; cbv beta.
    + intros [] s2 Hk. os. eapply runs_mono; [apply (close_ok s s2); left; by eapply closed_kept| |done].
      cbv beta. intros [] s3 Hs3. os. split; [by eexists|done].
    + intros e s2 [He Hk]. split; [done|]. by eapply closed_kept.
Qed.

(** An open socket is left as it is. *)
Lemma open_again s : socket_ s.1 <> INVALID_SOCKET -> succeeds open s (fun _ s' => s' = s).
Proof. intros Hs. unfold open, isOpen. os. replace (socket_ s.1 =? INVALID_SOCKET) with false by lia. cbn [negb]. by os. Qed.

Lemma open_path_ok s : socket_ s.1 = INVALID_SOCKET -> path_ s.1 <> [] ->
  runs open s (fun _ s' => opened_beside s s') (fun e s' => not_open e /\ (closed_beside s s' \/ opened_beside s s')).
Proof.
  intros Hs Hp. unfold open, unix_open. os. unfold isOpen. os. rewrite Hs. change (negb (INVALID_SOCKET =? INVALID_SOCKET)) with false. cbv iota.
  os. assert (He : empty (path_ s.1) = false) by by destruct (path_ s.1). rewrite He. cbn [negb]. os. rewrite He. cbn [negb].
  apply openConnection_ok; [done|by left].
Qed.

Lemma open_host_ok s : socket_ s.1 = INVALID_SOCKET -> path_ s.1 = [] ->
  runs open s (fun _ s' => opened_beside s s') (fun e s' => not_open e /\ closed_beside s s').
Proof.
  intros Hs Hp. unfold open, isOpen. os. rewrite Hs. change (negb (INVALID_SOCKET =? INVALID_SOCKET)) with false. cbv iota.
  os. rewrite Hp. cbn [empty negb]. by apply local_open_ok.
Qed.
End Steps.

Section Errors.
Context {OS : Type} `{Posix OS} `{CLibrary}.
Abbreviation St := (TSocket * OS)%type.

(** All that reading and writing look at is as it was. *)
Definition same_settings (t t' : TSocket) : Prop :=
  socket_ t' = socket_ t /\ path_ t' = path_ t /\ recvTimeout_ t' = recvTimeout_ t /\ maxRecvRetries_ t' = maxRecvRetries_ t.

(** A computation that returns and keeps the settings. *)
Definition gentle {A} (m : M St A) : Prop := forall s, succeeds m s (fun _ s' => same_settings s.1 s'.1).

Lemma gentle_ret {A} (a : A) : gentle (ret a).
Proof. intros s. by apply runs_ret. Qed.
Lemma gentle_this {A} (f : TSocket -> A) : gentle (this f).
Proof. intros s. by apply runs_this. Qed.
Lemma gentle_errno : gentle get_errno.
Proof. intros s. by apply runs_get_errno. Qed.
Lemma gentle_call {A} (f : OS -> A * OS) : gentle (call f).
Proof. intros s. apply runs_call. by destruct (f s.2). Qed.
Lemma gentle_update f : (forall t, same_settings t (f t)) -> gentle (update f).
Proof. intros Hf s. by apply runs_update. Qed.
Lemma gentle_bind {A B} (m : M St A) (k : A -> M St B) : gentle m -> (forall a, gentle (k a)) -> gentle (bind m k).
Proof.
  intros Hm Hk s. apply runs_bind. eapply runs_mono; [apply Hm| |done]. cbv beta. intros a s1 (? & ? & ? & ?).
  eapply runs_mono; [apply Hk| |done]. cbv beta. intros b s2 (? & ? & ? & ?). unfold same_settings. split_and!; congruence.
Qed.
End Errors.

Create HintDb gentle.
#[export] Hint Resolve gentle_ret gentle_this gentle_errno gentle_call : gentle.

Ltac gentle :=
  repeat first
    [ progress (auto with gentle)
    | apply gentle_bind; [|intros]
    | apply gentle_update; done
    | match goal with |- gentle (match ?x with _ => _ end) => destruct x end ].

Section Ends.
Context {OS : Type} `{Posix OS} `{CLibrary}.
Abbreviation St := (TSocket * OS)%type.

Lemma gentle_setCachedAddress addr len : gentle (OS := OS) (setCachedAddress addr len).
Proof. unfold setCachedAddress. gentle. Qed.
Lemma gentle_peer_addr : gentle peer_addr.
Proof. unfold peer_addr, getCachedAddress. pose proof gentle_setCachedAddress. gentle. Qed.
Lemma gentle_perror : gentle perror.
Proof. unfold perror, getSocketInfo, getPeerPort, getPeerAddress. pose proof gentle_peer_addr. gentle. Qed.
Lemma gentle_begin_time : gentle begin_time.
Proof. unfold begin_time. gentle. Qed.

Definition transport_exception (e : exn) : Prop := exists type message, e = ETransport type message.

(** A message and then the exception. *)
Lemma perror_throw {A} e (s : St) (Q : A -> St -> Prop) :
  runs (do! perror in throw e) s Q (fun e' s' => e' = e /\ same_settings s.1 s'.1).
Proof. apply runs_bind. eapply runs_mono; [apply gentle_perror| |done]. cbv beta. intros [] s' Hs. by apply runs_throw. Qed.

Lemma recv_error_transport e : transport_exception (recv_error e).
Proof. unfold recv_error, transport_error. repeat (destruct (_ =? _); [by do 2 eexists|]). by do 2 eexists. Qed.

Lemma read_round_ends len threshold retries (s : St) :
  runs (read_round len threshold retries) s
    (fun r s' => same_settings s.1 s'.1 /\
       match r with inl retries' => retries' = retries + 1 /\ retries < maxRecvRetries_ s.1 | inr _ => True end)
    (fun e s' => transport_exception e /\ same_settings s.1 s'.1).
Proof.
  unfold read_round. os. eapply runs_mono; [apply gentle_begin_time| |done].
  cbv beta. intros b s1 Hs1. os. apply runs_call. destruct (sys_recv _ len 0 s1.2) as [[rv buf] os']. os.
  destruct (s32 rv <? 0); [|by os]. destruct (errno os' =? EAGAIN).
  - unfold after_eagain. os. pose proof Hs1 as (_ & _ & -> & ->). destruct (recvTimeout_ s.1 =? 0); [os; split; [by do 2 eexists|done]|].
    os. apply runs_call. cbn [snd]. destruct (sys_gettimeofday os') as [end_ os2]. os. destruct (_ || _)%bool; [|os; split; [by do 2 eexists|done]].
    bcase (retries <? maxRecvRetries_ s.1); [|os; split; [by do 2 eexists|done]].
    os. apply runs_call. cbn [snd]. destruct (sys_usleep 50 os2) as [u os3]. by os.
  - bcase ((errno os' =? EINTR) && (retries <? maxRecvRetries_ s.1))%bool; [by os|].
    eapply runs_mono; [apply (perror_throw _ (s1.1, os') (fun _ _ => False))|done|]. cbv beta. intros e s2 [-> (? & ? & ? & ?)].
    split; [apply recv_error_transport|]. destruct Hs1 as (? & ? & ? & ?). cbn in *. unfold same_settings. split_and!; congruence.
Qed.

Lemma read_ends len (s : St) : recvTimeout_ s.1 * 1000 < 2 ^ 31 ->
  runs (read len) s (fun _ s' => same_settings s.1 s'.1) (fun e s' => transport_exception e /\ same_settings s.1 s'.1).
Proof.
  intros Ht. unfold read. os. destruct (socket_ s.1 =? INVALID_SOCKET); [os; split; [by do 2 eexists|done]|].
  os. apply runs_require; [lia|].
  eapply (runs_iterate (fun retries s' => same_settings s.1 s'.1 /\ 0 <= retries <= Z.max 0 (maxRecvRetries_ s.1))
    (fun retries => Z.max 0 (maxRecvRetries_ s.1) - retries)); [|split; [done|lia]|lia].
  intros retries s1 [Hs1 Hr]. pose proof Hs1 as (Hs11 & Hs12 & Hs13 & Hmax).
  eapply runs_mono; [apply read_round_ends| |]; cbv beta.
  - intros [retries'|got] s2 [Hs2 Hcase].
    + destruct Hcase as [-> Hlt]. rewrite Hmax in Hlt. split; [|lia]. split; [|lia].
      destruct Hs2 as (? & ? & ? & ?). unfold same_settings. split_and!; congruence.
    + destruct Hs2 as (? & ? & ? & ?). unfold same_settings. split_and!; congruence.
  - intros e s2 [He (? & ? & ? & ?)]. split; [done|]. unfold same_settings. split_and!; congruence.
Qed.
End Ends.

(** ** Each error *)

Section Failures.
Context {OS : Type} `{Posix OS} `{CLibrary}.
Abbreviation St := (TSocket * OS)%type.

(** A loop whose first round throws. *)
Lemma iterate_raises {S A B} (body : A -> M S (A + B)) fuel a s (E : exn -> S -> Prop) :
  0 < fuel -> raises (body a) s E -> raises (iterate fuel body a) s E.
Proof.
  intros Hf Hb. unfold raises, runs in *. destruct fuel as [|p|p]; [lia| |lia]. cbn [iterate]. unfold bind at 1.
  rewrite rounds_turns. destruct (Pos2Nat.is_succ p) as [n ->]. cbn [turns]. unfold bind.
  by destruct (body a s) as [[]].
Qed.

Lemma closed_refuses (s : St) len d : socket_ s.1 = INVALID_SOCKET -> d <> [] ->
  raises (read len) s (fun e _ => e = ETransport NOT_OPEN "Called read on non-open socket") /\
  raises (write d) s (fun e _ => e = ETransport NOT_OPEN "Called write on non-open socket") /\
  succeeds peek s (fun r s' => r = false /\ s' = s).
Proof.
  intros Hs Hd. assert (0 < zlen d) by (destruct d; [done|zlist]). split_and!.
  - unfold read. os. rewrite Hs. change (INVALID_SOCKET =? INVALID_SOCKET) with true. by os.
  - unfold write. apply (iterate_raises (S := St)); [lia|]. unfold write_round, write_partial.
    replace (0 <? zlen d) with true by lia. os. rewrite Hs. change (INVALID_SOCKET =? INVALID_SOCKET) with true. by os.
  - unfold peek, isOpen. os. rewrite Hs. change (negb (INVALID_SOCKET =? INVALID_SOCKET)) with false. by os.
Qed.

Lemma recv_refused (s : St) len buf os : socket_ s.1 <> INVALID_SOCKET -> recvTimeout_ s.1 = 0 ->
  sys_recv (socket_ s.1) len 0 s.2 = ((-1, buf), os) -> errno os <> EINTR ->
  raises (read len) s (fun e _ => e = if errno os =? EAGAIN then eagain_unavailable else recv_error (errno os)).
Proof.
  intros Hs Ht Hrecv Hi. unfold read. os. replace (socket_ s.1 =? INVALID_SOCKET) with false by lia. os.
  apply runs_require; [lia|]. apply (iterate_raises (S := St)); [lia|]. unfold read_round, begin_time. os. rewrite Ht.
  change (0 <? 0) with false. cbv iota. os. apply runs_call. rewrite Hrecv. os. change (s32 (-1) <? 0) with true. cbv iota.
  destruct (errno os =? EAGAIN).
  - unfold after_eagain. os. rewrite Ht. change (0 =? 0) with true. by os.
  - replace (errno os =? EINTR) with false by lia. cbn [andb].
    eapply runs_mono; [apply (perror_throw _ _ (fun _ _ => False))|done|]. by intros e s' [-> _].
Qed.

Lemma send_refused (s : St) d os : socket_ s.1 <> INVALID_SOCKET -> d <> [] ->
  sys_send (socket_ s.1) d MSG_NOSIGNAL s.2 = (-1, os) ->
  raises (write d) s (fun e s' =>
    if errno os =? EAGAIN then e = ETransport TTransportException.TIMED_OUT "send timeout expired"
    else if ((errno os =? EPIPE) || (errno os =? ECONNRESET) || (errno os =? ENOTCONN))%bool
    then e = transport_error NOT_OPEN "write() send()" (errno os) /\ socket_ s'.1 = INVALID_SOCKET
    else e = transport_error TTransportException.UNKNOWN "write() send()" (errno os) /\ socket_ s'.1 = socket_ s.1).
Proof.
  intros Hs Hd Hsend. assert (0 < zlen d) by (destruct d; [done|zlist]). unfold write. apply (iterate_raises (S := St)); [lia|].
  unfold write_round. replace (0 <? zlen d) with true by lia. rewrite zdrop_0 by lia. unfold write_partial. os.
  replace (socket_ s.1 =? INVALID_SOCKET) with false by lia. os. apply runs_call. rewrite Hsend. change (s32 (-1) <? 0) with true. cbv iota.
  os. change EWOULDBLOCK with EAGAIN. rewrite orb_diag. destruct (errno os =? EAGAIN).
  - os. change (0 =? 0) with true. by os.
  - os. eapply runs_mono; [apply gentle_perror| |done]. cbv beta. intros [] s1 (Hs1 & _). destruct (_ || _)%bool.
    + unfold close. os. destruct (negb _).
      * os. apply runs_call. destruct (sys_shutdown _ _ s1.2) as [r1 os1]. os. apply runs_call. cbn [snd].
        destruct (sys_close _ os1) as [r2 os2]. by os.
      * by os.
    + by os.
Qed.
End Failures.
