(* ===== verification/BufferBase.v ===== *)
(** * [TBufferBase]: the fast paths of transport/TBufferTransports.h

    A buffering transport keeps four pointers, [rBase_], [rBound_], [wBase_] and
    [wBound_], here offsets into the buffer they point into ([rmem] for the
    first two, [wmem] for the others).  The class [TBufferBase] is what a
    subclass provides: the pointers, the memory and the virtual slow paths; the
    definitions are the inline fast paths every subclass inherits. *)

From S2P Require Export Transport Memory.

Record pointers := Pointers { rBase_ : Z; rBound_ : Z; wBase_ : Z; wBound_ : Z }.

Definition set_rBase (v : Z) (p : pointers) := Pointers v (rBound_ p) (wBase_ p) (wBound_ p).
Definition set_rBound (v : Z) (p : pointers) := Pointers (rBase_ p) v (wBase_ p) (wBound_ p).
Definition set_wBase (v : Z) (p : pointers) := Pointers (rBase_ p) (rBound_ p) v (wBound_ p).
Definition set_wBound (v : Z) (p : pointers) := Pointers (rBase_ p) (rBound_ p) (wBase_ p) v.

(** [setReadBuffer(buf, len)] and [setWriteBuffer(buf, len)], [buf] at offset [o]. *)
Definition setReadBuffer (o len : Z) (p : pointers) : pointers :=
  Pointers o (o + len) (wBase_ p) (wBound_ p).
Definition setWriteBuffer (o len : Z) (p : pointers) : pointers :=
  Pointers (rBase_ p) (rBound_ p) o (o + len).

Class TBufferBase (T : Type) := {
  ptrs : T -> pointers;
  set_ptrs : pointers -> T -> T;
  rmem : T -> list Z;
  wmem : T -> list Z;
  set_wmem : list Z -> T -> T;
  readSlow_ : Z -> M T (list Z);
  writeSlow_ : list Z -> M T unit;
  borrowSlow_ : Z -> M T (option (list Z))
}.

(** ** Fresh objects *)

(** Run a constructor's body on the object under construction. *)
Definition on_new {S} (m : M S unit) (s : S) : M unit S :=
  fun u => match m s with
           | (Ok _, s') => (Ok s', u)
           | (Throw e, _) => (Throw e, u)
           | (Crash c, _) => (Crash c, u)
           | (OutOfFuel, _) => (OutOfFuel, u)
           end.

Lemma runs_on_new {S} (m : M S unit) (s : S) u (Q : S -> unit -> Prop) E :
  runs m s (fun _ s' => Q s' u) (fun e _ => E e u) -> runs (on_new m s) u Q E.
Proof. unfold runs, on_new. by destruct (m s) as [[] ?]. Qed.

(** ** The inline operations *)

Section FastPaths.
Context {T : Type} `{TBufferBase T}.

Definition modify_ptrs (f : pointers -> pointers) : M T unit :=
  modify (fun s => set_ptrs (f (ptrs s)) s).

Definition read (len : Z) : M T (list Z) :=
  let! p := gets ptrs in
  let! mem := gets rmem in
  let new_rBase := rBase_ p + len in
  if new_rBase <=? rBound_ p then
    let! d := load_mem mem (rBase_ p) len in
    do! modify_ptrs (set_rBase new_rBase) in
    ret d
  else readSlow_ len.

Definition readAll (len : Z) : M T (list Z) :=
  let! p := gets ptrs in
  let! mem := gets rmem in
  let new_rBase := rBase_ p + len in
  if new_rBase <=? rBound_ p then
    let! d := load_mem mem (rBase_ p) len in
    do! modify_ptrs (set_rBase new_rBase) in
    ret d
  else Transport.readAll read len.

Definition write (d : list Z) : M T unit :=
  let! p := gets ptrs in
  let! mem := gets wmem in
  let new_wBase := wBase_ p + zlen d in
  if new_wBase <=? wBound_ p then
    let! mem' := store_mem mem (wBase_ p) d in
    do! modify (set_wmem mem') in
    modify_ptrs (set_wBase new_wBase)
  else writeSlow_ d.

Definition borrow (len : Z) : M T (option (list Z)) :=
  let! p := gets ptrs in
  let! mem := gets rmem in
  if len <=? rBound_ p - rBase_ p then
    let! d := load_mem mem (rBase_ p) (rBound_ p - rBase_ p) in
    ret (Some d)
  else borrowSlow_ len.

Definition consume (len : Z) : M T unit :=
  let! p := gets ptrs in
  if len <=? rBound_ p - rBase_ p then
    modify_ptrs (set_rBase (rBase_ p + len))
  else throw (ETransport BAD_ARGS "consume did not follow a borrow.").
End FastPaths.

(** ** Rules *)

(** [readAll] is [read] on the fast path and the template otherwise. *)
Lemma readAll_cases {T} `{TBufferBase T} (s : T) n :
  readAll n s =
  if rBase_ (ptrs s) + n <=? rBound_ (ptrs s) then read n s else Transport.readAll read n s.
Proof. unfold readAll, read, bind, gets. by destruct (_ <=? _). Qed.

Lemma runs_readAll {T} `{TBufferBase T} (s : T) n Q E :
  (rBase_ (ptrs s) + n <= rBound_ (ptrs s) -> runs (read n) s Q E) ->
  (rBound_ (ptrs s) < rBase_ (ptrs s) + n -> runs (Transport.readAll read n) s Q E) ->
  runs (readAll n) s Q E.
Proof.
  unfold runs at 3. rewrite readAll_cases. intros Hf Hs. destruct (_ <=? _) eqn:Hb; breflect.
  - by apply Hf.
  - by apply Hs.
Qed.

Lemma runs_read_fast {T} `{TBufferBase T} (s : T) n Q E :
  0 <= n -> 0 <= rBase_ (ptrs s) -> rBase_ (ptrs s) + n <= rBound_ (ptrs s) ->
  rBound_ (ptrs s) <= zlen (rmem s) ->
  Q (zslice (rBase_ (ptrs s)) (rBase_ (ptrs s) + n) (rmem s))
    (set_ptrs (set_rBase (rBase_ (ptrs s) + n) (ptrs s)) s) ->
  runs (read n) s Q E.
Proof.
  intros. unfold read, modify_ptrs. wp. replace (_ <=? _) with true by lia.
  wp. apply runs_load_mem; [lia|lia|lia|]. by wp.
Qed.

Lemma runs_borrow_fast {T} `{TBufferBase T} (s : T) n Q E :
  0 <= rBase_ (ptrs s) <= rBound_ (ptrs s) -> n <= rBound_ (ptrs s) - rBase_ (ptrs s) ->
  rBound_ (ptrs s) <= zlen (rmem s) ->
  Q (Some (zslice (rBase_ (ptrs s)) (rBound_ (ptrs s)) (rmem s))) s ->
  runs (borrow n) s Q E.
Proof.
  intros. unfold borrow. wp. replace (_ <=? _) with true by lia.
  wp. apply runs_load_mem; [lia|lia|lia|]. wp.
  replace (_ + _) with (rBound_ (ptrs s)) by lia. done.
Qed.

Lemma runs_consume {T} `{TBufferBase T} (s : T) n Q E :
  n <= rBound_ (ptrs s) - rBase_ (ptrs s) ->
  Q tt (set_ptrs (set_rBase (rBase_ (ptrs s) + n) (ptrs s)) s) ->
  runs (consume n) s Q E.
Proof.
  intros. unfold consume, modify_ptrs. wp. replace (_ <=? _) with true by lia. by wp.
Qed.

Lemma runs_write_fast {T} `{TBufferBase T} (s : T) d Q E :
  0 <= wBase_ (ptrs s) -> wBase_ (ptrs s) + zlen d <= wBound_ (ptrs s) ->
  wBound_ (ptrs s) <= zlen (wmem s) ->
  (let s1 := set_wmem (zsplice (wBase_ (ptrs s)) d (wmem s)) s in
   Q tt (set_ptrs (set_wBase (wBase_ (ptrs s) + zlen d) (ptrs s1)) s1)) ->
  runs (write d) s Q E.
Proof.
  intros. unfold write, modify_ptrs. wp. replace (_ <=? _) with true by lia.
  wp. apply runs_store_mem; [lia|lia|]. by wp.
Qed.
