(* ===== verification/MemoryBuffer.v ===== *)
(** * [TMemoryBuffer]: transport/TBufferTransports.h and .cpp

    The in-memory transport: a heap block with the four pointers of
    [TBufferBase].  [buffer_] is [None] for a null pointer.  A buffer given with
    the OBSERVE policy is taken as it is at the call: the model does not follow
    later writes of its owner. *)

From S2P Require Export BufferBase.

Record TMemoryBuffer := MemBuf {
  buffer_ : option (list Z);
  bufferSize_ : Z;
  owner_ : bool;
  mb_ptrs : pointers
}.

(** The block [buffer_] points to. *)
Definition block (s : TMemoryBuffer) : list Z := default [] (buffer_ s).

Definition set_mb_ptrs (p : pointers) (s : TMemoryBuffer) : TMemoryBuffer :=
  MemBuf (buffer_ s) (bufferSize_ s) (owner_ s) p.
Definition set_block (b : list Z) (s : TMemoryBuffer) : TMemoryBuffer :=
  MemBuf (match buffer_ s with None => None | Some _ => Some b end)
         (bufferSize_ s) (owner_ s) (mb_ptrs s).

(** [enum MemoryPolicy]; any other value reaches the [default] of the switch. *)
Definition OBSERVE : Z := 1.
Definition COPY : Z := 2.
Definition TAKE_OWNERSHIP : Z := 3.

Definition defaultSize : Z := 1024.

Section Operations.
Context `{Platform}.

Definition initCommon (buf : option (list Z)) (size : Z) (owner : bool) (wPos : Z)
    : M unit TMemoryBuffer :=
  let! buf := match buf with
              | None => if negb (size =? 0)
                        then do! assert_ owner in
                             let! b := new_bytes size in ret (Some b)
                        else ret None
              | Some b => ret (Some b)
              end in
  ret (MemBuf buf size owner (Pointers 0 wPos wPos size)).

Definition available_read (s : TMemoryBuffer) : Z :=
  u32 (wBase_ (mb_ptrs s) - rBase_ (mb_ptrs s)).
Definition available_write (s : TMemoryBuffer) : Z :=
  u32 (wBound_ (mb_ptrs s) - wBase_ (mb_ptrs s)).

Definition modify_mb (f : pointers -> pointers) : M TMemoryBuffer unit :=
  modify (fun s => set_mb_ptrs (f (mb_ptrs s)) s).

(** Answers [out_start] as the bytes there and [out_give] as their number. *)
Definition computeRead (len : Z) : M TMemoryBuffer (list Z) :=
  do! modify_mb (fun p => set_rBound (wBase_ p) p) in
  let! give := gets (fun s => Z.min len (available_read s)) in
  let! start := gets (fun s => rBase_ (mb_ptrs s)) in
  let! mem := gets block in
  do! modify_mb (fun p => set_rBase (rBase_ p + give) p) in
  load_mem mem start give.

Definition readSlow (len : Z) : M TMemoryBuffer (list Z) := computeRead len.

(** Returns the bytes appended to [str]; their number is the C++ result. *)
Definition readAppendToString (str : list Z) (len : Z) : M TMemoryBuffer (Z * list Z) :=
  let! b := gets buffer_ in
  match b with
  | None => ret (0, str)
  | Some _ => let! d := computeRead len in ret (zlen d, str ++ d)
  end.

(** One round of the growth loop of [ensureCanWrite]: [aw] is the value of
    [available_write()], [a] the pair ([new_size], [avail]). *)
Definition grow_body (len aw bufferSize : Z) (a : Z * Z) : M TMemoryBuffer (Z * Z + Z) :=
  let '(new_size, avail) := a in
  if avail <? len then
    let new_size := if 0 <? new_size then u32 (new_size * 2) else 1 in
    ret (inl (new_size, u32 (aw + u32 (new_size - bufferSize))))
  else ret (inr new_size).

Definition grow (len aw bufferSize : Z) : M TMemoryBuffer Z :=
  iterate 100 (grow_body len aw bufferSize) (bufferSize, aw).

Definition ensureCanWrite (len : Z) : M TMemoryBuffer unit :=
  let! avail := gets available_write in
  if len <=? avail then ret tt else
  let! owner := gets owner_ in
  if negb owner then
    throw (ETransport TTransportException.UNKNOWN
             "Insufficient space in external MemoryBuffer")
  else
  let! bufferSize := gets bufferSize_ in
  let! new_size := grow len avail bufferSize in
  let! old := gets block in
  let! new_buffer := realloc old new_size in
  modify (fun s => MemBuf (Some new_buffer) new_size (owner_ s)
                     (set_wBound new_size (mb_ptrs s))).

Definition writeSlow (d : list Z) : M TMemoryBuffer unit :=
  do! ensureCanWrite (zlen d) in
  let! p := gets mb_ptrs in
  let! mem := gets block in
  let! mem' := store_mem mem (wBase_ p) d in
  do! modify (set_block mem') in
  modify_mb (fun p => set_wBase (wBase_ p + zlen d) p).

Definition wroteBytes (len : Z) : M TMemoryBuffer unit :=
  let! avail := gets available_write in
  if avail <? len then
    throw (ETransport TTransportException.UNKNOWN
             "Client wrote more bytes than size of buffer.")
  else modify_mb (fun p => set_wBase (wBase_ p + len) p).

Definition borrowSlow (len : Z) : M TMemoryBuffer (option (list Z)) :=
  do! modify_mb (fun p => set_rBound (wBase_ p) p) in
  let! avail := gets available_read in
  if len <=? avail then
    let! p := gets mb_ptrs in
    let! mem := gets block in
    let! d := load_mem mem (rBase_ p) avail in
    ret (Some d)
  else ret None.

#[export] Instance TMemoryBuffer_base : TBufferBase TMemoryBuffer := {
  ptrs := mb_ptrs;
  set_ptrs := set_mb_ptrs;
  rmem := block;
  wmem := block;
  set_wmem := set_block;
  readSlow_ := readSlow;
  writeSlow_ := writeSlow;
  borrowSlow_ := borrowSlow
}.

(** ** The constructors *)

Definition new_default : M unit TMemoryBuffer := initCommon None defaultSize true 0.
Definition new_size (sz : Z) : M unit TMemoryBuffer := initCommon None sz true 0.

Definition new_from (buf : option (list Z)) (sz policy : Z) : M unit TMemoryBuffer :=
  if (match buf with None => true | Some _ => false end && negb (sz =? 0))%bool then
    throw (ETransport BAD_ARGS "TMemoryBuffer given null buffer with non-zero size.")
  else if ((policy =? OBSERVE) || (policy =? TAKE_OWNERSHIP))%bool then
    initCommon buf sz (policy =? TAKE_OWNERSHIP) sz
  else if policy =? COPY then
    let! s := initCommon None sz true 0 in
    let! d := load_mem (default [] buf) 0 sz in
    on_new (write d) s
  else throw (ETransport BAD_ARGS "Invalid MemoryPolicy for TMemoryBuffer").

(** ** The other members *)

Definition isOpen : M TMemoryBuffer bool := ret true.
Definition peek : M TMemoryBuffer bool :=
  gets (fun s => rBase_ (mb_ptrs s) <? wBase_ (mb_ptrs s)).
Definition open_ : M TMemoryBuffer unit := ret tt.
Definition close : M TMemoryBuffer unit := ret tt.

(** The bytes [getBuffer] points at, [*sz] of them. *)
Definition getBuffer : M TMemoryBuffer (list Z) :=
  let! p := gets mb_ptrs in
  let! mem := gets block in
  load_mem mem (rBase_ p) (u32 (wBase_ p - rBase_ p)).

Definition getBufferAsString : M TMemoryBuffer (list Z) :=
  let! b := gets buffer_ in
  match b with None => ret [] | Some _ => getBuffer end.

Definition appendBufferToString (str : list Z) : M TMemoryBuffer (list Z) :=
  let! b := gets buffer_ in
  match b with None => ret str | Some _ => let! d := getBuffer in ret (str ++ d) end.

Definition resetBuffer : M TMemoryBuffer unit :=
  modify (fun s =>
    let p := mb_ptrs s in
    if owner_ s then MemBuf (buffer_ s) (bufferSize_ s) true (Pointers 0 0 0 (wBound_ p))
    else MemBuf (buffer_ s) 0 false (Pointers 0 0 0 0)).

(** [TMemoryBuffer new_buffer(...); this->swap(new_buffer);] *)
Definition swap_new (new : M unit TMemoryBuffer) : M TMemoryBuffer unit :=
  let! s := lift (fun _ => tt) (fun _ s => s) new in
  modify (fun _ => s).

Definition resetBuffer_from (buf : option (list Z)) (sz policy : Z) : M TMemoryBuffer unit :=
  swap_new (new_from buf sz policy).
Definition resetBuffer_size (sz : Z) : M TMemoryBuffer unit := swap_new (new_size sz).

Definition readAsString (len : Z) : M TMemoryBuffer (list Z) :=
  let! '(_, str) := readAppendToString [] len in ret str.

Definition readEnd : M TMemoryBuffer Z :=
  let! bytes := gets (fun s => u32 (rBase_ (mb_ptrs s))) in
  let! p := gets mb_ptrs in
  do! (if rBase_ p =? wBase_ p then resetBuffer else ret tt) in
  ret bytes.

Definition writeEnd : M TMemoryBuffer Z := gets (fun s => u32 (wBase_ (mb_ptrs s))).

(** The offset returned is where the client may store its bytes. *)
Definition getWritePtr (len : Z) : M TMemoryBuffer Z :=
  do! ensureCanWrite len in gets (fun s => wBase_ (mb_ptrs s)).

#[export] Instance TMemoryBuffer_transport : TTransport TMemoryBuffer := {
  t_isOpen := isOpen;
  t_peek := peek;
  t_open := open_;
  t_close := close;
  t_read := read;
  t_readAll := BufferBase.readAll;
  t_readEnd := readEnd;
  t_write := write;
  t_writeEnd := writeEnd;
  t_flush := BaseTransport.flush;
  t_borrow := borrow;
  t_consume := consume
}.
End Operations.

(** ** The representation invariant and the abstract queue *)

(** The pointers are ordered within the block; an owner's block is what
    [wBound_] and [bufferSize_] say, and nobody else's block can be written. *)
Definition mb_inv (s : TMemoryBuffer) : Prop :=
  let p := mb_ptrs s in
  0 <= rBase_ p <= rBound_ p /\ rBound_ p <= wBase_ p /\ wBase_ p <= wBound_ p /\
  wBound_ p <= zlen (block s) /\ zlen (block s) < 2 ^ 32 /\
  (owner_ s = true -> wBound_ p = bufferSize_ s /\ zlen (block s) = bufferSize_ s) /\
  (owner_ s = false -> wBase_ p = wBound_ p) /\
  (buffer_ s = None -> wBound_ p = 0).

(** What has been written and not yet read. *)
Definition content (s : TMemoryBuffer) : list Z :=
  zslice (rBase_ (mb_ptrs s)) (wBase_ (mb_ptrs s)) (block s).

Arguments block : simpl never.
Arguments content : simpl never.

Lemma zlen_content s :
  mb_inv s -> zlen (content s) = wBase_ (mb_ptrs s) - rBase_ (mb_ptrs s).
Proof. intros (? & ? & ? & ? & _). unfold content. rewrite zlen_zslice; lia. Qed.

Section Invariant.
Context `{Platform}.
Implicit Types s : TMemoryBuffer.

Lemma available_read_content s : mb_inv s -> available_read s = zlen (content s).
Proof.
  intros Hi. rewrite zlen_content by done. destruct Hi as (? & ? & ? & ? & ? & _).
  apply wrapu_small. unfold in_u. lia.
Qed.

Lemma available_write_space s :
  mb_inv s -> available_write s = wBound_ (mb_ptrs s) - wBase_ (mb_ptrs s).
Proof.
  intros (? & ? & ? & ? & ? & _). apply wrapu_small. unfold in_u. lia.
Qed.

(** Moving the read pointer forward, the bound being at least there. *)
Lemma mb_inv_advance s r b :
  mb_inv s -> rBase_ (mb_ptrs s) <= r <= b -> b <= wBase_ (mb_ptrs s) ->
  mb_inv (set_mb_ptrs (Pointers r b (wBase_ (mb_ptrs s)) (wBound_ (mb_ptrs s))) s).
Proof. unfold mb_inv. cbn. intuition lia. Qed.

Lemma content_advance s r b :
  mb_inv s -> rBase_ (mb_ptrs s) <= r <= b -> b <= wBase_ (mb_ptrs s) ->
  content (set_mb_ptrs (Pointers r b (wBase_ (mb_ptrs s)) (wBound_ (mb_ptrs s))) s)
  = zdrop (r - rBase_ (mb_ptrs s)) (content s).
Proof.
  intros Hi ? ?. unfold content. cbn. destruct Hi as (? & ? & _).
  rewrite zslice_suffix by lia. f_equal. lia.
Qed.

Lemma zslice_content s g :
  mb_inv s -> 0 <= g ->
  zslice (rBase_ (mb_ptrs s)) (rBase_ (mb_ptrs s) + Z.min g (zlen (content s))) (block s)
  = ztake g (content s).
Proof.
  intros Hi Hg. rewrite zlen_content by done. pose proof Hi as (? & ? & _). unfold content.
  destruct (Z.min_spec g (wBase_ (mb_ptrs s) - rBase_ (mb_ptrs s))) as [[? ->]|[? ->]].
  - by rewrite zslice_prefix by lia.
  - rewrite ztake_ge by (rewrite <- (zlen_content s Hi) in *; unfold content in *; lia).
    f_equal. lia.
Qed.

Lemma zdrop_content s g :
  0 <= g -> zdrop (Z.min g (zlen (content s))) (content s) = zdrop g (content s).
Proof.
  intros. destruct (Z.min_spec g (zlen (content s))) as [[? ->]|[? ->]]; [done|].
  by rewrite !zdrop_ge by lia.
Qed.

Lemma computeRead_spec s len :
  mb_inv s -> 0 <= len ->
  succeeds (computeRead len) s (fun r s' =>
    r = ztake len (content s) /\ mb_inv s' /\ content s' = zdrop len (content s) /\
    rBound_ (mb_ptrs s') = wBase_ (mb_ptrs s')).
Proof.
  intros Hi Hlen. unfold computeRead, modify_mb. wp.
  pose proof (zlen_content s Hi) as Hc. pose proof (zlen_nonneg (content s)).
  pose proof Hi as (? & ? & ? & ? & ? & _).
  change (available_read _) with (available_read s).
  rewrite available_read_content by done. cbn.
  change (block _) with (block s).
  apply runs_load_mem; [lia|lia|lia|]. split; [by apply zslice_content|].
  split; [|split; [|done]].
  - apply (mb_inv_advance s (rBase_ (mb_ptrs s) + Z.min len (zlen (content s)))
             (wBase_ (mb_ptrs s))); [done|lia|lia].
  - rewrite <- zdrop_content by lia. etransitivity.
    + apply (content_advance s (rBase_ (mb_ptrs s) + Z.min len (zlen (content s)))
             (wBase_ (mb_ptrs s))); [done|lia|lia].
    + f_equal. lia.
Qed.

(** [read] is the queue's dequeue, on the fast path and on the slow one. *)
Lemma read_dequeue s len :
  mb_inv s -> 0 <= len ->
  succeeds (read len) s (fun r s' =>
    r = ztake len (content s) /\ mb_inv s' /\ content s' = zdrop len (content s)).
Proof.
  intros Hi Hlen. unfold read. wp. cbn. bif.
  - wp. pose proof Hi as (? & ? & ? & ? & ? & _).
    apply runs_load_mem; [lia|lia|lia|]. unfold modify_ptrs. wp. cbn.
    pose proof (mb_inv_advance s (rBase_ (mb_ptrs s) + len) (rBound_ (mb_ptrs s)) Hi) as Ha.
    pose proof (content_advance s (rBase_ (mb_ptrs s) + len) (rBound_ (mb_ptrs s)) Hi) as Hd.
    split; [|split; [apply Ha; lia|]].
    + unfold content. rewrite zslice_prefix by lia. done.
    + etransitivity; [apply Hd; lia|]. f_equal. lia.
  - eapply runs_mono; [by apply computeRead_spec| |done]. cbn. intros r s1 (? & ? & ? & _). done.
Qed.

Lemma read_reads_prefix : reads_prefix read (fun s bs => mb_inv s /\ content s = bs).
Proof.
  intros s n bs [Hi Hc] Hn. eapply runs_mono; [apply read_dequeue; [done|lia]| |done].
  cbn. intros r s' (-> & Hi' & Hc'). rewrite Hc in *.
  exists (Z.min n (zlen bs)). destruct (Z.min_spec n (zlen bs)) as [[? ->]|[? ->]].
  - split_and!; try done; zlist.
  - rewrite !ztake_ge, !zdrop_ge in * by lia. split_and!; try done; zlist.
Qed.

Lemma readAll_dequeue s bs rest :
  mb_inv s -> content s = bs ++ rest ->
  succeeds (BufferBase.readAll (zlen bs)) s (fun r s' =>
    r = bs /\ mb_inv s' /\ content s' = rest).
Proof.
  intros Hi Hc. pose proof (zlen_content s Hi) as Hlc. rewrite Hc in Hlc.
  pose proof Hi as (? & ? & ? & ? & ? & _). apply runs_readAll; intros _.
  - eapply runs_mono; [apply read_dequeue; [done|apply zlen_nonneg]| |done].
    cbn. rewrite Hc. rewrite ztake_app, zdrop_app by done. done.
  - eapply runs_mono; [eapply (readAll_stream _ _ s); [apply reads_prefix_some, read_reads_prefix| |done|zlist]| |done].
    + by rewrite <- Hc.
    + naive_solver.
Qed.

Lemma readAll_underflow s n :
  mb_inv s -> zlen (content s) < n -> n < 2 ^ 32 ->
  raises (BufferBase.readAll n) s (fun e s' =>
    e = ETransport END_OF_FILE "No more data to read." /\ mb_inv s' /\ content s' = []).
Proof.
  intros Hi Hn Hmax. pose proof (zlen_content s Hi). pose proof Hi as (? & ? & _).
  apply runs_readAll; cbn; intros; [lia|].
  eapply runs_mono; [by apply (readAll_stream_eof _ _ s n (content s) read_reads_prefix)|done|].
  naive_solver.
Qed.

(** ** Borrowing *)

Lemma borrow_spec s n :
  mb_inv s -> 0 <= n ->
  succeeds (borrow n) s (fun r s' =>
    match r with
    | None => zlen (content s) < n /\ mb_inv s' /\ content s' = content s
    | Some b => n <= zlen b /\ b = ztake (zlen b) (content s) /\ mb_inv s' /\
                content s' = content s /\
                zlen b = rBound_ (mb_ptrs s') - rBase_ (mb_ptrs s')
    end).
Proof.
  intros Hi Hn. unfold borrow. pose proof Hi as (? & ? & ? & ? & ? & _). wp. cbn. bif.
  - wp. apply runs_load_mem; [lia|lia|lia|]. wp. rewrite zlen_zslice by lia.
    split_and!; try done; [lia| |lia].
    unfold content. rewrite zslice_prefix by lia. f_equal. lia.
  - unfold borrowSlow, modify_mb. wp. change (available_read _) with (available_read s).
    rewrite available_read_content by done. pose proof (zlen_content s Hi) as Hlc.
    assert (mb_inv (set_mb_ptrs (set_rBound (wBase_ (mb_ptrs s)) (mb_ptrs s)) s)).
    { apply (mb_inv_advance s (rBase_ (mb_ptrs s)) (wBase_ (mb_ptrs s))); [done|lia|lia]. }
    bif; wp; [|split_and!; [lia|done|done]]. cbn. change (block _) with (block s).
    apply runs_load_mem; [lia|lia|lia|]. wp. rewrite zlen_zslice by lia.
    split_and!; try done; [lia| |cbn; lia].
    rewrite ztake_ge by lia. rewrite Hlc. unfold content. f_equal. lia.
Qed.

Lemma consume_spec s n :
  mb_inv s -> 0 <= n <= rBound_ (mb_ptrs s) - rBase_ (mb_ptrs s) ->
  succeeds (consume n) s (fun _ s' => mb_inv s' /\ content s' = zdrop n (content s)).
Proof.
  intros Hi Hn. unfold consume, modify_ptrs. pose proof Hi as (? & ? & _). wp. cbn.
  replace (_ <=? _) with true by lia. wp. split.
  - apply (mb_inv_advance s (rBase_ (mb_ptrs s) + n) (rBound_ (mb_ptrs s))); [done|lia|lia].
  - etransitivity; [apply (content_advance s (rBase_ (mb_ptrs s) + n) (rBound_ (mb_ptrs s)));
      [done|lia|lia]|]. f_equal. lia.
Qed.

Lemma consume_too_much s n :
  rBound_ (mb_ptrs s) - rBase_ (mb_ptrs s) < n ->
  consume n s = (Throw (ETransport BAD_ARGS "consume did not follow a borrow."), s).
Proof.
  intros. unfold consume, bind, gets. cbn. by replace (_ <=? _) with false by lia.
Qed.

(** ** Growing *)

Definition grow_measure (a : Z * Z) : Z := if a.1 =? 0 then 33 else 32 - Z.log2 a.1.

(** The loop doubles [new_size] until the write fits; below 2 GiB it stops with
    a size that holds everything. *)
Lemma grow_spec_mb len aw bufferSize s :
  0 <= aw <= bufferSize -> aw < len -> bufferSize - aw + len <= 2 ^ 31 ->
  succeeds (grow len aw bufferSize) s (fun n s' =>
    s' = s /\ bufferSize - aw + len <= n < 2 ^ 32 /\ bufferSize <= n).
Proof.
  intros Haw Hlen Hcap. unfold grow. change (2 ^ 31) with 2147483648 in *.
  change (2 ^ 32) with 4294967296.
  apply (runs_iterate
    (fun a s' => s' = s /\ bufferSize <= a.1 < 4294967296 /\ a.2 = aw + (a.1 - bufferSize))
    grow_measure).
  - intros [ns av] s1 (-> & Hns & Hav). cbn in Hns, Hav. subst av. unfold grow_body. bif; wp.
    + bif; unfold grow_measure; cbn [fst snd].
      * unwrap.
        assert (Z.log2 ns <= 30).
        { transitivity (Z.log2 2147483647); [apply Z.log2_le_mono; lia|reflexivity]. }
        rewrite Z.mul_comm, Z.log2_double by lia.
        replace (2 * ns =? 0) with false by lia. replace (ns =? 0) with false by lia.
        split; [split_and!; [done|lia|lia|lia]|lia].
      * assert (ns = 0) as -> by lia. assert (bufferSize = 0) as -> by lia.
        unwrap. cbn. split; [split_and!; try done; lia|lia].
    + split_and!; [done|lia|lia|lia].
  - cbn. split_and!; try done; lia.
  - unfold grow_measure. cbn. bif; [lia|].
    pose proof (Z.log2_nonneg bufferSize).
    assert (Z.log2 bufferSize <= 31); [|lia].
    transitivity (Z.log2 4294967295); [apply Z.log2_le_mono; lia|reflexivity].
Qed.

(** At a 2 GiB block the doubling wraps to 0 and the loop accepts it. *)
Lemma grow_overflow len aw s :
  0 <= aw < 2 ^ 31 -> aw < len <= aw + 2 ^ 31 -> grow len aw (2 ^ 31) s = (Ok 0, s).
Proof.
  intros Haw Hlen. change (2 ^ 31) with 2147483648 in *. unfold grow.
  assert (H1 : grow_body len aw 2147483648 (2147483648, aw) =
               ret (inl (0, aw + 2147483648))).
  { unfold grow_body. replace (aw <? len) with true by lia.
    change (0 <? 2147483648) with true. cbv iota.
    change (u32 (2147483648 * 2)) with 0. change (u32 (0 - 2147483648)) with 2147483648.
    rewrite wrapu_small by (unfold in_u; lia). done. }
  assert (H2 : grow_body len aw 2147483648 (0, aw + 2147483648) = ret (inr 0)).
  { unfold grow_body. by replace (_ <? len) with false by lia. }
  assert (Hr : succeeds (iterate 100 (grow_body len aw 2147483648) (2147483648, aw)) s
            (fun n s' => n = 0 /\ s' = s)).
  { apply (runs_iterate
      (fun a s' => s' = s /\ (a = (2147483648, aw) \/ a = (0, aw + 2147483648)))
      (fun a => if a.1 =? 0 then 0 else 1)); [|by auto|done].
    intros a s1 [-> [-> | ->]]; rewrite ?H1, ?H2; wp; [|done]. split; [by auto|cbn; lia]. }
  apply succeeds_run in Hr as (n & s' & -> & -> & ->). done.
Qed.

(** ** Writing *)

Context `{!Unbounded}.

(** Room for a write, in the buffer or by growing it. *)
Definition can_write (s : TMemoryBuffer) (n : Z) : Prop :=
  n <= wBound_ (mb_ptrs s) - wBase_ (mb_ptrs s) \/
  (owner_ s = true /\ wBase_ (mb_ptrs s) + n <= 2 ^ 31).

Lemma block_some b n o p : block (MemBuf (Some b) n o p) = b.
Proof using Type. done. Qed.

Lemma ensureCanWrite_spec s n :
  mb_inv s -> 0 <= n -> can_write s n ->
  succeeds (ensureCanWrite n) s (fun _ s' =>
    mb_inv s' /\ content s' = content s /\ owner_ s' = owner_ s /\
    wBase_ (mb_ptrs s') = wBase_ (mb_ptrs s) /\
    n <= wBound_ (mb_ptrs s') - wBase_ (mb_ptrs s') /\
    (owner_ s = true -> bufferSize_ s <= bufferSize_ s')).
Proof using Type*.
  intros Hi Hn Hcan. unfold ensureCanWrite. wp.
  rewrite available_write_space by done. bif; wp; [by split_and!|].
  destruct Hcan as [?|[Hown Hcap]]; [lia|]. rewrite Hown. cbn [negb].
  pose proof Hi as (? & ? & ? & ? & Hmax & Ho & _ & Hnull). destruct (Ho Hown) as [Hb1 Hb2].
  wp. eapply runs_mono; [apply grow_spec_mb; [lia|lia|lia]| |done].
  cbn beta. intros ns s1 (-> & Hns & Hge). unfold realloc. rewrite always_alloc. wp.
  split_and!; try done; [|cbn|cbn; lia].
  - unfold mb_inv. rewrite block_some. cbn. zlist. rewrite Hown.
    split_and!; try done; try lia.
  - unfold content. rewrite block_some. cbn. rewrite zslice_app_l by zlist.
    by rewrite ztake_ge by lia.
Qed.

(** Storing [d] at the write pointer enqueues it. *)
Lemma store_enqueue s d :
  mb_inv s -> zlen d <= wBound_ (mb_ptrs s) - wBase_ (mb_ptrs s) ->
  let s' := set_mb_ptrs (set_wBase (wBase_ (mb_ptrs s) + zlen d) (mb_ptrs s))
              (set_block (zsplice (wBase_ (mb_ptrs s)) d (block s)) s) in
  mb_inv s' /\ content s' = content s ++ d.
Proof using Type.
  intros Hi Hd s'. pose proof (zlen_nonneg d).
  pose proof Hi as (? & ? & ? & ? & ? & Ho & Hno & Hnull).
  assert (Hblk : block s' = zsplice (wBase_ (mb_ptrs s)) d (block s)).
  { unfold s', block at 1. cbn. unfold set_block, block in *. cbn.
    destruct (buffer_ s); cbn; [done|]. specialize (Hnull eq_refl). cbn in *.
    assert (zlen d = 0) as Hz by lia. rewrite (zlen_0 d Hz).
    replace (wBase_ (mb_ptrs s)) with 0 by lia. done. }
  split.
  - unfold mb_inv. rewrite Hblk, zlen_zsplice by lia. cbn.
    assert (buffer_ s = None -> buffer_ s' = None) by (by unfold s', set_block; cbn; intros ->).
    split_and!; try done; try lia.
    + intros Hf. specialize (Hno Hf). lia.
    + by destruct (buffer_ s); [|intros _; apply Hnull].
  - unfold content. rewrite Hblk. cbn.
    rewrite (zslice_split _ (wBase_ (mb_ptrs s))) by lia.
    rewrite zslice_zsplice_before by lia. f_equal. apply zslice_zsplice_at. lia.
Qed.

Lemma write_enqueue s d :
  mb_inv s -> can_write s (zlen d) ->
  succeeds (write d) s (fun _ s' =>
    mb_inv s' /\ content s' = content s ++ d /\ owner_ s' = owner_ s /\
    wBase_ (mb_ptrs s') = wBase_ (mb_ptrs s) + zlen d).
Proof using Type*.
  intros Hi Hcan. pose proof Hi as (? & ? & ? & ? & _). pose proof (zlen_nonneg d).
  unfold write, modify_ptrs. wp. cbn. bif.
  - wp. apply runs_store_mem; [lia|lia|]. wp.
    destruct (store_enqueue s d Hi ltac:(lia)) as [Hi' Hc']. by split_and!.
  - unfold writeSlow, modify_mb. wp_apply ensureCanWrite_spec; [done|lia|done| |done].
    intros _ s1 (Hi1 & Hc1 & Ho1 & Hw1 & Hsp & _). wp. pose proof Hi1 as (? & ? & ? & ? & _).
    apply runs_store_mem; [lia|lia|]. wp.
    destruct (store_enqueue s1 d Hi1 ltac:(lia)) as [Hi' Hc'].
    split_and!; [done|etransitivity; [exact Hc'|by rewrite Hc1]|done|cbn; lia].
Qed.

(** A buffer of somebody else's memory refuses the write and stays as it is. *)
Lemma write_refused s d :
  mb_inv s -> owner_ s = false -> 0 < zlen d ->
  write d s = (Throw (ETransport TTransportException.UNKNOWN
                        "Insufficient space in external MemoryBuffer"), s).
Proof using Type.
  intros Hi Ho Hd. pose proof Hi as (? & ? & ? & ? & ? & _ & Hno & _).
  specialize (Hno Ho). unfold write, bind, gets. cbn.
  replace (_ <=? _) with false by lia.
  unfold writeSlow, ensureCanWrite, bind, gets. rewrite available_write_space by done.
  replace (_ <=? _) with false by lia. by rewrite Ho.
Qed.

(** ** Constructors and reset *)

Lemma new_size_spec_mb n u :
  0 <= n < 2 ^ 32 ->
  succeeds (new_size n) u (fun s _ =>
    mb_inv s /\ content s = [] /\ owner_ s = true /\ wBase_ (mb_ptrs s) = 0 /\
    bufferSize_ s = n).
Proof using Type*.
  intros Hn. unfold new_size, initCommon, new_bytes. rewrite always_alloc.
  bcase (n =? 0); cbn [negb]; wp; cbn [assert_].
  - subst n. split_and!; try done.
  - wp. split_and!; try done. unfold mb_inv, block. cbn. zlist. split_and!; lia || done.
Qed.

Lemma new_default_spec u :
  succeeds new_default u (fun s _ =>
    mb_inv s /\ content s = [] /\ owner_ s = true /\ wBase_ (mb_ptrs s) = 0 /\
    bufferSize_ s = 1024).
Proof using Type*. apply (new_size_spec_mb defaultSize). by split. Qed.

(** A constructor over existing bytes makes them readable, whatever the policy. *)
Lemma new_from_spec bs policy u :
  zlen bs < 2 ^ 32 -> policy = OBSERVE \/ policy = COPY \/ policy = TAKE_OWNERSHIP ->
  succeeds (new_from (Some bs) (zlen bs) policy) u (fun s _ =>
    mb_inv s /\ content s = bs /\ owner_ s = negb (policy =? OBSERVE)).
Proof using Type*.
  intros Hn Hp. pose proof (zlen_nonneg bs). unfold new_from. cbn [andb].
  assert (Hobs : forall own, mb_inv (MemBuf (Some bs) (zlen bs) own
             (Pointers 0 (zlen bs) (zlen bs) (zlen bs)))).
  { intros own. unfold mb_inv. rewrite block_some. cbn. split_and!; lia || done. }
  assert (Hcont : forall own, content (MemBuf (Some bs) (zlen bs) own
             (Pointers 0 (zlen bs) (zlen bs) (zlen bs))) = bs).
  { intros own. apply zslice_full. }
  destruct Hp as [-> | [-> | ->]]; cbn [orb Z.eqb OBSERVE COPY TAKE_OWNERSHIP Pos.eqb negb].
  - unfold initCommon. wp. by split_and!.
  - wp_apply (new_size_spec_mb (zlen bs)); [lia| |done]. cbn.
    intros s u' (Hi & Hc & Ho & Hw & Hb). wp. apply runs_load_mem; [lia|lia|cbn; lia|]. cbn.
    replace (zslice _ _ _) with bs by (symmetry; apply zslice_full).
    pose proof Hi as (_ & _ & _ & _ & _ & Hsz & _). specialize (Hsz Ho).
    apply runs_on_new. eapply runs_mono; [apply write_enqueue; [done|left; lia]| |done].
    cbn. intros _ s' (? & Hc' & Ho' & _). rewrite Hc in Hc'. split_and!; [done|done|congruence].
  - unfold initCommon. wp. by split_and!.
Qed.

(** [getBuffer()] looks at what is stored. *)
Lemma getBuffer_spec (w : TMemoryBuffer) :
  mb_inv w -> succeeds getBuffer w (fun buf w' => buf = content w /\ w' = w).
Proof.
  intros Hi. unfold getBuffer. pose proof Hi as (? & ? & ? & ? & ? & _). wp. unwrap.
  apply runs_load_mem; [lia|lia|lia|]. split; [|done]. unfold content. f_equal. lia.
Qed.

(** [resetBuffer()] empties the buffer; an owned block is kept for reuse. *)
Lemma resetBuffer_spec s :
  mb_inv s ->
  succeeds resetBuffer s (fun _ s' =>
    mb_inv s' /\ content s' = [] /\ owner_ s' = owner_ s /\ buffer_ s' = buffer_ s).
Proof using Type.
  intros Hi. unfold resetBuffer. wp. pose proof Hi as (? & ? & ? & ? & ? & Ho & Hno & Hnull).
  pose proof (zlen_nonneg (block s)).
  destruct (owner_ s) eqn:Hown; cbn; split_and!; try done;
    unfold mb_inv; cbn; change (block _) with (block s); rewrite ?Hown in *; split_and!;
    try done; try lia; intros; try (apply Hnull; done); try apply Ho; done.
Qed.

(** [readEnd()] reports the bytes read since the start of the block and resets
    it when all of it has been read: what is left to read does not change. *)
Lemma readEnd_spec s :
  mb_inv s ->
  succeeds readEnd s (fun n s' =>
    n = rBase_ (mb_ptrs s) /\ mb_inv s' /\ content s' = content s).
Proof using Type.
  intros Hi. unfold readEnd. pose proof Hi as (? & ? & ? & ? & ? & _). wp. cbn.
  assert (u32 (rBase_ (mb_ptrs s)) = rBase_ (mb_ptrs s)) as -> by (unwrap; done).
  bif; wp; [|done]. wp_apply resetBuffer_spec; [done| |done]. cbn.
  intros _ s' (Hi' & Hc' & _). wp. split_and!; try done. rewrite Hc'.
  unfold content. by rewrite zslice_empty by lia.
Qed.
End Invariant.

(** ** The byte-stream contract *)

#[export] Instance TMemoryBuffer_reads `{Platform} : ReadLaws TMemoryBuffer.
Proof.
  refine {|
    incoming s bs := mb_inv s /\ content s = bs;
    lent s bs m := mb_inv s /\ content s = bs /\ m <= rBound_ (mb_ptrs s) - rBase_ (mb_ptrs s);
    stream_end := no_more
  |}.
  - tauto.
  - apply reads_prefix_some, read_reads_prefix.
  - intros s n bs rest [Hi Hc] <- _. by apply readAll_dequeue.
  - intros s n bs [Hi Hc] Hn Hmax. subst bs.
    eapply runs_mono; [by apply readAll_underflow|done|cbn; tauto].
  - intros s n bs [Hi <-] [Hn _]. eapply runs_mono; [by apply borrow_spec| |done].
    intros [b|] s'; [|tauto]. intros (? & ? & ? & ? & Hz). rewrite <- Hz. by split_and!.
  - intros s n bs m (Hi & <- & Hm) Hn. apply consume_spec; [done|lia].
Defined.

#[export] Instance TMemoryBuffer_writes `{Platform} `{!Unbounded} : WriteLaws TMemoryBuffer.
Proof.
  refine {|
    outgoing s out room :=
      mb_inv s /\ content s = out /\ owner_ s = true /\ wBase_ (mb_ptrs s) + room <= 2 ^ 31
  |}.
  intros s out room d (Hi & <- & Ho & Hr) Hd _.
  eapply runs_mono; [apply write_enqueue; [done|right; split; [done|lia]]| |done].
  cbn. intros _ s' (? & ? & Ho' & Hw). rewrite Ho', Hw. split_and!; try done. lia.
Defined.

#[export] Instance TMemoryBuffer_flush `{Platform} `{!Unbounded} : FlushLaws TMemoryBuffer.
Proof. intros s out room Ho. cbn. unfold BaseTransport.flush. by wp. Qed.

#[export] Instance TMemoryBuffer_writeEnd `{Platform} `{!Unbounded} : WriteEndLaws TMemoryBuffer.
Proof. intros s out room Ho. cbn. unfold writeEnd. by wp. Qed.

#[export] Instance TMemoryBuffer_end `{Platform} : EndLaws TMemoryBuffer.
Proof. apply reads_prefix_end, read_reads_prefix. Qed.

#[export] Instance TMemoryBuffer_readEnd `{Platform} : ReadEndLaws TMemoryBuffer.
Proof. intros s bs [Hi <-]. eapply runs_mono; [by apply readEnd_spec|naive_solver|done]. Qed.
