(* ===== verification/MemoryQueue.v ===== *)
(** * The abstract specification of [TMemoryBuffer]: a queue of bytes

    [queue_op] are the calls a client makes, [queue_step] what they mean on a
    plain list, [buffer_step] the same calls on the object.  [buffer_refines]
    is the simulation of one call by the other. *)

From S2P Require Export MemoryBuffer.

Inductive queue_op :=
| Write (d : list Z)
| Read (n : Z)
| ReadAll (n : Z)
| Take (n : Z)  (** [borrow(n)], then [consume(n)] of what was lent *)
| Peek
| ReadEnd
| Reset.

Definition no_more_data : exn := ETransport END_OF_FILE "No more data to read.".

(** One call on a list: its answer and the list left. *)
Definition queue_step (o : queue_op) (q : list Z) : outcome (list Z) * list Z :=
  match o with
  | Write d => (Ok [], q ++ d)
  | Read n => (Ok (ztake n q), zdrop n q)
  | ReadAll n => if n <=? zlen q then (Ok (ztake n q), zdrop n q) else (Throw no_more_data, [])
  | Take n => if n <=? zlen q then (Ok (ztake n q), zdrop n q) else (Ok [], q)
  | Peek => (Ok [if 0 <? zlen q then 1 else 0], q)
  | ReadEnd => (Ok [], q)
  | Reset => (Ok [], [])
  end.

Section Steps.
Context `{Platform}.

Definition buffer_step (o : queue_op) : M TMemoryBuffer (list Z) :=
  match o with
  | Write d => do! t_write d in ret []
  | Read n => t_read n
  | ReadAll n => t_readAll n
  | Take n =>
      let! b := t_borrow n in
      match b with
      | Some b => do! t_consume n in ret (ztake n b)
      | None => ret []
      end
  | Peek => let! b := t_peek in ret [if b then 1 else 0]
  | ReadEnd => do! t_readEnd in ret []
  | Reset => do! resetBuffer in ret []
  end.

(** A client goes on after an exception; the answers are in order. *)
Fixpoint buffer_run (ops : list queue_op) (s : TMemoryBuffer) : list (outcome (list Z)) * TMemoryBuffer :=
  match ops with
  | [] => ([], s)
  | o :: ops => let '(r, s1) := buffer_step o s in
                let '(rs, s2) := buffer_run ops s1 in (r :: rs, s2)
  end.
End Steps.

Fixpoint queue_run (ops : list queue_op) (q : list Z) : list (outcome (list Z)) * list Z :=
  match ops with
  | [] => ([], q)
  | o :: ops => let '(r, q1) := queue_step o q in
                let '(rs, q2) := queue_run ops q1 in (r :: rs, q2)
  end.

(** The bytes a call writes, and the lengths the C++ types allow. *)
Definition op_cost (o : queue_op) : Z := match o with Write d => zlen d | _ => 0 end.
Definition op_ok (o : queue_op) : bool :=
  match o with
  | Read n | ReadAll n | Take n => (0 <=? n) && (n <? 2 ^ 32)
  | _ => true
  end.

(** An owned buffer that stands for the queue [q] and can grow by [room]. *)
Definition stands_for (s : TMemoryBuffer) (q : list Z) (room : Z) : Prop :=
  mb_inv s /\ content s = q /\ owner_ s = true /\ wBase_ (mb_ptrs s) + room <= 2 ^ 31.

(** ** Reading leaves the write side alone *)

Definition write_side (s s' : TMemoryBuffer) : Prop :=
  owner_ s' = owner_ s /\ wBase_ (mb_ptrs s') = wBase_ (mb_ptrs s).

#[export] Instance write_side_preorder : PreOrder write_side.
Proof. split; [by intros s|]. intros s1 s2 s3 [] []. split; congruence. Qed.

Section Refinement.
Context `{Platform}.

Lemma keeps_modify_mb f :
  (forall p, wBase_ (f p) = wBase_ p) -> keeps write_side (modify_mb f).
Proof. intros Hf. apply keeps_modify. intros s. split; [done|apply Hf]. Qed.

Lemma keeps_load mem o n : keeps write_side (load_mem (S := TMemoryBuffer) mem o n).
Proof. unfold load_mem. auto with keeps typeclass_instances. Qed.

Hint Resolve keeps_load keeps_modify_mb : keeps.
Hint Extern 1 (forall p, wBase_ _ = wBase_ p) => intros; reflexivity : keeps.
Ltac keeping := auto 10 with keeps typeclass_instances.

Lemma keeps_computeRead n : keeps write_side (computeRead n).
Proof. unfold computeRead. keeping. Qed.

Lemma keeps_read n : keeps write_side (read (T := TMemoryBuffer) n).
Proof.
  unfold read, modify_ptrs. apply keeps_bind; [apply _|keeping|intros p].
  apply keeps_bind; [apply _|keeping|intros mem]. case_match.
  - apply (keeps_bind _ (load_mem mem (rBase_ p) n)); [keeping|].
    intros d. apply (keeps_bind _ (modify_mb (set_rBase _))); keeping.
  - apply keeps_computeRead.
Qed.

Lemma keeps_readAll n : keeps write_side (BufferBase.readAll (T := TMemoryBuffer) n).
Proof.
  assert (keeps write_side (Transport.readAll (T := TMemoryBuffer) read n)) as Hs;
    [|intros s; rewrite readAll_cases; case_match; [apply keeps_read|apply Hs]].
  unfold Transport.readAll. apply keeps_iterate; [apply _|]. intros buf. unfold readAll_body. case_match; [|keeping].
  apply keeps_bind; [apply _|apply keeps_read|]. intros got. case_match; keeping.
Qed.

Lemma keeps_borrow n : keeps write_side (borrow (T := TMemoryBuffer) n).
Proof.
  unfold borrow. apply keeps_bind; [apply _|keeping|intros p].
  apply keeps_bind; [apply _|keeping|intros mem]. case_match; [keeping|].
  cbn. unfold borrowSlow. apply keeps_bind; [apply _|keeping|intros _].
  apply keeps_bind; [apply _|keeping|intros avail]. case_match; keeping.
Qed.

Lemma keeps_consume n : keeps write_side (consume (T := TMemoryBuffer) n).
Proof.
  unfold consume. apply keeps_bind; [apply _|keeping|intros p]. case_match; [|keeping].
  apply (keeps_modify_mb (set_rBase _)). done.
Qed.

(** ** The simulation *)

Context `{!Unbounded}.

(** A call ends in a buffer that stands for what the queue becomes, and answers
    what the queue answers. *)
Definition simulates (o : queue_op) (q : list Z) (room : Z) (r : outcome (list Z)) (s' : TMemoryBuffer) : Prop :=
  r = (queue_step o q).1 /\ stands_for s' (queue_step o q).2 (room - op_cost o).

Lemma stands_for_read s q room s' q' :
  stands_for s q room -> write_side s s' -> mb_inv s' -> content s' = q' -> stands_for s' q' (room - 0).
Proof using Type. intros (? & ? & ? & ?) [Ho Hw] ? ?. unfold stands_for. rewrite Ho, Hw. split_and!; try done. lia. Qed.

(** From a specification of [m] to its run. *)
Lemma runs_simulates o q room (m : M TMemoryBuffer (list Z)) s :
  runs m s (fun r s' => simulates o q room (Ok r) s') (fun e s' => simulates o q room (Throw e) s') ->
  simulates o q room (m s).1 (m s).2.
Proof using Type. unfold runs. by destruct (m s) as [[] ?]. Qed.

(** The rule for a call that only reads. *)
Lemma runs_reading {A} (m : M TMemoryBuffer A) s q room (Q : A -> TMemoryBuffer -> Prop) E
    (Q' : A -> TMemoryBuffer -> Prop) E' :
  stands_for s q room -> keeps write_side m -> runs m s Q E ->
  (forall a s', Q a s' -> write_side s s' -> Q' a s') ->
  (forall e s', E e s' -> write_side s s' -> E' e s') ->
  runs m s Q' E'.
Proof using Type.
  intros Hs Hk Hm HQ HE. eapply runs_mono; [by apply (runs_keeps write_side)| |]; naive_solver.
Qed.

Lemma sim_read n q room s :
  0 <= n -> stands_for s q room -> simulates (Read n) q room (t_read n s).1 (t_read n s).2.
Proof using Type.
  intros Hn Hs. apply runs_simulates. pose proof Hs as (Hi & Hc & _).
  eapply runs_reading; [exact Hs|apply keeps_read|by apply read_dequeue| |done].
  cbn. rewrite Hc. intros r s' (-> & Hi' & Hc') Hk. split; [done|]. by eapply stands_for_read.
Qed.

Lemma sim_readAll n q room s :
  0 <= n < 2 ^ 32 -> stands_for s q room ->
  simulates (ReadAll n) q room (t_readAll n s).1 (t_readAll n s).2.
Proof using Type.
  intros Hn Hs. apply runs_simulates. pose proof Hs as (Hi & Hc & _).
  unfold simulates. cbn [queue_step op_cost]. bif.
  - rewrite <- (ztake_zdrop n q) in Hc.
    assert (zlen (ztake n q) = n) as Hl by (rewrite zlen_ztake; lia).
    pose proof (readAll_dequeue s (ztake n q) (zdrop n q) Hi Hc) as Hr. rewrite Hl in Hr.
    eapply runs_reading; [exact Hs|apply keeps_readAll|apply Hr; lia| |done].
    cbn. intros r s' (-> & Hi' & Hc') Hk. split; [done|]. by eapply stands_for_read.
  - eapply runs_reading; [exact Hs|apply keeps_readAll|
      apply (readAll_underflow s n Hi); [by rewrite Hc|lia]|done|].
    cbn. intros e s' (-> & Hi' & Hc') Hk. split; [done|]. by eapply stands_for_read.
Qed.

Lemma sim_take n q room s :
  0 <= n -> stands_for s q room ->
  simulates (Take n) q room (buffer_step (Take n) s).1 (buffer_step (Take n) s).2.
Proof using Type.
  intros Hn Hs. apply runs_simulates. pose proof Hs as (Hi & Hc & _). cbn [buffer_step]. wp.
  eapply runs_reading; [exact Hs|apply keeps_borrow|by apply borrow_spec| |done].
  cbn. rewrite Hc. unfold simulates. cbn [queue_step op_cost]. intros [b|] s1 Hb Hk.
  - destruct Hb as (Hle & Hbq & Hi1 & Hc1 & Hl). wp.
    assert (n <= zlen q) as Hnq by (rewrite Hbq, zlen_ztake in Hle; pose proof (zlen_nonneg q); lia).
    replace (n <=? zlen q) with true by lia.
    eapply runs_mono; [apply (runs_keeps write_side); [apply keeps_consume|apply consume_spec; [done|lia]]
      | |by intros ? ? []].
    cbn. intros _ s2 [[Hi2 Hc2] Hk2]. wp. rewrite Hc1 in Hc2. split.
    + cbn. f_equal. rewrite Hbq, ztake_ztake. f_equal. lia.
    + eapply stands_for_read; [exact Hs|by etransitivity|done|done].
  - destruct Hb as (Hlt & Hi1 & Hc1). wp. replace (n <=? zlen q) with false by lia.
    split; [done|]. by eapply stands_for_read.
Qed.

Lemma sim_write d q room s :
  zlen d <= room -> stands_for s q room ->
  simulates (Write d) q room (buffer_step (Write d) s).1 (buffer_step (Write d) s).2.
Proof using All.
  intros Hroom (Hi & Hc & Ho & Hw). apply runs_simulates. cbn [buffer_step]. wp.
  eapply runs_mono; [apply write_enqueue; [done|right; split; [done|lia]]| |done].
  cbn. intros _ s' (Hi' & Hc' & Ho' & Hw'). wp. split; [done|].
  unfold stands_for. cbn [queue_step op_cost snd]. rewrite Hc', Ho', Hw'.
  split_and!; try done; [by rewrite Hc|lia].
Qed.

(** [resetBuffer()] takes the write pointer back to the start. *)
Lemma sim_reset q room s :
  stands_for s q room ->
  succeeds resetBuffer s (fun _ s' => content s' = [] /\ stands_for s' [] room).
Proof using Type.
  intros (Hi & Hc & Ho & Hw). pose proof Hi as (? & ? & ? & _).
  eapply runs_mono; [apply (runs_keeps (fun _ s' => wBase_ (mb_ptrs s') = 0)); [|by apply resetBuffer_spec]
    | |by intros ? ? []].
  - intros s'. cbn. by destruct (owner_ s').
  - cbn. intros _ s' [(Hi' & Hc' & Ho' & _) Hz]. split; [done|]. unfold stands_for.
    rewrite Ho', Hz. split_and!; try done. lia.
Qed.

Lemma stands_for_content s q room : stands_for s q room -> content s = q.
Proof using Type. by intros (_ & ? & _). Qed.

Lemma sim_readEnd q room s :
  stands_for s q room ->
  simulates ReadEnd q room (buffer_step ReadEnd s).1 (buffer_step ReadEnd s).2.
Proof using Type.
  intros Hs. apply runs_simulates. unfold simulates. cbn [buffer_step op_cost queue_step fst snd t_readEnd].
  change (t_readEnd (T := TMemoryBuffer)) with readEnd. unfold readEnd. wp. rewrite Z.sub_0_r. bif; wp; [|done].
  eapply runs_mono; [by apply (sim_reset q room)| |done]. cbn. intros _ s' [_ Hs']. wp. split; [done|].
  assert (q = []) as ->; [|done]. apply zlen_0. pose proof Hs as (Hi & Hc & _).
  rewrite <- Hc, zlen_content by done. lia.
Qed.

Lemma sim_peek q room s :
  stands_for s q room -> simulates Peek q room (buffer_step Peek s).1 (buffer_step Peek s).2.
Proof using Type.
  intros Hs. apply runs_simulates. pose proof Hs as (Hi & Hc & _). cbn [buffer_step]. unfold simulates.
  cbn [queue_step op_cost fst snd]. change (t_peek (T := TMemoryBuffer)) with peek. unfold peek. wp.
  rewrite Z.sub_0_r. split; [|done]. rewrite <- Hc, zlen_content by done. do 2 f_equal.
  destruct (Z.ltb_spec (rBase_ (mb_ptrs s)) (wBase_ (mb_ptrs s)));
    [by replace (0 <? _) with true by lia|by replace (0 <? _) with false by lia].
Qed.

Lemma buffer_refines o q room s :
  op_ok o = true -> op_cost o <= room -> stands_for s q room ->
  simulates o q room (buffer_step o s).1 (buffer_step o s).2.
Proof using All.
  intros Hok Hroom Hs. destruct o as [d|n|n|n| | |]; cbn [op_ok op_cost] in *; breflect.
  - by apply sim_write.
  - by apply sim_read.
  - by apply sim_readAll.
  - by apply sim_take.
  - by apply sim_peek.
  - by apply sim_readEnd.
  - apply runs_simulates. cbn [buffer_step]. wp. eapply runs_mono; [by apply (sim_reset q room)| |done].
    cbn. intros _ s' [_ Hs']. wp. split; [done|]. cbn [op_cost queue_step snd]. by rewrite Z.sub_0_r.
Qed.
End Refinement.
