(* ===== verification/BufferedTransport.v ===== *)
(** * [TBufferedTransport]: transport/TBufferTransports.h and .cpp

    Reads ahead from the underlying transport into [rBuf_] and collects writes
    in [wBuf_].  The underlying transport is any instance of [TTransport]; it is
    owned by this object (the [shared_ptr] is not shared in the model). *)

From S2P Require Export BufferBase.

Record TBufferedTransport (T : Type) := BufTrans {
  transport_ : T;
  rBufSize_ : Z;
  wBufSize_ : Z;
  rBuf_ : list Z;
  wBuf_ : list Z;
  bt_ptrs : pointers
}.
Arguments BufTrans {T}.
Arguments transport_ {T}.
Arguments rBufSize_ {T}.
Arguments wBufSize_ {T}.
Arguments rBuf_ {T}.
Arguments wBuf_ {T}.
Arguments bt_ptrs {T}.

Definition DEFAULT_BUFFER_SIZE : Z := 512.

Section Operations.
Context `{Platform} {T : Type} `{TTransport T}.
Abbreviation St := (TBufferedTransport T).

Definition set_transport (t : T) (s : St) : St :=
  BufTrans t (rBufSize_ s) (wBufSize_ s) (rBuf_ s) (wBuf_ s) (bt_ptrs s).
Definition set_rBuf (b : list Z) (s : St) : St :=
  BufTrans (transport_ s) (rBufSize_ s) (wBufSize_ s) b (wBuf_ s) (bt_ptrs s).
Definition set_wBuf (b : list Z) (s : St) : St :=
  BufTrans (transport_ s) (rBufSize_ s) (wBufSize_ s) (rBuf_ s) b (bt_ptrs s).
Definition set_bt_ptrs (p : pointers) (s : St) : St :=
  BufTrans (transport_ s) (rBufSize_ s) (wBufSize_ s) (rBuf_ s) (wBuf_ s) p.

(** A call on [transport_]. *)
Definition under {A} (m : M T A) : M St A := lift transport_ set_transport m.
Definition modify_bt (f : pointers -> pointers) : M St unit :=
  modify (fun s => set_bt_ptrs (f (bt_ptrs s)) s).

(** [setReadBuffer(rBuf_.get(), transport_->read(rBuf_.get(), rBufSize_))] *)
Definition refill : M St unit :=
  let! sz := gets rBufSize_ in
  let! got := under (t_read sz) in
  let! b := gets rBuf_ in
  let! b' := store_mem b 0 got in
  do! modify (set_rBuf b') in
  modify_bt (setReadBuffer 0 (zlen got)).

Definition readSlow (len : Z) : M St (list Z) :=
  let! p := gets bt_ptrs in
  let have := u32 (rBound_ p - rBase_ p) in
  do! assert_ (have <? len) in
  if 0 <? have then
    let! b := gets rBuf_ in
    let! d := load_mem b (rBase_ p) have in
    do! modify_bt (setReadBuffer 0 0) in
    ret d
  else
    do! refill in
    let! p := gets bt_ptrs in
    let give := Z.min len (u32 (rBound_ p - rBase_ p)) in
    let! b := gets rBuf_ in
    let! d := load_mem b (rBase_ p) give in
    do! modify_bt (fun p => set_rBase (rBase_ p + give) p) in
    ret d.

Definition writeSlow (buf : list Z) : M St unit :=
  let! p := gets bt_ptrs in
  let! wsz := gets wBufSize_ in
  let len := zlen buf in
  let have_bytes := u32 (wBase_ p) in
  let space := u32 (wBound_ p - wBase_ p) in
  do! assert_ (wBound_ p - wBase_ p <? len) in
  if ((u32 (2 * wsz) <=? u32 (have_bytes + len)) || (have_bytes =? 0))%bool then
    do! (if 0 <? have_bytes then
           let! b := gets wBuf_ in
           let! d := load_mem b 0 have_bytes in
           under (t_write d)
         else ret tt) in
    do! under (t_write buf) in
    modify_bt (set_wBase 0)
  else
    let! b := gets wBuf_ in
    let! b' := store_mem b (wBase_ p) (ztake space buf) in
    do! modify (set_wBuf b') in
    let buf := zdrop space buf in
    let len := len - space in
    let! d := load_mem b' 0 wsz in
    do! under (t_write d) in
    do! assert_ (len <? wsz) in
    let! b'' := store_mem b' 0 buf in
    do! modify (set_wBuf b'') in
    modify_bt (set_wBase len).

Definition borrowSlow (len : Z) : M St (option (list Z)) := ret None.

Definition flush : M St unit :=
  let! have_bytes := gets (fun s => u32 (wBase_ (bt_ptrs s))) in
  do! (if 0 <? have_bytes then
         do! modify_bt (set_wBase 0) in
         let! b := gets wBuf_ in
         let! d := load_mem b 0 have_bytes in
         under (t_write d)
       else ret tt) in
  under t_flush.

#[export] Instance TBufferedTransport_base : TBufferBase St := {
  ptrs := bt_ptrs;
  set_ptrs := set_bt_ptrs;
  rmem := rBuf_;
  wmem := wBuf_;
  set_wmem := set_wBuf;
  readSlow_ := readSlow;
  writeSlow_ := writeSlow;
  borrowSlow_ := borrowSlow
}.

Definition open_ : M St unit := under t_open.
Definition isOpen : M St bool := under t_isOpen.
Definition peek : M St bool :=
  let! p := gets bt_ptrs in
  do! (if rBase_ p =? rBound_ p then refill else ret tt) in
  gets (fun s => rBase_ (bt_ptrs s) <? rBound_ (bt_ptrs s)).
Definition close : M St unit := do! flush in under t_close.

(** [initPointers], the read buffer at 0 and the write buffer at 0. *)
Definition initPointers (wsz : Z) : pointers :=
  setWriteBuffer 0 wsz (setReadBuffer 0 0 (Pointers 0 0 0 0)).

Definition new_sizes (t : T) (rsz wsz : Z) : M unit St :=
  let! r := new_bytes rsz in
  let! w := new_bytes wsz in
  ret (BufTrans t rsz wsz r w (initPointers wsz)).
Definition new_size (t : T) (sz : Z) : M unit St := new_sizes t sz sz.
Definition new_default (t : T) : M unit St :=
  new_sizes t DEFAULT_BUFFER_SIZE DEFAULT_BUFFER_SIZE.

#[export] Instance TBufferedTransport_transport : TTransport St := {
  t_isOpen := isOpen;
  t_peek := peek;
  t_open := open_;
  t_close := close;
  t_read := read;
  t_readAll := BufferBase.readAll;
  t_readEnd := BaseTransport.readEnd;
  t_write := write;
  t_writeEnd := BaseTransport.writeEnd;
  t_flush := flush;
  t_borrow := borrow;
  t_consume := consume
}.
End Operations.

(** ** The representation invariant *)

Section Correctness.
Context `{Platform} {T : Type} `{TTransport T}.
Abbreviation St := (TBufferedTransport T).
Implicit Types s : St.

Definition bt_inv (s : St) : Prop :=
  let p := bt_ptrs s in
  0 <= rBase_ p <= rBound_ p /\ rBound_ p <= rBufSize_ s /\
  zlen (rBuf_ s) = rBufSize_ s /\ 0 < rBufSize_ s < 2 ^ 32 /\
  0 <= wBase_ p <= wBound_ p /\ wBound_ p = wBufSize_ s /\
  zlen (wBuf_ s) = wBufSize_ s /\ wBufSize_ s < 2 ^ 31.

(** Read ahead and not yet delivered; written and not yet passed on. *)
Definition stash (s : St) : list Z :=
  zslice (rBase_ (bt_ptrs s)) (rBound_ (bt_ptrs s)) (rBuf_ s).
Definition pending (s : St) : list Z := zslice 0 (wBase_ (bt_ptrs s)) (wBuf_ s).

Lemma zlen_stash_bt s : bt_inv s -> zlen (stash s) = rBound_ (bt_ptrs s) - rBase_ (bt_ptrs s).
Proof. intros (? & ? & ? & _). unfold stash. rewrite zlen_zslice; lia. Qed.

Lemma zlen_pending s : bt_inv s -> zlen (pending s) = wBase_ (bt_ptrs s).
Proof. intros (_ & _ & _ & _ & ? & ? & ? & _). unfold pending. rewrite zlen_zslice; lia. Qed.

(** Advancing the read pointer within the buffer. *)
Definition advance (n : Z) (s : St) : St :=
  set_bt_ptrs (set_rBase (rBase_ (bt_ptrs s) + n) (bt_ptrs s)) s.

Lemma advance_inv_bt s n : bt_inv s -> 0 <= n <= zlen (stash s) -> bt_inv (advance n s).
Proof. intros Hi Hn. rewrite zlen_stash_bt in Hn by done. unfold bt_inv in *. cbn. lia. Qed.

Lemma stash_advance_bt s n :
  bt_inv s -> 0 <= n <= zlen (stash s) -> stash (advance n s) = zdrop n (stash s).
Proof.
  intros Hi Hn. rewrite zlen_stash_bt in Hn by done. destruct Hi as (? & _).
  unfold stash. cbn. by rewrite zslice_suffix by lia.
Qed.

Lemma new_sizes_inv `{!Unbounded} t rsz wsz u :
  0 < rsz < 2 ^ 32 -> 0 <= wsz < 2 ^ 31 ->
  succeeds (new_sizes t rsz wsz) u (fun s _ =>
    bt_inv s /\ transport_ s = t /\ stash s = [] /\ pending s = []).
Proof.
  intros. unfold new_sizes, new_bytes. rewrite !always_alloc. wp.
  split_and!; try done. unfold bt_inv. cbn. zlist.
Qed.

(** ** Reading *)

Section Reading.
Context `{!ReadLaws T} `{!EndLaws T}.

Definition bt_incoming (s : St) (bs : list Z) : Prop :=
  bt_inv s /\ exists rest, incoming (transport_ s) rest /\ bs = stash s ++ rest.

Lemma refill_spec s bs :
  bt_inv s -> stash s = [] -> incoming (transport_ s) bs ->
  succeeds refill s (fun _ s' => bt_incoming s' bs /\ (0 < zlen bs -> 0 < zlen (stash s'))
    /\ pending s' = pending s).
Proof.
  intros Hi Hs Hin. unfold refill, under, modify_bt. wp.
  pose proof Hi as (? & ? & ? & ? & ? & ? & ? & ?).
  eapply runs_mono; [apply (read_prefix _ _ _ Hin); lia| |done].
  cbn. intros got t (k & -> & Hin' & Hk & Hpos). wp.
  pose proof (zlen_nonneg bs).
  assert (Hz : zlen (ztake k bs) = k) by (zlist).
  apply runs_store_mem; [lia|cbn; lia|]. wp. rewrite Hz.
  assert (Hst : zslice 0 (0 + k) (zsplice 0 (ztake k bs) (rBuf_ s)) = ztake k bs).
  { rewrite <- Hz at 1. apply zslice_zsplice_at. zlist. }
  unfold bt_incoming, stash. cbn. split_and!; try done.
  - unfold bt_inv. cbn. rewrite zlen_zsplice by lia. lia.
  - exists (zdrop k bs). split; [done|]. cbn in Hst. rewrite Hst. by rewrite ztake_zdrop.
  - cbn in Hst. rewrite Hst, Hz. lia.
Qed.

Lemma read_stream_bt : reads_prefix read bt_incoming.
Proof.
  intros s n bs (Hi & rest & Hin & ->) Hn.
  pose proof (zlen_stash_bt s Hi) as Hl. pose proof Hi as (? & ? & ? & ? & _).
  pose proof (zlen_nonneg rest).
  destruct (Z_le_gt_dec (rBase_ (bt_ptrs s) + n) (rBound_ (bt_ptrs s))) as [Hf|Hf].
  { apply runs_read_fast; cbn; [lia|lia|lia|lia|]. exists n.
    rewrite ztake_app_le, zdrop_app_le by lia. split_and!; [|split|lia|zlist|lia].
    - unfold stash. by rewrite zslice_prefix by lia.
    - apply (advance_inv_bt s n); [done|lia].
    - exists rest. split; [done|]. by rewrite <- (stash_advance_bt s n) by (done || lia). }
  unfold read. wp. cbn. replace (_ <=? _) with false by lia.
  unfold readSlow, modify_bt. wp. unwrap. replace (_ <? n) with true by lia.
  unfold assert_. wp. bif.
  - wp. apply runs_load_mem; [lia|lia|lia|]. wp. exists (zlen (stash s)).
    rewrite ztake_app, zdrop_app by done. split_and!; [|split|lia|zlist|lia].
    + unfold stash. f_equal. lia.
    + unfold bt_inv in *. cbn. lia.
    + by exists rest.
  - assert (Hnil : stash s = []) by (apply zlen_0; lia). rewrite Hnil.
    wp_apply (refill_spec s rest); [done|done|done| |done].
    intros _ s1 ((Hi1 & rest1 & Hin1 & ->) & Hpos & _). wp.
    pose proof (zlen_stash_bt s1 Hi1) as Hl1. pose proof Hi1 as (? & ? & ? & ? & _).
    unwrap. apply runs_load_mem; [lia|lia|lia|]. wp. cbn [app].
    set (k := Z.min n (rBound_ (bt_ptrs s1) - rBase_ (bt_ptrs s1))).
    exists k. pose proof (zlen_nonneg rest1).
    rewrite ztake_app_le, zdrop_app_le by lia. split_and!; [|split|lia|zlist|zlist].
    + unfold stash. by rewrite zslice_prefix by lia.
    + apply (advance_inv_bt s1 k); [done|lia].
    + exists rest1. split; [done|]. by rewrite <- (stash_advance_bt s1 k) by (done || lia).
Qed.

Lemma readAll_stream_bt s n bs rest :
  bt_incoming s (bs ++ rest) -> zlen bs = n -> n < 2 ^ 32 ->
  succeeds (BufferBase.readAll n) s (fun r s' => r = bs /\ bt_incoming s' rest).
Proof.
  intros Hin Hn Hmax. apply runs_readAll; cbn; intros Hb.
  - destruct Hin as (Hi & rest' & Hin & Heq). pose proof Hi as (? & ? & ? & ? & _).
    pose proof (zlen_stash_bt s Hi). pose proof (zlen_nonneg bs).
    apply runs_read_fast; cbn; [lia|lia|lia|lia|].
    assert (Hbs : bs = ztake n (stash s)).
    { rewrite <- (ztake_app_le n (stash s) rest') by lia. rewrite <- Heq.
      by rewrite ztake_app. }
    split; [|split].
    + rewrite Hbs. unfold stash. by rewrite zslice_prefix by lia.
    + apply (advance_inv_bt s n); [done|lia].
    + exists rest'. split; [done|]. change (stash _) with (stash (advance n s)).
      rewrite (stash_advance_bt s n) by (done || lia).
      rewrite <- zdrop_app_le by lia. rewrite <- Heq. by rewrite zdrop_app.
  - by apply (readAll_stream _ _ _ _ _ _ (reads_prefix_some _ _ read_stream_bt)).
Qed.

Lemma readAll_stream_bt_eof s n bs :
  bt_incoming s bs -> zlen bs < n -> n < 2 ^ 32 ->
  raises (BufferBase.readAll n) s
    (fun e _ => e = ETransport END_OF_FILE "No more data to read.").
Proof.
  intros Hin Hn Hmax. apply runs_readAll; cbn; intros Hb.
  - destruct Hin as (Hi & rest' & Hin & ->). pose proof (zlen_stash_bt s Hi).
    pose proof Hi as (? & ? & ? & ? & _). zlist.
  - eapply runs_mono; [by apply (readAll_stream_eof _ _ s n bs read_stream_bt)|done|].
    cbn. tauto.
Qed.

(** [peek()] refills an empty read buffer and tells whether data is there;
    it takes nothing off the stream. *)
Lemma peek_spec s bs :
  bt_incoming s bs ->
  succeeds peek s (fun b s' => bt_incoming s' bs /\ (b = true <-> 0 < zlen bs)).
Proof.
  intros Hin. pose proof Hin as (Hi & rest & Hu & ->). unfold peek. wp.
  pose proof (zlen_stash_bt s Hi) as Hl. pose proof Hi as (? & _).
  pose proof (zlen_nonneg rest). bif; wp.
  - assert (Hnil : stash s = []) by (apply zlen_0; lia). rewrite Hnil in *.
    eapply runs_mono; [by apply (refill_spec s rest)| |done].
    intros _ s1 (Hin1 & Hpos & _). wp. split; [done|].
    destruct Hin1 as (Hi1 & rest1 & _ & Heq). pose proof (zlen_stash_bt s1 Hi1).
    cbn [app]. rewrite Z.ltb_lt. split; [|lia].
    pose proof (zlen_nonneg rest1). intros. rewrite Heq. zlist.
  - split; [done|]. rewrite Z.ltb_lt. zlist.
Qed.
End Reading.

(** ** Writing *)

Section Writing.
Context `{!WriteLaws T}.

(** [out] has been written, part of it still in [wBuf_]. *)
Definition bt_outgoing (s : St) (out : list Z) (room : Z) : Prop :=
  bt_inv s /\ 0 <= room <= 2 ^ 31 /\
  exists passed, outgoing (transport_ s) passed (room + zlen (pending s)) /\
                 out = passed ++ pending s.

Lemma pending_after s d :
  bt_inv s -> wBase_ (bt_ptrs s) + zlen d <= wBound_ (bt_ptrs s) ->
  let s' := set_bt_ptrs (set_wBase (wBase_ (bt_ptrs s) + zlen d) (bt_ptrs s))
              (set_wBuf (zsplice (wBase_ (bt_ptrs s)) d (wBuf_ s)) s) in
  bt_inv s' /\ pending s' = pending s ++ d.
Proof.
  intros Hi Hd s'. pose proof (zlen_nonneg d).
  pose proof Hi as (? & ? & ? & ? & ? & ? & ? & ?). split.
  - unfold bt_inv in *. cbn. rewrite zlen_zsplice by lia. lia.
  - unfold pending. cbn. rewrite (zslice_split 0 (wBase_ (bt_ptrs s))) by lia.
    rewrite zslice_zsplice_before by lia. f_equal. apply zslice_zsplice_at. lia.
Qed.

(** The pending bytes have been handed down: the buffer is empty. *)
Lemma emptied_inv s t :
  bt_inv s ->
  let s' := set_bt_ptrs (set_wBase 0 (bt_ptrs s)) (set_transport t s) in
  bt_inv s' /\ pending s' = [].
Proof. intros Hi s'. split; [unfold bt_inv in *; cbn; lia|done]. Qed.

Lemma outgoing_room (t : T) out r r' : outgoing t out r -> r = r' -> outgoing t out r'.
Proof. by intros ? ->. Qed.

Lemma handed_down s t p d passed room :
  bt_inv s -> zlen d <= room <= 2 ^ 31 ->
  outgoing t ((passed ++ p) ++ d) (room - zlen d) ->
  bt_outgoing (set_bt_ptrs (set_wBase 0 (bt_ptrs s)) (set_transport t s))
    ((passed ++ p) ++ d) (room - zlen d).
Proof.
  intros Hi Hroom Ht. destruct (emptied_inv s t Hi) as [Hi' Hp'].
  pose proof (zlen_nonneg d). split; [exact Hi'|split; [lia|]].
  exists ((passed ++ p) ++ d). rewrite Hp', app_nil_r. split; [|done].
  eapply outgoing_room; [exact Ht|]. zlist.
Qed.

Lemma write_appends_bt s out room d :
  bt_outgoing s out room -> zlen d <= room -> zlen d < 2 ^ 32 ->
  succeeds (write d) s (fun _ s' => bt_outgoing s' (out ++ d) (room - zlen d)).
Proof.
  intros (Hi & Hroom & passed & Hout & ->) Hd Hmax. pose proof (zlen_nonneg d).
  pose proof Hi as (? & ? & ? & ? & ? & ? & ? & ?). pose proof (zlen_pending s Hi) as Hp.
  destruct (Z_le_gt_dec (wBase_ (bt_ptrs s) + zlen d) (wBound_ (bt_ptrs s))) as [Hf|Hf].
  { apply runs_write_fast; cbn; [lia|lia|lia|].
    destruct (pending_after s d Hi Hf) as [Hi' Hp'].
    split; [exact Hi'|split; [lia|]]. exists passed. rewrite Hp'. zlist.
    replace (room - zlen d + (zlen (pending s) + zlen d)) with (room + zlen (pending s)) by lia.
    split; [done|]. by rewrite app_assoc. }
  unfold write. wp. cbn. replace (_ <=? _) with false by lia.
  unfold writeSlow, under, modify_bt. wp. unwrap. replace (_ <? zlen d) with true by lia.
  unfold assert_. wp. bif.
  - (* two calls on the underlying transport, or one when nothing is pending *)
    bif; wp; cbn.
    + apply runs_load_mem; [lia|lia|lia|]. cbn. wp.
      change (zslice 0 _ _) with (pending s).
      eapply runs_mono; [eapply write_ok; [done|lia|lia]| |done].
      cbn. intros _ t1 Ht1. wp.
      eapply runs_mono; [eapply write_ok; [done|lia|lia]| |done].
      cbn. intros _ t2 Ht2. wp. apply (handed_down s t2 (pending s)); [done|lia|].
      eapply outgoing_room; [exact Ht2|lia].
    + eapply runs_mono; [eapply write_ok; [done|lia|lia]| |done].
      cbn. intros _ t2 Ht2. wp.
      assert (Hnil : pending s = []) by (apply zlen_0; lia).
      rewrite Hnil in *. apply (handed_down s t2 []); [done|lia|].
      rewrite app_nil_r. eapply outgoing_room; [exact Ht2|]. zlist.
  - (* fill the buffer, pass it on, keep the rest *)
    set (space := wBound_ (bt_ptrs s) - wBase_ (bt_ptrs s)) in *.
    assert (Hsp : zlen (ztake space d) = space) by (zlist).
    destruct (pending_after s (ztake space d) Hi) as [Hi' Hp']; [lia|].
    wp. apply runs_store_mem; [lia|lia|]. wp. apply runs_load_mem; [lia|lia| |].
    { rewrite zlen_zsplice by lia. lia. }
    cbn. match goal with |- context [t_write ?b] => replace b with (pending s ++ ztake space d) end.
    2: { rewrite <- Hp'. unfold pending. cbn. f_equal. lia. }
    wp. eapply runs_mono; [eapply write_ok; [done|zlist|zlist]| |done].
    cbn. intros _ t1 Ht1. wp. replace (zlen d - space <? wBufSize_ s) with true by lia.
    wp. apply runs_store_mem; [lia|rewrite zlen_zsplice by lia; zlist|]. wp.
    assert (Hrest : zlen (zdrop space d) = zlen d - space) by zlist.
    split; [|split; [lia|]].
    + unfold bt_inv in *. cbn. rewrite !zlen_zsplice by (rewrite ?zlen_zsplice by lia; lia). lia.
    + exists (passed ++ pending s ++ ztake space d).
      assert (Hpend : zslice 0 (zlen d - space)
         (zsplice 0 (zdrop space d) (zsplice (wBase_ (bt_ptrs s)) (ztake space d) (wBuf_ s)))
         = zdrop space d).
      { rewrite <- Hrest. apply (zslice_zsplice_at 0). rewrite zlen_zsplice by lia. lia. }
      match goal with |- context [pending (set_bt_ptrs ?p ?x)] =>
        replace (pending (set_bt_ptrs p x)) with (zdrop space d) by (symmetry; exact Hpend)
      end. split.
      * eapply outgoing_room; [exact Ht1|]. zlist.
      * by rewrite <- !app_assoc, ztake_zdrop.
Qed.

(** [flush()] hands everything written to the underlying transport. *)
Lemma flush_hands_down `{!FlushLaws T} s out room :
  bt_outgoing s out room ->
  succeeds flush s (fun _ s' => bt_outgoing s' out room /\ pending s' = [] /\
    outgoing (transport_ s') out room).
Proof.
  intros (Hi & Hroom & passed & Hout & ->). unfold flush, under, modify_bt. wp. cbn.
  pose proof Hi as (? & ? & ? & ? & ? & ? & ? & ?). pose proof (zlen_pending s Hi) as Hp.
  unwrap.
  assert (Hend : forall s0, bt_inv s0 -> pending s0 = [] ->
    outgoing (transport_ s0) (passed ++ pending s) room ->
    runs t_flush (transport_ s0) (fun _ t => bt_outgoing (set_transport t s0)
        (passed ++ pending s) room /\ pending (set_transport t s0) = [] /\
        outgoing t (passed ++ pending s) room) (fun _ _ => False)).
  { intros s0 Hi0 Hp0 Ht. eapply runs_mono; [by apply flush_ok| |done]. cbn. intros _ t' Ht'.
    split_and!; [|exact Hp0|done]. split; [exact Hi0|split; [done|]].
    exists (passed ++ pending s).
    change (pending (set_transport t' s0)) with (pending s0). rewrite Hp0, app_nil_r.
    split; [|done]. eapply outgoing_room; [exact Ht'|]. zlist. }
  bif; wp; cbn.
  - apply runs_load_mem; [lia|lia|lia|]. wp. cbn. change (zslice 0 _ _) with (pending s).
    eapply runs_mono; [eapply write_ok; [done|zlist|lia]| |done].
    cbn. intros _ t1 Ht1. wp. destruct (emptied_inv s t1 Hi) as [Hi' Hp'].
    apply (Hend _ Hi' Hp'). eapply outgoing_room; [exact Ht1|]. lia.
  - assert (Hnil : pending s = []) by (apply zlen_0; lia).
    apply Hend; [done|done|]. rewrite Hnil, app_nil_r in *.
    eapply outgoing_room; [exact Hout|]. zlist.
Qed.
End Writing.

(** A [flush()] whose write fails leaves an empty buffer: a later [flush()]
    does not send the lost bytes a second time. *)
Lemma flush_failure_empties s e t :
  bt_inv s -> 0 < wBase_ (bt_ptrs s) ->
  t_write (pending s) (transport_ s) = (Throw e, t) ->
  exists s', flush s = (Throw e, s') /\ bt_inv s' /\ pending s' = [] /\
    transport_ s' = t /\ stash s' = stash s.
Proof.
  intros Hi Hpos Hw. pose proof Hi as (? & ? & ? & ? & ? & ? & ? & ?).
  destruct (emptied_inv s t Hi) as [Hi' Hp'].
  exists (set_bt_ptrs (set_wBase 0 (bt_ptrs s)) (set_transport t s)).
  split; [|by split_and!].
  unfold flush, modify_bt, under, load_mem, bind, gets, modify. cbn.
  unwrap. replace (0 <? _) with true by lia. cbn.
  replace (_ && _)%bool with true by (symmetry; rewrite andb_true_iff; lia). cbn.
  unfold lift. cbn. change (zslice 0 _ _) with (pending s). by rewrite Hw.
Qed.
End Correctness.

(** ** The byte-stream contract, inherited from the underlying transport *)

#[export] Instance TBufferedTransport_reads `{Platform} `{EndLaws T} :
  ReadLaws (TBufferedTransport T).
Proof.
  refine {|
    incoming := bt_incoming;
    lent s bs m := bt_incoming s bs /\ m = zlen (stash s);
    stream_end := no_more
  |}.
  - tauto.
  - apply reads_prefix_some, read_stream_bt.
  - intros s n bs rest. apply readAll_stream_bt.
  - intros s n bs. apply readAll_stream_bt_eof.
  - intros s n bs Hin Hn. pose proof Hin as (Hi & rest & Hu & ->).
    pose proof (zlen_stash_bt s Hi). pose proof Hi as (? & ? & ? & _).
    destruct (Z_le_gt_dec n (zlen (stash s))).
    + apply runs_borrow_fast; cbn; [lia|lia|lia|].
      change (zslice _ _ _) with (stash s). rewrite ztake_app by done. by split_and!.
    + cbn. unfold borrow. wp. cbn. replace (_ <=? _) with false by lia. done.
  - intros s n bs m [Hin ->] Hn. pose proof Hin as (Hi & rest & Hu & ->).
    pose proof (zlen_stash_bt s Hi). apply runs_consume; cbn; [lia|].
    split; [by apply (advance_inv_bt s n)|]. exists rest. split; [done|].
    rewrite zdrop_app_le by lia. by rewrite <- (stash_advance_bt s n).
Defined.

#[export] Instance TBufferedTransport_end `{Platform} `{EndLaws T} : EndLaws (TBufferedTransport T).
Proof. apply reads_prefix_end, read_stream_bt. Qed.

#[export] Instance TBufferedTransport_writes `{Platform} `{WriteLaws T} :
  WriteLaws (TBufferedTransport T).
Proof.
  refine {| outgoing := bt_outgoing |}.
  intros s out room d. apply write_appends_bt.
Defined.

#[export] Instance TBufferedTransport_flush `{Platform} `{FlushLaws T} :
  FlushLaws (TBufferedTransport T).
Proof.
  intros s out room Ho. eapply succeeds_mono; [exact (flush_hands_down s out room Ho)|]. cbn. tauto.
Qed.
