(* ===== verification/FramedTransport.v ===== *)
(** * [TFramedTransport]: transport/TBufferTransports.h and .cpp

    Writes are collected in [wBuf_] behind a 4-byte pad; [flush()] stores the
    frame size there and sends the frame.  Reads are served from the frame last
    read into [rBuf_].  The bytes of [rBuf_] that a failed [readAll] of a frame
    leaves behind are not followed: no pointer covers them. *)

From S2P Require Export BufferBase.

Record TFramedTransport (T : Type) := FrTrans {
  transport_ : T;
  rBufSize_ : Z;
  wBufSize_ : Z;
  rBuf_ : list Z;
  wBuf_ : list Z;
  fr_ptrs : pointers
}.
Arguments FrTrans {T}.
Arguments transport_ {T}.
Arguments rBufSize_ {T}.
Arguments wBufSize_ {T}.
Arguments rBuf_ {T}.
Arguments wBuf_ {T}.
Arguments fr_ptrs {T}.

Definition DEFAULT_BUFFER_SIZE : Z := 512.

Section Operations.
Context `{Platform} {T : Type} `{TTransport T}.
Abbreviation St := (TFramedTransport T).

Definition set_transport (t : T) (s : St) : St :=
  FrTrans t (rBufSize_ s) (wBufSize_ s) (rBuf_ s) (wBuf_ s) (fr_ptrs s).
Definition set_rBuf (b : list Z) (sz : Z) (s : St) : St :=
  FrTrans (transport_ s) sz (wBufSize_ s) b (wBuf_ s) (fr_ptrs s).
Definition set_wBuf (b : list Z) (s : St) : St :=
  FrTrans (transport_ s) (rBufSize_ s) (wBufSize_ s) (rBuf_ s) b (fr_ptrs s).
Definition set_fr_ptrs (p : pointers) (s : St) : St :=
  FrTrans (transport_ s) (rBufSize_ s) (wBufSize_ s) (rBuf_ s) (wBuf_ s) p.

Definition under {A} (m : M T A) : M St A := lift transport_ set_transport m.
Definition modify_fr (f : pointers -> pointers) : M St unit :=
  modify (fun s => set_fr_ptrs (f (fr_ptrs s)) s).

(** One round of [while (size_bytes_read < sizeof(sz))]; [szp] holds the bytes
    of [sz] read so far.  [None] is the [return false]. *)
Definition header_body (szp : list Z) : M St (list Z + option (list Z)) :=
  if zlen szp <? 4 then
    let! got := under (t_read (4 - zlen szp)) in
    if zlen got =? 0 then
      if zlen szp =? 0 then ret (inr None)
      else throw (ETransport END_OF_FILE
                    "No more data to read after partial frame header.")
    else ret (inl (szp ++ got))
  else ret (inr (Some szp)).

Definition readFrame : M St bool :=
  let! header := iterate 5 header_body [] in
  match header with
  | None => ret false
  | Some szp =>
      let sz := s32 (ntohl (load szp)) in
      if sz <? 0 then
        throw (ETransport TTransportException.UNKNOWN "Frame size has negative value")
      else
      let! rsz := gets rBufSize_ in
      do! (if s32 rsz <? sz then
             let! b := new_bytes sz in modify (set_rBuf b sz)
           else ret tt) in
      let! got := under (t_readAll sz) in
      let! b := gets rBuf_ in
      let! b' := store_mem b 0 got in
      do! modify (fun s => set_rBuf b' (rBufSize_ s) s) in
      do! modify_fr (setReadBuffer 0 sz) in
      ret true
  end.

Definition readSlow (len : Z) : M St (list Z) :=
  let! p := gets fr_ptrs in
  let have := u32 (rBound_ p - rBase_ p) in
  do! assert_ (have <? len) in
  if 0 <? have then
    let! b := gets rBuf_ in
    let! d := load_mem b (rBase_ p) have in
    do! modify_fr (setReadBuffer 0 0) in
    ret d
  else
    let! more := readFrame in
    if negb more then ret [] else
    let! p := gets fr_ptrs in
    let give := Z.min len (u32 (rBound_ p - rBase_ p)) in
    let! b := gets rBuf_ in
    let! d := load_mem b (rBase_ p) give in
    do! modify_fr (fun p => set_rBase (rBase_ p + give) p) in
    ret d.

(** One round of [while (new_size < len + have)]. *)
Definition grow_body (want new_size : Z) : M St (Z + Z) :=
  if new_size <? want
  then ret (inl (if 0 <? new_size then u32 (new_size * 2) else 1))
  else ret (inr new_size).

Definition writeSlow (buf : list Z) : M St unit :=
  let! p := gets fr_ptrs in
  let have := u32 (wBase_ p) in
  let len := zlen buf in
  if ((u32 (len + have) <? have) || (0x7fffffff <? u32 (len + have)))%bool then
    throw (ETransport BAD_ARGS "Attempted to write over 2 GB to TFramedTransport.")
  else
  let! wsz := gets wBufSize_ in
  let! new_size := iterate 100 (grow_body (u32 (len + have))) wsz in
  let! new_buf := new_bytes new_size in
  let! old := gets wBuf_ in
  let! d := load_mem old 0 have in
  let! new_buf := store_mem new_buf 0 d in
  do! modify (fun s => FrTrans (transport_ s) (rBufSize_ s) new_size (rBuf_ s) new_buf
                         (set_wBound new_size (set_wBase have (fr_ptrs s)))) in
  let! b := store_mem new_buf have buf in
  do! modify (set_wBuf b) in
  modify_fr (fun p => set_wBase (wBase_ p + len) p).

Definition borrowSlow (len : Z) : M St (option (list Z)) := ret None.

#[export] Instance TFramedTransport_base : TBufferBase St := {
  ptrs := fr_ptrs;
  set_ptrs := set_fr_ptrs;
  rmem := rBuf_;
  wmem := wBuf_;
  set_wmem := set_wBuf;
  readSlow_ := readSlow;
  writeSlow_ := writeSlow;
  borrowSlow_ := borrowSlow
}.

Definition flush : M St unit :=
  let! wsz := gets wBufSize_ in
  do! assert_ (4 <? wsz) in
  let! sz_hbo := gets (fun s => s32 (u32 (wBase_ (fr_ptrs s) - 4))) in
  let sz_nbo := htonl (u32 sz_hbo) in
  let! b := gets wBuf_ in
  let! b' := store_mem b 0 (store 4 sz_nbo) in
  do! modify (set_wBuf b') in
  do! (if 0 <? sz_hbo then
         do! modify_fr (set_wBase 4) in
         let! d := load_mem b' 0 (u32 (4 + sz_hbo)) in
         under (t_write d)
       else ret tt) in
  under t_flush.

Definition writeEnd : M St Z := gets (fun s => u32 (wBase_ (fr_ptrs s))).
Definition readEnd : M St Z := gets (fun s => u32 (rBound_ (fr_ptrs s) + 4)).

Definition open_ : M St unit := under t_open.
Definition isOpen : M St bool := under t_isOpen.
Definition peek : M St bool :=
  let! p := gets fr_ptrs in
  if rBase_ p <? rBound_ p then ret true else under t_peek.
Definition close : M St unit := do! flush in under t_close.

Definition initPointers : M St unit :=
  do! modify_fr (setReadBuffer 0 0) in
  do! modify (fun s => set_fr_ptrs (setWriteBuffer 0 (wBufSize_ s) (fr_ptrs s)) s) in
  write (store 4 0).

Definition new_size (t : T) (sz : Z) : M unit St :=
  let! w := new_bytes sz in
  on_new initPointers (FrTrans t 0 sz [] w (Pointers 0 0 0 0)).
Definition new_default (t : T) : M unit St := new_size t DEFAULT_BUFFER_SIZE.

#[export] Instance TFramedTransport_transport : TTransport St := {
  t_isOpen := isOpen;
  t_peek := peek;
  t_open := open_;
  t_close := close;
  t_read := read;
  t_readAll := BufferBase.readAll;
  t_readEnd := readEnd;
  t_write := write;
  t_writeEnd := writeEnd;
  t_flush := flush;
  t_borrow := borrow;
  t_consume := consume
}.
End Operations.

(** ** Frames and the representation invariant *)

(** A frame on the wire: its length in network byte order, then its payload. *)
Definition frame (b : list Z) : list Z := be_bytes 4 (zlen b) ++ b.
Definition frames (fs : list (list Z)) : list Z := concat (map frame fs).
#[global] Arguments frame : simpl never.

(** A payload [flush()] sends: not empty, and its size fits an [int32_t]. *)
Definition payload_ok (b : list Z) : Prop := 0 < zlen b < 2 ^ 31.

Lemma zlen_frame b : zlen (frame b) = 4 + zlen b.
Proof. unfold frame. rewrite zlen_app. f_equal. Qed.

Section Correctness.
Context `{Platform} {T : Type} `{TTransport T}.
Abbreviation St := (TFramedTransport T).
Implicit Types s : St.

Definition fr_inv (s : St) : Prop :=
  let p := fr_ptrs s in
  0 <= rBase_ p <= rBound_ p /\ rBound_ p <= zlen (rBuf_ s) /\
  zlen (rBuf_ s) = rBufSize_ s /\ rBufSize_ s < 2 ^ 31 /\
  4 <= wBase_ p <= wBound_ p /\ wBound_ p = wBufSize_ s /\
  zlen (wBuf_ s) = wBufSize_ s /\ wBufSize_ s < 2 ^ 32 /\ wBase_ p <= 0x7fffffff.

(** Read and not yet delivered; written since the last frame was sent. *)
Definition stash (s : St) : list Z :=
  zslice (rBase_ (fr_ptrs s)) (rBound_ (fr_ptrs s)) (rBuf_ s).
Definition body (s : St) : list Z := zslice 4 (wBase_ (fr_ptrs s)) (wBuf_ s).

Lemma zlen_stash_fr s : fr_inv s -> zlen (stash s) = rBound_ (fr_ptrs s) - rBase_ (fr_ptrs s).
Proof. intros (? & ? & ? & _). unfold stash. rewrite zlen_zslice; lia. Qed.

Lemma zlen_body s : fr_inv s -> zlen (body s) = wBase_ (fr_ptrs s) - 4.
Proof. intros (_ & _ & _ & _ & ? & ? & ? & _). unfold body. rewrite zlen_zslice; lia. Qed.

Definition advance (n : Z) (s : St) : St :=
  set_fr_ptrs (set_rBase (rBase_ (fr_ptrs s) + n) (fr_ptrs s)) s.

Lemma advance_inv_fr s n : fr_inv s -> 0 <= n <= zlen (stash s) -> fr_inv (advance n s).
Proof. intros Hi Hn. rewrite zlen_stash_fr in Hn by done. unfold fr_inv in *. cbn. lia. Qed.

Lemma stash_advance_fr s n :
  fr_inv s -> 0 <= n <= zlen (stash s) -> stash (advance n s) = zdrop n (stash s).
Proof.
  intros Hi Hn. rewrite zlen_stash_fr in Hn by done. destruct Hi as (? & _).
  unfold stash. cbn. by rewrite zslice_suffix by lia.
Qed.

(** ** Reading *)

Section Reading.
Context `{!Unbounded} `{!ReadLaws T} `{!EndLaws T}.

Definition fr_incoming (s : St) (bs : list Z) : Prop :=
  fr_inv s /\ exists fs, incoming (transport_ s) (frames fs) /\
    bs = stash s ++ concat fs /\ Forall payload_ok fs.

(** Reading the 4 bytes of a size, in as many pieces as they come. *)
Lemma header_ok s h rest :
  incoming (transport_ s) (h ++ rest) -> zlen h = 4 ->
  succeeds (iterate 5 header_body []) s (fun r s' =>
    r = Some h /\ incoming (transport_ s') rest /\ s' = set_transport (transport_ s') s).
Proof using All.
  intros Hin Hh.
  eapply (runs_iterate
    (fun szp s' => s' = set_transport (transport_ s') s /\
       exists l, h = szp ++ l /\ incoming (transport_ s') (l ++ rest))
    (fun szp => 4 - zlen szp)).
  - intros szp s1 (Hs1 & l & -> & Hin1). unfold header_body, under. zlist. bif.
    + wp. eapply runs_mono; [apply (read_prefix _ _ _ Hin1); lia| |done].
      cbn. intros got t (k & -> & Hin2 & Hk & Hpos). wp. zlist.
      rewrite ztake_app_le in * by lia. zlist. replace (_ =? 0) with false by lia. wp.
      zlist. split; [|lia]. split; [by rewrite Hs1|]. exists (zdrop k l). split.
      * by rewrite <- app_assoc, ztake_zdrop.
      * by rewrite zdrop_app_le in Hin2 by lia.
    + wp. assert (l = []) as -> by (apply zlen_0; lia). by rewrite app_nil_r.
  - split; [by destruct s|]. by exists h.
  - zlist.
Qed.

Lemma header_eof s :
  incoming (transport_ s) [] ->
  succeeds (iterate 5 header_body []) s (fun r s' =>
    r = None /\ incoming (transport_ s') [] /\ s' = set_transport (transport_ s') s).
Proof using All.
  intros Hin.
  eapply (runs_iterate
    (fun szp s' => szp = [] /\ s' = s) (fun szp => 0)); [|by split|lia].
  intros szp s1 (-> & ->). unfold header_body, under. rewrite zlen_nil. cbn. wp.
  eapply runs_mono; [apply (read_prefix _ _ _ Hin); lia| |done].
  cbn. intros got t (k & -> & Hin2 & Hk & _). zlist.
  replace (ztake k []) with (@nil Z) by (unfold ztake; by rewrite take_nil).
  cbn. replace (zdrop k []) with (@nil Z) in Hin2 by (unfold zdrop; by rewrite drop_nil).
  replace (_ =? 0) with true by lia. wp. by split_and!.
Qed.

Lemma size_roundtrip n : 0 <= n < 2 ^ 31 -> s32 (ntohl (load (be_bytes 4 n))) = n.
Proof using Type.
  intros. rewrite ntoh_load. change (256 ^ Z.of_nat 4) with (2 ^ 32).
  rewrite wraps_mod by lia. apply wraps_small; [lia|]. unfold in_s. lia.
Qed.

Lemma readFrame_frame s b rest :
  fr_inv s -> incoming (transport_ s) (frame b ++ rest) -> zlen b < 2 ^ 31 ->
  succeeds readFrame s (fun r s' =>
    r = true /\ fr_inv s' /\ stash s' = b /\ incoming (transport_ s') rest /\
    body s' = body s).
Proof using All.
  intros Hi Hin Hb. unfold frame in Hin. rewrite <- app_assoc in Hin.
  pose proof (zlen_nonneg b). unfold readFrame, under, modify_fr.
  wp_apply (header_ok s (be_bytes 4 (zlen b))); [done|reflexivity| |done].
  intros _ s1 (-> & Hin1 & Hs1). rewrite size_roundtrip by lia.
  replace (zlen b <? 0) with false by lia.
  assert (Hi1 : fr_inv s1) by (rewrite Hs1; exact Hi).
  assert (Hb1 : body s1 = body s) by (rewrite Hs1; done). clear Hs1.
  pose proof Hi1 as (? & ? & ? & ? & ? & ? & ? & ?).
  wp. eapply (runs_mono _ _ (fun _ s2 => exists buf n,
    s2 = set_rBuf buf n s1 /\ zlen buf = n /\ zlen b <= n < 2 ^ 31) _ (fun _ _ => False)); [| |done].
  - rewrite (wraps_small 32) by (unfold in_s; lia). bif; wp.
    + unfold new_bytes. rewrite always_alloc. wp.
      exists (zrep (zlen b) junk), (zlen b). split_and!; [done|zlist|lia|lia].
    + exists (rBuf_ s1), (rBufSize_ s1). split_and!; [by destruct s1|lia|lia|lia].
  - cbn. intros _ s2 (buf & n & -> & Hlen & Hn). wp. cbn.
    eapply runs_mono; [eapply (readAll_ok _ _ b rest); [done|done|lia]| |done].
    cbn. intros got t [-> Hin2]. wp. apply runs_store_mem; [lia|cbn; lia|]. wp.
    assert (Hst : zslice 0 (zlen b) (zsplice 0 b buf) = b).
    { apply (zslice_zsplice_at 0). lia. }
    split_and!; [done| |exact Hst|done|exact Hb1].
    unfold fr_inv in *. cbn. rewrite zlen_zsplice by lia. lia.
Qed.

Lemma readFrame_eof s :
  incoming (transport_ s) [] ->
  succeeds readFrame s (fun r s' =>
    r = false /\ s' = set_transport (transport_ s') s /\ incoming (transport_ s') []).
Proof using All.
  intros Hin. unfold readFrame. wp_apply header_eof; [done| |done].
  intros _ s1 (-> & Hin1 & Hs1). by wp.
Qed.

Lemma read_stream_fr : reads_prefix read fr_incoming.
Proof using All.
  intros s n bs (Hi & fs & Hin & -> & Hok) Hn.
  pose proof (zlen_stash_fr s Hi) as Hl. pose proof Hi as (? & ? & ? & ? & _).
  pose proof (zlen_nonneg (concat fs)).
  destruct (Z_le_gt_dec (rBase_ (fr_ptrs s) + n) (rBound_ (fr_ptrs s))) as [Hf|Hf].
  { apply runs_read_fast; cbn; [lia|lia|lia|lia|]. exists n.
    rewrite ztake_app_le, zdrop_app_le by lia. split_and!; [|split|lia|zlist|lia].
    - unfold stash. by rewrite zslice_prefix by lia.
    - apply (advance_inv_fr s n); [done|lia].
    - exists fs. split_and!; [done| |done]. by rewrite <- (stash_advance_fr s n) by (done || lia). }
  unfold read. wp. cbn. replace (_ <=? _) with false by lia.
  unfold readSlow, modify_fr. wp. unwrap. replace (_ <? n) with true by lia.
  unfold assert_. wp. bif.
  - wp. apply runs_load_mem; [lia|lia|lia|]. wp. exists (zlen (stash s)).
    rewrite ztake_app, zdrop_app by done. split_and!; [|split|lia|zlist|lia].
    + unfold stash. f_equal. lia.
    + unfold fr_inv in *. cbn. lia.
    + by exists fs.
  - assert (Hnil : stash s = []) by (apply zlen_0; lia). rewrite Hnil. cbn [app].
    destruct fs as [|b fs].
    + wp_apply readFrame_eof; [done| |done]. intros _ s1 (-> & Hs1 & Hin1). cbn [negb]. wp.
      exists 0. split_and!; [done| |lia|zlist|cbn; zlist]. cbn.
      split; [rewrite Hs1; exact Hi|]. exists []. split_and!; [done| |done].
      rewrite Hs1. change (stash _) with (stash s). by rewrite Hnil.
    + apply Forall_cons in Hok as [Hpay Hok]. unfold payload_ok in Hpay.
      wp_apply (readFrame_frame s b (frames fs)); [done|exact Hin|lia| |done].
      intros _ s1 (-> & Hi1 & Hs1 & Hin1 & _). cbn [negb]. wp.
      pose proof (zlen_stash_fr s1 Hi1) as Hl1. pose proof Hi1 as (? & ? & ? & ? & _).
      rewrite Hs1 in Hl1. unwrap. apply runs_load_mem; [lia|lia|lia|]. wp. cbn [concat].
      set (k := Z.min n (rBound_ (fr_ptrs s1) - rBase_ (fr_ptrs s1))).
      exists k. pose proof (zlen_nonneg (concat fs)).
      rewrite ztake_app_le, zdrop_app_le by lia. split_and!; [|split|lia|zlist|zlist].
      * rewrite <- Hs1. unfold stash. by rewrite zslice_prefix by lia.
      * apply (advance_inv_fr s1 k); [done|rewrite Hs1; lia].
      * exists fs. split_and!; [done| |done]. rewrite <- Hs1.
        by rewrite <- (stash_advance_fr s1 k) by (done || (rewrite Hs1; lia)).
Qed.

Lemma readAll_stream_fr s n bs rest :
  fr_incoming s (bs ++ rest) -> zlen bs = n -> n < 2 ^ 32 ->
  succeeds (BufferBase.readAll n) s (fun r s' => r = bs /\ fr_incoming s' rest).
Proof using All.
  intros Hin Hn Hmax. apply runs_readAll; cbn; intros Hb.
  - destruct Hin as (Hi & fs & Hin & Heq & Hok). pose proof Hi as (? & ? & ? & ? & _).
    pose proof (zlen_stash_fr s Hi). pose proof (zlen_nonneg bs).
    apply runs_read_fast; cbn; [lia|lia|lia|lia|].
    assert (Hbs : bs = ztake n (stash s)).
    { rewrite <- (ztake_app_le n (stash s) (concat fs)) by lia. rewrite <- Heq.
      by rewrite ztake_app. }
    split; [|split].
    + rewrite Hbs. unfold stash. by rewrite zslice_prefix by lia.
    + apply (advance_inv_fr s n); [done|lia].
    + exists fs. split_and!; [done| |done]. change (stash _) with (stash (advance n s)).
      rewrite (stash_advance_fr s n) by (done || lia).
      rewrite <- zdrop_app_le by lia. rewrite <- Heq. by rewrite zdrop_app.
  - by apply (readAll_stream _ _ _ _ _ _ (reads_prefix_some _ _ read_stream_fr)).
Qed.

Lemma readAll_stream_fr_eof s n bs :
  fr_incoming s bs -> zlen bs < n -> n < 2 ^ 32 ->
  raises (BufferBase.readAll n) s
    (fun e _ => e = ETransport END_OF_FILE "No more data to read.").
Proof using All.
  intros Hin Hn Hmax. apply runs_readAll; cbn; intros Hb.
  - destruct Hin as (Hi & fs & Hin & -> & _). pose proof (zlen_stash_fr s Hi).
    pose proof Hi as (? & ? & ? & ? & _). zlist.
  - eapply runs_mono; [by apply (readAll_stream_eof _ _ s n bs read_stream_fr)|done|].
    cbn. tauto.
Qed.

(** A size field cut short by the end of the stream is an error, not EOF. *)
Lemma readFrame_partial_header s h :
  incoming (transport_ s) h -> 0 < zlen h < 4 ->
  raises readFrame s (fun e _ =>
    e = ETransport END_OF_FILE "No more data to read after partial frame header.").
Proof using All.
  intros Hin Hh. unfold readFrame. wp.
  eapply (runs_iterate
    (fun szp s' => s' = set_transport (transport_ s') s /\
       exists l, h = szp ++ l /\ incoming (transport_ s') l)
    (fun szp => 4 - zlen szp)); [| |zlist].
  2: { split; [by destruct s|]. by exists h. }
  intros szp s1 (Hs1 & l & -> & Hin1). unfold header_body, under. zlist.
  replace (_ <? 4) with true by lia. wp.
  eapply runs_mono; [apply (read_prefix _ _ _ Hin1); lia| |done].
  cbn. intros got t (k & -> & Hin2 & Hk & Hpos). wp. zlist. bif.
  + replace (zlen szp =? 0) with false by lia. by wp.
  + wp. zlist. split; [|lia]. split; [by rewrite Hs1|]. exists (zdrop k l).
    by rewrite <- app_assoc, ztake_zdrop.
Qed.

(** A size with its top bit set is refused before anything else is read. *)
Lemma readFrame_negative s n rest :
  incoming (transport_ s) (be_bytes 4 n ++ rest) -> 2 ^ 31 <= n < 2 ^ 32 ->
  raises readFrame s (fun e s' =>
    e = ETransport TTransportException.UNKNOWN "Frame size has negative value" /\
    incoming (transport_ s') rest).
Proof using All.
  intros Hin Hn. unfold readFrame.
  wp_apply (header_ok s (be_bytes 4 n)); [done|reflexivity| |done].
  intros _ s1 (-> & Hin1 & _). rewrite ntoh_load. change (256 ^ Z.of_nat 4) with (2 ^ 32).
  rewrite wraps_mod by lia.
  replace (s32 n <? 0) with true; [by wp|].
  symmetry. apply Z.ltb_lt. unfold wraps. zconst.
  replace (n + 2147483648) with (n - 2147483648 + 1 * 4294967296) by lia.
  rewrite Z_mod_plus_full, Z.mod_small; lia.
Qed.

(** A frame longer than what is left of the stream. *)
Lemma readFrame_truncated s n rest :
  fr_inv s -> incoming (transport_ s) (be_bytes 4 n ++ rest) -> zlen rest < n < 2 ^ 31 ->
  raises readFrame s (fun e _ => stream_end e).
Proof using All.
  intros Hi Hin Hn. pose proof (zlen_nonneg rest). unfold readFrame, under.
  wp_apply (header_ok s (be_bytes 4 n)); [done|reflexivity| |done].
  intros _ s1 (-> & Hin1 & Hs1). rewrite size_roundtrip by lia.
  replace (n <? 0) with false by lia. wp.
  eapply (runs_mono _ _ (fun _ s2 => incoming (transport_ s2) rest) _ (fun _ _ => False)); [| |done].
  - bif; wp; [|done]. unfold new_bytes. rewrite always_alloc. by wp.
  - cbn. intros _ s2 Hin2. wp. eapply runs_mono; [by apply (readAll_eof _ n rest Hin2); lia|done|done].
Qed.

(** What [readFrame] makes of a stream. *)
Inductive frame_result :=
| FrameNone                          (** the stream is over *)
| FramePartial                       (** it ends inside the size *)
| FrameNegative (rest : list Z)      (** the size has its top bit set *)
| FrameTruncated                     (** it ends inside the payload *)
| FrameGood (b rest : list Z).

Definition parse_frame (bs : list Z) : frame_result :=
  if zlen bs =? 0 then FrameNone
  else if zlen bs <? 4 then FramePartial
  else let n := of_be (ztake 4 bs) in
       let rest := zdrop 4 bs in
       if 2 ^ 31 <=? n then FrameNegative rest
       else if zlen rest <? n then FrameTruncated
       else FrameGood (ztake n rest) (zdrop n rest).

Lemma readFrame_parse s bs :
  fr_inv s -> bytes_ok bs -> incoming (transport_ s) bs ->
  runs readFrame s
    (fun r s' => match parse_frame bs with
       | FrameNone => r = false /\ incoming (transport_ s') [] /\ stash s' = stash s
       | FrameGood b rest => r = true /\ fr_inv s' /\ stash s' = b /\ incoming (transport_ s') rest
       | _ => False
       end)
    (fun e s' => match parse_frame bs with
       | FramePartial =>
           e = ETransport END_OF_FILE "No more data to read after partial frame header."
       | FrameNegative rest =>
           e = ETransport TTransportException.UNKNOWN "Frame size has negative value" /\
           incoming (transport_ s') rest
       | FrameTruncated => stream_end e
       | _ => False
       end).
Proof using All.
  intros Hi Hbs Hin. pose proof (zlen_nonneg bs). unfold parse_frame.
  bcase (zlen bs =? 0).
  { assert (bs = []) as -> by (by apply zlen_0). eapply runs_mono; [by apply readFrame_eof| |done].
    cbn. intros r s' (-> & -> & Hin'). done. }
  bcase (zlen bs <? 4).
  { eapply runs_mono; [by apply (readFrame_partial_header s bs); [|lia]|done|done]. }
  rewrite <- (ztake_zdrop 4 bs) in Hin.
  assert (Hh : be_bytes 4 (of_be (ztake 4 bs)) = ztake 4 bs).
  { apply be_bytes_of_be; [by apply Forall_take|]. unfold ztake. rewrite length_take.
    unfold zlen in *. lia. }
  assert (0 <= of_be (ztake 4 bs) < 2 ^ 32) as Hr.
  { rewrite <- Hh, of_be_bytes. change (256 ^ Z.of_nat 4) with (2 ^ 32). apply Z.mod_pos_bound. lia. }
  set (n := of_be (ztake 4 bs)) in *. rewrite <- Hh in Hin. pose proof (zlen_nonneg (zdrop 4 bs)).
  bcase (2 ^ 31 <=? n).
  { eapply runs_mono; [apply (readFrame_negative s n _ Hin); lia|done|done]. }
  bcase (zlen (zdrop 4 bs) <? n).
  { eapply runs_mono; [apply (readFrame_truncated s n _ Hi Hin); lia|done|done]. }
  assert (zlen (ztake n (zdrop 4 bs)) = n) as Hn by (rewrite zlen_ztake; lia).
  eapply runs_mono; [apply (readFrame_frame s (ztake n (zdrop 4 bs)) (zdrop n (zdrop 4 bs)) Hi)| |done].
  - unfold frame. rewrite Hn, <- app_assoc, ztake_zdrop. exact Hin.
  - lia.
  - cbn. intros r s' (-> & ? & ? & ? & _). done.
Qed.
End Reading.

(** ** Writing *)

Section Writing.
Context `{!Unbounded}.

(** [b] has been written to the current frame, and [room] more will fit. *)
Definition fr_outgoing (s : St) (b : list Z) (room : Z) : Prop :=
  fr_inv s /\ body s = b /\ 0 <= room /\ wBase_ (fr_ptrs s) + room <= 0x7fffffff.

Definition fr_measure (ns : Z) : Z := if ns =? 0 then 33 else 32 - Z.log2 ns.

Lemma grow_spec_fr want wsz s :
  0 <= wsz < 2 ^ 32 -> 0 < want <= 0x7fffffff ->
  succeeds (iterate 100 (grow_body want) wsz) s (fun n s' =>
    s' = s /\ want <= n < 2 ^ 32 /\ wsz <= n).
Proof using Type.
  intros Hwsz Hwant. change (2 ^ 32) with 4294967296 in *.
  apply (runs_iterate (fun ns s' => s' = s /\ wsz <= ns < 4294967296) fr_measure).
  - intros ns s1 (-> & Hns). unfold grow_body. bif; wp; [|split_and!; try done; lia].
    bif; unfold fr_measure.
    + unwrap.
      assert (Z.log2 ns <= 30).
      { transitivity (Z.log2 2147483647); [apply Z.log2_le_mono; lia|reflexivity]. }
      rewrite Z.mul_comm, Z.log2_double by lia.
      replace (2 * ns =? 0) with false by lia. replace (ns =? 0) with false by lia.
      split; [split_and!; try done; lia|lia].
    + assert (ns = 0) as -> by lia. cbn. split; [split_and!; try done; lia|lia].
  - split_and!; try done; lia.
  - unfold fr_measure. bif; [lia|]. pose proof (Z.log2_nonneg wsz).
    assert (Z.log2 wsz <= 31); [|lia].
    transitivity (Z.log2 4294967295); [apply Z.log2_le_mono; lia|reflexivity].
Qed.

Lemma write_appends_fr s b room d :
  fr_outgoing s b room -> zlen d <= room -> zlen d < 2 ^ 32 ->
  succeeds (write d) s (fun _ s' => fr_outgoing s' (b ++ d) (room - zlen d)).
Proof using All.
  intros (Hi & <- & Hroom & Hcap) Hd Hmax. pose proof (zlen_nonneg d).
  pose proof Hi as (? & ? & ? & ? & ? & ? & ? & ? & ?).
  assert (Hbody : forall mem, zlen mem >= wBase_ (fr_ptrs s) + zlen d ->
    zslice 0 (wBase_ (fr_ptrs s)) mem = zslice 0 (wBase_ (fr_ptrs s)) (wBuf_ s) ->
    zslice 4 (wBase_ (fr_ptrs s) + zlen d) (zsplice (wBase_ (fr_ptrs s)) d mem)
    = body s ++ d).
  { intros mem Hmem Heq. rewrite (zslice_split 4 (wBase_ (fr_ptrs s))) by lia.
    rewrite zslice_zsplice_before by lia. f_equal; [|apply zslice_zsplice_at; lia].
    unfold body. replace 4 with (0 + 4) by done.
    rewrite <- !(zslice_suffix 0 (wBase_ (fr_ptrs s)) 4) by lia. by rewrite Heq. }
  destruct (Z_le_gt_dec (wBase_ (fr_ptrs s) + zlen d) (wBound_ (fr_ptrs s))) as [Hf|Hf].
  { apply runs_write_fast; cbn; [lia|lia|lia|]. split_and!; cbn; [|apply Hbody; [lia|done]|lia|lia].
    unfold fr_inv in *. cbn. rewrite zlen_zsplice by lia. lia. }
  unfold write. wp. cbn. replace (_ <=? _) with false by lia.
  unfold writeSlow, modify_fr. wp. unwrap.
  replace (_ || _)%bool with false by (symmetry; rewrite orb_false_iff; lia).
  wp. eapply runs_mono; [apply grow_spec_fr; lia| |done].
  cbn. intros n s1 (-> & Hn & Hge). unfold new_bytes. rewrite always_alloc. wp.
  apply runs_load_mem; [lia|lia|lia|]. wp.
  set (old := zslice 0 (0 + wBase_ (fr_ptrs s)) (wBuf_ s)).
  assert (Hold : zlen old = wBase_ (fr_ptrs s)).
  { unfold old. rewrite zlen_zslice; lia. }
  apply runs_store_mem; [lia|zlist|]. wp. cbn.
  assert (Hnew : zlen (zsplice 0 old (zrep n junk)) = n) by (rewrite zlen_zsplice; zlist).
  apply runs_store_mem; [lia|lia|]. wp. split_and!; cbn; [| |lia|lia].
  - unfold fr_inv in *. cbn. rewrite zlen_zsplice by lia. lia.
  - apply Hbody; [lia|]. rewrite <- Hold at 1. apply (zslice_zsplice_at 0). zlist.
Qed.

(** Past 2 GiB the write is refused and the frame stays as it was. *)
Lemma write_too_big s d :
  fr_inv s -> zlen d < 2 ^ 32 -> 0x7fffffff < wBase_ (fr_ptrs s) + zlen d ->
  wBound_ (fr_ptrs s) < wBase_ (fr_ptrs s) + zlen d ->
  write d s = (Throw (ETransport BAD_ARGS
                 "Attempted to write over 2 GB to TFramedTransport."), s).
Proof using Type.
  intros Hi Hd Hbig Hbound. pose proof Hi as (? & ? & ? & ? & ? & ? & ? & ? & ?).
  pose proof (zlen_nonneg d). unfold write, bind, gets. cbn.
  replace (_ <=? _) with false by lia. unfold writeSlow, bind, gets.
  rewrite (wrapu_small 32 (wBase_ _)) by (unfold in_u; lia).
  assert (Hor : u32 (zlen d + wBase_ (fr_ptrs s)) < wBase_ (fr_ptrs s) \/
                0x7fffffff < u32 (zlen d + wBase_ (fr_ptrs s))).
  { unfold wrapu. zconst.
    destruct (Z_lt_le_dec (zlen d + wBase_ (fr_ptrs s)) 4294967296).
    - rewrite Z.mod_small by lia. lia.
    - replace (zlen d + _) with (zlen d + wBase_ (fr_ptrs s) - 4294967296 + 1 * 4294967296) by lia.
      rewrite Z_mod_plus_full, Z.mod_small by lia. lia. }
  replace (_ || _)%bool with true; [done|].
  symmetry. rewrite orb_true_iff, !Z.ltb_lt. lia.
Qed.
End Writing.

(** ** Sending a frame *)

Section Sending.
Context `{!WriteLaws T} `{!FlushLaws T}.

Lemma flush_sends s b out room :
  fr_inv s -> body s = b -> 0 < zlen b ->
  outgoing (transport_ s) out room -> zlen (frame b) <= room ->
  succeeds flush s (fun _ s' =>
    fr_inv s' /\ body s' = [] /\ outgoing (transport_ s') (out ++ frame b) (room - zlen (frame b))).
Proof using All.
  intros Hi <- Hpos Hout Hroom. rewrite zlen_frame in *.
  pose proof Hi as (? & ? & ? & ? & ? & ? & ? & ? & ?). pose proof (zlen_body s Hi) as Hb.
  unfold flush, under, modify_fr. wp. replace (4 <? _) with true by lia.
  unfold assert_. wp. unwrap. rewrite store_hton.
  assert (Hlen : zlen (be_bytes 4 (wBase_ (fr_ptrs s) - 4)) = 4) by reflexivity.
  remember (be_bytes 4 (wBase_ (fr_ptrs s) - 4)) as hdr eqn:Hhdr.
  apply runs_store_mem; [lia|lia|]. wp. replace (0 <? _) with true by lia. wp. unwrap.
  apply runs_load_mem; [lia|lia|rewrite zlen_zsplice by lia; lia|]. wp. cbn.
  match goal with |- context [t_write ?x] => replace x with (frame (body s)) end.
  2: { rewrite (zslice_split 0 4) by lia. unfold frame. rewrite Hb, <- Hhdr. f_equal.
       - symmetry. rewrite <- Hlen at 1. apply (zslice_zsplice_at 0). lia.
       - unfold body. symmetry. rewrite zslice_zsplice_after by lia. f_equal. lia. }
  eapply runs_mono; [eapply write_ok; [done|rewrite zlen_frame; lia|rewrite zlen_frame; lia]| |done].
  cbn. intros _ t Ht. wp. eapply runs_mono; [by apply flush_ok| |done].
  cbn. intros _ t' Ht'. rewrite zlen_frame in Ht'. split_and!; [|done|exact Ht'].
  unfold fr_inv in *. cbn. rewrite zlen_zsplice by lia. lia.
Qed.

(** With nothing written no frame is sent, only the flush passed on. *)
Lemma flush_empty s out room :
  fr_inv s -> body s = [] -> 4 < wBufSize_ s -> outgoing (transport_ s) out room ->
  succeeds flush s (fun _ s' =>
    fr_inv s' /\ body s' = [] /\ outgoing (transport_ s') out room).
Proof using All.
  intros Hi Hnil Hsz Hout. pose proof Hi as (? & ? & ? & ? & ? & ? & ? & ? & ?).
  pose proof (zlen_body s Hi) as Hb. rewrite Hnil, zlen_nil in Hb.
  unfold flush, under, modify_fr. wp. replace (4 <? _) with true by lia.
  unfold assert_. wp. unwrap. rewrite store_hton.
  assert (Hlen : zlen (be_bytes 4 (wBase_ (fr_ptrs s) - 4)) = 4) by reflexivity.
  apply runs_store_mem; [lia|lia|]. wp. replace (0 <? _) with false by lia. wp.
  eapply runs_mono; [by apply flush_ok| |done]. cbn. intros _ t Ht. split_and!; [| |done].
  - unfold fr_inv in *. cbn. rewrite zlen_zsplice by lia. lia.
  - unfold body. cbn. by rewrite zslice_empty by lia.
Qed.
End Sending.

(** ** A whole message *)

Definition same_transport (s s' : St) : Prop := transport_ s' = transport_ s.

#[export] Instance same_transport_preorder : PreOrder same_transport.
Proof. split; [by intros s|]. intros s1 s2 s3 ? ?. unfold same_transport in *. congruence. Qed.

Lemma keeps_set_rest f : (forall s, transport_ (f s) = transport_ s) -> keeps same_transport (modify f).
Proof. intros Hf. by apply keeps_modify. Qed.

Lemma keeps_store (mem : list Z) o d : keeps same_transport (store_mem mem o d).
Proof. unfold store_mem. auto with keeps typeclass_instances. Qed.

Lemma keeps_fetch (mem : list Z) o n : keeps same_transport (load_mem mem o n).
Proof. unfold load_mem. auto with keeps typeclass_instances. Qed.

Hint Resolve keeps_set_rest keeps_store keeps_fetch : keeps.
Hint Extern 1 (forall s, transport_ _ = transport_ s) => intros; reflexivity : keeps.

(** A write only fills the buffer. *)
Lemma keeps_write d : keeps same_transport (write d).
Proof.
  unfold write, modify_ptrs. apply keeps_bind; [apply _|auto with keeps typeclass_instances|intros p].
  apply keeps_bind; [apply _|auto with keeps typeclass_instances|intros mem]. case_match.
  - auto 10 with keeps typeclass_instances.
  - cbn. unfold writeSlow, modify_fr. apply keeps_bind; [apply _|auto with keeps typeclass_instances|intros p'].
    case_match; [auto with keeps typeclass_instances|].
    apply keeps_bind; [apply _|auto with keeps typeclass_instances|intros wsz].
    apply keeps_bind; [apply _|apply keeps_iterate; [apply _|]; intros ns; unfold grow_body;
      case_match; auto with keeps typeclass_instances|intros ns].
    apply keeps_bind; [apply _|unfold new_bytes; case_match; auto with keeps typeclass_instances|intros nb].
    auto 20 with keeps typeclass_instances.
Qed.

Lemma keeps_write_all ds : keeps same_transport (write_all (T := St) ds).
Proof.
  induction ds as [|d ds IH]; cbn; [auto with keeps typeclass_instances|].
  apply keeps_bind; [apply _|apply keeps_write|]. done.
Qed.

(** ** Construction *)

Lemma new_size_spec_fr `{!Unbounded} t sz u :
  4 <= sz < 2 ^ 31 ->
  succeeds (new_size t sz) u (fun s _ =>
    fr_inv s /\ transport_ s = t /\ stash s = [] /\ body s = [] /\ wBufSize_ s = sz).
Proof.
  intros Hsz. unfold new_size, new_bytes. rewrite always_alloc. wp. apply runs_on_new.
  unfold initPointers, modify_fr. wp.
  assert (zlen (store 4 0) = 4) as Hl by (unfold zlen; by rewrite length_store).
  apply runs_write_fast; rewrite ?Hl; cbn; [lia|lia|zlist|].
  split_and!; try done. unfold fr_inv. cbn. rewrite zlen_zsplice by (rewrite ?Hl; zlist).
  zlist.
Qed.
End Correctness.

(** ** The byte-stream contract *)

#[export] Instance TFramedTransport_reads `{Platform} `{!Unbounded} `{EndLaws T} :
  ReadLaws (TFramedTransport T).
Proof.
  refine {|
    incoming := fr_incoming;
    lent s bs m := fr_incoming s bs /\ m = zlen (stash s);
    stream_end := no_more
  |}.
  - tauto.
  - apply reads_prefix_some, read_stream_fr.
  - intros s n bs rest. apply readAll_stream_fr.
  - intros s n bs. apply readAll_stream_fr_eof.
  - intros s n bs Hin Hn. pose proof Hin as (Hi & fs & Hu & -> & Hok).
    pose proof (zlen_stash_fr s Hi). pose proof Hi as (? & ? & ? & _).
    destruct (Z_le_gt_dec n (zlen (stash s))).
    + apply runs_borrow_fast; cbn; [lia|lia|lia|].
      change (zslice _ _ _) with (stash s). rewrite ztake_app by done. by split_and!.
    + cbn. unfold borrow. wp. cbn. replace (_ <=? _) with false by lia. done.
  - intros s n bs m [Hin ->] Hn. pose proof Hin as (Hi & fs & Hu & -> & Hok).
    pose proof (zlen_stash_fr s Hi). apply runs_consume; cbn; [lia|].
    split; [by apply (advance_inv_fr s n)|]. exists fs. split_and!; [done| |done].
    rewrite zdrop_app_le by lia. by rewrite <- (stash_advance_fr s n).
Defined.

#[export] Instance TFramedTransport_end `{Platform} `{!Unbounded} `{EndLaws T} : EndLaws (TFramedTransport T).
Proof. apply reads_prefix_end, read_stream_fr. Qed.

#[export] Instance TFramedTransport_writes `{Platform} `{!Unbounded} `{TTransport T} :
  WriteLaws (TFramedTransport T).
Proof. refine {| outgoing := fr_outgoing |}. intros s out room d. apply write_appends_fr. Defined.

(** ** Sending messages *)

Section Messages.
Context `{Platform} `{!Unbounded} {T : Type} `{FlushLaws T}.

(** A message, in chunks, then [flush]: one frame goes down. *)
Lemma send_message (s : TFramedTransport T) ds out room :
  fr_inv s -> body s = [] -> outgoing (transport_ s) out room ->
  0 < zlen (concat ds) <= 0x7ffffffb -> zlen (frame (concat ds)) <= room ->
  succeeds (send ds) s (fun _ s' => fr_inv s' /\ body s' = [] /\
    outgoing (transport_ s') (out ++ frame (concat ds)) (room - zlen (frame (concat ds)))).
Proof using All.
  intros Hi Hb Hout Hlen Hroom. pose proof (zlen_body s Hi) as Hw. rewrite Hb in Hw.
  change (zlen []) with 0 in Hw.
  assert (fr_outgoing s [] (zlen (concat ds))) as Hs by (split_and!; try done; lia).
  assert (Forall (fun d => zlen d < 2 ^ 32) ds) as Hds.
  { clear -Hlen. destruct Hlen as [_ Hlen]. induction ds as [|d ds IH]; constructor; cbn in Hlen;
      rewrite zlen_app in Hlen; pose proof (zlen_nonneg d); pose proof (zlen_nonneg (concat ds));
      [lia|apply IH; lia]. }
  pose proof (write_all_ok (WriteLaws0 := TFramedTransport_writes) s [] _ ds Hs Hds
    ltac:(lia)) as Hwr.
  unfold send. wp. eapply runs_mono; [apply (runs_keeps same_transport _ s _ _ (keeps_write_all ds) Hwr)| |by intros ? ? []].
  cbn. intros _ s1 [(Hi1 & Hb1 & _) Ht1]. unfold same_transport in Ht1.
  eapply runs_mono; [apply (flush_sends s1 (concat ds)); [done|done|lia|by rewrite Ht1|done]|done|done].
Qed.
End Messages.
