(* ===== verification/PipedTransport.v ===== *)
(** * Transports of transport/TTransportUtils.h and .cpp

    [TNullTransport], which takes everything and gives nothing;
    [TPipedTransport], which reads ahead from a source into a buffer of its own,
    collects writes in another, and copies a request to a second transport when
    [readEnd()] is called and a reply when [writeEnd()] is; and the file reader's
    variant of it.  The source and the destination are two objects.  What was
    delivered since the last [readEnd()] is still in the buffer, where that finds it. *)

From S2P Require Export Transport Memory.

(** ** [TNullTransport] *)

Module TNullTransport.
Definition isOpen : M unit bool := ret true.
Definition open_ : M unit unit := ret tt.
Definition write (d : list Z) : M unit unit := ret tt.

#[export] Instance transport : TTransport unit := {
  t_isOpen := isOpen;
  t_peek := BaseTransport.peek isOpen;
  t_open := open_;
  t_close := BaseTransport.close;
  t_read := BaseTransport.read_virt;
  t_readAll := BaseTransport.readAll_virt BaseTransport.read_virt;
  t_readEnd := BaseTransport.readEnd;
  t_write := write;
  t_writeEnd := BaseTransport.writeEnd;
  t_flush := BaseTransport.flush;
  t_borrow := BaseTransport.borrow_virt;
  t_consume := BaseTransport.consume_virt
}.
End TNullTransport.

(** ** [TPipedTransport] *)

(** A flag is [None] when no constructor or setter has stored into it. *)
Record TPipedTransport (T D : Type) := Piped {
  srcTrans_ : T;
  dstTrans_ : D;
  rBuf_ : list Z;
  rBufSize_ : Z;
  rPos_ : Z;
  rLen_ : Z;
  wBuf_ : list Z;
  wBufSize_ : Z;
  wLen_ : Z;
  pipeOnRead_ : option bool;
  pipeOnWrite_ : option bool
}.
Arguments Piped {T D}.
Arguments srcTrans_ {T D}.
Arguments dstTrans_ {T D}.
Arguments rBuf_ {T D}.
Arguments rBufSize_ {T D}.
Arguments rPos_ {T D}.
Arguments rLen_ {T D}.
Arguments wBuf_ {T D}.
Arguments wBufSize_ {T D}.
Arguments wLen_ {T D}.
Arguments pipeOnRead_ {T D}.
Arguments pipeOnWrite_ {T D}.

Section Operations.
Context `{Platform} {T D : Type} `{TTransport T} `{TTransport D}.
Abbreviation St := (TPipedTransport T D).

Definition set_src (t : T) (s : St) : St :=
  Piped t (dstTrans_ s) (rBuf_ s) (rBufSize_ s) (rPos_ s) (rLen_ s)
    (wBuf_ s) (wBufSize_ s) (wLen_ s) (pipeOnRead_ s) (pipeOnWrite_ s).
Definition set_dst (d : D) (s : St) : St :=
  Piped (srcTrans_ s) d (rBuf_ s) (rBufSize_ s) (rPos_ s) (rLen_ s)
    (wBuf_ s) (wBufSize_ s) (wLen_ s) (pipeOnRead_ s) (pipeOnWrite_ s).
Definition set_rBuf (b : list Z) (sz : Z) (s : St) : St :=
  Piped (srcTrans_ s) (dstTrans_ s) b sz (rPos_ s) (rLen_ s)
    (wBuf_ s) (wBufSize_ s) (wLen_ s) (pipeOnRead_ s) (pipeOnWrite_ s).
Definition set_read (pos len : Z) (s : St) : St :=
  Piped (srcTrans_ s) (dstTrans_ s) (rBuf_ s) (rBufSize_ s) pos len
    (wBuf_ s) (wBufSize_ s) (wLen_ s) (pipeOnRead_ s) (pipeOnWrite_ s).
Definition set_wBuf (b : list Z) (sz len : Z) (s : St) : St :=
  Piped (srcTrans_ s) (dstTrans_ s) (rBuf_ s) (rBufSize_ s) (rPos_ s) (rLen_ s)
    b sz len (pipeOnRead_ s) (pipeOnWrite_ s).
Definition set_pipes (r w : option bool) (s : St) : St :=
  Piped (srcTrans_ s) (dstTrans_ s) (rBuf_ s) (rBufSize_ s) (rPos_ s) (rLen_ s)
    (wBuf_ s) (wBufSize_ s) (wLen_ s) r w.

Definition on_src {A} (m : M T A) : M St A := lift srcTrans_ set_src m.
Definition on_dst {A} (m : M D A) : M St A := lift dstTrans_ set_dst m.

(** [std::realloc] whose result is not tested: the code next uses the pointer at
    an offset. *)
Definition realloc_unchecked (old : list Z) (n : Z) : M St (list Z) :=
  do! require (can_alloc n) in
  ret (ztake n old ++ zrep (n - zlen old) junk).

Definition initialised (flag : option bool) : M St bool :=
  match flag with Some b => ret b | None => crash_ UndefinedBehaviour end.

(** Doubling a full buffer, and one call of the source's [read]. *)
Definition fill : M St unit :=
  let! s := get in
  do! (if rLen_ s =? rBufSize_ s then
         let n := u32 (rBufSize_ s * 2) in
         let! b := realloc_unchecked (rBuf_ s) n in
         modify (set_rBuf b n)
       else ret tt) in
  let! s := get in
  let! got := on_src (t_read (u32 (rBufSize_ s - rPos_ s))) in
  let! b := store_mem (rBuf_ s) (rPos_ s) got in
  do! modify (set_rBuf b (rBufSize_ s)) in
  modify (fun s => set_read (rPos_ s) (u32 (rLen_ s + zlen got)) s).

(** [buf] holds what has been copied out; [need] is [len - zlen buf]. *)
Definition read (len : Z) : M St (list Z) :=
  let! s := get in
  let have := u32 (rLen_ s - rPos_ s) in
  let! buf := (if have <? len then
                 let! d := (if 0 <? have then
                              let! d := load_mem (rBuf_ s) (rPos_ s) have in
                              do! modify (set_read (rLen_ s) (rLen_ s)) in
                              ret d
                            else ret []) in
                 do! fill in
                 ret d
               else ret []) in
  let need := len - zlen buf in
  let! s := get in
  let avail := u32 (rLen_ s - rPos_ s) in
  let give := if avail <? need then avail else need in
  if 0 <? give then
    let! d := load_mem (rBuf_ s) (rPos_ s) give in
    do! modify (set_read (u32 (rPos_ s + give)) (rLen_ s)) in
    ret (buf ++ d)
  else ret buf.

Definition peek : M St bool :=
  let! s := get in
  do! (if rLen_ s <=? rPos_ s then fill else ret tt) in
  gets (fun s => rPos_ s <? rLen_ s).

Definition readEnd : M St Z :=
  let! flag := gets pipeOnRead_ in
  let! pipe := initialised flag in
  do! (if pipe then
         let! s := get in
         let! d := load_mem (rBuf_ s) 0 (rPos_ s) in
         do! on_dst (t_write d) in
         on_dst t_flush
       else ret tt) in
  do! on_src t_readEnd in
  let! s := get in
  let read_ahead := s32 (u32 (rLen_ s - rPos_ s)) in
  let bytes := rPos_ s in
  (* memcpy of overlapping regions is undefined *)
  do! require ((read_ahead =? 0) || (read_ahead <=? rPos_ s))%bool in
  let! d := load_mem (rBuf_ s) (rPos_ s) read_ahead in
  let! b := store_mem (rBuf_ s) 0 d in
  do! modify (set_rBuf b (rBufSize_ s)) in
  do! modify (set_read 0 (u32 read_ahead)) in
  ret bytes.

(** One round of [while ((len + wLen_) >= newBufSize)]. *)
Definition write_grow (want newBufSize : Z) : M St (Z + Z) :=
  if newBufSize <=? want then ret (inl (u32 (newBufSize * 2))) else ret (inr newBufSize).

Definition write (buf : list Z) : M St unit :=
  if zlen buf =? 0 then ret tt else
  let! s := get in
  let want := u32 (zlen buf + wLen_ s) in
  do! (if wBufSize_ s <=? want then
         let! newBufSize := iterate 100 (write_grow want) (u32 (wBufSize_ s * 2)) in
         let! b := realloc_unchecked (wBuf_ s) newBufSize in
         modify (set_wBuf b newBufSize (wLen_ s))
       else ret tt) in
  let! s := get in
  let! b := store_mem (wBuf_ s) (wLen_ s) buf in
  modify (set_wBuf b (wBufSize_ s) (u32 (wLen_ s + zlen buf))).

Definition writeEnd : M St Z :=
  let! flag := gets pipeOnWrite_ in
  let! pipe := initialised flag in
  do! (if pipe then
         let! s := get in
         let! d := load_mem (wBuf_ s) 0 (wLen_ s) in
         do! on_dst (t_write d) in
         on_dst t_flush
       else ret tt) in
  gets wLen_.

Definition flush : M St unit :=
  let! s := get in
  do! (if 0 <? wLen_ s then
         let! d := load_mem (wBuf_ s) 0 (wLen_ s) in
         do! on_src (t_write d) in
         modify (fun s => set_wBuf (wBuf_ s) (wBufSize_ s) 0 s)
       else ret tt) in
  on_src t_flush.

Definition isOpen : M St bool := on_src t_isOpen.
Definition open_ : M St unit := on_src t_open.
Definition close : M St unit := on_src t_close.
Definition setPipeOnRead (pipeVal : bool) : M St unit :=
  modify (fun s => set_pipes (Some pipeVal) (pipeOnWrite_ s) s).
Definition setPipeOnWrite (pipeVal : bool) : M St unit :=
  modify (fun s => set_pipes (pipeOnRead_ s) (Some pipeVal) s).

(** The constructors; the one given a size leaves the flags as they are. *)
Definition new_piped (srcTrans : T) (dstTrans : D) : M unit St :=
  let! r := new_bytes 512 in
  let! w := new_bytes 512 in
  ret (Piped srcTrans dstTrans r 512 0 0 w 512 0 (Some true) (Some false)).
Definition new_piped_size (srcTrans : T) (dstTrans : D) (sz : Z) : M unit St :=
  let! r := new_bytes 512 in
  let! w := new_bytes sz in
  ret (Piped srcTrans dstTrans r 512 0 0 w sz 0 None None).

#[export] Instance TPipedTransport_transport : TTransport St := {
  t_isOpen := isOpen;
  t_peek := peek;
  t_open := open_;
  t_close := close;
  t_read := read;
  t_readAll := Transport.readAll read;
  t_readEnd := readEnd;
  t_write := write;
  t_writeEnd := writeEnd;
  t_flush := flush;
  t_borrow := BaseTransport.borrow_virt;
  t_consume := BaseTransport.consume_virt
}.
End Operations.

(** ** The factory's target and the file reader's variant *)

(** [TPipedTransportFactory]: [dstTrans_] is set once. *)
Definition initializeTargetTransport {D} (dstTrans : D) : M (option D) unit :=
  let! d := get in
  match d with
  | None => modify (fun _ => Some dstTrans)
  | Some _ => throw (EThrift "Target transport already initialized")
  end.

(** The pure virtual members of [TFileReaderTransport] (transport/TFileTransport.h). *)
Class TFileReaderTransport (T : Type) `{TTransport T} := {
  f_getReadTimeout : M T Z;
  f_setReadTimeout : Z -> M T unit;
  f_getNumChunks : M T Z;
  f_getCurChunk : M T Z;
  f_seekToChunk : Z -> M T unit;
  f_seekToEnd : M T unit
}.

(** [TEOFException]: a [TTransportException] of type END_OF_FILE without message. *)
Definition TEOFException : exn := ETransport END_OF_FILE "".

Module TPipedFileReaderTransport.
Section Operations.
Context `{Platform} {T D : Type} `{TFileReaderTransport T} `{TTransport D}.
Abbreviation St := (TPipedTransport T D).

(** One round of [while (have < len)]; [buf] holds the [have] bytes read. *)
Definition readAll_body (len : Z) (buf : list Z) : M St (list Z + list Z) :=
  if zlen buf <? len then
    let! got := read (len - zlen buf) in
    if zlen got <=? 0 then throw TEOFException else ret (inl (buf ++ got))
  else ret (inr buf).
Definition readAll (len : Z) : M St (list Z) :=
  iterate (Z.max 0 len + 1) (readAll_body len) [].

Definition getReadTimeout : M St Z := on_src f_getReadTimeout.
Definition setReadTimeout (readTimeout : Z) : M St unit := on_src (f_setReadTimeout readTimeout).
Definition getNumChunks : M St Z := on_src f_getNumChunks.
Definition getCurChunk : M St Z := on_src f_getCurChunk.
Definition seekToChunk (chunk : Z) : M St unit := on_src (f_seekToChunk chunk).
Definition seekToEnd : M St unit := on_src f_seekToEnd.

Definition transport : TTransport St := {|
  t_isOpen := isOpen;
  t_peek := peek;
  t_open := open_;
  t_close := close;
  t_read := read;
  t_readAll := readAll;
  t_readEnd := readEnd;
  t_write := write;
  t_writeEnd := writeEnd;
  t_flush := flush;
  t_borrow := BaseTransport.borrow_virt;
  t_consume := BaseTransport.consume_virt
|}.
End Operations.
End TPipedFileReaderTransport.

(** ** The representation invariant *)

Section Correctness.
Context `{Platform} {T D : Type} `{TTransport T} `{TTransport D}.
Abbreviation St := (TPipedTransport T D).
Implicit Types s : St.

Definition pt_inv (s : St) : Prop :=
  0 <= rPos_ s <= rLen_ s /\ rLen_ s <= rBufSize_ s /\ zlen (rBuf_ s) = rBufSize_ s /\
  0 < rBufSize_ s < 2 ^ 32 /\ 0 <= wLen_ s < wBufSize_ s /\ zlen (wBuf_ s) = wBufSize_ s /\
  wBufSize_ s < 2 ^ 32.

(** Read ahead and not delivered; delivered since the last [readEnd()]; written
    since the last [flush()]. *)
Definition ahead (s : St) : list Z := zslice (rPos_ s) (rLen_ s) (rBuf_ s).
Definition delivered (s : St) : list Z := zslice 0 (rPos_ s) (rBuf_ s).
Definition unflushed (s : St) : list Z := zslice 0 (wLen_ s) (wBuf_ s).

Lemma zlen_ahead s : pt_inv s -> zlen (ahead s) = rLen_ s - rPos_ s.
Proof. intros (? & ? & ? & _). unfold ahead. rewrite zlen_zslice; lia. Qed.

Lemma zlen_delivered s : pt_inv s -> zlen (delivered s) = rPos_ s.
Proof. intros (? & ? & ? & _). unfold delivered. rewrite zlen_zslice; lia. Qed.

Lemma zlen_unflushed s : pt_inv s -> zlen (unflushed s) = wLen_ s.
Proof. intros (? & ? & ? & ? & ? & ? & _). unfold unflushed. rewrite zlen_zslice; lia. Qed.

Lemma delivered_ahead s : pt_inv s -> delivered s ++ ahead s = zslice 0 (rLen_ s) (rBuf_ s).
Proof. intros (? & ? & _). unfold delivered, ahead. rewrite <- zslice_split; [done|lia|lia]. Qed.

(** Delivering [n] of the bytes read ahead. *)
Lemma deliver s n :
  pt_inv s -> 0 <= n <= zlen (ahead s) ->
  let s' := set_read (rPos_ s + n) (rLen_ s) s in
  pt_inv s' /\ ahead s' = zdrop n (ahead s) /\ delivered s' = delivered s ++ ztake n (ahead s).
Proof.
  intros Hi Hn s'. rewrite zlen_ahead in Hn by done. pose proof Hi as (? & ? & ? & ? & ?).
  split_and!.
  - unfold pt_inv, s'. cbn. split_and!; lia || apply Hi.
  - unfold ahead, s'. cbn. by rewrite zslice_suffix by lia.
  - unfold delivered, ahead, s'. cbn. rewrite zslice_prefix by lia. apply zslice_split; lia.
Qed.

(** ** Reading *)

Section Reading.
Context `{!Unbounded} `{!ReadLaws T} `{!EndLaws T}.

(** [s] read [done] and still has [bs] to give; [d] is its destination and whether
    that is sent what is read. *)
Definition pt_reads (d : D * option bool) (s : St) (done bs : list Z) : Prop :=
  pt_inv s /\ delivered s = done /\ (dstTrans_ s, pipeOnRead_ s) = d /\ zlen done + zlen bs < 2 ^ 31 /\
  exists rest, bs = ahead s ++ rest /\ incoming (srcTrans_ s) rest.

Lemma pt_reads_deliver d s dn bs n :
  pt_reads d s dn bs -> 0 <= n <= zlen (ahead s) ->
  pt_reads d (set_read (rPos_ s + n) (rLen_ s) s) (dn ++ ztake n bs) (zdrop n bs).
Proof using Type.
  intros (Hi & <- & Hd & Hsz & rest & -> & Hin) Hn.
  destruct (deliver s n Hi Hn) as (Hi' & Ha & Hdl).
  rewrite ztake_app_le, zdrop_app_le by lia. unfold pt_reads. cbn zeta in *.
  rewrite Ha, Hdl. split_and!; try done; [zlist|]. by exists rest.
Qed.

(** The source's bytes go behind those already read ahead: here there are none. *)
Lemma store_ahead s1 got t :
  pt_inv s1 -> rPos_ s1 = rLen_ s1 -> rLen_ s1 + zlen got <= rBufSize_ s1 ->
  let s2 := set_read (rPos_ s1) (rLen_ s1 + zlen got)
              (set_rBuf (zsplice (rPos_ s1) got (rBuf_ s1)) (rBufSize_ s1) (set_src t s1)) in
  pt_inv s2 /\ ahead s2 = got /\ delivered s2 = delivered s1.
Proof using Type.
  intros Hi Hpos Hroom s2. pose proof Hi as (? & ? & ? & ? & Hw). pose proof (zlen_nonneg got).
  unfold s2, pt_inv, ahead, delivered. cbn. rewrite zlen_zsplice by lia. split_and!; try lia.
  - rewrite <- Hpos. apply zslice_zsplice_at. lia.
  - by rewrite zslice_zsplice_before by lia.
Qed.

Lemma fill_spec d s dn bs :
  pt_reads d s dn bs -> rPos_ s = rLen_ s ->
  succeeds fill s (fun _ s' =>
    pt_reads d s' dn bs /\ (0 < zlen bs -> 0 < zlen (ahead s'))).
Proof using All.
  intros (Hi & <- & Hd & Hsz & rest & -> & Hin) Hpos.
  pose proof Hi as (? & ? & ? & ? & Hw).
  assert (ahead s = []) as Hnil by (apply zlen_0; rewrite zlen_ahead by done; lia).
  rewrite Hnil in *. cbn [app] in *. rewrite zlen_delivered in Hsz by done.
  pose proof (zlen_nonneg rest).
  unfold fill, realloc_unchecked, on_src. wp.
  eapply (runs_mono _ _ (fun _ s1 => pt_inv s1 /\ delivered s1 = delivered s /\
    rPos_ s1 = rPos_ s /\ rLen_ s1 = rLen_ s /\ (dstTrans_ s1, pipeOnRead_ s1) = d /\ srcTrans_ s1 = srcTrans_ s /\
    rLen_ s < rBufSize_ s1) _ (fun _ _ => False)); [| |done].
  - bif; wp; [|split_and!; done || lia].
    apply runs_require; [apply always_alloc|]. wp. unwrap. unfold pt_inv, delivered. cbn.
    rewrite zlen_realloc by lia. split_and!; try done; try lia.
    rewrite ztake_ge by lia. by rewrite zslice_app_l by lia.
  - intros _ s1 (Hi1 & Hd1 & Hp1 & Hl1 & Hds & Hs1 & Hroom). wp. rewrite Hs1, Hp1.
    pose proof Hi1 as (? & ? & ? & ? & _). unwrap.
    eapply runs_mono; [apply (read_prefix _ (rBufSize_ s1 - rPos_ s) _ Hin); lia| |done].
    cbn. intros got t (k & -> & Hin' & Hk & Hpos').
    assert (zlen (ztake k rest) = k) as Hgot by zlist.
    wp. apply runs_store_mem; [lia|cbn; lia|]. wp. cbn. rewrite Hl1. unwrap.
    destruct (store_ahead s1 (ztake k rest) t) as (Hi2 & Ha2 & Hd2); [done|lia|lia|].
    rewrite Hl1, Hp1 in *. cbn zeta in *. unfold pt_reads. cbn in *.
    rewrite Ha2, Hd2, Hd1, zlen_delivered by done. split_and!; try done; try lia.
    exists (zdrop k rest). by rewrite ztake_zdrop.
Qed.
(** Handing over at most [need] of what has been read ahead. *)
Lemma give_spec d s buf dn bs need :
  pt_reads d s dn bs -> 0 < need < 2 ^ 32 ->
  succeeds
    (let! s := get in
     let avail := u32 (rLen_ s - rPos_ s) in
     let give := if avail <? need then avail else need in
     if 0 <? give then
       let! d := load_mem (rBuf_ s) (rPos_ s) give in
       do! modify (set_read (u32 (rPos_ s + give)) (rLen_ s)) in
       ret (buf ++ d)
     else ret buf) s
    (fun got s' => exists k, got = buf ++ ztake k bs /\ k = Z.min need (zlen (ahead s)) /\
       pt_reads d s' (dn ++ ztake k bs) (zdrop k bs)).
Proof using Type.
  intros Hs Hneed. pose proof Hs as (Hi & _ & _ & _ & rest & Hbs & _).
  pose proof (zlen_ahead s Hi) as Hl. pose proof Hi as (? & ? & ? & ? & _).
  wp. unwrap. replace (if _ <? _ then _ else _) with (Z.min need (zlen (ahead s)))
    by (rewrite Hl; bif; lia).
  pose proof (pt_reads_deliver d s dn bs (Z.min need (zlen (ahead s))) Hs ltac:(zlist)) as Hdl.
  bif.
  - wp. apply runs_load_mem; [lia|lia|lia|]. wp. unwrap.
    eexists. split_and!; [|reflexivity|exact Hdl]. f_equal. subst bs.
    set (m := Z.min _ _) in *. rewrite ztake_app_le by lia.
    unfold ahead. by rewrite zslice_prefix by lia.
  - wp. exists 0. rewrite ztake_0, zdrop_0, !app_nil_r by lia. by split_and!; [|zlist|].
Qed.

Lemma read_piped d s dn bs n :
  pt_reads d s dn bs -> 0 < n < 2 ^ 32 ->
  succeeds (read n) s (fun got s' => exists k,
    got = ztake k bs /\ pt_reads d s' (dn ++ ztake k bs) (zdrop k bs) /\
    0 <= k <= Z.min n (zlen bs) /\ (0 < zlen bs -> 0 < k)).
Proof using All.
  intros Hs Hn. pose proof Hs as (Hi & _ & _ & _ & rest & Hbs & _).
  pose proof (zlen_ahead s Hi) as Hl. pose proof Hi as (? & ? & ? & ? & _).
  assert (Hlen : zlen (ahead s) <= zlen bs) by (subst bs; zlist).
  unfold read. wp. unwrap. rewrite <- Hl. bif.
  - wp. set (h := zlen (ahead s)) in *.
    eapply (runs_mono _ _ (fun b s1 => b = ztake h bs /\ rPos_ s1 = rLen_ s1 /\
      pt_reads d s1 (dn ++ ztake h bs) (zdrop h bs)) _ (fun _ _ => False)); [| |done].
    + bif; wp.
      * apply runs_load_mem; [lia|lia|lia|]. wp. split_and!; [|done|].
        { subst bs. rewrite ztake_app by done. unfold ahead. f_equal. lia. }
        replace (rLen_ s) with (rPos_ s + h) at 1 by lia. apply pt_reads_deliver; [done|lia].
      * rewrite ztake_0, zdrop_0, app_nil_r by lia. split_and!; [done|lia|done].
    + intros b s1 (-> & Hp1 & Hs1). wp_apply fill_spec; [done|done| |done].
      intros _ s2 (Hs2 & Hpos2). wp. zlist. replace (Z.max 0 (Z.min h (zlen bs))) with h by lia.
      eapply runs_mono; [apply (give_spec d s2 (ztake h bs) _ _ (n - h) Hs2); lia| |done].
      intros got s3 (k & -> & Hk & Hs3). exists (h + k). pose proof (zlen_nonneg (ahead s2)).
      rewrite <- app_assoc in Hs3. rewrite zdrop_zdrop in Hs3 by lia.
      rewrite ztake_add by lia.
      assert (zlen (ahead s2) <= zlen bs - h).
      { destruct Hs2 as (_ & _ & _ & _ & rest' & Hr' & _). zlist. apply (f_equal zlen) in Hr'. zlist. }
      split_and!; [done|by rewrite (Z.add_comm h)|lia|lia|]. intros ?. zlist.
  - wp. eapply runs_mono; [apply (give_spec d s [] _ _ (n - 0) Hs); lia| |done].
    intros got s3 (k & -> & Hk & Hs3). exists k. rewrite Z.sub_0_r in Hk.
    split_and!; [done|done|lia|lia|lia].
Qed.

(** The stream left of [all] after what was delivered. *)
Definition pt_incoming (d : D * option bool) (all : list Z) (s : St) (bs : list Z) : Prop :=
  exists dn, pt_reads d s dn bs /\ dn ++ bs = all.

Lemma pt_incoming_delivered d all s bs :
  pt_incoming d all s bs -> pt_reads d s (delivered s) bs /\ delivered s ++ bs = all.
Proof using Type. by intros (dn & Hs & <-); pose proof Hs as (_ & -> & _). Qed.

Lemma read_stream_piped (d : D * option bool) all : reads_prefix read (pt_incoming d all).
Proof using All.
  intros s n bs (dn & Hs & <-) Hn. eapply succeeds_mono; [by apply (read_piped d s dn bs n)|].
  cbn. intros got s' (k & -> & Hs' & Hk & Hpos). exists k. split_and!; try done; try lia.
  exists (dn ++ ztake k bs). split; [done|]. by rewrite <- app_assoc, ztake_zdrop.
Qed.

(** A piped transport is a byte stream, which remembers what it delivered. *)
#[local] Instance TPipedTransport_reads (d : D * option bool) (all : list Z) : ReadLaws St.
Proof using All.
  refine {|
    incoming := pt_incoming d all;
    lent s bs m := False;
    stream_end := no_more
  |}.
  - done.
  - apply reads_prefix_some, read_stream_piped.
  - intros s n bs rest Hs Hn Hmax.
    by apply (readAll_stream _ _ _ _ _ _ (reads_prefix_some _ _ (read_stream_piped d all))).
  - intros s n bs Hs Hn Hmax. eapply runs_mono;
      [by apply (readAll_stream_eof _ _ s n bs (read_stream_piped d all))|done|].
    by intros e s' [-> _].
  - intros s n bs Hs Hn. cbn. unfold BaseTransport.borrow_virt. by wp.
  - done.
Defined.

(** [readEnd()]: the destination is given what was delivered, flushed; what was
    read ahead moves to the front, as long as it is no longer than that. *)
Lemma readEnd_piped `{!ReadEndLaws T} `{!WriteLaws D} `{!FlushLaws D} d s dn bs b log room :
  pt_reads (d, Some b) s dn bs -> zlen (ahead s) <= zlen dn ->
  outgoing d log room -> zlen dn <= room ->
  succeeds readEnd s (fun n s' =>
    n = zlen dn /\ pt_reads (dstTrans_ s', Some b) s' [] bs /\
    outgoing (dstTrans_ s') (log ++ (if b then dn else [])) (room - (if b then zlen dn else 0))).
Proof using Type*.
  intros (Hi & <- & [= <- Hb] & Hsz & rest & -> & Hin) Hle Hout Hroom.
  pose proof Hi as (? & ? & ? & ? & Hw). pose proof (zlen_delivered s Hi) as Hdl.
  pose proof (zlen_ahead s Hi) as Hal. rewrite zlen_app in Hsz. pose proof (zlen_nonneg rest).
  unfold readEnd, on_dst, on_src, initialised. wp. rewrite Hb. wp.
  eapply (runs_mono _ _ (fun _ s1 => s1 = set_dst (dstTrans_ s1) s /\
    outgoing (dstTrans_ s1) (log ++ (if b then delivered s else []))
      (room - (if b then zlen (delivered s) else 0))) _ (fun _ _ => False)); [| |done].
  - destruct b; wp; [|rewrite app_nil_r, Z.sub_0_r; by destruct s].
    apply runs_load_mem; [lia|lia|lia|]. wp. change (zslice 0 (0 + rPos_ s) (rBuf_ s)) with (delivered s).
    eapply runs_mono; [apply (write_ok _ _ _ _ Hout); lia| |done]. cbn. intros _ d1 Hd1. wp.
    eapply runs_mono; [apply (flush_ok _ _ _ Hd1)| |done]. cbn. by intros _ d2 Hd2.
  - intros _ s1 (-> & Hout1). generalize (dstTrans_ s1) Hout1. clear s1 Hout1. intros d1 Hout1. wp. cbn.
    eapply runs_mono; [apply (readEnd_ok _ _ Hin)| |done]. cbn. intros _ t Hin'. wp. cbn. rewrite <- Hal. unwrap. rewrite Hal.
    apply runs_require; [by apply orb_true_iff; right; lia|]. wp. apply runs_load_mem; [lia|lia|lia|].
    wp. apply runs_store_mem; [lia|rewrite zlen_zslice by lia; lia|]. wp. cbn.
    split_and!; [lia| |done].
    set (s2 := set_read _ _ _). assert (Ha2 : ahead s2 = ahead s).
    { unfold ahead, s2. cbn. replace (rPos_ s + (rLen_ s - rPos_ s)) with (rLen_ s) by lia.
      change (zslice (rPos_ s) (rLen_ s) (rBuf_ s)) with (ahead s). rewrite <- Hal.
      apply (zslice_zsplice_at 0). lia. }
    split_and!; [| |by cbn; rewrite Hb| |].
    + unfold pt_inv, s2. cbn. rewrite zlen_zsplice by (rewrite ?zlen_zslice; lia).
      split_and!; lia || apply Hw.
    + unfold delivered, s2. cbn. by apply zslice_empty.
    + zlist.
    + exists rest. rewrite Ha2. done.
Qed.
End Reading.

(** ** Writing *)

Lemma write_grow_spec want n s :
  0 <= want < 2 ^ 31 -> 0 < n < 2 ^ 32 ->
  succeeds (iterate 100 (write_grow want) n) s (fun m s' => s' = s /\ want < m < 2 ^ 32).
Proof.
  intros Hw Hn. change (2 ^ 31) with 2147483648 in *. change (2 ^ 32) with 4294967296 in *.
  apply (runs_iterate (fun n s' => s' = s /\ 0 < n < 4294967296) (fun n => 32 - Z.log2 n));
    [|done|pose proof (Z.log2_nonneg n);
      assert (Z.log2 n <= 31); [transitivity (Z.log2 4294967295); [apply Z.log2_le_mono; lia|done]|lia]].
  intros m s1 (-> & Hm). unfold write_grow. bif; wp; [|split; [done|lia]].
  unwrap. rewrite Z.mul_comm, Z.log2_double by lia. pose proof (Z.log2_nonneg m).
  assert (Z.log2 m <= 30); [transitivity (Z.log2 2147483647); [apply Z.log2_le_mono; lia|done]|].
  split; [split; [done|lia]|lia].
Qed.

(** Once the doubled size has wrapped to zero the loop goes round for ever. *)
Lemma write_grow_stuck want fuel s :
  0 <= want -> iterate fuel (write_grow want) 0 s = (OutOfFuel, s).
Proof.
  intros Hw. assert (forall p, rounds p (write_grow want) 0 s = (Ok (inl 0), s)) as Hr.
  { assert (write_grow want 0 s = (Ok (inl 0), s)) as Hg.
    { unfold write_grow. by replace (0 <=? want) with true by lia. }
    intros p. induction p as [q IH|q IH|]; cbn [rounds]; [| |done]; unfold bind.
    - rewrite Hg. rewrite IH. apply IH.
    - rewrite IH. apply IH. }
  destruct fuel as [|p|p]; try done. cbn [iterate]. unfold bind. by rewrite Hr.
Qed.

Section Writing.
Context `{!Unbounded} `{!WriteLaws T}.

(** [s] has been given [out], part of it flushed down, and takes [room] more. *)
Definition pt_outgoing (s : St) (out : list Z) (room : Z) : Prop :=
  pt_inv s /\ 0 <= room /\ wLen_ s + room < 2 ^ 31 /\
  exists o, out = o ++ unflushed s /\ outgoing (srcTrans_ s) o (room + wLen_ s).

Lemma write_piped s out room d :
  pt_outgoing s out room -> zlen d <= room ->
  succeeds (write d) s (fun _ s' =>
    pt_outgoing s' (out ++ d) (room - zlen d) /\ unflushed s' = unflushed s ++ d /\
    dstTrans_ s' = dstTrans_ s /\ pipeOnWrite_ s' = pipeOnWrite_ s).
Proof using Type*.
  intros (Hi & Hr & Hcap & o & -> & Hout) Hd. pose proof Hi as (? & ? & ? & ? & ? & ? & ?).
  pose proof (zlen_nonneg d). unfold write, realloc_unchecked. bif.
  { wp. rewrite (zlen_0 d) by done. rewrite !app_nil_r, zlen_nil, Z.sub_0_r.
    split; [|done]. split_and!; try done. by exists o. }
  wp. unwrap. eapply (runs_mono _ _ (fun _ s1 =>
    s1 = set_wBuf (wBuf_ s1) (wBufSize_ s1) (wLen_ s) s /\ pt_inv s1 /\
    unflushed s1 = unflushed s /\ wLen_ s + zlen d < wBufSize_ s1) _ (fun _ _ => False)); [| |done].
  - bif; wp; [|split_and!; [by destruct s|done|done|lia]].
    unwrap. eapply runs_mono; [apply (write_grow_spec (zlen d + wLen_ s)); lia| |done].
    cbn beta. intros n s1 (-> & Hn). wp. apply runs_require; [apply always_alloc|]. wp.
    unfold pt_inv, unflushed. cbn. rewrite zlen_realloc by lia. split_and!; try done; try lia.
    rewrite ztake_ge by lia. by rewrite zslice_app_l by lia.
  - intros _ s1 (Hs1 & Hi1 & Hu & Hroom). pose proof Hi1 as (? & ? & ? & ? & ? & ? & ?).
    assert (wLen_ s1 = wLen_ s /\ srcTrans_ s1 = srcTrans_ s /\ dstTrans_ s1 = dstTrans_ s /\
            pipeOnWrite_ s1 = pipeOnWrite_ s) as (Hl & Hsr & Hds & Hpw) by (by rewrite Hs1).
    clear Hs1. wp. apply runs_store_mem; [lia|lia|]. wp. rewrite Hl. unwrap.
    set (s2 := set_wBuf _ _ _ _).
    assert (Hu2 : unflushed s2 = unflushed s ++ d).
    { rewrite <- Hu. unfold unflushed, s2. cbn. rewrite Hl.
      rewrite (zslice_split 0 (wLen_ s)) by lia. rewrite zslice_zsplice_before by lia.
      f_equal. apply zslice_zsplice_at. lia. }
    split; [|done]. split_and!.
    + unfold pt_inv, s2. cbn. rewrite zlen_zsplice by lia. split_and!; lia.
    + lia.
    + cbn. lia.
    + exists o. rewrite Hu2, app_assoc. split; [done|]. cbn. rewrite Hsr.
      by replace (_ + _) with (room + wLen_ s) by lia.
Qed.

Lemma write_all_piped ds s out room :
  pt_outgoing s out room -> zlen (concat ds) <= room ->
  succeeds (write_all ds) s (fun _ s' =>
    pt_outgoing s' (out ++ concat ds) (room - zlen (concat ds)) /\ unflushed s' = unflushed s ++ concat ds /\
    dstTrans_ s' = dstTrans_ s /\ pipeOnWrite_ s' = pipeOnWrite_ s).
Proof using Type*.
  revert s out room. induction ds as [|d ds IH]; intros s out room Hs Hroom; cbn [write_all fold_right concat] in *.
  - wp. by rewrite !app_nil_r, Z.sub_0_r.
  - rewrite zlen_app in *. pose proof (zlen_nonneg (concat ds)). apply runs_bind.
    eapply runs_mono; [apply (write_piped s out room d Hs); lia| |done]. cbn beta.
    intros _ s1 (Hs1 & Hu1 & Hd1 & Hp1).
    eapply runs_mono; [apply (IH _ _ _ Hs1); lia| |done]. cbn beta. intros _ s2 (Hs2 & Hu2 & Hd2 & Hp2).
    rewrite Hu2, Hu1, <- !app_assoc, Hd2, Hp2, Hd1, Hp1, <- Z.sub_add_distr in *. done.
Qed.

#[local] Instance TPipedTransport_writes : WriteLaws St.
Proof using All.
  refine {| outgoing := pt_outgoing |}.
  intros s out room d Hs Hd _. eapply succeeds_mono; [by apply (write_piped s out room d)|].
  by intros _ s' [Hs' _].
Defined.

Lemma flush_piped `{!FlushLaws T} s out room :
  pt_outgoing s out room ->
  succeeds flush s (fun _ s' =>
    pt_outgoing s' out room /\ unflushed s' = [] /\ outgoing (srcTrans_ s') out room /\
    dstTrans_ s' = dstTrans_ s).
Proof using Type*.
  intros (Hi & Hr & Hcap & o & -> & Hout). pose proof Hi as (? & ? & ? & ? & ? & ? & ?).
  pose proof (zlen_unflushed s Hi) as Hu. unfold flush, on_src.
  wp. eapply (runs_mono _ _ (fun _ s1 => pt_inv s1 /\ wLen_ s1 = 0 /\ dstTrans_ s1 = dstTrans_ s /\
    outgoing (srcTrans_ s1) (o ++ unflushed s) room) _ (fun _ _ => False)); [| |done].
  - bif; wp.
    + apply runs_load_mem; [lia|lia|lia|]. wp.
      change (zslice 0 (0 + wLen_ s) (wBuf_ s)) with (unflushed s).
      eapply runs_mono; [apply (write_ok _ _ _ _ Hout); lia| |done]. cbn. intros _ t Ht. wp.
      split_and!; [|done|done|].
      * unfold pt_inv. cbn. split_and!; lia.
      * cbn. by rewrite Hu, Z.add_simpl_r in Ht.
    + assert (unflushed s = []) as Hnil by (apply zlen_0; lia). rewrite Hnil, app_nil_r.
      replace (wLen_ s) with 0 in Hout |- * by lia. by rewrite Z.add_0_r in Hout.
  - intros _ s1 (Hi1 & Hl1 & Hds1 & Hout1). wp.
    eapply runs_mono; [apply (flush_ok _ _ _ Hout1)| |done]. cbn. intros _ t Ht.
    assert (Hu1 : unflushed (set_src t s1) = []) by (unfold unflushed; cbn; by apply zslice_empty; lia).
    split_and!; [split_and!|done|done|done].
    + exact Hi1.
    + done.
    + cbn. lia.
    + exists (o ++ unflushed s). rewrite Hu1, app_nil_r. split; [done|]. cbn. rewrite Hl1. by rewrite Z.add_0_r.
Qed.

(** [writeEnd()] gives the destination what waits for [flush()], if so told. *)
Lemma writeEnd_piped `{!WriteLaws D} `{!FlushLaws D} s out room b log r :
  pt_outgoing s out room -> pipeOnWrite_ s = Some b ->
  outgoing (dstTrans_ s) log r -> zlen (unflushed s) <= r ->
  succeeds writeEnd s (fun n s' =>
    n = zlen (unflushed s) /\ pt_outgoing s' out room /\ unflushed s' = unflushed s /\
    outgoing (dstTrans_ s') (log ++ (if b then unflushed s else []))
      (r - (if b then zlen (unflushed s) else 0))).
Proof using Type*.
  intros (Hi & Hr & Hcap & o & -> & Hout) Hb Hlog Hroom. pose proof Hi as (? & ? & ? & ? & ? & ? & ?).
  pose proof (zlen_unflushed s Hi) as Hu. rewrite Hu in *. unfold writeEnd, on_dst, initialised. wp.
  rewrite Hb. wp. destruct b; wp.
  - apply runs_load_mem; [lia|lia|lia|]. wp.
    change (zslice 0 (0 + wLen_ s) (wBuf_ s)) with (unflushed s).
    eapply runs_mono; [apply (write_ok _ _ _ _ Hlog); lia| |done]. cbn. intros _ d1 Hd1. wp.
    eapply runs_mono; [apply (flush_ok _ _ _ Hd1)| |done]. cbn. intros _ d2 Hd2. wp.
    split_and!; [done| |done|by rewrite <- Hu]. split_and!; try done. by exists o.
  - rewrite app_nil_r, Z.sub_0_r. split_and!; [done| |done|done]. split_and!; try done. by exists o.
Qed.
End Writing.
End Correctness.
