(* ===== verification/HttpTransport.v ===== *)
(** * [THttpTransport], [THttpClient] and [THttpServer]: transport/THttp*.h and .cpp

    A message is collected in [writeBuffer_] and sent behind a header by [flush()].
    What arrives is kept in [httpBuf_], a block with a NUL behind the bytes read,
    where lines are found with [strstr]; the body of a message is copied to
    [readBuffer_], from which reads are served.

    [httpBuf_] is [None] after a failed [realloc].  A line is what [readLine()]'s
    pointer points to, up to its NUL; the NULs that the parsers of a line store
    into it lie before [httpPos_], where nothing is read again, and are followed in
    the line only.  The virtual members are a [virtuals]; the string algorithms of
    boost and the clock are parameters.  Loops that wait for input take the
    section's [fuel]. *)

From S2P Require Export MemoryBuffer Text.

(** [boost::istarts_with] and [boost::iends_with] (boost/algorithm/string.hpp). *)
Class BoostStrings := {
  istarts_with : list Z -> list Z -> bool;
  iends_with : list Z -> list Z -> bool
}.

Record THttpTransport (T : Type) := Http {
  transport_ : T;
  writeBuffer_ : TMemoryBuffer;
  readBuffer_ : TMemoryBuffer;
  readHeaders_ : bool;
  chunked_ : bool;
  chunkedDone_ : bool;
  chunkSize_ : Z;
  contentLength_ : Z;
  httpBuf_ : option (list Z);
  httpPos_ : Z;
  httpBufLen_ : Z;
  httpBufSize_ : Z
}.
Arguments Http {T}.
Arguments transport_ {T}.
Arguments writeBuffer_ {T}.
Arguments readBuffer_ {T}.
Arguments readHeaders_ {T}.
Arguments chunked_ {T}.
Arguments chunkedDone_ {T}.
Arguments chunkSize_ {T}.
Arguments contentLength_ {T}.
Arguments httpBuf_ {T}.
Arguments httpPos_ {T}.
Arguments httpBufLen_ {T}.
Arguments httpBufSize_ {T}.

(** What the headers of a message say of its body. *)
Record header_info := HeaderInfo { is_chunked : bool; content_length : Z }.

Definition CRLF : list Z := [13; 10].
Definition CRLF_LEN : Z := 2.

Definition refill_failed : exn := ETransport TTransportException.UNKNOWN "Could not refill buffer".
Definition bad_status (status : list Z) : exn :=
  ETransport TTransportException.UNKNOWN (String.append "Bad Status: " (text status)).

Section State.
Context {T : Type}.
Abbreviation St := (THttpTransport T).

Definition set_transport (t : T) (s : St) : St :=
  Http t (writeBuffer_ s) (readBuffer_ s) (readHeaders_ s) (chunked_ s) (chunkedDone_ s)
    (chunkSize_ s) (contentLength_ s) (httpBuf_ s) (httpPos_ s) (httpBufLen_ s) (httpBufSize_ s).
Definition set_writeBuffer (w : TMemoryBuffer) (s : St) : St :=
  Http (transport_ s) w (readBuffer_ s) (readHeaders_ s) (chunked_ s) (chunkedDone_ s)
    (chunkSize_ s) (contentLength_ s) (httpBuf_ s) (httpPos_ s) (httpBufLen_ s) (httpBufSize_ s).
Definition set_readBuffer (r : TMemoryBuffer) (s : St) : St :=
  Http (transport_ s) (writeBuffer_ s) r (readHeaders_ s) (chunked_ s) (chunkedDone_ s)
    (chunkSize_ s) (contentLength_ s) (httpBuf_ s) (httpPos_ s) (httpBufLen_ s) (httpBufSize_ s).
Definition set_readHeaders (b : bool) (s : St) : St :=
  Http (transport_ s) (writeBuffer_ s) (readBuffer_ s) b (chunked_ s) (chunkedDone_ s)
    (chunkSize_ s) (contentLength_ s) (httpBuf_ s) (httpPos_ s) (httpBufLen_ s) (httpBufSize_ s).
Definition set_chunkedDone (b : bool) (s : St) : St :=
  Http (transport_ s) (writeBuffer_ s) (readBuffer_ s) (readHeaders_ s) (chunked_ s) b
    (chunkSize_ s) (contentLength_ s) (httpBuf_ s) (httpPos_ s) (httpBufLen_ s) (httpBufSize_ s).
Definition set_info (i : header_info) (s : St) : St :=
  Http (transport_ s) (writeBuffer_ s) (readBuffer_ s) (readHeaders_ s) (is_chunked i) (chunkedDone_ s)
    (chunkSize_ s) (content_length i) (httpBuf_ s) (httpPos_ s) (httpBufLen_ s) (httpBufSize_ s).
Definition set_chunkSize (n : Z) (s : St) : St :=
  Http (transport_ s) (writeBuffer_ s) (readBuffer_ s) (readHeaders_ s) (chunked_ s) (chunkedDone_ s)
    n (contentLength_ s) (httpBuf_ s) (httpPos_ s) (httpBufLen_ s) (httpBufSize_ s).
Definition set_httpBuf (b : option (list Z)) (s : St) : St :=
  Http (transport_ s) (writeBuffer_ s) (readBuffer_ s) (readHeaders_ s) (chunked_ s) (chunkedDone_ s)
    (chunkSize_ s) (contentLength_ s) b (httpPos_ s) (httpBufLen_ s) (httpBufSize_ s).
Definition set_window (pos len : Z) (s : St) : St :=
  Http (transport_ s) (writeBuffer_ s) (readBuffer_ s) (readHeaders_ s) (chunked_ s) (chunkedDone_ s)
    (chunkSize_ s) (contentLength_ s) (httpBuf_ s) pos len (httpBufSize_ s).
Definition set_size (n : Z) (s : St) : St :=
  Http (transport_ s) (writeBuffer_ s) (readBuffer_ s) (readHeaders_ s) (chunked_ s) (chunkedDone_ s)
    (chunkSize_ s) (contentLength_ s) (httpBuf_ s) (httpPos_ s) (httpBufLen_ s) n.

Definition on_transport {A} (m : M T A) : M St A := lift transport_ set_transport m.
Definition on_writeBuffer {A} (m : M TMemoryBuffer A) : M St A := lift writeBuffer_ set_writeBuffer m.
Definition on_readBuffer {A} (m : M TMemoryBuffer A) : M St A := lift readBuffer_ set_readBuffer m.

(** The block [httpBuf_] points to. *)
Definition http_block : M St (list Z) :=
  let! b := gets httpBuf_ in
  match b with Some b => ret b | None => crash_ UndefinedBehaviour end.
(** [httpBuf_[i] = v]. *)
Definition poke (i v : Z) : M St unit :=
  let! b := http_block in
  let! b := store_mem b i [v] in
  modify (set_httpBuf (Some b)).
End State.

(** The pure virtual members. *)
Record virtuals (T : Type) := Virtuals {
  parseHeader : list Z -> M (THttpTransport T) unit;
  parseStatusLine : list Z -> M (THttpTransport T) bool
}.
Arguments Virtuals {T}.
Arguments parseHeader {T}.
Arguments parseStatusLine {T}.

Section Operations.
Context `{Platform} `{CLibrary} {T : Type} `{TTransport T}.
Context (v : virtuals T) (fuel : Z).
Abbreviation St := (THttpTransport T).

(** The constructor, with [init()]. *)
Definition new_http (transport : T) : M unit St :=
  let! w := MemoryBuffer.new_default in
  let! r := MemoryBuffer.new_default in
  let! b := new_bytes (1024 + 1) in
  let! b := store_mem b 0 [0] in
  ret (Http transport w r true false false 0 0 (Some b) 0 0 1024).

(** The first half of [refill()]: the block is doubled when three quarters full. *)
Definition reserve : M St unit :=
  let! avail := gets (fun s => u32 (httpBufSize_ s - httpBufLen_ s)) in
  let! size := gets httpBufSize_ in
  if avail <=? size / 4 then
    do! modify (set_size (u32 (size * 2))) in
    let! old := http_block in
    let n := u32 (u32 (size * 2) + 1) in
    if can_alloc n
    then modify (set_httpBuf (Some (ztake n old ++ zrep (n - zlen old) junk)))
    else do! modify (set_httpBuf None) in throw EBadAlloc
  else ret tt.

Definition refill : M St unit :=
  do! reserve in
  let! s := Effects.get in
  let! got := on_transport (t_read (u32 (httpBufSize_ s - httpBufLen_ s))) in
  let! b := http_block in
  let! b := store_mem b (httpBufLen_ s) got in
  do! modify (set_httpBuf (Some b)) in
  do! modify (fun s => set_window (httpPos_ s) (u32 (httpBufLen_ s + zlen got)) s) in
  let! len := gets httpBufLen_ in
  do! poke len 0 in
  if zlen got =? 0 then throw refill_failed else ret tt.

Definition shift : M St unit :=
  let! s := Effects.get in
  do! (if httpPos_ s <? httpBufLen_ s then
         let length := httpBufLen_ s - httpPos_ s in
         let! b := http_block in
         let! d := load_mem b (httpPos_ s) length in
         let! b := store_mem b 0 d in
         do! modify (set_httpBuf (Some b)) in
         modify (set_window (httpPos_ s) length)
       else modify (set_window (httpPos_ s) 0)) in
  do! modify (fun s => set_window 0 (httpBufLen_ s) s) in
  let! len := gets httpBufLen_ in
  poke len 0.

(** One round of the loop of [readLine]. *)
Definition readLine_body (_ : unit) : M St (unit + list Z) :=
  let! pos := gets httpPos_ in
  let! b := http_block in
  match c_string (zdrop pos b) with
  | None => crash_ UndefinedBehaviour
  | Some str =>
      match strstr CRLF str with
      | None => do! shift in do! refill in ret (inl tt)
      | Some i =>
          do! poke (pos + i) 0 in
          do! modify (fun s => set_window (u32 (pos + i + CRLF_LEN)) (httpBufLen_ s) s) in
          ret (inr (ztake i str))
      end
  end.
Definition readLine : M St (list Z) := iterate fuel readLine_body tt.

(** How much of the body can be taken from the window, which is refilled if empty. *)
Definition content_avail : M St Z :=
  let! avail := gets (fun s => u32 (httpBufLen_ s - httpPos_ s)) in
  if avail =? 0 then
    do! modify (set_window 0 0) in
    do! refill in
    gets httpBufLen_
  else ret avail.

(** One round of [while (need > 0)]. *)
Definition readContent_body (size need : Z) : M St (Z + Z) :=
  if 0 <? need then
    let! avail := content_avail in
    let give := if need <? avail then need else avail in
    let! pos := gets httpPos_ in
    let! b := http_block in
    let! d := load_mem b pos give in
    do! on_readBuffer (t_write d) in
    do! modify (fun s => set_window (u32 (httpPos_ s + give)) (httpBufLen_ s) s) in
    ret (inl (need - give))
  else ret (inr size).
Definition readContent (size : Z) : M St Z := iterate fuel (readContent_body size) size.

(** One round of the loop of [readChunkedFooters]. *)
Definition footers_body (_ : unit) : M St (unit + unit) :=
  let! line := readLine in
  if zlen line =? 0 then do! modify (set_chunkedDone true) in ret (inr tt)
  else ret (inl tt).
Definition readChunkedFooters : M St unit := iterate fuel footers_body tt.

Definition parseChunkSize (line : list Z) : Z :=
  let line := match find_char (chr ";") line with Some i => ztake i line | None => line end in
  default 0 (scan_hex line).

Definition readChunked : M St Z :=
  let! line := readLine in
  let chunkSize := parseChunkSize line in
  if chunkSize =? 0 then do! readChunkedFooters in ret 0
  else
    let! length := readContent chunkSize in
    do! readLine in
    ret length.

(** One round of the loop of [readHeaders]; the state is ([statusLine], [finished]). *)
Definition headers_body (c : bool * bool) : M St (bool * bool + unit) :=
  let '(statusLine, finished) := c in
  let! line := readLine in
  if zlen line =? 0 then
    if (finished : bool) then do! modify (set_readHeaders false) in ret (inr tt)
    else ret (inl (true, finished))
  else if (statusLine : bool) then
    let! finished := parseStatusLine v line in
    ret (inl (false, finished))
  else do! parseHeader v line in ret (inl (statusLine, finished)).

Definition readHeaders : M St unit :=
  do! modify (set_info (HeaderInfo false 0)) in
  do! modify (set_chunkedDone false) in
  do! modify (set_chunkSize 0) in
  iterate fuel headers_body (true, false).

Definition readMoreData : M St Z :=
  do! refill in
  let! b := gets readHeaders_ in
  do! (if b then readHeaders else ret tt) in
  let! chunked := gets chunked_ in
  let! size := (if chunked then readChunked
                else let! n := gets contentLength_ in readContent n) in
  do! modify (set_readHeaders true) in
  ret size.

Definition read (len : Z) : M St (list Z) :=
  let! avail := gets (fun s => available_read (readBuffer_ s)) in
  if avail =? 0 then
    do! on_readBuffer resetBuffer in
    let! got := readMoreData in
    if got =? 0 then ret [] else on_readBuffer (t_read len)
  else on_readBuffer (t_read len).

(** One round of [while (!chunkedDone_)]. *)
Definition drain_body (_ : unit) : M St (unit + unit) :=
  let! done := gets chunkedDone_ in
  if negb done then do! readChunked in ret (inl tt) else ret (inr tt).
Definition readEnd : M St Z :=
  let! chunked := gets chunked_ in
  do! (if chunked then iterate fuel drain_body tt else ret tt) in
  ret 0.

Definition write (buf : list Z) : M St unit := on_writeBuffer (t_write buf).

Definition open_ : M St unit := on_transport t_open.
Definition isOpen : M St bool := on_transport t_isOpen.
Definition peek : M St bool := on_transport t_peek.
Definition close : M St unit := on_transport t_close.

Definition http_transport (flush : M St unit) : TTransport St := {|
  t_isOpen := isOpen;
  t_peek := peek;
  t_open := open_;
  t_close := close;
  t_read := read;
  t_readAll := Transport.readAll read;
  t_readEnd := readEnd;
  t_write := write;
  t_writeEnd := BaseTransport.writeEnd;
  t_flush := flush;
  t_borrow := BaseTransport.borrow_virt;
  t_consume := BaseTransport.consume_virt
|}.
End Operations.

(** [VERSION] of config.h. *)
Definition VERSION : list Z := bytes_of "0.9.1".

(** [transport_->write(header); transport_->write(buf, len); transport_->flush();]
    then the reset of the buffer and of [readHeaders_], as every sender ends. *)
Section Sending.
Context {T : Type} `{TTransport T}.
Definition send_message (header buf : list Z) : M (THttpTransport T) unit :=
  do! on_transport (t_write header) in
  do! on_transport (t_write buf) in
  do! on_transport t_flush in
  do! on_writeBuffer resetBuffer in
  modify (set_readHeaders true).
End Sending.

(** ** The client *)

Module Client.
Section Operations.
Context `{CLibrary} `{BoostStrings} {T : Type} `{TTransport T}.
Context (host_ path_ : list Z).
Abbreviation St := (THttpTransport T).

(** What one header line does to what is known of the body. *)
Definition header_step (header : list Z) (i : header_info) : header_info :=
  match find_char (chr ":") header with
  | None => i
  | Some colon =>
      let value := zdrop (colon + 1) header in
      if istarts_with header (bytes_of "Transfer-Encoding") then
        if iends_with value (bytes_of "chunked") then HeaderInfo true (content_length i) else i
      else if istarts_with header (bytes_of "Content-Length") then
        HeaderInfo false (u32 (atoi value))
      else i
  end.
Definition parseHeader (header : list Z) : M St unit :=
  modify (fun s => set_info (header_step header (HeaderInfo (chunked_ s) (contentLength_ s))) s).

(** The verdict on a status line: an exception, or whether the message is a final
    one.  The loop over blanks ends at the NUL just stored. *)
Definition status_line (status : list Z) : exn + bool :=
  match find_char 32 status with
  | None => inl (bad_status status)
  | Some i =>
      let code := zdrop (i + 1) status in
      match find_char 32 code with
      | None => inl (bad_status (ztake i status))
      | Some j =>
          if strcmp_eq (ztake j code) (bytes_of "200") then inr true
          else if strcmp_eq (ztake j code) (bytes_of "100") then inr false
          else inl (bad_status (ztake i status))
      end
  end.
Definition parseStatusLine (status : list Z) : M St bool :=
  match status_line status with inl e => throw e | inr b => ret b end.

Definition client : virtuals T := Virtuals parseHeader parseStatusLine.

Definition header (len : Z) : list Z :=
  bytes_of "POST " ++ path_ ++ bytes_of " HTTP/1.1" ++ CRLF ++
  bytes_of "Host: " ++ host_ ++ CRLF ++
  bytes_of "Content-Type: application/x-thrift" ++ CRLF ++
  bytes_of "Content-Length: " ++ decimal len ++ CRLF ++
  bytes_of "Accept: application/x-thrift" ++ CRLF ++
  bytes_of "User-Agent: Thrift/" ++ VERSION ++ bytes_of " (C++/THttpClient)" ++ CRLF ++
  CRLF.

Definition flush : M St unit :=
  let! buf := on_writeBuffer getBuffer in
  let header := header (zlen buf) in
  if 2 ^ 32 - 1 <? zlen header
  then throw (ETransport TTransportException.UNKNOWN "Header too big")
  else send_message header buf.

Definition transport `{Platform} (fuel : Z) : TTransport St := http_transport client fuel flush.
End Operations.
End Client.

(** ** The server *)

(** The members of [struct tm] that are used; [gmtime(time(NULL))] is a parameter. *)
Record tm := Tm {
  tm_wday : Z; tm_mday : Z; tm_mon : Z; tm_year : Z; tm_hour : Z; tm_min : Z; tm_sec : Z
}.

Module Server.
Definition Days : list (list Z) :=
  map bytes_of ["Sun"; "Mon"; "Tue"; "Wed"; "Thu"; "Fri"; "Sat"].
Definition Months : list (list Z) :=
  map bytes_of ["Jan"; "Feb"; "Mar"; "Apr"; "May"; "Jun"; "Jul"; "Aug"; "Sep"; "Oct"; "Nov"; "Dec"].

Section Operations.
Context `{CLibrary} {T : Type} `{TTransport T}.
Context (now : tm).
Abbreviation St := (THttpTransport T).

Definition header_step (header : list Z) (i : header_info) : header_info :=
  match find_char (chr ":") header with
  | None => i
  | Some sz =>
      let value := zdrop (sz + 1) header in
      if strncmp_eq header (bytes_of "Transfer-Encoding") sz then
        match strstr (bytes_of "chunked") value with
        | Some _ => HeaderInfo true (content_length i)
        | None => i
        end
      else if strncmp_eq header (bytes_of "Content-Length") sz then
        HeaderInfo false (u32 (atoi value))
      else i
  end.
Definition parseHeader (header : list Z) : M St unit :=
  modify (fun s => set_info (header_step header (HeaderInfo (chunked_ s) (contentLength_ s))) s).

(** [getTimeRFC1123()]; an index outside its table is undefined behaviour. *)
Definition getTimeRFC1123 : option (list Z) :=
  match znth Days (tm_wday now), znth Months (tm_mon now) with
  | Some day, Some month =>
      Some (day ++ bytes_of ", " ++ decimal (tm_mday now) ++ [32] ++ month ++ [32] ++
            decimal (tm_year now + 1900) ++ [32] ++ decimal (tm_hour now) ++ bytes_of ":" ++
            decimal (tm_min now) ++ bytes_of ":" ++ decimal (tm_sec now) ++ bytes_of " GMT")
  | _, _ => None
  end.
Definition date : M St (list Z) :=
  match getTimeRFC1123 with Some d => ret d | None => crash_ UndefinedBehaviour end.

(** The answer to an OPTIONS request. *)
Definition preflight (d : list Z) : list Z :=
  bytes_of "HTTP/1.1 200 OK" ++ CRLF ++
  bytes_of "Date: " ++ d ++ CRLF ++
  bytes_of "Access-Control-Allow-Origin: *" ++ CRLF ++
  bytes_of "Access-Control-Allow-Methods: POST, OPTIONS" ++ CRLF ++
  bytes_of "Access-Control-Allow-Headers: Content-Type" ++ CRLF ++
  CRLF.

(** The method of a request line, if it has a path and something behind it. *)
Definition request_method (status : list Z) : exn + list Z :=
  match find_char 32 status with
  | None => inl (bad_status status)
  | Some i =>
      let path := drop_while (Z.eqb 32) (zdrop (i + 1) status) in
      match find_char 32 path with
      | None => inl (bad_status (ztake i status))
      | Some _ => inr (ztake i status)
      end
  end.
Definition unsupported_method (m : list Z) : exn :=
  ETransport TTransportException.UNKNOWN
    (String.append "Bad Status (unsupported method): " (text m)).
Definition parseStatusLine (status : list Z) : M St bool :=
  match request_method status with
  | inl e => throw e
  | inr method =>
      if strcmp_eq method (bytes_of "POST") then ret true
      else if strcmp_eq method (bytes_of "OPTIONS") then
        let! buf := on_writeBuffer getBuffer in
        let! d := date in
        do! send_message (preflight d) buf in
        ret true
      else throw (unsupported_method method)
  end.

Definition server : virtuals T := Virtuals parseHeader parseStatusLine.

Definition header (d : list Z) (len : Z) : list Z :=
  bytes_of "HTTP/1.1 200 OK" ++ CRLF ++
  bytes_of "Date: " ++ d ++ CRLF ++
  bytes_of "Server: Thrift/" ++ VERSION ++ CRLF ++
  bytes_of "Access-Control-Allow-Origin: *" ++ CRLF ++
  bytes_of "Content-Type: application/x-thrift" ++ CRLF ++
  bytes_of "Content-Length: " ++ decimal len ++ CRLF ++
  bytes_of "Connection: Keep-Alive" ++ CRLF ++
  CRLF.

Definition flush : M St unit :=
  let! buf := on_writeBuffer getBuffer in
  let! d := date in
  send_message (header d (zlen buf)) buf.

Definition transport `{Platform} (fuel : Z) : TTransport St := http_transport server fuel flush.
End Operations.
End Server.
