(* ===== verification/HttpReader.v ===== *)
(** * What the HTTP transports read

    The stream as lines and a body, as pure functions on the bytes to come; the
    code of THttpTransport.cpp computes them however the bytes arrive, and never
    leaves its buffer, on any input. *)

From S2P Require Export MemoryQueue HttpTransport.

(** ** The message on a stream *)

(** The first line: what precedes a CRLF, with no NUL in it, and what follows. *)
Definition cut_line (bs : list Z) : option (list Z * list Z) :=
  match strstr CRLF (take_while nonzero bs) with
  | Some i => Some (ztake i bs, zdrop (i + CRLF_LEN) bs)
  | None => None
  end.

Lemma cut_line_inv bs l tail : cut_line bs = Some (l, tail) -> bs = l ++ CRLF ++ tail /\ no_nul l.
Proof.
  unfold cut_line. destruct (strstr _ _) as [i|] eqn:Hi; [|done]. intros [= <- <-].
  destruct (strstr_inv _ _ _ Hi) as (a & b & Ht & ->). pose proof (take_while_ok nonzero bs) as Hok.
  destruct (take_while_prefix nonzero bs) as [r Hr]. rewrite Ht in Hr, Hok. subst bs.
  unfold no_nul. rewrite forallb_app in Hok. breflect. rewrite <- !app_assoc.
  rewrite ztake_app by done. rewrite zdrop_app_ge by (unfold CRLF_LEN; lia).
  replace (zlen a + CRLF_LEN - zlen a) with 2 by (unfold CRLF_LEN; lia). done.
Qed.

Lemma cut_line_more bs r l tail : cut_line bs = Some (l, tail) -> cut_line (bs ++ r) = Some (l, tail ++ r).
Proof.
  unfold cut_line. destruct (strstr _ _) as [i|] eqn:Hi; [|done]. intros [= <- <-].
  destruct (strstr_inv _ _ _ Hi) as (a & b & Ht & ->).
  destruct (take_while_app nonzero bs r) as [x ->]. rewrite (strstr_more _ _ _ _ Hi).
  destruct (take_while_prefix nonzero bs) as [y Hy]. pose proof (zlen_nonneg a). pose proof (zlen_nonneg b).
  assert (zlen a + 2 <= zlen bs).
  { rewrite Hy, Ht, !zlen_app. change (zlen CRLF) with 2. pose proof (zlen_nonneg y). lia. }
  unfold CRLF_LEN. by rewrite ztake_app_le, zdrop_app_le by lia.
Qed.

(** A line without NUL and CR is cut off whole. *)
Definition plain (ch : Z) : bool := (nonzero ch && negb (ch =? 13))%bool.

Lemma cut_line_plain l tail :
  forallb plain l = true -> cut_line (l ++ CRLF ++ tail) = Some (l, tail).
Proof.
  intros Hl. unfold cut_line. destruct (take_while_app nonzero (l ++ CRLF) tail) as [x Hx].
  rewrite <- app_assoc in Hx. rewrite Hx. rewrite take_while_all.
  2:{ rewrite forallb_app. apply andb_true_iff. split; [|done]. revert Hl. apply forallb_weaken.
      by intros y [? ?]%andb_true_iff. }
  rewrite <- app_assoc. unfold CRLF at 1 3. rewrite (strstr_pass 13 [10]).
  2:{ revert Hl. apply forallb_weaken. by intros y [? ?]%andb_true_iff. }
  rewrite ztake_app by done. unfold CRLF_LEN. rewrite zdrop_app_ge by lia.
  by replace (zlen l + 2 - zlen l) with 2 by lia.
Qed.

Lemma cut_line_blank tail : cut_line (CRLF ++ tail) = Some ([], tail).
Proof. by apply (cut_line_plain []). Qed.

(** The bytes of a body of [n] bytes. *)
Definition body_of (n : Z) (bs : list Z) : exn + (list Z * list Z) :=
  if n <=? zlen bs then inr (ztake n bs, zdrop n bs) else inl refill_failed.

(** The lines up to a blank one; [n] is more than the lines there can be. *)
Fixpoint footers_of (n : nat) (bs : list Z) : exn + list Z :=
  match n, cut_line bs with
  | S n, Some (line, tail) => if zlen line =? 0 then inr tail else footers_of n tail
  | _, _ => inl refill_failed
  end.

(** One chunk: its bytes, whether it was the last, what follows. *)
Definition chunk_of `{CLibrary} (bs : list Z) : exn + (list Z * bool * list Z) :=
  match cut_line bs with
  | None => inl refill_failed
  | Some (line, bs) =>
      let n := parseChunkSize line in
      if n =? 0 then
        match footers_of (length bs) bs with
        | inl e => inl e
        | inr tail => inr ([], true, tail)
        end
      else
        match body_of n bs with
        | inl e => inl e
        | inr (d, bs) =>
            match cut_line bs with
            | None => inl refill_failed
            | Some (_, tail) => inr (d, false, tail)
            end
        end
  end.

Section Message.
Context `{CLibrary} (status : list Z -> exn + bool) (step : list Z -> header_info -> header_info).

Fixpoint headers_of (n : nat) (c : bool * bool) (i : header_info) (bs : list Z)
    : exn + (header_info * list Z) :=
  match n, cut_line bs with
  | S n, Some (line, tail) =>
      let '(statusLine, finished) := c in
      if zlen line =? 0 then
        if (finished : bool) then inr (i, tail) else headers_of n (true, finished) i tail
      else if (statusLine : bool) then
        match status line with
        | inl e => inl e
        | inr finished => headers_of n (false, finished) i tail
        end
      else headers_of n (statusLine, finished) (step line i) tail
  | _, _ => inl refill_failed
  end.

(** A message, or its first chunk: the headers, the bytes of the body, whether
    that was the last chunk, and what follows. *)
Record message := Message {
  msg_info : header_info; msg_body : list Z; msg_done : bool; msg_tail : list Z
}.
Definition message_of (bs : list Z) : exn + message :=
  match headers_of (length bs) (true, false) (HeaderInfo false 0) bs with
  | inl e => inl e
  | inr (i, bs) =>
      if is_chunked i then
        match chunk_of bs with
        | inl e => inl e
        | inr (d, last, tail) => inr (Message i d last tail)
        end
      else
        match body_of (content_length i) bs with
        | inl e => inl e
        | inr (d, tail) => inr (Message i d false tail)
        end
  end.
End Message.

(** ** The representation invariant *)

Section Reader.
Context `{Platform} `{!Unbounded} `{CLibrary} {T : Type} `{TTransport T}.
Context `{!ReadLaws T} `{!EndLaws T}.
Abbreviation St := (THttpTransport T).
Implicit Types s : St.

(** The most bytes the theorems let one connection hold at a time: twice doubled,
    the size of the buffer still fits 32 bits. *)
Definition max_input : Z := 2 ^ 30.

(** What has been read from the transport and not taken yet. *)
Definition buffered (s : St) : list Z :=
  zslice (httpPos_ s) (httpBufLen_ s) (default [] (httpBuf_ s)).

(** The window lies in the block. *)
Definition window_ok (s : St) : Prop :=
  exists b, httpBuf_ s = Some b /\ zlen b = httpBufSize_ s + 1 /\
    0 <= httpPos_ s <= httpBufLen_ s /\ httpBufLen_ s <= httpBufSize_ s /\
    0 < httpBufSize_ s <= 3 * max_input.
(** A NUL is behind it. *)
Definition nul_behind (s : St) : Prop :=
  zslice (httpBufLen_ s) (httpBufLen_ s + 1) (default [] (httpBuf_ s)) = [0].

(** [s] will see the bytes [bs], of which the [rest] is still in the transport. *)
Definition http_at (s : St) (bs : list Z) : Prop :=
  window_ok s /\ mb_inv (writeBuffer_ s) /\
  exists rest, bs = buffered s ++ rest /\ incoming (transport_ s) rest /\
    httpBufLen_ s + zlen rest <= max_input.
Definition http_in (s : St) (bs : list Z) : Prop := nul_behind s /\ http_at s bs.

(** What reading lines and bodies, and reading a line alone, leave as they are. *)
Definition flags (s : St) :=
  (readHeaders_ s, HeaderInfo (chunked_ s) (contentLength_ s), chunkedDone_ s).
Definition others (s : St) := (readBuffer_ s, flags s).

Lemma zlen_buffered s : window_ok s -> zlen (buffered s) = httpBufLen_ s - httpPos_ s.
Proof using Type. intros (b & Hb & ? & ? & ? & ?). unfold buffered. rewrite Hb. cbn. rewrite zlen_zslice; lia. Qed.

Lemma http_at_le s bs : http_at s bs -> zlen (buffered s) <= zlen bs <= max_input.
Proof using Type.
  intros (Hw & _ & rest & -> & _ & Hc). pose proof (zlen_buffered s Hw) as Hl.
  destruct Hw as (b & _ & _ & ? & _). zlist.
Qed.

(** Only the window, the transport and the write buffer matter. *)
Lemma http_in_ext s s' bs :
  (transport_ s', writeBuffer_ s', httpBuf_ s', httpPos_ s', httpBufLen_ s', httpBufSize_ s') =
  (transport_ s, writeBuffer_ s, httpBuf_ s, httpPos_ s, httpBufLen_ s, httpBufSize_ s) ->
  http_in s bs -> http_in s' bs.
Proof using Type.
  intros [= Ht Hwb Hb Hp Hl Hsz]. unfold http_in, http_at, nul_behind, window_ok, buffered.
  by rewrite Ht, Hwb, Hb, Hp, Hl, Hsz.
Qed.

Lemma runs_http_block s b (Q : list Z -> St -> Prop) E :
  httpBuf_ s = Some b -> Q b s -> runs http_block s Q E.
Proof using Type. intros Hb HQ. unfold http_block. wp. rewrite Hb. by wp. Qed.

Lemma runs_poke i x s b (Q : unit -> St -> Prop) E :
  httpBuf_ s = Some b -> 0 <= i < zlen b ->
  Q tt (set_httpBuf (Some (zsplice i [x] b)) s) -> runs (poke i x) s Q E.
Proof using Type.
  intros Hb Hi HQ. unfold poke. wp. eapply runs_http_block; [exact Hb|]. wp.
  apply runs_store_mem; [lia|change (zlen [x]) with 1; lia|]. by wp.
Qed.

(** Storing the terminator at the end of the window. *)
Lemma terminated i b : 0 <= i < zlen b -> zslice i (i + 1) (zsplice i [0] b) = [0].
Proof using Type. intros. apply (zslice_zsplice_at i [0]). lia. Qed.

(** ** [refill] *)

(** Room for at least one byte, in the block or by doubling it. *)
Lemma reserve_spec s :
  window_ok s -> httpBufLen_ s <= max_input ->
  succeeds reserve s (fun _ s' => exists b size,
    s' = set_httpBuf (Some b) (set_size size s) /\ zlen b = size + 1 /\
    zslice 0 (httpBufLen_ s) b = zslice 0 (httpBufLen_ s) (default [] (httpBuf_ s)) /\
    httpBufLen_ s < size <= 3 * max_input).
Proof using Type*.
  intros (b & Hb & Hlen & Hp & Hl & Hsz) Hmax. unfold max_input, reserve in *. wp. unwrap.
  rewrite Hb. cbn [default].
  pose proof (Z.div_mod (httpBufSize_ s) 4 ltac:(lia)). pose proof (Z.mod_pos_bound (httpBufSize_ s) 4 ltac:(lia)).
  bif; wp.
  - apply (runs_http_block _ b); [exact Hb|]. rewrite always_alloc. wp. cbn. unwrap.
    eexists _, _. split_and!; [reflexivity|apply zlen_realloc; lia| |lia|lia].
    rewrite ztake_ge by lia. by rewrite zslice_app_l by lia.
  - exists b, (httpBufSize_ s). split_and!; [by destruct s; cbn in *; subst|done|done|lia|lia].
Qed.

(** Taking more bytes into the window; the block beyond it changes. *)
Definition taken (s : St) (b : list Z) (size : Z) (got : list Z) (t : T) : St :=
  set_httpBuf (Some (zsplice (httpBufLen_ s + zlen got) [0] (zsplice (httpBufLen_ s) got b)))
    (set_window (httpPos_ s) (httpBufLen_ s + zlen got) (set_transport t (set_size size s))).

Lemma taken_window s b size got t :
  window_ok s -> zlen b = size + 1 -> httpBufLen_ s + zlen got <= size -> size <= 3 * max_input ->
  0 < size ->
  zslice 0 (httpBufLen_ s) b = zslice 0 (httpBufLen_ s) (default [] (httpBuf_ s)) ->
  window_ok (taken s b size got t) /\ nul_behind (taken s b size got t) /\ buffered (taken s b size got t) = buffered s ++ got.
Proof using Type.
  intros (b0 & Hb0 & Hlen0 & Hp & Hl & Hsz) Hb Hroom Hmax Hpos Hsame. pose proof (zlen_nonneg got).
  assert (zlen (zsplice (httpBufLen_ s) got b) = size + 1) as Hl1 by (rewrite zlen_zsplice; lia).
  split_and!.
  - eexists. split; [reflexivity|]. cbn. rewrite zlen_zsplice by (change (zlen [0]) with 1; lia).
    split_and!; lia.
  - apply terminated. lia.
  - unfold buffered. cbn. rewrite zslice_zsplice_before by lia.
    rewrite (zslice_split _ (httpBufLen_ s)) by lia. rewrite zslice_zsplice_before by lia.
    f_equal; [|apply zslice_zsplice_at; lia]. rewrite Hb0 in *. cbn [default] in *.
    rewrite <- (zslice_suffix 0 (httpBufLen_ s) (httpPos_ s)) by lia. rewrite Hsame.
    by rewrite zslice_suffix by lia.
Qed.

Lemma http_refill_spec s bs :
  http_at s bs ->
  runs refill s
    (fun _ s' => http_in s' bs /\ zlen (buffered s) < zlen (buffered s') /\ others s' = others s /\
       httpPos_ s' = httpPos_ s)
    (fun e _ => e = refill_failed /\ bs = buffered s).
Proof using Type*.
  intros (Hw & Hwb & rest & -> & Hin & Hmax). pose proof (zlen_nonneg rest).
  assert (httpBufLen_ s <= max_input) as Hlm by lia. pose proof Hw as (b0 & _ & _ & Hp & Hl & Hsz).
  unfold refill. wp. eapply runs_mono; [by apply reserve_spec| |done].
  cbn beta. intros _ s1 (b & size & -> & Hb & Hsame & Hroom). wp. cbn. unfold max_input in *. unwrap.
  unfold on_transport. wp. cbn.
  eapply runs_mono; [apply (read_prefix _ (size - httpBufLen_ s) _ Hin); lia| |done].
  cbn. intros got t (k & -> & Hin' & Hk & Hpos). assert (zlen (ztake k rest) = k) as Hgot by zlist.
  wp. eapply runs_http_block; [reflexivity|]. wp. apply runs_store_mem; [lia|lia|]. wp. cbn.
  unwrap. eapply runs_poke; [reflexivity|rewrite zlen_zsplice; lia|].
  match goal with |- runs _ ?st _ _ => change st with (taken s b size (ztake k rest) t) end.
  destruct (taken_window s b size (ztake k rest) t Hw) as (Hw2 & Hn2 & Hb2); [lia|lia|unfold max_input; lia|lia|done|].
  rewrite Hgot. bif; wp.
  - split; [done|]. assert (rest = []) as -> by (apply zlen_0; lia). by rewrite app_nil_r.
  - split; [|split; [rewrite Hb2; zlist|done]].
    split; [exact Hn2|]. split_and!; [exact Hw2|exact Hwb|]. exists (zdrop k rest). rewrite Hb2.
    rewrite <- app_assoc, ztake_zdrop. split_and!; [done|exact Hin'|]. cbn. unfold max_input. zlist.
Qed.

(** ** [shift] and [readLine] *)

Lemma shift_spec s bs :
  http_in s bs ->
  succeeds shift s (fun _ s' =>
    http_in s' bs /\ buffered s' = buffered s /\ others s' = others s).
Proof using Type.
  intros (_ & Hw & Hwb & rest & -> & Hin & Hmax). pose proof (zlen_buffered s Hw) as Hbl.
  destruct Hw as (b & Hb & Hlen & Hp & Hl & Hsz).
  assert (Hend : forall b', zlen b' = zlen b ->
    zslice 0 (httpBufLen_ s - httpPos_ s) b' = buffered s ->
    let s' := set_httpBuf (Some (zsplice (httpBufLen_ s - httpPos_ s) [0] b'))
                (set_window 0 (httpBufLen_ s - httpPos_ s) s) in
    http_in s' (buffered s ++ rest) /\ buffered s' = buffered s /\ others s' = others s).
  { intros b' Hb' Hsl s'. assert (Hbs' : buffered s' = buffered s).
    { unfold buffered at 1, s'. cbn. by rewrite zslice_zsplice_before by lia. }
    split; [|done]. split; [apply terminated; lia|]. split_and!; [|done|].
    - eexists. split; [reflexivity|]. cbn. rewrite zlen_zsplice by (change (zlen [0]) with 1; lia).
      split_and!; lia.
    - exists rest. rewrite Hbs'. split_and!; [done|done|cbn; lia]. }
  assert (Hbuf : buffered s = zslice (httpPos_ s) (httpBufLen_ s) b).
  { unfold buffered. by rewrite Hb. }
  unfold shift. wp. bif; wp.
  - eapply runs_http_block; [exact Hb|]. wp. apply runs_load_mem; [lia|lia|lia|]. wp.
    assert (Hz : zlen (zslice (httpPos_ s) (httpPos_ s + (httpBufLen_ s - httpPos_ s)) b)
      = httpBufLen_ s - httpPos_ s) by (rewrite zlen_zslice; lia).
    apply runs_store_mem; [lia|lia|]. wp. eapply runs_poke; [reflexivity|cbn; rewrite zlen_zsplice; lia|].
    apply (Hend (zsplice 0 _ b)); [rewrite zlen_zsplice; lia|]. rewrite <- Hz at 1.
    etransitivity; [apply (zslice_zsplice_at 0); lia|]. rewrite Hbuf. f_equal. lia.
  - cbn. eapply runs_poke; [exact Hb|cbn; lia|]. cbn.
    assert (Hnil : buffered s = []) by (apply zlen_0; lia).
    specialize (Hend b eq_refl). replace (httpBufLen_ s - httpPos_ s) with 0 in Hend by lia.
    apply Hend. rewrite Hnil. by apply zslice_empty.
Qed.

(** The C string at the read position is what is buffered, up to its first NUL. *)
Lemma buffered_string s b :
  window_ok s -> nul_behind s -> httpBuf_ s = Some b ->
  c_string (zdrop (httpPos_ s) b) = Some (take_while nonzero (buffered s)).
Proof using Type.
  intros (b' & Hb' & Hlen & Hp & Hl & _) Hnul Hb. assert (b' = b) as -> by congruence.
  unfold nul_behind in Hnul. rewrite Hb in Hnul. cbn in Hnul.
  rewrite <- (c_string_nul (buffered s) (zdrop (httpBufLen_ s + 1) b)). f_equal.
  unfold buffered. rewrite Hb. cbn [default]. rewrite <- (ztake_zdrop (httpBufLen_ s - httpPos_ s) (zdrop _ b)) at 1.
  f_equal. rewrite zdrop_zdrop by lia. replace (httpBufLen_ s - httpPos_ s + httpPos_ s) with (httpBufLen_ s) by lia.
  rewrite <- (ztake_zdrop 1 (zdrop (httpBufLen_ s) b)). rewrite zdrop_zdrop by lia. unfold zslice in Hnul.
  replace (httpBufLen_ s + 1 - httpBufLen_ s) with 1 in Hnul by lia. rewrite Hnul.
  by replace (1 + httpBufLen_ s) with (httpBufLen_ s + 1) by lia.
Qed.

(** Taking [n] of what is buffered, whatever is then stored before the new position. *)
Lemma take_window s bs n b b' :
  http_in s bs -> 0 <= n <= zlen (buffered s) -> httpBuf_ s = Some b ->
  zlen b' = zlen b -> zdrop (httpPos_ s + n) b' = zdrop (httpPos_ s + n) b ->
  let s' := set_window (httpPos_ s + n) (httpBufLen_ s) (set_httpBuf (Some b') s) in
  http_in s' (zdrop n bs) /\ buffered s' = zdrop n (buffered s) /\ others s' = others s.
Proof using Type.
  intros (Hnul & Hw & Hwb & rest & -> & Hin & Hmax) Hn Hb Hlen' Hsame s'.
  pose proof (zlen_buffered s Hw) as Hbl. destruct Hw as (b0 & Hb0 & Hlen & Hp & Hl & Hsz).
  assert (b0 = b) as -> by congruence.
  assert (Htail : forall i j, httpPos_ s + n <= i -> zslice i j b' = zslice i j b).
  { intros i j Hi. unfold zslice. f_equal. set (p := httpPos_ s + n) in *.
    replace i with ((i - p) + p) by lia. rewrite <- (zdrop_zdrop (i - p) p b'), <- (zdrop_zdrop (i - p) p b) by lia.
    by rewrite Hsame. }
  assert (Hbs' : buffered s' = zdrop n (buffered s)).
  { unfold buffered, s'. rewrite Hb. cbn. rewrite Htail by lia. by rewrite zslice_suffix by lia. }
  split; [|done]. split; [|split_and!; [|done|]].
  - unfold nul_behind, s' in *. cbn. rewrite Htail by lia. by rewrite Hb in Hnul.
  - exists b'. cbn. split_and!; done || lia.
  - exists rest. rewrite Hbs', zdrop_app_le by lia. by split_and!.
Qed.

Section Lines.
Context (fuel : Z).

Lemma readLine_spec s bs :
  http_in s bs -> zlen bs < fuel ->
  runs (readLine fuel) s
    (fun l s' => exists tail, cut_line bs = Some (l, tail) /\ http_in s' tail /\ others s' = others s)
    (fun e _ => e = refill_failed /\ cut_line bs = None).
Proof using All.
  intros Hs Hf. pose proof (http_at_le s bs (proj2 Hs)) as Hle. pose proof (zlen_nonneg (buffered s)).
  apply (runs_iterate_budget
    (fun n _ s' => http_in s' bs /\ others s' = others s /\ n = zlen bs - zlen (buffered s')))
    with (n := zlen bs - zlen (buffered s)); [|done|lia].
  intros n u s1 (Hs1 & Ho1 & ->). unfold readLine_body. wp. pose proof Hs1 as (Hnul & Hw & _ & rest & Hbs & _).
  pose proof Hw as (b & Hb & Hlen & Hp & Hl & Hsz). eapply runs_http_block; [exact Hb|].
  rewrite (buffered_string s1 b) by done. pose proof (zlen_buffered s1 Hw) as Hbl.
  destruct (strstr CRLF (take_while nonzero (buffered s1))) as [i|] eqn:Hi.
  - assert (Hcut : cut_line (buffered s1) = Some (ztake i (buffered s1), zdrop (i + CRLF_LEN) (buffered s1)))
      by (unfold cut_line; by rewrite Hi).
    assert (0 <= i /\ i + 2 <= zlen (buffered s1) /\
            ztake i (take_while nonzero (buffered s1)) = ztake i (buffered s1)) as (Hi0 & Hi2 & Htk).
    { destruct (strstr_inv _ _ _ Hi) as (x & y & Hxy & ->).
      destruct (take_while_prefix nonzero (buffered s1)) as [z Hz]. rewrite Hz, Hxy at 1. rewrite Hz at 2.
      pose proof (zlen_nonneg x). pose proof (zlen_nonneg y). pose proof (zlen_nonneg z).
      rewrite ztake_app_le by (rewrite Hxy, zlen_app; zlist). split_and!; [lia| |done].
      rewrite !zlen_app. change (zlen CRLF) with 2. lia. }
    wp. eapply runs_poke; [exact Hb|lia|]. wp. rewrite Htk. cbn. unfold max_input in *. unfold CRLF_LEN. unwrap.
    destruct (take_window s1 bs (i + 2) b (zsplice (httpPos_ s1 + i) [0] b)) as (Hs2 & _ & Ho2); try done;
      [lia|apply zlen_zsplice; [lia|change (zlen [0]) with 1; lia]| |].
    { unfold zsplice. rewrite app_assoc, zdrop_app_ge by zlist. rewrite zlen_app, zlen_ztake. change (zlen [0]) with 1.
      rewrite zdrop_zdrop by lia. f_equal. lia. }
    exists (zdrop (i + 2) bs). rewrite Hbs at 1. rewrite (cut_line_more _ rest _ _ Hcut).
    split_and!; [|by rewrite Z.add_assoc in Hs2|exact Ho1].
    by rewrite Hbs, <- zdrop_app_le by (unfold CRLF_LEN; lia).
  - wp. eapply runs_mono; [by apply shift_spec| |done]. cbn beta. intros _ s2 (Hs2 & Hb2 & Ho2). wp.
    eapply runs_mono; [by apply (http_refill_spec s2 bs), Hs2| |].
    + cbn beta. intros _ s3 (Hs3 & Hlt & Ho3 & _). wp. rewrite Hb2 in Hlt. pose proof (http_at_le s3 bs (proj2 Hs3)).
      exists (zlen bs - zlen (buffered s3)). split; [lia|]. split_and!; [done|congruence|done].
    + intros e s3 [-> Heq]. split; [done|]. rewrite Heq, Hb2. unfold cut_line. by rewrite Hi.
Qed.

(** ** The body *)

(** [bs] is to come, [readBuffer_] holds [c] and has room for all of [bs]. *)
Definition reading (s : St) (c bs : list Z) : Prop :=
  http_in s bs /\ outgoing (readBuffer_ s) c (zlen bs).

(** A non-empty window, refilled if it has to be. *)
Lemma content_avail_spec s bs :
  http_in s bs ->
  runs content_avail s
    (fun n s' => http_in s' bs /\ n = zlen (buffered s') /\ 0 < n /\ others s' = others s)
    (fun e _ => e = refill_failed /\ bs = []).
Proof using Type*.
  intros Hs. pose proof Hs as (_ & Hw & Hwb & rest & Hbs & Hin & Hmax).
  pose proof (zlen_buffered s Hw) as Hbl. pose proof (http_at_le s bs (proj2 Hs)) as Hle.
  pose proof Hw as (b & Hb & Hlen & Hp & Hl & Hsz).
  unfold content_avail, max_input in *. wp. unwrap. bif; wp.
  2:{ split_and!; [done|lia|lia|done]. }
  assert (buffered s = []) as Hnil by (apply zlen_0; lia).
  assert (Hs0 : http_at (set_window 0 0 s) bs /\ buffered (set_window 0 0 s) = []).
  { assert (buffered (set_window 0 0 s) = []) as H0' by (unfold buffered; cbn; by apply zslice_empty).
    split; [|done]. split_and!; [|done|].
    - exists b. unfold max_input. cbn. split_and!; done || lia.
    - exists rest. rewrite H0'. rewrite Hnil in Hbs. split_and!; [done|done|cbn; unfold max_input; lia]. }
  destruct Hs0 as [Hs0 Hz]. eapply runs_mono; [apply (http_refill_spec _ _ Hs0)| |].
  - cbn beta. intros _ s1 (Hs1 & Hlt & Ho1 & Hpos). wp. rewrite Hz in Hlt. cbn in Hpos. change (zlen (@nil Z)) with 0 in Hlt.
    pose proof (zlen_buffered s1 (proj1 (proj2 Hs1))) as Hl1. rewrite Hpos in Hl1.
    split; [exact Hs1|]. split_and!; [lia|lia|exact Ho1].
  - cbn beta. intros e s1 [-> Heq]. by rewrite Heq, Hz.
Qed.

(** The rounds of [readContent] move the body over piece by piece. *)
Lemma readContent_spec s c bs size :
  reading s c bs -> 0 <= size -> zlen bs < fuel ->
  runs (readContent fuel size) s
    (fun n s' => n = size /\ size <= zlen bs /\ flags s' = flags s /\
       reading s' (c ++ ztake size bs) (zdrop size bs))
    (fun e _ => e = refill_failed /\ zlen bs < size).
Proof using All.
  intros [Hs Hout] Hsz Hf. pose proof (http_at_le s bs (proj2 Hs)) as Hle. pose proof (zlen_nonneg bs).
  apply (runs_iterate_budget
    (fun n need s' => 0 <= need <= size /\ n = zlen bs - (size - need) /\ 0 <= n /\ flags s' = flags s /\
       reading s' (c ++ ztake (size - need) bs) (zdrop (size - need) bs)))
    with (n := zlen bs).
  2:{ rewrite Z.sub_diag, ztake_0, zdrop_0, app_nil_r by lia. split_and!; try done; lia. }
  2:{ lia. }
  intros n need s1 (Hneed & -> & Hn & Hf1 & [Hs1 Hout1]). unfold readContent_body. bif.
  2:{ wp. assert (need = 0) as -> by lia. rewrite Z.sub_0_r in *. split_and!; try done. lia. }
  set (j := size - need) in *. wp. eapply runs_mono; [by apply content_avail_spec| |].
  2:{ cbn beta. intros e s2 [-> Hnil]. split; [done|]. apply (f_equal zlen) in Hnil. zlist. }
  cbn beta. intros av s2 (Hs2 & -> & Hpos & Ho2). wp.
  set (give := if need <? zlen (buffered s2) then need else zlen (buffered s2)).
  assert (0 < give <= zlen (buffered s2) /\ give <= need) as [Hg1 Hg2] by (unfold give; bif; lia).
  pose proof Hs2 as (_ & Hw & _ & rest & Hbs & _). pose proof (zlen_buffered s2 Hw) as Hbl.
  pose proof (http_at_le s2 _ (proj2 Hs2)) as Hle2. pose proof Hw as (b & Hblk & Hlen & Hp & Hl & Hsz2).
  eapply runs_http_block; [exact Hblk|]. wp. apply runs_load_mem; [lia|lia|lia|]. unfold on_readBuffer. wp.
  assert (Hd : zslice (httpPos_ s2) (httpPos_ s2 + give) b = ztake give (zdrop j bs)).
  { rewrite Hbs, ztake_app_le by lia. unfold buffered. rewrite Hblk. cbn. by rewrite zslice_prefix by lia. }
  rewrite Hd. apply pair_equal_spec in Ho2 as [Hr2 Hf2]. rewrite Hr2.
  assert (zlen (ztake give (zdrop j bs)) = give) as Hzg by zlist.
  eapply runs_mono; [apply (write_ok _ _ _ _ Hout1); rewrite Hzg; unfold max_input in *; lia| |done].
  cbn beta. intros _ r Hout2. wp. cbn. unfold max_input in *. unwrap.
  destruct (take_window s2 (zdrop j bs) give b b Hs2) as (Hs3 & _ & _); [lia|done|done|done|].
  rewrite zdrop_zdrop in Hs3 by lia. rewrite Hzg in Hout2.
  assert (Hj : ztake j bs ++ ztake give (zdrop j bs) = ztake (size - (need - give)) bs).
  { replace (size - (need - give)) with (j + give) by lia. by rewrite ztake_add by lia. }
  exists (zlen bs - (size - (need - give))). split; [zlist|]. split_and!; try (zlist; lia).
  { exact (eq_trans Hf2 Hf1). }
  replace (give + j) with (size - (need - give)) in Hs3 by lia.
  assert (zlen (zdrop j bs) - give = zlen (zdrop (size - (need - give)) bs)) as Hz.
  { rewrite !zlen_zdrop in *. lia. }
  rewrite Hz, <- app_assoc, Hj in Hout2. split; [|exact Hout2].
  eapply http_in_ext; [|exact Hs3]. cbn. by rewrite Hblk.
Qed.

(** ** Lines and chunks of a message *)

Lemma less_room (r : TMemoryBuffer) c room room' :
  outgoing r c room -> room' <= room -> outgoing r c room'.
Proof using Type. intros (? & ? & ? & ?) Hr. split_and!; done || lia. Qed.

Lemma reading_ext s s' c bs :
  (transport_ s', writeBuffer_ s', httpBuf_ s', httpPos_ s', httpBufLen_ s', httpBufSize_ s') =
  (transport_ s, writeBuffer_ s, httpBuf_ s, httpPos_ s, httpBufLen_ s, httpBufSize_ s) ->
  readBuffer_ s' = readBuffer_ s -> reading s c bs -> reading s' c bs.
Proof using Type. intros He Hr [Hs Hout]. split; [by eapply http_in_ext|by rewrite Hr]. Qed.

Lemma cut_line_shorter bs l tail : cut_line bs = Some (l, tail) -> zlen tail + 2 <= zlen bs.
Proof using Type.
  intros [-> _]%cut_line_inv. rewrite !zlen_app. change (zlen CRLF) with 2. pose proof (zlen_nonneg l). lia.
Qed.

Lemma readLine_reading s c bs :
  reading s c bs -> zlen bs < fuel ->
  runs (readLine fuel) s
    (fun l s' => exists tail, cut_line bs = Some (l, tail) /\ reading s' c tail /\ flags s' = flags s)
    (fun e _ => e = refill_failed /\ cut_line bs = None).
Proof using All.
  intros [Hs Hout] Hf. eapply runs_mono; [by apply readLine_spec| |done].
  cbn beta. intros l s' (tail & Hcut & Hs' & Ho). exists tail. apply cut_line_shorter in Hcut as Hle.
  apply pair_equal_spec in Ho as [Hr Hfl]. split; [done|]. split; [|done]. split; [done|].
  rewrite Hr. eapply less_room; [exact Hout|lia].
Qed.

Lemma footers_spec s c bs :
  reading s c bs -> zlen bs < fuel ->
  runs (readChunkedFooters fuel) s
    (fun _ s' => exists tail, footers_of (length bs) bs = inr tail /\ reading s' c tail /\
       zlen tail <= zlen bs /\ (flags s').1 = (flags s).1 /\ chunkedDone_ s' = true)
    (fun e _ => footers_of (length bs) bs = inl e).
Proof using All.
  intros Hs Hf. apply (runs_iterate_budget
    (fun n _ s' => exists k bs', n = Z.of_nat k /\ zlen bs' <= n <= zlen bs /\ reading s' c bs' /\
       footers_of k bs' = footers_of (length bs) bs /\ (flags s').1 = (flags s).1))
    with (n := zlen bs); [| |pose proof (zlen_nonneg bs); lia].
  2:{ exists (length bs), bs. split_and?; done || unfold zlen; lia. }
  intros n u s1 (k & bs1 & -> & Hk & Hs1 & <- & Hf1). unfold footers_body. wp.
  eapply runs_mono; [apply (readLine_reading s1 c bs1 Hs1); lia| |].
  2:{ intros e s2 [-> Hcut]. destruct k; cbn [footers_of]; [done|by rewrite Hcut]. }
  cbn beta. intros l s2 (tail & Hcut & Hs2 & Hf2). apply cut_line_shorter in Hcut as Hle. rewrite <- Hf2 in Hf1.
  pose proof (zlen_nonneg tail). destruct k as [|k]; [lia|]. cbn [footers_of]. rewrite Hcut. bif; wp.
  - exists tail. split_and?; done || lia.
  - exists (Z.of_nat k). split; [lia|]. exists k, tail. split_and?; done || lia.
Qed.

Lemma parseChunkSize_range line : in_u 32 (parseChunkSize line).
Proof using Type.
  unfold parseChunkSize, scan_hex. destruct (signed _) as [neg l]. destruct (take_while _ _); [done|].
  cbn [default]. case_bool_decide; [done|]. by apply wrapu_range.
Qed.

Lemma readChunked_spec s c bs :
  reading s c bs -> zlen bs < fuel ->
  runs (readChunked fuel) s
    (fun n s' => exists d last tail, chunk_of bs = inr (d, last, tail) /\ n = zlen d /\
       reading s' (c ++ d) tail /\ zlen tail <= zlen bs /\ (flags s').1 = (flags s).1 /\
       chunkedDone_ s' = (last || chunkedDone_ s)%bool)
    (fun e _ => chunk_of bs = inl e).
Proof using All.
  intros Hs Hf. unfold readChunked, chunk_of. wp.
  eapply runs_mono; [by apply (readLine_reading s c bs)| |].
  2:{ by intros e s1 [-> ->]. }
  cbn beta. intros l s1 (tail & Hcut & Hs1 & Hf1). apply cut_line_shorter in Hcut as Hle. rewrite Hcut.
  pose proof (f_equal snd Hf1) as Hd1. cbn in Hd1. pose proof (parseChunkSize_range l) as Hsz. bif; wp.
  - eapply runs_mono; [apply (footers_spec s1 c tail Hs1); lia| |].
    2:{ by intros e s2 ->. }
    cbn beta. intros _ s2 (t & -> & Hs2 & Hlt & Hf2 & Hd2). wp. exists [], true, t. rewrite app_nil_r.
    split_and?; try done; [lia|congruence].
  - unfold body_of, in_u in *.
    eapply runs_mono; [apply (readContent_spec s1 c tail (parseChunkSize l) Hs1); lia| |].
    2:{ intros e s2 [-> Hshort]. by replace (_ <=? _) with false by lia. }
    cbn beta. intros n s2 (-> & Hlong & Hf2 & Hs2). replace (_ <=? _) with true by lia. wp.
    pose proof (f_equal snd Hf2) as Hd2. cbn in Hd2.
    eapply runs_mono; [apply (readLine_reading s2 _ _ Hs2); rewrite zlen_zdrop; lia| |].
    2:{ by intros e s3 [-> ->]. }
    cbn beta. intros l2 s3 (t & Hc3 & Hs3 & Hf3). wp. pose proof (f_equal snd Hf3) as Hd3. cbn in Hd3.
    rewrite Hc3. apply cut_line_shorter in Hc3. eexists _, false, t. split; [done|].
    split_and?; [zlist|exact Hs3|zlist|congruence|cbn; congruence].
Qed.

(** ** Messages *)

Section Messages.
Context (v : virtuals T) (status : list Z -> exn + bool) (step : list Z -> header_info -> header_info).

(** The virtual members of a subclass compute [status] and [step]. *)
Class VirtualLaws : Prop := {
  status_ok line s c bs :
    reading s c bs -> readHeaders_ s = true ->
    runs (parseStatusLine v line) s
      (fun b s' => status line = inr b /\ reading s' c bs /\ flags s' = flags s)
      (fun e _ => status line = inl e);
  header_ok line s :
    parseHeader v line s =
    (Ok tt, set_info (step line (HeaderInfo (chunked_ s) (contentLength_ s))) s);
  length_ok line i : 0 <= content_length i -> 0 <= content_length (step line i)
}.
Context `{!VirtualLaws}.

Lemma readHeaders_spec s c bs :
  reading s c bs -> readHeaders_ s = true -> zlen bs < fuel ->
  runs (readHeaders v fuel) s
    (fun _ s' => exists i tail,
       headers_of status step (length bs) (true, false) (HeaderInfo false 0) bs = inr (i, tail) /\
       reading s' c tail /\ zlen tail <= zlen bs /\ flags s' = (false, i, false) /\ 0 <= content_length i)
    (fun e _ => headers_of status step (length bs) (true, false) (HeaderInfo false 0) bs = inl e).
Proof using All.
  intros Hs Hrh Hf. unfold readHeaders. wp. set (R := headers_of _ _ _ _ _ _).
  apply (runs_iterate_budget
    (fun n a s' => exists k i bs', n = Z.of_nat k /\ zlen bs' <= n <= zlen bs /\ reading s' c bs' /\
       headers_of status step k a i bs' = R /\ flags s' = (true, i, false) /\ 0 <= content_length i))
    with (n := zlen bs); [| |pose proof (zlen_nonneg bs); lia].
  2:{ exists (length bs), (HeaderInfo false 0), bs. split_and?; try done; try (unfold zlen; lia).
      unfold flags. cbn. by rewrite Hrh. }
  intros n [sl fin] s1 (k & i & bs1 & -> & Hk & Hs1 & <- & Hf1 & Hi). unfold headers_body. wp.
  eapply runs_mono; [apply (readLine_reading s1 c bs1 Hs1); lia| |].
  2:{ intros e s2 [-> Hcut]. destruct k; cbn [headers_of]; [done|by rewrite Hcut]. }
  cbn beta. intros l s2 (tail & Hcut & Hs2 & Hf2). apply cut_line_shorter in Hcut as Hle. rewrite Hf1 in Hf2.
  pose proof (zlen_nonneg tail). destruct k as [|k]; [lia|]. cbn [headers_of]. rewrite Hcut.
  destruct (zlen l =? 0).
  { destruct fin; wp.
    - exists i, tail. split; [done|]. split_and?; try done; try lia.
      injection Hf2 as _ Hi2 Hd2. unfold flags. cbn. by rewrite Hi2, Hd2.
    - exists (Z.of_nat k). split; [lia|]. exists k, i, tail. split_and?; done || lia. }
  destruct sl; wp.
  - eapply runs_mono; [apply (status_ok l s2 c tail Hs2); by injection Hf2| |].
    2:{ by intros e s3 ->. }
    cbn beta. intros b s3 (-> & Hs3 & Hf3). wp. exists (Z.of_nat k). split; [lia|].
    exists k, i, tail. rewrite Hf2 in Hf3. split_and?; done || lia.
  - unfold runs. rewrite header_ok. exists (Z.of_nat k). split; [lia|].
    injection Hf2 as Hr1 Hi2 Hr4. exists k, (step l i), tail. rewrite Hi2.
    split_and?; try done; try lia; [|by apply length_ok].
    unfold flags. cbn. rewrite Hr1, Hr4. by destruct (step l i).
Qed.

(** One message, read from a window to which something has been added first. *)
Lemma readMoreData_spec s bs :
  reading s [] bs -> readHeaders_ s = true -> zlen bs < fuel ->
  runs (readMoreData v fuel) s
    (fun n s' => exists m, message_of status step bs = inr m /\ n = zlen (msg_body m) /\
       reading s' (msg_body m) (msg_tail m) /\ zlen (msg_tail m) <= zlen bs /\
       flags s' = (true, msg_info m, msg_done m))
    (fun e _ => message_of status step bs = inl e \/ (e = refill_failed /\ bs = buffered s)).
Proof using All.
  intros [Hs Hout] Hrh Hf. unfold readMoreData, message_of. wp.
  eapply runs_mono; [apply (http_refill_spec s bs (proj2 Hs))| |]; [|by right]. cbn beta.
  intros _ s1 (Hs1 & _ & Ho1 & _). apply pair_equal_spec in Ho1 as [Hr1 Hf1].
  assert (reading s1 [] bs) as Hrd1 by (split; [done|by rewrite Hr1]).
  assert (readHeaders_ s1 = true) as Hrh1 by (injection Hf1; congruence). wp. rewrite Hrh1.
  eapply runs_mono; [by apply (readHeaders_spec s1 [] bs)| |]; [|by intros e s2 ->; left]. cbn beta.
  intros _ s2 (i & tail & -> & Hs2 & Hle & Hf2 & Hi). wp. injection Hf2 as Hh2 Hi2 Hd2. subst i. cbn [is_chunked].
  assert (Hend : forall c t, forall s3, reading s3 c t -> reading (set_readHeaders true s3) c t).
  { intros c t s3 Hs3. by eapply reading_ext; [..|exact Hs3]. }
  destruct (chunked_ s2) eqn:Hch.
  - eapply runs_mono; [apply (readChunked_spec s2 [] tail Hs2); lia| |]; [|by intros e s3 ->; left]. cbn beta.
    intros n s3 (d & last & t & -> & -> & Hs3 & Hlt & Hf3 & Hd3). wp. eexists. split; [done|].
    cbn [msg_body msg_tail msg_info msg_done]. cbn [app] in Hs3. split_and?; [done|by apply Hend|lia|].
    rewrite Hd2, orb_false_r in Hd3. injection Hf3 as _ Hc3 Hl3. unfold flags. cbn. by rewrite Hd3, Hc3, Hl3, Hch.
  - wp. unfold body_of. cbn [content_length] in *.
    eapply runs_mono; [apply (readContent_spec s2 [] tail _ Hs2); lia| |].
    2:{ intros e s3 [-> Hshort]. left. by replace (_ <=? _) with false by lia. }
    cbn beta. intros n s3 (-> & Hlong & Hf3 & Hs3). replace (_ <=? _) with true by lia. wp. eexists. split; [done|].
    cbn [msg_body msg_tail msg_info msg_done app] in *. split_and?; [zlist|by apply Hend|zlist|].
    injection Hf3 as _ Hc3 Hl3 Hd3. unfold flags. cbn. by rewrite Hd3, Hc3, Hl3, Hch, Hd2.
Qed.

(** ** [read] and [readEnd] *)

(** Ready for [read]: [c] waits in [readBuffer_], which takes [room] more bytes, and
    [bs] is still to come. *)
Definition ready (s : St) (c bs : list Z) (room : Z) : Prop :=
  http_in s bs /\ readHeaders_ s = true /\ outgoing (readBuffer_ s) c room.

Lemma reset_room (r : TMemoryBuffer) c room :
  outgoing r c room -> succeeds resetBuffer r (fun _ r' => outgoing r' [] (2 ^ 31)).
Proof using Type.
  intros (Hi & Hc & Ho & Hw).
  eapply runs_mono; [apply (runs_keeps (fun _ r' => wBase_ (mb_ptrs r') = 0)); [|by apply resetBuffer_spec]
    | |by intros ? ? []].
  - intros r'. cbn. by destruct (owner_ r').
  - cbn. intros _ s' [(Hi' & Hc' & Ho' & _) Hz]. rewrite Ho', Hz. split_and!; done || lia.
Qed.

Lemma serve (r : TMemoryBuffer) c room n :
  outgoing r c room -> 0 <= n ->
  succeeds (t_read n) r (fun d r' => d = ztake n c /\ outgoing r' (zdrop n c) room).
Proof using Type.
  intros Hs Hn. pose proof Hs as (Hi & <- & Ho & Hw).
  eapply runs_mono; [apply (runs_keeps write_side); [apply keeps_read|by apply read_dequeue]| |by intros ? ? []].
  cbn. intros d r' [(-> & Hi' & Hc') [Ho' Hw']]. rewrite Ho', Hw'. by split_and!.
Qed.

Lemma read_buffer_spec s c bs room n :
  ready s c bs room -> 0 <= n ->
  succeeds (on_readBuffer (t_read n)) s (fun d s' =>
    d = ztake n c /\ ready s' (zdrop n c) bs room /\ buffered s' = buffered s /\ flags s' = flags s).
Proof using Type.
  intros (Hs & Hh & Hout) Hn. unfold on_readBuffer. wp.
  eapply runs_mono; [apply (serve _ _ _ n Hout Hn)| |done]. cbn beta. intros d r [-> Hr].
  split_and?; [done| |done|done]. split; [|done]. by eapply http_in_ext; [|exact Hs].
Qed.

Lemma read_http s c bs room n :
  ready s c bs room -> 0 < n < 2 ^ 32 -> zlen bs < fuel ->
  runs (read v fuel n) s
    (fun d s' =>
       if zlen c =? 0 then exists m, message_of status step bs = inr m /\ d = ztake n (msg_body m) /\
         ready s' (zdrop n (msg_body m)) (msg_tail m) (zlen (msg_tail m)) /\ zlen (msg_tail m) <= zlen bs /\
         flags s' = (true, msg_info m, msg_done m)
       else d = ztake n c /\ ready s' (zdrop n c) bs room /\ buffered s' = buffered s /\ flags s' = flags s)
    (fun e _ => c = [] /\
       (message_of status step bs = inl e \/ (e = refill_failed /\ bs = buffered s))).
Proof using All.
  intros Hs Hn Hf. pose proof Hs as (Hin & Hh & Hout). pose proof Hout as (Hi & Hc & _ & _).
  pose proof (http_at_le s bs (proj2 Hin)) as Hle. unfold max_input in Hle.
  unfold read. wp. rewrite available_read_content by done. rewrite Hc. bif.
  2:{ eapply runs_mono; [apply (read_buffer_spec s c bs room n Hs); lia| |done].
      cbn beta. intros d s' (-> & Hs' & Hb' & Hf'). done. }
  assert (c = []) as -> by (by apply zlen_0). unfold on_readBuffer at 1. wp.
  eapply runs_mono; [apply (reset_room _ _ _ Hout)| |done]. cbn beta. intros _ r Hr. wp.
  assert (reading (set_readBuffer r s) [] bs) as Hrd.
  { split; [by eapply http_in_ext; [|exact Hin]|]. cbn. eapply less_room; [exact Hr|lia]. }
  eapply runs_mono; [by apply (readMoreData_spec _ bs Hrd)| |]; [|by intros e s' He].
  cbn beta. intros got s1 (m & -> & -> & Hs1 & Hlt & Hf1). wp.
  assert (ready s1 (msg_body m) (msg_tail m) (zlen (msg_tail m))) as Hrd1.
  { destruct Hs1 as [Hin1 Hout1]. split; [done|]. split; [by injection Hf1|done]. }
  bif; wp.
  - exists m. split; [done|]. assert (msg_body m = []) as Hnil by (by apply zlen_0). rewrite Hnil in *.
    unfold ztake, zdrop. rewrite take_nil, drop_nil. by split_and?.
  - eapply runs_mono; [apply (read_buffer_spec s1 _ _ _ n Hrd1); lia| |done].
    cbn beta. intros d s2 (-> & Hs2 & _ & Hf2). exists m. rewrite Hf2. by split_and?.
Qed.

(** ** The byte-stream contract: one message *)

(** [p] is what is left of the body of [m]: it waits in [readBuffer_], or [m] has
    begun to arrive. *)
Definition within (m : message) (s : St) (p : list Z) : Prop :=
  (ready s p (msg_tail m) (zlen (msg_tail m)) /\ zlen (msg_tail m) < fuel /\
   flags s = (true, msg_info m, msg_done m)) \/
  (0 < zlen p /\ p = msg_body m /\ exists bs room,
     ready s [] bs room /\ zlen bs < fuel /\ bs <> buffered s /\ message_of status step bs = inr m).

Lemma read_within m : reads_some (read v fuel) (within m).
Proof using All.
  intros s n p Hs Hn Hp.
  assert (Hsplit : forall room s', ready s' (zdrop n p) (msg_tail m) room ->
    ready s' (zdrop (Z.min n (zlen p)) p) (msg_tail m) room /\ ztake n p = ztake (Z.min n (zlen p)) p).
  { intros room s'. destruct (Z.min_spec n (zlen p)) as [[? ->]|[? ->]]; [done|].
    by rewrite !zdrop_ge, !ztake_ge by lia. }
  destruct Hs as [(Hs & Ht & Hfl)|(_ & -> & bs & room & Hs & Hbs & Hnew & Hm)].
  - eapply runs_mono; [by apply (read_http s p _ _ n Hs)| |].
    + cbn beta. intros d s' Hd. replace (zlen p =? 0) with false in Hd by lia. destruct Hd as (-> & Hs' & _ & Hf').
      destruct (Hsplit _ _ Hs') as [Hs2 ->]. eexists. split; [done|]. split; [|lia].
      left. by rewrite Hf'.
    + cbn beta. by intros e s' [-> _].
  - eapply runs_mono; [by apply (read_http s [] bs room n Hs)| |].
    + cbn beta. change (zlen (@nil Z) =? 0) with true. cbv iota. intros d s' (m' & Hm' & -> & Hs' & Hlt & Hf').
      assert (m' = m) as -> by congruence. destruct (Hsplit _ _ Hs') as [Hs2 ->]. eexists. split; [done|].
      split; [|lia]. left. split; [done|]. split; [lia|done].
    + cbn beta. intros e s' [_ [He|[_ He]]]; congruence.
Qed.

(** Behind the message the next one is looked for. *)
Lemma read_behind m s n :
  within m s [] -> 0 < n < 2 ^ 32 -> (forall m', message_of status step (msg_tail m) <> inr m') ->
  raises (read v fuel n) s (fun e _ => e = refill_failed \/ message_of status step (msg_tail m) = inl e).
Proof using All.
  intros [(Hs & Ht & Hfl)|[Hp _]] Hn Hend; [|done].
  eapply runs_mono; [by apply (read_http s [] _ _ n Hs)| |].
  - cbn beta. change (zlen (@nil Z) =? 0) with true. cbv iota. intros d s' (m' & Hm & _).
    by apply Hend in Hm.
  - cbn beta. intros e s' [_ [He|[-> _]]]; auto.
Qed.

(** An HTTP transport is a byte stream over the body of a message. *)
Definition http_reads (flush : M St unit) (m : message)
    (Hend : forall m', message_of status step (msg_tail m) <> inr m') :
  @ReadLaws St (http_transport v fuel flush).
Proof using All.
  refine (@Build_ReadLaws St (http_transport v fuel flush) (within m) (fun _ _ _ => False)
    (fun e => no_more e \/ e = refill_failed \/ message_of status step (msg_tail m) = inl e) _ _ _ _ _ _).
  - done.
  - by apply read_within.
  - intros s n p rest Hs Hn Hmax. apply (readAll_stream _ (within m)); [by apply read_within|done..].
  - intros s n p Hs Hn Hmax.
    apply (readAll_short _ (within m) s n p (fun e => no_more e \/ e = refill_failed \/ message_of status step (msg_tail m) = inl e));
      try done.
    + by apply read_within.
    + intros s1 k Hs1 Hk. eapply runs_mono; [by apply (read_behind m s1 k)|done|]. cbn. tauto.
    + by left.
  - intros s n p Hs Hn. cbn. unfold BaseTransport.borrow_virt. by wp.
  - done.
Defined.
End Messages.

(** [refill] comes first: nothing is read of what is already there. *)
Lemma read_stalls (v : virtuals T) s bs room n :
  ready s [] bs room -> bs = buffered s -> raises (read v fuel n) s (fun e _ => e = refill_failed).
Proof using All.
  intros (Hin & Hh & Hout) Hbs. pose proof Hout as (Hi & Hc & _ & _). unfold read. wp.
  rewrite available_read_content by done. rewrite Hc. change (zlen (@nil Z) =? 0) with true. cbv iota. unfold on_readBuffer at 1. wp.
  eapply runs_mono; [apply (reset_room _ _ _ Hout)| |done]. cbn beta. intros _ r Hr. unfold readMoreData. wp.
  assert (http_in (set_readBuffer r s) bs) as Hin' by (by eapply http_in_ext; [|exact Hin]).
  eapply runs_mono; [apply (http_refill_spec _ bs (proj2 Hin'))| |by intros e s' []]. cbn beta.
  intros _ s1 (Hs1 & Hlt & _). pose proof (http_at_le s1 bs (proj2 Hs1)).
  assert (zlen (buffered (set_readBuffer r s)) = zlen bs) as Hz by (by rewrite Hbs). lia.
Qed.
End Lines.
End Reader.
