(* ===== verification/HttpMessages.v ===== *)
(** * The messages of the HTTP client and server

    [THttpClient] and [THttpServer] as the two subclasses the reader of HttpReader
    is made for, the text of a request and of a response, and what the other side
    makes of it. *)

From S2P Require Export HttpReader.

(** ** Parameters *)

Definition is_ascii (ch : Z) : bool := ((0 <=? ch) && (ch <? 128))%bool.

(** The documented behaviour of the boost algorithms on ASCII texts. *)
Class BoostLaws `{BoostStrings} : Prop := {
  istarts_with_ascii l p : forallb is_ascii l = true -> forallb is_ascii p = true ->
    istarts_with l p = starts_with (map tolower p) (map tolower l);
  iends_with_ascii l p : forallb is_ascii l = true -> forallb is_ascii p = true ->
    iends_with l p = starts_with (rev (map tolower p)) (rev (map tolower l))
}.

(** A connection: what is written to it does not come back as input. *)
Class DuplexLaws (T : Type) `{ReadLaws T} : Prop := {
  duplex_write s bs d : incoming s bs -> zlen d < 2 ^ 32 ->
    succeeds (t_write d) s (fun _ s' => incoming s' bs);
  duplex_flush s bs : incoming s bs -> succeeds t_flush s (fun _ s' => incoming s' bs)
}.

(** ** Characters of header lines *)

Lemma digits_ok n z : forallb is_digit (digits n z) = true /\ zlen (digits n z) <= Z.of_nat n.
Proof.
  revert z. induction n as [|n IH]; intros z; cbn [digits]; [done|].
  rewrite forallb_app, zlen_app. cbn [forallb]. rewrite Nat2Z.inj_succ, zlen_cons, zlen_nil.
  assert (is_digit (chr "0" + z mod 10) = true) as ->.
  { unfold is_digit. change (chr "0") with 48. change (chr "9") with 57.
    pose proof (Z.mod_pos_bound z 10 ltac:(lia)). lia. }
  destruct (IH (z / 10)) as [IH1 IH2]. bif; cbn [forallb]; [split; [done|]; rewrite zlen_nil; lia|].
  rewrite IH1. split; [done|lia].
Qed.

(** Plain ASCII. *)
Definition printable (ch : Z) : bool := (plain ch && is_ascii ch)%bool.

Lemma digit_printable ch : is_digit ch = true -> printable ch = true.
Proof.
  intros Hd%is_digit_range. unfold printable, plain, nonzero, is_ascii.
  replace (ch =? 0) with false by lia. replace (ch =? 13) with false by lia.
  replace (0 <=? ch) with true by lia. by replace (ch <? 128) with true by lia.
Qed.

Lemma decimal_ok z : forallb printable (decimal z) = true /\ zlen (decimal z) <= 21.
Proof.
  unfold decimal. destruct (digits_ok 20 z) as [H1 H2]. destruct (digits_ok 20 (- z)) as [H3 H4].
  change (Z.of_nat 20) with 20 in *.
  apply (forallb_weaken _ printable) in H1; [|apply digit_printable].
  apply (forallb_weaken _ printable) in H3; [|apply digit_printable].
  bif; [cbn [forallb]; rewrite H3, zlen_cons|]; split; done || lia.
Qed.

Lemma printable_plain l : forallb printable l = true -> forallb plain l = true.
Proof. apply forallb_weaken. by intros x [? ?]%andb_true_iff. Qed.
Lemma printable_ascii l : forallb printable l = true -> forallb is_ascii l = true.
Proof. apply forallb_weaken. by intros x [? ?]%andb_true_iff. Qed.

(** [date] can be computed, and has no character that ends a line. *)
Definition valid_time (now : tm) : Prop := 0 <= tm_wday now < 7 /\ 0 <= tm_mon now < 12.

Lemma znth_in {A} (l : list A) i : 0 <= i < zlen l -> exists x, znth l i = Some x /\ In x l.
Proof.
  intros Hi. unfold znth. replace (i <? 0) with false by lia.
  destruct (lookup_lt_is_Some_2 l (Z.to_nat i)) as [x Hx]; [unfold zlen in Hi; lia|].
  exists x. split; [done|]. apply list_elem_of_In. by eapply list_elem_of_lookup_2.
Qed.

Lemma date_ok now : valid_time now ->
  exists d, Server.getTimeRFC1123 now = Some d /\ forallb printable d = true /\ zlen d <= 200.
Proof.
  intros [Hw Hm]. unfold Server.getTimeRFC1123.
  destruct (znth_in Server.Days (tm_wday now)) as (day & -> & Hd); [done|].
  destruct (znth_in Server.Months (tm_mon now)) as (mon & -> & Hmo); [done|].
  assert (Hall : forall l x, In x l -> forallb (fun s => forallb printable s && (zlen s <=? 3))%bool l = true ->
    forallb printable x = true /\ zlen x <= 3).
  { intros l x Hx Hl. rewrite forallb_forall in Hl. specialize (Hl x Hx). breflect. split; [done|lia]. }
  destruct (Hall _ _ Hd eq_refl) as [Hd1 Hd2]. destruct (Hall _ _ Hmo eq_refl) as [Hm1 Hm2].
  eexists. split; [reflexivity|]. rewrite !forallb_app, !zlen_app, Hd1, Hm1.
  destruct (decimal_ok (tm_mday now)) as [-> ?]. destruct (decimal_ok (tm_year now + 1900)) as [-> ?].
  destruct (decimal_ok (tm_hour now)) as [-> ?]. destruct (decimal_ok (tm_min now)) as [-> ?].
  destruct (decimal_ok (tm_sec now)) as [-> ?]. split; [reflexivity|].
  repeat match goal with |- context [zlen (bytes_of ?s)] =>
    let n := eval vm_compute in (zlen (bytes_of s)) in change (zlen (bytes_of s)) with n end.
  change (zlen [32]) with 1. lia.
Qed.

(** ** The two subclasses *)

Section Subclasses.
Context `{Platform} `{!Unbounded} `{CLibrary} {T : Type} `{TTransport T}.
Context `{!ReadLaws T} `{!EndLaws T}.

#[export] Instance client_laws `{BoostStrings} :
  VirtualLaws (T := T) Client.client Client.status_line Client.header_step.
Proof using Type.
  split.
  - intros line s c bs Hs Hh. cbn. unfold Client.parseStatusLine.
    destruct (Client.status_line line) as [e|b]; wp; [done|]. by split_and?.
  - done.
  - intros line i Hi. unfold Client.header_step. destruct (find_char _ _); [|done].
    repeat case_match; cbn; try done. by apply wrapu_range.
Qed.

(** A server answers a preflight request itself and takes it for a final one. *)
Definition server_status (line : list Z) : exn + bool :=
  match Server.request_method line with
  | inl e => inl e
  | inr method =>
      if strcmp_eq method (bytes_of "POST") then inr true
      else if strcmp_eq method (bytes_of "OPTIONS") then inr true
      else inl (Server.unsupported_method method)
  end.

(** [writeBuffer_] after the reset that ends a message. *)
Definition emptied (w : TMemoryBuffer) : TMemoryBuffer := (resetBuffer w).2.

Lemma emptied_write_inv w : mb_inv w -> mb_inv (emptied w).
Proof using Type. intros Hi. by destruct (resetBuffer_spec w Hi). Qed.

Lemma emptied_outgoing w d room : outgoing w d room -> outgoing (emptied w) [] (2 ^ 31).
Proof using Type*. intros Ho. exact (reset_room _ _ _ Ho). Qed.

(** The sending of a message, around three calls of the transport. *)
Lemma send_message_spec (Q : T -> Prop) (s : THttpTransport T) header buf :
  runs (do! t_write header in do! t_write buf in t_flush) (transport_ s) (fun _ t => Q t) (fun _ _ => False) ->
  succeeds (send_message header buf) s (fun _ s' => exists t,
    s' = set_readHeaders true (set_writeBuffer (emptied (writeBuffer_ s)) (set_transport t s)) /\ Q t).
Proof using Type.
  unfold succeeds, runs, send_message, on_transport, on_writeBuffer, bind, lift. cbn.
  destruct (t_write header (transport_ s)) as [[] t1]; [|done..]. cbn.
  destruct (t_write buf t1) as [[] t2]; [|done..]. cbn. destruct (t_flush t2) as [[] t3]; [|done..].
  cbn. eauto.
Qed.

Lemma sending_keeps `{!DuplexLaws T} s c bs header buf :
  reading s c bs -> readHeaders_ s = true -> zlen header < 2 ^ 32 -> zlen buf < 2 ^ 32 ->
  succeeds (send_message header buf) s (fun _ s' => reading s' c bs /\ flags s' = flags s).
Proof using Type*.
  intros [(Hn & Hw & Hwb & rest & Hbs & Hin & Hmax) Hout] Hh Hhd Hbuf.
  eapply runs_mono; [apply (send_message_spec (fun t => incoming t rest))| |done].
  - wp. eapply runs_mono; [by apply (duplex_write _ _ header Hin)| |done]. cbn. intros _ t1 Ht1. apply runs_bind.
    eapply runs_mono; [by apply (duplex_write _ _ buf Ht1)| |done]. cbn. intros _ t2 Ht2.
    by apply duplex_flush.
  - cbn beta. intros _ s' (t & -> & Ht). split; [|unfold flags; cbn; by rewrite Hh].
    split; [|done]. split; [done|]. split; [done|]. split; [by apply emptied_write_inv|]. by exists rest.
Qed.

#[export] Instance server_laws `{!DuplexLaws T} now :
  valid_time now -> VirtualLaws (T := T) (Server.server now) server_status Server.header_step.
Proof using Type*.
  intros Hnow. split.
  - intros line s c bs Hs Hh. cbn. unfold Server.parseStatusLine, server_status.
    destruct (Server.request_method line) as [e|m]; [by wp|].
    destruct (strcmp_eq m (bytes_of "POST")); [wp; by split_and?|].
    destruct (strcmp_eq m (bytes_of "OPTIONS")); [|by wp].
    pose proof Hs as [(_ & _ & Hwb & _) _]. unfold on_writeBuffer. wp.
    eapply runs_mono; [by apply getBuffer_spec| |done]. cbn beta. intros buf w (-> & ->).
    unfold Server.date. destruct (date_ok now Hnow) as (d & -> & _ & Hd). wp.
    eapply runs_mono; [apply (sending_keeps _ c bs)| |done].
    + by eapply reading_ext; [..|exact Hs].
    + done.
    + unfold Server.preflight. rewrite !zlen_app.
      repeat match goal with |- context [zlen (bytes_of ?x)] =>
        let n := eval vm_compute in (zlen (bytes_of x)) in change (zlen (bytes_of x)) with n end.
      change (zlen CRLF) with 2. lia.
    + pose proof (zlen_content _ Hwb). destruct Hwb as (? & ? & ? & ? & ? & _). lia.
    + cbn beta. intros _ s' [Hs' Hf']. wp. split_and?; [done|done|exact Hf'].
  - done.
  - intros line i Hi. unfold Server.header_step. destruct (find_char _ _); [|done].
    repeat case_match; cbn; try done. by apply wrapu_range.
Qed.
End Subclasses.

(** ** The text of a message *)

Definition crlf_lines (ls : list (list Z)) : list Z := concat (map (fun l => l ++ CRLF) ls).
(** A line that is not blank and is cut off whole. *)
Definition header_line (l : list Z) : bool := ((0 <? zlen l) && forallb plain l)%bool.

Lemma crlf_lines_cons l ls tail : crlf_lines (l :: ls) ++ tail = l ++ CRLF ++ crlf_lines ls ++ tail.
Proof. unfold crlf_lines. cbn. by rewrite <- !app_assoc. Qed.

Lemma crlf_lines_length ls tail : (length ls + length tail <= length (crlf_lines ls ++ tail))%nat.
Proof.
  induction ls as [|l ls IH]; [done|]. rewrite crlf_lines_cons, !length_app. rewrite length_app in IH.
  cbn [length]. change (length CRLF) with 2%nat. lia.
Qed.

Section Text.
Context `{CLibrary} (status : list Z -> exn + bool) (step : list Z -> header_info -> header_info).

Definition steps (ls : list (list Z)) (i : header_info) : header_info :=
  fold_left (fun i l => step l i) ls i.

Lemma headers_of_lines fin ls : forall n i tail, forallb header_line ls = true ->
  headers_of status step (length ls + n) (false, fin) i (crlf_lines ls ++ tail) =
  headers_of status step n (false, fin) (steps ls i) tail.
Proof using Type.
  induction ls as [|l ls IH]; intros n i tail Hls; [done|].
  cbn [forallb] in Hls. apply andb_true_iff in Hls as [Hl Hls]. unfold header_line in Hl. breflect.
  rewrite crlf_lines_cons. cbn [length Nat.add headers_of]. rewrite cut_line_plain by done.
  replace (zlen l =? 0) with false by lia. by rewrite IH.
Qed.

(** A whole block of headers, final or not. *)
Lemma headers_of_block first ls n c i fin tail :
  c.1 = true -> status first = inr fin -> forallb header_line (first :: ls) = true ->
  headers_of status step (S (length ls + S n)) c i (crlf_lines (first :: ls) ++ CRLF ++ tail) =
  if fin then inr (steps ls i, tail) else headers_of status step n (true, false) (steps ls i) tail.
Proof using Type.
  destruct c as [sl f0]. cbn [fst]. intros -> Hst Hls. cbn [forallb] in Hls. apply andb_true_iff in Hls as [Hl Hls].
  unfold header_line in Hl. breflect. rewrite crlf_lines_cons. cbn [headers_of].
  rewrite cut_line_plain by done. replace (zlen first =? 0) with false by lia. rewrite Hst.
  rewrite headers_of_lines by done. cbn [headers_of]. rewrite cut_line_blank. cbn. by destruct fin.
Qed.

Lemma block_rounds first ls tail :
  exists n, length (crlf_lines (first :: ls) ++ CRLF ++ tail) = S (length ls + S n).
Proof using Type.
  pose proof (crlf_lines_length (first :: ls) (CRLF ++ tail)) as Hl.
  rewrite (length_app CRLF) in Hl. change (length CRLF) with 2%nat in Hl. cbn [length] in Hl.
  exists (length (crlf_lines (first :: ls) ++ CRLF ++ tail) - 2 - length ls)%nat. lia.
Qed.

(** A final message whose headers announce its body. *)
Lemma message_of_text first ls body rest :
  status first = inr true -> forallb header_line (first :: ls) = true ->
  steps ls (HeaderInfo false 0) = HeaderInfo false (zlen body) ->
  message_of status step (crlf_lines (first :: ls) ++ CRLF ++ body ++ rest) =
  inr (Message (HeaderInfo false (zlen body)) body false rest).
Proof using Type.
  intros Hst Hls Hi. unfold message_of. destruct (block_rounds first ls (body ++ rest)) as [n ->]. rewrite (headers_of_block _ _ _ _ _ true) by done. rewrite Hi. cbn [is_chunked content_length].
  unfold body_of. rewrite zlen_app. pose proof (zlen_nonneg rest). replace (_ <=? _) with true by lia.
  by rewrite ztake_app, zdrop_app by done.
Qed.
(** More rounds than needed change nothing. *)
Lemma headers_of_more n : forall m c i bs r, (n <= m)%nat ->
  headers_of status step n c i bs = inr r -> headers_of status step m c i bs = inr r.
Proof using Type.
  induction n as [|n IH]; [done|]. intros [|m] [sl fin] i bs r Hm; [lia|]. cbn [headers_of].
  destruct (cut_line bs) as [[l tail]|]; [|done]. destruct (zlen l =? 0).
  - destruct fin; [done|apply IH; lia].
  - destruct sl; [destruct (status l); [done|]|]; apply IH; lia.
Qed.

(** An answer that is not the final one, such as 100, is passed over. *)
Lemma message_of_interim first bs m :
  status first = inr false -> header_line first = true ->
  message_of status step bs = inr m -> message_of status step (crlf_lines [first] ++ CRLF ++ bs) = inr m.
Proof using Type.
  intros Hst Hl Hm. unfold message_of in *.
  destruct (headers_of status step (length bs) _ _ bs) as [e|[i tail]] eqn:Hh; [done|].
  assert (exists n, length (crlf_lines [first] ++ CRLF ++ bs) = S (length (@nil (list Z)) + S n) /\
    (length bs <= n)%nat) as (n & -> & Hn).
  { exists (length first + 2 + length bs)%nat. unfold crlf_lines. cbn [map concat].
    rewrite !length_app. change (length CRLF) with 2%nat. cbn [length]. lia. }
  rewrite (headers_of_block first [] n _ _ false) by (cbn [forallb]; rewrite ?Hl; done).
  cbn [steps fold_left]. by rewrite (headers_of_more _ n _ _ _ _ Hn Hh).
Qed.
End Text.

(** ** Requests *)

Section Requests.
Context `{CLibrary} (host_ path_ : list Z).

Definition request_line : list Z := bytes_of "POST " ++ path_ ++ bytes_of " HTTP/1.1".
Definition request_fields (len : Z) : list (list Z) :=
  [bytes_of "Host: " ++ host_; bytes_of "Content-Type: application/x-thrift";
   bytes_of "Content-Length: " ++ decimal len; bytes_of "Accept: application/x-thrift";
   bytes_of "User-Agent: Thrift/" ++ VERSION ++ bytes_of " (C++/THttpClient)"].

Lemma request_text len :
  Client.header host_ path_ len = crlf_lines (request_line :: request_fields len) ++ CRLF.
Proof using Type. unfold Client.header, crlf_lines, request_line, request_fields. cbn [map concat]. by rewrite <- !app_assoc. Qed.

(** The host and the path have no NUL and no CR, and the path is not blank. *)
Definition address_ok : bool :=
  (forallb plain host_ && forallb plain path_ && existsb (fun ch => negb (ch =? 32)) path_)%bool.

Lemma find_char_app ch a b : exists i, find_char ch (a ++ ch :: b) = Some i.
Proof.
  induction a as [|x a [i IH]]; cbn; [rewrite Z.eqb_refl; by eexists|].
  bif; [by eexists|]. rewrite IH. by eexists.
Qed.

Lemma drop_blanks path tail : existsb (fun ch => negb (ch =? 32)) path = true ->
  exists p, drop_while (Z.eqb 32) (path ++ tail) = p ++ tail.
Proof.
  induction path as [|ch path IH]; [done|]. cbn [existsb app drop_while].
  rewrite (Z.eqb_sym 32 ch). destruct (ch =? 32); [exact IH|]. intros _. by exists (ch :: path).
Qed.

Lemma request_accepted : address_ok = true -> server_status request_line = inr true.
Proof using Type.
  unfold address_ok. intros Ha. breflect. unfold server_status, Server.request_method, request_line.
  set (tail := bytes_of " HTTP/1.1").
  change (find_char 32 (bytes_of "POST " ++ path_ ++ tail)) with (Some 4). cbv iota.
  change (zdrop (4 + 1) _) with (path_ ++ tail).
  destruct (drop_blanks path_ tail) as [p ->]; [done|].
  change tail with (32 :: bytes_of "HTTP/1.1").
  destruct (find_char_app 32 p (bytes_of "HTTP/1.1")) as [i ->].
  by change (ztake 4 _) with (bytes_of "POST").
Qed.

Lemma content_length_server d i :
  Server.header_step (bytes_of "Content-Length: " ++ d) i = HeaderInfo false (u32 (atoi (32 :: d))).
Proof using Type. reflexivity. Qed.

Lemma decimal_line p len :
  header_line p = true -> header_line (p ++ decimal len) = true.
Proof using Type.
  unfold header_line. intros Hp. breflect. rewrite forallb_app, zlen_app.
  pose proof (zlen_nonneg (decimal len)). destruct (decimal_ok len) as [Hd _].
  apply printable_plain in Hd. replace (0 <? _) with true by lia. by rewrite Hd, andb_true_r.
Qed.
Lemma request_length len : 0 <= len < 2 ^ 31 ->
  steps Server.header_step (request_fields len) (HeaderInfo false 0) = HeaderInfo false len.
Proof using Type.
  intros Hl. unfold steps, request_fields. cbn [fold_left].
  change (Server.header_step (bytes_of "Host: " ++ host_) (HeaderInfo false 0)) with (HeaderInfo false 0).
  change (Server.header_step (bytes_of "Content-Type: application/x-thrift") (HeaderInfo false 0))
    with (HeaderInfo false 0).
  rewrite content_length_server, atoi_decimal by done. unwrap. reflexivity.
Qed.

Lemma request_lines len : address_ok = true ->
  forallb header_line (request_line :: request_fields len) = true.
Proof using Type.
  unfold address_ok. intros Ha. breflect. cbn [forallb request_fields].
  rewrite (decimal_line (bytes_of "Content-Length: ")) by done. unfold header_line, request_line.
  rewrite !forallb_app, !zlen_app. rewrite H0, H2. change (zlen (bytes_of "POST ")) with 5.
  change (zlen (bytes_of "Host: ")) with 6. pose proof (zlen_nonneg host_). pose proof (zlen_nonneg path_).
  rewrite !(proj2 (Z.ltb_lt 0 _)) by (pose proof (zlen_nonneg (bytes_of " HTTP/1.1")); lia). reflexivity.
Qed.

(** What the server reads of what the client sends. *)
Lemma request_message body rest :
  address_ok = true -> zlen body < 2 ^ 31 ->
  message_of server_status Server.header_step
    (Client.header host_ path_ (zlen body) ++ body ++ rest) =
  inr (Message (HeaderInfo false (zlen body)) body false rest).
Proof using Type.
  intros Ha Hb. pose proof (zlen_nonneg body). rewrite request_text, <- app_assoc.
  apply message_of_text; [by apply request_accepted|by apply request_lines|by apply request_length].
Qed.
End Requests.

(** ** Responses *)

Section Responses.
Context `{CLibrary} `{BoostStrings} `{!BoostLaws} (d : list Z).

Definition status_ok_line : list Z := bytes_of "HTTP/1.1 200 OK".
Definition response_fields (len : Z) : list (list Z) :=
  [bytes_of "Date: " ++ d; bytes_of "Server: Thrift/" ++ VERSION;
   bytes_of "Access-Control-Allow-Origin: *"; bytes_of "Content-Type: application/x-thrift";
   bytes_of "Content-Length: " ++ decimal len; bytes_of "Connection: Keep-Alive"].

Lemma response_text len :
  Server.header d len = crlf_lines (status_ok_line :: response_fields len) ++ CRLF.
Proof using Type. unfold Server.header, crlf_lines, response_fields. cbn [map concat]. by rewrite <- !app_assoc. Qed.

(** How the client takes a printable line. *)
Lemma client_step line i : forallb printable line = true ->
  Client.header_step line i =
  match find_char (chr ":") line with
  | None => i
  | Some colon =>
      let value := zdrop (colon + 1) line in
      if starts_with (map tolower (bytes_of "Transfer-Encoding")) (map tolower line) then
        if iends_with value (bytes_of "chunked") then HeaderInfo true (content_length i) else i
      else if starts_with (map tolower (bytes_of "Content-Length")) (map tolower line) then
        HeaderInfo false (u32 (atoi value))
      else i
  end.
Proof using All.
  intros Hl%printable_ascii. unfold Client.header_step. destruct (find_char _ _); [|done].
  by rewrite !istarts_with_ascii by done.
Qed.

Lemma response_length len : forallb printable d = true -> 0 <= len < 2 ^ 31 ->
  steps Client.header_step (response_fields len) (HeaderInfo false 0) = HeaderInfo false len.
Proof using All.
  intros Hd Hl. destruct (decimal_ok len) as [Hp _]. unfold steps, response_fields. cbn [fold_left].
  rewrite (client_step (bytes_of "Date: " ++ d)) by (by rewrite forallb_app, Hd).
  rewrite (client_step (bytes_of "Server: Thrift/" ++ VERSION)) by done.
  rewrite (client_step (bytes_of "Access-Control-Allow-Origin: *")) by done.
  rewrite (client_step (bytes_of "Content-Type: application/x-thrift")) by done.
  rewrite (client_step (bytes_of "Content-Length: " ++ decimal len)) by (by rewrite forallb_app, Hp).
  rewrite (client_step (bytes_of "Connection: Keep-Alive")) by done.
  transitivity (HeaderInfo false (u32 (atoi (32 :: decimal len)))); [reflexivity|].
  rewrite atoi_decimal by done. by unwrap.
Qed.

Lemma response_lines len : forallb printable d = true ->
  forallb header_line (status_ok_line :: response_fields len) = true.
Proof using Type.
  intros Hd%printable_plain. cbn [forallb response_fields].
  rewrite (decimal_line (bytes_of "Content-Length: ")) by done. unfold header_line.
  rewrite forallb_app, zlen_app, Hd. change (zlen (bytes_of "Date: ")) with 6. pose proof (zlen_nonneg d).
  rewrite !(proj2 (Z.ltb_lt 0 (6 + _))) by lia. reflexivity.
Qed.

(** Any number of provisional answers. *)
Definition continue_line : list Z := bytes_of "HTTP/1.1 100 Continue".
Fixpoint continues (n : nat) : list Z :=
  match n with O => [] | S n => crlf_lines [continue_line] ++ CRLF ++ continues n end.

Lemma message_after_continues n bs m :
  message_of Client.status_line Client.header_step bs = inr m ->
  message_of Client.status_line Client.header_step (continues n ++ bs) = inr m.
Proof using Type.
  intros Hm. induction n as [|n IH]; [done|]. cbn [continues]. rewrite <- !app_assoc.
  by apply message_of_interim.
Qed.

(** What the client reads of what the server sends. *)
Lemma response_message body rest :
  forallb printable d = true -> zlen body < 2 ^ 31 ->
  message_of Client.status_line Client.header_step (Server.header d (zlen body) ++ body ++ rest) =
  inr (Message (HeaderInfo false (zlen body)) body false rest).
Proof using All.
  intros Hd Hb. pose proof (zlen_nonneg body). rewrite response_text, <- app_assoc.
  apply message_of_text; [reflexivity|by apply response_lines|by apply response_length].
Qed.
End Responses.

(** ** Sending *)

Section Sending.
Context `{Platform} `{!Unbounded} `{CLibrary} {T : Type} `{TTransport T}.

(** What is written stays in [writeBuffer_]; the transport is not touched. *)
Definition http_writes (v : virtuals T) (fuel : Z) (flush : M (THttpTransport T) unit) (P : T -> Prop) :
  @WriteLaws (THttpTransport T) (http_transport v fuel flush).
Proof using All.
  refine (@Build_WriteLaws _ (http_transport v fuel flush)
    (fun s d room => outgoing (writeBuffer_ s) d room /\ P (transport_ s)) _).
  intros s out room d [Hs HP] Hd Hlen. cbn. unfold write, on_writeBuffer. wp.
  eapply runs_mono; [by apply (write_ok _ _ _ d Hs)| |done]. cbn beta. by intros _ w Hw.
Defined.

Context `{!WriteLaws T} `{!FlushLaws T}.

(** The flush of a message [d] under the header [h]. *)
Lemma sends_message s d room sent troom (h : list Z) :
  outgoing (writeBuffer_ s) d room -> outgoing (transport_ s) sent troom ->
  zlen (h ++ d) <= troom -> zlen (h ++ d) < 2 ^ 32 ->
  succeeds (send_message h d) s (fun _ s' =>
    outgoing (transport_ s') (sent ++ h ++ d) (troom - zlen (h ++ d)) /\
    outgoing (writeBuffer_ s') [] (2 ^ 31) /\ readHeaders_ s' = true).
Proof using All.
  intros Hw Ht. rewrite zlen_app. intros Hroom Hlen. pose proof (zlen_nonneg h). pose proof (zlen_nonneg d).
  eapply runs_mono; [apply (send_message_spec (fun t => outgoing t (sent ++ h ++ d) (troom - (zlen h + zlen d))))| |done].
  - wp. eapply runs_mono; [apply (write_ok _ _ _ h Ht); lia| |done]. cbn. intros _ t1 Ht1. apply runs_bind.
    eapply runs_mono; [apply (write_ok _ _ _ d Ht1); lia| |done]. cbn. intros _ t2 Ht2.
    eapply runs_mono; [by apply (flush_ok _ _ _ Ht2)| |done]. cbn. intros _ t3 Ht3.
    by rewrite <- app_assoc, <- Z.sub_add_distr in Ht3.
  - cbn beta. intros _ s' (t & -> & Ht3). split_and?; [done| |done]. by eapply emptied_outgoing.
Qed.

Lemma client_flush_spec host path s d room sent troom :
  let wire := Client.header host path (zlen d) ++ d in
  outgoing (writeBuffer_ s) d room -> outgoing (transport_ s) sent troom ->
  zlen wire <= troom -> zlen wire < 2 ^ 32 ->
  succeeds (Client.flush host path) s (fun _ s' =>
    outgoing (transport_ s') (sent ++ wire) (troom - zlen wire) /\
    outgoing (writeBuffer_ s') [] (2 ^ 31) /\ readHeaders_ s' = true).
Proof using All.
  intros wire Hw Ht Hroom Hlen. pose proof Hw as (Hi & Hc & _). unfold Client.flush, on_writeBuffer. wp.
  eapply runs_mono; [by apply getBuffer_spec| |done]. cbn beta. intros buf w (-> & ->). rewrite Hc. wp.
  unfold wire in *. rewrite zlen_app in Hlen. pose proof (zlen_nonneg d). replace (_ <? _) with false by lia.
  by apply (sends_message _ d room sent troom); [..|rewrite zlen_app].
Qed.

Lemma server_flush_spec now s d room sent troom date :
  let wire := Server.header date (zlen d) ++ d in
  Server.getTimeRFC1123 now = Some date ->
  outgoing (writeBuffer_ s) d room -> outgoing (transport_ s) sent troom ->
  zlen wire <= troom -> zlen wire < 2 ^ 32 ->
  succeeds (Server.flush now) s (fun _ s' =>
    outgoing (transport_ s') (sent ++ wire) (troom - zlen wire) /\
    outgoing (writeBuffer_ s') [] (2 ^ 31) /\ readHeaders_ s' = true).
Proof using All.
  intros wire Hdate Hw Ht Hroom Hlen. pose proof Hw as (Hi & Hc & _). unfold Server.flush, on_writeBuffer. wp.
  eapply runs_mono; [by apply getBuffer_spec| |done]. cbn beta. intros buf w (-> & ->). rewrite Hc. wp.
  unfold Server.date. rewrite Hdate. wp. by apply (sends_message _ d room sent troom).
Qed.
End Sending.

(** ** Receiving *)

Section Receiving.
Context `{Platform} `{!Unbounded} `{CLibrary} {T : Type} `{TTransport T}.
Context `{!ReadLaws T} `{!EndLaws T}.
Abbreviation St := (THttpTransport T).

(** Between two messages: nothing waits, and [bs] is still in the transport. *)
Definition idle (s : St) (bs : list Z) : Prop :=
  ready s [] bs 0 /\ buffered s = [].

(** A new connection. *)
Lemma new_http_spec (t : T) bs u :
  incoming t bs -> zlen bs <= max_input ->
  succeeds (new_http t) u (fun s _ =>
    idle s bs /\ transport_ s = t /\ outgoing (writeBuffer_ s) [] (2 ^ 31)).
Proof using Type*.
  intros Hin Hmax. unfold new_http, new_bytes. wp.
  assert (Hout : forall w : TMemoryBuffer, mb_inv w -> content w = [] -> owner_ w = true ->
    wBase_ (mb_ptrs w) = 0 -> outgoing w [] (2 ^ 31)).
  { intros w Hi Hc Ho Hw. split; [exact Hi|]. rewrite Ho, Hw. by split_and!. }
  eapply runs_mono; [apply new_default_spec| |done]. cbn beta. intros w u1 (Hi & Hc & Ho & Hw & _). wp.
  eapply runs_mono; [apply new_default_spec| |done]. cbn beta. intros r u2 (Hi' & Hc' & Ho' & Hw' & _). wp.
  rewrite always_alloc. wp. change (1024 + 1) with 1025. apply runs_store_mem; [lia|zlist|]. wp.
  split; [|split; [done|by apply Hout]]. split; [|done]. split.
  - split; [done|]. split; [|split; [done|by exists bs]]. eexists. split; [reflexivity|].
    cbn [httpBufSize_ httpPos_ httpBufLen_]. unfold max_input. rewrite zlen_zsplice by zlist. split_and!; zlist.
  - split; [done|]. eapply less_room; [by apply Hout|lia].
Qed.

Lemma idle_message status step fuel s bs m :
  idle s bs -> zlen bs < fuel -> message_of status step bs = inr m -> 0 < zlen (msg_body m) ->
  within fuel status step m s (msg_body m).
Proof using Type.
  intros [Hs Hb] Hf Hm Hpos. right. split; [done|]. split; [done|]. exists bs, 0. split_and?; try done.
  rewrite Hb. by intros ->.
Qed.

(** ** The end of a chunked message *)

(** One chunk is at least a line. *)
Lemma chunk_of_shorter bs d last tail : chunk_of bs = inr (d, last, tail) ->
  zlen d + zlen tail + 2 <= zlen bs /\ (last = true -> d = []).
Proof using Type.
  unfold chunk_of. destruct (cut_line bs) as [[l t]|] eqn:Hc; [|done]. apply cut_line_shorter in Hc.
  destruct (_ =? 0).
  - destruct (footers_of (length t) t) as [e|t'] eqn:Hf; [done|]. intros [= <- <- <-].
    split; [|done]. change (zlen (@nil Z)) with 0.
    assert (zlen t' <= zlen t); [|lia]. clear Hc. revert Hf. generalize (length t). intros n.
    revert t. induction n as [|n IH]; intros t; cbn; [done|].
    destruct (cut_line t) as [[l' t'']|] eqn:Hc; [|done]. apply cut_line_shorter in Hc.
    bif; [intros [= <-]; lia|]. intros Hf%IH. lia.
  - unfold body_of. destruct (_ <=? _) eqn:Hle; [|done].
    destruct (cut_line (zdrop _ _)) as [[l' t'']|] eqn:Hc'; [|done]. intros [= <- <- <-].
    apply cut_line_shorter in Hc'. pose proof (parseChunkSize_range l) as Hr. unfold in_u in Hr. zlist.
Qed.
(** The chunks up to the last: their bytes and what follows. *)
Fixpoint drain_of (n : nat) (bs : list Z) : exn + (list Z * list Z) :=
  match n with
  | O => inl refill_failed
  | S n =>
      match chunk_of bs with
      | inl e => inl e
      | inr (d, true, tail) => inr ([], tail)
      | inr (d, false, tail) =>
          match drain_of n tail with
          | inl e => inl e
          | inr (d', tail) => inr (d ++ d', tail)
          end
      end
  end.

(** What [readEnd] drains is added to [readBuffer_]. *)
Definition behind (c : list Z) (r : exn + (list Z * list Z)) : exn + (list Z * list Z) :=
  match r with inl e => inl e | inr (d, tail) => inr (c ++ d, tail) end.

Lemma drain_spec fuel s c bs :
  reading s c bs -> chunkedDone_ s = false -> zlen bs < fuel ->
  runs (iterate fuel (drain_body fuel) tt) s
    (fun _ s' => exists c' tail, behind c (drain_of (length bs) bs) = inr (c', tail) /\
       reading s' c' tail /\ (flags s').1 = (flags s).1 /\ chunkedDone_ s' = true)
    (fun e _ => behind c (drain_of (length bs) bs) = inl e).
Proof using All.
  intros Hs Hd Hf. set (R := behind _ _). pose proof (zlen_nonneg bs).
  apply (runs_iterate_budget
    (fun n _ s' => exists k c' bs', n = Z.of_nat k /\ zlen bs' <= n <= zlen bs /\ reading s' c' bs' /\
       (flags s').1 = (flags s).1 /\
       R = if chunkedDone_ s' then inr (c', bs') else behind c' (drain_of k bs')))
    with (n := zlen bs); [| |lia].
  2:{ exists (length bs), c, bs. rewrite Hd. split_and?; done || (unfold zlen; lia). }
  intros n u s1 (k & c1 & bs1 & -> & Hk & Hs1 & Hf1 & HR). unfold drain_body. wp.
  destruct (chunkedDone_ s1) eqn:Hd1; cbn [negb]; wp; [by exists c1, bs1|].
  eapply runs_mono; [apply (readChunked_spec fuel s1 c1 bs1 Hs1); lia| |].
  2:{ intros e s2 He. rewrite HR. destruct k; [|cbn [drain_of]; by rewrite He].
      destruct bs1; [|zlist]. by injection He as <-. }
  cbn beta. intros m s2 (d & last & tail & Hck & -> & Hs2 & Hle & Hf2 & Hd2). wp.
  apply chunk_of_shorter in Hck as Hsh. destruct Hsh as [Hsh Hlast].
  pose proof (zlen_nonneg d). pose proof (zlen_nonneg tail). rewrite Hd1, orb_false_r in Hd2.
  destruct k as [|k]; [lia|]. cbn [drain_of] in HR. rewrite Hck in HR.
  exists (Z.of_nat k). split; [lia|]. exists k, (c1 ++ d), tail. rewrite Hd2, HR, Hf2.
  split_and?; try done; try lia. destruct last; cbn [behind].
  - by rewrite Hlast.
  - destruct (drain_of k tail) as [e|[d' t']]; cbn [behind]; [done|by rewrite app_assoc].
Qed.

(** One chunk that is not the last, and the last. *)
Lemma readEnd_chunked fuel s c bs :
  reading s c bs -> chunked_ s = true -> chunkedDone_ s = false -> zlen bs < fuel ->
  runs (readEnd fuel) s
    (fun k s' => k = 0 /\ exists c' tail, behind c (drain_of (length bs) bs) = inr (c', tail) /\
       reading s' c' tail /\ (flags s').1 = (flags s).1 /\ chunkedDone_ s' = true)
    (fun e _ => behind c (drain_of (length bs) bs) = inl e).
Proof using All.
  intros Hs Hc Hd Hf. unfold readEnd. wp. rewrite Hc.
  eapply runs_mono; [by apply (drain_spec fuel s c bs)| |done]. cbn beta. intros _ s1 Hs1. wp. by split.
Qed.

Lemma readEnd_idle fuel s : (chunked_ s && negb (chunkedDone_ s))%bool = false -> 0 < fuel ->
  readEnd fuel s = (Ok 0, s).
Proof using Type.
  intros Hc Hf. unfold readEnd, bind, gets. destruct (chunked_ s); [|done]. cbn in Hc.
  destruct fuel as [|p|p]; [lia| |lia]. cbn [iterate].
  assert (Hl : drain_body (Z.pos p) tt s = (Ok (inr tt), s)).
  { unfold drain_body, bind, gets. by destruct (chunkedDone_ s). }
  assert (rounds p (drain_body (Z.pos p)) tt s = (Ok (inr tt), s)) as Hr.
  { revert Hl. generalize (drain_body (T := T) (Z.pos p)). intros body Hb. clear -Hb.
    induction p as [p IH|p IH|]; cbn [rounds]; unfold bind; [by rewrite Hb|by rewrite IH|done]. }
  unfold bind. by rewrite Hr.
Qed.
End Receiving.

(** ** Chunked messages *)

Section Chunks.
Context `{CLibrary}.

(** A chunk: the line with its size, which may have an extension, and its bytes. *)
Definition chunk_ok (c : list Z * list Z) : Prop :=
  forallb plain c.1 = true /\ parseChunkSize c.1 = zlen c.2 /\ 0 < zlen c.2.

Fixpoint chunks_text (cs : list (list Z * list Z)) : list Z :=
  match cs with
  | [] => bytes_of "0" ++ CRLF ++ CRLF
  | (h, d) :: cs => h ++ CRLF ++ d ++ CRLF ++ chunks_text cs
  end.

Lemma chunk_of_text c tail : chunk_ok c ->
  chunk_of (c.1 ++ CRLF ++ c.2 ++ CRLF ++ tail) = inr (c.2, false, tail).
Proof using Type.
  intros (Hp & Hs & Hpos). unfold chunk_of. rewrite cut_line_plain, Hs by done.
  replace (zlen c.2 =? 0) with false by lia. unfold body_of. rewrite zlen_app.
  pose proof (zlen_nonneg (CRLF ++ tail)). replace (_ <=? _) with true by lia.
  rewrite ztake_app, zdrop_app by done. by rewrite cut_line_blank.
Qed.

Lemma chunk_of_last tail : chunk_of (bytes_of "0" ++ CRLF ++ CRLF ++ tail) = inr ([], true, tail).
Proof using Type.
  unfold chunk_of. rewrite cut_line_plain by done. change (parseChunkSize (bytes_of "0")) with 0. cbn [Z.eqb].
  change (length (CRLF ++ tail)) with (S (S (length tail))). cbn [footers_of].
  by rewrite cut_line_blank.
Qed.

Lemma drain_of_text cs rest n : Forall chunk_ok cs -> (length cs < n)%nat ->
  drain_of n (chunks_text cs ++ rest) = inr (concat (map snd cs), rest).
Proof using Type.
  intros Hcs. revert n. induction Hcs as [|[h d] cs Hc Hcs IH]; intros [|n] Hn; cbn [length] in *; try lia.
  - cbn [chunks_text drain_of]. rewrite <- !app_assoc. by rewrite chunk_of_last.
  - cbn [chunks_text drain_of map concat snd]. rewrite <- !app_assoc. rewrite (chunk_of_text (h, d)) by done.
    cbn [snd]. by rewrite IH by lia.
Qed.

(** A final message whose headers announce chunks. *)
Lemma message_of_chunked status step first ls n c cs rest :
  status first = inr true -> forallb header_line (first :: ls) = true ->
  steps step ls (HeaderInfo false 0) = HeaderInfo true n -> chunk_ok c ->
  message_of status step (crlf_lines (first :: ls) ++ CRLF ++ chunks_text (c :: cs) ++ rest) =
  inr (Message (HeaderInfo true n) c.2 false (chunks_text cs ++ rest)).
Proof using Type.
  intros Hst Hls Hi Hc. unfold message_of. destruct (block_rounds first ls (chunks_text (c :: cs) ++ rest)) as [k ->].
  rewrite (headers_of_block _ _ _ _ _ _ _ true) by done. rewrite Hi. cbn [is_chunked].
  destruct c as [h d]. cbn [chunks_text]. rewrite <- !app_assoc. by rewrite (chunk_of_text (h, d)) by done.
Qed.

(** The headers of a chunked answer. *)
Definition chunked_lines : list (list Z) := [status_ok_line; bytes_of "Transfer-Encoding: chunked"].

Lemma chunked_message `{BoostStrings} `{!BoostLaws} c cs rest : chunk_ok c ->
  message_of Client.status_line Client.header_step
    (crlf_lines chunked_lines ++ CRLF ++ chunks_text (c :: cs) ++ rest) =
  inr (Message (HeaderInfo true 0) c.2 false (chunks_text cs ++ rest)).
Proof using Type.
  intros Hc. apply message_of_chunked; [done|done| |done]. unfold steps. cbn [fold_left].
  rewrite client_step by done. change (find_char _ _) with (Some 17). cbv iota zeta.
  by rewrite iends_with_ascii.
Qed.

(** A line with a chunk's size is no status line. *)
Lemma no_status_line `{BoostStrings} c tail :
  chunk_ok c -> find_char 32 c.1 = None ->
  message_of Client.status_line Client.header_step (c.1 ++ CRLF ++ tail) = inl (bad_status c.1).
Proof using Type.
  intros (Hp & Hs & Hpos) Hb. unfold message_of. rewrite length_app, length_app. change (length CRLF) with 2%nat.
  destruct (length c.1 + (2 + length tail))%nat as [|n] eqn:Hn; [lia|]. cbn [headers_of].
  rewrite cut_line_plain by done. bif.
  - assert (c.1 = []) as Hnil by (by apply zlen_0). rewrite Hnil in Hs. cbn in Hs. lia.
  - unfold Client.status_line. by rewrite Hb.
Qed.

Lemma chunks_text_length cs rest : (length cs < length (chunks_text cs ++ rest))%nat.
Proof using Type.
  induction cs as [|[h d] cs IH]; cbn [chunks_text]; [cbn; lia|].
  rewrite !length_app in *. change (length CRLF) with 2%nat. cbn [length]. lia.
Qed.

(** [readEnd] leaves what the other chunks hold behind in [readBuffer_]. *)
Lemma readEnd_drains `{Platform} `{!Unbounded} {T : Type} `{TTransport T} `{!ReadLaws T} `{!EndLaws T} fuel
    (s : THttpTransport T) cs rest :
  Forall chunk_ok cs -> reading s [] (chunks_text cs ++ rest) -> chunked_ s = true -> chunkedDone_ s = false ->
  zlen (chunks_text cs ++ rest) < fuel ->
  succeeds (readEnd fuel) s (fun k s' => k = 0 /\ reading s' (concat (map snd cs)) rest /\
    (flags s').1 = (flags s).1).
Proof using Type.
  intros Hcs Hs Hc Hd Hf. pose proof (drain_of_text cs rest _ Hcs (chunks_text_length cs rest)) as Hdr.
  eapply runs_mono; [by apply (readEnd_chunked fuel s [] _ Hs Hc Hd Hf)| |]; rewrite Hdr; cbn [behind app].
  - intros k s' (-> & c' & t & [= <- <-] & Hs' & Hf' & _). done.
  - done.
Qed.
End Chunks.
