(* ===== verification/Protocol.v ===== *)
(** * Protocols: protocol/TProtocol.h and protocol/TVirtualProtocol.h

    The operations of [TProtocol] as a class, the defaults of
    [TProtocolDefaults], and the [skip] template.  A write answers the number of
    bytes the C++ function returns; a read answers that number and the values it
    stores through its reference arguments.  Strings are lists of bytes, a
    [double] is the 64 bits [bitwise_cast] gives, a [const char*] name is [None]
    when it is null. *)

From S2P Require Export Machine Effects.

(** [enum TType]; a value cast from the wire may be any [int8_t]. *)
Definition T_UNKNOWN : Z := -1.
Definition T_STOP : Z := 0.
Definition T_VOID : Z := 1.
Definition T_BOOL : Z := 2.
Definition T_BYTE : Z := 3.
Definition T_I16 : Z := 6.
Definition T_I32 : Z := 8.
Definition T_U64 : Z := 9.
Definition T_I64 : Z := 10.
Definition T_DOUBLE : Z := 4.
Definition T_STRING : Z := 11.
Definition T_STRUCT : Z := 12.
Definition T_MAP : Z := 13.
Definition T_SET : Z := 14.
Definition T_LIST : Z := 15.
Definition T_UTF8 : Z := 16.
Definition T_UTF16 : Z := 17.

(** [enum TMessageType] *)
Definition T_CALL : Z := 1.
Definition T_REPLY : Z := 2.
Definition T_EXCEPTION : Z := 3.
Definition T_ONEWAY : Z := 4.

Definition kFieldIdUnknown : Z := -1.

Class TProtocol (P : Type) := {
  p_writeMessageBegin : list Z -> Z -> Z -> M P Z;
  p_writeMessageEnd : M P Z;
  p_writeStructBegin : option (list Z) -> M P Z;
  p_writeStructEnd : M P Z;
  p_writeFieldBegin : option (list Z) -> Z -> Z -> M P Z;
  p_writeFieldEnd : M P Z;
  p_writeFieldStop : M P Z;
  p_writeMapBegin : Z -> Z -> Z -> M P Z;
  p_writeMapEnd : M P Z;
  p_writeListBegin : Z -> Z -> M P Z;
  p_writeListEnd : M P Z;
  p_writeSetBegin : Z -> Z -> M P Z;
  p_writeSetEnd : M P Z;
  p_writeBool : bool -> M P Z;
  p_writeByte : Z -> M P Z;
  p_writeI16 : Z -> M P Z;
  p_writeI32 : Z -> M P Z;
  p_writeI64 : Z -> M P Z;
  p_writeDouble : Z -> M P Z;
  p_writeString : list Z -> M P Z;
  p_writeBinary : list Z -> M P Z;
  p_readMessageBegin : M P (Z * (list Z * Z * Z));
  p_readMessageEnd : M P Z;
  p_readStructBegin : M P (Z * list Z);
  p_readStructEnd : M P Z;
  (** the type and the id; the name is never filled in *)
  p_readFieldBegin : M P (Z * (Z * Z));
  p_readFieldEnd : M P Z;
  p_readMapBegin : M P (Z * (Z * Z * Z));
  p_readMapEnd : M P Z;
  p_readListBegin : M P (Z * (Z * Z));
  p_readListEnd : M P Z;
  p_readSetBegin : M P (Z * (Z * Z));
  p_readSetEnd : M P Z;
  p_readBool : M P (Z * bool);
  p_readByte : M P (Z * Z);
  p_readI16 : M P (Z * Z);
  p_readI32 : M P (Z * Z);
  p_readI64 : M P (Z * Z);
  p_readDouble : M P (Z * Z);
  p_readString : M P (Z * list Z);
  p_readBinary : M P (Z * list Z)
}.

(** [TProtocolDefaults]: what a protocol that overrides nothing does. *)
Definition no_reading {P A} : M P A :=
  throw (EProtocol TProtocolException.NOT_IMPLEMENTED
           "this protocol does not support reading (yet).").
Definition no_writing {P A} : M P A :=
  throw (EProtocol TProtocolException.NOT_IMPLEMENTED
           "this protocol does not support writing (yet).").

Definition TProtocolDefaults (P : Type) : TProtocol P := {|
  p_writeMessageBegin _ _ _ := no_writing;
  p_writeMessageEnd := no_writing;
  p_writeStructBegin _ := no_writing;
  p_writeStructEnd := no_writing;
  p_writeFieldBegin _ _ _ := no_writing;
  p_writeFieldEnd := no_writing;
  p_writeFieldStop := no_writing;
  p_writeMapBegin _ _ _ := no_writing;
  p_writeMapEnd := no_writing;
  p_writeListBegin _ _ := no_writing;
  p_writeListEnd := no_writing;
  p_writeSetBegin _ _ := no_writing;
  p_writeSetEnd := no_writing;
  p_writeBool _ := no_writing;
  p_writeByte _ := no_writing;
  p_writeI16 _ := no_writing;
  p_writeI32 _ := no_writing;
  p_writeI64 _ := no_writing;
  p_writeDouble _ := no_writing;
  p_writeString _ := no_writing;
  p_writeBinary _ := no_writing;
  p_readMessageBegin := no_reading;
  p_readMessageEnd := no_reading;
  p_readStructBegin := no_reading;
  p_readStructEnd := no_reading;
  p_readFieldBegin := no_reading;
  p_readFieldEnd := no_reading;
  p_readMapBegin := no_reading;
  p_readMapEnd := no_reading;
  p_readListBegin := no_reading;
  p_readListEnd := no_reading;
  p_readSetBegin := no_reading;
  p_readSetEnd := no_reading;
  p_readBool := no_reading;
  p_readByte := no_reading;
  p_readI16 := no_reading;
  p_readI32 := no_reading;
  p_readI64 := no_reading;
  p_readDouble := no_reading;
  p_readString := no_reading;
  p_readBinary := no_reading
|}.

(** ** [skip] *)

Section Loops.
Context {P : Type}.

(** [for (i = 0; i < size; i++)] with an accumulator. *)
Definition for_body {A} (size : Z) (body : A -> M P A) (x : Z * A) : M P (Z * A + A) :=
  let '(i, a) := x in
  if i <? size then let! a' := body a in ret (inl (i + 1, a')) else ret (inr a).

Definition for_ {A} (size : Z) (body : A -> M P A) (a : A) : M P A :=
  iterate (size + 1) (for_body size body) (0, a).

Lemma runs_for {A} (I : Z -> A -> P -> Prop) E size (body : A -> M P A) a p :
  0 <= size -> I 0 a p ->
  (forall i a p, 0 <= i < size -> I i a p ->
     runs (body a) p (fun a' p' => I (i + 1) a' p') E) ->
  runs (for_ size body a) p (fun a' p' => I size a' p') E.
Proof.
  intros Hs HI Hb. unfold for_.
  apply (runs_iterate (fun x p => I x.1 x.2 p /\ 0 <= x.1 <= size) (fun x => size - x.1));
    [|split; [done|cbn; lia]|cbn; lia].
  intros [i a'] p' [HI' Hi]. cbn in HI', Hi. unfold for_body. bif; wp.
  - eapply runs_mono; [apply Hb; [|done]; lia| |done]. cbn. intros. wp. cbn.
    split; [split; [done|lia]|lia].
  - by assert (i = size) as <- by lia.
Qed.
End Loops.

Section Skip.
Context {P : Type} `{TProtocol P}.

(** One round of the loop over the fields of a struct. *)
Definition skip_field (skip : Z -> M P Z) (result : Z) : M P (Z + Z) :=
  let! '(n, (ftype, _)) := p_readFieldBegin in
  let result := u32 (result + n) in
  if ftype =? T_STOP then ret (inr result) else
  let! n := skip ftype in
  let result := u32 (result + n) in
  let! n := p_readFieldEnd in
  ret (inl (u32 (result + n))).

(** The elements of a list or set, the entries of a map. *)
Definition skip_elem (skip : Z -> M P Z) (elemType result : Z) : M P Z :=
  let! n := skip elemType in ret (u32 (result + n)).
Definition skip_entry (skip : Z -> M P Z) (keyType valType result : Z) : M P Z :=
  let! result := skip_elem skip keyType result in skip_elem skip valType result.

(** The C++ recursion has no bound on its depth and the loop over the fields
    none on its length: [depth] and [fuel] bound them here. *)
Fixpoint skip (depth : nat) (fuel : Z) (type : Z) {struct depth} : M P Z :=
  match depth with
  | O => diverge
  | S depth =>
      let skip := skip depth fuel in
      if type =? T_BOOL then let! '(n, _) := p_readBool in ret n
      else if type =? T_BYTE then let! '(n, _) := p_readByte in ret n
      else if type =? T_I16 then let! '(n, _) := p_readI16 in ret n
      else if type =? T_I32 then let! '(n, _) := p_readI32 in ret n
      else if type =? T_I64 then let! '(n, _) := p_readI64 in ret n
      else if type =? T_DOUBLE then let! '(n, _) := p_readDouble in ret n
      else if type =? T_STRING then let! '(n, _) := p_readBinary in ret n
      else if type =? T_STRUCT then
        let! '(n, _) := p_readStructBegin in
        let! result := iterate fuel (skip_field skip) n in
        let! n := p_readStructEnd in
        ret (u32 (result + n))
      else if type =? T_MAP then
        let! '(n, (keyType, valType, size)) := p_readMapBegin in
        let! result := for_ size (skip_entry skip keyType valType) n in
        let! n := p_readMapEnd in
        ret (u32 (result + n))
      else if type =? T_SET then
        let! '(n, (elemType, size)) := p_readSetBegin in
        let! result := for_ size (skip_elem skip elemType) n in
        let! n := p_readSetEnd in
        ret (u32 (result + n))
      else if type =? T_LIST then
        let! '(n, (elemType, size)) := p_readListBegin in
        let! result := for_ size (skip_elem skip elemType) n in
        let! n := p_readListEnd in
        ret (u32 (result + n))
      else ret 0
  end.
End Skip.

(** ** The size limits of the readers *)

Record limits := Limits { string_limit_ : Z; container_limit_ : Z }.

(** The tests of [readStringBody]/[readBinary] and of the container headers. *)
Definition string_over (l : limits) (size : Z) : bool :=
  ((0 <? string_limit_ l) && (string_limit_ l <? size))%bool.
Definition container_over (l : limits) (size : Z) : bool :=
  (negb (container_limit_ l =? 0) && (container_limit_ l <? size))%bool.
