(* ===== verification/Wire.v ===== *)
(** * Values on the wire: the contract between protocols and their clients

    [tval] is a Thrift value; [write_value] and [read_value] make the calls that
    generated code makes for one.  [WireFormat] gives the bytes a protocol puts
    on the wire for each call, [WriterLaws] and [ReaderLaws] say that its calls
    produce and consume exactly those bytes, [ReaderTotal] that its calls survive
    any input.  Every theorem here holds of each protocol that meets them.

    The context [c] of the laws is the stack of field ids a delta-encoding
    protocol keeps: its head is the last field id of the current struct. *)

From S2P Require Export Protocol.

(** ** Values *)

#[warnings="-register-all"]
Inductive tval :=
| VBool (b : bool)
| VByte (z : Z)
| VI16 (z : Z)
| VI32 (z : Z)
| VI64 (z : Z)
| VDouble (bits : Z)
| VString (s : list Z)
| VStruct (fields : list (Z * tval))
| VMap (keyType valType : Z) (entries : list (tval * tval))
| VSet (elemType : Z) (elems : list tval)
| VList (elemType : Z) (elems : list tval)
| VNothing (type : Z).  (** a type [skip] passes over without reading *)

Definition type_of (v : tval) : Z :=
  match v with
  | VBool _ => T_BOOL | VByte _ => T_BYTE | VI16 _ => T_I16 | VI32 _ => T_I32
  | VI64 _ => T_I64 | VDouble _ => T_DOUBLE | VString _ => T_STRING
  | VStruct _ => T_STRUCT | VMap _ _ _ => T_MAP | VSet _ _ => T_SET
  | VList _ _ => T_LIST | VNothing t => t
  end.

(** Induction that reaches the values inside containers. *)
Section Induction.
Context (P : tval -> Prop).
Context (Hbool : forall b, P (VBool b)) (Hbyte : forall z, P (VByte z))
  (H16 : forall z, P (VI16 z)) (H32 : forall z, P (VI32 z)) (H64 : forall z, P (VI64 z))
  (Hdouble : forall z, P (VDouble z)) (Hstring : forall s, P (VString s))
  (Hstruct : forall fs, Forall (fun f => P f.2) fs -> P (VStruct fs))
  (Hmap : forall k t es, Forall (fun e => P e.1 /\ P e.2) es -> P (VMap k t es))
  (Hset : forall t l, Forall P l -> P (VSet t l))
  (Hlist : forall t l, Forall P l -> P (VList t l))
  (Hnothing : forall t, P (VNothing t)).

Definition Forall_intro {A} (Q : A -> Prop) (f : forall a, Q a) : forall l, Forall Q l :=
  fix go l := match l with [] => Forall_nil_2 Q | a :: l => Forall_cons_2 Q a l (f a) (go l) end.

Fixpoint tval_nested_ind (v : tval) : P v :=
  match v with
  | VBool b => Hbool b | VByte z => Hbyte z | VI16 z => H16 z | VI32 z => H32 z
  | VI64 z => H64 z | VDouble z => Hdouble z | VString s => Hstring s
  | VStruct fs => Hstruct fs (Forall_intro _ (fun f => tval_nested_ind f.2) fs)
  | VMap k t es =>
      Hmap k t es (Forall_intro _ (fun e => conj (tval_nested_ind e.1) (tval_nested_ind e.2)) es)
  | VSet t l => Hset t l (Forall_intro _ tval_nested_ind l)
  | VList t l => Hlist t l (Forall_intro _ tval_nested_ind l)
  | VNothing t => Hnothing t
  end.
End Induction.

(** The types a value can have. *)
Definition value_types : list Z :=
  [T_BOOL; T_BYTE; T_DOUBLE; T_I16; T_I32; T_I64; T_STRING; T_STRUCT; T_MAP; T_SET; T_LIST].
Definition is_value_type (t : Z) : bool := existsb (Z.eqb t) value_types.

Definition in_sb (w z : Z) : bool := bool_decide (in_s w z).
Definition in_ub (w z : Z) : bool := bool_decide (in_u w z).
Definition string_ok (lim : limits) (s : list Z) : bool :=
  ((zlen s <? 2 ^ 31) && negb (string_over lim (zlen s)) && forallb (in_ub 8) s)%bool.
Definition count_ok (lim : limits) (n : Z) : bool :=
  ((n <? 2 ^ 31) && negb (container_over lim n))%bool.

(** A value of the C++ types, its containers homogeneous and within [lim]. *)
Fixpoint wf (lim : limits) (v : tval) : bool :=
  match v with
  | VBool _ => true
  | VByte z => in_sb 8 z
  | VI16 z => in_sb 16 z
  | VI32 z => in_sb 32 z
  | VI64 z => in_sb 64 z
  | VDouble z => in_ub 64 z
  | VString s => string_ok lim s
  | VStruct fs => forallb (fun f => in_sb 16 f.1 && wf lim f.2)%bool fs
  | VMap kt vt es =>
      (is_value_type kt && is_value_type vt && count_ok lim (zlen es) &&
       forallb (fun e => (type_of e.1 =? kt) && wf lim e.1 &&
                         (type_of e.2 =? vt) && wf lim e.2) es)%bool
  | VSet t l | VList t l =>
      (is_value_type t && count_ok lim (zlen l) &&
       forallb (fun e => (type_of e =? t) && wf lim e) l)%bool
  | VNothing _ => false
  end.

(** What can be said of any value a reader answers: it is of the C++ types, its
    containers are homogeneous and its sizes within [lim]; bytes, the bits of a double
    and the types that are announced for nothing are whatever came. *)
Definition size_ok (lim : limits) (s : list Z) : bool :=
  ((zlen s <? 2 ^ 31) && negb (string_over lim (zlen s)))%bool.
Fixpoint shaped (lim : limits) (v : tval) : bool :=
  match v with
  | VBool _ | VDouble _ => true
  | VByte z => in_sb 8 z
  | VI16 z => in_sb 16 z
  | VI32 z => in_sb 32 z
  | VI64 z => in_sb 64 z
  | VString s => size_ok lim s
  | VStruct fs => forallb (fun f => in_sb 16 f.1 && shaped lim f.2)%bool fs
  | VMap kt vt es =>
      (count_ok lim (zlen es) &&
       forallb (fun e => (type_of e.1 =? kt) && shaped lim e.1 &&
                         (type_of e.2 =? vt) && shaped lim e.2) es)%bool
  | VSet t l | VList t l =>
      (count_ok lim (zlen l) && forallb (fun e => (type_of e =? t) && shaped lim e) l)%bool
  | VNothing t => negb (is_value_type t)
  end.

Definition sumnat (l : list nat) : nat := fold_right Nat.add O l.

(** A bound on the depth and the lengths of a value. *)
Fixpoint vsize (v : tval) : nat :=
  match v with
  | VStruct fs => S (sumnat (map (fun f => S (vsize f.2)) fs))
  | VMap _ _ es => S (sumnat (map (fun e => S (vsize e.1 + vsize e.2)) es))
  | VSet _ l | VList _ l => S (sumnat (map (fun e => S (vsize e)) l))
  | _ => 1
  end.

(** ** The calls of a client *)

Section Client.
Context {P : Type} `{TProtocol P}.

(** [xfer += f(x)] for each [x] of [l]. *)
Definition sum_over {A} (f : A -> M P Z) : Z -> list A -> M P Z :=
  fix go xfer l :=
    match l with
    | [] => ret xfer
    | x :: l => let! n := f x in go (u32 (xfer + n)) l
    end.

Fixpoint write_value (v : tval) : M P Z :=
  match v with
  | VBool b => p_writeBool b
  | VByte z => p_writeByte z
  | VI16 z => p_writeI16 z
  | VI32 z => p_writeI32 z
  | VI64 z => p_writeI64 z
  | VDouble z => p_writeDouble z
  | VString s => p_writeBinary s
  | VStruct fs =>
      let! n := p_writeStructBegin (Some []) in
      let! xfer := sum_over (fun f =>
        let! a := p_writeFieldBegin (Some []) (type_of f.2) f.1 in
        let! b := write_value f.2 in
        let! c := p_writeFieldEnd in
        ret (u32 (u32 (a + b) + c))) n fs in
      let! a := p_writeFieldStop in
      let! b := p_writeStructEnd in
      ret (u32 (u32 (xfer + a) + b))
  | VMap kt vt es =>
      let! n := p_writeMapBegin kt vt (zlen es) in
      let! xfer := sum_over (fun e =>
        let! a := write_value e.1 in
        let! b := write_value e.2 in
        ret (u32 (a + b))) n es in
      let! a := p_writeMapEnd in
      ret (u32 (xfer + a))
  | VSet t l =>
      let! n := p_writeSetBegin t (zlen l) in
      let! xfer := sum_over write_value n l in
      let! a := p_writeSetEnd in
      ret (u32 (xfer + a))
  | VList t l =>
      let! n := p_writeListBegin t (zlen l) in
      let! xfer := sum_over write_value n l in
      let! a := p_writeListEnd in
      ret (u32 (xfer + a))
  | VNothing _ => ret 0
  end.

(** [read_value] follows [skip], keeping what it reads. *)
Definition read_field (rd : Z -> M P (Z * tval)) (acc : Z * list (Z * tval))
    : M P (Z * list (Z * tval) + Z * list (Z * tval)) :=
  let '(result, fs) := acc in
  let! '(n, (ftype, fid)) := p_readFieldBegin in
  let result := u32 (result + n) in
  if ftype =? T_STOP then ret (inr (result, fs)) else
  let! '(n, v) := rd ftype in
  let result := u32 (result + n) in
  let! n := p_readFieldEnd in
  ret (inl (u32 (result + n), fs ++ [(fid, v)])).

Definition read_elem (rd : Z -> M P (Z * tval)) (t : Z) (acc : Z * list tval)
    : M P (Z * list tval) :=
  let! '(n, v) := rd t in ret (u32 (acc.1 + n), acc.2 ++ [v]).

Definition read_entry (rd : Z -> M P (Z * tval)) (kt vt : Z) (acc : Z * list (tval * tval))
    : M P (Z * list (tval * tval)) :=
  let! '(n, k) := rd kt in
  let! '(m, v) := rd vt in
  ret (u32 (u32 (acc.1 + n) + m), acc.2 ++ [(k, v)]).

Definition read_as {A} (f : A -> tval) (m : M P (Z * A)) : M P (Z * tval) :=
  let! '(n, a) := m in ret (n, f a).

Fixpoint read_value (depth : nat) (fuel : Z) (type : Z) {struct depth} : M P (Z * tval) :=
  match depth with
  | O => diverge
  | S depth =>
      let rd := read_value depth fuel in
      if type =? T_BOOL then read_as VBool p_readBool
      else if type =? T_BYTE then read_as VByte p_readByte
      else if type =? T_I16 then read_as VI16 p_readI16
      else if type =? T_I32 then read_as VI32 p_readI32
      else if type =? T_I64 then read_as VI64 p_readI64
      else if type =? T_DOUBLE then read_as VDouble p_readDouble
      else if type =? T_STRING then read_as VString p_readBinary
      else if type =? T_STRUCT then
        let! '(n, _) := p_readStructBegin in
        let! '(result, fs) := iterate fuel (read_field rd) (n, []) in
        let! n := p_readStructEnd in
        ret (u32 (result + n), VStruct fs)
      else if type =? T_MAP then
        let! '(n, (kt, vt, size)) := p_readMapBegin in
        let! '(result, es) := for_ size (read_entry rd kt vt) (n, []) in
        let! n := p_readMapEnd in
        ret (u32 (result + n), VMap kt vt es)
      else if type =? T_SET then
        let! '(n, (t, size)) := p_readSetBegin in
        let! '(result, l) := for_ size (read_elem rd t) (n, []) in
        let! n := p_readSetEnd in
        ret (u32 (result + n), VSet t l)
      else if type =? T_LIST then
        let! '(n, (t, size)) := p_readListBegin in
        let! '(result, l) := for_ size (read_elem rd t) (n, []) in
        let! n := p_readListEnd in
        ret (u32 (result + n), VList t l)
      else ret (0, VNothing type)
  end.
End Client.

(** ** The bytes of a protocol *)

Class WireFormat := {
  e_bool : bool -> list Z;
  e_byte : Z -> list Z;
  e_i16 : Z -> list Z;
  e_i32 : Z -> list Z;
  e_i64 : Z -> list Z;
  e_double : Z -> list Z;
  e_string : list Z -> list Z;
  (** the header of a field of the given type and id after the field [last] *)
  e_field : Z -> Z -> Z -> list Z;
  (** a whole boolean field: header and value *)
  e_boolfield : Z -> Z -> bool -> list Z;
  e_stop : list Z;
  (** the header of a map of [n] entries, of a set or list of [n] elements *)
  e_map : Z -> Z -> Z -> list Z;
  e_coll : Z -> Z -> list Z;
  (** the key and value types a reader finds in the header of an empty map *)
  empty_map_types : Z -> Z -> Z * Z
}.

Section Encoding.
Context `{WireFormat}.

Definition enc_fields (enc : tval -> list Z) : Z -> list (Z * tval) -> list Z :=
  fix go last fs :=
    match fs with
    | [] => []
    | (id, v) :: fs =>
        match v with
        | VBool b => e_boolfield last id b
        | _ => e_field last (type_of v) id ++ enc v
        end ++ go id fs
    end.

Fixpoint enc (v : tval) : list Z :=
  match v with
  | VBool b => e_bool b
  | VByte z => e_byte z
  | VI16 z => e_i16 z
  | VI32 z => e_i32 z
  | VI64 z => e_i64 z
  | VDouble z => e_double z
  | VString s => e_string s
  | VStruct fs => enc_fields enc 0 fs ++ e_stop
  | VMap kt vt es =>
      e_map kt vt (zlen es) ++ concat (map (fun e => enc e.1 ++ enc e.2) es)
  | VSet t l | VList t l => e_coll t (zlen l) ++ concat (map enc l)
  | VNothing _ => []
  end.

(** What is read back: an empty map may have lost its types. *)
Definition map_types {A} (kt vt : Z) (es : list A) : Z * Z :=
  match es with [] => empty_map_types kt vt | _ => (kt, vt) end.

Fixpoint canon (v : tval) : tval :=
  match v with
  | VStruct fs => VStruct (map (fun f => (f.1, canon f.2)) fs)
  | VMap kt vt es =>
      let t := map_types kt vt es in
      VMap t.1 t.2 (map (fun e => (canon e.1, canon e.2)) es)
  | VSet t l => VSet t (map canon l)
  | VList t l => VList t (map canon l)
  | v => v
  end.
End Encoding.

(** ** Laws of a writer *)

Section WriterSpec.
Context {P C : Type}.

(** [m] puts exactly [e] on the wire and answers its length. *)
Definition writes (st : P -> C -> list Z -> Z -> Prop) (m : M P Z) (c c' : C) (e : list Z) : Prop :=
  forall p out room, st p c out room -> zlen e <= room ->
    succeeds m p (fun n p' => n = u32 (zlen e) /\ st p' c' (out ++ e) (room - zlen e)).

(** [m1] then [m2] put exactly [e] on the wire, whoever of them writes it. *)
Definition writes2 (st : P -> C -> list Z -> Z -> Prop) (m1 m2 : M P Z) (c c' : C) (e : list Z) : Prop :=
  forall p out room, st p c out room -> zlen e <= room ->
    succeeds m1 p (fun n p' => succeeds m2 p' (fun m p'' =>
      u32 (n + m) = u32 (zlen e) /\ st p'' c' (out ++ e) (room - zlen e))).

Lemma writes_step {A} st (m : M P Z) (k : Z -> M P A) c c' e p out room Q E :
  writes st m c c' e -> st p c out room -> zlen e <= room ->
  (forall p', st p' c' (out ++ e) (room - zlen e) -> runs (k (u32 (zlen e))) p' Q E) ->
  runs (bind m k) p Q E.
Proof.
  intros Hm Hp Hr Hk. apply runs_bind. eapply runs_mono; [by eapply Hm| |done].
  cbn. intros n p' [-> Hp']. by apply Hk.
Qed.

Lemma writes_nil_end {A} st (m : M P Z) c c' (k : Z -> M P A) Q E p out room :
  writes st m c c' [] -> st p c out room -> 0 <= room ->
  (forall p', st p' c' out room -> runs (k 0) p' Q E) ->
  runs (bind m k) p Q E.
Proof.
  intros Hm Hp Hr Hk. eapply (writes_step st m k c c' []); try done.
  intros p' Hp'. rewrite app_nil_r, Z.sub_0_r in Hp'. by apply Hk.
Qed.

(** Two and three writes in a row. *)
Lemma writes_then st (m1 m2 : M P Z) c c1 c2 e1 e2 :
  writes st m1 c c1 e1 -> writes st m2 c1 c2 e2 ->
  writes st (let! a := m1 in let! b := m2 in ret (u32 (a + b))) c c2 (e1 ++ e2).
Proof.
  intros Hm1 Hm2 p out room Hp Hr. rewrite zlen_app in *. pose proof (zlen_nonneg e1).
  pose proof (zlen_nonneg e2).
  eapply writes_step; [exact Hm1|exact Hp|lia|]. intros p1 Hp1.
  eapply writes_step; [exact Hm2|exact Hp1|lia|]. intros p2 Hp2. wp.
  autorewrite with wrap. by rewrite app_assoc, Z.sub_add_distr.
Qed.

Lemma writes_then3 st (m1 m2 m3 : M P Z) c c1 c2 c3 e1 e2 e3 :
  writes st m1 c c1 e1 -> writes st m2 c1 c2 e2 -> writes st m3 c2 c3 e3 ->
  writes st (let! a := m1 in let! b := m2 in let! c := m3 in ret (u32 (u32 (a + b) + c)))
    c c3 (e1 ++ e2 ++ e3).
Proof.
  intros Hm1 Hm2 Hm3 p out room Hp Hr. rewrite !zlen_app in *. pose proof (zlen_nonneg e1).
  pose proof (zlen_nonneg e2). pose proof (zlen_nonneg e3).
  eapply writes_step; [exact Hm1|exact Hp|lia|]. intros p1 Hp1.
  eapply writes_step; [exact Hm2|exact Hp1|lia|]. intros p2 Hp2.
  eapply writes_step; [exact Hm3|exact Hp2|lia|]. intros p3 Hp3. wp.
  autorewrite with wrap. rewrite !app_assoc in *. rewrite !Z.add_assoc, !Z.sub_add_distr. done.
Qed.
(** A loop of writes puts the concatenation on the wire. *)
Lemma sum_over_st {A} st (f : A -> M P Z) (e : A -> list Z) c l :
  (forall x, In x l -> writes st (f x) c c (e x)) ->
  forall p xfer out room, st p c out room -> zlen (concat (map e l)) <= room ->
  succeeds (sum_over f xfer l) p (fun n p' =>
    u32 n = u32 (xfer + zlen (concat (map e l))) /\ (in_u 32 xfer -> in_u 32 n) /\
    st p' c (out ++ concat (map e l)) (room - zlen (concat (map e l)))).
Proof.
  induction l as [|x l IH]; intros Hf p xfer out room Hp Hr; cbn [sum_over map concat] in *.
  - wp. by rewrite zlen_nil, Z.add_0_r, Z.sub_0_r, app_nil_r.
  - rewrite zlen_app in Hr. eapply writes_step; [apply Hf; by left|done|zlist|].
    intros p' Hp'. eapply runs_mono; [apply IH; [|done|zlist]| |done].
    { intros y Hy. apply Hf. by right. }
    cbn. intros n p2 (Hn & Hin & Hp2). rewrite <- app_assoc in Hp2. rewrite zlen_app.
    autorewrite with wrap in Hn. split_and!; [|intros _; apply Hin, wrapu_range; lia|by rewrite Z.sub_add_distr].
    rewrite Hn. f_equal. lia.
Qed.
End WriterSpec.

Class WriterLaws (P : Type) `{TProtocol P} `{WireFormat} := {
  w_state : P -> list Z -> list Z -> Z -> Prop;
  w_bool c b : writes w_state (p_writeBool b) c c (e_bool b);
  w_byte c z : in_s 8 z -> writes w_state (p_writeByte z) c c (e_byte z);
  w_i16 c z : in_s 16 z -> writes w_state (p_writeI16 z) c c (e_i16 z);
  w_i32 c z : in_s 32 z -> writes w_state (p_writeI32 z) c c (e_i32 z);
  w_i64 c z : in_s 64 z -> writes w_state (p_writeI64 z) c c (e_i64 z);
  w_double c z : in_u 64 z -> writes w_state (p_writeDouble z) c c (e_double z);
  w_string c s : zlen s < 2 ^ 31 -> bytes_ok s -> writes w_state (p_writeString s) c c (e_string s);
  w_binary c s : zlen s < 2 ^ 31 -> bytes_ok s -> writes w_state (p_writeBinary s) c c (e_string s);
  w_structBegin l c name : writes w_state (p_writeStructBegin name) (l :: c) (0 :: l :: c) [];
  w_structEnd x l c : writes w_state p_writeStructEnd (x :: l :: c) (l :: c) [];
  w_field l c name t id : In t value_types -> t <> T_BOOL -> in_s 16 id -> in_s 16 l ->
    writes w_state (p_writeFieldBegin (Some name) t id) (l :: c) (id :: c) (e_field l t id);
  w_boolfield l c name id b : in_s 16 id -> in_s 16 l ->
    writes2 w_state (p_writeFieldBegin (Some name) T_BOOL id) (p_writeBool b) (l :: c) (id :: c)
      (e_boolfield l id b);
  w_fieldEnd c : writes w_state p_writeFieldEnd c c [];
  w_stop c : writes w_state p_writeFieldStop c c e_stop;
  w_map c kt vt n : In kt value_types -> In vt value_types -> 0 <= n < 2 ^ 31 ->
    writes w_state (p_writeMapBegin kt vt n) c c (e_map kt vt n);
  w_mapEnd c : writes w_state p_writeMapEnd c c [];
  w_list c t n : In t value_types -> 0 <= n < 2 ^ 31 ->
    writes w_state (p_writeListBegin t n) c c (e_coll t n);
  w_listEnd c : writes w_state p_writeListEnd c c [];
  w_set c t n : In t value_types -> 0 <= n < 2 ^ 31 ->
    writes w_state (p_writeSetBegin t n) c c (e_coll t n);
  w_setEnd c : writes w_state p_writeSetEnd c c []
}.

(** ** Laws of a reader *)

Section ReaderSpec.
Context {P C : Type} (st : P -> C -> list Z -> Prop).

(** [m] consumes exactly [e], answers its length and stores [a]. *)
Definition reads {A} (m : M P (Z * A)) (c c' : C) (e : list Z) (a : A) : Prop :=
  forall p rest, st p c (e ++ rest) ->
    succeeds m p (fun r p' => r = (u32 (zlen e), a) /\ st p' c' rest).

(** [m] consumes nothing. *)
Definition reads_nothing (m : M P Z) (c c' : C) : Prop :=
  forall p bs, st p c bs -> succeeds m p (fun n p' => n = 0 /\ st p' c' bs).

(** On any input [m] throws or answers a value in [V] and leaves a suffix of the
    input at least [k] bytes shorter. *)
Definition any_input {A} (m : M P (Z * A)) (c c' : C) (k : Z) (V : A -> Prop) : Prop :=
  forall p bs, st p c bs ->
    runs m p (fun r p' => V r.2 /\ exists bs', st p' c' bs' /\ zlen bs' <= zlen bs - k)
             (fun _ _ => True).

Lemma reads_step {A B} (m : M P (Z * A)) (k : Z * A -> M P B) c c' e a p rest Q E :
  reads m c c' e a -> st p c (e ++ rest) ->
  (forall p', st p' c' rest -> runs (k (u32 (zlen e), a)) p' Q E) ->
  runs (bind m k) p Q E.
Proof.
  intros Hm Hp Hk. apply runs_bind. eapply runs_mono; [by eapply Hm| |done].
  cbn. intros r p' [-> Hp']. by apply Hk.
Qed.

Lemma reads_end {B} (m : M P Z) (k : Z -> M P B) c c' p bs Q E :
  reads_nothing m c c' -> st p c bs ->
  (forall p', st p' c' bs -> runs (k 0) p' Q E) ->
  runs (bind m k) p Q E.
Proof.
  intros Hm Hp Hk. apply runs_bind. eapply runs_mono; [by eapply Hm| |done].
  cbn. intros r p' [-> Hp']. by apply Hk.
Qed.

Lemma any_step {A B} (m : M P (Z * A)) (k : Z * A -> M P B) c c' j V p bs Q :
  any_input m c c' j V -> st p c bs ->
  (forall n a p' bs', V a -> st p' c' bs' -> zlen bs' <= zlen bs - j ->
     runs (k (n, a)) p' Q (fun _ _ => True)) ->
  runs (bind m k) p Q (fun _ _ => True).
Proof.
  intros Hm Hp Hk. apply runs_bind. eapply runs_mono; [by apply Hm| |done].
  cbn. intros [n a] p' (HV & bs' & Hp' & Hle). by eapply Hk.
Qed.

Lemma any_weaken {A} (m : M P (Z * A)) c c' j k V :
  any_input m c c' j V -> k <= j -> any_input m c c' k V.
Proof.
  intros Hm Hk p bs Hp. eapply runs_mono; [by apply Hm| |done].
  cbn. intros r p' (HV & bs' & Hp' & Hle). split; [done|]. exists bs'. split; [done|lia].
Qed.
Lemma reads_as {A} (f : A -> tval) (m : M P (Z * A)) c e a :
  reads m c c e a -> reads (read_as f m) c c e (f a).
Proof.
  intros Hm p rest Hp. unfold read_as. eapply reads_step; [done|done|]. intros. by wp.
Qed.

(** A loop of reads over the concatenation of the encodings. *)
Lemma for_reads {X A} (step : Z * list A -> M P (Z * list A)) (enc1 : X -> list Z) (val : X -> A) c xs :
  (forall x acc p rest, In x xs -> st p c (enc1 x ++ rest) ->
     succeeds (step acc) p (fun r p' =>
       r = (u32 (acc.1 + zlen (enc1 x)), acc.2 ++ [val x]) /\ st p' c rest)) ->
  forall p rest n, st p c (concat (map enc1 xs) ++ rest) ->
  succeeds (for_ (zlen xs) step (n, [])) p (fun r p' =>
    u32 r.1 = u32 (n + zlen (concat (map enc1 xs))) /\ r.2 = map val xs /\ st p' c rest).
Proof.
  intros Hstep p rest n Hp.
  eapply runs_mono; [apply (runs_for (fun i acc p' => exists xs1 xs2,
      xs = xs1 ++ xs2 /\ zlen xs1 = i /\
      u32 acc.1 = u32 (n + zlen (concat (map enc1 xs1))) /\ acc.2 = map val xs1 /\
      st p' c (concat (map enc1 xs2) ++ rest)) (fun _ _ => False))| |done].
  - apply zlen_nonneg.
  - exists [], xs. split_and!; try done. cbn. by rewrite zlen_nil, Z.add_0_r.
  - intros i acc p1 Hi (xs1 & xs2 & -> & Hl & Hn & Ha & Hp1). zlist.
    destruct xs2 as [|x xs2]; [zlist|]. cbn [map concat] in Hp1.
    rewrite <- app_assoc in Hp1.
    eapply runs_mono; [apply (Hstep x acc p1); [apply in_or_app; right; by left|exact Hp1]| |done].
    cbn. intros r p2 [-> Hp2]. exists (xs1 ++ [x]), xs2. cbn.
    split_and!; [by rewrite <- app_assoc|zlist| | |done].
    + autorewrite with wrap. rewrite map_app, concat_app, zlen_app. cbn. rewrite app_nil_r.
      rewrite (u32_add_cong _ _ _ (zlen (enc1 x)) Hn) by done. f_equal. lia.
    + by rewrite Ha, map_app.
  - cbn. intros r p' (xs1 & xs2 & -> & Hl & Hn & Ha & Hp'). zlist.
    assert (xs2 = []) as -> by (apply zlen_0; lia). cbn in Hp'. by rewrite app_nil_r.
Qed.

(** Of an input shorter than [len] bytes, [m] throws or answers a value in [V]
    and leaves a part of the input. *)
Definition leaves {A} (m : M P A) (c : C) (p : P) (bs : list Z) (V : A -> Prop) : Prop :=
  runs m p (fun r p' => V r /\ exists bs', st p' c bs' /\ zlen bs' <= zlen bs) (fun _ _ => True).

(** A loop that reads [size] elements, each in [V]. *)
Lemma total_for {A} (V : A -> bool) (step : Z * list A -> M P (Z * list A)) len c size n p bs :
  0 <= size -> st p c bs -> zlen bs < len ->
  (forall a p bs, st p c bs -> zlen bs < len ->
     leaves (step a) c p bs (fun r => exists x, r.2 = a.2 ++ [x] /\ V x = true)) ->
  leaves (for_ size step (n, [])) c p bs (fun r => zlen r.2 = size /\ forallb V r.2 = true).
Proof using Type.
  intros Hs Hp Hlen Hstep.
  eapply runs_mono; [apply (runs_for (fun i a p' => (zlen a.2 = i /\ forallb V a.2 = true) /\
      exists bs', st p' c bs' /\ zlen bs' <= zlen bs) (fun _ _ => True)); [done| |]|done|done].
  - split; [done|by exists bs].
  - intros i a p1 _ ([Hi HV] & bs1 & Hp1 & Hle). eapply runs_mono; [apply Hstep; [done|lia]| |done].
    cbn beta. intros r p2 ((x & -> & Hx) & bs2 & ? & ?). split; [|exists bs2; split; [done|lia]].
    rewrite zlen_app, forallb_app, HV. cbn [forallb]. rewrite Hx. split; [|done]. change (zlen [x]) with 1. lia.
Qed.

End ReaderSpec.

Class ReaderLaws (P : Type) `{TProtocol P} `{WireFormat} (lim : limits) := {
  r_state : P -> list Z -> list Z -> Prop;
  r_bool c b : reads r_state p_readBool c c (e_bool b) b;
  r_byte c z : in_s 8 z -> reads r_state p_readByte c c (e_byte z) z;
  r_i16 c z : in_s 16 z -> reads r_state p_readI16 c c (e_i16 z) z;
  r_i32 c z : in_s 32 z -> reads r_state p_readI32 c c (e_i32 z) z;
  r_i64 c z : in_s 64 z -> reads r_state p_readI64 c c (e_i64 z) z;
  r_double c z : in_u 64 z -> reads r_state p_readDouble c c (e_double z) z;
  r_string c s : zlen s < 2 ^ 31 -> string_over lim (zlen s) = false ->
    reads r_state p_readString c c (e_string s) s;
  r_binary c s : zlen s < 2 ^ 31 -> string_over lim (zlen s) = false ->
    reads r_state p_readBinary c c (e_string s) s;
  r_structBegin l c : reads r_state p_readStructBegin (l :: c) (0 :: l :: c) [] [];
  r_structEnd x l c : reads_nothing r_state p_readStructEnd (x :: l :: c) (l :: c);
  r_field l c t id : In t value_types -> t <> T_BOOL -> in_s 16 id -> in_s 16 l ->
    reads r_state p_readFieldBegin (l :: c) (id :: c) (e_field l t id) (t, id);
  r_boolfield l c id b p rest : in_s 16 id -> in_s 16 l ->
    r_state p (l :: c) (e_boolfield l id b ++ rest) ->
    succeeds p_readFieldBegin p (fun r p' => r.2 = (T_BOOL, id) /\
      succeeds p_readBool p' (fun r' p'' =>
        u32 (r.1 + r'.1) = u32 (zlen (e_boolfield l id b)) /\ r'.2 = b /\
        r_state p'' (id :: c) rest));
  r_fieldEnd c : reads_nothing r_state p_readFieldEnd c c;
  r_stop l c : reads r_state p_readFieldBegin (l :: c) (l :: c) e_stop (T_STOP, 0);
  r_map c kt vt n : In kt value_types -> In vt value_types -> 0 <= n < 2 ^ 31 ->
    container_over lim n = false ->
    reads r_state p_readMapBegin c c (e_map kt vt n)
      (if n =? 0 then empty_map_types kt vt else (kt, vt), n);
  r_mapEnd c : reads_nothing r_state p_readMapEnd c c;
  r_list c t n : In t value_types -> 0 <= n < 2 ^ 31 -> container_over lim n = false ->
    reads r_state p_readListBegin c c (e_coll t n) (t, n);
  r_listEnd c : reads_nothing r_state p_readListEnd c c;
  r_set c t n : In t value_types -> 0 <= n < 2 ^ 31 -> container_over lim n = false ->
    reads r_state p_readSetBegin c c (e_coll t n) (t, n);
  r_setEnd c : reads_nothing r_state p_readSetEnd c c
}.

Class ReaderTotal (P : Type) `{TProtocol P} `{!WireFormat} (lim : limits)
    `{!ReaderLaws P lim} : Prop := {
  t_bool c : any_input r_state p_readBool c c 1 (fun _ => True);
  t_byte c : any_input r_state p_readByte c c 1 (in_s 8);
  t_i16 c : any_input r_state p_readI16 c c 1 (in_s 16);
  t_i32 c : any_input r_state p_readI32 c c 1 (in_s 32);
  t_i64 c : any_input r_state p_readI64 c c 1 (in_s 64);
  t_double c : any_input r_state p_readDouble c c 1 (fun _ => True);
  t_string c : any_input r_state p_readString c c 1 (fun s => size_ok lim s = true);
  t_binary c : any_input r_state p_readBinary c c 1 (fun s => size_ok lim s = true);
  t_structBegin l c : any_input r_state p_readStructBegin (l :: c) (0 :: l :: c) 0 (fun _ => True);
  t_field l c p bs : r_state p (l :: c) bs ->
    runs p_readFieldBegin p (fun r p' => in_s 16 r.2.2 /\ exists bs', zlen bs' < zlen bs /\
      (r.2.1 = T_STOP -> r_state p' (l :: c) bs') /\
      (r.2.1 <> T_STOP -> r.2.1 <> T_BOOL -> exists l', r_state p' (l' :: c) bs') /\
      (r.2.1 = T_BOOL ->
         runs p_readBool p' (fun _ p'' => exists l' bs'',
           r_state p'' (l' :: c) bs'' /\ zlen bs'' <= zlen bs') (fun _ _ => True)))
      (fun _ _ => True);
  t_map c : any_input r_state p_readMapBegin c c 1 (fun r => 0 <= r.2 /\ count_ok lim r.2 = true);
  t_list c : any_input r_state p_readListBegin c c 1 (fun r => 0 <= r.2 /\ count_ok lim r.2 = true);
  t_set c : any_input r_state p_readSetBegin c c 1 (fun r => 0 <= r.2 /\ count_ok lim r.2 = true)
}.

(** ** Writing a value *)

Lemma value_type_in t : is_value_type t = true -> In t value_types.
Proof. unfold is_value_type. rewrite existsb_exists. intros (x & ? & ->%Z.eqb_eq). done. Qed.

Lemma wf_value_type lim v : wf lim v = true -> In (type_of v) value_types.
Proof. destruct v; intros; try done; apply value_type_in; reflexivity. Qed.

Lemma string_ok_true lim s : string_ok lim s = true ->
  zlen s < 2 ^ 31 /\ string_over lim (zlen s) = false /\ bytes_ok s.
Proof.
  unfold string_ok. intros Hs. breflect. split_and!; try done.
  apply List.Forall_forall. intros b Hb.
  rewrite forallb_forall in *. match goal with H : forall x, _ |- _ => specialize (H _ Hb);
    by apply bool_decide_eq_true in H end.
Qed.

Lemma size_ok_len lim s : zlen s < 2 ^ 31 -> string_over lim (zlen s) = false -> size_ok lim s = true.
Proof. intros Hs Ho. unfold size_ok. rewrite Ho. apply andb_true_iff. split; [lia|done]. Qed.

Lemma size_ok_nil lim : size_ok lim [] = true.
Proof. apply size_ok_len; [done|]. unfold string_over. change (zlen (@nil Z)) with 0. by destruct (0 <? string_limit_ lim) eqn:?, (string_limit_ lim <? 0) eqn:?; breflect; lia. Qed.

Lemma count_ok_true lim n : count_ok lim n = true -> n < 2 ^ 31 /\ container_over lim n = false.
Proof. unfold count_ok. intros Hs. by breflect. Qed.

Lemma in_sb_true w z : in_sb w z = true -> in_s w z.
Proof. apply bool_decide_eq_true. Qed.
Lemma in_ub_true w z : in_ub w z = true -> in_u w z.
Proof. apply bool_decide_eq_true. Qed.

#[export] Hint Resolve value_type_in wf_value_type in_sb_true in_ub_true : thrift.

(** Split a hypothesis [forallb f (x :: l) = true]. *)
Ltac forallb_cons H :=
  cbn [forallb] in H; apply andb_true_iff in H; destruct H as [? H].

Lemma zero_in_s16 : in_s 16 0.
Proof. done. Qed.
#[export] Hint Resolve zero_in_s16 : thrift.

Section Writing.
Context {P : Type} `{WriterLaws P}.

Lemma sum_over_writes {A} (f : A -> M P Z) (e : A -> list Z) c l :
  (forall x, In x l -> writes w_state (f x) c c (e x)) ->
  forall p xfer out room, w_state p c out room -> zlen (concat (map e l)) <= room ->
  succeeds (sum_over f xfer l) p (fun n p' =>
    u32 n = u32 (xfer + zlen (concat (map e l))) /\
    w_state p' c (out ++ concat (map e l)) (room - zlen (concat (map e l)))).
Proof.
  intros Hf p xfer out room Hp Hr.
  eapply runs_mono; [by apply (sum_over_st w_state f e c l)| |done]. cbn. tauto.
Qed.

Definition write_field (f : Z * tval) : M P Z :=
  let! a := p_writeFieldBegin (Some []) (type_of f.2) f.1 in
  let! b := write_value f.2 in
  let! c := p_writeFieldEnd in
  ret (u32 (u32 (a + b) + c)).

(** The bytes of one field. *)
Definition enc_field (last : Z) (f : Z * tval) : list Z :=
  match f.2 with
  | VBool b => e_boolfield last f.1 b
  | v => e_field last (type_of v) f.1 ++ enc v
  end.

Lemma enc_fields_cons last f fs :
  enc_fields enc last (f :: fs) = enc_field last f ++ enc_fields enc f.1 fs.
Proof. by destruct f as [id []]. Qed.

Lemma enc_field_other last f :
  type_of f.2 <> T_BOOL ->
  enc_field last f = e_field last (type_of f.2) f.1 ++ enc f.2.
Proof. by destruct f as [id []]. Qed.

Lemma writes_field lim l c f :
  in_s 16 l -> in_s 16 f.1 -> wf lim f.2 = true ->
  writes w_state (write_value f.2) (f.1 :: c) (f.1 :: c) (enc f.2) ->
  writes w_state (write_field f) (l :: c) (f.1 :: c) (enc_field l f).
Proof.
  intros Hl Hid Hwf Hv p out room Hp Hr. unfold write_field. pose proof (zlen_nonneg (enc_field l f)).
  destruct (decide (type_of f.2 = T_BOOL)) as [Ht|Ht].
  - destruct f as [id []]; try discriminate Ht; try discriminate Hwf.
    cbn [fst snd enc_field write_value] in *. apply runs_bind.
    eapply runs_mono; [by eapply (w_boolfield l c [] id b)| |done]. cbn.
    intros n p' Hp'. apply runs_bind. eapply runs_mono; [exact Hp'| |done].
    cbn. intros m p2 [Hn Hp2].
    eapply writes_nil_end; [apply w_fieldEnd|done|lia|]. intros p3 Hp3. wp.
    split; [|done]. rewrite Z.add_0_r. by autorewrite with wrap.
  - rewrite enc_field_other in * by done. rewrite zlen_app in *.
    pose proof (zlen_nonneg (enc f.2)). pose proof (zlen_nonneg (e_field l (type_of f.2) f.1)).
    eapply writes_step; [apply (w_field l c []); eauto with thrift|done|lia|]. intros p1 Hp1.
    eapply writes_step; [exact Hv|done|lia|]. intros p2 Hp2.
    eapply writes_nil_end; [apply w_fieldEnd|done|lia|]. intros p3 Hp3. wp.
    rewrite Z.add_0_r. autorewrite with wrap. split; [done|].
    by rewrite app_assoc, Z.sub_add_distr.
Qed.

Lemma writes_fields lim c fs :
  Forall (fun f => wf lim f.2 = true -> forall l c, writes w_state (write_value f.2) (l :: c) (l :: c) (enc f.2)) fs ->
  forallb (fun f => in_sb 16 f.1 && wf lim f.2)%bool fs = true ->
  forall p l xfer out room, in_s 16 l -> w_state p (l :: c) out room ->
  zlen (enc_fields enc l fs) <= room ->
  succeeds (sum_over write_field xfer fs) p (fun n p' =>
    u32 n = u32 (xfer + zlen (enc_fields enc l fs)) /\
    exists l', w_state p' (l' :: c) (out ++ enc_fields enc l fs) (room - zlen (enc_fields enc l fs))).
Proof.
  intros Hall. induction Hall as [|f fs Hf _ IH]; intros Hwf p l xfer out room Hl Hp Hr.
  - cbn [sum_over enc_fields]. wp. rewrite zlen_nil, Z.add_0_r, Z.sub_0_r, app_nil_r. eauto.
  - forallb_cons Hwf. breflect. rewrite enc_fields_cons, zlen_app in *.
    pose proof (zlen_nonneg (enc_fields enc f.1 fs)).
    cbn [sum_over]. eapply writes_step; [apply (writes_field lim l c f); auto with thrift|done|lia|].
    intros p1 Hp1. eapply runs_mono; [apply (IH Hwf p1 f.1); eauto with thrift; lia| |done].
    cbn. intros n p2 (Hn & l' & Hp2). split.
    + rewrite Hn. autorewrite with wrap. f_equal. lia.
    + exists l'. by rewrite app_assoc, Z.sub_add_distr.
Qed.

Lemma concat_map_zlen {A} (f : A -> list Z) l : 0 <= zlen (concat (map f l)).
Proof. apply zlen_nonneg. Qed.

(** Header, elements and trailer of a container. *)
Lemma writes_container {A} (m e : M P Z) (f : A -> M P Z) (hd : list Z) (enc1 : A -> list Z) c xs :
  writes w_state m c c hd -> (forall x, In x xs -> writes w_state (f x) c c (enc1 x)) ->
  writes w_state e c c [] ->
  writes w_state (let! n := m in let! xfer := sum_over f n xs in let! a := e in ret (u32 (xfer + a)))
    c c (hd ++ concat (map enc1 xs)).
Proof.
  intros Hm Hf He p out room Hp Hr. rewrite zlen_app in *.
  pose proof (zlen_nonneg hd). pose proof (concat_map_zlen enc1 xs).
  eapply writes_step; [exact Hm|done|lia|]. intros p1 Hp1.
  apply runs_bind. eapply runs_mono; [apply (sum_over_writes f enc1 c); [done|done|lia]| |done].
  cbn. intros n p2 [Hn Hp2]. eapply writes_nil_end; [exact He|done|lia|].
  intros p3 Hp3. wp. rewrite Z.add_0_r, Hn. autorewrite with wrap. split; [done|].
  by rewrite app_assoc, Z.sub_add_distr.
Qed.

Definition writes_ih (lim : limits) (v : tval) : Prop :=
  wf lim v = true -> forall l c, writes w_state (write_value v) (l :: c) (l :: c) (enc v).

Lemma writes_entry lim kt vt es l c e :
  Forall (fun e => writes_ih lim e.1 /\ writes_ih lim e.2) es ->
  forallb (fun e => (type_of e.1 =? kt) && wf lim e.1 &&
                    (type_of e.2 =? vt) && wf lim e.2)%bool es = true ->
  In e es ->
  writes w_state (let! a := write_value e.1 in
                  let! b := write_value e.2 in ret (u32 (a + b)))
    (l :: c) (l :: c) (enc e.1 ++ enc e.2).
Proof.
  intros IH Hwf He p out room Hp Hr. rewrite List.Forall_forall, forallb_forall in *.
  specialize (Hwf e He). breflect. destruct (IH e He) as [IH1 IH2]. rewrite zlen_app in *.
  pose proof (zlen_nonneg (enc e.1)). pose proof (zlen_nonneg (enc e.2)).
  eapply writes_step; [by apply IH1|done|lia|]. intros p1 Hp1.
  eapply writes_step; [by apply IH2|done|lia|]. intros p2 Hp2. wp.
  autorewrite with wrap. split; [done|]. by rewrite app_assoc, Z.sub_add_distr.
Qed.

Lemma writes_coll lim t xs (m e : M P Z) l c :
  (In t value_types -> 0 <= zlen xs < 2 ^ 31 ->
   writes w_state m (l :: c) (l :: c) (e_coll t (zlen xs))) ->
  writes w_state e (l :: c) (l :: c) [] ->
  Forall (writes_ih lim) xs ->
  (is_value_type t && count_ok lim (zlen xs) &&
   forallb (fun e => (type_of e =? t) && wf lim e) xs)%bool = true ->
  writes w_state (let! n := m in let! xfer := sum_over write_value n xs in
                  let! a := e in ret (u32 (xfer + a)))
    (l :: c) (l :: c) (e_coll t (zlen xs) ++ concat (map enc xs)).
Proof.
  intros Hm He IH Hwf. breflect.
  match goal with H : count_ok _ _ = true |- _ => apply count_ok_true in H as [? _] end.
  apply writes_container; [apply Hm; auto with thrift| |done].
  intros x Hx. rewrite List.Forall_forall, forallb_forall in *.
  match goal with H : forall x, In x xs -> _ = true |- _ => specialize (H x Hx) end.
  breflect. by apply IH.
Qed.

(** [write_value v] puts exactly the encoding of [v] on the wire. *)
Lemma write_value_enc lim v :
  wf lim v = true -> forall l c, writes w_state (write_value v) (l :: c) (l :: c) (enc v).
Proof.
  induction v as [b|z|z|z|z|z|s|fs IH|kt vt es IH|t xs IH|t xs IH|t] using tval_nested_ind;
    intros Hwf l c; cbn [wf write_value enc] in *.
  - apply w_bool.
  - apply w_byte; auto with thrift.
  - apply w_i16; auto with thrift.
  - apply w_i32; auto with thrift.
  - apply w_i64; auto with thrift.
  - apply w_double; auto with thrift.
  - apply string_ok_true in Hwf as (? & _ & ?). by apply w_binary.
  - intros p out room Hp Hr. rewrite zlen_app in *.
    pose proof (zlen_nonneg e_stop). pose proof (zlen_nonneg (enc_fields enc 0 fs)).
    eapply writes_nil_end; [apply w_structBegin|done|lia|]. intros p1 Hp1.
    apply runs_bind. eapply runs_mono; [eapply (writes_fields lim (l :: c) fs IH Hwf);
      [apply zero_in_s16|exact Hp1|lia]| |done].
    cbn. intros n p2 (Hn & l' & Hp2).
    eapply writes_step; [apply w_stop|done|lia|]. intros p3 Hp3.
    eapply writes_nil_end; [apply w_structEnd|done|lia|]. intros p4 Hp4. wp.
    rewrite Z.add_0_r. autorewrite with wrap.
    rewrite (u32_add_cong n (zlen (enc_fields enc 0 fs)) _ (zlen e_stop)) by done.
    split; [done|]. by rewrite app_assoc, Z.sub_add_distr.
  - breflect. match goal with H : count_ok _ _ = true |- _ => apply count_ok_true in H as [? _] end.
    apply writes_container; [apply w_map; auto with thrift| |apply w_mapEnd].
    intros e He. by eapply writes_entry.
  - by apply (writes_coll lim); [intros; apply w_set|apply w_setEnd| |].
  - by apply (writes_coll lim); [intros; apply w_list|apply w_listEnd| |].
  - done.
Qed.
End Writing.

(** ** Reading a value *)

(** The id of the last field. *)
Definition last_id (l : Z) (fs : list (Z * tval)) : Z := fold_left (fun _ f => f.1) fs l.

(** A loop that takes the fields of a struct one by one: [I done l bs a s] after the
    fields [done], the last id being [l] and [bs] still to come. *)
Section FieldsLoop.
Context `{WireFormat} {S A B : Type} (body : A -> M S (A + B)) (Q : B -> S -> Prop).
Context (I : list (Z * tval) -> Z -> list Z -> A -> S -> Prop) (fs : list (Z * tval)) (rest : list Z).
Context (Hfield : forall done f l bs a s, In f fs -> in_s 16 l -> I done l (enc_field l f ++ bs) a s ->
  succeeds (body a) s (fun r s' => exists a', r = inl a' /\ I (done ++ [f]) f.1 bs a' s')).
Context (Hstop : forall l a s, in_s 16 l -> I fs l (e_stop ++ rest) a s ->
  succeeds (body a) s (fun r s' => exists b, r = inr b /\ Q b s')).

Lemma fields_loop fuel l a s :
  Forall (fun f => in_s 16 f.1) fs -> in_s 16 l -> zlen fs < fuel ->
  I [] l (enc_fields enc l fs ++ e_stop ++ rest) a s -> succeeds (iterate fuel body a) s Q.
Proof using Hfield Hstop.
  intros Hids Hl Hfuel HI. rewrite List.Forall_forall in Hids.
  apply (runs_iterate_budget (fun n a s => exists fs1 fs2 l2, fs = fs1 ++ fs2 /\ n = zlen fs2 /\ in_s 16 l2 /\
    I fs1 l2 (enc_fields enc l2 fs2 ++ e_stop ++ rest) a s)) with (n := zlen fs);
    [| |pose proof (zlen_nonneg fs); lia].
  - intros n a1 s1 (fs1 & fs2 & l2 & Hfs & -> & Hl2 & HI1). destruct fs2 as [|f fs2].
    + rewrite app_nil_r in Hfs. subst fs1. eapply runs_mono; [by apply (Hstop l2)| |done].
      cbn beta. intros r s2 (b & -> & Hb). done.
    + assert (In f fs) as Hin by (rewrite Hfs; apply in_or_app; right; by left).
      rewrite enc_fields_cons, <- app_assoc in HI1.
      eapply runs_mono; [apply (Hfield fs1 f l2 _ a1 s1 Hin Hl2 HI1)| |done].
      cbn beta. intros r s2 (a' & -> & HI2). exists (zlen fs2). rewrite zlen_cons. pose proof (zlen_nonneg fs2).
      split; [lia|]. exists (fs1 ++ [f]), fs2, f.1. split; [by rewrite <- app_assoc|]. auto.
  - exists [], fs, l. auto.
Qed.
End FieldsLoop.

Section Reading.
Context {P : Type} `{ReaderLaws P}.

Lemma sumnat_cons x l : sumnat (x :: l) = (x + sumnat l)%nat.
Proof. reflexivity. Qed.

Lemma sumnat_in x l : In x l -> (x <= sumnat l)%nat.
Proof.
  induction l as [|y l IH]; [done|]. rewrite sumnat_cons. intros [->|Hx]; [lia|].
  specialize (IH Hx). lia.
Qed.

Lemma sumnat_map_le {A} (f : A -> nat) l : (length l <= sumnat (map (fun x => S (f x)) l))%nat.
Proof. induction l as [|y l IH]; cbn [map length]; [lia|]. rewrite sumnat_cons. lia. Qed.

Lemma value_type_not_stop t : In t value_types -> (t =? T_STOP) = false.
Proof. intros Ht. by repeat destruct Ht as [<-|Ht]. Qed.

Section Values.
Context (depth : nat) (fuel : Z).

Definition reads_ih (v : tval) : Prop :=
  wf lim v = true -> (vsize v <= depth)%nat -> Z.of_nat (vsize v) < fuel ->
  forall l c, reads r_state (read_value depth fuel (type_of v)) (l :: c) (l :: c) (enc v) (canon v).

Lemma reads_field l c f acc p rest :
  in_s 16 l -> in_s 16 f.1 -> wf lim f.2 = true -> (vsize f.2 <= depth)%nat ->
  Z.of_nat (vsize f.2) < fuel -> reads_ih f.2 ->
  r_state p (l :: c) (enc_field l f ++ rest) ->
  succeeds (read_field (read_value depth fuel) acc) p (fun r p' =>
    exists n, r = inl (n, acc.2 ++ [(f.1, canon f.2)]) /\
      u32 n = u32 (acc.1 + zlen (enc_field l f)) /\ r_state p' (f.1 :: c) rest).
Proof.
  intros Hl Hid Hwf Hd Hf IH Hp. destruct acc as [n fs]. unfold read_field.
  destruct (decide (type_of f.2 = T_BOOL)) as [Ht|Ht].
  - destruct f as [id []]; try discriminate Ht; try discriminate Hwf.
    cbn [fst snd enc_field canon vsize] in *. destruct depth as [|d]; [lia|].
    apply runs_bind. eapply runs_mono; [by apply (r_boolfield l c id b)| |done].
    cbn -[read_value]. intros [k [t i]] p1 [[= -> ->] Hb]. change (T_BOOL =? T_STOP) with false. cbv iota.
    change (read_value (S d) fuel T_BOOL) with (read_as (P := P) VBool p_readBool).
    unfold read_as. wp. eapply runs_mono; [exact Hb| |done].
    intros [k' b'] p2 (Hk & Hb' & Hp2). cbn in Hk, Hb'. subst b'. wp.
    eapply runs_mono; [by apply r_fieldEnd| |done]. cbn. intros k2 p3 [-> Hp3]. wp. eexists. split_and!; [done| |done].
    rewrite Z.add_0_r. autorewrite with wrap. cbn [fst] in *. rewrite <- Z.add_assoc.
    by apply u32_add_cong.
  - rewrite enc_field_other in * by done. rewrite zlen_app. rewrite <- app_assoc in Hp.
    eapply reads_step; [apply (r_field l c); eauto with thrift|exact Hp|].
    intros p1 Hp1. cbv beta iota. rewrite value_type_not_stop by eauto with thrift.
    eapply reads_step; [by apply IH|exact Hp1|]. intros p2 Hp2. cbv beta iota.
    eapply reads_end; [apply r_fieldEnd|done|]. intros p3 Hp3. wp.
    eexists. split_and!; [done| |done]. rewrite Z.add_0_r. autorewrite with wrap.
    cbn [fst]. f_equal. lia.
Qed.

Lemma reads_fields c fs :
  Forall (fun f => reads_ih f.2) fs ->
  forallb (fun f => in_sb 16 f.1 && wf lim f.2)%bool fs = true ->
  (sumnat (map (fun f => S (vsize f.2)) fs) <= depth)%nat ->
  Z.of_nat (sumnat (map (fun f => S (vsize f.2)) fs)) < fuel ->
  forall p n rest, r_state p (0 :: c) ((enc_fields enc 0 fs ++ e_stop) ++ rest) ->
  succeeds (iterate fuel (read_field (read_value depth fuel)) (n, [])) p (fun r p' =>
    u32 r.1 = u32 (n + zlen (enc_fields enc 0 fs ++ e_stop)) /\
    r.2 = map (fun f => (f.1, canon f.2)) fs /\ exists l, r_state p' (l :: c) rest).
Proof.
  intros IH Hwf Hd Hf p n rest Hp.
  pose proof (sumnat_map_le (fun f : Z * tval => vsize f.2) fs) as Hlen.
  eapply (runs_iterate (fun acc p' => exists fs1 fs2 l, fs = fs1 ++ fs2 /\
      acc.2 = map (fun f => (f.1, canon f.2)) fs1 /\ in_s 16 l /\
      u32 (acc.1 + zlen (enc_fields enc l fs2 ++ e_stop)) =
        u32 (n + zlen (enc_fields enc 0 fs ++ e_stop)) /\
      r_state p' (l :: c) ((enc_fields enc l fs2 ++ e_stop) ++ rest))
    (fun acc => zlen fs - zlen acc.2)).
  - intros acc p1 (fs1 & fs2 & l & -> & Ha & Hl & Hn & Hp1).
    destruct fs2 as [|f fs2].
    + destruct acc as [k xs]. cbn [fst snd enc_fields app] in *. subst xs. unfold read_field.
      eapply reads_step; [apply r_stop|exact Hp1|]. intros p2 Hp2. cbn. wp.
      autorewrite with wrap. rewrite app_nil_r in *. eauto.
    + rewrite List.Forall_forall, forallb_forall in *.
      assert (In f (fs1 ++ f :: fs2)) as Hin by (apply in_or_app; right; by left).
      pose proof (sumnat_in _ _ (in_map (fun f => S (vsize f.2)) _ _ Hin)).
      specialize (Hwf f Hin). breflect. rewrite enc_fields_cons, <- !app_assoc in Hp1.
      eapply runs_mono; [eapply (reads_field l c f acc p1); eauto with thrift; lia| |done].
      cbn. intros r p2 (k & -> & Hk & Hp2). split.
      * exists (fs1 ++ [f]), fs2, f.1. cbn. split_and!; auto with thrift.
        { by rewrite <- app_assoc. }
        { by rewrite Ha, map_app. }
        { rewrite <- Hn, enc_fields_cons, <- app_assoc, (zlen_app (enc_field l f)), Z.add_assoc.
          by apply u32_add_cong. }
        { by rewrite <- app_assoc. }
      * rewrite Ha. cbn [snd]. unfold zlen. rewrite !length_app, !length_map. cbn [length]. lia.
  - exists [], fs, 0. split_and!; auto with thrift.
  - unfold zlen. cbn. lia.
Qed.

Lemma reads_elem l c t x acc p rest :
  type_of x = t -> wf lim x = true -> (vsize x <= depth)%nat -> Z.of_nat (vsize x) < fuel ->
  reads_ih x -> r_state p (l :: c) (enc x ++ rest) ->
  succeeds (read_elem (read_value depth fuel) t acc) p (fun r p' =>
    r = (u32 (acc.1 + zlen (enc x)), acc.2 ++ [canon x]) /\ r_state p' (l :: c) rest).
Proof.
  intros <- Hwf Hd Hf IH Hp. unfold read_elem.
  eapply reads_step; [by apply IH|exact Hp|]. intros p1 Hp1. wp. by autorewrite with wrap.
Qed.

Lemma reads_entry l c kt vt x acc p rest :
  type_of x.1 = kt -> wf lim x.1 = true -> type_of x.2 = vt -> wf lim x.2 = true ->
  (vsize x.1 + vsize x.2 <= depth)%nat -> Z.of_nat (vsize x.1 + vsize x.2) < fuel ->
  reads_ih x.1 -> reads_ih x.2 -> r_state p (l :: c) ((enc x.1 ++ enc x.2) ++ rest) ->
  succeeds (read_entry (read_value depth fuel) kt vt acc) p (fun r p' =>
    r = (u32 (acc.1 + zlen (enc x.1 ++ enc x.2)), acc.2 ++ [(canon x.1, canon x.2)]) /\
    r_state p' (l :: c) rest).
Proof.
  intros <- Hwf1 <- Hwf2 Hd Hf IH1 IH2 Hp. unfold read_entry. rewrite <- app_assoc in Hp.
  eapply reads_step; [apply IH1; [done|lia|lia]|exact Hp|]. intros p1 Hp1. cbv beta iota.
  eapply reads_step; [apply IH2; [done|lia|lia]|exact Hp1|]. intros p2 Hp2. wp.
  autorewrite with wrap. by rewrite zlen_app, Z.add_assoc.
Qed.

(** Header, elements and trailer of a set or list. *)
Lemma reads_coll l c t xs (m : M P (Z * (Z * Z))) (e : M P Z) (f : Z -> list tval -> tval) :
  (In t value_types -> 0 <= zlen xs < 2 ^ 31 -> container_over lim (zlen xs) = false ->
   reads r_state m (l :: c) (l :: c) (e_coll t (zlen xs)) (t, zlen xs)) ->
  reads_nothing r_state e (l :: c) (l :: c) ->
  Forall reads_ih xs ->
  (is_value_type t && count_ok lim (zlen xs) &&
   forallb (fun e => (type_of e =? t) && wf lim e) xs)%bool = true ->
  (sumnat (map (fun e => S (vsize e)) xs) <= depth)%nat ->
  Z.of_nat (sumnat (map (fun e => S (vsize e)) xs)) < fuel ->
  reads r_state
    (let! '(n, (t, size)) := m in
     let! '(result, l) := for_ size (read_elem (read_value depth fuel) t) (n, []) in
     let! n := e in ret (u32 (result + n), f t l))
    (l :: c) (l :: c) (e_coll t (zlen xs) ++ concat (map enc xs)) (f t (map canon xs)).
Proof.
  intros Hm He IH Hwf Hd Hf p rest Hp. breflect. rewrite <- app_assoc in Hp.
  match goal with H : count_ok _ _ = true |- _ => apply count_ok_true in H as [? ?] end.
  eapply reads_step; [apply Hm; auto with thrift|exact Hp|]. intros p1 Hp1. cbv beta iota.
  apply runs_bind. eapply runs_mono; [apply (for_reads r_state _ enc canon (l :: c) xs)| |done].
  - intros x acc p2 rest2 Hx Hp2. rewrite List.Forall_forall, forallb_forall in *.
    pose proof (sumnat_in _ _ (in_map (fun e => S (vsize e)) _ _ Hx)).
    match goal with H : forall x, In x xs -> _ = true |- _ => specialize (H x Hx) end.
    breflect. apply reads_elem; auto; lia.
  - exact Hp1.
  - intros [k ys] p2 (Hk & Hys & Hp2). cbn [fst snd] in Hk, Hys. subst ys.
    eapply reads_end; [exact He|exact Hp2|]. intros p3 Hp3. wp.
    rewrite Z.add_0_r, Hk, zlen_app. by autorewrite with wrap.
Qed.

Lemma reads_map l c kt vt es :
  Forall (fun e => reads_ih e.1 /\ reads_ih e.2) es ->
  wf lim (VMap kt vt es) = true ->
  (sumnat (map (fun e => S (vsize e.1 + vsize e.2)) es) <= depth)%nat ->
  Z.of_nat (sumnat (map (fun e => S (vsize e.1 + vsize e.2)) es)) < fuel ->
  reads r_state
    (let! '(n, (kt, vt, size)) := p_readMapBegin in
     let! '(result, es) := for_ size (read_entry (read_value depth fuel) kt vt) (n, []) in
     let! n := p_readMapEnd in ret (u32 (result + n), VMap kt vt es))
    (l :: c) (l :: c) (enc (VMap kt vt es)) (canon (VMap kt vt es)).
Proof.
  intros IH Hwf Hd Hf p rest Hp. cbn [wf enc canon] in *. breflect. rewrite <- app_assoc in Hp.
  match goal with H : count_ok _ _ = true |- _ => apply count_ok_true in H as [? ?] end.
  eapply reads_step; [apply (r_map (l :: c) kt vt (zlen es)); auto with thrift|exact Hp|].
  intros p1 Hp1. cbv beta iota.
  replace (if zlen es =? 0 then empty_map_types kt vt else (kt, vt))
    with (map_types kt vt es) by (destruct es; reflexivity).
  assert (es <> [] -> map_types kt vt es = (kt, vt)) as Hty by (by destruct es).
  destruct (map_types kt vt es) as [kt' vt']. cbn [fst snd].
  apply runs_bind. eapply runs_mono;
    [apply (for_reads r_state _ (fun e => enc e.1 ++ enc e.2) (fun e => (canon e.1, canon e.2)) (l :: c) es)
    | |done].
  - intros x acc p2 rest2 Hx Hp2.
    assert ((kt', vt') = (kt, vt)) as [= -> ->] by (apply Hty; by intros ->).
    rewrite List.Forall_forall, forallb_forall in *.
    pose proof (sumnat_in _ _ (in_map (fun e => S (vsize e.1 + vsize e.2)) _ _ Hx)).
    match goal with H : forall x, In x es -> _ = true |- _ => specialize (H x Hx) end.
    breflect. destruct (IH x Hx). apply reads_entry; auto; lia.
  - exact Hp1.
  - intros [k ys] p2 (Hk & Hys & Hp2). cbn [fst snd] in Hk, Hys. subst ys.
    eapply reads_end; [apply r_mapEnd|exact Hp2|]. intros p3 Hp3. wp.
    rewrite Z.add_0_r, Hk, zlen_app. by autorewrite with wrap.
Qed.
End Values.

(** [read_value] consumes exactly the encoding of [v] and rebuilds [v]. *)
Lemma read_value_enc v depth fuel l c :
  wf lim v = true -> (vsize v <= depth)%nat -> Z.of_nat (vsize v) < fuel ->
  reads r_state (read_value depth fuel (type_of v)) (l :: c) (l :: c) (enc v) (canon v).
Proof.
  revert depth l c.
  induction v as [b|z|z|z|z|z|s|fs IH|kt vt es IH|t xs IH|t xs IH|t] using tval_nested_ind;
    intros [|depth] l c Hwf Hd Hf; try (cbn [vsize] in Hd; lia);
    [..|discriminate Hwf].
  - apply (reads_as r_state VBool p_readBool), r_bool.
  - apply (reads_as r_state VByte p_readByte), r_byte. auto with thrift.
  - apply (reads_as r_state VI16 p_readI16), r_i16. auto with thrift.
  - apply (reads_as r_state VI32 p_readI32), r_i32. auto with thrift.
  - apply (reads_as r_state VI64 p_readI64), r_i64. auto with thrift.
  - apply (reads_as r_state VDouble p_readDouble), r_double. auto with thrift.
  - apply string_ok_true in Hwf as (? & ? & ?). by apply (reads_as r_state VString p_readBinary), r_binary.
  - intros p rest Hp. cbn [vsize enc canon type_of] in *.
    change (read_value (S depth) fuel T_STRUCT) with
      (let! '(n, _) := p_readStructBegin (P := P) in
       let! '(result, fs) := iterate fuel (read_field (read_value depth fuel)) (n, []) in
       let! n := p_readStructEnd in
       ret (u32 (result + n), VStruct fs)).
    eapply (reads_step _ p_readStructBegin _ _ _ []); [apply r_structBegin|exact Hp|].
    intros p1 Hp1. cbv beta iota. apply runs_bind.
    eapply runs_mono; [apply (reads_fields depth fuel (l :: c) fs); [|exact Hwf|lia|lia|exact Hp1]| |done].
    + eapply Forall_impl; [exact IH|]. intros f Hf' ? ? ? ? ?. by apply Hf'.
    + intros [k gs] p2 (Hk & Hgs & l' & Hp2). cbn [fst snd] in Hk, Hgs. subst gs.
      eapply reads_end; [apply r_structEnd|exact Hp2|]. intros p3 Hp3. wp.
      rewrite Z.add_0_r, Hk. by autorewrite with wrap.
  - apply (reads_map depth fuel l c kt vt es); cbn [vsize] in *; [|exact Hwf|lia|lia].
    eapply Forall_impl; [exact IH|]. intros f [Hf1 Hf2]. split; intros ? ? ? ? ?; [by apply Hf1|by apply Hf2].
  - apply (reads_coll depth fuel l c t xs p_readSetBegin p_readSetEnd VSet);
      cbn [vsize] in *; [intros; by apply r_set|apply r_setEnd| |exact Hwf|lia|lia].
    eapply Forall_impl; [exact IH|]. intros f Hf' ? ? ? ? ?. by apply Hf'.
  - apply (reads_coll depth fuel l c t xs p_readListBegin p_readListEnd VList);
      cbn [vsize] in *; [intros; by apply r_list|apply r_listEnd| |exact Hwf|lia|lia].
    eapply Forall_impl; [exact IH|]. intros f Hf' ? ? ? ? ?. by apply Hf'.
Qed.

(** A field's header, then its value. *)
Lemma field_then_read depth fuel l c f p rest :
  in_s 16 l -> in_s 16 f.1 -> wf lim f.2 = true -> (vsize f.2 <= depth)%nat ->
  Z.of_nat (vsize f.2) < fuel -> r_state p (l :: c) (enc_field l f ++ rest) ->
  succeeds p_readFieldBegin p (fun r p' => r.2 = (type_of f.2, f.1) /\
    succeeds (read_value depth fuel (type_of f.2)) p' (fun r' p'' =>
      u32 (r.1 + r'.1) = u32 (zlen (enc_field l f)) /\ r'.2 = canon f.2 /\ r_state p'' (f.1 :: c) rest)).
Proof.
  intros Hl Hid Hwf Hd Hf Hp. destruct (decide (type_of f.2 = T_BOOL)) as [Ht|Ht].
  - destruct f as [id []]; try discriminate Ht; try discriminate Hwf.
    cbn [fst snd enc_field type_of vsize canon] in *. destruct depth as [|d]; [lia|].
    eapply runs_mono; [by apply (r_boolfield l c id b)| |done].
    cbn -[read_value]. intros [k r] p1 [Hr Hb]. split; [done|].
    change (read_value (S d) fuel T_BOOL) with (read_as (P := P) VBool p_readBool). unfold read_as.
    apply runs_bind. eapply runs_mono; [exact Hb| |done]. cbn beta. intros [n b'] p2 (Hn & Hv & Hp2). cbn in Hv.
    subst b'. by wp.
  - rewrite enc_field_other in * by done. rewrite <- app_assoc in Hp.
    eapply runs_mono; [apply (r_field l c (type_of f.2) f.1); eauto with thrift| |done].
    cbn beta. intros r p1 [-> Hp1]. split; [done|].
    eapply runs_mono; [by apply (read_value_enc f.2)| |done]. cbn beta. intros n p2 [-> Hp2].
    rewrite zlen_app. cbn [fst snd]. by autorewrite with wrap.
Qed.
End Reading.

(** ** [skip] *)

Section Skipping.
Context {P : Type} `{TProtocol P}.

(** [skip] goes through the protocol exactly as [read_value] does. *)
Lemma skip_read_value depth fuel type p :
  skip depth fuel type p = map_outcome fst (read_value depth fuel type p).
Proof.
  revert fuel type p. induction depth as [|depth IH]; intros fuel type p; [done|].
  assert (Helem : forall t (a : Z * list tval) p1, skip_elem (skip depth fuel) t (fst a) p1 =
    map_outcome fst (read_elem (read_value depth fuel) t a p1)).
  { intros t a p1. apply (bind_map fst); [apply IH|]. by intros []. }
  assert (Hfor : forall {A} (step : Z * A -> M P (Z * A)) (step' : Z -> M P Z) size n a p1,
    (forall a p2, step' (fst a) p2 = map_outcome fst (step a p2)) ->
    for_ size step' n p1 = map_outcome fst (for_ size step (n, a) p1)).
  { intros A step step' size n a p1 Hs. unfold for_.
    apply (iterate_map (fun x => (fst x, fst (snd x))) fst _ _ ) with (a := (0, (n, a))).
    intros [i x] p2. unfold for_body. cbn [fst snd]. bif; [|done].
    apply (bind_map fst); [apply Hs|]. by intros []. }
  assert (Has : forall {A} (f : A -> tval) (m : M P (Z * A)) p1,
    (let! '(n, _) := m in ret n) p1 = map_outcome fst (read_as f m p1)).
  { intros. apply bind_same. by intros []. }
  cbn [skip read_value]. repeat (bif; [by apply Has|]). bif; [|bif; [|bif; [|bif]]]; [| | | |done].
  - apply bind_same. intros [n nm] p1. apply (bind_map fst).
    + apply (iterate_map fst fst) with (a := (n, [])). intros [k fs] p2.
      unfold skip_field, read_field. apply bind_same. intros [n1 [t id]] p3. bif; [done|].
      apply (bind_map fst); [apply IH|]. intros [n2 v] p4. apply bind_same. done.
    + intros [k fs] p2. by apply bind_same.
  - apply bind_same. intros [n [[kt vt] size]] p1. apply (bind_map fst).
    + apply Hfor. intros [k es] p2. unfold skip_entry, skip_elem, read_entry.
      unfold bind. rewrite IH. destruct (read_value depth fuel kt p2) as [[[]| | |] p3]; try done.
      cbn. rewrite IH. by destruct (read_value depth fuel vt p3) as [[[]| | |] p4].
    + intros [k es] p2. by apply bind_same.
  - apply bind_same. intros [n [t size]] p1. apply (bind_map fst); [by apply Hfor|].
    intros [k es] p2. by apply bind_same.
  - apply bind_same. intros [n [t size]] p1. apply (bind_map fst); [by apply Hfor|].
    intros [k es] p2. by apply bind_same.
Qed.

Context `{!WireFormat} {lim} `{!ReaderLaws P lim}.

(** [skip] of the type of a value passes over exactly its encoding. *)
Lemma skip_enc v depth fuel l c p rest :
  wf lim v = true -> (vsize v <= depth)%nat -> Z.of_nat (vsize v) < fuel ->
  r_state p (l :: c) (enc v ++ rest) ->
  succeeds (skip depth fuel (type_of v)) p (fun n p' =>
    n = u32 (zlen (enc v)) /\ r_state p' (l :: c) rest).
Proof.
  intros Hwf Hd Hf Hp. unfold succeeds, runs. rewrite skip_read_value.
  pose proof (read_value_enc v depth fuel l c Hwf Hd Hf p rest Hp) as Hr.
  unfold succeeds, runs in Hr.
  destruct (read_value depth fuel (type_of v) p) as [[r| | |] p1]; cbn; try done.
  by destruct Hr as [-> ?].
Qed.

(** A field's header, then [skip] of its type. *)
Lemma field_then_skip depth fuel l c f p rest :
  in_s 16 l -> in_s 16 f.1 -> wf lim f.2 = true -> (vsize f.2 <= depth)%nat ->
  Z.of_nat (vsize f.2) < fuel -> r_state p (l :: c) (enc_field l f ++ rest) ->
  succeeds p_readFieldBegin p (fun r p' => r.2 = (type_of f.2, f.1) /\
    succeeds (skip depth fuel (type_of f.2)) p' (fun n p'' =>
      u32 (r.1 + n) = u32 (zlen (enc_field l f)) /\ r_state p'' (f.1 :: c) rest)).
Proof.
  intros Hl Hid Hwf Hd Hf Hp.
  eapply runs_mono; [by apply (field_then_read depth fuel l c f p rest)| |done].
  cbn beta. intros r p1 [Hr Hv]. split; [done|]. unfold succeeds, runs in *. rewrite skip_read_value.
  destruct (read_value depth fuel (type_of f.2) p1) as [[n| | |] p2]; cbn in *; tauto.
Qed.

Context `{!ReaderTotal P lim}.

(** ** Any input *)

Definition typed (t : Z) (r : Z * tval) : Prop := type_of r.2 = t /\ shaped lim r.2 = true.

Definition reads_typed (depth : nat) (fuel : Z) (len : Z) : Prop :=
  forall t p l c bs, r_state p (l :: c) bs -> zlen bs < len ->
    leaves r_state (read_value depth fuel t) (l :: c) p bs (typed t).

Lemma total_as {A} (f : A -> tval) (m : M P (Z * A)) (V : A -> Prop) t l c p bs :
  any_input r_state m (l :: c) (l :: c) 1 V -> r_state p (l :: c) bs ->
  (forall a, V a -> type_of (f a) = t /\ shaped lim (f a) = true) ->
  leaves r_state (read_as f m) (l :: c) p bs (typed t).
Proof using Type.
  intros Hm Hp HV. unfold leaves, read_as. wp_apply (Hm p bs Hp); [|done]. intros [n a] p' (Ha & bs' & Hp' & Hle). wp.
  split; [by apply HV|]. exists bs'. split; [done|lia].
Qed.

Lemma total_field depth fuel len l c acc p bs :
  reads_typed depth fuel (len - 1) -> zlen bs < len -> r_state p (l :: c) bs ->
  len <= Z.of_nat (S depth) ->
  runs (read_field (read_value depth fuel) acc) p (fun r p' =>
    match r with
    | inl a => (exists f, a.2 = acc.2 ++ [f] /\ (in_sb 16 f.1 && shaped lim f.2)%bool = true) /\
        exists l' bs', zlen bs' < zlen bs /\ r_state p' (l' :: c) bs'
    | inr a => a.2 = acc.2 /\ exists l' bs', zlen bs' <= zlen bs /\ r_state p' (l' :: c) bs'
    end) (fun _ _ => True).
Proof.
  intros IH Hlen Hp Hd. destruct acc as [res fs]. unfold read_field.
  apply runs_bind. eapply runs_mono; [by apply t_field| |done].
  intros [n [t id]] p1 (Hid & bs1 & Hlt & Hstop & Hother & Hbool). cbn [fst snd] in *. bif.
  { wp. split; [done|]. exists l, bs1. split; [lia|]. apply Hstop. done. }
  pose proof (zlen_nonneg bs1).
  assert (Hv : runs (read_value depth fuel t) p1 (fun r p2 => shaped lim r.2 = true /\ exists l' bs2,
    r_state p2 (l' :: c) bs2 /\ zlen bs2 <= zlen bs1) (fun _ _ => True)).
  { destruct (decide (t = T_BOOL)) as [->|Ht].
    - destruct depth as [|d]; [lia|]. cbn [read_value]. change (T_BOOL =? T_BOOL) with true. cbv iota.
      apply runs_bind. eapply runs_mono; [by apply Hbool| |done]. intros [? ?] p2 Hp2. by wp.
    - destruct Hother as [l' Hp1]; [done|done|].
      eapply runs_mono; [eapply IH; [exact Hp1|lia]| |done]. cbn beta. intros r p2 ([_ Hr] & bs2 & Hp2). eauto. }
  apply runs_bind. eapply runs_mono; [exact Hv| |done]. cbn beta. intros [k v] p2 (Hr & l' & bs2 & Hp2 & Hle).
  eapply reads_end; [apply r_fieldEnd|exact Hp2|]. intros p3 Hp3. wp. cbn [fst snd] in *.
  split; [|exists l', bs2; split; [lia|done]]. exists (id, v). split; [done|]. cbn [fst snd]. rewrite Hr, andb_true_r.
  by apply bool_decide_eq_true.
Qed.

Lemma total_struct depth fuel len l c p bs :
  reads_typed depth fuel (len - 1) -> zlen bs < len -> len <= fuel -> len <= Z.of_nat (S depth) ->
  r_state p (l :: c) bs ->
  leaves r_state (let! '(n, _) := p_readStructBegin in
          let! '(result, fs) := iterate fuel (read_field (read_value depth fuel)) (n, []) in
          let! n := p_readStructEnd in ret (u32 (result + n), VStruct fs)) (l :: c) p bs (typed T_STRUCT).
Proof.
  intros IH Hlen Hfuel Hd Hp.
  apply runs_bind. eapply runs_mono; [by apply t_structBegin| |done].
  intros [n nm] p1 (_ & bs1 & Hp1 & Hle). apply runs_bind.
  eapply runs_mono; [eapply (runs_iterate_budget
    (fun k a p' => shaped lim (VStruct a.2) = true /\ exists l' bs', r_state p' (l' :: l :: c) bs' /\ zlen bs' = k /\ k <= zlen bs)
    _ (fun a p' => shaped lim (VStruct a.2) = true /\ exists l' bs', r_state p' (l' :: l :: c) bs' /\ zlen bs' <= zlen bs)
    (fun _ _ => True))| |done].
  - intros k acc p2 (Hsh & l2 & bs2 & Hp2 & <- & Hle2).
    eapply runs_mono; [apply (total_field depth fuel len l2 (l :: c) acc p2 bs2); [done|lia|done|done]| |done].
    intros [a|a] p3; cbn beta iota.
    + intros ((f & Hf & Hsf) & l3 & bs3 & Hle3 & Hp3).
      pose proof (zlen_nonneg bs3). exists (zlen bs3). split; [lia|]. split; [|exists l3, bs3; split_and!; [done|done|lia]].
      cbn [shaped] in *. rewrite Hf, forallb_app, Hsh. cbn [forallb]. by rewrite Hsf.
    + intros (Ha & l3 & bs3 & Hle3 & Hp3). split; [by rewrite Ha|]. exists l3, bs3. split; [done|lia].
  - split; [done|]. exists 0, bs1. split_and!; [done|done|lia].
  - pose proof (zlen_nonneg bs1). lia.
  - cbn beta. intros [r fs] p2 (Hsh & l2 & bs2 & Hp2 & Hle2).
    eapply reads_end; [apply r_structEnd|exact Hp2|]. intros p3 Hp3. wp. split; [by split|]. by exists bs2.
Qed.

Lemma total_coll depth fuel len l c (m : M P (Z * (Z * Z))) (e : M P Z) (mk : Z -> list tval -> tval) tt p bs :
  reads_typed depth fuel (len - 1) -> zlen bs < len ->
  any_input r_state m (l :: c) (l :: c) 1 (fun r => 0 <= r.2 /\ count_ok lim r.2 = true) ->
  reads_nothing r_state e (l :: c) (l :: c) -> r_state p (l :: c) bs ->
  (forall t xs, type_of (mk t xs) = tt /\ shaped lim (mk t xs) = shaped lim (VList t xs)) ->
  leaves r_state (let! '(n, (t, size)) := m in
          let! '(result, l) := for_ size (read_elem (read_value depth fuel) t) (n, []) in
          let! n := e in ret (u32 (result + n), mk t l)) (l :: c) p bs (typed tt).
Proof using Type.
  intros IH Hlen Hm He Hp Hmk. apply runs_bind. eapply runs_mono; [by apply Hm| |done].
  intros [n [t size]] p1 ([Hs Hc] & bs1 & Hp1 & Hle). cbn [snd] in Hs, Hc. apply runs_bind.
  eapply runs_mono; [apply (total_for r_state (fun x => (type_of x =? t) && shaped lim x)%bool _ (len - 1) (l :: c) size n p1 bs1);
    [done|done|lia|]| |done].
  - intros a p2 bs2 Hp2 Hlt. unfold leaves, read_elem.
    wp_apply (IH t p2 l c bs2 Hp2 Hlt); [|done]. intros [k v] p3 ([Ht Hv] & Hp3). wp. split; [|done].
    exists v. cbn [snd] in *. rewrite Ht, Hv, Z.eqb_refl. by split.
  - cbn beta. intros [k xs] p2 ((Hz & HV) & bs2 & Hp2 & Hle2). cbn [snd] in Hz, HV.
    eapply reads_end; [exact He|exact Hp2|]. intros p3 Hp3. wp. split; [|exists bs2; split; [done|lia]].
    destruct (Hmk t xs) as [Ht Hsh]. split; [done|]. cbn [snd]. rewrite Hsh. cbn [shaped]. by rewrite Hz, Hc, HV.
Qed.

Lemma total_map depth fuel len l c p bs :
  reads_typed depth fuel (len - 1) -> zlen bs < len -> r_state p (l :: c) bs ->
  leaves r_state (let! '(n, (kt, vt, size)) := p_readMapBegin in
          let! '(result, es) := for_ size (read_entry (read_value depth fuel) kt vt) (n, []) in
          let! n := p_readMapEnd in ret (u32 (result + n), VMap kt vt es)) (l :: c) p bs (typed T_MAP).
Proof.
  intros IH Hlen Hp. apply runs_bind. eapply runs_mono; [by apply t_map| |done].
  intros [n [[kt vt] size]] p1 ([Hs Hc] & bs1 & Hp1 & Hle). cbn [snd] in Hs, Hc. apply runs_bind.
  eapply runs_mono; [apply (total_for r_state (fun e => (type_of e.1 =? kt) && shaped lim e.1 && (type_of e.2 =? vt) && shaped lim e.2)%bool
    _ (len - 1) (l :: c) size n p1 bs1); [done|done|lia|]| |done].
  - intros a p2 bs2 Hp2 Hlt. unfold leaves, read_entry.
    wp_apply (IH kt p2 l c bs2 Hp2 Hlt); [|done]. intros [k x] p3 ([Hxt Hx] & bs3 & Hp3 & Hle3). wp.
    eapply runs_mono; [apply (IH vt p3 l c bs3 Hp3); lia| |done].
    cbn beta. intros [k' y] p4 ([Hyt Hy] & bs4 & Hp4 & Hle4). wp. split; [|exists bs4; split; [done|lia]].
    exists (x, y). cbn [fst snd] in *. rewrite Hxt, Hx, Hyt, Hy, !Z.eqb_refl. by split.
  - cbn beta. intros [k es] p2 ((Hz & HV) & bs2 & Hp2 & Hle2). cbn [snd] in Hz, HV.
    eapply reads_end; [apply r_mapEnd|exact Hp2|]. intros p3 Hp3. wp. split; [|exists bs2; split; [done|lia]].
    split; [done|]. cbn [snd shaped]. by rewrite Hz, Hc, HV.
Qed.

(** On any input of [n] bytes reading a value of any type ends, with a value of
    that type or an exception, once its depth and fuel exceed [n]; it never reads
    past its place. *)
Lemma read_value_total depth fuel :
  forall len, len <= Z.of_nat depth -> len <= fuel -> reads_typed depth fuel len.
Proof.
  induction depth as [|depth IH]; intros len Hd Hf t p l c bs Hp Hlen;
    pose proof (zlen_nonneg bs); [lia|].
  assert (Hrd : reads_typed depth fuel (len - 1)) by (apply IH; lia).
  cbn [read_value]. unfold leaves.
  bif; [subst t; eapply total_as; [apply t_bool|done|done]|].
  bif; [subst t; eapply total_as; [apply t_byte|done|intros; split; [done|by apply bool_decide_eq_true]]|].
  bif; [subst t; eapply total_as; [apply t_i16|done|intros; split; [done|by apply bool_decide_eq_true]]|].
  bif; [subst t; eapply total_as; [apply t_i32|done|intros; split; [done|by apply bool_decide_eq_true]]|].
  bif; [subst t; eapply total_as; [apply t_i64|done|intros; split; [done|by apply bool_decide_eq_true]]|].
  bif; [subst t; eapply total_as; [apply t_double|done|done]|].
  bif; [subst t; eapply total_as; [apply t_binary|done|done]|].
  bif; [subst t; by apply (total_struct depth fuel len)|].
  bif; [subst t; by apply (total_map depth fuel len)|].
  bif; [subst t; apply (total_coll depth fuel len); auto using t_set, r_setEnd|].
  bif; [subst t; apply (total_coll depth fuel len); auto using t_list, r_listEnd|].
  wp. split; [|by exists bs]. split; [done|]. cbn. apply negb_true_iff. unfold is_value_type, value_types. cbn [existsb].
  repeat match goal with H : t <> ?x |- _ => apply Z.eqb_neq in H; rewrite H; clear H end. done.
Qed.

(** And so does [skip]. *)
Definition skips (depth : nat) (fuel : Z) (len : Z) : Prop :=
  forall t p l c bs, r_state p (l :: c) bs -> zlen bs < len ->
    runs (skip depth fuel t) p
      (fun _ p' => exists bs', r_state p' (l :: c) bs' /\ zlen bs' <= zlen bs) (fun _ _ => True).

Lemma skip_total depth fuel :
  forall len, len <= Z.of_nat depth -> len <= fuel -> skips depth fuel len.
Proof.
  intros len Hd Hf t p l c bs Hp Hlen. pose proof (read_value_total depth fuel len Hd Hf t p l c bs Hp Hlen) as Hr.
  unfold leaves, runs in *. rewrite skip_read_value.
  destruct (read_value depth fuel t p) as [[r| | |] p1]; cbn; tauto.
Qed.
End Skipping.
