(* ===== verification/BinaryProtocol.v ===== *)
(** * [TBinaryProtocolT]: protocol/TBinaryProtocol.h and .tcc

    The binary protocol over any transport.  Integers are stored with [htons],
    [htonl] and [htonll] of the host and written byte for byte. *)

From S2P Require Export Transport Memory Wire.

Record TBinaryProtocolT (T : Type) := BinProt {
  trans_ : T;
  limits_ : limits;
  strict_read_ : bool;
  strict_write_ : bool;
  string_buf_ : option (list Z);
  string_buf_size_ : Z
}.
Arguments BinProt {T}.
Arguments trans_ {T}.
Arguments limits_ {T}.
Arguments strict_read_ {T}.
Arguments strict_write_ {T}.
Arguments string_buf_ {T}.
Arguments string_buf_size_ {T}.

Definition VERSION_MASK : Z := s32 0xffff0000.
Definition VERSION_1 : Z := s32 0x80010000.

Section Operations.
Context `{Platform} {T : Type} `{TTransport T}.
Abbreviation P := (TBinaryProtocolT T).

(** ** Construction and settings *)

Definition new_protocol (trans : T) : P := BinProt trans (Limits 0 0) false true None 0.
Definition new_protocol_limits (trans : T) (string_limit container_limit : Z)
    (strict_read strict_write : bool) : P :=
  BinProt trans (Limits string_limit container_limit) strict_read strict_write None 0.

Definition set_trans (t : T) (p : P) : P :=
  BinProt t (limits_ p) (strict_read_ p) (strict_write_ p) (string_buf_ p) (string_buf_size_ p).
Definition set_string_buf (b : list Z) (size : Z) (p : P) : P :=
  BinProt (trans_ p) (limits_ p) (strict_read_ p) (strict_write_ p) (Some b) size.

Definition setStringSizeLimit (string_limit : Z) : M P unit :=
  modify (fun p => BinProt (trans_ p) (Limits string_limit (container_limit_ (limits_ p)))
    (strict_read_ p) (strict_write_ p) (string_buf_ p) (string_buf_size_ p)).
Definition setContainerSizeLimit (container_limit : Z) : M P unit :=
  modify (fun p => BinProt (trans_ p) (Limits (string_limit_ (limits_ p)) container_limit)
    (strict_read_ p) (strict_write_ p) (string_buf_ p) (string_buf_size_ p)).
Definition setStrict (strict_read strict_write : bool) : M P unit :=
  modify (fun p => BinProt (trans_ p) (limits_ p) strict_read strict_write
    (string_buf_ p) (string_buf_size_ p)).

(** A call on [trans_]. *)
Definition under {A} (m : M T A) : M P A := lift trans_ set_trans m.

(** ** Writing *)

Definition writeBool (value : bool) : M P Z :=
  let tmp := if value then 1 else 0 in
  do! under (t_write [tmp]) in ret 1.

Definition writeByte (byte : Z) : M P Z :=
  do! under (t_write [u8 byte]) in ret 1.

Definition writeI16 (i16 : Z) : M P Z :=
  let net := htons (u16 i16) in
  do! under (t_write (store 2 net)) in ret 2.

Definition writeI32 (i32 : Z) : M P Z :=
  let net := htonl (u32 i32) in
  do! under (t_write (store 4 net)) in ret 4.

Definition writeI64 (i64 : Z) : M P Z :=
  let net := htonll (u64 i64) in
  do! under (t_write (store 8 net)) in ret 8.

Definition writeDouble (bits : Z) : M P Z :=
  let bits := htonll bits in
  do! under (t_write (store 8 bits)) in ret 8.

Definition writeString (str : list Z) : M P Z :=
  if 2 ^ 31 - 1 <? zlen str then throw (EProtocol TProtocolException.SIZE_LIMIT "") else
  let size := u32 (zlen str) in
  let! result := writeI32 (s32 size) in
  do! (if 0 <? size then under (t_write str) else ret tt) in
  ret (u32 (result + size)).

Definition writeBinary (str : list Z) : M P Z := writeString str.

Definition writeMessageBegin (name : list Z) (messageType seqid : Z) : M P Z :=
  let! strict := gets strict_write_ in
  if strict then
    let version := Z.lor VERSION_1 messageType in
    let! a := writeI32 version in
    let! b := writeString name in
    let! c := writeI32 seqid in
    ret (u32 (u32 (a + b) + c))
  else
    let! a := writeString name in
    let! b := writeByte (s8 messageType) in
    let! c := writeI32 seqid in
    ret (u32 (u32 (a + b) + c)).

Definition writeMessageEnd : M P Z := ret 0.
Definition writeStructBegin (name : option (list Z)) : M P Z := ret 0.
Definition writeStructEnd : M P Z := ret 0.

Definition writeFieldBegin (name : option (list Z)) (fieldType fieldId : Z) : M P Z :=
  let! a := writeByte (s8 fieldType) in
  let! b := writeI16 fieldId in
  ret (u32 (a + b)).

Definition writeFieldEnd : M P Z := ret 0.
Definition writeFieldStop : M P Z := writeByte (s8 T_STOP).

Definition writeMapBegin (keyType valType size : Z) : M P Z :=
  let! a := writeByte (s8 keyType) in
  let! b := writeByte (s8 valType) in
  let! c := writeI32 (s32 size) in
  ret (u32 (u32 (a + b) + c)).

Definition writeMapEnd : M P Z := ret 0.

Definition writeListBegin (elemType size : Z) : M P Z :=
  let! a := writeByte (s8 elemType) in
  let! b := writeI32 (s32 size) in
  ret (u32 (a + b)).

Definition writeListEnd : M P Z := ret 0.

Definition writeSetBegin (elemType size : Z) : M P Z :=
  let! a := writeByte (s8 elemType) in
  let! b := writeI32 (s32 size) in
  ret (u32 (a + b)).

Definition writeSetEnd : M P Z := ret 0.

(** ** Reading *)

Definition readBool : M P (Z * bool) :=
  let! b := under (t_readAll 1) in ret (1, negb (s8 (load b) =? 0)).

Definition readByte : M P (Z * Z) :=
  let! b := under (t_readAll 1) in ret (1, s8 (load b)).

Definition readI16 : M P (Z * Z) :=
  let! b := under (t_readAll 2) in ret (2, s16 (ntohs (load b))).

Definition readI32 : M P (Z * Z) :=
  let! b := under (t_readAll 4) in ret (4, s32 (ntohl (load b))).

Definition readI64 : M P (Z * Z) :=
  let! b := under (t_readAll 8) in ret (8, s64 (ntohll (load b))).

Definition readDouble : M P (Z * Z) :=
  let! b := under (t_readAll 8) in ret (8, ntohll (load b)).

Definition readStringBody (size : Z) : M P (Z * list Z) :=
  let! lim := gets limits_ in
  if size <? 0 then throw (EProtocol TProtocolException.NEGATIVE_SIZE "") else
  if string_over lim size then throw (EProtocol TProtocolException.SIZE_LIMIT "") else
  if size =? 0 then ret (0, []) else
  let! borrow_buf := under (t_borrow (u32 size)) in
  match borrow_buf with
  | Some b =>
      let! str := load_mem b 0 size in
      do! under (t_consume (u32 size)) in
      ret (u32 size, str)
  | None =>
      let! p := gets id in
      let! '(b, bsize) := string_buffer (string_buf_ p) (string_buf_size_ p) size in
      do! modify (set_string_buf b bsize) in
      let! got := under (t_readAll (u32 size)) in
      let! b' := store_mem b 0 got in
      do! modify (set_string_buf b' bsize) in
      let! str := load_mem b' 0 size in
      ret (u32 size, str)
  end.

Definition readString : M P (Z * list Z) :=
  let! '(result, size) := readI32 in
  let! '(n, str) := readStringBody size in
  ret (u32 (result + n), str).

Definition readBinary : M P (Z * list Z) := readString.

Definition readMessageBegin : M P (Z * (list Z * Z * Z)) :=
  let! '(result, sz) := readI32 in
  if sz <? 0 then
    let version := Z.land sz VERSION_MASK in
    if negb (version =? VERSION_1) then
      throw (EProtocol TProtocolException.BAD_VERSION "Bad version identifier")
    else
    let messageType := Z.land sz 0x000000ff in
    let! '(n, name) := readString in
    let! '(m, seqid) := readI32 in
    ret (u32 (u32 (result + n) + m), (name, messageType, seqid))
  else
    let! strict := gets strict_read_ in
    if strict then
      throw (EProtocol TProtocolException.BAD_VERSION
        "No version identifier... old protocol client in strict mode?")
    else
    let! '(n, name) := readStringBody sz in
    let! '(k, type) := readByte in
    let! '(m, seqid) := readI32 in
    ret (u32 (u32 (u32 (result + n) + k) + m), (name, type, seqid)).

Definition readMessageEnd : M P Z := ret 0.
Definition readStructBegin : M P (Z * list Z) := ret (0, []).
Definition readStructEnd : M P Z := ret 0.

Definition readFieldBegin : M P (Z * (Z * Z)) :=
  let! '(result, type) := readByte in
  if type =? T_STOP then ret (result, (type, 0)) else
  let! '(n, fieldId) := readI16 in
  ret (u32 (result + n), (type, fieldId)).

Definition readFieldEnd : M P Z := ret 0.

(** The test of a container's size. *)
Definition checkSize (sizei : Z) : M P unit :=
  let! lim := gets limits_ in
  if sizei <? 0 then throw (EProtocol TProtocolException.NEGATIVE_SIZE "")
  else if container_over lim sizei then throw (EProtocol TProtocolException.SIZE_LIMIT "")
  else ret tt.

Definition readMapBegin : M P (Z * (Z * Z * Z)) :=
  let! '(a, k) := readByte in
  let! '(b, v) := readByte in
  let! '(c, sizei) := readI32 in
  do! checkSize sizei in
  ret (u32 (u32 (a + b) + c), (k, v, u32 sizei)).

Definition readMapEnd : M P Z := ret 0.

Definition readListBegin : M P (Z * (Z * Z)) :=
  let! '(a, e) := readByte in
  let! '(b, sizei) := readI32 in
  do! checkSize sizei in
  ret (u32 (a + b), (e, u32 sizei)).

Definition readListEnd : M P Z := ret 0.

Definition readSetBegin : M P (Z * (Z * Z)) :=
  let! '(a, e) := readByte in
  let! '(b, sizei) := readI32 in
  do! checkSize sizei in
  ret (u32 (a + b), (e, u32 sizei)).

Definition readSetEnd : M P Z := ret 0.

#[export] Instance TBinaryProtocol_protocol : TProtocol P := {
  p_writeMessageBegin := writeMessageBegin;
  p_writeMessageEnd := writeMessageEnd;
  p_writeStructBegin := writeStructBegin;
  p_writeStructEnd := writeStructEnd;
  p_writeFieldBegin := writeFieldBegin;
  p_writeFieldEnd := writeFieldEnd;
  p_writeFieldStop := writeFieldStop;
  p_writeMapBegin := writeMapBegin;
  p_writeMapEnd := writeMapEnd;
  p_writeListBegin := writeListBegin;
  p_writeListEnd := writeListEnd;
  p_writeSetBegin := writeSetBegin;
  p_writeSetEnd := writeSetEnd;
  p_writeBool := writeBool;
  p_writeByte := writeByte;
  p_writeI16 := writeI16;
  p_writeI32 := writeI32;
  p_writeI64 := writeI64;
  p_writeDouble := writeDouble;
  p_writeString := writeString;
  p_writeBinary := writeBinary;
  p_readMessageBegin := readMessageBegin;
  p_readMessageEnd := readMessageEnd;
  p_readStructBegin := readStructBegin;
  p_readStructEnd := readStructEnd;
  p_readFieldBegin := readFieldBegin;
  p_readFieldEnd := readFieldEnd;
  p_readMapBegin := readMapBegin;
  p_readMapEnd := readMapEnd;
  p_readListBegin := readListBegin;
  p_readListEnd := readListEnd;
  p_readSetBegin := readSetBegin;
  p_readSetEnd := readSetEnd;
  p_readBool := readBool;
  p_readByte := readByte;
  p_readI16 := readI16;
  p_readI32 := readI32;
  p_readI64 := readI64;
  p_readDouble := readDouble;
  p_readString := readString;
  p_readBinary := readBinary
}.
End Operations.

(** ** The wire format *)

Definition binary_format : WireFormat := {|
  e_bool b := [if b then 1 else 0];
  e_byte z := [u8 z];
  e_i16 z := be_bytes 2 z;
  e_i32 z := be_bytes 4 z;
  e_i64 z := be_bytes 8 z;
  e_double bits := be_bytes 8 bits;
  e_string s := be_bytes 4 (zlen s) ++ s;
  e_field _ t id := [u8 t] ++ be_bytes 2 id;
  e_boolfield _ id b := ([u8 T_BOOL] ++ be_bytes 2 id) ++ [if b then 1 else 0];
  e_stop := [0];
  e_map kt vt n := [u8 kt] ++ [u8 vt] ++ be_bytes 4 n;
  e_coll t n := [u8 t] ++ be_bytes 4 n;
  empty_map_types kt vt := (kt, vt)
|}.
#[local] Existing Instance binary_format.

Lemma value_type_s8 t : In t value_types -> in_s 8 t.
Proof. intros Ht. by repeat destruct Ht as [<-|Ht]. Qed.

Lemma u8_s8_any z : u8 (s8 z) = u8 z.
Proof. apply wrapu_wraps. lia. Qed.

(** No header loses anything: a value is read back as it was written. *)
Lemma binary_canon v : canon v = v.
Proof.
  induction v as [| | | | | | |fs IH|kt vt es IH|t l IH|t l IH|] using tval_nested_ind; cbn; try done; f_equal.
  - induction IH as [|[id v] fs Hv _ IHfs]; cbn in *; congruence.
  - by destruct es.
  - by destruct es.
  - induction IH as [|[k v] es [Hk Hv] _ IHes]; cbn in *; congruence.
  - induction IH; cbn; congruence.
  - induction IH; cbn; congruence.
Qed.

(** ** What is written *)

Section Writing.
Context `{Platform} {T : Type} `{WriteLaws T}.
Abbreviation P := (TBinaryProtocolT T).

Definition bin_out (p : P) (c out : list Z) (room : Z) : Prop := outgoing (trans_ p) out room.

Lemma writes_bytes d k c c' :
  k = zlen d -> zlen d < 2 ^ 32 -> writes bin_out (do! under (t_write d) in ret k) c c' d.
Proof.
  intros -> Hd p out room Hp Hr. unfold under. wp.
  eapply runs_mono; [by eapply write_ok| |done]. cbn. intros _ t Ht. wp.
  split; [|done]. symmetry. apply wrapu_small. split; [apply zlen_nonneg|done].
Qed.

Lemma writeBool_ok c b : writes bin_out (writeBool b) c c [if b then 1 else 0].
Proof. by apply writes_bytes. Qed.

Lemma writeByte_ok c c' z : writes bin_out (writeByte z) c c' [u8 z].
Proof. by apply writes_bytes. Qed.

Lemma writeI16_ok c z : writes bin_out (writeI16 z) c c (be_bytes 2 z).
Proof. unfold writeI16. rewrite (store_hton_wrap 2). by apply writes_bytes. Qed.

Lemma writeI32_ok c z : writes bin_out (writeI32 z) c c (be_bytes 4 z).
Proof. unfold writeI32. rewrite (store_hton_wrap 4). by apply writes_bytes. Qed.

Lemma be_bytes_u64 z : be_bytes 8 (u64 z) = be_bytes 8 z.
Proof. apply (be_bytes_mod 8). Qed.

Lemma writeI64_ok c z : writes bin_out (writeI64 z) c c (be_bytes 8 z).
Proof.
  unfold writeI64. rewrite store_htonll by (apply (wrapu_range 64); lia). rewrite be_bytes_u64.
  by apply writes_bytes.
Qed.

Lemma writeDouble_ok c z : in_u 64 z -> writes bin_out (writeDouble z) c c (be_bytes 8 z).
Proof. intros. unfold writeDouble. rewrite store_htonll by done. by apply writes_bytes. Qed.

Lemma writeString_ok c s : zlen s < 2 ^ 31 -> writes bin_out (writeString s) c c (be_bytes 4 (zlen s) ++ s).
Proof.
  intros Hs p out room Hp Hr. unfold writeString. pose proof (zlen_nonneg s). zlist.
  replace (_ <? zlen s) with false by lia. unwrap.
  eapply writes_step; [apply (writeI32_ok c)|done|zlist|]. intros p1 Hp1.
  rewrite zlen_be_bytes in *. bif.
  - unfold under. wp. eapply runs_mono; [eapply write_ok; [exact Hp1|lia|lia]| |done].
    cbn. intros _ t Ht. wp. split; [by unwrap|].
    unfold bin_out. cbn. by rewrite app_assoc, Z.sub_add_distr.
  - assert (s = []) as -> by (apply zlen_0; lia). wp. rewrite zlen_nil, app_nil_r, Z.add_0_r.
    split; [by unwrap|exact Hp1].
Qed.

(** A string the length field cannot hold is refused, and nothing is written. *)
Lemma writeString_too_long (p : P) s :
  2 ^ 31 <= zlen s -> writeString s p = (Throw (EProtocol TProtocolException.SIZE_LIMIT ""), p).
Proof. intros. unfold writeString. by replace (_ <? zlen s) with true by lia. Qed.

Lemma writes_nothing c c' : writes bin_out (ret 0) c c' [].
Proof. intros p out room Hp Hr. wp. unfold bin_out. by rewrite app_nil_r, Z.sub_0_r. Qed.

Lemma be_bytes_s32 z : be_bytes 4 (s32 z) = be_bytes 4 z.
Proof.
  rewrite <- (be_bytes_mod 4 (s32 z)), <- (be_bytes_mod 4 z). f_equal.
  apply (wrapu_wraps 32). lia.
Qed.

#[export] Instance TBinaryProtocol_writer : @WriterLaws P _ binary_format.
Proof.
  refine {| w_state := bin_out |}; cbn.
  - apply writeBool_ok.
  - intros. apply writeByte_ok.
  - intros. apply writeI16_ok.
  - intros. apply writeI32_ok.
  - intros. apply writeI64_ok.
  - apply writeDouble_ok.
  - intros. by apply writeString_ok.
  - intros. by apply writeString_ok.
  - intros. apply writes_nothing.
  - intros. apply writes_nothing.
  - intros. unfold writeFieldBegin. rewrite <- u8_s8_any.
    eapply (writes_then _ _ _ _ _ _ [_]); [apply writeByte_ok|apply writeI16_ok].
  - intros l c name id b _ _ p out room Hp Hr.
    unfold succeeds. eapply runs_mono.
    + eapply (writes_then _ _ _ _ (id :: c) (id :: c) [_]); [apply writeByte_ok|apply writeI16_ok|exact Hp|].
      zlist.
    + cbn. intros n p1 [-> Hp1]. eapply runs_mono; [eapply writeBool_ok; [exact Hp1|zlist]| |done].
      cbn. intros m p2 [-> Hp2]. split; [done|].
      unfold bin_out in *. rewrite <- app_assoc in Hp2. autorewrite with zlist in *.
      by rewrite <- !Z.sub_add_distr, <- Z.add_assoc in Hp2.
    + done.
  - intros. apply writes_nothing.
  - intros. apply writeByte_ok.
  - intros. unfold writeMapBegin. rewrite <- (u8_s8_any kt), <- (u8_s8_any vt), <- (be_bytes_s32 n).
    eapply (writes_then3 _ _ _ _ c c c c [_] [_]); [apply writeByte_ok|apply writeByte_ok|apply writeI32_ok].
  - intros. apply writes_nothing.
  - intros. unfold writeListBegin. rewrite <- (u8_s8_any t), <- (be_bytes_s32 n).
    eapply (writes_then _ _ _ c c c [_]); [apply writeByte_ok|apply writeI32_ok].
  - intros. apply writes_nothing.
  - intros. unfold writeSetBegin. rewrite <- (u8_s8_any t), <- (be_bytes_s32 n).
    eapply (writes_then _ _ _ c c c [_]); [apply writeByte_ok|apply writeI32_ok].
  - intros. apply writes_nothing.
Defined.
End Writing.

(** ** What is read *)

Section Reading.
Context `{Platform} `{!Unbounded} {T : Type} `{ReadLaws T} (lim : limits).
Abbreviation P := (TBinaryProtocolT T).

Definition bin_in (p : P) (c bs : list Z) : Prop :=
  incoming (trans_ p) bs /\ limits_ p = lim /\ string_buf_ok (string_buf_ p) (string_buf_size_ p).

(** Reading [n] bytes: all of them, or what the end of the stream throws. *)
Lemma under_readAll {A} n d rest (k : list Z -> M P A) p c Q E :
  bin_in p c (d ++ rest) -> zlen d = n -> n < 2 ^ 32 ->
  (forall p', bin_in p' c rest -> runs (k d) p' Q E) ->
  runs (bind (under (t_readAll n)) k) p Q E.
Proof using Type.
  intros (Hin & Hlim & Hbuf) Hd Hn Hk. unfold under. wp.
  eapply runs_mono; [by eapply readAll_ok| |done]. cbn. intros r t [-> Ht]. by apply Hk.
Qed.

Lemma under_readAll_eof {A} n bs (k : list Z -> M P A) p c E :
  bin_in p c bs -> zlen bs < n -> n < 2 ^ 32 ->
  (forall e p', stream_end e -> E e p') ->
  raises (bind (under (t_readAll n)) k) p E.
Proof using Type.
  intros (Hin & _) Hd Hn HE. unfold under. wp.
  eapply runs_mono; [by eapply readAll_eof|done|]. cbn. auto.
Qed.

(** A fixed-width read on any input. *)
Lemma total_fixed {A} n (f : list Z -> A) c c' (V : A -> Prop) :
  0 <= n < 2 ^ 32 -> (forall d, V (f d)) ->
  any_input bin_in (let! b := under (t_readAll n) in ret (n, f b)) c c' n V.
Proof using Type.
  intros Hn HV p bs Hp. destruct (Z_le_gt_dec n (zlen bs)) as [Hle|Hgt].
  - rewrite <- (ztake_zdrop n bs) in Hp.
    eapply under_readAll; [exact Hp|zlist|lia|]. intros p' Hp'. wp. split; [apply HV|].
    exists (zdrop n bs). split; [exact Hp'|]. zlist.
  - eapply runs_mono; [eapply (under_readAll_eof n bs _ p c (fun _ _ => True)); [exact Hp|lia|lia|done]
      |done|done].
Qed.

Lemma reads_fixed {A} n (f : list Z -> A) c c' d a :
  zlen d = n -> n < 2 ^ 32 -> f d = a ->
  reads bin_in (let! b := under (t_readAll n) in ret (n, f b)) c c' d a.
Proof using Type.
  intros Hd Hn Hf p rest Hp. pose proof (zlen_nonneg d).
  eapply under_readAll; [exact Hp|done|done|]. intros p' Hp'. wp.
  rewrite Hf, Hd. unwrap. done.
Qed.

Lemma load_1 x : load [x] = x.
Proof using Type. unfold load. destruct byte_order; cbn; unfold of_be, of_le; cbn; lia. Qed.

Lemma readBool_ok c (b : bool) : reads bin_in readBool c c [if b then 1 else 0] b.
Proof using Type. apply reads_fixed; [done|done|]. rewrite load_1. by destruct b. Qed.

Lemma readByte_ok c c' z : in_s 8 z -> reads bin_in readByte c c' [u8 z] z.
Proof using Type.
  intros Hz. apply reads_fixed; [done|done|]. rewrite load_1, wraps_wrapu by lia.
  by apply wraps_small.
Qed.

Lemma readI16_ok c c' z : in_s 16 z -> reads bin_in readI16 c c' (be_bytes 2 z) z.
Proof using Type. intros Hz. apply reads_fixed; [done|done|]. by apply (wraps_ntoh 2); [lia|]. Qed.

Lemma readI32_ok c c' z : in_s 32 z -> reads bin_in readI32 c c' (be_bytes 4 z) z.
Proof using Type. intros Hz. apply reads_fixed; [done|done|]. by apply (wraps_ntoh 4); [lia|]. Qed.

Lemma readI64_ok c c' z : in_s 64 z -> reads bin_in readI64 c c' (be_bytes 8 z) z.
Proof using Type.
  intros Hz. apply reads_fixed; [done|done|]. rewrite <- be_bytes_u64.
  rewrite ntohll_load by (apply (wrapu_range 64); lia). rewrite wraps_wrapu by lia.
  by apply wraps_small.
Qed.

Lemma readDouble_ok c z : in_u 64 z -> reads bin_in readDouble c c (be_bytes 8 z) z.
Proof using Type. intros Hz. apply reads_fixed; [done|done|]. by apply ntohll_load. Qed.

(** The body of a string, with or without a borrow from the transport. *)
Lemma readStringBody_ok c s :
  zlen s < 2 ^ 31 -> string_over lim (zlen s) = false -> reads bin_in (readStringBody (zlen s)) c c s s.
Proof.
  intros Hs Hover p rest Hp. pose proof Hp as (Hin & Hlim & Hbuf). pose proof (zlen_nonneg s).
  unfold readStringBody. wp. rewrite Hlim, Hover. replace (zlen s <? 0) with false by lia. unwrap.
  bif; wp.
  { assert (s = []) as -> by (by apply zlen_0). by split. }
  unfold under at 1. wp. eapply runs_mono; [apply (borrow_ok _ (zlen s) _ Hin); lia| |done].
  cbn. intros [b|] t.
  - intros (Hle & Hbs & Hlent). wp. apply runs_load_mem; [lia|lia|lia|]. unfold under. wp. cbn.
    eapply runs_mono; [apply (consume_ok _ (zlen s) _ _ Hlent); lia| |done].
    cbn. intros _ t' Ht'. wp. rewrite zdrop_app in Ht' by done. split; [|by split_and!].
    f_equal. rewrite Hbs. unfold zslice. rewrite zdrop_0, ztake_ztake by lia.
    replace (Z.min _ _) with (zlen s) by lia. by rewrite ztake_app.
  - intros Hin'. wp. cbn. apply runs_string_buffer; [done|lia|]. intros b k Hbk Hk. wp.
    unfold under. wp. cbn. eapply runs_mono; [eapply (readAll_ok t (zlen s) s rest); [done|done|lia]| |done].
    cbn. intros r t' [-> Ht']. wp. apply runs_store_mem; [lia|cbn; lia|]. wp.
    apply runs_load_mem; [lia|lia|rewrite zlen_zsplice by lia; lia|]. wp.
    rewrite (zslice_zsplice_at 0) by lia. split; [done|]. split_and!; [done|done|].
    cbn. rewrite zlen_zsplice by lia. done.
Qed.

Lemma readString_ok c s :
  zlen s < 2 ^ 31 -> string_over lim (zlen s) = false ->
  reads bin_in readString c c (be_bytes 4 (zlen s) ++ s) s.
Proof.
  intros Hs Hover p rest Hp. rewrite <- app_assoc in Hp. pose proof (zlen_nonneg s).
  unfold readString. eapply reads_step; [apply (readI32_ok c c (zlen s)); unfold in_s; lia|exact Hp|].
  intros p1 Hp1. cbv beta iota. eapply reads_step; [by apply readStringBody_ok|exact Hp1|].
  intros p2 Hp2. wp. rewrite zlen_app. by autorewrite with wrap.
Qed.

(** The string reader's two refusals. *)
Lemma readStringBody_negative p size :
  size < 0 -> readStringBody size p = (Throw (EProtocol TProtocolException.NEGATIVE_SIZE ""), p).
Proof using Type. intros. unfold readStringBody, bind, gets. by replace (size <? 0) with true by lia. Qed.

Lemma readStringBody_limit (p : P) size :
  0 <= size -> string_over (limits_ p) size = true ->
  readStringBody size p = (Throw (EProtocol TProtocolException.SIZE_LIMIT ""), p).
Proof using Type.
  intros ? Ho. unfold readStringBody, bind, gets. replace (size <? 0) with false by lia.
  by rewrite Ho.
Qed.

Lemma reads_nothing_ret c c' : reads_nothing bin_in (ret 0) c c'.
Proof using Type. intros p bs Hp. by wp. Qed.

(** Headers: a byte, or two, and a checked size. *)
Lemma readListBegin_ok c t n :
  in_s 8 t -> 0 <= n < 2 ^ 31 -> container_over lim n = false ->
  reads bin_in readListBegin c c ([u8 t] ++ be_bytes 4 n) (t, n).
Proof.
  intros Ht Hn Hover p rest Hp. rewrite <- app_assoc in Hp. unfold readListBegin.
  eapply reads_step; [by apply (readByte_ok c c)|exact Hp|]. intros p1 Hp1. cbv beta iota.
  eapply reads_step; [apply (readI32_ok c c n); unfold in_s; lia|exact Hp1|]. intros p2 Hp2.
  cbv beta iota. unfold checkSize. wp. pose proof Hp2 as (_ & Hlim & _).
  rewrite Hlim, Hover. replace (n <? 0) with false by lia. wp. rewrite zlen_app.
  autorewrite with wrap. by unwrap.
Qed.

Lemma readMapBegin_ok c kt vt n :
  in_s 8 kt -> in_s 8 vt -> 0 <= n < 2 ^ 31 -> container_over lim n = false ->
  reads bin_in readMapBegin c c ([u8 kt] ++ [u8 vt] ++ be_bytes 4 n) (kt, vt, n).
Proof.
  intros Hkt Hvt Hn Hover p rest Hp. rewrite <- !app_assoc in Hp. unfold readMapBegin.
  eapply reads_step; [by apply (readByte_ok c c kt)|exact Hp|]. intros p1 Hp1. cbv beta iota.
  eapply reads_step; [by apply (readByte_ok c c vt)|exact Hp1|]. intros p2 Hp2. cbv beta iota.
  eapply reads_step; [apply (readI32_ok c c n); unfold in_s; lia|exact Hp2|]. intros p3 Hp3.
  cbv beta iota. unfold checkSize. wp. pose proof Hp3 as (_ & Hlim & _).
  rewrite Hlim, Hover. replace (n <? 0) with false by lia. wp. rewrite !zlen_app.
  autorewrite with wrap. rewrite Z.add_assoc. by unwrap.
Qed.

Lemma readFieldBegin_ok l c t id :
  in_s 8 t -> t <> T_STOP -> in_s 16 id ->
  reads bin_in readFieldBegin (l :: c) (id :: c) ([u8 t] ++ be_bytes 2 id) (t, id).
Proof.
  intros Ht Hne Hid p rest Hp. rewrite <- app_assoc in Hp. unfold readFieldBegin.
  eapply reads_step; [by apply (readByte_ok (l :: c) (l :: c))|exact Hp|]. intros p1 Hp1. cbv beta iota.
  replace (t =? T_STOP) with false by lia.
  eapply reads_step; [by apply (readI16_ok (l :: c) (id :: c))|exact Hp1|]. intros p2 Hp2. wp.
  rewrite zlen_app. by autorewrite with wrap.
Qed.

#[export] Instance TBinaryProtocol_reader : @ReaderLaws P _ binary_format lim.
Proof.
  refine {| r_state := bin_in |}; cbn.
  - apply readBool_ok.
  - intros. by apply readByte_ok.
  - intros. by apply readI16_ok.
  - intros. by apply readI32_ok.
  - intros. by apply readI64_ok.
  - intros. by apply readDouble_ok.
  - intros. by apply readString_ok.
  - intros. by apply readString_ok.
  - intros l c p rest Hp. by wp.
  - intros. apply reads_nothing_ret.
  - intros l c t id Ht _ Hid _. apply readFieldBegin_ok; [by apply value_type_s8| |done].
    apply Z.eqb_neq. by apply value_type_not_stop.
  - intros l c id b p rest Hid _ Hp.
    change (u8 T_BOOL :: be_bytes 2 id ++ [if b then 1 else 0]) with
      (([u8 T_BOOL] ++ be_bytes 2 id) ++ [if b then 1 else 0]) in *.
    rewrite <- app_assoc in Hp.
    eapply runs_mono; [apply (readFieldBegin_ok l c T_BOOL id); [done|done|done|exact Hp]| |done].
    cbn. intros r p1 [-> Hp1]. split; [done|].
    eapply runs_mono; [eapply readBool_ok; exact Hp1| |done].
    cbn. intros r p2 [-> Hp2]. by split_and!.
  - intros. apply reads_nothing_ret.
  - intros l c p rest Hp. unfold readFieldBegin.
    eapply reads_step; [apply (readByte_ok (l :: c) (l :: c) 0); done|exact Hp|].
    intros p1 Hp1. by wp.
  - intros c kt vt n Hkt Hvt Hn Ho.
    replace (if n =? 0 then (kt, vt) else (kt, vt)) with (kt, vt) by (by destruct (n =? 0)).
    apply readMapBegin_ok; auto using value_type_s8.
  - intros. apply reads_nothing_ret.
  - intros. apply readListBegin_ok; auto using value_type_s8.
  - intros. apply reads_nothing_ret.
  - intros. apply readListBegin_ok; auto using value_type_s8.
  - intros. apply reads_nothing_ret.
Defined.
End Reading.

(** ** Any input *)

Section AnyInput.
Context `{Platform} `{!Unbounded} {T : Type} `{ReadLaws T} (lim : limits).
Abbreviation P := (TBinaryProtocolT T).

Lemma readStringBody_total c size :
  in_s 32 size -> any_input (bin_in lim) (readStringBody size) c c 0 (fun s => size_ok lim s = true).
Proof.
  intros Hs p bs Hp. pose proof Hp as (Hin & Hlim & Hbuf). unfold readStringBody. wp.
  bif; [by wp|]. bif; [by wp|]. bif; [wp; split; [apply size_ok_nil|]; exists bs; split; [done|lia]|].
  unfold in_s in Hs. unwrap. rewrite Hlim in *. assert (Hok : forall s, zlen s = size -> size_ok lim s = true).
  { intros s Hz. by apply size_ok_len; [lia|rewrite Hz]. } unfold under at 1. wp.
  eapply runs_mono; [apply (borrow_ok _ size _ Hin); lia| |done].
  cbn. intros [b|] t.
  - intros (Hle & Hbs & Hlent). wp. apply runs_load_mem; [lia|lia|lia|]. unfold under. wp. cbn.
    eapply runs_mono; [apply (consume_ok _ size _ _ Hlent); lia| |done].
    cbn. intros _ t' Ht'. wp. split; [apply Hok; rewrite zlen_zslice; lia|]. exists (zdrop size bs). split; [by split_and!|zlist].
  - intros Hin'. wp. cbn. apply runs_string_buffer; [done|lia|]. intros b k Hbk Hk.
    cbv beta iota. apply runs_bind, runs_modify.
    destruct (Z_le_gt_dec size (zlen bs)) as [Hle|Hgt].
    + rewrite <- (ztake_zdrop size bs) in Hin'.
      eapply (under_readAll lim size (ztake size bs) _ _ _ c); [by split_and!|zlist|lia|].
      intros p' (Ht' & Hlim' & Hbuf'). cbn. wp.
      apply runs_store_mem; [lia|zlist|]. wp.
      apply runs_load_mem; [lia|lia|rewrite zlen_zsplice by zlist; lia|]. wp. split; [apply Hok; cbn [snd]; rewrite zlen_zslice; rewrite ?zlen_zsplice by zlist; lia|].
      exists (zdrop size bs). split; [|zlist]. split_and!; [done|done|].
      cbn. rewrite zlen_zsplice by zlist. done.
    + eapply runs_mono; [apply (under_readAll_eof lim size bs _ _ c (fun _ _ => True));
        [by split_and!|lia|lia|done]|done|done].
Qed.

Lemma s32_total n : in_s 32 (s32 n).
Proof using Type. apply wraps_range. lia. Qed.

Lemma readByte_total c c' : any_input (bin_in lim) readByte c c' 1 (in_s 8).
Proof using Type. apply total_fixed; [done|]. intros. by apply wraps_range. Qed.

Lemma readI16_total c c' : any_input (bin_in lim) readI16 c c' 2 (in_s 16).
Proof using Type. apply total_fixed; [done|]. intros. by apply wraps_range. Qed.

Lemma readI32_total c c' : any_input (bin_in lim) readI32 c c' 4 (in_s 32).
Proof using Type. apply total_fixed; [done|]. intros. apply s32_total. Qed.

Lemma readString_total c : any_input (bin_in lim) readString c c 1 (fun s => size_ok lim s = true).
Proof.
  intros p bs Hp. unfold readString.
  eapply any_step; [apply (readI32_total c c)|exact Hp|]. intros n size p1 bs1 Hs Hp1 Hle.
  eapply any_step; [by apply readStringBody_total|exact Hp1|]. intros m s p2 bs2 Hok Hp2 Hle2.
  wp. split; [done|]. exists bs2. split; [done|lia].
Qed.

Lemma checkSize_total (p : P) size (Q : unit -> P -> Prop) :
  limits_ p = lim -> in_s 32 size -> (0 <= u32 size /\ count_ok lim (u32 size) = true -> Q tt p) ->
  runs (checkSize size) p Q (fun _ _ => True).
Proof using Type.
  intros Hl Hs HQ. unfold checkSize. wp. rewrite Hl. unfold in_s in Hs. bif; [by wp|]. bif; wp; [done|]. apply HQ.
  unwrap. split; [lia|]. unfold count_ok. apply andb_true_iff. split; [lia|]. by apply negb_true_iff.
Qed.

Lemma readListBegin_total c : any_input (bin_in lim) readListBegin c c 1 (fun r => 0 <= r.2 /\ count_ok lim r.2 = true).
Proof using Type.
  intros p bs Hp. unfold readListBegin.
  eapply any_step; [apply (readByte_total c c)|exact Hp|]. intros a e p1 bs1 _ Hp1 Hle.
  eapply any_step; [apply (readI32_total c c)|exact Hp1|]. intros b n p2 bs2 Hn Hp2 Hle2.
  wp. apply checkSize_total; [apply Hp2|done|]. intros Hpos. wp. split; [exact Hpos|].
  exists bs2. split; [done|lia].
Qed.

Lemma readMapBegin_total c : any_input (bin_in lim) readMapBegin c c 1 (fun r => 0 <= r.2 /\ count_ok lim r.2 = true).
Proof using Type.
  intros p bs Hp. unfold readMapBegin.
  eapply any_step; [apply (readByte_total c c)|exact Hp|]. intros a k p1 bs1 _ Hp1 Hle.
  eapply any_step; [apply (readByte_total c c)|exact Hp1|]. intros b v p2 bs2 _ Hp2 Hle2.
  eapply any_step; [apply (readI32_total c c)|exact Hp2|]. intros d n p3 bs3 Hn Hp3 Hle3.
  wp. apply checkSize_total; [apply Hp3|done|]. intros Hpos. wp. split; [exact Hpos|].
  exists bs3. split; [done|lia].
Qed.

#[export] Instance TBinaryProtocol_total : @ReaderTotal P _ binary_format lim _.
Proof.
  split; cbn; intros.
  - by apply total_fixed.
  - apply readByte_total.
  - eapply any_weaken; [apply readI16_total|lia].
  - eapply any_weaken; [apply readI32_total|lia].
  - eapply any_weaken; [apply (total_fixed lim 8); [done|intros; by apply wraps_range]|lia].
  - eapply any_weaken; [by apply (total_fixed lim 8)|lia].
  - apply readString_total.
  - apply readString_total.
  - intros p bs Hp. wp. split; [done|]. exists bs. split; [done|lia].
  - unfold readFieldBegin. eapply any_step; [apply (readByte_total (l :: c) (l :: c))|done|].
    intros n t p1 bs1 _ Hp1 Hle. bif.
    + wp. split; [done|]. exists bs1. cbn. split; [lia|]. split_and!; [done|done|]. intros ->. done.
    + eapply any_step; [apply (readI16_total (l :: c) (l :: c))|exact Hp1|].
      intros m id p2 bs2 Hid Hp2 Hle2. wp. split; [exact Hid|]. exists bs2. cbn. split; [lia|]. split_and!; [done|by exists l|].
      intros _. eapply runs_mono; [by apply (total_fixed lim 1 _ (l :: c) (l :: c) (fun _ => True))| |done].
      cbn. intros r p3 (_ & bs3 & Hp3 & Hle3). exists l, bs3. split; [done|lia].
  - apply readMapBegin_total.
  - apply readListBegin_total.
  - apply readListBegin_total.
Qed.
End AnyInput.

(** ** Message headers *)

(** The header of a message, with the version word or without. *)
Definition e_message (strict : bool) (name : list Z) (messageType seqid : Z) : list Z :=
  if strict then
    be_bytes 4 (Z.lor VERSION_1 messageType) ++ (be_bytes 4 (zlen name) ++ name) ++ be_bytes 4 seqid
  else (be_bytes 4 (zlen name) ++ name) ++ [u8 messageType] ++ be_bytes 4 seqid.

Lemma version_word t :
  0 <= t < 256 ->
  Z.lor VERSION_1 t < 0 /\ in_s 32 (Z.lor VERSION_1 t) /\
  Z.land (Z.lor VERSION_1 t) VERSION_MASK = VERSION_1 /\ Z.land (Z.lor VERSION_1 t) 255 = t.
Proof.
  intros Ht. rewrite (lor_disjoint VERSION_1 t 16) by (try lia; reflexivity).
  change VERSION_1 with (-2147418112). change VERSION_MASK with (Z.lnot (Z.ones 16)).
  rewrite <- Z.ldiff_land, Z.ldiff_ones_r, Z.shiftr_div_pow2, Z.shiftl_mul_pow2 by lia.
  change 255 with (Z.ones 8). rewrite Z.land_ones by lia. unfold in_s. split_and!; dlia.
Qed.

Section Messages.
Context `{Platform} {T : Type} `{TTransport T}.
Abbreviation P := (TBinaryProtocolT T).

Lemma writeMessageBegin_ok `{!WriteLaws T} (p : P) c out room name t id :
  zlen name < 2 ^ 31 ->
  let e := e_message (strict_write_ p) name t id in
  bin_out p c out room -> zlen e <= room ->
  succeeds (writeMessageBegin name t id) p (fun n p' =>
    n = u32 (zlen e) /\ bin_out p' c (out ++ e) (room - zlen e)).
Proof.
  intros Hn e Hp Hr. unfold writeMessageBegin. wp. unfold e, e_message in *.
  destruct (strict_write_ p).
  - eapply (writes_then3 bin_out _ _ _ c c c c); [apply writeI32_ok|by apply writeString_ok|
      apply writeI32_ok|done|done].
  - rewrite <- u8_s8_any in Hr |- *.
    eapply (writes_then3 bin_out _ _ _ c c c c _ [_]); [by apply writeString_ok|apply writeByte_ok|
      apply writeI32_ok|done|done].
Qed.

Context `{!Unbounded} `{!ReadLaws T} (lim : limits).

(** Reading a word leaves the settings alone. *)
Lemma readI32_strict (p : P) c z rest :
  in_s 32 z -> bin_in lim p c (be_bytes 4 z ++ rest) ->
  succeeds readI32 p (fun r p' =>
    r = (4, z) /\ bin_in lim p' c rest /\ strict_read_ p' = strict_read_ p).
Proof using Type.
  intros Hz (Hin & Hlim & Hbuf). unfold readI32, under. wp.
  eapply runs_mono; [by eapply (readAll_ok _ 4 (be_bytes 4 z) rest)| |done].
  cbn. intros d t [-> Ht]. wp. split; [|by split_and!]. f_equal. by apply (wraps_ntoh 4); [lia|].
Qed.

Definition header_type_ok (strict : bool) (t : Z) : Prop :=
  if strict then in_u 8 t else in_s 8 t.

(** A reader accepts a versioned header in either mode, an old one when not strict. *)
Lemma readMessageBegin_ok (p : P) c strict name t id rest :
  zlen name < 2 ^ 31 -> string_over lim (zlen name) = false ->
  in_s 32 id -> header_type_ok strict t ->
  strict = true \/ strict_read_ p = false ->
  bin_in lim p c (e_message strict name t id ++ rest) ->
  succeeds readMessageBegin p (fun r p' =>
    r = (u32 (zlen (e_message strict name t id)), (name, t, id)) /\ bin_in lim p' c rest).
Proof.
  intros Hname Hover Hid Ht Hmode Hp. unfold readMessageBegin, e_message in *.
  pose proof (zlen_nonneg name). destruct strict.
  - destruct (version_word t Ht) as (Hneg & Hin & Hver & Hty).
    rewrite <- app_assoc, <- (app_assoc (_ ++ name)) in Hp.
    eapply reads_step; [by apply (readI32_ok lim c c (Z.lor VERSION_1 t))|exact Hp|].
    intros p1 Hp1. cbv beta iota.
    replace (_ <? 0) with true by lia. rewrite Hver, Hty, Z.eqb_refl. cbn [negb].
    eapply reads_step; [by apply (readString_ok lim c name)|exact Hp1|]. intros p2 Hp2. cbv beta iota.
    eapply reads_step; [by apply (readI32_ok lim c c id)|exact Hp2|]. intros p3 Hp3. wp.
    split; [|done]. f_equal. rewrite !zlen_app. autorewrite with wrap. f_equal. lia.
  - destruct Hmode as [?|Hsr]; [done|]. rewrite <- !app_assoc in Hp.
    apply runs_bind. eapply runs_mono; [apply (readI32_strict p c (zlen name)); [unfold in_s; lia|exact Hp]| |done].
    cbn beta. intros r p1 (-> & Hp1 & Hs1). replace (zlen name <? 0) with false by lia.
    apply runs_bind, runs_gets. rewrite Hs1, Hsr.
    eapply reads_step; [by apply (readStringBody_ok lim c name)|exact Hp1|]. intros p2 Hp2. cbv beta iota.
    eapply reads_step; [by apply (readByte_ok lim c c t)|exact Hp2|]. intros p3 Hp3. cbv beta iota.
    eapply reads_step; [by apply (readI32_ok lim c c id)|exact Hp3|]. intros p4 Hp4. wp.
    split; [|done]. f_equal. rewrite !zlen_app. autorewrite with wrap. f_equal.
    rewrite (zlen_be_bytes 4 (zlen name)). lia.
Qed.

(** A word that is neither a version nor, for a strict reader, anything else. *)
Lemma readMessageBegin_bad_version (p : P) c w rest :
  in_s 32 w -> bin_in lim p c (be_bytes 4 w ++ rest) ->
  (w < 0 /\ Z.land w VERSION_MASK <> VERSION_1) \/ (0 <= w /\ strict_read_ p = true) ->
  raises readMessageBegin p (fun e p' =>
    (exists m, e = EProtocol TProtocolException.BAD_VERSION m) /\ bin_in lim p' c rest).
Proof.
  intros Hw Hp Hbad. unfold readMessageBegin. apply runs_bind.
  eapply runs_mono; [by apply (readI32_strict p c w)| |done].
  cbn beta. intros r p1 (-> & Hp1 & Hs1). destruct Hbad as [[Hneg Hver]|[Hpos Hs]].
  - replace (w <? 0) with true by lia. replace (_ =? VERSION_1) with false by lia. cbn [negb]. wp. eauto.
  - replace (w <? 0) with false by lia. wp. rewrite Hs1, Hs. wp. eauto.
Qed.
End Messages.
