(* ===== verification/Varint.v ===== *)
(** * Variable-length integers and zigzag: protocol/TCompactProtocol.tcc

    The pure parts of the compact protocol's integers: the zigzag conversions,
    with their machine-width operations, and the specification of varints.
    [varint n] is the encoding of [n], seven bits to a byte; [parse_varint] says
    what a reader makes of any bytes. *)

From S2P Require Export Machine.

(** ** Zigzag *)

(** A left shift of a negative number is the two's complement one. *)
Definition i64ToZigzag (l : Z) : Z := u64 (Z.lxor (s64 (Z.shiftl l 1)) (Z.shiftr l 63)).
Definition i32ToZigzag (n : Z) : Z := u32 (Z.lxor (s32 (Z.shiftl n 1)) (Z.shiftr n 31)).
Definition zigzagToI32 (n : Z) : Z :=
  s32 (Z.lxor (Z.shiftr n 1) (u32 (- Z.land n 1))).
Definition zigzagToI64 (n : Z) : Z :=
  s64 (Z.lxor (Z.shiftr n 1) (u64 (- Z.land n 1))).

(** The mapping they implement: 0, -1, 1, -2, ... to 0, 1, 2, 3, ... *)
Definition zigzag (z : Z) : Z := if z <? 0 then - 2 * z - 1 else 2 * z.
Definition unzigzag (n : Z) : Z := if Z.even n then n / 2 else - (n / 2) - 1.

Lemma unzigzag_zigzag z : unzigzag (zigzag z) = z.
Proof.
  unfold unzigzag, zigzag. bcase (z <? 0).
  - replace (-2 * z - 1) with (1 + 2 * (-z - 1)) by lia. rewrite Z.even_add_mul_2.
    change (Z.even 1) with false. cbv iota. dlia.
  - rewrite Z.even_mul. change (Z.even 2 || Z.even z)%bool with true. cbv iota. dlia.
Qed.

Lemma zigzag_range w z : 1 <= w -> in_s w z -> in_u w (zigzag z).
Proof.
  unfold in_s, in_u, zigzag. intros Hw Hz.
  assert (2 ^ w = 2 * 2 ^ (w - 1)) by (rewrite <- Z.pow_succ_r by lia; f_equal; lia).
  bif; lia.
Qed.

Lemma lxor_m1 z : Z.lxor z (-1) = - z - 1.
Proof. rewrite Z.lxor_m1_r. unfold Z.lnot. lia. Qed.

Lemma wrapu_neg w z : 0 <= w -> - 2 ^ w <= z < 0 -> wrapu w z = z + 2 ^ w.
Proof.
  intros Hw Hz. unfold wrapu. rewrite <- (Z_mod_plus_full z 1), Z.mul_1_l.
  apply Z.mod_small. lia.
Qed.

(** The shift-and-xor forms compute the mapping at every width. *)
Lemma toZigzag_spec w z :
  1 <= w -> in_s w z ->
  wrapu w (Z.lxor (wraps w (Z.shiftl z 1)) (Z.shiftr z (w - 1))) = zigzag z.
Proof.
  intros Hw Hz. pose proof (zigzag_range w z Hw Hz) as Hr. unfold in_s in Hz.
  rewrite Z.shiftl_mul_pow2 by lia. change (2 ^ 1) with 2.
  rewrite Z.shiftr_div_pow2 by lia. unfold zigzag in *. bif.
  - replace (z / 2 ^ (w - 1)) with (-1).
    2: { apply Z.div_unique with (r := z + 2 ^ (w - 1)); lia. }
    rewrite lxor_m1. rewrite <- (wrapu_small w (-2 * z - 1) Hr).
    unfold wrapu, wraps. set (m := 2 ^ w).
    replace (- ((z * 2 + 2 ^ (w - 1)) mod m - 2 ^ (w - 1)) - 1)
      with (2 ^ (w - 1) - 1 - (z * 2 + 2 ^ (w - 1)) mod m) by lia.
    rewrite Zminus_mod_idemp_r. f_equal. lia.
  - rewrite Z.div_small by lia. rewrite Z.lxor_0_r, wrapu_wraps by lia.
    rewrite wrapu_small; [lia|]. by rewrite Z.mul_comm.
Qed.

Lemma lxor_ones_u w a :
  0 <= w -> 0 <= a < 2 ^ w -> Z.lxor a (2 ^ w - 1) = 2 ^ w - 1 - a.
Proof.
  intros Hw Ha. replace (2 ^ w - 1) with (Z.ones w) by (rewrite Z.ones_equiv; lia).
  assert (Z.land (Z.lxor a (Z.ones w)) a = 0) as Hd.
  { apply Z.bits_inj'. intros i Hi. rewrite Z.land_spec, Z.lxor_spec, Z.bits_0.
    destruct (Z_lt_le_dec i w).
    - rewrite Z.ones_spec_low by lia. by destruct (Z.testbit a i).
    - rewrite <- (Z.mod_small a (2 ^ w)) by lia. rewrite Z.mod_pow2_bits_high by lia.
      apply andb_false_r. }
  pose proof (Z.add_nocarry_lxor _ _ Hd) as Hadd.
  rewrite Z.lxor_assoc, (Z.lxor_comm (Z.ones w) a), <- Z.lxor_assoc, Z.lxor_nilpotent, Z.lxor_0_l in Hadd.
  lia.
Qed.

Lemma ofZigzag_spec w n :
  1 <= w -> in_u w n ->
  wraps w (Z.lxor (Z.shiftr n 1) (wrapu w (- Z.land n 1))) = unzigzag n.
Proof.
  intros Hw Hn. unfold in_u in Hn.
  assert (2 ^ w = 2 * 2 ^ (w - 1)) as Hp by (rewrite <- Z.pow_succ_r by lia; f_equal; lia).
  change 1 with (Z.ones 1) at 2. rewrite Z.land_ones by lia. rewrite Z.shiftr_div_pow2 by lia.
  change (2 ^ 1) with 2. unfold unzigzag.
  destruct (Z.even n) eqn:He.
  - apply Z.even_spec in He as [k ->]. replace ((2 * k) mod 2) with 0 by dlia. change (- 0) with 0.
    rewrite (wrapu_small w 0), Z.lxor_0_r by (unfold in_u; lia). apply wraps_small; [lia|].
    unfold in_s. split; dlia.
  - rewrite <- Z.negb_odd in He. apply negb_false_iff, Z.odd_spec in He as [k ->].
    replace ((2 * k + 1) mod 2) with 1 by dlia. replace ((2 * k + 1) / 2) with k by dlia.
    rewrite (wrapu_neg w (-(1))) by lia.
    replace (-(1) + 2 ^ w) with (2 ^ w - 1) by lia. rewrite lxor_ones_u by lia.
    unfold wraps. replace (2 ^ w - 1 - k + 2 ^ (w - 1)) with (2 ^ (w - 1) - 1 - k + 1 * 2 ^ w) by lia.
    rewrite Z_mod_plus_full, Z.mod_small; lia.
Qed.

Lemma i32ToZigzag_spec z : in_s 32 z -> i32ToZigzag z = zigzag z.
Proof. by apply (toZigzag_spec 32). Qed.
Lemma i64ToZigzag_spec z : in_s 64 z -> i64ToZigzag z = zigzag z.
Proof. by apply (toZigzag_spec 64). Qed.
Lemma zigzagToI32_spec n : in_u 32 n -> zigzagToI32 n = unzigzag n.
Proof. by apply (ofZigzag_spec 32). Qed.
Lemma zigzagToI64_spec n : in_u 64 n -> zigzagToI64 n = unzigzag n.
Proof. by apply (ofZigzag_spec 64). Qed.

(** ** Varints *)

(** At most [k] bytes of the encoding of [n], lowest seven bits first. *)
Fixpoint varint_upto (k : nat) (n : Z) : list Z :=
  match k with
  | O => []
  | S k => if n <? 128 then [n] else (n mod 128 + 128) :: varint_upto k (n / 128)
  end.

(** Ten bytes hold 70 bits. *)
Definition varint (n : Z) : list Z := varint_upto 10 n.
#[global] Arguments varint : simpl never.

Inductive varint_result :=
| VDone (val used : Z)
| VOverlong  (** the eighth bit of the tenth byte is set *)
| VShort.    (** the input ends before the last byte *)

Fixpoint parse_varint (more : nat) (used val shift : Z) (bs : list Z) : varint_result :=
  match bs with
  | [] => VShort
  | byte :: bs =>
      let val := Z.lor val (u64 (Z.shiftl (Z.land byte 0x7f) shift)) in
      if Z.land byte 0x80 =? 0 then VDone val (used + 1)
      else match more with
           | O => VOverlong
           | S more => parse_varint more (used + 1) val (shift + 7) bs
           end
  end.

Lemma zlen_varint_upto k n : 0 <= n -> 0 <= zlen (varint_upto k n) <= Z.of_nat k.
Proof.
  revert n. induction k as [|k IH]; intros n Hn; cbn [varint_upto]; [unfold zlen; cbn; lia|].
  bif; [unfold zlen; cbn; lia|]. rewrite zlen_cons. specialize (IH (n / 128) ltac:(dlia)). lia.
Qed.

Lemma varint_upto_pos k n : 0 < zlen (varint_upto (S k) n).
Proof.
  cbn [varint_upto]. bif; zlist.
Qed.

(** A smaller number takes no more bytes than its bits need. *)
Lemma zlen_varint_le j k n :
  0 <= n < 128 ^ Z.of_nat (S j) -> zlen (varint_upto k n) <= Z.of_nat (S j).
Proof.
  revert k n. induction j as [|j IH]; intros [|k] n Hn; cbn [varint_upto];
    try (unfold zlen; cbn; lia).
  - change (128 ^ Z.of_nat 1) with 128 in Hn. replace (n <? 128) with true by lia.
    unfold zlen; cbn; lia.
  - bif; [unfold zlen; cbn; lia|]. rewrite zlen_cons.
    rewrite Nat2Z.inj_succ, Z.pow_succ_r in Hn by lia.
    specialize (IH k (n / 128)).
    assert (0 <= n / 128 < 128 ^ Z.of_nat (S j)); [|lia].
    split; [dlia|]. apply Z.div_lt_upper_bound; lia.
Qed.

Lemma varint_bytes_ok k n : 0 <= n -> bytes_ok (varint_upto k n).
Proof.
  revert n. induction k as [|k IH]; intros n Hn; cbn [varint_upto]; [done|].
  bif; repeat constructor; unfold is_byte; try dlia. apply IH. dlia.
Qed.

Lemma land_127 n : Z.land n 0x7f = n mod 128.
Proof. change 0x7f with (Z.ones 7). by rewrite Z.land_ones. Qed.

(** The continuation bit of a byte. *)
Lemma land_128 n : 0 <= n < 256 -> (Z.land n 0x80 =? 0) = (n <? 128).
Proof.
  intros Hn. change (Z.land n 0x80) with (Z.land n (Z.shiftl (Z.ones 1) 7)).
  assert (Z.land n (Z.shiftl (Z.ones 1) 7) = (n / 128) * 128) as ->.
  { apply Z.bits_inj'. intros i Hi. change 128 with (2 ^ 7).
    rewrite <- Z.shiftr_div_pow2, <- Z.shiftl_mul_pow2, Z.land_spec, !Z.shiftl_spec by lia.
    destruct (Z_lt_le_dec i 7); [rewrite !(Z.testbit_neg_r _ (i - 7)) by lia; apply andb_false_r|].
    rewrite Z.shiftr_spec by lia. replace (i - 7 + 7) with i by lia.
    destruct (Z_lt_le_dec (i - 7) 1).
    - rewrite Z.ones_spec_low by lia. apply andb_true_r.
    - rewrite <- (Z.mod_small n (2 ^ 8)) by lia. by rewrite Z.mod_pow2_bits_high by lia. }
  destruct (n <? 128) eqn:E; breflect; [|apply Z.eqb_neq; dlia].
  apply Z.eqb_eq. dlia.
Qed.

(** One more group of seven bits above the bits already there. *)
Lemma lor_group val g shift :
  0 <= shift -> 0 <= val < 2 ^ shift -> 0 <= g -> g * 2 ^ shift < 2 ^ 64 ->
  Z.lor val (u64 (Z.shiftl g shift)) = val + g * 2 ^ shift.
Proof.
  intros Hs Hv Hg Hmax. rewrite Z.shiftl_mul_pow2 by lia.
  rewrite wrapu_small by (unfold in_u; lia). apply (lor_low val _ shift); [lia|lia|].
  apply Z.mod_mul. lia.
Qed.

Lemma varint_upto_S k n :
  varint_upto (S k) n = if n <? 128 then [n] else (n mod 128 + 128) :: varint_upto k (n / 128).
Proof. reflexivity. Qed.

Lemma parse_varint_upto k used val shift n rest :
  0 <= shift -> 0 <= val < 2 ^ shift -> 0 <= n < 128 ^ Z.of_nat (S k) -> n * 2 ^ shift < 2 ^ 64 ->
  parse_varint k used val shift (varint_upto (S k) n ++ rest) =
    VDone (val + n * 2 ^ shift) (used + zlen (varint_upto (S k) n)).
Proof.
  revert used val shift n. induction k as [|k IH]; intros used val shift n Hs Hv Hn Hmax;
    pose proof (Z.pow_pos_nonneg 2 shift ltac:(lia) Hs).
  - change (128 ^ Z.of_nat 1) with 128 in Hn. cbn [varint_upto app parse_varint].
    replace (n <? 128) with true by lia. cbn [varint_upto app parse_varint].
    rewrite land_128 by lia. replace (n <? 128) with true by lia.
    rewrite land_127, Z.mod_small, lor_group by lia. done.
  - rewrite (varint_upto_S (S k) n). destruct (n <? 128) eqn:E; breflect; cbn [app parse_varint].
    + rewrite land_128 by lia. replace (n <? 128) with true by lia.
      rewrite land_127, Z.mod_small, lor_group by lia. done.
    + assert (0 <= n mod 128 < 128) by dlia. assert (0 <= n / 128) by dlia.
      rewrite land_128 by lia. replace (_ <? 128) with false by lia. rewrite land_127.
      replace ((n mod 128 + 128) mod 128) with (n mod 128) by dlia.
      assert (n mod 128 * 2 ^ shift <= n * 2 ^ shift) by (apply Z.mul_le_mono_nonneg_r; dlia).
      rewrite lor_group by lia. rewrite Nat2Z.inj_succ, Z.pow_succ_r in Hn by lia.
      assert (2 ^ (shift + 7) = 2 ^ shift * 128) as Hsh by (rewrite Z.pow_add_r by lia; done).
      pose proof (Z.div_mod n 128 ltac:(lia)) as Hdm.
      rewrite IH; try lia.
      * f_equal; [|rewrite zlen_cons; lia]. rewrite Hsh. nia.
      * rewrite Hsh. nia.
Qed.

(** Reading back what [varint] gives. *)
Lemma parse_varint_varint n rest :
  in_u 64 n -> parse_varint 9 0 0 0 (varint n ++ rest) = VDone n (zlen (varint n)).
Proof.
  intros Hn. unfold in_u in Hn. unfold varint.
  rewrite (parse_varint_upto 9) by (zconst; lia). f_equal; lia.
Qed.

(** The parser looks at no more than [more + 1] bytes. *)
Lemma parse_varint_take more used val shift bs n :
  Z.of_nat (S more) <= n ->
  parse_varint more used val shift (ztake n bs) = parse_varint more used val shift bs.
Proof.
  revert used val shift bs n.
  induction more as [|more IH]; intros used val shift [|b bs] n Hn.
  1, 3: by rewrite ztake_ge by (unfold zlen; cbn; lia).
  all: replace (ztake n (b :: bs)) with (b :: ztake (n - 1) bs)
    by (unfold ztake; replace (Z.to_nat n) with (S (Z.to_nat (n - 1))) by lia; done);
    cbn [parse_varint]; case_match; [done|].
  - done.
  - apply IH. lia.
Qed.

Lemma parse_varint_used more used val shift bs v u :
  parse_varint more used val shift bs = VDone v u ->
  used < u <= used + zlen bs /\ u <= used + Z.of_nat (S more).
Proof.
  revert used val shift bs. induction more as [|more IH]; intros used val shift [|b bs] Hp;
    cbn [parse_varint] in Hp; try done; rewrite zlen_cons; pose proof (zlen_nonneg bs);
    case_match; try done.
  - injection Hp as <- <-. lia.
  - injection Hp as <- <-. lia.
  - apply IH in Hp. lia.
Qed.

Lemma parse_varint_not_short more used val shift bs :
  Z.of_nat (S more) <= zlen bs -> parse_varint more used val shift bs <> VShort.
Proof.
  revert used val shift bs. induction more as [|more IH]; intros used val shift [|b bs] Hl;
    try (unfold zlen in Hl; cbn in Hl; lia); cbn [parse_varint]; case_match; try done.
  apply IH. rewrite zlen_cons in Hl. lia.
Qed.
