(* ===== verification/DenseProtocol.v ===== *)
(** * [TDenseProtocol]: protocol/TDenseProtocol.cpp and .h, TReflectionLocal.h

    A protocol that writes no types and no field ids: both sides follow the
    [TypeSpec] of the struct.  A type spec is an object of the generated code,
    known by its address; [typespecs] is what is found there.  Integers are
    variable-length quantities, seven bits to a byte, the highest first.  The class
    derives from [TBinaryProtocol], whose operations it calls for the rest. *)

From stdpp Require Export gmap.
From S2P Require Export BinaryProtocol Varint.

(** ** Type specs *)

Definition FP_PREFIX_LEN : Z := 4.

Record FieldMeta := Meta { tag : Z; is_optional : bool }.

(** The members of the union: two parallel arrays, or two addresses. *)
Inductive spec_parts :=
| NoParts
| tstruct (metas : list FieldMeta) (specs : list Z)
| tcontainer (subtype1 subtype2 : Z).

Record TypeSpec := Spec { ttype : Z; fp_prefix : list Z; parts : spec_parts }.

(** The constructors. *)
Definition scalar_spec (t : Z) : TypeSpec := Spec t (zrep FP_PREFIX_LEN 0) NoParts.
Definition struct_spec (t : Z) (fingerprint : list Z) (metas : list FieldMeta) (specs : list Z) : TypeSpec :=
  Spec t (ztake FP_PREFIX_LEN fingerprint) (tstruct metas specs).
Definition container_spec (t : Z) (subtype1 subtype2 : Z) : TypeSpec :=
  Spec t (zrep FP_PREFIX_LEN 0) (tcontainer subtype1 subtype2).

Class TypeSpecs := typespecs : gmap Z TypeSpec.

(** ** The protocol object *)

(** Of a vector the back is first; a null [type_spec_] is [None]. *)
Record TDenseProtocol (T : Type) := DenseProt {
  base_ : TBinaryProtocolT T;
  type_spec_ : option Z;
  ts_stack_ : list Z;
  idx_stack_ : list Z;
  mkv_stack_ : list bool;
  standalone_ : bool
}.
Arguments DenseProt {T}.
Arguments base_ {T}.
Arguments type_spec_ {T}.
Arguments ts_stack_ {T}.
Arguments idx_stack_ {T}.
Arguments mkv_stack_ {T}.
Arguments standalone_ {T}.

Section Operations.
Context `{Platform} `{TypeSpecs} {T : Type} `{TTransport T}.
Abbreviation P := (TDenseProtocol T).
Abbreviation B := (TBinaryProtocolT T).

Definition new_dense (trans : T) (type_spec : option Z) : P :=
  DenseProt (BinaryProtocol.new_protocol trans) type_spec [] [] [] true.

Definition setTypeSpec (type_spec : option Z) (p : P) : P :=
  DenseProt (base_ p) type_spec (ts_stack_ p) (idx_stack_ p) (mkv_stack_ p) (standalone_ p).
Definition getTypeSpec (p : P) : option Z := type_spec_ p.

Definition set_base (b : B) (p : P) : P :=
  DenseProt b (type_spec_ p) (ts_stack_ p) (idx_stack_ p) (mkv_stack_ p) (standalone_ p).
Definition set_ts (l : list Z) (p : P) : P :=
  DenseProt (base_ p) (type_spec_ p) l (idx_stack_ p) (mkv_stack_ p) (standalone_ p).
Definition set_idx (l : list Z) (p : P) : P :=
  DenseProt (base_ p) (type_spec_ p) (ts_stack_ p) l (mkv_stack_ p) (standalone_ p).
Definition set_mkv (l : list bool) (p : P) : P :=
  DenseProt (base_ p) (type_spec_ p) (ts_stack_ p) (idx_stack_ p) l (standalone_ p).

(** A method of the base class, and a call on its transport. *)
Definition based {A} (m : M B A) : M P A := lift base_ set_base m.
Definition on_trans {A} (m : M T A) : M P A := based (under m).

Definition resetState : M P unit := modify (fun p => set_mkv [] (set_idx [] (set_ts [] p))).

(** The back of a vector, the target of a pointer, an element of an array: all must be there. *)
Definition there {S A} (a : option A) : M S A :=
  match a with Some a => ret a | None => crash_ UndefinedBehaviour end.
Definition deref (t : Z) : M P TypeSpec := there (typespecs !! t).

Definition top_ts : M P Z := let! ts := gets ts_stack_ in there (head ts).
Definition push_ts (t : Z) : M P unit := modify (fun p => set_ts (t :: ts_stack_ p) p).
Definition pop_ts : M P unit := do! top_ts in modify (fun p => set_ts (tail (ts_stack_ p)) p).

(** The macros of TDenseProtocol.cpp. *)
Definition TTS : M P TypeSpec := let! t := top_ts in deref t.
Definition IDX : M P Z := let! l := gets idx_stack_ in there (head l).
Definition arrays_of (sp : TypeSpec) : M P (list FieldMeta * list Z) :=
  match parts sp with tstruct metas specs => ret (metas, specs) | _ => crash_ UndefinedBehaviour end.
Definition FTS_address : M P Z :=
  let! sp := TTS in let! '(_, specs) := arrays_of sp in let! i := IDX in there (znth specs i).
Definition FTS : M P TypeSpec := let! t := FTS_address in deref t.
Definition FMT : M P FieldMeta :=
  let! sp := TTS in let! '(metas, _) := arrays_of sp in let! i := IDX in there (znth metas i).
Definition subtypes : M P (Z * Z) :=
  let! sp := TTS in
  match parts sp with tcontainer st1 st2 => ret (st1, st2) | _ => crash_ UndefinedBehaviour end.
Definition ST1 : M P Z := let! '(st1, _) := subtypes in ret st1.
Definition ST2 : M P Z := let! '(_, st2) := subtypes in ret st2.

(** [IDX++]. *)
Definition next_field : M P unit :=
  let! i := IDX in modify (fun p => set_idx (i + 1 :: tail (idx_stack_ p)) p).
Definition push_idx : M P unit := modify (fun p => set_idx (0 :: idx_stack_ p) p).
Definition pop_idx : M P unit := do! IDX in modify (fun p => set_idx (tail (idx_stack_ p)) p).
Definition top_mkv : M P bool := let! l := gets mkv_stack_ in there (head l).
Definition set_top_mkv (b : bool) : M P unit := modify (fun p => set_mkv (b :: tail (mkv_stack_ p)) p).
Definition push_mkv : M P unit := modify (fun p => set_mkv (true :: mkv_stack_ p) p).
Definition pop_mkv : M P unit := do! top_mkv in modify (fun p => set_mkv (tail (mkv_stack_ p)) p).

(** ** The stack of type specs *)

Definition checkTType (t : Z) : M P unit :=
  let! ts := gets ts_stack_ in
  do! assert_ (negb (bool_decide (ts = []))) in
  let! sp := TTS in
  assert_ (ttype sp =? t).

(** The first assertion assigns where it means to compare: it holds unless the
    type spec is null. *)
Definition stateTransition : M P unit :=
  let! old_tts := top_ts in
  do! pop_ts in
  let! ts := gets ts_stack_ in
  match ts with
  | [] => let! type_spec := gets type_spec_ in assert_ (bool_decide (type_spec <> None))
  | _ :: _ =>
      let! sp := TTS in
      if ttype sp =? T_STRUCT then
        let! f := FTS_address in assert_ (old_tts =? f)
      else if ((ttype sp =? T_LIST) || (ttype sp =? T_SET))%bool then
        let! st1 := ST1 in
        do! assert_ (old_tts =? st1) in
        push_ts old_tts
      else if ttype sp =? T_MAP then
        let! key := top_mkv in
        let! expected := if key then ST1 else ST2 in
        do! assert_ (old_tts =? expected) in
        do! set_top_mkv (negb key) in
        let! next := if negb key then ST1 else ST2 in
        push_ts next
      else assert_ false
  end.

(** ** Variable-length quantities *)

Definition VLQ_BYTES : Z := 10.

Definition vlq_too_long : exn :=
  EProtocol TProtocolException.INVALID_DATA "Variable-length int over 10 bytes.".
Definition too_long {A} : M P A := do! resetState in throw vlq_too_long.

(** One round of the loops of [vlqRead], on [used] and [val]. *)
Definition fast_round (borrowed : list Z) (a : Z * Z) : M P (Z * Z + Z * Z) :=
  let '(used, val) := a in
  let! byte := there (znth borrowed used) in
  let used := used + 1 in
  let val := Z.lor (u64 (Z.shiftl val 7)) (Z.land byte 0x7f) in
  if Z.land byte 0x80 =? 0 then do! on_trans (t_consume used) in ret (inr (used, val))
  else if used =? VLQ_BYTES then too_long
  else ret (inl (used, val)).

Definition slow_round (a : Z * Z) : M P (Z * Z + Z * Z) :=
  let '(used, val) := a in
  let! b := on_trans (t_readAll 1) in
  let byte := load b in
  let used := used + zlen b in
  let val := Z.lor (u64 (Z.shiftl val 7)) (Z.land byte 0x7f) in
  if Z.land byte 0x80 =? 0 then ret (inr (used, val))
  else if VLQ_BYTES <=? used then too_long
  else ret (inl (used, val)).

Definition vlqRead : M P (Z * Z) :=
  let! borrowed := on_trans (t_borrow VLQ_BYTES) in
  match borrowed with
  | Some b => iterate 11 (fast_round b) (0, 0)
  | None => iterate 11 slow_round (0, 0)
  end.

(** One round of the loop of [vlqWrite], on [pos], [vlq] and [buf] behind [pos]. *)
Definition vlq_round (a : Z * Z * list Z) : M P (Z * Z * list Z + Z * list Z) :=
  let '(pos, vlq, buf) := a in
  if 0 <? vlq then
    do! assert_ (0 <=? pos) in
    ret (inl (pos - 1, Z.shiftr vlq 7, u8 (Z.lor vlq 0x80) :: buf))
  else ret (inr (pos, buf)).

Definition vlqWrite (vlq : Z) : M P Z :=
  let pos := VLQ_BYTES - 1 in
  let buf := [Z.land vlq 0x7f] in
  let! '(pos, buf) := iterate 11 vlq_round (pos - 1, Z.shiftr vlq 7, buf) in
  let pos := pos + 1 in
  do! on_trans (t_write buf) in
  ret (VLQ_BYTES - pos).

(** ** Writing *)

Definition subWriteBool (value : bool) : M P Z := based (BinaryProtocol.writeBool value).
Definition subWriteI32 (i32 : Z) : M P Z := vlqWrite (u64 i32).

Definition subWriteString (str : list Z) : M P Z :=
  if 2 ^ 31 - 1 <? zlen str then throw (EProtocol TProtocolException.SIZE_LIMIT "") else
  let size := u32 (zlen str) in
  let! xfer := subWriteI32 (s32 size) in
  do! (if 0 <? size then on_trans (t_write str) else ret tt) in
  ret (u32 (xfer + size)).

Definition no_messages : exn := EThrift "TDenseProtocol doesn't work with messages (yet).".
Definition no_type : exn := EThrift "TDenseProtocol: No type specified.".

(** What follows the [throw] is never reached. *)
Definition writeMessageBegin (name : list Z) (messageType seqid : Z) : M P Z := throw no_messages.
Definition writeMessageEnd : M P Z := ret 0.

(** The start of a top-level struct: its type spec is pushed. *)
Definition top_spec : M P TypeSpec :=
  let! standalone := gets standalone_ in
  do! assert_ standalone in
  let! type_spec := gets type_spec_ in
  match type_spec with
  | None => do! resetState in throw no_type
  | Some t =>
      let! sp := deref t in
      do! assert_ (ttype sp =? T_STRUCT) in
      do! push_ts t in
      ret sp
  end.

(** The bytes of the prefix are counted, and the count then left: 0 is answered. *)
Definition writeStructBegin (name : option (list Z)) : M P Z :=
  let! ts := gets ts_stack_ in
  do! (match ts with
       | [] => let! sp := top_spec in on_trans (t_write (fp_prefix sp))
       | _ => ret tt
       end) in
  do! push_idx in
  ret 0.

Definition writeStructEnd : M P Z :=
  do! pop_idx in
  do! stateTransition in
  ret 0.

(** No more rounds than there are fields: past the arrays nothing is defined. *)
Definition field_rounds : M P Z :=
  let! sp := TTS in let! '(metas, _) := arrays_of sp in ret (zlen metas + 2).

Definition absent_round (fieldId xfer : Z) : M P (Z + Z) :=
  let! m := FMT in
  if tag m =? fieldId then ret (inr xfer) else
  let! f := FTS in
  do! assert_ (negb (ttype f =? T_STOP)) in
  let! m := FMT in
  do! assert_ (is_optional m) in
  let! n := subWriteBool false in
  do! next_field in
  ret (inl (u32 (xfer + n))).

Definition writeFieldBegin (name : option (list Z)) (fieldType fieldId : Z) : M P Z :=
  let! rounds := field_rounds in
  let! xfer := iterate rounds (absent_round fieldId) 0 in
  let! f := FTS in
  do! assert_ (ttype f =? fieldType) in
  let! m := FMT in
  let! xfer := if is_optional m
               then do! subWriteBool true in ret (u32 (xfer + 1))
               else ret xfer in
  do! (if negb (ttype f =? T_STOP) then let! t := FTS_address in push_ts t else ret tt) in
  ret xfer.

Definition writeFieldEnd : M P Z := do! next_field in ret 0.
Definition writeFieldStop : M P Z := writeFieldBegin (Some []) T_STOP 0.

Definition writeMapBegin (keyType valType size : Z) : M P Z :=
  do! checkTType T_MAP in
  let! '(st1, st2) := subtypes in
  let! sp1 := deref st1 in
  do! assert_ (keyType =? ttype sp1) in
  let! sp2 := deref st2 in
  do! assert_ (valType =? ttype sp2) in
  do! push_ts st1 in
  do! push_mkv in
  subWriteI32 (s32 size).

Definition writeMapEnd : M P Z :=
  do! pop_ts in
  do! pop_mkv in
  do! stateTransition in
  ret 0.

Definition write_elements (t elemType size : Z) : M P Z :=
  do! checkTType t in
  let! st1 := ST1 in
  let! sp1 := deref st1 in
  do! assert_ (elemType =? ttype sp1) in
  do! push_ts st1 in
  subWriteI32 (s32 size).
Definition elements_end : M P Z :=
  do! pop_ts in
  do! stateTransition in
  ret 0.

Definition writeListBegin (elemType size : Z) : M P Z := write_elements T_LIST elemType size.
Definition writeListEnd : M P Z := elements_end.
Definition writeSetBegin (elemType size : Z) : M P Z := write_elements T_SET elemType size.
Definition writeSetEnd : M P Z := elements_end.

(** The type is checked and the stack moved on before a scalar is written or read. *)
Definition scalar {A} (t : Z) (m : M P A) : M P A :=
  do! checkTType t in
  do! stateTransition in
  m.

Definition writeBool (value : bool) : M P Z := scalar T_BOOL (based (BinaryProtocol.writeBool value)).
Definition writeByte (byte : Z) : M P Z := scalar T_BYTE (based (BinaryProtocol.writeByte byte)).
Definition writeI16 (i16 : Z) : M P Z := scalar T_I16 (vlqWrite (u64 i16)).
Definition writeI32 (i32 : Z) : M P Z := scalar T_I32 (vlqWrite (u64 i32)).
Definition writeI64 (i64 : Z) : M P Z := scalar T_I64 (vlqWrite (u64 i64)).
Definition writeDouble (dub : Z) : M P Z := scalar T_DOUBLE (based (BinaryProtocol.writeDouble dub)).
Definition writeString (str : list Z) : M P Z := scalar T_STRING (subWriteString str).
Definition writeBinary (str : list Z) : M P Z := writeString str.

(** ** Reading *)

(** A quantity as a signed integer of [w] bits. *)
Definition out_of_range_exn (what : string) : exn := EProtocol TProtocolException.INVALID_DATA what.
Definition vlq_signed (w : Z) (what : string) : M P (Z * Z) :=
  let! '(rv, vlq) := vlqRead in
  let val := s64 vlq in
  if ((2 ^ (w - 1) - 1 <? val) || (val <? - 2 ^ (w - 1)))%bool
  then do! resetState in throw (out_of_range_exn what)
  else ret (rv, wraps w val).

Definition subReadBool : M P (Z * bool) := based BinaryProtocol.readBool.
Definition subReadI32 : M P (Z * Z) := vlq_signed 32 "i32 out of range.".
Definition subReadString : M P (Z * list Z) :=
  let! '(xfer, size) := subReadI32 in
  let! '(n, str) := based (readStringBody size) in
  ret (u32 (xfer + n), str).

Definition readMessageBegin : M P (Z * (list Z * Z * Z)) := throw no_messages.
Definition readMessageEnd : M P Z := ret 0.

Definition wrong_fingerprint : exn :=
  EProtocol TProtocolException.INVALID_DATA "Fingerprint in data does not match type_spec.".

(** [read], not [readAll]: what it leaves of the array is not initialised. *)
Definition readStructBegin : M P (Z * list Z) :=
  let! ts := gets ts_stack_ in
  do! (match ts with
       | [] =>
           let! sp := top_spec in
           let! got := on_trans (t_read FP_PREFIX_LEN) in
           let buf := got ++ zrep (FP_PREFIX_LEN - zlen got) junk in
           if bool_decide (buf = fp_prefix sp) then ret tt
           else do! resetState in throw wrong_fingerprint
       | _ => ret tt
       end) in
  do! push_idx in
  ret (0, []).

Definition readStructEnd : M P Z :=
  do! pop_idx in
  do! stateTransition in
  ret 0.

Definition present_round (xfer : Z) : M P (Z + Z) :=
  let! m := FMT in
  if negb (is_optional m) then ret (inr xfer) else
  let! '(n, is_present) := subReadBool in
  let xfer := u32 (xfer + n) in
  if (is_present : bool) then ret (inr xfer) else
  do! next_field in
  ret (inl xfer).

Definition readFieldBegin : M P (Z * (Z * Z)) :=
  let! rounds := field_rounds in
  let! xfer := iterate rounds present_round 0 in
  let! m := FMT in
  let! f := FTS in
  do! (if negb (ttype f =? T_STOP) then let! t := FTS_address in push_ts t else ret tt) in
  ret (xfer, (ttype f, tag m)).

Definition readFieldEnd : M P Z := do! next_field in ret 0.

(** The size of a container. *)
Definition read_size : M P (Z * Z) :=
  let! '(xfer, sizei) := subReadI32 in
  let! lim := gets (fun p => limits_ (base_ p)) in
  if sizei <? 0 then
    do! resetState in throw (EProtocol TProtocolException.NEGATIVE_SIZE "")
  else if container_over lim sizei then
    do! resetState in throw (EProtocol TProtocolException.SIZE_LIMIT "")
  else ret (xfer, u32 sizei).

Definition readMapBegin : M P (Z * (Z * Z * Z)) :=
  do! checkTType T_MAP in
  let! '(xfer, size) := read_size in
  let! '(st1, st2) := subtypes in
  let! sp1 := deref st1 in
  let! sp2 := deref st2 in
  do! push_ts st1 in
  do! push_mkv in
  ret (xfer, (ttype sp1, ttype sp2, size)).

Definition readMapEnd : M P Z :=
  do! pop_ts in
  do! pop_mkv in
  do! stateTransition in
  ret 0.

Definition read_elements (t : Z) : M P (Z * (Z * Z)) :=
  do! checkTType t in
  let! '(xfer, size) := read_size in
  let! st1 := ST1 in
  let! sp1 := deref st1 in
  do! push_ts st1 in
  ret (xfer, (ttype sp1, size)).

Definition readListBegin : M P (Z * (Z * Z)) := read_elements T_LIST.
Definition readListEnd : M P Z := elements_end.
Definition readSetBegin : M P (Z * (Z * Z)) := read_elements T_SET.
Definition readSetEnd : M P Z := elements_end.

Definition readBool : M P (Z * bool) := scalar T_BOOL (based BinaryProtocol.readBool).
Definition readByte : M P (Z * Z) := scalar T_BYTE (based BinaryProtocol.readByte).
Definition readI16 : M P (Z * Z) := scalar T_I16 (vlq_signed 16 "i16 out of range.").
Definition readI32 : M P (Z * Z) := scalar T_I32 (vlq_signed 32 "i32 out of range.").
Definition readI64 : M P (Z * Z) := scalar T_I64 (vlq_signed 64 "i64 out of range.").
Definition readDouble : M P (Z * Z) := scalar T_DOUBLE (based BinaryProtocol.readDouble).
Definition readString : M P (Z * list Z) := scalar T_STRING subReadString.
Definition readBinary : M P (Z * list Z) := readString.

(** ** The class *)

#[export] Instance TDenseProtocol_protocol : TProtocol P := {|
  p_writeMessageBegin := writeMessageBegin;
  p_writeMessageEnd := writeMessageEnd;
  p_writeStructBegin := writeStructBegin;
  p_writeStructEnd := writeStructEnd;
  p_writeFieldBegin := writeFieldBegin;
  p_writeFieldEnd := writeFieldEnd;
  p_writeFieldStop := writeFieldStop;
  p_writeMapBegin := writeMapBegin;
  p_writeMapEnd := writeMapEnd;
  p_writeListBegin := writeListBegin;
  p_writeListEnd := writeListEnd;
  p_writeSetBegin := writeSetBegin;
  p_writeSetEnd := writeSetEnd;
  p_writeBool := writeBool;
  p_writeByte := writeByte;
  p_writeI16 := writeI16;
  p_writeI32 := writeI32;
  p_writeI64 := writeI64;
  p_writeDouble := writeDouble;
  p_writeString := writeString;
  p_writeBinary := writeBinary;
  p_readMessageBegin := readMessageBegin;
  p_readMessageEnd := readMessageEnd;
  p_readStructBegin := readStructBegin;
  p_readStructEnd := readStructEnd;
  p_readFieldBegin := readFieldBegin;
  p_readFieldEnd := readFieldEnd;
  p_readMapBegin := readMapBegin;
  p_readMapEnd := readMapEnd;
  p_readListBegin := readListBegin;
  p_readListEnd := readListEnd;
  p_readSetBegin := readSetBegin;
  p_readSetEnd := readSetEnd;
  p_readBool := readBool;
  p_readByte := readByte;
  p_readI16 := readI16;
  p_readI32 := readI32;
  p_readI64 := readI64;
  p_readDouble := readDouble;
  p_readString := readString;
  p_readBinary := readBinary
|}.
End Operations.
