(* ===== verification/DenseFormat.v ===== *)
(** * What the dense protocol puts on the wire

    Variable-length quantities, and the encoding of a value that follows its type
    spec: [fits] says when a value is of the type, [d_enc] gives its bytes. *)

From S2P Require Export DenseProtocol.

(** ** Variable-length quantities *)

(** The bytes before the last, of at most [k]: the highest group first. *)
Fixpoint vlq_high (k : nat) (n : Z) : list Z :=
  match k with
  | O => []
  | S k => if n =? 0 then [] else vlq_high k (n / 128) ++ [n mod 128 + 128]
  end.

(** Nine such bytes hold 63 bits. *)
Definition vlq (n : Z) : list Z := vlq_high 9 (n / 128) ++ [n mod 128].
#[global] Arguments vlq : simpl never.

Fixpoint parse_vlq (more : nat) (used val : Z) (bs : list Z) : varint_result :=
  match bs with
  | [] => VShort
  | byte :: bs =>
      let val := Z.lor (u64 (Z.shiftl val 7)) (Z.land byte 0x7f) in
      if Z.land byte 0x80 =? 0 then VDone val (used + 1)
      else match more with
           | O => VOverlong
           | S more => parse_vlq more (used + 1) val bs
           end
  end.

Lemma zlen_vlq_high k n : 0 <= zlen (vlq_high k n) <= Z.of_nat k.
Proof.
  revert n. induction k as [|k IH]; intros n; cbn [vlq_high]; [unfold zlen; cbn; lia|].
  bif; [unfold zlen; cbn; lia|]. rewrite zlen_app. change (zlen [_]) with 1. specialize (IH (n / 128)). lia.
Qed.

Lemma zlen_vlq n : 1 <= zlen (vlq n) <= 10.
Proof. unfold vlq. rewrite zlen_app. change (zlen [_]) with 1. pose proof (zlen_vlq_high 9 (n / 128)). lia. Qed.

(** Seven more bits below those already there. *)
Lemma lor_group_below q g : 0 <= q -> 0 <= g < 128 -> q * 128 + g < 2 ^ 64 ->
  Z.lor (u64 (Z.shiftl q 7)) g = q * 128 + g.
Proof.
  intros Hq Hg Hmax. rewrite Z.shiftl_mul_pow2 by lia. change (2 ^ 7) with 128.
  rewrite wrapu_small by (unfold in_u; lia). rewrite Z.lor_comm, (lor_low g _ 7); [lia|lia|lia|].
  change (2 ^ 7) with 128. apply Z.mod_mul. lia.
Qed.

Lemma vlq_group n : 0 <= n < 2 ^ 64 -> Z.lor (u64 (Z.shiftl (n / 128) 7)) (n mod 128) = n.
Proof. intros Hn. rewrite lor_group_below by dlia. dlia. Qed.

Lemma parse_vlq_high k more used n l :
  0 <= n < 2 ^ 64 -> n < 128 ^ Z.of_nat k -> zlen (vlq_high k n) <= Z.of_nat more ->
  parse_vlq more used 0 (vlq_high k n ++ l) =
  parse_vlq (more - Z.to_nat (zlen (vlq_high k n))) (used + zlen (vlq_high k n)) n l.
Proof.
  revert more used n l. induction k as [|k IH]; intros more used n l Hn Hk Hm.
  { cbn in Hk. replace n with 0 by lia. cbn [vlq_high app]. change (zlen (@nil Z)) with 0. by rewrite Z.add_0_r, Nat.sub_0_r. }
  cbn [vlq_high] in *. bif.
  { subst n. cbn [app]. change (zlen (@nil Z)) with 0. by rewrite Z.add_0_r, Nat.sub_0_r. }
  rewrite zlen_app in *. change (zlen [_]) with 1 in *. pose proof (zlen_nonneg (vlq_high k (n / 128))).
  rewrite Nat2Z.inj_succ, Z.pow_succ_r in Hk by lia. rewrite <- app_assoc.
  rewrite IH; [|dlia|apply Z.div_lt_upper_bound; lia|lia].
  replace (more - Z.to_nat (zlen (vlq_high k (n / 128))))%nat
    with (S (more - Z.to_nat (zlen (vlq_high k (n / 128)) + 1)))%nat by lia.
  cbn [app parse_vlq]. assert (0 <= n mod 128 < 128) by dlia. rewrite land_128 by lia.
  replace (_ <? 128) with false by lia. rewrite land_127.
  replace ((n mod 128 + 128) mod 128) with (n mod 128) by dlia. rewrite vlq_group by lia. f_equal. lia.
Qed.

(** Reading back what [vlq] gives. *)
Lemma parse_vlq_vlq n rest :
  in_u 64 n -> parse_vlq 9 0 0 (vlq n ++ rest) = VDone n (zlen (vlq n)).
Proof.
  unfold in_u. intros Hn. unfold vlq. rewrite <- app_assoc, zlen_app. change (zlen [_]) with 1.
  pose proof (zlen_vlq_high 9 (n / 128)).
  rewrite parse_vlq_high; [|dlia| |lia]; [|change (128 ^ Z.of_nat 9) with (2 ^ 63); dlia].
  cbn [app]. destruct (9 - Z.to_nat (zlen (vlq_high 9 (n / 128))))%nat; cbn [parse_vlq];
    (rewrite land_128, land_127, Z.mod_mod by dlia; replace (n mod 128 <? 128) with true by dlia;
     by rewrite vlq_group by lia).
Qed.

Lemma parse_vlq_take more used val bs n :
  Z.of_nat (S more) <= n -> parse_vlq more used val (ztake n bs) = parse_vlq more used val bs.
Proof.
  revert used val bs n. induction more as [|more IH]; intros used val [|b bs] n Hn.
  1, 3: by rewrite ztake_ge by (unfold zlen; cbn; lia).
  all: replace (ztake n (b :: bs)) with (b :: ztake (n - 1) bs)
    by (unfold ztake; replace (Z.to_nat n) with (S (Z.to_nat (n - 1))) by lia; done);
    cbn [parse_vlq]; case_match; [done|].
  - done.
  - apply IH. lia.
Qed.

Lemma parse_vlq_used more used val bs v u :
  parse_vlq more used val bs = VDone v u -> used < u <= used + zlen bs.
Proof.
  revert used val bs. induction more as [|more IH]; intros used val [|b bs] Hp;
    cbn [parse_vlq] in Hp; try done; rewrite zlen_cons; pose proof (zlen_nonneg bs); case_match; try done.
  - injection Hp as <- <-. lia.
  - injection Hp as <- <-. lia.
  - apply IH in Hp. lia.
Qed.

(** The byte [vlqWrite] stores. *)
Lemma u8_lor_128 v : 0 <= v -> u8 (Z.lor v 0x80) = v mod 128 + 128.
Proof.
  intros Hv. transitivity (Z.lor (v mod 128) 128).
  - unfold wrapu. apply Z.bits_inj'. intros i Hi. change 128 with (2 ^ 7).
    destruct (Z_lt_le_dec i 8).
    + rewrite Z.mod_pow2_bits_low, !Z.lor_spec by lia. destruct (Z_lt_le_dec i 7).
      * by rewrite Z.mod_pow2_bits_low by lia.
      * replace i with 7 by lia. rewrite Z.pow2_bits_true by lia. by rewrite !orb_true_r.
    + rewrite Z.mod_pow2_bits_high, Z.lor_spec, Z.mod_pow2_bits_high, Z.pow2_bits_false by lia. done.
  - rewrite (lor_low (v mod 128) 128 7); [lia|lia|dlia|reflexivity].
Qed.

(** An element before position [n] of a list, from its own position on. *)
Lemma zdrop_before {A} (Q : A -> Prop) j n (l : list A) :
  0 <= j < n -> n <= zlen l -> Forall Q (ztake n l) -> exists x r, zdrop j l = x :: r /\ Q x.
Proof.
  intros Hj Hn HQ. assert (Hl : zlen (zdrop j (ztake n l)) = n - j) by (rewrite zlen_zdrop, zlen_ztake; lia).
  destruct (zdrop j (ztake n l)) as [|x r] eqn:Hd; [rewrite zlen_nil in Hl; lia|].
  exists x, (r ++ zdrop n l). split.
  - rewrite <- (ztake_zdrop n l) at 1. rewrite zdrop_app_le by (rewrite zlen_ztake; lia). by rewrite Hd.
  - assert (Forall Q (zdrop j (ztake n l))) as HQ' by (by apply Forall_drop). rewrite Hd in HQ'.
    by apply Forall_cons in HQ' as [? _].
Qed.

(** ** Values of a type *)

Section Format.
Context `{TypeSpecs}.

(** The type a spec's address stands for. *)
Definition type_at (t : Z) : option Z := option_map ttype (typespecs !! t).
Definition has_type (t ty : Z) : bool := bool_decide (type_at t = Some ty).

Definition fields_of (sp : TypeSpec) : list (FieldMeta * Z) :=
  match parts sp with tstruct metas specs => zip metas specs | _ => [] end.
Definition fields_at (t : Z) : list (FieldMeta * Z) := from_option fields_of [] (typespecs !! t).
Definition parts_at (t : Z) : spec_parts := from_option parts NoParts (typespecs !! t).

(** The field [id] from here on: the absent ones before it, the field, and what
    follows it.  Only optional fields can be absent. *)
Fixpoint find_field (id : Z) (l : list (FieldMeta * Z)) : option (Z * (FieldMeta * Z) * list (FieldMeta * Z)) :=
  match l with
  | [] => None
  | f :: l =>
      if tag f.1 =? id then Some (0, f, l)
      else if (negb (is_optional f.1) || negb (bool_decide (is_Some (typespecs !! f.2))) || has_type f.2 T_STOP)%bool
           then None
      else match find_field id l with
           | Some (n, g, l') => Some (n + 1, g, l')
           | None => None
           end
  end.

(** Strings and doubles in the given sets, containers within [lim]. *)
Section Fits.
Context (lim : limits) (str_ok : list Z -> bool) (dbl_ok : Z -> bool).

Definition ends (l : list (FieldMeta * Z)) : bool :=
  match find_field 0 l with
  | Some (_, (m, t), _) => (negb (is_optional m) && has_type t T_STOP)%bool
  | None => false
  end.

Fixpoint fits (t : Z) (v : tval) {struct v} : bool :=
  let fits_fields := fix go (fs : list (Z * tval)) (l : list (FieldMeta * Z)) : bool :=
    match fs with
    | [] => ends l
    | f :: fs =>
        match find_field f.1 l with
        | Some (_, (_, tf), l') => (negb (has_type tf T_STOP) && fits tf f.2 && go fs l')%bool
        | None => false
        end
    end in
  (has_type t (type_of v) &&
   match v with
   | VBool _ => true
   | VByte z => in_sb 8 z
   | VI16 z => in_sb 16 z
   | VI32 z => in_sb 32 z
   | VI64 z => in_sb 64 z
   | VDouble bits => dbl_ok bits
   | VString s => str_ok s
   | VStruct fs => fits_fields fs (fields_at t)
   | VMap kt vt es =>
       match parts_at t with
       | tcontainer st1 st2 =>
           has_type st1 kt && has_type st2 vt && count_ok lim (zlen es) &&
           forallb (fun e => fits st1 e.1 && fits st2 e.2) es
       | _ => false
       end
   | VSet et l | VList et l =>
       match parts_at t with
       | tcontainer st1 _ => has_type st1 et && count_ok lim (zlen l) && forallb (fits st1) l
       | _ => false
       end
   | VNothing _ => false
   end)%bool.

Fixpoint fits_fields (fs : list (Z * tval)) (l : list (FieldMeta * Z)) : bool :=
  match fs with
  | [] => ends l
  | f :: fs =>
      match find_field f.1 l with
      | Some (_, (_, tf), l') => (negb (has_type tf T_STOP) && fits tf f.2 && fits_fields fs l')%bool
      | None => false
      end
  end.
End Fits.

(** ** Its bytes *)

Definition absent (n : Z) : list Z := zrep n 0.
(** An optional field that is there is announced. *)
Definition present (m : FieldMeta) : list Z := if is_optional m then [1] else [].

Fixpoint d_enc (t : Z) (v : tval) {struct v} : list Z :=
  match v with
  | VBool b => [if b then 1 else 0]
  | VByte z => [u8 z]
  | VI16 z | VI32 z | VI64 z => vlq (u64 z)
  | VDouble bits => be_bytes 8 bits
  | VString s => vlq (zlen s) ++ s
  | VStruct fs =>
      (fix go (fs : list (Z * tval)) (l : list (FieldMeta * Z)) : list Z :=
         match fs with
         | [] => match find_field 0 l with Some (n, _, _) => absent n | None => [] end
         | f :: fs =>
             match find_field f.1 l with
             | Some (n, (m, tf), l') => absent n ++ present m ++ d_enc tf f.2 ++ go fs l'
             | None => []
             end
         end) fs (fields_at t)
  | VMap _ _ es =>
      match parts_at t with
      | tcontainer st1 st2 => vlq (zlen es) ++ concat (map (fun e => d_enc st1 e.1 ++ d_enc st2 e.2) es)
      | _ => []
      end
  | VSet _ l | VList _ l =>
      match parts_at t with
      | tcontainer st1 _ => vlq (zlen l) ++ concat (map (d_enc st1) l)
      | _ => []
      end
  | VNothing _ => []
  end.

Fixpoint d_fields (fs : list (Z * tval)) (l : list (FieldMeta * Z)) : list Z :=
  match fs with
  | [] => match find_field 0 l with Some (n, _, _) => absent n | None => [] end
  | f :: fs =>
      match find_field f.1 l with
      | Some (n, (m, tf), l') => absent n ++ present m ++ d_enc tf f.2 ++ d_fields fs l'
      | None => []
      end
  end.

Lemma fits_struct lim str_ok dbl_ok t fs :
  fits lim str_ok dbl_ok t (VStruct fs) =
  (has_type t T_STRUCT && fits_fields lim str_ok dbl_ok fs (fields_at t))%bool.
Proof. reflexivity. Qed.
Lemma d_enc_struct t fs : d_enc t (VStruct fs) = d_fields fs (fields_at t).
Proof. reflexivity. Qed.

(** ** The stack of type specs *)

(** The stacks: of type specs, of field indices, of keys and values. *)
Record stacks := Stacks { ts : list Z; idx : list Z; mkv : list bool }.

(** The stacks before an object of the type [t], and after it: [None] where the
    object is not what comes next. *)
Definition before (t : Z) (c : stacks) : stacks := Stacks (t :: ts c) (idx c) (mkv c).
Definition after (t : Z) (c : stacks) : option stacks :=
  match ts c with
  | [] => Some c
  | s :: _ =>
      match typespecs !! s with
      | Some sp =>
          if ttype sp =? T_STRUCT then
            match parts sp, idx c with
            | tstruct _ specs, i :: _ => if bool_decide (znth specs i = Some t) then Some c else None
            | _, _ => None
            end
          else if ((ttype sp =? T_LIST) || (ttype sp =? T_SET))%bool then
            match parts sp with
            | tcontainer st1 _ => if t =? st1 then Some (before t c) else None
            | _ => None
            end
          else if ttype sp =? T_MAP then
            match parts sp, mkv c with
            | tcontainer st1 st2, k :: ks =>
                if t =? (if k then st1 else st2)
                then Some (Stacks ((if negb k then st1 else st2) :: ts c) (idx c) (negb k :: ks))
                else None
            | _, _ => None
            end
          else None
      | None => None
      end
  end.

(** Inside a struct, a list or set, a map. *)
Definition in_struct (i : Z) (c : stacks) : stacks := Stacks (ts c) (i :: idx c) (mkv c).
(** At the value of a field: there is none at the end. *)
Definition at_field (c : stacks) (tf : Z) : stacks := if has_type tf T_STOP then c else before tf c.
Definition in_map (k : bool) (c : stacks) : stacks := Stacks (ts c) (idx c) (k :: mkv c).

(** ** Well-formed type specs

    As the compiler generates them: the arrays of a struct end with the void spec
    under the tag 0, tags differ, parts are of value types.  A struct cannot contain
    itself, so that the specs can be ranked. *)

Section WellFormed.
Context (rank : Z -> Z).

Definition element_ok (r t : Z) : bool :=
  ((0 <=? rank t) && (rank t <? r) && from_option is_value_type false (type_at t))%bool.

Fixpoint fields_ok (r : Z) (l : list (FieldMeta * Z)) : bool :=
  match l with
  | [] => false
  | [f] => ((tag f.1 =? 0) && negb (is_optional f.1) && has_type f.2 T_STOP)%bool
  | f :: l => (element_ok r f.2 && forallb (fun g => negb (tag g.1 =? tag f.1)) l && fields_ok r l)%bool
  end.

Definition spec_ok (t : Z) (sp : TypeSpec) : bool :=
  match parts sp with
  | tstruct metas specs =>
      ((ttype sp =? T_STRUCT) && (zlen metas =? zlen specs) && fields_ok (rank t) (zip metas specs))%bool
  | tcontainer st1 st2 =>
      (((ttype sp =? T_LIST) || (ttype sp =? T_SET)) && element_ok (rank t) st1 ||
       (ttype sp =? T_MAP) && element_ok (rank t) st1 && element_ok (rank t) st2)%bool
  | NoParts => existsb (Z.eqb (ttype sp)) [T_STOP; T_BOOL; T_BYTE; T_DOUBLE; T_I16; T_I32; T_I64; T_STRING]
  end.

Definition specs_ok : Prop := map_Forall (fun t sp => spec_ok t sp = true) typespecs.

Lemma fields_ok_cons r f g l : fields_ok r (f :: g :: l) = true ->
  element_ok r f.2 = true /\ (forall h, In h (g :: l) -> tag h.1 <> tag f.1) /\ fields_ok r (g :: l) = true.
Proof using Type.
  intros Hok. change (element_ok r f.2 && forallb (fun g => negb (tag g.1 =? tag f.1)) (g :: l) &&
    fields_ok r (g :: l) = true)%bool in Hok.
  apply andb_true_iff in Hok as [Hok Hr]. apply andb_true_iff in Hok as [He Hd].
  split_and!; [done| |done]. intros h Hh. rewrite forallb_forall in Hd. specialize (Hd h Hh). breflect. done.
Qed.

Lemma element_ok_spec r t : element_ok r t = true ->
  0 <= rank t < r /\ exists sp, typespecs !! t = Some sp /\ is_value_type (ttype sp) = true.
Proof using Type.
  unfold element_ok, type_at. intros Hok. breflect. split; [done|]. destruct (typespecs !! t) as [sp|]; [|done]. by exists sp.
Qed.

Lemma element_not_stop r t : element_ok r t = true -> has_type t T_STOP = false.
Proof using Type.
  intros (_ & sp & Hsp & Hty)%element_ok_spec. unfold has_type, type_at. rewrite Hsp. cbn.
  apply bool_decide_eq_false. intros [= Heq]. by rewrite Heq in Hty.
Qed.
End WellFormed.

(** What comes next in each kind of object. *)
Lemma after_field t c sp metas specs i tf :
  typespecs !! t = Some sp -> ttype sp = T_STRUCT -> parts sp = tstruct metas specs -> znth specs i = Some tf ->
  after tf (in_struct i (before t c)) = Some (in_struct i (before t c)).
Proof using Type.
  intros Hsp Hty Hparts Hi. unfold after. cbn [in_struct before ts idx]. rewrite Hsp, Hty, Hparts.
  change (T_STRUCT =? T_STRUCT) with true. cbv iota. by rewrite bool_decide_eq_true_2.
Qed.

Lemma after_element t c sp st1 st2 :
  typespecs !! t = Some sp -> ttype sp = T_LIST \/ ttype sp = T_SET -> parts sp = tcontainer st1 st2 ->
  after st1 (before t c) = Some (before st1 (before t c)).
Proof using Type.
  intros Hsp Hty Hparts. unfold after. cbn [before ts]. rewrite Hsp, Hparts, Z.eqb_refl.
  by destruct Hty as [-> | ->].
Qed.

Lemma after_entry t c sp st1 st2 k :
  typespecs !! t = Some sp -> ttype sp = T_MAP -> parts sp = tcontainer st1 st2 ->
  after (if k : bool then st1 else st2) (in_map k (before t c)) =
  Some (before (if negb k then st1 else st2) (in_map (negb k) (before t c))).
Proof using Type.
  intros Hsp Hty Hparts. unfold after. cbn [before in_map ts mkv idx]. rewrite Hsp, Hty, Hparts.
  change (T_MAP =? T_STRUCT) with false. change ((T_MAP =? T_LIST) || (T_MAP =? T_SET))%bool with false.
  change (T_MAP =? T_MAP) with true. cbv iota. by rewrite Z.eqb_refl.
Qed.

Lemma find_field_spec id l n m tf l' :
  find_field id l = Some (n, (m, tf), l') ->
  tag m = id /\ 0 <= n < zlen l /\ zdrop n l = (m, tf) :: l' /\
  Forall (fun f => tag f.1 <> id /\ is_optional f.1 = true /\ (exists sp, typespecs !! f.2 = Some sp /\ ttype sp <> T_STOP))
    (ztake n l).
Proof.
  revert n. induction l as [|f l IH]; intros n; cbn [find_field]; [done|].
  bif.
  - intros [= <- -> ->]. rewrite zlen_cons. pose proof (zlen_nonneg l'). split_and!; [done|lia|lia|done|constructor].
  - destruct (_ || _)%bool eqn:Hs; [done|]. destruct (find_field id l) as [[[k g] r]|]; [|done].
    intros [= <- -> ->]. destruct (IH k eq_refl) as (Ht & Hk & Hd & Hf). rewrite zlen_cons.
    split_and!; [done|lia|lia| |].
    + rewrite <- zdrop_zdrop by lia. change (zdrop 1 (f :: l)) with l. done.
    + rewrite Z.add_comm, ztake_add by lia. change (zdrop 1 (f :: l)) with l. change (ztake 1 (f :: l)) with [f].
      apply Forall_app. split; [|done]. constructor; [|constructor].
      apply orb_false_iff in Hs as [Hs Hst]. apply orb_false_iff in Hs as [Ho Hp]. breflect.
      apply bool_decide_eq_true in Hp as [sp Hsp]. split_and!; [done|done|]. exists sp. split; [done|].
      unfold has_type, type_at in Hst. rewrite Hsp in Hst. cbn in Hst. apply bool_decide_eq_false in Hst. congruence.
Qed.
End Format.
