(* ===== verification/DenseStacks.v ===== *)
(** * The stacks of the dense protocol

    What every operation of TDenseProtocol.cpp does to the stack of type specs, the
    field indices and the key flags: shared by the writer and the reader. *)

From S2P Require Export DenseFormat.

(** [bif] and its like leave a test of [has_type]. *)
Lemma has_type_spec `{TypeSpecs} t ty : has_type t ty = true -> exists sp, typespecs !! t = Some sp /\ ttype sp = ty.
Proof.
  unfold has_type, type_at. intros Ht%bool_decide_eq_true. destruct (typespecs !! t) as [sp|]; [|done].
  exists sp. by injection Ht as <-.
Qed.

Lemma has_type_spec_false `{TypeSpecs} t ty sp :
  typespecs !! t = Some sp -> has_type t ty = false -> ttype sp <> ty.
Proof.
  unfold has_type, type_at. intros ->. cbn. intros Hf%bool_decide_eq_false. congruence.
Qed.

Section Stacks.
Context `{Platform} `{TypeSpecs} {T : Type} `{TTransport T} (top : option Z).
Abbreviation P := (TDenseProtocol T).
Implicit Types (p : P) (c : stacks).

(** [p] has the stacks [c] and the type spec [top]. *)
Definition dense_at p c : Prop :=
  ts_stack_ p = ts c /\ idx_stack_ p = idx c /\ mkv_stack_ p = mkv c /\
  type_spec_ p = top /\ standalone_ p = true.

(** [m] answers [a], moves the stacks and touches nothing else. *)
Definition moves {A} (m : M P A) c c' (a : A) : Prop :=
  forall p, dense_at p c -> exists p', m p = (Ok a, p') /\ base_ p' = base_ p /\ dense_at p' c'.

Lemma moves_bind {A B} (m : M P A) (k : A -> M P B) c c1 c2 a b :
  moves m c c1 a -> moves (k a) c1 c2 b -> moves (bind m k) c c2 b.
Proof using Type.
  intros Hm Hk p Hp. destruct (Hm p Hp) as (p1 & Hr & Hb & Hp1). destruct (Hk p1 Hp1) as (p2 & Hr2 & Hb2 & Hp2).
  exists p2. split; [unfold bind; by rewrite Hr|]. split; [congruence|done].
Qed.

Lemma moves_step {A B} (m : M P A) (k : A -> M P B) c c' a p Q E :
  moves m c c' a -> dense_at p c ->
  (forall p', base_ p' = base_ p -> dense_at p' c' -> runs (k a) p' Q E) -> runs (bind m k) p Q E.
Proof using Type.
  intros Hm Hp Hk. destruct (Hm p Hp) as (p1 & Hr & Hb & Hp1). unfold runs. rewrite (bind_run m k p a p1 Hr).
  by apply Hk.
Qed.

Lemma moves_ret {A} (a : A) c : moves (ret a) c c a.
Proof using Type. intros p Hp. by exists p. Qed.

Lemma moves_assert b c : b = true -> moves (assert_ b) c c tt.
Proof using Type. intros ->. apply moves_ret. Qed.

Lemma moves_there {A} (a : option A) x c : a = Some x -> moves (there a) c c x.
Proof using Type. intros ->. apply moves_ret. Qed.

Ltac at_once := intros p (Hts & Hidx & Hmkv & Htop & Hst); cbn in *; unfold dense_at; cbn;
  eexists; (split; [reflexivity|]); split; [reflexivity|]; cbn; by rewrite ?Hts, ?Hidx, ?Hmkv.

Lemma moves_get_ts c : moves (gets ts_stack_) c c (ts c).
Proof using Type. intros p Hp. pose proof Hp as (<- & _). by exists p. Qed.
Lemma moves_get_idx c : moves (gets idx_stack_) c c (idx c).
Proof using Type. intros p Hp. pose proof Hp as (_ & <- & _). by exists p. Qed.
Lemma moves_get_mkv c : moves (gets mkv_stack_) c c (mkv c).
Proof using Type. intros p Hp. pose proof Hp as (_ & _ & <- & _). by exists p. Qed.
Lemma moves_get_spec c : moves (gets type_spec_) c c top.
Proof using Type. intros p Hp. pose proof Hp as (_ & _ & _ & <- & _). by exists p. Qed.

Lemma moves_get_standalone c : moves (gets standalone_) c c true.
Proof using Type. intros p Hp. exists p. unfold gets. pose proof Hp as (_ & _ & _ & _ & Hst). by rewrite Hst. Qed.

Lemma moves_top_ts t l i k : moves top_ts (Stacks (t :: l) i k) (Stacks (t :: l) i k) t.
Proof using Type. eapply moves_bind; [apply moves_get_ts|]. by apply moves_there. Qed.
Lemma moves_push_ts t c : moves (push_ts t) c (before t c) tt.
Proof using Type. at_once. Qed.
Lemma moves_pop_ts t c : moves pop_ts (before t c) c tt.
Proof using Type. eapply moves_bind; [apply moves_top_ts|]. at_once. Qed.
Lemma moves_push_idx c : moves push_idx c (in_struct 0 c) tt.
Proof using Type. at_once. Qed.
Lemma moves_IDX i c : moves IDX (in_struct i c) (in_struct i c) i.
Proof using Type. eapply moves_bind; [apply moves_get_idx|]. by apply moves_there. Qed.
Lemma moves_pop_idx i c : moves pop_idx (in_struct i c) c tt.
Proof using Type. eapply moves_bind; [apply moves_IDX|]. at_once. Qed.
Lemma moves_next_field i c : moves next_field (in_struct i c) (in_struct (i + 1) c) tt.
Proof using Type. eapply moves_bind; [apply moves_IDX|]. at_once. Qed.
Lemma moves_push_mkv c : moves push_mkv c (in_map true c) tt.
Proof using Type. at_once. Qed.
Lemma moves_top_mkv k c : moves top_mkv (in_map k c) (in_map k c) k.
Proof using Type. eapply moves_bind; [apply moves_get_mkv|]. by apply moves_there. Qed.
Lemma moves_set_mkv b k c : moves (set_top_mkv b) (in_map k c) (in_map b c) tt.
Proof using Type. at_once. Qed.
Lemma moves_pop_mkv k c : moves pop_mkv (in_map k c) c tt.
Proof using Type. eapply moves_bind; [apply moves_top_mkv|]. at_once. Qed.

Lemma moves_TTS t l i k sp : typespecs !! t = Some sp -> moves TTS (Stacks (t :: l) i k) (Stacks (t :: l) i k) sp.
Proof using Type. intros Hsp. eapply moves_bind; [apply moves_top_ts|]. by apply moves_there. Qed.

Section TopSpec.
Context (t : Z) (l i : list Z) (k : list bool) (sp : TypeSpec) (Hsp : typespecs !! t = Some sp).
Abbreviation C := (Stacks (t :: l) i k).

Lemma moves_subtypes st1 st2 : parts sp = tcontainer st1 st2 -> moves subtypes C C (st1, st2).
Proof using All. intros Hp. eapply moves_bind; [by apply moves_TTS|]. rewrite Hp. apply moves_ret. Qed.
Lemma moves_ST1 st1 st2 : parts sp = tcontainer st1 st2 -> moves ST1 C C st1.
Proof using All. intros Hp. eapply moves_bind; [by apply (moves_subtypes st1 st2)|]. apply moves_ret. Qed.
Lemma moves_ST2 st1 st2 : parts sp = tcontainer st1 st2 -> moves ST2 C C st2.
Proof using All. intros Hp. eapply moves_bind; [by apply (moves_subtypes st1 st2)|]. apply moves_ret. Qed.

Lemma moves_checkTType ty : ttype sp = ty -> moves (checkTType ty) C C tt.
Proof using All.
  intros Hty. eapply moves_bind; [apply moves_get_ts|]. cbn [ts].
  eapply moves_bind; [by apply moves_assert|]. eapply moves_bind; [by apply moves_TTS|].
  apply moves_assert. by apply Z.eqb_eq.
Qed.
End TopSpec.

(** In a struct: the current field. *)
Section Fields.
Context (t : Z) (l i : list Z) (k : list bool) (sp : TypeSpec) (metas : list FieldMeta) (specs : list Z).
Context (Hsp : typespecs !! t = Some sp) (Hparts : parts sp = tstruct metas specs).
Abbreviation C := (fun n => Stacks (t :: l) (n :: i) k).

Lemma zip_at n m tf r : 0 <= n -> zdrop n (zip metas specs) = (m, tf) :: r ->
  znth metas n = Some m /\ znth specs n = Some tf.
Proof using Type.
  intros Hn Hd. unfold znth, zdrop in *. replace (n <? 0) with false by lia.
  assert (zip metas specs !! Z.to_nat n = Some (m, tf)) as Hl
    by (rewrite <- (Nat.add_0_r (Z.to_nat n)), <- lookup_drop, Hd; done).
  apply lookup_zip_with_Some in Hl as (m' & tf' & [= -> ->] & ? & ?). done.
Qed.

Lemma moves_FTS_address n m tf r :
  0 <= n -> zdrop n (zip metas specs) = (m, tf) :: r -> moves FTS_address (C n) (C n) tf.
Proof using All.
  intros Hn Hd. destruct (zip_at n m tf r Hn Hd) as [_ Hs].
  eapply moves_bind; [by apply moves_TTS|]. unfold arrays_of. rewrite Hparts.
  eapply moves_bind; [apply moves_ret|]. eapply moves_bind; [apply (moves_IDX n (Stacks (t :: l) i k))|].
  by apply moves_there.
Qed.

Lemma moves_FTS n m tf r f : typespecs !! tf = Some f ->
  0 <= n -> zdrop n (zip metas specs) = (m, tf) :: r -> moves FTS (C n) (C n) f.
Proof using All. intros Hf Hn Hd. eapply moves_bind; [by eapply moves_FTS_address|]. by apply moves_there. Qed.

Lemma moves_FMT n m tf r : 0 <= n -> zdrop n (zip metas specs) = (m, tf) :: r -> moves FMT (C n) (C n) m.
Proof using All.
  intros Hn Hd. destruct (zip_at n m tf r Hn Hd) as [Hs _].
  eapply moves_bind; [by apply moves_TTS|]. unfold arrays_of. rewrite Hparts.
  eapply moves_bind; [apply moves_ret|]. eapply moves_bind; [apply (moves_IDX n (Stacks (t :: l) i k))|].
  by apply moves_there.
Qed.

Lemma moves_field_rounds n : moves field_rounds (C n) (C n) (zlen metas + 2).
Proof using All.
  eapply moves_bind; [by apply moves_TTS|]. unfold arrays_of. rewrite Hparts.
  eapply moves_bind; [apply moves_ret|]. apply moves_ret.
Qed.
End Fields.

(** After an object of the type [t]. *)
Lemma moves_transition t c c' : top <> None -> after t c = Some c' -> moves stateTransition (before t c) c' tt.
Proof using All.
  intros Htop Ha. unfold stateTransition. eapply moves_bind; [apply moves_top_ts|].
  eapply moves_bind; [apply moves_pop_ts|]. eapply moves_bind; [apply moves_get_ts|].
  unfold after in Ha. destruct c as [[|s l] i k]; cbn [ts] in *.
  { injection Ha as <-. eapply moves_bind; [apply moves_get_spec|]. apply moves_assert. by apply bool_decide_eq_true. }
  destruct (typespecs !! s) as [sp|] eqn:Hsp; [|done]. eapply moves_bind; [by apply moves_TTS|].
  bif.
  { destruct (parts sp) as [|metas specs|] eqn:Hparts; try done. destruct i as [|n i]; [done|]. cbn [idx] in Ha.
    case_bool_decide as Hn; [|done]. injection Ha as <-. eapply moves_bind.
    - eapply moves_bind; [by apply moves_TTS|]. unfold arrays_of. rewrite Hparts.
      eapply moves_bind; [apply moves_ret|]. eapply moves_bind; [apply (moves_IDX n (Stacks (s :: l) i k))|].
      by apply moves_there.
    - apply moves_assert. apply Z.eqb_refl. }
  bif.
  { destruct (parts sp) as [| |st1 st2] eqn:Hparts; try done. destruct (t =? st1) eqn:Ht; [|done]. injection Ha as <-.
    eapply moves_bind; [by eapply moves_ST1|]. eapply moves_bind; [by apply moves_assert|]. apply moves_push_ts. }
  bif; [|done]. destruct (parts sp) as [| |st1 st2] eqn:Hparts; try done. destruct k as [|b ks]; [done|]. cbn [mkv] in Ha.
  destruct (t =? _) eqn:Ht; [|done]. injection Ha as <-. cbn [ts idx].
  eapply moves_bind; [apply (moves_top_mkv b (Stacks (s :: l) i ks))|].
  eapply moves_bind with (a := if b then st1 else st2).
  { destruct b; [by eapply moves_ST1|by eapply moves_ST2]. }
  eapply moves_bind; [by apply moves_assert|].
  eapply moves_bind; [apply (moves_set_mkv (negb b) b (Stacks (s :: l) i ks))|].
  eapply moves_bind with (c1 := Stacks (s :: l) i (negb b :: ks)) (a := if negb b then st1 else st2).
  { destruct b; cbn [negb];
      [apply (moves_ST2 s l i (false :: ks) sp Hsp st1 st2 Hparts)|apply (moves_ST1 s l i (true :: ks) sp Hsp st1 st2 Hparts)]. }
  apply (moves_push_ts _ (Stacks (s :: l) i (negb b :: ks))).
Qed.

(** The type of what comes next. *)
Lemma moves_check t c ty : has_type t ty = true -> moves (checkTType ty) (before t c) (before t c) tt.
Proof using All.
  intros (sp & Hsp & Hty)%has_type_spec. by apply (moves_checkTType t (ts c) (idx c) (mkv c) sp).
Qed.

(** Before a scalar is written or read. *)
Lemma moves_scalar t c c' ty : top <> None -> has_type t ty = true -> after t c = Some c' ->
  moves (do! checkTType ty in stateTransition) (before t c) c' tt.
Proof using All. intros. eapply moves_bind; [by apply moves_check|]. by apply moves_transition. Qed.

Lemma dense_at_base p c b : dense_at p c -> dense_at (set_base b p) c.
Proof using Type. done. Qed.
End Stacks.
