(* ===== verification/DenseWriter.v ===== *)
(** * Writing with the dense protocol

    Every operation of TDenseProtocol.cpp that writes puts the bytes of [d_enc] on
    the transport, and moves the stacks from before the object to after it. *)

From S2P Require Export DenseStacks.

Section Writer.
Context `{Platform} `{TypeSpecs} {T : Type} `{WriteLaws T} (top : option Z) (Htop : top <> None).
Abbreviation P := (TDenseProtocol T).
Implicit Types (p : P) (c : stacks).

Definition dense_out p c (out : list Z) (room : Z) : Prop :=
  dense_at top p c /\ bin_out (base_ p) [] out room.
Abbreviation dwrites := (writes dense_out).

Lemma dense_out_eq p c out out' room room' :
  dense_out p c out room -> out = out' -> room = room' -> dense_out p c out' room'.
Proof using Type. by intros ? -> ->. Qed.

Lemma out_step {A B} (m : M P A) (k : A -> M P B) c c' a p out room Q E :
  moves top m c c' a -> dense_out p c out room ->
  (forall p', dense_out p' c' out room -> runs (k a) p' Q E) -> runs (bind m k) p Q E.
Proof using Type.
  intros Hm [Hp Ho] Hk. eapply moves_step; [exact Hm|exact Hp|]. intros p' Hb Hp'. apply Hk.
  split; [done|]. by rewrite Hb.
Qed.

Lemma moves_then (m : M P unit) (m' : M P Z) c c1 c2 e :
  moves top m c c1 tt -> dwrites m' c1 c2 e -> dwrites (do! m in m') c c2 e.
Proof using Type. intros Hm Hm' p out room Hp Hr. eapply out_step; [exact Hm|exact Hp|]. intros p1 Hp1. by apply Hm'. Qed.

Lemma then_moves (m : M P unit) c c' : moves top m c c' tt -> dwrites (do! m in ret 0) c c' [].
Proof using Type.
  intros Hm. eapply moves_then; [exact Hm|]. intros p out room Hp Hr. wp. by rewrite app_nil_r, Z.sub_0_r.
Qed.

Lemma writes_based (m : M (TBinaryProtocolT T) Z) c e :
  writes bin_out m [] [] e -> dwrites (based m) c c e.
Proof using Type.
  intros Hm p out room [Hp Ho] Hr. unfold based. wp. eapply runs_mono; [by apply (Hm _ out room)| |done].
  cbn. intros n b [-> Hb]. done.
Qed.

(** Bytes given to the transport, then the rest. *)
Lemma trans_step {A} d (k : unit -> M P A) c p out room Q E :
  dense_out p c out room -> zlen d <= room -> zlen d < 2 ^ 32 ->
  (forall p', dense_out p' c (out ++ d) (room - zlen d) -> runs (k tt) p' Q E) ->
  runs (bind (on_trans (t_write d)) k) p Q E.
Proof using Type.
  intros [Hp Ho] Hr Hd Hk. unfold on_trans, based, under. wp.
  eapply runs_mono; [by apply (write_ok _ out room d)| |done]. cbn. intros [] t Ht. by apply Hk.
Qed.

(** ** Quantities *)

Lemma vlqWrite_loop n p : in_u 64 n ->
  succeeds (iterate 11 vlq_round (8, Z.shiftr n 7, [Z.land n 0x7f])) p
    (fun r p' => r = (9 - zlen (vlq n), vlq n) /\ p' = p).
Proof using Type.
  unfold in_u. intros Hn.
  apply (runs_iterate_budget (fun k a p' => p' = p /\ exists j, Z.of_nat j = k /\ 0 <= a.1.2 < 128 ^ k /\
    a.1.1 = 9 - zlen a.2 /\ zlen a.2 + k <= 10 /\ vlq_high j a.1.2 ++ a.2 = vlq n)) with (n := 9); [| |lia].
  - intros k [[pos v] buf] p1 (-> & j & <- & Hv & Hpos & Hlen & Heq). cbn [fst snd] in *. unfold vlq_round. bif.
    + destruct j as [|j]; [cbn in Hv; lia|]. cbn [vlq_high] in Heq. replace (v =? 0) with false in Heq by lia.
      rewrite Nat2Z.inj_succ, Z.pow_succ_r in * by lia. wp. apply runs_assert; [lia|]. wp.
      exists (Z.of_nat j). split; [lia|]. split; [done|]. exists j. cbn [fst snd].
      rewrite Z.shiftr_div_pow2 by lia. change (2 ^ 7) with 128. rewrite u8_lor_128 by lia. rewrite zlen_cons.
      split_and!; [done|dlia|apply Z.div_lt_upper_bound; lia|lia|lia|]. by rewrite <- app_assoc in Heq.
    + replace v with 0 in * by lia. assert (buf = vlq n) as <- by (by destruct j). wp. by rewrite Hpos.
  - split; [done|]. exists 9%nat. cbn [fst snd]. rewrite Z.shiftr_div_pow2, land_127 by lia. change (2 ^ 7) with 128.
    change (zlen [_]) with 1. change (128 ^ 9) with (2 ^ 63). split_and!; [done|dlia|dlia|done|done|done].
Qed.

Lemma writes_vlq c n : in_u 64 n -> dwrites (vlqWrite n) c c (vlq n).
Proof using Type.
  intros Hn p out room Hp Hr. unfold vlqWrite, VLQ_BYTES. pose proof (zlen_vlq n).
  apply runs_bind. eapply runs_mono; [by apply (vlqWrite_loop n p)| |done]. cbn beta. intros r p1 [-> ->].
  eapply trans_step; [exact Hp|lia|lia|]. intros p1 Hp1. wp. split; [|done].
  rewrite wrapu_small by (unfold in_u; lia). lia.
Qed.

Lemma u64_in z : in_u 64 (u64 z).
Proof using Type. apply wrapu_range. lia. Qed.

Lemma writes_size c n : 0 <= n < 2 ^ 31 -> dwrites (subWriteI32 (s32 n)) c c (vlq n).
Proof using Type.
  intros Hn. unfold subWriteI32. rewrite wraps_small by (try unfold in_s; lia).
  rewrite wrapu_small by (unfold in_u; lia). apply writes_vlq. unfold in_u. lia.
Qed.

Lemma writes_sub_string c s : zlen s < 2 ^ 31 -> dwrites (subWriteString s) c c (vlq (zlen s) ++ s).
Proof using Type.
  intros Hs p out room Hp Hr. unfold subWriteString. pose proof (zlen_nonneg s). rewrite zlen_app in *.
  pose proof (zlen_vlq (zlen s)). replace (_ <? zlen s) with false by lia.
  rewrite (wrapu_small 32 (zlen s)) by (unfold in_u; lia).
  eapply writes_step; [apply writes_size; lia|exact Hp|lia|]. intros p1 Hp1. bif.
  - eapply trans_step; [exact Hp1|lia|lia|]. intros p2 Hp2. wp. split; [by autorewrite with wrap|].
    eapply dense_out_eq; [exact Hp2|by rewrite app_assoc|lia].
  - assert (s = []) as -> by (apply zlen_0; lia). wp. rewrite zlen_nil, !Z.add_0_r, app_nil_r.
    split; [by autorewrite with wrap|exact Hp1].
Qed.

(** ** Scalars *)

Lemma writes_scalar t c c' ty m e :
  has_type t ty = true -> after t c = Some c' -> dwrites m c' c' e -> dwrites (scalar ty m) (before t c) c' e.
Proof using All.
  intros Ht Ha Hm. eapply moves_then; [by apply moves_check|]. eapply moves_then; [by apply moves_transition|done].
Qed.

(** ** Fields *)

Section Fields.
Context (t : Z) (c : stacks) (sp : TypeSpec) (metas : list FieldMeta) (specs : list Z).
Context (Hsp : typespecs !! t = Some sp) (Hparts : parts sp = tstruct metas specs).
Abbreviation C := (fun i => in_struct i (before t c)).

Lemma absent_loop id i n m tf r p out room :
  0 <= i -> find_field id (zdrop i (zip metas specs)) = Some (n, (m, tf), r) ->
  dense_out p (C i) out room -> n <= room ->
  succeeds (iterate (zlen metas + 2) (absent_round id) 0) p (fun x p' =>
    x = u32 n /\ dense_out p' (C (i + n)) (out ++ absent n) (room - n)).
Proof using All.
  intros Hi Hf Hp Hr. destruct (find_field_spec _ _ _ _ _ _ Hf) as (Htag & Hn & Hd & Hall).
  assert (zlen (zip metas specs) <= zlen metas) as Hzip by (unfold zlen; rewrite length_zip; lia).
  assert (n < zlen metas) as Hlt by (rewrite zlen_zdrop in Hn; pose proof (zlen_nonneg metas); lia).
  apply (runs_iterate_budget (fun k x p' => exists j, k = n - j /\ 0 <= j <= n /\ x = u32 j /\
    dense_out p' (C (i + j)) (out ++ absent j) (room - j))) with (n := n); [| |lia].
  - intros k x p1 (j & -> & Hj & -> & Hp1). unfold absent_round.
    destruct (Z.eq_dec j n) as [->|Hne].
    + assert (zdrop (i + n) (zip metas specs) = (m, tf) :: r) as Hd' by (by rewrite Z.add_comm, <- zdrop_zdrop by lia).
      eapply out_step; [by eapply (moves_FMT top t (ts c) (idx c) (mkv c) sp metas specs Hsp Hparts (i + n)); [lia|]|exact Hp1|].
      intros p2 Hp2. replace (tag m =? id) with true by lia. wp. done.
    + destruct (zdrop_before _ j n (zdrop i (zip metas specs)) ltac:(lia) ltac:(lia) Hall) as ([m' t'] & r' & Hdj & Hneq & Hopt & f & Hfs & Hst).
      rewrite Z.add_comm in Hp1. cbn [fst snd] in *.
      assert (zdrop (j + i) (zip metas specs) = (m', t') :: r') as Hd' by (by rewrite <- zdrop_zdrop by lia).
      eapply out_step; [by eapply (moves_FMT top t (ts c) (idx c) (mkv c) sp metas specs Hsp Hparts (j + i)); [lia|]|exact Hp1|].
      intros p2 Hp2. replace (tag m' =? id) with false by lia.
      eapply out_step; [by eapply (moves_FTS top t (ts c) (idx c) (mkv c) sp metas specs Hsp Hparts (j + i)); [|lia|]|exact Hp2|].
      intros p3 Hp3. eapply out_step; [apply moves_assert; by apply negb_true_iff, Z.eqb_neq|exact Hp3|]. intros p4 Hp4.
      eapply out_step; [by eapply (moves_FMT top t (ts c) (idx c) (mkv c) sp metas specs Hsp Hparts (j + i)); [lia|]|exact Hp4|].
      intros p5 Hp5. eapply out_step; [by apply moves_assert|exact Hp5|]. intros p6 Hp6.
      eapply writes_step; [apply writes_based, writeBool_ok|exact Hp6|change (zlen [_]) with 1; lia|]. intros p7 Hp7.
      eapply out_step; [apply (moves_next_field top (j + i) (before t c))|exact Hp7|]. intros p8 Hp8. wp.
      exists (n - (j + 1)). split; [lia|]. exists (j + 1). change (zlen [_]) with 1 in *. split_and!; [done|lia|lia| |].
      * by autorewrite with wrap.
      * replace (i + (j + 1)) with (j + i + 1) by lia. eapply dense_out_eq; [exact Hp8| |lia].
        unfold absent, zrep. rewrite <- app_assoc. f_equal. replace (Z.to_nat (j + 1)) with (Z.to_nat j + 1)%nat by lia.
        by rewrite replicate_add.
  - exists 0. rewrite Z.add_0_r, !Z.sub_0_r, app_nil_r. split_and!; [done|lia|lia|done|done].
Qed.

Lemma writes_fieldBegin name id i n m tf r ft :
  0 <= i -> find_field id (zdrop i (zip metas specs)) = Some (n, (m, tf), r) -> has_type tf ft = true ->
  dwrites (writeFieldBegin name ft id) (C i) (at_field (C (i + n)) tf) (absent n ++ present m).
Proof using All.
  intros Hi Hf Hft p out room Hp Hr. destruct (find_field_spec _ _ _ _ _ _ Hf) as (Htag & Hn & Hd & _).
  destruct (has_type_spec _ _ Hft) as (f & Hfs & <-).
  assert (zdrop (i + n) (zip metas specs) = (m, tf) :: r) as Hd' by (by rewrite Z.add_comm, <- zdrop_zdrop by lia).
  assert (zlen (absent n) = n) as Habs by (unfold absent; rewrite zlen_zrep; lia).
  rewrite zlen_app, Habs in *. pose proof (zlen_nonneg (present m)). unfold writeFieldBegin.
  eapply out_step; [by eapply (moves_field_rounds top t (ts c) (idx c) (mkv c) sp metas specs)|exact Hp|]. intros p1 Hp1.
  apply runs_bind. eapply runs_mono; [eapply (absent_loop id i n m tf r p1); [done|done|exact Hp1|lia]| |done].
  cbn beta. intros x p2 [-> Hp2].
  eapply out_step; [by eapply (moves_FTS top t (ts c) (idx c) (mkv c) sp metas specs Hsp Hparts (i + n)); [|lia|]|exact Hp2|].
  intros p3 Hp3. eapply out_step; [apply moves_assert, Z.eqb_refl|exact Hp3|]. intros p4 Hp4.
  eapply out_step; [by eapply (moves_FMT top t (ts c) (idx c) (mkv c) sp metas specs Hsp Hparts (i + n)); [lia|]|exact Hp4|].
  intros p5 Hp5. unfold present in *.
  assert (Hopt : runs (if is_optional m then do! subWriteBool true in ret (u32 (u32 n + 1)) else ret (u32 n)) p5
    (fun x p6 => x = u32 (n + zlen (present m)) /\
       dense_out p6 (C (i + n)) (out ++ absent n ++ present m) (room - (n + zlen (present m)))) (fun _ _ => False)).
  { unfold present in *. destruct (is_optional m).
    - change (zlen [1]) with 1 in *.
      eapply writes_step; [apply writes_based, writeBool_ok|exact Hp5|change (zlen [_]) with 1; lia|]. intros p6 Hp6. wp.
      split; [by autorewrite with wrap|]. change (zlen [_]) with 1 in *.
      eapply dense_out_eq; [exact Hp6|by rewrite app_assoc|lia].
    - wp. rewrite zlen_nil, Z.add_0_r, app_nil_r. split; [done|]. exact Hp5. }
  fold (present m) in *. apply runs_bind. eapply runs_mono; [exact Hopt| |done]. cbn beta. intros x p6 [-> Hp6].
  unfold at_field, has_type, type_at. rewrite Hfs. cbn [option_map].
  destruct (ttype f =? T_STOP) eqn:Hstop; breflect; cbn [negb].
  - rewrite bool_decide_eq_true_2 by congruence. wp. done.
  - rewrite bool_decide_eq_false_2 by congruence.
    eapply out_step; [eapply moves_bind;
      [by eapply (moves_FTS_address top t (ts c) (idx c) (mkv c) sp metas specs Hsp Hparts (i + n)); [lia|]
      |apply (moves_push_ts top tf (C (i + n)))]|exact Hp6|]. intros p7 Hp7. wp. done.
Qed.
End Fields.

(** ** Values *)

Context (lim : limits).
Abbreviation fits := (fits lim (string_ok lim) (in_ub 64)).
Abbreviation fits_fields := (fits_fields lim (string_ok lim) (in_ub 64)).

Definition written (v : tval) : Prop := forall t c c',
  fits t v = true -> after t c = Some c' -> dwrites (write_value v) (before t c) c' (d_enc t v).

Section Struct.
Context (t : Z) (c : stacks) (sp : TypeSpec) (metas : list FieldMeta) (specs : list Z).
Context (Hsp : typespecs !! t = Some sp) (Hty : ttype sp = T_STRUCT) (Hparts : parts sp = tstruct metas specs).
Abbreviation C := (fun i => in_struct i (before t c)).
Abbreviation fields := (zip metas specs).

Lemma writes_one_field f i n m tf r :
  0 <= i -> find_field f.1 (zdrop i fields) = Some (n, (m, tf), r) -> has_type tf T_STOP = false ->
  fits tf f.2 = true -> written f.2 ->
  dwrites (write_field f) (C i) (C (i + n + 1)) (absent n ++ present m ++ d_enc tf f.2).
Proof using All.
  intros Hi Hf Hstop Hfit Hv. destruct (find_field_spec _ _ _ _ _ _ Hf) as (_ & Hn & Hd & _).
  assert (zdrop (i + n) fields = (m, tf) :: r) as Hd' by (by rewrite Z.add_comm, <- zdrop_zdrop by lia).
  destruct (zip_at metas specs (i + n) m tf r ltac:(lia) Hd') as [_ Htf].
  assert (has_type tf (type_of f.2) = true) as Hft.
  { destruct f as [id v]. cbn [fst snd] in *. destruct v; cbn [DenseFormat.fits] in Hfit; by apply andb_true_iff in Hfit as [? _]. }
  pose proof (writes_fieldBegin t c sp metas specs Hsp Hparts (Some []) f.1 i n m tf r (type_of f.2) Hi Hf Hft) as Hb.
  unfold at_field in Hb. rewrite Hstop in Hb.
  pose proof (Hv tf (C (i + n)) (C (i + n)) Hfit (after_field _ _ _ _ _ _ _ Hsp Hty Hparts Htf)) as Hval.
  pose proof (then_moves next_field (C (i + n)) (C (i + n + 1)) (moves_next_field top (i + n) (before t c))) as He.
  pose proof (writes_then3 dense_out _ _ _ _ _ _ _ _ _ _ Hb Hval He) as Hall.
  unfold write_field. cbn [p_writeFieldBegin p_writeFieldEnd TDenseProtocol_protocol]. unfold writeFieldEnd.
  by rewrite app_nil_r, <- app_assoc in Hall.
Qed.

Lemma writes_dense_fields fs : Forall (fun f => written f.2) fs -> forall i p xfer out room,
  0 <= i -> fits_fields fs (zdrop i fields) = true -> dense_out p (C i) out room ->
  zlen (d_fields fs (zdrop i fields)) <= room ->
  succeeds (sum_over write_field xfer fs) p (fun x p' => exists j e,
    0 <= j /\ d_fields fs (zdrop i fields) = e ++ d_fields [] (zdrop j fields) /\ ends (zdrop j fields) = true /\
    u32 x = u32 (xfer + zlen e) /\ dense_out p' (C j) (out ++ e) (room - zlen e)).
Proof using All.
  induction 1 as [|f fs Hv _ IH]; intros i p xfer out room Hi Hfit Hp Hr; cbn [sum_over].
  - wp. exists i, []. change (zlen (@nil Z)) with 0. rewrite Z.add_0_r, Z.sub_0_r, app_nil_r. done.
  - cbn [DenseFormat.fits_fields d_fields] in *. destruct (find_field f.1 _) as [[[n [m tf]] l']|] eqn:Hf; [|done].
    apply andb_true_iff in Hfit as [Hfit Hrest]. apply andb_true_iff in Hfit as [Hstop Hfit]. apply negb_true_iff in Hstop.
    destruct (find_field_spec _ _ _ _ _ _ Hf) as (_ & Hn & Hd & _).
    assert (l' = zdrop (i + n + 1) fields) as ->.
    { replace (i + n + 1) with (1 + (n + i)) by lia. rewrite <- !zdrop_zdrop, Hd by lia. done. }
    set (e1 := absent n ++ present m ++ d_enc tf f.2).
    assert (absent n ++ present m ++ d_enc tf f.2 ++ d_fields fs (zdrop (i + n + 1) fields) =
            e1 ++ d_fields fs (zdrop (i + n + 1) fields)) as Heq by (unfold e1; by rewrite <- !app_assoc).
    rewrite Heq in *. rewrite zlen_app in Hr. pose proof (zlen_nonneg (d_fields fs (zdrop (i + n + 1) fields))).
    eapply writes_step; [by apply (writes_one_field f i n m tf _ Hi Hf)|exact Hp|fold e1; lia|]. fold e1. intros p1 Hp1.
    eapply runs_mono; [apply (IH (i + n + 1)); [lia|exact Hrest|exact Hp1|lia]| |done].
    cbn beta. intros x p2 (j & e & Hj & He & Hends & Hx & Hp2). exists j, (e1 ++ e). rewrite zlen_app.
    split_and!; [done|by rewrite He, app_assoc|done| |].
    + rewrite Hx. autorewrite with wrap. f_equal. lia.
    + eapply dense_out_eq; [exact Hp2|by rewrite app_assoc|lia].
Qed.

(** From the first field to the end of the struct. *)
Lemma writes_members fs c' : Forall (fun f => written f.2) fs -> fits_fields fs fields = true -> after t c = Some c' ->
  dwrites (let! xfer := sum_over write_field 0 fs in
           let! a := writeFieldStop in let! b := writeStructEnd in ret (u32 (u32 (xfer + a) + b)))
    (C 0) c' (d_fields fs fields).
Proof using All.
  intros Hv Hfit Ha p out room Hp Hr. apply runs_bind.
  eapply runs_mono; [apply (writes_dense_fields fs Hv 0); [lia|exact Hfit|exact Hp|exact Hr]| |done].
  cbn beta. change (zdrop 0 fields) with fields. intros x p1 (j & e & Hj & He & Hends & Hx & Hp1).
  rewrite He in *. rewrite zlen_app in *. unfold ends in Hends.
  cbn [d_fields] in *. destruct (find_field 0 _) as [[[n [m tf]] r]|] eqn:Hf; [|done].
  apply andb_true_iff in Hends as [Hopt Hstop]. apply negb_true_iff in Hopt.
  pose proof (writes_fieldBegin t c sp metas specs Hsp Hparts (Some []) 0 j n m tf r T_STOP Hj Hf Hstop) as Hb.
  unfold at_field, present in Hb. rewrite Hstop, Hopt, app_nil_r in Hb.
  pose proof (zlen_nonneg e). pose proof (zlen_nonneg (absent n)).
  eapply writes_step; [exact Hb|exact Hp1|lia|]. intros p2 Hp2. unfold writeStructEnd. apply runs_bind.
  eapply out_step; [apply (moves_pop_idx top (j + n) (before t c))|exact Hp2|]. intros p3 Hp3.
  eapply out_step; [by apply moves_transition|exact Hp3|]. intros p4 Hp4. wp.
  rewrite Z.add_0_r. autorewrite with wrap. split.
  - rewrite (u32_add_cong _ (0 + zlen e) _ (zlen (absent n)) Hx eq_refl). by rewrite Z.add_0_l.
  - eapply dense_out_eq; [exact Hp4|by rewrite app_assoc|lia].
Qed.
End Struct.

(** Header, elements and end of a container. *)
Lemma writes_elements {A} (m e : M P Z) (f : A -> M P Z) (enc1 : A -> list Z) c1 c2 c3 hd xs :
  dwrites m c1 c2 hd -> (forall x, In x xs -> dwrites (f x) c2 c2 (enc1 x)) -> dwrites e c2 c3 [] ->
  dwrites (let! n := m in let! xfer := sum_over f n xs in let! a := e in ret (u32 (xfer + a)))
    c1 c3 (hd ++ concat (map enc1 xs)).
Proof using Type.
  intros Hm Hf He p out room Hp Hr. rewrite zlen_app in *. pose proof (zlen_nonneg hd).
  pose proof (zlen_nonneg (concat (map enc1 xs))).
  eapply writes_step; [exact Hm|exact Hp|lia|]. intros p1 Hp1.
  apply runs_bind. eapply runs_mono; [apply (sum_over_st dense_out f enc1 c2); [exact Hf|exact Hp1|lia]| |done].
  cbn beta. intros n p2 (Hn & _ & Hp2). eapply writes_nil_end; [exact He|exact Hp2|lia|]. intros p3 Hp3. wp.
  rewrite Z.add_0_r, Hn. autorewrite with wrap. split; [done|].
  eapply dense_out_eq; [exact Hp3|by rewrite app_assoc|lia].
Qed.

Lemma container_of t c c' sp v st1 st2 :
  typespecs !! t = Some sp -> fits t v = true -> parts_at t = tcontainer st1 st2 -> parts sp = tcontainer st1 st2.
Proof using Type. intros Hsp _. unfold parts_at. by rewrite Hsp. Qed.

(** A list or a set. *)
Lemma writes_list ty t c c' et xs sp st1 st2 :
  typespecs !! t = Some sp -> ttype sp = ty -> ty = T_LIST \/ ty = T_SET -> parts sp = tcontainer st1 st2 ->
  has_type st1 et = true -> zlen xs < 2 ^ 31 -> Forall written xs -> forallb (fits st1) xs = true ->
  after t c = Some c' ->
  dwrites (let! n := write_elements ty et (zlen xs) in let! xfer := sum_over write_value n xs in
           let! a := elements_end in ret (u32 (xfer + a)))
    (before t c) c' (vlq (zlen xs) ++ concat (map (d_enc st1) xs)).
Proof using All.
  intros Hsp Hty Hls Hparts Het Hlen Hv Hfit Ha. pose proof (zlen_nonneg xs).
  destruct (has_type_spec _ _ Het) as (sp1 & Hsp1 & Hty1).
  eapply (writes_elements _ _ _ (d_enc st1) _ (before st1 (before t c))).
  - unfold write_elements.
    eapply moves_then; [apply moves_check; unfold has_type, type_at; rewrite Hsp; by apply bool_decide_eq_true_2; cbn; congruence|].
    intros p out room Hp Hr.
    eapply out_step; [by apply (moves_ST1 top t (ts c) (idx c) (mkv c) sp Hsp st1 st2)|exact Hp|]. intros p1 Hp1.
    eapply out_step; [by apply (moves_there top (typespecs !! st1) sp1)|exact Hp1|]. intros p2 Hp2.
    eapply out_step; [apply moves_assert; by apply Z.eqb_eq|exact Hp2|]. intros p3 Hp3.
    eapply out_step; [apply (moves_push_ts top st1 (before t c))|exact Hp3|]. intros p4 Hp4.
    apply writes_size; [lia|exact Hp4|exact Hr].
  - intros x Hx. rewrite List.Forall_forall, forallb_forall in *. apply (Hv x Hx); [by apply Hfit|].
    eapply after_element; [exact Hsp| |exact Hparts]. rewrite Hty. exact Hls.
  - eapply moves_then; [apply moves_pop_ts|]. apply then_moves. by apply moves_transition.
Qed.

Lemma writes_map t c c' kt vt es sp st1 st2 :
  typespecs !! t = Some sp -> ttype sp = T_MAP -> parts sp = tcontainer st1 st2 ->
  has_type st1 kt = true -> has_type st2 vt = true -> zlen es < 2 ^ 31 ->
  Forall (fun e => written e.1 /\ written e.2) es ->
  forallb (fun e => fits st1 e.1 && fits st2 e.2)%bool es = true -> after t c = Some c' ->
  dwrites (let! n := writeMapBegin kt vt (zlen es) in
           let! xfer := sum_over (fun e => let! a := write_value e.1 in
                                           let! b := write_value e.2 in ret (u32 (a + b))) n es in
           let! a := writeMapEnd in ret (u32 (xfer + a)))
    (before t c) c' (vlq (zlen es) ++ concat (map (fun e => d_enc st1 e.1 ++ d_enc st2 e.2) es)).
Proof using All.
  intros Hsp Hty Hparts Hkt Hvt Hlen Hv Hfit Ha. pose proof (zlen_nonneg es).
  destruct (has_type_spec _ _ Hkt) as (sp1 & Hsp1 & Hty1). destruct (has_type_spec _ _ Hvt) as (sp2 & Hsp2 & Hty2).
  eapply (writes_elements _ _ _ (fun e => d_enc st1 e.1 ++ d_enc st2 e.2) _ (before st1 (in_map true (before t c)))).
  - unfold writeMapBegin.
    eapply moves_then; [apply moves_check; unfold has_type, type_at; rewrite Hsp; by apply bool_decide_eq_true_2; cbn; congruence|].
    intros p out room Hp Hr.
    eapply out_step; [by apply (moves_subtypes top t (ts c) (idx c) (mkv c) sp Hsp st1 st2)|exact Hp|]. intros p1 Hp1.
    eapply out_step; [by apply (moves_there top (typespecs !! st1) sp1)|exact Hp1|]. intros p2 Hp2.
    eapply out_step; [apply moves_assert; by apply Z.eqb_eq|exact Hp2|]. intros p3 Hp3.
    eapply out_step; [by apply (moves_there top (typespecs !! st2) sp2)|exact Hp3|]. intros p4 Hp4.
    eapply out_step; [apply moves_assert; by apply Z.eqb_eq|exact Hp4|]. intros p5 Hp5.
    eapply out_step; [apply (moves_push_ts top st1 (before t c))|exact Hp5|]. intros p6 Hp6.
    eapply out_step; [apply (moves_push_mkv top (before st1 (before t c)))|exact Hp6|]. intros p7 Hp7.
    apply writes_size; [lia|exact Hp7|exact Hr].
  - intros e He. rewrite List.Forall_forall, forallb_forall in *. destruct (Hv e He) as [Hk Hx].
    specialize (Hfit e He). apply andb_true_iff in Hfit as [Hf1 Hf2].
    eapply writes_then; [apply (Hk st1 (in_map true (before t c))); [done|]|apply (Hx st2 (in_map false (before t c))); [done|]].
    + exact (after_entry t c sp st1 st2 true Hsp Hty Hparts).
    + exact (after_entry t c sp st1 st2 false Hsp Hty Hparts).
  - eapply moves_then; [apply (moves_pop_ts top st1 (in_map true (before t c)))|].
    eapply moves_then; [apply (moves_pop_mkv top true (before t c))|]. apply then_moves. by apply moves_transition.
Qed.

(** [write_value] puts the encoding of a value of the type on the wire. *)
Lemma write_value_dense v : written v.
Proof using All.
  induction v as [b|z|z|z|z|z|s|fs IH|kt vt es IH|et l IH|et l IH|ty] using tval_nested_ind;
    intros t c c' Hfit Ha; cbn [DenseFormat.fits type_of] in Hfit; apply andb_true_iff in Hfit as [Ht Hfit].
  - apply (writes_scalar t c c'); [done|done|]. apply writes_based, writeBool_ok.
  - apply (writes_scalar t c c'); [done|done|]. apply writes_based, (writeByte_ok []).
  - apply (writes_scalar t c c'); [done|done|]. apply writes_vlq, u64_in.
  - apply (writes_scalar t c c'); [done|done|]. apply writes_vlq, u64_in.
  - apply (writes_scalar t c c'); [done|done|]. apply writes_vlq, u64_in.
  - apply (writes_scalar t c c'); [done|done|]. apply writes_based, writeDouble_ok. auto with thrift.
  - apply string_ok_true in Hfit as (Hs & _ & _). apply (writes_scalar t c c'); [done|done|]. by apply writes_sub_string.
  - destruct (has_type_spec _ _ Ht) as (sp & Hsp & Hty). unfold fields_at in Hfit. rewrite Hsp in Hfit. cbn [from_option] in Hfit.
    unfold fields_of in Hfit. change (fits_fields fs (fields_of sp) = true) in Hfit. rewrite d_enc_struct. unfold fields_at. rewrite Hsp. cbn [from_option].
    unfold fields_of in *. destruct (parts sp) as [|metas specs|] eqn:Hparts; try (by destruct fs).
    intros p out room Hp Hr. cbn [write_value p_writeStructBegin TDenseProtocol_protocol]. unfold writeStructBegin at 1.
    apply runs_bind. eapply out_step; [apply moves_get_ts|exact Hp|]. cbn [ts before]. intros p1 Hp1.
    eapply out_step; [apply moves_ret|exact Hp1|]. intros p2 Hp2.
    eapply out_step; [apply (moves_push_idx top (before t c))|exact Hp2|]. intros p3 Hp3. apply runs_ret.
    by apply (writes_members t c sp metas specs Hsp Hty Hparts fs c' IH Hfit Ha p3 out room).
  - destruct (has_type_spec _ _ Ht) as (sp & Hsp & Hty). cbn [d_enc]. unfold parts_at in *. rewrite Hsp in *. cbn [from_option] in *.
    destruct (parts sp) as [| |st1 st2] eqn:Hparts; try done. breflect.
    match goal with H : count_ok _ _ = true |- _ => apply count_ok_true in H as [? _] end.
    by apply (writes_map t c c' kt vt es sp st1 st2).
  - destruct (has_type_spec _ _ Ht) as (sp & Hsp & Hty). cbn [d_enc]. unfold parts_at in *. rewrite Hsp in *. cbn [from_option] in *.
    destruct (parts sp) as [| |st1 st2] eqn:Hparts; try done. breflect.
    match goal with H : count_ok _ _ = true |- _ => apply count_ok_true in H as [? _] end.
    apply (writes_list T_SET t c c' et l sp st1 st2); auto.
  - destruct (has_type_spec _ _ Ht) as (sp & Hsp & Hty). cbn [d_enc]. unfold parts_at in *. rewrite Hsp in *. cbn [from_option] in *.
    destruct (parts sp) as [| |st1 st2] eqn:Hparts; try done. breflect.
    match goal with H : count_ok _ _ = true |- _ => apply count_ok_true in H as [? _] end.
    apply (writes_list T_LIST t c c' et l sp st1 st2); auto.
  - done.
Qed.
End Writer.
