(* ===== verification/DenseReader.v ===== *)
(** * Reading with the dense protocol

    Every operation of TDenseProtocol.cpp that reads takes the bytes of [d_enc] and
    moves the stacks as the writer does; and on any bytes at all it throws or
    answers a value, and never fails an assertion. *)

From S2P Require Export DenseStacks.

Section Reader.
Context `{Platform} `{!Unbounded} `{TypeSpecs} {T : Type} `{ReadLaws T}.
Context (top : option Z) (Htop : top <> None) (lim : limits).
Abbreviation P := (TDenseProtocol T).
Implicit Types (p : P) (c : stacks).

Definition dense_in p c (bs : list Z) : Prop := dense_at top p c /\ bin_in lim (base_ p) [] bs.
Abbreviation dreads := (reads dense_in).
Abbreviation dany := (any_input dense_in).

Lemma in_step {A B} (m : M P A) (k : A -> M P B) c c' a p bs Q E :
  moves top m c c' a -> dense_in p c bs ->
  (forall p', dense_in p' c' bs -> runs (k a) p' Q E) -> runs (bind m k) p Q E.
Proof using Type.
  intros Hm [Hp Hi] Hk. eapply moves_step; [exact Hm|exact Hp|]. intros p' Hb Hp'. apply Hk.
  split; [done|]. by rewrite Hb.
Qed.

Lemma reads_after {A} (m : M P unit) (m' : M P (Z * A)) c c1 c2 e a :
  moves top m c c1 tt -> dreads m' c1 c2 e a -> dreads (do! m in m') c c2 e a.
Proof using Type. intros Hm Hm' p rest Hp. eapply in_step; [exact Hm|exact Hp|]. intros p1 Hp1. by apply Hm'. Qed.

Lemma any_after {A} (m : M P unit) (m' : M P (Z * A)) c c1 c2 k V :
  moves top m c c1 tt -> dany m' c1 c2 k V -> dany (do! m in m') c c2 k V.
Proof using Type. intros Hm Hm' p bs Hp. eapply in_step; [exact Hm|exact Hp|]. intros p1 Hp1. by apply Hm'. Qed.

Lemma moves_read_nothing (m : M P unit) c c' : moves top m c c' tt -> reads_nothing dense_in (do! m in ret 0) c c'.
Proof using Type. intros Hm p bs Hp. eapply in_step; [exact Hm|exact Hp|]. intros p1 Hp1. by wp. Qed.

Lemma reads_based {A} (m : M (TBinaryProtocolT T) (Z * A)) c e a :
  reads (bin_in lim) m [] [] e a -> dreads (based m) c c e a.
Proof using Type.
  intros Hm p rest [Hp Hi]. unfold based. wp. eapply runs_mono; [by apply (Hm _ rest)| |done].
  cbn. intros r b [-> Hb]. done.
Qed.

Lemma any_based {A} (m : M (TBinaryProtocolT T) (Z * A)) c k V :
  any_input (bin_in lim) m [] [] k V -> dany (based m) c c k V.
Proof using Type.
  intros Hm p bs [Hp Hi]. unfold based. wp. eapply runs_mono; [by apply (Hm _ bs)| |done].
  cbn. intros r b (HV & bs' & Hb & Hle). split; [done|]. by exists bs'.
Qed.

Lemma runs_reset {A} p c bs (m : M P A) Q E :
  dense_in p c bs -> (forall p', dense_in p' (Stacks [] [] []) bs -> runs m p' Q E) ->
  runs (do! resetState in m) p Q E.
Proof using Type.
  intros [(Hts & Hidx & Hmkv & Hspec & Hst) Hi] Hk. unfold resetState. wp. apply Hk. split; [|done]. by split_and!.
Qed.

(** ** Quantities: the borrowed path and the byte-by-byte path read the same *)

Definition vlq_post c (bs : list Z) (r : varint_result) : Z * Z -> P -> Prop :=
  fun x p' => match r with VDone v u => x = (u, v) /\ dense_in p' c (zdrop u bs) | _ => False end.
(** After an overlong quantity the stacks are empty, after the end of the input they stay. *)
Definition vlq_exn c (r : varint_result) : exn -> P -> Prop :=
  fun e p' => match r with
              | VDone _ _ => False
              | VOverlong => e = vlq_too_long /\ dense_at top p' (Stacks [] [] [])
              | VShort => stream_end e /\ dense_at top p' c
              end.

Definition parse_from (bs : list Z) (a : Z * Z) : varint_result :=
  parse_vlq (Z.to_nat (9 - a.1)) a.1 a.2 (zdrop a.1 bs).

Lemma zdrop_head i (b : list Z) x l : 0 <= i -> zdrop i b = x :: l -> zdrop (i + 1) b = l /\ znth b i = Some x.
Proof using Type.
  intros Hi Hd. rewrite Z.add_comm, <- zdrop_zdrop, Hd by lia. split; [done|].
  unfold znth, zdrop in *. replace (i <? 0) with false by lia.
  rewrite <- (Nat.add_0_r (Z.to_nat i)), <- lookup_drop, Hd. done.
Qed.

Lemma fast_vlq b c bs p :
  dense_in p c bs -> lent (BinaryProtocol.trans_ (base_ p)) bs (zlen b) -> b = ztake (zlen b) bs -> 10 <= zlen b ->
  runs (iterate 11 (fast_round b) (0, 0)) p (vlq_post c bs (parse_vlq 9 0 0 b)) (vlq_exn c (parse_vlq 9 0 0 b)).
Proof using Type.
  intros Hp Hlent Hb Hlen.
  apply (runs_iterate (fun a p' => p' = p /\ 0 <= a.1 <= 9 /\ parse_from b a = parse_vlq 9 0 0 b) (fun a => 9 - a.1));
    [|done|done].
  intros [used val] p1 (-> & Hr & Hparse). cbn [fst] in Hr. unfold fast_round. rewrite <- Hparse.
  unfold parse_from. cbn [fst snd]. destruct (zdrop used b) as [|byte l] eqn:Hd.
  { pose proof (zlen_zdrop used b) as Hz. rewrite Hd in Hz. zlist. }
  destruct (zdrop_head used b byte l) as [Hd' Hn]; [lia|done|]. rewrite Hn. cbn [there]. wp.
  destruct (Z.to_nat (9 - used)) as [|more] eqn:Hmore; cbn [parse_vlq]; destruct (Z.land byte 128 =? 0) eqn:Hbit.
  1, 3: unfold on_trans, based, under; wp; eapply runs_mono;
    [apply (consume_ok _ (used + 1) _ _ Hlent); lia| |done]; cbn; intros _ t Ht; wp;
    destruct Hp as (? & ? & ?); by split_and!.
  - replace (used + 1 =? VLQ_BYTES) with true by (unfold VLQ_BYTES; lia).
    unfold too_long. eapply runs_reset; [exact Hp|]. intros p' [Hp' _]. by wp.
  - replace (used + 1 =? VLQ_BYTES) with false by (unfold VLQ_BYTES; lia). wp. cbn [fst]. split; [|lia].
    split_and!; [done|lia|lia|]. cbn [fst snd]. rewrite Hd'. by replace (Z.to_nat (9 - (used + 1))) with more by lia.
Qed.

Lemma slow_vlq c bs p :
  dense_in p c bs ->
  runs (iterate 11 slow_round (0, 0)) p (vlq_post c bs (parse_vlq 9 0 0 bs)) (vlq_exn c (parse_vlq 9 0 0 bs)).
Proof using Type.
  intros Hp.
  apply (runs_iterate (fun a p' => dense_in p' c (zdrop a.1 bs) /\ 0 <= a.1 <= 9 /\
      parse_from bs a = parse_vlq 9 0 0 bs) (fun a => 9 - a.1)); [|done|done].
  intros [used val] p1 (Hp1 & Hr & Hparse). cbn [fst] in Hr, Hp1. unfold slow_round. rewrite <- Hparse.
  unfold parse_from. cbn [fst snd]. unfold on_trans, based, under. destruct Hp1 as [Hp1 Hin1].
  destruct (zdrop used bs) as [|byte l] eqn:Hd.
  { wp. pose proof Hin1 as (Hin & _). destruct (Z.to_nat (9 - used)); cbn [parse_vlq];
      (eapply runs_mono; [by apply (readAll_eof _ 1 [] Hin)|done|cbn; done]). }
  destruct (zdrop_head used bs byte l) as [Hd' Hn]; [lia|done|]. wp. pose proof Hin1 as (Hin & Hlim & Hbuf).
  eapply runs_mono; [by apply (readAll_ok _ 1 [byte] l Hin)| |done]. cbn. intros r t [-> Ht]. rewrite load_1.
  assert (dense_in (set_base (BinaryProtocol.set_trans t (base_ p1)) p1) c l) as Hp2 by (by split_and!).
  change (zlen [byte]) with 1.
  destruct (Z.to_nat (9 - used)) as [|more] eqn:Hmore; cbn [parse_vlq]; destruct (Z.land byte 128 =? 0) eqn:Hbit.
  1, 3: wp; unfold vlq_post; rewrite Hd'; done.
  - replace (VLQ_BYTES <=? used + 1) with true by (unfold VLQ_BYTES; lia).
    unfold too_long. eapply runs_reset; [exact Hp2|]. intros p' [Hp' _]. by wp.
  - replace (VLQ_BYTES <=? used + 1) with false by (unfold VLQ_BYTES; lia). wp. cbn [fst snd]. rewrite Hd'.
    split; [|lia]. split_and!; [done|lia|lia|]. by replace (Z.to_nat (9 - (used + 1))) with more by lia.
Qed.

Lemma vlqRead_spec c bs p :
  dense_in p c bs ->
  runs vlqRead p (vlq_post c bs (parse_vlq 9 0 0 bs)) (vlq_exn c (parse_vlq 9 0 0 bs)).
Proof using Type.
  intros Hp. pose proof Hp as (Hat & Hin & Hlim & Hbuf). unfold vlqRead, on_trans, based, under, VLQ_BYTES. wp.
  eapply runs_mono; [apply (borrow_ok _ 10 _ Hin); done| |done].
  cbn beta. intros [b|] t Hb.
  - destruct Hb as (Hle & Hbs & Hlent).
    assert (parse_vlq 9 0 0 bs = parse_vlq 9 0 0 b) as ->.
    { rewrite Hbs. symmetry. apply parse_vlq_take. lia. }
    apply fast_vlq; [|done|done|done]. split; [done|]. split_and!; try done. by apply lent_incoming with (zlen b).
  - by apply slow_vlq.
Qed.

Lemma reads_vlq c n : in_u 64 n -> dreads vlqRead c c (vlq n) n.
Proof using Type.
  intros Hn p rest Hp. pose proof (vlqRead_spec c _ p Hp) as Hs. rewrite parse_vlq_vlq in Hs by done.
  pose proof (zlen_vlq n). eapply runs_mono; [exact Hs| |done]. cbn. intros r p' [-> Hp'].
  rewrite zdrop_app in Hp' by done. split; [|done]. f_equal. symmetry. apply wrapu_small. unfold in_u. lia.
Qed.

Lemma any_vlq c : dany vlqRead c c 1 (fun _ => True).
Proof using Type.
  intros p bs Hp. eapply runs_mono; [by apply vlqRead_spec| |done].
  unfold vlq_post. destruct (parse_vlq 9 0 0 bs) as [v u| |] eqn:Hv; [|done|done].
  cbn. intros r p' [-> Hp']. split; [done|]. exists (zdrop u bs). split; [done|]. apply parse_vlq_used in Hv. zlist.
Qed.

(** ** Signed integers and strings *)

Lemma reads_signed w what c z : 1 <= w <= 64 -> in_s w z -> dreads (vlq_signed w what) c c (vlq (u64 z)) z.
Proof using Type.
  intros Hw Hz p rest Hp. unfold vlq_signed.
  assert (in_s 64 z) as H64.
  { unfold in_s in *. assert (2 ^ (w - 1) <= 2 ^ 63) by (apply Z.pow_le_mono_r; lia). change (64 - 1) with 63. lia. }
  eapply reads_step; [apply (reads_vlq c (u64 z)), wrapu_range; lia|exact Hp|]. intros p1 Hp1. cbv beta iota zeta.
  rewrite wraps_wrapu, (wraps_small 64) by (lia || done).
  unfold in_s in Hz. replace (2 ^ (w - 1) - 1 <? z) with false by lia. replace (z <? - 2 ^ (w - 1)) with false by lia.
  wp. by rewrite wraps_small by (lia || done).
Qed.

Lemma any_signed w what c : 1 <= w -> dany (vlq_signed w what) c c 1 (in_s w).
Proof using Type.
  intros Hw p bs Hp. unfold vlq_signed. eapply any_step; [apply any_vlq|exact Hp|].
  intros n v p1 bs1 _ Hp1 Hle. cbv zeta. destruct (_ || _)%bool.
  - eapply runs_reset; [exact Hp1|]. intros. by wp.
  - wp. split; [by apply wraps_range|]. by exists bs1.
Qed.

Lemma reads_size_int c n : 0 <= n < 2 ^ 31 -> dreads subReadI32 c c (vlq n) n.
Proof using Type.
  intros Hn. replace (vlq n) with (vlq (u64 n)) by (f_equal; apply wrapu_small; unfold in_u; lia).
  apply reads_signed; [lia|unfold in_s; lia].
Qed.

Lemma reads_sub_string c s : zlen s < 2 ^ 31 -> string_over lim (zlen s) = false ->
  dreads subReadString c c (vlq (zlen s) ++ s) s.
Proof using All.
  intros Hs Hover p rest Hp. rewrite <- app_assoc in Hp. pose proof (zlen_nonneg s). unfold subReadString.
  eapply reads_step; [apply (reads_size_int c (zlen s)); lia|exact Hp|]. intros p1 Hp1. cbv beta iota.
  eapply reads_step; [apply reads_based; by apply readStringBody_ok|exact Hp1|]. intros p2 Hp2. wp.
  rewrite zlen_app. by autorewrite with wrap.
Qed.

Lemma any_sub_string c : dany subReadString c c 1 (fun s => size_ok lim s = true).
Proof using All.
  intros p bs Hp. unfold subReadString.
  eapply any_step; [by apply any_signed|exact Hp|]. intros n size p1 bs1 Hs Hp1 Hle.
  eapply any_step; [apply any_based; by apply readStringBody_total|exact Hp1|]. intros m s p2 bs2 Hok Hp2 Hle2.
  wp. split; [done|]. exists bs2. split; [done|lia].
Qed.

(** ** Scalars and sizes *)

Lemma reads_scalar {A} t c c' ty (m : M P (Z * A)) e a :
  has_type t ty = true -> after t c = Some c' -> dreads m c' c' e a -> dreads (scalar ty m) (before t c) c' e a.
Proof using All.
  intros Ht Ha Hm. eapply reads_after; [by apply moves_check|]. eapply reads_after; [by apply moves_transition|done].
Qed.

Lemma any_scalar {A} t c c' ty (m : M P (Z * A)) k V :
  has_type t ty = true -> after t c = Some c' -> dany m c' c' k V -> dany (scalar ty m) (before t c) c' k V.
Proof using All.
  intros Ht Ha Hm. eapply any_after; [by apply moves_check|]. eapply any_after; [by apply moves_transition|done].
Qed.

Lemma reads_read_size c n : 0 <= n < 2 ^ 31 -> container_over lim n = false -> dreads read_size c c (vlq n) n.
Proof using Type.
  intros Hn Hover p rest Hp. unfold read_size.
  eapply reads_step; [by apply (reads_size_int c n)|exact Hp|]. intros p1 Hp1. wp.
  pose proof Hp1 as (_ & _ & Hlim & _). rewrite Hlim, Hover. replace (n <? 0) with false by lia. wp.
  by rewrite (wrapu_small 32 n) by (unfold in_u; lia).
Qed.

Lemma any_read_size c : dany read_size c c 1 (fun n => 0 <= n /\ count_ok lim n = true).
Proof using Type.
  intros p bs Hp. unfold read_size. eapply any_step; [by apply any_signed|exact Hp|].
  intros n size p1 bs1 Hs Hp1 Hle. wp. pose proof Hp1 as (_ & _ & Hlim & _). rewrite Hlim. bif.
  { eapply runs_reset; [exact Hp1|]. intros. by wp. }
  bif. { eapply runs_reset; [exact Hp1|]. intros. by wp. }
  assert (0 <= size < 2 ^ 31) by (unfold in_s in Hs; change (32 - 1) with 31 in Hs; lia). wp.
  rewrite (wrapu_small 32 size) by (unfold in_u; lia). cbn [snd]. split; [|by exists bs1]. split; [lia|].
  unfold count_ok. apply andb_true_iff. split; [lia|]. by apply negb_true_iff.
Qed.

(** ** Fields *)

Section Fields.
Context (t : Z) (c : stacks) (sp : TypeSpec) (metas : list FieldMeta) (specs : list Z).
Context (Hsp : typespecs !! t = Some sp) (Hparts : parts sp = tstruct metas specs).
Abbreviation C := (fun i => in_struct i (before t c)).
Abbreviation fields := (zip metas specs).

Lemma fields_shorter : zlen fields <= zlen metas.
Proof using Type. unfold zlen. rewrite length_zip. lia. Qed.

(** One round at a field that is there, optional or not, and at one that is not. *)
Lemma round_required p x i m tf r bs Q E : 0 <= i -> zdrop i fields = (m, tf) :: r -> is_optional m = false ->
  dense_in p (C i) bs -> (forall p', dense_in p' (C i) bs -> Q (inr x) p') -> runs (present_round x) p Q E.
Proof using All.
  intros Hi Hd Ho Hp HQ. unfold present_round.
  eapply in_step; [by eapply (moves_FMT top t (ts c) (idx c) (mkv c) sp metas specs Hsp Hparts i)|exact Hp|].
  intros p1 Hp1. rewrite Ho. cbn [negb]. wp. by apply HQ.
Qed.

Lemma round_optional p x i m tf r b bs Q E : 0 <= i -> zdrop i fields = (m, tf) :: r -> is_optional m = true ->
  dense_in p (C i) ((if b : bool then 1 else 0) :: bs) ->
  (forall p', dense_in p' (C (if b then i else i + 1)) bs -> Q (if b then inr (u32 (x + 1)) else inl (u32 (x + 1))) p') ->
  runs (present_round x) p Q E.
Proof using All.
  intros Hi Hd Ho Hp HQ. unfold present_round.
  eapply in_step; [by eapply (moves_FMT top t (ts c) (idx c) (mkv c) sp metas specs Hsp Hparts i)|exact Hp|].
  intros p1 Hp1. rewrite Ho. cbn [negb].
  eapply (reads_step dense_in); [unfold subReadBool; apply (reads_based BinaryProtocol.readBool (C i) [if b then 1 else 0] b), readBool_ok|exact Hp1|].
  intros p2 Hp2. destruct b; cbv beta iota zeta.
  - wp. by apply HQ.
  - eapply in_step; [apply (moves_next_field top i (before t c))|exact Hp2|]. intros p3 Hp3. wp. by apply HQ.
Qed.

Lemma present_loop id i n m tf r p rest :
  0 <= i -> find_field id (zdrop i fields) = Some (n, (m, tf), r) ->
  dense_in p (C i) (absent n ++ present m ++ rest) ->
  succeeds (iterate (zlen metas + 2) present_round 0) p (fun x p' =>
    x = u32 (n + zlen (present m)) /\ dense_in p' (C (i + n)) rest).
Proof using All.
  intros Hi Hf Hp. destruct (find_field_spec _ _ _ _ _ _ Hf) as (_ & Hn & Hd & Hall).
  pose proof fields_shorter as Hzip. assert (n < zlen metas) as Hlt by (rewrite zlen_zdrop in Hn; pose proof (zlen_nonneg metas); lia).
  apply (runs_iterate_budget (fun k x p' => exists j, k = n - j /\ 0 <= j <= n /\ x = u32 j /\
    dense_in p' (C (i + j)) (absent (n - j) ++ present m ++ rest))) with (n := n); [| |lia].
  - intros k x p1 (j & -> & Hj & -> & Hp1). destruct (Z.eq_dec j n) as [->|Hne].
    + assert (zdrop (i + n) fields = (m, tf) :: r) as Hd' by (by rewrite Z.add_comm, <- zdrop_zdrop by lia).
      rewrite Z.sub_diag in Hp1. cbn [absent zrep Z.to_nat replicate app] in Hp1. unfold present in *.
      destruct (is_optional m) eqn:Ho.
      * eapply (round_optional p1 (u32 n) (i + n) m tf r true); [lia|exact Hd'|exact Ho|exact Hp1|].
        intros p2 Hp2. cbn [round_post]. change (zlen [1]) with 1. by autorewrite with wrap.
      * eapply (round_required p1 (u32 n) (i + n) m tf r); [lia|exact Hd'|exact Ho|exact Hp1|].
        intros p2 Hp2. cbn [round_post]. change (zlen (@nil Z)) with 0. by rewrite Z.add_0_r.
    + destruct (zdrop_before _ j n (zdrop i fields) ltac:(lia) ltac:(lia) Hall) as ([m' t'] & r' & Hdj & _ & Hopt & _).
      cbn [fst] in Hopt. assert (zdrop (i + j) fields = (m', t') :: r') as Hd' by (by rewrite Z.add_comm, <- zdrop_zdrop by lia).
      assert (absent (n - j) = 0 :: absent (n - (j + 1))) as Habs.
      { unfold absent, zrep. replace (Z.to_nat (n - j)) with (S (Z.to_nat (n - (j + 1)))) by lia. done. }
      rewrite Habs in Hp1.
      eapply (round_optional p1 (u32 j) (i + j) m' t' r' false); [lia|exact Hd'|exact Hopt|exact Hp1|].
      intros p2 Hp2. cbn [round_post]. exists (n - (j + 1)). split; [lia|]. exists (j + 1).
      split_and!; [done|lia|lia|by autorewrite with wrap|]. by rewrite Z.add_assoc.
  - exists 0. rewrite Z.add_0_r, !Z.sub_0_r. split_and!; [done|lia|lia|done|done].
Qed.

(** The type and the id of the field the loop has come to. *)
Lemma field_found (x : Z) i m tf r ty p bs (Q : Z * (Z * Z) -> P -> Prop) E : 0 <= i -> zdrop i fields = (m, tf) :: r -> has_type tf ty = true ->
  dense_in p (C i) bs -> (forall p', dense_in p' (at_field (C i) tf) bs -> Q (x, (ty, tag m)) p') ->
  runs (let! m := FMT in
        let! f := FTS in
        do! (if negb (ttype f =? T_STOP) then let! t := FTS_address in push_ts t else ret tt) in
        ret (x, (ttype f, tag m))) p Q E.
Proof using All.
  intros Hi Hd Hty Hp HQ. destruct (has_type_spec _ _ Hty) as (f & Hfs & <-).
  eapply in_step; [by eapply (moves_FMT top t (ts c) (idx c) (mkv c) sp metas specs Hsp Hparts i)|exact Hp|]. intros p1 Hp1.
  eapply in_step; [by eapply (moves_FTS top t (ts c) (idx c) (mkv c) sp metas specs Hsp Hparts i)|exact Hp1|]. intros p2 Hp2.
  unfold at_field, has_type, type_at in HQ. rewrite Hfs in HQ. cbn [option_map] in HQ.
  destruct (ttype f =? T_STOP) eqn:Hstop; breflect; cbn [negb].
  - rewrite bool_decide_eq_true_2 in HQ by congruence. wp. by apply HQ.
  - rewrite bool_decide_eq_false_2 in HQ by congruence.
    eapply in_step; [eapply moves_bind;
      [by eapply (moves_FTS_address top t (ts c) (idx c) (mkv c) sp metas specs Hsp Hparts i)
      |apply (moves_push_ts top tf (C i))]|exact Hp2|]. intros p3 Hp3. wp. by apply HQ.
Qed.

Lemma reads_fieldBegin id i n m tf r ty :
  0 <= i -> find_field id (zdrop i fields) = Some (n, (m, tf), r) -> has_type tf ty = true ->
  dreads readFieldBegin (C i) (at_field (C (i + n)) tf) (absent n ++ present m) (ty, id).
Proof using All.
  intros Hi Hf Hty p rest Hp. rewrite <- app_assoc in Hp. destruct (find_field_spec _ _ _ _ _ _ Hf) as (Htag & Hn & Hd & _).
  assert (zdrop (i + n) fields = (m, tf) :: r) as Hd' by (by rewrite Z.add_comm, <- zdrop_zdrop by lia).
  assert (zlen (absent n) = n) as Habs by (unfold absent; rewrite zlen_zrep; lia). unfold readFieldBegin.
  eapply in_step; [by eapply (moves_field_rounds top t (ts c) (idx c) (mkv c) sp metas specs)|exact Hp|]. intros p1 Hp1.
  apply runs_bind. eapply runs_mono; [by eapply (present_loop id i n m tf r p1)| |done].
  cbn beta. intros x p2 [-> Hp2]. eapply (field_found _ (i + n) m tf r ty); [lia|exact Hd'|exact Hty|exact Hp2|].
  intros p3 Hp3. rewrite zlen_app, Habs, Htag. done.
Qed.

(** On any input the loop comes to a field that is announced, or must be there. *)
Lemma any_fieldBegin rank r0 i p bs :
  0 <= i -> fields_ok rank r0 (zdrop i fields) = true -> dense_in p (C i) bs ->
  runs readFieldBegin p (fun x p' => exists n m tf r ty bs',
    find_field (tag m) (zdrop i fields) = Some (n, (m, tf), r) /\ has_type tf ty = true /\ x.2 = (ty, tag m) /\
    fields_ok rank r0 ((m, tf) :: r) = true /\
    dense_in p' (at_field (C (i + n)) tf) bs' /\ zlen bs' <= zlen bs) (fun _ _ => True).
Proof using All.
  intros Hi Hok Hp. pose proof fields_shorter as Hzip. pose proof (zlen_nonneg fields). unfold readFieldBegin.
  eapply in_step; [by eapply (moves_field_rounds top t (ts c) (idx c) (mkv c) sp metas specs)|exact Hp|]. intros p1 Hp1.
  apply runs_bind.
  set (found := fun j l => forall k g r', find_field (tag g.1) l = Some (k, g, r') ->
    find_field (tag g.1) (zdrop i fields) = Some (j + k, g, r')).
  eapply runs_mono; [apply (runs_iterate_budget (fun k (x : Z) p' => exists j bs', 0 <= j /\ k = zlen (zdrop (i + j) fields) /\
      fields_ok rank r0 (zdrop (i + j) fields) = true /\ found j (zdrop (i + j) fields) /\
      dense_in p' (C (i + j)) bs' /\ zlen bs' <= zlen bs) _
    (fun (x : Z) p' => exists j bs', 0 <= j /\
      fields_ok rank r0 (zdrop (i + j) fields) = true /\ found j (zdrop (i + j) fields) /\
      dense_in p' (C (i + j)) bs' /\ zlen bs' <= zlen bs) (fun _ _ => True)) with (n := zlen (zdrop i fields))| |done].
  - intros k x p2 (j & bs2 & Hj & -> & Hok2 & Hfound & Hp2 & Hle).
    destruct (zdrop (i + j) fields) as [|[m tf] r] eqn:Hd; [done|]. unfold present_round.
    eapply in_step; [eapply (moves_FMT top t (ts c) (idx c) (mkv c) sp metas specs Hsp Hparts (i + j)); [lia|exact Hd]|exact Hp2|].
    intros p3 Hp3. destruct (is_optional m) eqn:Ho; cbn [negb].
    + destruct r as [|g r]; [cbn in Hok2; rewrite Ho, andb_false_r in Hok2; done|].
      apply fields_ok_cons in Hok2 as (He & Hdist & Hok3). cbn [fst snd] in *.
      eapply any_step; [eapply (any_based BinaryProtocol.readBool (C (i + j)) 1 (fun _ => True)); by apply (total_fixed lim 1)|exact Hp3|].
      intros n b p4 bs4 _ Hp4 Hle4. cbv zeta. destruct b.
      * wp. exists j, bs4. rewrite Hd. split_and!; [done| |done|exact Hp4|lia].
        change (element_ok rank r0 tf && forallb (fun h => negb (tag h.1 =? tag m)) (g :: r) && fields_ok rank r0 (g :: r) = true)%bool.
        rewrite He, Hok3. cbn [andb]. rewrite andb_true_r. apply forallb_forall. intros h Hh. apply negb_true_iff, Z.eqb_neq. by apply Hdist.
      * eapply in_step; [apply (moves_next_field top (i + j) (before t c))|exact Hp4|]. intros p5 Hp5. wp. cbn [round_post].
        assert (Hd' : zdrop (i + (j + 1)) fields = g :: r).
        { replace (i + (j + 1)) with (1 + (i + j)) by lia. rewrite <- zdrop_zdrop, Hd by lia. done. }
        exists (zlen (g :: r)). rewrite (zlen_cons (m, tf)). pose proof (zlen_nonneg (g :: r)). split; [lia|].
        exists (j + 1), bs4. rewrite Hd'. split_and!; [lia|done|done| |by rewrite Z.add_assoc|lia].
        intros k h r' Hh. replace (j + 1 + k) with (j + (k + 1)) by lia. apply Hfound. cbn [find_field fst snd].
        destruct h as [mh th]. destruct (find_field_spec _ _ _ _ _ _ Hh) as (_ & Hk & Hdk & _).
        assert (In (mh, th) (g :: r)) as Hin.
        { rewrite <- (ztake_zdrop k (g :: r)), Hdk. apply in_or_app. right. by left. }
        pose proof (Hdist _ Hin) as Hne. cbn [fst] in *. replace (tag m =? tag mh) with false by lia.
        rewrite Ho, (element_not_stop _ _ _ He). destruct (element_ok_spec _ _ _ He) as (_ & sp' & Hsp' & _).
        rewrite Hsp', bool_decide_eq_true_2 by done. cbn [negb orb]. cbn [find_field] in Hh. by rewrite Hh.
    + wp. cbn [round_post]. exists j, bs2. rewrite Hd. done.
  - exists 0, bs. rewrite Z.add_0_r. split_and!; [lia|done|done| |done|lia]. by intros k g r' Hg.
  - zlist.
  - cbn beta. intros x p2 (j & bs2 & Hj & Hok2 & Hfound & Hp2 & Hle).
    destruct (zdrop (i + j) fields) as [|[m tf] r] eqn:Hd; [done|].
    assert (exists ty, has_type tf ty = true) as [ty Hty].
    { destruct r as [|g r]; [cbn in Hok2; by apply andb_true_iff in Hok2 as [_ ?]; eauto|].
      apply fields_ok_cons in Hok2 as (He & _). destruct (element_ok_spec _ _ _ He) as (_ & sp' & Hsp' & _).
      exists (ttype sp'). unfold has_type, type_at. cbn [snd] in Hsp'. rewrite Hsp'. by apply bool_decide_eq_true_2. }
    eapply (field_found _ (i + j) m tf r ty); [lia|exact Hd|exact Hty|exact Hp2|].
    intros p3 Hp3. exists j, m, tf, r, ty, bs2. split_and!; try done.
    specialize (Hfound 0 (m, tf) r). rewrite Z.add_0_r in Hfound. apply Hfound. cbn [find_field fst]. by rewrite Z.eqb_refl.
Qed.
End Fields.
End Reader.
