(* ===== verification/DenseValues.v ===== *)
(** * Values read by the dense protocol

    [read_value] takes the bytes of [d_enc] and answers the value they encode; and
    on any bytes, when the type specs are well-formed, it throws or answers a value
    of its type. *)

From S2P Require Export DenseReader.

Section Values.
Context `{Platform} `{!Unbounded} `{TypeSpecs} {T : Type} `{ReadLaws T}.
Context (top : option Z) (Htop : top <> None) (lim : limits).
Abbreviation P := (TDenseProtocol T).
Abbreviation dense_in := (dense_in top lim).
Abbreviation dreads := (reads dense_in).
Abbreviation dany := (any_input dense_in).

(** A struct inside another value announces nothing. *)
Lemma struct_begin {A} t c p bs (k : Z -> M P A) Q E : dense_in p (before t c) bs ->
  (forall p', dense_in p' (in_struct 0 (before t c)) bs -> runs (k 0) p' Q E) ->
  runs (let! '(n, _) := readStructBegin in k n) p Q E.
Proof using Type.
  intros Hp Hk. unfold readStructBegin. apply runs_bind.
  eapply in_step; [apply moves_get_ts|exact Hp|]. cbn [ts before]. intros p1 Hp1.
  eapply in_step; [apply moves_ret|exact Hp1|]. intros p2 Hp2.
  eapply in_step; [apply (moves_push_idx top (before t c))|exact Hp2|]. intros p3 Hp3. apply runs_ret. by apply Hk.
Qed.

(** ** Containers *)

Lemma nothing_after (m : M P unit) (m' : M P Z) c c1 c2 :
  moves top m c c1 tt -> reads_nothing dense_in m' c1 c2 -> reads_nothing dense_in (do! m in m') c c2.
Proof using Type. intros Hm Hm' p bs Hp. eapply in_step; [exact Hm|exact Hp|]. intros p1 Hp1. by apply Hm'. Qed.

Section Container.
Context (t : Z) (c : stacks) (sp : TypeSpec) (st1 st2 : Z) (sp1 : TypeSpec).
Context (Hsp : typespecs !! t = Some sp) (Hparts : parts sp = tcontainer st1 st2) (Hsp1 : typespecs !! st1 = Some sp1).

Lemma container_has : has_type t (ttype sp) = true.
Proof using Hsp. unfold has_type, type_at. rewrite Hsp. by apply bool_decide_eq_true. Qed.

(** After the size: the first subtype is next. *)
Lemma elements_rest c1 p bs (x n : Z) (Q : Z * (Z * Z) -> P -> Prop) E : ts c1 = t :: ts c ->
  dense_in p c1 bs -> (forall p', dense_in p' (before st1 c1) bs -> Q (x, (ttype sp1, n)) p') ->
  runs (let! st := ST1 in let! s := deref st in do! push_ts st in ret (x, (ttype s, n))) p Q E.
Proof using All.
  intros Hts Hp HQ. destruct c1 as [l i k]. cbn [ts] in Hts. subst l.
  eapply in_step; [by apply (moves_ST1 top t (ts c) i k sp Hsp st1 st2)|exact Hp|]. intros p1 Hp1.
  eapply in_step; [by apply (moves_there top (typespecs !! st1) sp1)|exact Hp1|]. intros p2 Hp2.
  eapply in_step; [apply (moves_push_ts top st1)|exact Hp2|]. intros p3 Hp3. wp. by apply HQ.
Qed.

Lemma reads_elements n : 0 <= n < 2 ^ 31 -> container_over lim n = false ->
  dreads (read_elements (ttype sp)) (before t c) (before st1 (before t c)) (vlq n) (ttype sp1, n).
Proof using All.
  intros Hn Hover. unfold read_elements. eapply reads_after; [apply moves_check, container_has|].
  intros p rest Hp. eapply reads_step; [by apply reads_read_size|exact Hp|]. intros p1 Hp1. cbv beta iota.
  eapply elements_rest; [|exact Hp1|]; done.
Qed.

Lemma any_elements : dany (read_elements (ttype sp)) (before t c) (before st1 (before t c)) 1
  (fun r => r.1 = ttype sp1 /\ 0 <= r.2 /\ count_ok lim r.2 = true).
Proof using All.
  unfold read_elements. eapply any_after; [apply moves_check, container_has|].
  intros p bs Hp. eapply any_step; [by apply any_read_size|exact Hp|]. intros n size p1 bs1 [? ?] Hp1 Hle. cbv beta iota.
  eapply elements_rest; [|exact Hp1|]; [done|]. intros p2 Hp2. split; [done|]. by exists bs1.
Qed.

Lemma elements_end_ok c' : after t c = Some c' -> reads_nothing dense_in elements_end (before st1 (before t c)) c'.
Proof using All.
  intros Ha. unfold elements_end. eapply nothing_after; [apply moves_pop_ts|]. apply moves_read_nothing. by apply moves_transition.
Qed.

Lemma mapEnd_ok c' k : after t c = Some c' -> reads_nothing dense_in readMapEnd (before st1 (in_map k (before t c))) c'.
Proof using All.
  intros Ha. unfold readMapEnd. eapply nothing_after; [apply (moves_pop_ts top st1 (in_map k (before t c)))|].
  eapply nothing_after; [apply (moves_pop_mkv top k (before t c))|]. apply moves_read_nothing. by apply moves_transition.
Qed.

Context (sp2 : TypeSpec) (Hsp2 : typespecs !! st2 = Some sp2) (Hmap : ttype sp = T_MAP).

Lemma map_rest p bs (x n : Z) (Q : Z * (Z * Z * Z) -> P -> Prop) E :
  dense_in p (before t c) bs ->
  (forall p', dense_in p' (before st1 (in_map true (before t c))) bs -> Q (x, (ttype sp1, ttype sp2, n)) p') ->
  runs (let! '(st1, st2) := subtypes in let! sp1 := deref st1 in let! sp2 := deref st2 in
        do! push_ts st1 in do! push_mkv in ret (x, (ttype sp1, ttype sp2, n))) p Q E.
Proof using All.
  intros Hp HQ.
  eapply in_step; [by apply (moves_subtypes top t (ts c) (idx c) (mkv c) sp Hsp st1 st2)|exact Hp|]. intros p1 Hp1.
  eapply in_step; [by apply (moves_there top (typespecs !! st1) sp1)|exact Hp1|]. intros p2 Hp2.
  eapply in_step; [by apply (moves_there top (typespecs !! st2) sp2)|exact Hp2|]. intros p3 Hp3.
  eapply in_step; [apply (moves_push_ts top st1)|exact Hp3|]. intros p4 Hp4.
  eapply in_step; [apply (moves_push_mkv top (before st1 (before t c)))|exact Hp4|]. intros p5 Hp5. wp. by apply HQ.
Qed.

Lemma map_has : has_type t T_MAP = true.
Proof using Hsp Hmap. rewrite <- Hmap. apply container_has. Qed.

Lemma reads_mapBegin n : 0 <= n < 2 ^ 31 -> container_over lim n = false ->
  dreads readMapBegin (before t c) (before st1 (in_map true (before t c))) (vlq n) (ttype sp1, ttype sp2, n).
Proof using All.
  intros Hn Hover. unfold readMapBegin. eapply reads_after; [apply moves_check, map_has|].
  intros p rest Hp. eapply reads_step; [by apply reads_read_size|exact Hp|]. intros p1 Hp1. cbv beta iota.
  eapply map_rest; [exact Hp1|]; done.
Qed.

Lemma any_mapBegin : dany readMapBegin (before t c) (before st1 (in_map true (before t c))) 1
  (fun r => r.1 = (ttype sp1, ttype sp2) /\ 0 <= r.2 /\ count_ok lim r.2 = true).
Proof using All.
  unfold readMapBegin. eapply any_after; [apply moves_check, map_has|].
  intros p bs Hp. eapply any_step; [by apply any_read_size|exact Hp|]. intros n size p1 bs1 [? ?] Hp1 Hle. cbv beta iota.
  eapply map_rest; [exact Hp1|]. intros p2 Hp2. split; [done|]. by exists bs1.
Qed.
End Container.

(** ** Any input *)

Section Total.
Context (rank : Z -> Z) (Hok : specs_ok rank) (fuel : Z).
Context (Hfuel : map_Forall (fun _ sp => zlen (fields_of sp) < fuel) typespecs).
Abbreviation fits := (fits lim (size_ok lim) (fun _ => true)).
Abbreviation fits_fields := (fits_fields lim (size_ok lim) (fun _ => true)).

(** Values of the type at [t], the answer of a read that moves on. *)
Definition any_value (depth : nat) (t : Z) : Prop := forall c c' sp,
  typespecs !! t = Some sp -> is_value_type (ttype sp) = true -> after t c = Some c' ->
  dany (read_value depth fuel (ttype sp)) (before t c) c' 0 (fun v => fits t v = true).
Definition any_below (depth : nat) (r : Z) : Prop := forall t, 0 <= rank t < r -> any_value depth t.

Lemma any_element depth r t c c' ty : any_below depth r -> element_ok rank r t = true -> has_type t ty = true ->
  after t c = Some c' -> dany (read_value depth fuel ty) (before t c) c' 0 (fun v => fits t v = true).
Proof using Type.
  intros Hd He (sp & Hsp & <-)%has_type_spec Ha. destruct (element_ok_spec _ _ _ He) as (Hr & sp' & Hsp' & Hv).
  assert (sp' = sp) as -> by congruence. by apply (Hd t Hr).
Qed.

Lemma fits_type t v : fits t v = true -> has_type t (type_of v) = true.
Proof using Type. destruct v; cbn [DenseFormat.fits]; by intros [? _]%andb_true_iff. Qed.

Lemma any_as {A} (f : A -> tval) t c c' ty (m : M P (Z * A)) V :
  has_type t ty = true -> after t c = Some c' -> dany m c' c' 1 V ->
  (forall a, V a -> fits t (f a) = true) ->
  dany (read_as f (scalar ty m)) (before t c) c' 0 (fun v => fits t v = true).
Proof using All.
  intros Ht Ha Hm HV p bs Hp. unfold read_as.
  eapply any_step; [eapply any_scalar; [exact Htop|exact Ht|exact Ha|exact Hm]|exact Hp|].
  intros n a p1 bs1 Hva Hp1 Hle. wp. split; [by apply HV|]. exists bs1. split; [done|lia].
Qed.

Section Struct.
Context (t : Z) (c : stacks) (sp : TypeSpec) (metas : list FieldMeta) (specs : list Z).
Context (Hsp : typespecs !! t = Some sp) (Hty : ttype sp = T_STRUCT) (Hparts : parts sp = tstruct metas specs).
Abbreviation C := (fun i => in_struct i (before t c)).
Abbreviation fields := (zip metas specs).

(** A field, or the end: what follows completes the fields so far. *)
Lemma any_field depth i acc p bs :
  0 <= i -> fields_ok rank (rank t) (zdrop i fields) = true -> any_below depth (rank t) -> dense_in p (C i) bs ->
  (forall fs, fits_fields fs (zdrop i fields) = true -> fits_fields (acc.2 ++ fs) fields = true) ->
  runs (read_field (read_value depth fuel) acc) p (fun r p' =>
    exists j bs', zlen bs' <= zlen bs /\ dense_in p' (C j) bs' /\
    match r with
    | inl a => i < j <= zlen fields /\ fields_ok rank (rank t) (zdrop j fields) = true /\
        (forall fs, fits_fields fs (zdrop j fields) = true -> fits_fields (a.2 ++ fs) fields = true)
    | inr a => fits_fields a.2 fields = true
    end) (fun _ _ => True).
Proof using All.
  intros Hi Hf Hbelow Hp Hdone. destruct acc as [res done_]. cbn [snd] in Hdone. unfold read_field.
  cbn [p_readFieldBegin p_readFieldEnd TDenseProtocol_protocol]. apply runs_bind.
  eapply runs_mono; [by eapply (any_fieldBegin top Htop lim t c sp metas specs Hsp Hparts rank (rank t) i)| |done].
  cbn beta. intros [x [ty id]] p1 (n & m & tf & r & ty' & bs1 & Hfind & Hhas & [= -> ->] & Hr & Hp1 & Hle).
  destruct (find_field_spec _ _ _ _ _ _ Hfind) as (_ & Hn & Hd & _).
  assert (zdrop (i + n) fields = (m, tf) :: r) as Hd' by (by rewrite Z.add_comm, <- zdrop_zdrop by lia).
  destruct r as [|g r].
  - cbn [fields_ok] in Hr. apply andb_true_iff in Hr as [Hr Hstop]. apply andb_true_iff in Hr as [Htag Hreq].
    cbn [fst snd] in *. rewrite negb_true_iff in Hreq. apply Z.eqb_eq in Htag. rewrite Htag in *.
    assert (ty' = T_STOP) as ->.
    { unfold has_type in *. apply bool_decide_eq_true in Hhas, Hstop. congruence. }
    change (T_STOP =? T_STOP) with true. cbv iota. wp. exists (i + n), bs1. split; [done|].
    unfold at_field in Hp1. rewrite Hstop in Hp1. split; [done|]. rewrite <- (app_nil_r done_). apply Hdone.
    cbn [DenseFormat.fits_fields]. unfold ends. by rewrite Hfind, Hreq, Hstop.
  - apply fields_ok_cons in Hr as (He & _ & Hrest). cbn [fst snd] in *.
    pose proof (element_not_stop _ _ _ He) as Hstop. unfold at_field in Hp1. rewrite Hstop in Hp1.
    replace (ty' =? T_STOP) with false; [|symmetry; apply Z.eqb_neq; intros ->; congruence].
    destruct (zip_at metas specs (i + n) m tf (g :: r) ltac:(lia) Hd') as [_ Htf].
    eapply any_step; [eapply any_element; [exact Hbelow|exact He|exact Hhas|exact (after_field t c sp metas specs (i + n) tf Hsp Hty Hparts Htf)]
      |exact Hp1|].
    intros y v p2 bs2 Hv Hp2 Hle2. unfold readFieldEnd.
    eapply reads_end; [apply moves_read_nothing, (moves_next_field top (i + n) (before t c))|exact Hp2|]. intros p3 Hp3. wp.
    assert (zdrop (i + n + 1) fields = g :: r) as Hd2.
    { rewrite Z.add_comm, <- zdrop_zdrop by lia. by rewrite Hd'. }
    exists (i + n + 1), bs2. split; [lia|]. split; [done|].
    rewrite zlen_zdrop in Hn. split_and!; [lia|lia|by rewrite Hd2|].
    intros fs Hfs. cbn [snd]. rewrite <- app_assoc. apply Hdone. cbn [app DenseFormat.fits_fields fst snd].
    by rewrite Hfind, Hstop, Hv, <- Hd2, Hfs.
Qed.

(** From the first field to the end of the struct. *)
Lemma any_members depth c' : any_below depth (rank t) -> after t c = Some c' ->
  dany (let! '(result, fs) := iterate fuel (read_field (read_value depth fuel)) (0, []) in
        let! n := readStructEnd in ret (u32 (result + n), VStruct fs))
    (C 0) c' 0 (fun v => fits t v = true).
Proof using All.
  intros Hbelow Ha p bs Hp. apply runs_bind.
  assert (fields_of sp = fields) as Hfo by (unfold fields_of; by rewrite Hparts).
  assert (fields_at t = fields) as Hfa by (unfold fields_at; by rewrite Hsp).
  assert (fields_ok rank (rank t) fields = true) as Hfok.
  { specialize (Hok t sp Hsp). cbn beta in Hok. unfold spec_ok in Hok. rewrite Hparts in Hok. by apply andb_true_iff in Hok as [_ ?]. }
  eapply runs_mono; [apply (runs_iterate_budget (fun k a p' => exists i bs', k = zlen fields - i /\ 0 <= i <= zlen fields /\
      fields_ok rank (rank t) (zdrop i fields) = true /\
      (forall fs, fits_fields fs (zdrop i fields) = true -> fits_fields (a.2 ++ fs) fields = true) /\
      dense_in p' (C i) bs' /\ zlen bs' <= zlen bs) _
    (fun a p' => fits_fields a.2 fields = true /\ exists j bs', dense_in p' (C j) bs' /\ zlen bs' <= zlen bs)
    (fun _ _ => True)) with (n := zlen fields)| |done].
  - intros k a p1 (i & bs1 & -> & Hi & Hf & Hcont & Hp1 & Hle1).
    eapply runs_mono; [apply (any_field depth i a p1 bs1); [lia|done|done|done|done]| |done].
    cbn beta. intros [a'|a'] p2 (j & bs2 & Hle2 & Hp2 & Hj).
    + destruct Hj as (Hj & Hf' & Hcont'). exists (zlen fields - j). split; [lia|]. exists j, bs2. split_and!; [done|lia|lia|done|done|done|lia].
    + split; [done|]. exists j, bs2. split; [done|lia].
  - exists 0, bs. pose proof (zlen_nonneg fields). split_and!; [lia|lia|lia|done|done|done|done].
  - specialize (Hfuel t sp Hsp). cbn beta in Hfuel. rewrite Hfo in Hfuel. pose proof (zlen_nonneg fields). lia.
  - cbn beta. intros [res fs] p1 (Hfs & j & bs1 & Hp1 & Hle1). unfold readStructEnd. apply runs_bind.
    eapply in_step; [apply (moves_pop_idx top j (before t c))|exact Hp1|]. intros p2 Hp2.
    eapply in_step; [by apply moves_transition|exact Hp2|]. intros p3 Hp3. wp.
    split; [|exists bs1; split; [done|lia]]. cbn [snd]. rewrite fits_struct, Hfa. cbn [snd] in Hfs. rewrite Hfs, andb_true_r.
    unfold has_type, type_at. rewrite Hsp. apply bool_decide_eq_true. cbn. by rewrite Hty.
Qed.

Lemma any_struct depth c' : any_below depth (rank t) -> after t c = Some c' ->
  dany (let! '(n, _) := readStructBegin in
        let! '(result, fs) := iterate fuel (read_field (read_value depth fuel)) (n, []) in
        let! n := readStructEnd in ret (u32 (result + n), VStruct fs))
    (before t c) c' 0 (fun v => fits t v = true).
Proof using All.
  intros Hbelow Ha p bs Hp. eapply struct_begin; [exact Hp|]. intros p1 Hp1. by apply any_members.
Qed.
End Struct.

(** The two kinds of container. *)
Section Containers.
Context (depth : nat) (t : Z) (c : stacks) (sp : TypeSpec) (st1 st2 : Z) (c' : stacks).
Context (Hsp : typespecs !! t = Some sp) (Hparts : parts sp = tcontainer st1 st2).
Context (He1 : element_ok rank (rank t) st1 = true) (Hbelow : any_below depth (rank t)) (Ha : after t c = Some c').

Lemma element_has r s : element_ok rank r s = true ->
  exists sps, typespecs !! s = Some sps /\ has_type s (ttype sps) = true.
Proof using Type.
  intros (_ & sps & Hs & _)%element_ok_spec. exists sps. split; [done|]. by apply (container_has s sps).
Qed.

Lemma any_list ty (mk : Z -> list tval -> tval) : ttype sp = ty -> ty = T_LIST \/ ty = T_SET ->
  (forall et xs, fits t (mk et xs) = (has_type t ty && (has_type st1 et && count_ok lim (zlen xs) && forallb (fits st1) xs))%bool) ->
  dany (let! '(n, (et, size)) := read_elements ty in
        let! '(result, l) := for_ size (read_elem (read_value depth fuel) et) (n, []) in
        let! n := elements_end in ret (u32 (result + n), mk et l))
    (before t c) c' 0 (fun v => fits t v = true).
Proof using All.
  intros Hty Hls Hmk p bs Hp. destruct (element_has _ _ He1) as (sp1 & Hsp1 & Het).
  eapply any_step; [rewrite <- Hty; by apply (any_elements t c sp st1 st2 sp1)|exact Hp|].
  intros n [et size] p1 bs1 (Hr & Hs & Hc) Hp1 Hle. cbn [fst snd] in *. subst et. apply runs_bind.
  eapply runs_mono; [apply (total_for dense_in (fits st1) _ (zlen bs + 1) (before st1 (before t c)) size n p1 bs1);
    [done|done|lia|]| |done].
  - intros a p2 bs2 Hp2 _. unfold leaves, read_elem.
    eapply any_step; [eapply any_element; [exact Hbelow|exact He1|exact Het|]|exact Hp2|].
    { eapply after_element; [exact Hsp|by rewrite Hty|exact Hparts]. }
    intros k v p3 bs3 Hv Hp3 Hle3. wp. split; [by exists v|]. exists bs3. split; [done|lia].
  - cbn beta. intros [k xs] p2 ((Hz & HV) & bs2 & Hp2 & Hle2). cbn [snd] in Hz, HV.
    eapply reads_end; [by apply (elements_end_ok t c sp st1 st2 sp1)|exact Hp2|]. intros p3 Hp3. wp.
    split; [|exists bs2; split; [done|lia]]. cbn [snd]. rewrite Hmk, Het, Hz, Hc, HV. rewrite <- Hty.
    by rewrite (container_has t sp Hsp).
Qed.

Lemma any_map : ttype sp = T_MAP -> element_ok rank (rank t) st2 = true ->
  dany (let! '(n, (kt, vt, size)) := readMapBegin in
        let! '(result, es) := for_ size (read_entry (read_value depth fuel) kt vt) (n, []) in
        let! n := readMapEnd in ret (u32 (result + n), VMap kt vt es))
    (before t c) c' 0 (fun v => fits t v = true).
Proof using All.
  intros Hty He2 p bs Hp. destruct (element_has _ _ He1) as (sp1 & Hsp1 & Hkt).
  destruct (element_has _ _ He2) as (sp2 & Hsp2 & Hvt).
  eapply any_step; [by apply (any_mapBegin t c sp st1 st2 sp1 Hsp Hparts Hsp1 sp2)|exact Hp|].
  intros n [[kt vt] size] p1 bs1 (Hr & Hs & Hc) Hp1 Hle. cbn [fst snd] in *. injection Hr as -> ->. apply runs_bind.
  eapply runs_mono; [apply (total_for dense_in (fun e => fits st1 e.1 && fits st2 e.2)%bool _ (zlen bs + 1)
    (before st1 (in_map true (before t c))) size n p1 bs1); [done|done|lia|]| |done].
  - intros a p2 bs2 Hp2 _. unfold leaves, read_entry.
    eapply any_step; [eapply any_element; [exact Hbelow|exact He1|exact Hkt|exact (after_entry t c sp st1 st2 true Hsp Hty Hparts)]
      |exact Hp2|].
    intros k x p3 bs3 Hx Hp3 Hle3.
    eapply any_step; [eapply any_element; [exact Hbelow|exact He2|exact Hvt|exact (after_entry t c sp st1 st2 false Hsp Hty Hparts)]
      |exact Hp3|].
    intros k' y p4 bs4 Hy Hp4 Hle4. wp. split; [|exists bs4; split; [done|lia]]. exists (x, y). cbn [fst snd].
    by rewrite Hx, Hy.
  - cbn beta. intros [k es] p2 ((Hz & HV) & bs2 & Hp2 & Hle2). cbn [snd] in Hz, HV.
    eapply reads_end; [by apply (mapEnd_ok t c sp st1 st2 sp1)|exact Hp2|]. intros p3 Hp3. wp.
    split; [|exists bs2; split; [done|lia]]. cbn [snd DenseFormat.fits type_of]. unfold parts_at. rewrite Hsp. cbn [from_option].
    rewrite Hparts, Hkt, Hvt, Hz, Hc, HV. rewrite <- Hty. by rewrite (container_has t sp Hsp).
Qed.
End Containers.


(** The parts of a spec suit its type. *)
Lemma struct_parts t sp : spec_ok rank t sp = true -> ttype sp = T_STRUCT -> exists metas specs, parts sp = tstruct metas specs.
Proof using Type. unfold spec_ok. intros Hs Hty. destruct (parts sp); rewrite Hty in Hs; [done|eauto|done]. Qed.
Lemma list_parts t sp : spec_ok rank t sp = true -> ttype sp = T_LIST \/ ttype sp = T_SET ->
  exists st1 st2, parts sp = tcontainer st1 st2 /\ element_ok rank (rank t) st1 = true.
Proof using Type.
  unfold spec_ok. intros Hs Hty. destruct (parts sp) as [|metas specs|st1 st2]; destruct Hty as [Hty|Hty]; rewrite Hty in Hs; try done;
    (exists st1, st2; split; [done|]; by destruct (element_ok rank (rank t) st1)).
Qed.
Lemma map_parts t sp : spec_ok rank t sp = true -> ttype sp = T_MAP ->
  exists st1 st2, parts sp = tcontainer st1 st2 /\ element_ok rank (rank t) st1 = true /\ element_ok rank (rank t) st2 = true.
Proof using Type.
  unfold spec_ok. intros Hs Hty. destruct (parts sp) as [|metas specs|st1 st2]; rewrite Hty in Hs; try done.
  exists st1, st2. split; [done|]. by destruct (element_ok rank (rank t) st1).
Qed.


Lemma fits_signed w z t ty : has_type t ty = true -> in_s w z -> (has_type t ty && in_sb w z)%bool = true.
Proof using Type. intros -> Hz. by apply bool_decide_eq_true. Qed.


(** On any input a value of a type at most as high as the depth. *)
Lemma read_value_any depth : any_below depth (Z.of_nat depth).
Proof using All.
  induction depth as [|depth IH]; intros t Hr c c' sp Hsp Hv Ha; [lia|].
  assert (any_below depth (rank t)) as Hbelow by (intros s Hs; apply IH; lia).
  assert (has_type t (ttype sp) = true) as Ht by (by apply (container_has t sp)).
  pose proof (Hok t sp Hsp) as Hspec. cbn beta in Hspec. cbn [read_value].
  bif; [rewrite Hb in Ht; eapply (any_as VBool t c c' T_BOOL _ (fun _ => True)); [done|done|by apply any_based, (total_fixed lim 1)|]|].
  { intros b _. cbn [DenseFormat.fits type_of]. by rewrite Ht. }
  bif; [rewrite Hb0 in Ht; eapply (any_as VByte t c c' T_BYTE); [done|done|apply any_based, readByte_total|]|].
  { intros z Hz. by apply fits_signed. }
  bif; [rewrite Hb1 in Ht; eapply (any_as VI16 t c c' T_I16); [done|done|by apply any_signed|]|].
  { intros z Hz. by apply fits_signed. }
  bif; [rewrite Hb2 in Ht; eapply (any_as VI32 t c c' T_I32); [done|done|by apply any_signed|]|].
  { intros z Hz. by apply fits_signed. }
  bif; [rewrite Hb3 in Ht; eapply (any_as VI64 t c c' T_I64); [done|done|by apply any_signed|]|].
  { intros z Hz. by apply fits_signed. }
  bif; [rewrite Hb4 in Ht; eapply (any_as VDouble t c c' T_DOUBLE _ (fun _ => True)); [done|done| |]|].
  { apply any_based. eapply any_weaken; [by apply (total_fixed lim 8)|lia]. }
  { intros z _. cbn [DenseFormat.fits type_of]. by rewrite Ht. }
  bif; [rewrite Hb5 in Ht; eapply (any_as VString t c c' T_STRING); [done|done|by apply any_sub_string|]|].
  { intros s Hs. cbn [DenseFormat.fits type_of]. by rewrite Ht. }
  bif; [destruct (struct_parts t sp Hspec Hb6) as (metas & specs & Hparts); by apply (any_struct t c sp metas specs)|].
  bif; [destruct (map_parts t sp Hspec Hb7) as (st1 & st2 & Hparts & He1 & He2); by apply (any_map depth t c sp st1 st2)|].
  bif; [destruct (list_parts t sp Hspec (or_intror Hb8)) as (st1 & st2 & Hparts & He1);
    apply (any_list depth t c sp st1 st2 c' Hsp Hparts He1 Hbelow Ha T_SET VSet Hb8 (or_intror eq_refl))|].
  { intros et xs. cbn [DenseFormat.fits type_of]. unfold parts_at. rewrite Hsp. cbn [from_option]. by rewrite Hparts. }
  bif; [destruct (list_parts t sp Hspec (or_introl Hb9)) as (st1 & st2 & Hparts & He1);
    apply (any_list depth t c sp st1 st2 c' Hsp Hparts He1 Hbelow Ha T_LIST VList Hb9 (or_introl eq_refl))|].
  { intros et xs. cbn [DenseFormat.fits type_of]. unfold parts_at. rewrite Hsp. cbn [from_option]. by rewrite Hparts. }
  exfalso. unfold is_value_type, value_types in Hv. cbn [existsb] in Hv.
  repeat match goal with H : ttype sp <> ?x |- _ => apply Z.eqb_neq in H; rewrite H in Hv; clear H end. done.
Qed.
End Total.

(** ** The encoding of a value *)

Section Exact.
Context (fuel : Z).
Abbreviation fits := (fits lim (string_ok lim) (in_ub 64)).
Abbreviation fits_fields := (fits_fields lim (string_ok lim) (in_ub 64)).

Definition dense_ih (depth : nat) (v : tval) : Prop := forall t c c',
  fits t v = true -> (vsize v <= depth)%nat -> Z.of_nat (vsize v) < fuel -> after t c = Some c' ->
  dreads (read_value depth fuel (type_of v)) (before t c) c' (d_enc t v) v.

Lemma exact_type t v : fits t v = true -> has_type t (type_of v) = true.
Proof using Type. destruct v; cbn [DenseFormat.fits]; by intros [? _]%andb_true_iff. Qed.

(** A scalar, read in one call. *)
Lemma reads_one {A} (f : A -> tval) t c c' ty (m : M P (Z * A)) e a :
  has_type t ty = true -> after t c = Some c' -> dreads m c' c' e a ->
  dreads (read_as f (scalar ty m)) (before t c) c' e (f a).
Proof using All.
  intros Ht Ha Hm p rest Hp. unfold read_as.
  eapply reads_step; [eapply reads_scalar; [exact Htop|exact Ht|exact Ha|exact Hm]|exact Hp|]. intros p1 Hp1. by wp.
Qed.

Section Struct.
Context (t : Z) (c : stacks) (sp : TypeSpec) (metas : list FieldMeta) (specs : list Z).
Context (Hsp : typespecs !! t = Some sp) (Hty : ttype sp = T_STRUCT) (Hparts : parts sp = tstruct metas specs).
Abbreviation C := (fun i => in_struct i (before t c)).
Abbreviation fields := (zip metas specs).

Lemma reads_one_field depth i f fs acc p rest : 0 <= i -> fits_fields (f :: fs) (zdrop i fields) = true ->
  dense_ih depth f.2 -> (vsize f.2 <= depth)%nat -> Z.of_nat (vsize f.2) < fuel ->
  dense_in p (C i) (d_fields (f :: fs) (zdrop i fields) ++ rest) ->
  succeeds (read_field (read_value depth fuel) acc) p (fun r p' => exists n j,
    r = inl (n, acc.2 ++ [f]) /\ 0 <= j /\ fits_fields fs (zdrop j fields) = true /\
    u32 (n + zlen (d_fields fs (zdrop j fields))) = u32 (acc.1 + zlen (d_fields (f :: fs) (zdrop i fields))) /\
    dense_in p' (C j) (d_fields fs (zdrop j fields) ++ rest)).
Proof using All.
  intros Hi Hfit IH Hd Hf Hp. destruct acc as [res done_], f as [id v]. cbn [DenseFormat.fits_fields d_fields fst snd] in *.
  destruct (find_field id _) as [[[n [m tf]] l']|] eqn:Hfind; [|done].
  apply andb_true_iff in Hfit as [Hfit Hrest]. apply andb_true_iff in Hfit as [Hstop Hfit]. apply negb_true_iff in Hstop.
  destruct (find_field_spec _ _ _ _ _ _ Hfind) as (_ & Hn & Hdr & _).
  assert (zdrop (i + n) fields = (m, tf) :: l') as Hd' by (by rewrite Z.add_comm, <- zdrop_zdrop by lia).
  assert (l' = zdrop (i + n + 1) fields) as -> by (by rewrite Z.add_comm, <- zdrop_zdrop, Hd' by lia).
  destruct (zip_at metas specs (i + n) m tf _ ltac:(lia) Hd') as [_ Htf]. pose proof (exact_type _ _ Hfit) as Hhas.
  pose proof (reads_fieldBegin top Htop lim t c sp metas specs Hsp Hparts id i n m tf _ _ Hi Hfind Hhas) as Hb.
  unfold at_field in Hb. rewrite Hstop in Hb. rewrite !app_assoc in Hp. rewrite <- (app_assoc _ (d_enc tf v)), <- app_assoc in Hp.
  unfold read_field. cbn [p_readFieldBegin p_readFieldEnd TDenseProtocol_protocol]. unfold readFieldEnd.
  eapply reads_step; [exact Hb|exact Hp|]. intros p1 Hp1. cbv beta iota.
  replace (type_of v =? T_STOP) with false; [|symmetry; apply Z.eqb_neq; intros Heq; rewrite Heq in Hhas; congruence].
  eapply reads_step; [apply (IH tf (C (i + n)) (C (i + n)) Hfit Hd Hf (after_field t c sp metas specs (i + n) tf Hsp Hty Hparts Htf))
    |by rewrite <- app_assoc in Hp1|]. intros p2 Hp2. cbv beta iota.
  eapply reads_end; [apply moves_read_nothing, (moves_next_field top (i + n) (before t c))|exact Hp2|]. intros p3 Hp3. wp.
  eexists _, (i + n + 1). split; [done|]. split_and!; [lia|done| |done].
  rewrite Z.add_0_r. autorewrite with wrap. rewrite !zlen_app. cbn [fst]. f_equal. lia.
Qed.

(** From the first field to the end of the struct. *)
Lemma reads_members depth fs c' : Forall (fun f => dense_ih depth f.2) fs -> fits_fields fs fields = true ->
  (sumnat (map (fun f => S (vsize f.2)) fs) <= depth)%nat -> Z.of_nat (sumnat (map (fun f => S (vsize f.2)) fs)) < fuel ->
  after t c = Some c' ->
  dreads (let! '(result, fs) := iterate fuel (read_field (read_value depth fuel)) (0, []) in
          let! n := readStructEnd in ret (u32 (result + n), VStruct fs))
    (C 0) c' (d_fields fs fields) (VStruct fs).
Proof using All.
  intros IH Hfit Hd Hf Ha p rest Hp. apply runs_bind.
  pose proof (sumnat_map_le (fun f : Z * tval => vsize f.2) fs) as Hlen.
  eapply runs_mono; [apply (runs_iterate_budget (fun k a p' => exists fs1 fs2 i, fs = fs1 ++ fs2 /\ k = zlen fs2 /\ a.2 = fs1 /\
      0 <= i /\ fits_fields fs2 (zdrop i fields) = true /\
      u32 (a.1 + zlen (d_fields fs2 (zdrop i fields))) = u32 (zlen (d_fields fs fields)) /\
      dense_in p' (C i) (d_fields fs2 (zdrop i fields) ++ rest)) _
    (fun a p' => a.2 = fs /\ u32 a.1 = u32 (zlen (d_fields fs fields)) /\ exists j, dense_in p' (C j) rest)
    (fun _ _ => False)) with (n := zlen fs)| |done].
  - intros k a p4 (fs1 & fs2 & i & -> & -> & Hdone & Hi & Hfit4 & Hu & Hp4). destruct fs2 as [|f fs2].
    + destruct a as [res done_]. cbn [fst snd] in *. subst done_. cbn [DenseFormat.fits_fields d_fields] in Hfit4, Hu, Hp4.
      unfold ends in Hfit4.
      destruct (find_field 0 _) as [[[n [m tf]] l']|] eqn:Hfind; [|done].
      apply andb_true_iff in Hfit4 as [Hreq Hstop]. apply negb_true_iff in Hreq.
      pose proof (reads_fieldBegin top Htop lim t c sp metas specs Hsp Hparts 0 i n m tf _ _ Hi Hfind Hstop) as Hb.
      unfold at_field, present in Hb. rewrite Hstop, Hreq, app_nil_r in Hb. unfold read_field.
      eapply reads_step; [exact Hb|exact Hp4|]. intros p5 Hp5. cbv beta iota. change (T_STOP =? T_STOP) with true. cbv iota. wp.
      cbn [round_post fst snd]. split; [by rewrite app_nil_r|]. autorewrite with wrap. split; [done|]. by exists (i + n).
    + rewrite List.Forall_forall in IH. assert (In f (fs1 ++ f :: fs2)) as Hin by (apply in_or_app; right; by left).
      pose proof (sumnat_in _ _ (List.in_map (fun f => S (vsize f.2)) _ _ Hin)).
      eapply runs_mono; [apply (reads_one_field depth i f fs2 a p4 rest); [done|done|by apply IH|lia|lia|exact Hp4]| |done].
      cbn beta. intros r p5 (n & j & -> & Hj & Hfit5 & Hu5 & Hp5). exists (zlen fs2). rewrite zlen_cons. pose proof (zlen_nonneg fs2).
      split; [lia|]. exists (fs1 ++ [f]), fs2, j. cbn [fst snd]. rewrite Hdone. split_and!; try done.
      * by rewrite <- app_assoc.
      * by rewrite Hu5.
  - exists [], fs, 0. split_and!; done.
  - unfold zlen. lia.
  - cbn beta. intros [res gs] p4 (Hgs & Hu & j & Hp4). cbn [fst snd] in *. subst gs. unfold readStructEnd. apply runs_bind.
    eapply in_step; [apply (moves_pop_idx top j (before t c))|exact Hp4|]. intros p5 Hp5.
    eapply in_step; [by apply moves_transition|exact Hp5|]. intros p6 Hp6. wp. by rewrite Z.add_0_r, Hu.
Qed.
Lemma reads_struct depth fs c' : Forall (fun f => dense_ih depth f.2) fs -> fits_fields fs fields = true ->
  (sumnat (map (fun f => S (vsize f.2)) fs) <= depth)%nat -> Z.of_nat (sumnat (map (fun f => S (vsize f.2)) fs)) < fuel ->
  after t c = Some c' ->
  dreads (let! '(n, _) := readStructBegin in
          let! '(result, fs) := iterate fuel (read_field (read_value depth fuel)) (n, []) in
          let! n := readStructEnd in ret (u32 (result + n), VStruct fs))
    (before t c) c' (d_fields fs fields) (VStruct fs).
Proof using All.
  intros IH Hfit Hd Hf Ha p rest Hp. eapply struct_begin; [exact Hp|]. intros p1 Hp1. by apply reads_members.
Qed.
End Struct.

(** The two kinds of container. *)
Section Containers.
Context (depth : nat) (t : Z) (c : stacks) (sp : TypeSpec) (st1 st2 : Z) (c' : stacks).
Context (Hsp : typespecs !! t = Some sp) (Hparts : parts sp = tcontainer st1 st2) (Ha : after t c = Some c').

Lemma reads_list ty et xs (mk : Z -> list tval -> tval) : ttype sp = ty -> ty = T_LIST \/ ty = T_SET ->
  has_type st1 et = true -> count_ok lim (zlen xs) = true -> forallb (fits st1) xs = true ->
  Forall (dense_ih depth) xs ->
  (sumnat (map (fun e => S (vsize e)) xs) <= depth)%nat -> Z.of_nat (sumnat (map (fun e => S (vsize e)) xs)) < fuel ->
  (forall x, In x xs -> type_of x = et) ->
  dreads (let! '(n, (et, size)) := read_elements ty in
          let! '(result, l) := for_ size (read_elem (read_value depth fuel) et) (n, []) in
          let! n := elements_end in ret (u32 (result + n), mk et l))
    (before t c) c' (vlq (zlen xs) ++ concat (map (d_enc st1) xs)) (mk et xs).
Proof using All.
  intros Hty Hls Het [Hc Hover]%count_ok_true Hfit IH Hd Hf Hts p rest Hp. pose proof (zlen_nonneg xs).
  destruct (has_type_spec _ _ Het) as (sp1 & Hsp1 & Hty1). rewrite <- app_assoc in Hp.
  eapply reads_step; [rewrite <- Hty; apply (reads_elements t c sp st1 st2 sp1 Hsp Hparts Hsp1 (zlen xs)); [lia|done]|exact Hp|].
  intros p1 Hp1. cbv beta iota. rewrite Hty1. apply runs_bind.
  eapply runs_mono; [apply (for_reads dense_in _ (d_enc st1) id (before st1 (before t c)) xs)| |done].
  - intros x a p2 rest2 Hx Hp2. rewrite List.Forall_forall, forallb_forall in *.
    pose proof (sumnat_in _ _ (List.in_map (fun e => S (vsize e)) _ _ Hx)). unfold read_elem. rewrite <- (Hts x Hx).
    eapply reads_step; [apply (IH x Hx st1 (before t c)); [by apply Hfit|lia|lia|]|exact Hp2|].
    { eapply after_element; [exact Hsp|by rewrite Hty|exact Hparts]. }
    intros p3 Hp3. wp. by autorewrite with wrap.
  - exact Hp1.
  - intros [k ys] p2 (Hk & Hys & Hp2). cbn [fst snd] in Hk, Hys. subst ys. rewrite map_id.
    eapply reads_end; [by apply (elements_end_ok t c sp st1 st2 sp1)|exact Hp2|]. intros p3 Hp3. wp.
    rewrite Z.add_0_r, Hk, zlen_app. by autorewrite with wrap.
Qed.

Lemma reads_dense_map kt vt es : ttype sp = T_MAP ->
  has_type st1 kt = true -> has_type st2 vt = true -> count_ok lim (zlen es) = true ->
  forallb (fun e => fits st1 e.1 && fits st2 e.2)%bool es = true ->
  Forall (fun e => dense_ih depth e.1 /\ dense_ih depth e.2) es ->
  (sumnat (map (fun e => S (vsize e.1 + vsize e.2)) es) <= depth)%nat ->
  Z.of_nat (sumnat (map (fun e => S (vsize e.1 + vsize e.2)) es)) < fuel ->
  (forall e, In e es -> type_of e.1 = kt /\ type_of e.2 = vt) ->
  dreads (let! '(n, (kt, vt, size)) := readMapBegin in
          let! '(result, es) := for_ size (read_entry (read_value depth fuel) kt vt) (n, []) in
          let! n := readMapEnd in ret (u32 (result + n), VMap kt vt es))
    (before t c) c' (vlq (zlen es) ++ concat (map (fun e => d_enc st1 e.1 ++ d_enc st2 e.2) es)) (VMap kt vt es).
Proof using All.
  intros Hty Hkt Hvt [Hc Hover]%count_ok_true Hfit IH Hd Hf Hts p rest Hp. pose proof (zlen_nonneg es).
  destruct (has_type_spec _ _ Hkt) as (sp1 & Hsp1 & Hty1). destruct (has_type_spec _ _ Hvt) as (sp2 & Hsp2 & Hty2).
  rewrite <- app_assoc in Hp.
  eapply reads_step; [apply (reads_mapBegin t c sp st1 st2 sp1 Hsp Hparts Hsp1 sp2 Hsp2 Hty (zlen es)); [lia|done]|exact Hp|].
  intros p1 Hp1. cbv beta iota. rewrite Hty1, Hty2. apply runs_bind.
  eapply runs_mono; [apply (for_reads dense_in _ (fun e => d_enc st1 e.1 ++ d_enc st2 e.2) id
    (before st1 (in_map true (before t c))) es)| |done].
  - intros e a p2 rest2 He Hp2. rewrite List.Forall_forall, forallb_forall in *. destruct (IH e He) as [IH1 IH2].
    pose proof (sumnat_in _ _ (List.in_map (fun e => S (vsize e.1 + vsize e.2)) _ _ He)).
    specialize (Hfit e He). apply andb_true_iff in Hfit as [Hf1 Hf2]. destruct (Hts e He) as [He1 He2].
    unfold read_entry. rewrite <- He1, <- He2, <- app_assoc in *.
    eapply reads_step; [apply (IH1 st1 (in_map true (before t c))); [done|lia|lia|exact (after_entry t c sp st1 st2 true Hsp Hty Hparts)]
      |exact Hp2|]. intros p3 Hp3. cbv beta iota.
    eapply reads_step; [apply (IH2 st2 (in_map false (before t c))); [done|lia|lia|exact (after_entry t c sp st1 st2 false Hsp Hty Hparts)]
      |exact Hp3|]. intros p4 Hp4. wp. rewrite zlen_app. autorewrite with wrap. rewrite Z.add_assoc. by destruct e.
  - exact Hp1.
  - intros [k ys] p2 (Hk & Hys & Hp2). cbn [fst snd] in Hk, Hys. subst ys. rewrite map_id.
    eapply reads_end; [by apply (mapEnd_ok t c sp st1 st2 sp1)|exact Hp2|]. intros p3 Hp3. wp.
    rewrite Z.add_0_r, Hk, zlen_app. by autorewrite with wrap.
Qed.
End Containers.

(** Elements of one type, as [fits] has them. *)
Lemma fits_types st ty xs : has_type st ty = true -> forallb (fits st) xs = true -> forall x, In x xs -> type_of x = ty.
Proof using Type.
  intros Ht Hf x Hx. rewrite forallb_forall in Hf. specialize (Hf x Hx). apply exact_type in Hf.
  unfold has_type in *. apply bool_decide_eq_true in Ht, Hf. congruence.
Qed.

(** [read_value] consumes exactly the encoding of [v] and rebuilds [v]. *)
Lemma read_value_dense v : forall depth, dense_ih depth v.
Proof using All.
  induction v as [b|z|z|z|z|z|s|fs IH|kt vt es IH|et l IH|et l IH|ty] using tval_nested_ind;
    intros [|depth] t c c' Hfit Hd Hf Ha; try (cbn [vsize] in Hd; lia);
    pose proof (exact_type _ _ Hfit) as Ht; cbn [DenseFormat.fits type_of] in Hfit, Ht; apply andb_true_iff in Hfit as [_ Hfit].
  - apply (reads_one VBool t c c' T_BOOL); [done|done|]. apply reads_based, readBool_ok.
  - apply (reads_one VByte t c c' T_BYTE); [done|done|]. apply reads_based, readByte_ok. auto with thrift.
  - apply (reads_one VI16 t c c' T_I16); [done|done|]. apply reads_signed; [lia|]. auto with thrift.
  - apply (reads_one VI32 t c c' T_I32); [done|done|]. apply reads_signed; [lia|]. auto with thrift.
  - apply (reads_one VI64 t c c' T_I64); [done|done|]. apply reads_signed; [lia|]. auto with thrift.
  - apply (reads_one VDouble t c c' T_DOUBLE); [done|done|]. apply reads_based, readDouble_ok. auto with thrift.
  - apply string_ok_true in Hfit as (? & ? & ?). apply (reads_one VString t c c' T_STRING); [done|done|]. by apply reads_sub_string.
  - destruct (has_type_spec _ _ Ht) as (sp & Hsp & Hty). change (fits_fields fs (fields_at t) = true) in Hfit. rewrite d_enc_struct.
    unfold fields_at in *. rewrite Hsp in *. cbn [from_option vsize] in *. unfold fields_of in *.
    destruct (parts sp) as [|metas specs|] eqn:Hparts; try (by destruct fs).
    apply (reads_struct t c sp metas specs Hsp Hty Hparts depth fs c'); [|done|lia|lia|done].
    eapply Forall_impl; [exact IH|]. intros f Hf'. apply Hf'.
  - destruct (has_type_spec _ _ Ht) as (sp & Hsp & Hty). cbn [d_enc vsize] in *. unfold parts_at in *. rewrite Hsp in *. cbn [from_option] in *.
    destruct (parts sp) as [| |st1 st2] eqn:Hparts; try done. apply andb_true_iff in Hfit as [Hfit Hes]. breflect.
    apply (reads_dense_map depth t c sp st1 st2 c'); try done; [|lia|lia|].
    + eapply Forall_impl; [exact IH|]. intros e [He1 He2]. split; [apply He1|apply He2].
    + intros e He. rewrite forallb_forall in Hes. specialize (Hes e He). apply andb_true_iff in Hes as [He1 He2].
      split; [eapply (fits_types st1 kt [e.1])|eapply (fits_types st2 vt [e.2])]; try done; cbn; rewrite ?He1, ?He2; auto.
  - destruct (has_type_spec _ _ Ht) as (sp & Hsp & Hty). cbn [d_enc vsize] in *. unfold parts_at in *. rewrite Hsp in *. cbn [from_option] in *.
    destruct (parts sp) as [| |st1 st2] eqn:Hparts; try done. apply andb_true_iff in Hfit as [Hfit Hl]. breflect.
    apply (reads_list depth t c sp st1 st2 c' Hsp Hparts Ha T_SET et l VSet); auto; [|lia|lia|by eapply fits_types].
    eapply Forall_impl; [exact IH|]. intros x Hx. apply Hx.
  - destruct (has_type_spec _ _ Ht) as (sp & Hsp & Hty). cbn [d_enc vsize] in *. unfold parts_at in *. rewrite Hsp in *. cbn [from_option] in *.
    destruct (parts sp) as [| |st1 st2] eqn:Hparts; try done. apply andb_true_iff in Hfit as [Hfit Hl]. breflect.
    apply (reads_list depth t c sp st1 st2 c' Hsp Hparts Ha T_LIST et l VList); auto; [|lia|lia|by eapply fits_types].
    eapply Forall_impl; [exact IH|]. intros x Hx. apply Hx.
  - done.
Qed.
End Exact.
End Values.
