(* ===== verification/DenseStruct.v ===== *)
(** * A whole struct over the dense protocol

    At the top the type spec given to the object is pushed and its fingerprint goes
    ahead of the fields; with the stacks empty again the object is at rest. *)

From S2P Require Export DenseWriter DenseValues.

Definition at_rest : stacks := Stacks [] [] [].

Section TopLevel.
Context `{Platform} `{TypeSpecs} {T : Type} `{TTransport T}.
Context (t : Z) (sp : TypeSpec) (Hsp : typespecs !! t = Some sp) (Hty : ttype sp = T_STRUCT).
Abbreviation P := (TDenseProtocol T).

Lemma moves_top_spec c : moves (T := T) (Some t) top_spec c (before t c) sp.
Proof using Hsp Hty.
  eapply moves_bind; [apply moves_get_standalone|].
  eapply moves_bind; [by apply moves_assert|]. eapply moves_bind; [apply moves_get_spec|].
  eapply moves_bind; [by apply moves_there|]. eapply moves_bind; [apply moves_assert; by rewrite Hty|].
  eapply moves_bind; [apply moves_push_ts|]. apply moves_ret.
Qed.

(** The four bytes that were read decide. *)
Lemma top_begin (p : P) (R : list Z -> T -> Prop) (Q : Z * list Z -> P -> Prop) E :
  dense_at (Some t) p at_rest ->
  succeeds (t_read FP_PREFIX_LEN) (BinaryProtocol.trans_ (base_ p)) R ->
  (forall got s p', R got s -> base_ p' = BinaryProtocol.set_trans s (base_ p) ->
     if bool_decide (got ++ zrep (FP_PREFIX_LEN - zlen got) junk = fp_prefix sp)
     then dense_at (Some t) p' (in_struct 0 (before t at_rest)) -> Q (0, []) p'
     else dense_at (Some t) p' at_rest -> E wrong_fingerprint p') ->
  runs readStructBegin p Q E.
Proof using Hsp Hty.
  intros Hp Hread Hk. unfold readStructBegin.
  eapply moves_step; [apply moves_get_ts|exact Hp|]. intros p1 Hb1 Hp1. cbn [ts at_rest]. apply runs_bind.
  eapply moves_step; [apply moves_top_spec|exact Hp1|]. intros p2 Hb2 Hp2. apply runs_bind. unfold on_trans, based, under. wp.
  rewrite Hb2, Hb1. eapply runs_mono; [exact Hread| |done]. cbn beta. intros got s HR. wp.
  set (p3 := set_base (BinaryProtocol.set_trans s (base_ p)) p2).
  assert (dense_at (Some t) p3 (before t at_rest)) as Hp3 by done.
  destruct (bool_decide _) eqn:Hfp.
  - apply runs_ret. eapply moves_step; [apply (moves_push_idx (Some t) (before t at_rest))|exact Hp3|]. intros p4 Hb4 Hp4. apply runs_ret.
    specialize (Hk got s p4 HR Hb4). rewrite Hfp in Hk. by apply Hk.
  - unfold resetState. wp. set (p4 := set_mkv [] (set_idx [] (set_ts [] p3))).
    specialize (Hk got s p4 HR eq_refl). rewrite Hfp in Hk. apply Hk. destruct Hp3 as (_ & _ & _ & ? & ?). by split_and?.
Qed.
End TopLevel.

(** Without a type spec the stacks are emptied and nothing is read. *)
Lemma top_spec_none `{Platform} `{TypeSpecs} {T : Type} `{ReadLaws T} lim c (p : TDenseProtocol T) bs :
  dense_in None lim p c bs -> raises top_spec p (fun e p' => e = no_type /\ dense_in None lim p' at_rest bs).
Proof.
  intros Hp. unfold top_spec, raises. eapply in_step; [apply moves_get_standalone|exact Hp|]. intros p2 Hp2.
  eapply in_step; [by apply moves_assert|exact Hp2|]. intros p3 Hp3.
  eapply in_step; [apply moves_get_spec|exact Hp3|]. intros p4 Hp4.
  eapply runs_reset; [exact Hp4|]. intros p5 Hp5. by wp.
Qed.

(** ** Writing *)

Lemma write_dense_struct `{Platform} `{TypeSpecs} {T : Type} `{WriteLaws T} t sp lim fs p out room :
  let v := VStruct fs in
  typespecs !! t = Some sp -> zlen (fp_prefix sp) = FP_PREFIX_LEN -> fits lim (string_ok lim) (in_ub 64) t v = true ->
  dense_out (Some t) p at_rest out room -> FP_PREFIX_LEN + zlen (d_enc t v) <= room ->
  succeeds (write_value v) p (fun n p' => n = u32 (zlen (d_enc t v)) /\
    dense_out (Some t) p' at_rest (out ++ fp_prefix sp ++ d_enc t v) (room - FP_PREFIX_LEN - zlen (d_enc t v))).
Proof.
  intros v Hsp Hlen Hfit Hp Hr. pose proof Hfit as Hall. unfold v in *. rewrite fits_struct in Hfit.
  apply andb_true_iff in Hfit as [(sp' & Hsp' & Hty)%has_type_spec Hfit]. assert (sp' = sp) as -> by congruence.
  rewrite d_enc_struct in *. unfold fields_at in *. rewrite Hsp in *. cbn [from_option] in *. unfold fields_of in *.
  destruct (parts sp) as [|metas specs|] eqn:Hparts; try (by destruct fs). unfold FP_PREFIX_LEN in *.
  pose proof (zlen_nonneg (d_fields fs (zip metas specs))).
  cbn [write_value p_writeStructBegin TDenseProtocol_protocol]. unfold writeStructBegin at 1. apply runs_bind.
  eapply out_step; [apply moves_get_ts|exact Hp|]. intros p1 Hp1. cbn [ts at_rest]. apply runs_bind.
  eapply out_step; [by apply moves_top_spec|exact Hp1|]. intros p2 [Hp2 Ho2]. unfold on_trans, based, under. wp.
  eapply runs_mono; [apply (write_ok _ out room (fp_prefix sp) Ho2); lia| |done]. cbn beta. intros [] s Hs.
  eapply out_step; [apply (moves_push_idx (Some t) (before t at_rest))|by split|].
  intros p3 Hp3. apply runs_ret.
  assert (Forall (fun f => written (Some t) lim f.2) fs) as Hall' by (apply List.Forall_forall; intros f _; by apply write_value_dense).
  pose proof (writes_members (Some t) ltac:(done) lim t at_rest sp metas specs Hsp Hty Hparts fs at_rest Hall' Hfit eq_refl) as Hw.
  eapply runs_mono; [apply (Hw p3 _ _ Hp3); lia| |done].
  cbn beta. intros n p4 [-> Hp4]. split; [done|]. eapply dense_out_eq; [exact Hp4|by rewrite app_assoc|lia].
Qed.

(** ** Reading *)

Section Reading.
Context `{Platform} `{!Unbounded} `{TypeSpecs} {T : Type} `{ReadLaws T}.
Context (lim : limits) (t : Z) (sp : TypeSpec) (metas : list FieldMeta) (specs : list Z).
Context (Hsp : typespecs !! t = Some sp) (Hty : ttype sp = T_STRUCT) (Hparts : parts sp = tstruct metas specs).
Abbreviation P := (TDenseProtocol T).
Abbreviation dense_in := (dense_in (Some t) lim).

(** The transport gives the whole prefix at once. *)
Lemma read_dense_struct (p : P) fs rest depth fuel :
  let v := VStruct fs in
  zlen (fp_prefix sp) = FP_PREFIX_LEN -> fits lim (string_ok lim) (in_ub 64) t v = true ->
  (vsize v <= depth)%nat -> Z.of_nat (vsize v) < fuel ->
  dense_in p at_rest (fp_prefix sp ++ d_enc t v ++ rest) ->
  succeeds (t_read FP_PREFIX_LEN) (BinaryProtocol.trans_ (base_ p))
    (fun got s => got = fp_prefix sp /\ incoming s (d_enc t v ++ rest)) ->
  succeeds (read_value depth fuel T_STRUCT) p (fun r p' =>
    r = (u32 (zlen (d_enc t v)), v) /\ dense_in p' at_rest rest).
Proof using All.
  intros v Hlen Hfit Hd Hf [Hp (_ & Hlim & Hbuf)] Hread. unfold v in *. rewrite fits_struct in Hfit. apply andb_true_iff in Hfit as [_ Hfit].
  rewrite d_enc_struct in *. unfold fields_at in *. rewrite Hsp in *. cbn [from_option] in *. unfold fields_of in *. rewrite Hparts in *.
  cbn [vsize] in Hd, Hf. destruct depth as [|depth]; [lia|].
  apply runs_bind. eapply (top_begin t sp Hsp Hty); [exact Hp|exact Hread|]. cbn beta. intros got s p1 [-> Hs] Hb.
  rewrite Hlen, Z.sub_diag. change (zrep 0 junk) with (@nil Z). rewrite app_nil_r, bool_decide_eq_true_2 by done. intros Hp1.
  apply (reads_members (Some t) ltac:(done) lim fuel t at_rest sp metas specs Hsp Hty Hparts depth fs at_rest); try done; try lia.
  - apply List.Forall_forall. intros f _. by apply read_value_dense.
  - split; [exact Hp1|]. rewrite Hb. by split_and!.
Qed.

Context `{!EndLaws T} (rank : Z -> Z) (Hok : specs_ok rank) (fuel : Z).
Context (Hfuel : map_Forall (fun _ sp => zlen (fields_of sp) < fuel) typespecs).

Lemma read_dense_any (p : P) bs depth : 0 <= rank t < Z.of_nat depth -> dense_in p at_rest bs ->
  runs (read_value depth fuel T_STRUCT) p (fun r p' => fits lim (size_ok lim) (fun _ => true) t r.2 = true /\
    exists bs', dense_in p' at_rest bs' /\ zlen bs' <= zlen bs) (fun _ _ => True).
Proof using All.
  intros Hd [Hp (Hin & Hlim & Hbuf)]. destruct depth as [|depth]; [lia|].
  apply runs_bind. eapply (top_begin t sp Hsp Hty); [exact Hp|by apply read_prefix|]. cbn beta. intros got s p1 (k & -> & Hs & Hk & _) Hb.
  case_bool_decide; intros Hp1; [|done]. assert (dense_in p1 (in_struct 0 (before t at_rest)) (zdrop k bs)) as Hp2.
  { split; [exact Hp1|]. rewrite Hb. by split_and!. }
  assert (any_below (T := T) (Some t) lim rank fuel depth (rank t)) as Hbelow.
  { intros s' Hs'. apply (read_value_any (Some t) ltac:(done) lim rank Hok fuel Hfuel depth). lia. }
  eapply runs_mono; [apply (any_members (Some t) ltac:(done) lim rank Hok fuel Hfuel t at_rest sp metas specs Hsp Hty Hparts
    depth at_rest Hbelow eq_refl p1 _ Hp2)| |done].
  cbn beta. intros r p3 (Hfit & bs' & Hp3 & Hle). split; [done|]. exists bs'. split; [done|]. zlist.
Qed.
End Reading.
