(* ===== verification/CompactProtocol.v ===== *)
(** * [TCompactProtocolT]: protocol/TCompactProtocol.h and .tcc

    The compact protocol over any transport: varints, zigzag, field ids as
    deltas against a stack of last ids, and booleans folded into field headers. *)

From S2P Require Export Transport Memory Wire Varint.

(** [booleanField_]: a boolean field whose header waits for its value. *)
Record boolean_field := BooleanField {
  bf_name : option (list Z);
  bf_fieldType : Z;
  bf_fieldId : Z
}.

(** [boolValue_]: a boolean read with its field's header. *)
Record bool_value := BoolValue { hasBoolValue : bool; boolValue : bool }.

Record TCompactProtocolT (T : Type) := CompProt {
  trans_ : T;
  booleanField_ : boolean_field;
  boolValue_ : bool_value;
  lastField_ : list Z;
  lastFieldId_ : Z;
  limits_ : limits;
  string_buf_ : option (list Z);
  string_buf_size_ : Z
}.
Arguments CompProt {T}.
Arguments trans_ {T}.
Arguments booleanField_ {T}.
Arguments boolValue_ {T}.
Arguments lastField_ {T}.
Arguments lastFieldId_ {T}.
Arguments limits_ {T}.
Arguments string_buf_ {T}.
Arguments string_buf_size_ {T}.

Definition PROTOCOL_ID : Z := s8 0x82.
Definition VERSION_N : Z := 1.
Definition VERSION_MASK : Z := 0x1f.
Definition TYPE_MASK : Z := s8 0xE0.
Definition TYPE_SHIFT_AMOUNT : Z := 5.

(** [detail::compact::Types] *)
Definition CT_STOP : Z := 0x00.
Definition CT_BOOLEAN_TRUE : Z := 0x01.
Definition CT_BOOLEAN_FALSE : Z := 0x02.
Definition CT_BYTE : Z := 0x03.
Definition CT_I16 : Z := 0x04.
Definition CT_I32 : Z := 0x05.
Definition CT_I64 : Z := 0x06.
Definition CT_DOUBLE : Z := 0x07.
Definition CT_BINARY : Z := 0x08.
Definition CT_LIST : Z := 0x09.
Definition CT_SET : Z := 0x0A.
Definition CT_MAP : Z := 0x0B.
Definition CT_STRUCT : Z := 0x0C.

Definition TTypeToCType : list Z :=
  [CT_STOP; 0; CT_BOOLEAN_TRUE; CT_BYTE; CT_DOUBLE; 0; CT_I16; 0; CT_I32; 0; CT_I64;
   CT_BINARY; CT_STRUCT; CT_MAP; CT_SET; CT_LIST].

Section Operations.
Context `{Platform} {T : Type} `{TTransport T}.
Abbreviation P := (TCompactProtocolT T).

(** ** Construction *)

(** The constructor leaves [fieldType], [fieldId] and [boolValue] uninitialised;
    they are read only after they have been set. *)
Definition new_protocol_limits (trans : T) (string_limit container_limit : Z) : P :=
  CompProt trans (BooleanField None 0 0) (BoolValue false false) [] 0
    (Limits string_limit container_limit) None 0.
Definition new_protocol (trans : T) : P := new_protocol_limits trans 0 0.

Definition set_trans (t : T) (p : P) : P :=
  CompProt t (booleanField_ p) (boolValue_ p) (lastField_ p) (lastFieldId_ p) (limits_ p)
    (string_buf_ p) (string_buf_size_ p).
Definition set_booleanField (b : boolean_field) (p : P) : P :=
  CompProt (trans_ p) b (boolValue_ p) (lastField_ p) (lastFieldId_ p) (limits_ p)
    (string_buf_ p) (string_buf_size_ p).
Definition set_boolValue (b : bool_value) (p : P) : P :=
  CompProt (trans_ p) (booleanField_ p) b (lastField_ p) (lastFieldId_ p) (limits_ p)
    (string_buf_ p) (string_buf_size_ p).
Definition set_last (stack : list Z) (id : Z) (p : P) : P :=
  CompProt (trans_ p) (booleanField_ p) (boolValue_ p) stack id (limits_ p)
    (string_buf_ p) (string_buf_size_ p).
Definition set_string_buf (b : list Z) (size : Z) (p : P) : P :=
  CompProt (trans_ p) (booleanField_ p) (boolValue_ p) (lastField_ p) (lastFieldId_ p) (limits_ p)
    (Some b) size.

(** A call on [trans_]. *)
Definition under {A} (m : M T A) : M P A := lift trans_ set_trans m.

(** ** Writing *)

Definition writeByte (byte : Z) : M P Z :=
  do! under (t_write [u8 byte]) in ret 1.

(** One round of the loops of [writeVarint32] and [writeVarint64], whose buffers
    hold [cap] bytes; [buf] is what has been stored, [wsize] its length. *)
Definition varint_body (cap : Z) (a : Z * list Z) : M P (Z * list Z + list Z) :=
  let '(n, buf) := a in
  do! require (zlen buf <? cap) in
  if Z.land n (Z.lnot 0x7f) =? 0
  then ret (inr (buf ++ [u8 n]))
  else ret (inl (Z.shiftr n 7, buf ++ [u8 (Z.lor (Z.land n 0x7f) 0x80)])).

Definition writeVarint32 (n : Z) : M P Z :=
  let! buf := iterate 11 (varint_body 5) (n, []) in
  do! under (t_write buf) in ret (zlen buf).

Definition writeVarint64 (n : Z) : M P Z :=
  let! buf := iterate 11 (varint_body 10) (n, []) in
  do! under (t_write buf) in ret (zlen buf).

Definition writeI16 (i16 : Z) : M P Z := writeVarint32 (i32ToZigzag i16).
Definition writeI32 (i32 : Z) : M P Z := writeVarint32 (i32ToZigzag i32).
Definition writeI64 (i64 : Z) : M P Z := writeVarint64 (i64ToZigzag i64).

Definition writeDouble (bits : Z) : M P Z :=
  let bits := htolell bits in
  do! under (t_write (store 8 bits)) in ret 8.

Definition writeBinary (str : list Z) : M P Z :=
  let ssize := u32 (zlen str) in
  let! n := writeVarint32 ssize in
  do! under (t_write (ztake ssize str)) in ret (u32 (n + ssize)).

Definition writeString (str : list Z) : M P Z := writeBinary str.

(** An index outside the table of 16 entries is undefined behaviour. *)
Definition getCompactType (ttype : Z) : M P Z :=
  match znth TTypeToCType ttype with
  | Some t => ret t
  | None => crash_ UndefinedBehaviour
  end.

Definition writeMessageBegin (name : list Z) (messageType seqid : Z) : M P Z :=
  let! a := writeByte PROTOCOL_ID in
  let! b := writeByte (s8 (Z.lor (Z.land VERSION_N VERSION_MASK)
              (Z.land (s32 (Z.shiftl messageType TYPE_SHIFT_AMOUNT)) TYPE_MASK))) in
  let! c := writeVarint32 (u32 seqid) in
  let! d := writeString name in
  ret (u32 (u32 (u32 (a + b) + c) + d)).

Definition writeFieldBeginInternal (name : option (list Z)) (fieldType fieldId typeOverride : Z)
    : M P Z :=
  let! typeToWrite := if typeOverride =? -1 then getCompactType fieldType else ret typeOverride in
  let! last := gets lastFieldId_ in
  let! wsize :=
    if ((last <? fieldId) && (fieldId - last <=? 15))%bool then
      writeByte (s8 (Z.lor (Z.shiftl (fieldId - last) 4) typeToWrite))
    else
      let! a := writeByte typeToWrite in
      let! b := writeI16 fieldId in
      ret (u32 (a + b)) in
  do! modify (fun p => set_last (lastField_ p) fieldId p) in
  ret wsize.

Definition writeFieldBegin (name : option (list Z)) (fieldType fieldId : Z) : M P Z :=
  if fieldType =? T_BOOL then
    do! modify (set_booleanField (BooleanField name fieldType fieldId)) in ret 0
  else
    let! n := writeFieldBeginInternal name fieldType fieldId (-1) in ret (u32 n).

Definition writeFieldStop : M P Z := writeByte T_STOP.

Definition writeStructBegin (name : option (list Z)) : M P Z :=
  do! modify (fun p => set_last (lastFieldId_ p :: lastField_ p) 0 p) in ret 0.

(** [top()] and [pop()] of an empty stack are undefined behaviour. *)
Definition pop_last : M P unit :=
  let! stack := gets lastField_ in
  match stack with
  | [] => crash_ UndefinedBehaviour
  | id :: stack => modify (set_last stack id)
  end.

Definition writeStructEnd : M P Z := do! pop_last in ret 0.

Definition writeCollectionBegin (elemType size : Z) : M P Z :=
  if size <=? 14 then
    let! t := getCompactType elemType in
    writeByte (s8 (Z.lor (Z.shiftl size 4) t))
  else
    let! t := getCompactType elemType in
    let! a := writeByte (s8 (Z.lor 0xf0 t)) in
    let! b := writeVarint32 (u32 size) in
    ret (u32 (a + b)).

Definition writeListBegin (elemType size : Z) : M P Z := writeCollectionBegin elemType (s32 size).
Definition writeSetBegin (elemType size : Z) : M P Z := writeCollectionBegin elemType (s32 size).

Definition writeMapBegin (keyType valType size : Z) : M P Z :=
  if size =? 0 then writeByte 0 else
  let! a := writeVarint32 size in
  let! k := getCompactType keyType in
  let! v := getCompactType valType in
  let! b := writeByte (s8 (Z.lor (Z.shiftl k 4) v)) in
  ret (u32 (a + b)).

Definition writeBool (value : bool) : M P Z :=
  let ct := if value then CT_BOOLEAN_TRUE else CT_BOOLEAN_FALSE in
  let! bf := gets booleanField_ in
  match bf_name bf with
  | Some _ =>
      let! n := writeFieldBeginInternal (bf_name bf) (bf_fieldType bf) (bf_fieldId bf) ct in
      do! modify (set_booleanField (BooleanField None (bf_fieldType bf) (bf_fieldId bf))) in
      ret (u32 n)
  | None => writeByte ct
  end.

Definition writeMessageEnd : M P Z := ret 0.
Definition writeMapEnd : M P Z := ret 0.
Definition writeListEnd : M P Z := ret 0.
Definition writeSetEnd : M P Z := ret 0.
Definition writeFieldEnd : M P Z := ret 0.

(** ** Reading *)

Definition readByte : M P (Z * Z) :=
  let! b := under (t_readAll 1) in ret (1, s8 (load b)).

Definition overlong : exn :=
  EProtocol TProtocolException.INVALID_DATA "Variable-length int over 10 bytes.".

(** One round of the loops of [readVarint64], on [rsize], [val] and [shift]: over
    the borrowed bytes, and over single reads. *)
Definition fast_body (borrowed : list Z) (a : Z * Z * Z) : M P (Z * Z * Z + Z * Z) :=
  let '(rsize, val, shift) := a in
  match znth borrowed rsize with
  | None => crash_ UndefinedBehaviour
  | Some byte =>
      let rsize := rsize + 1 in
      let val := Z.lor val (u64 (Z.shiftl (Z.land byte 0x7f) shift)) in
      let shift := shift + 7 in
      if Z.land byte 0x80 =? 0 then
        do! under (t_consume rsize) in ret (inr (rsize, s64 val))
      else if rsize =? 10 then throw overlong
      else ret (inl (rsize, val, shift))
  end.

Definition slow_body (a : Z * Z * Z) : M P (Z * Z * Z + Z * Z) :=
  let '(rsize, val, shift) := a in
  let! b := under (t_readAll 1) in
  let byte := load b in
  let rsize := rsize + zlen b in
  let val := Z.lor val (u64 (Z.shiftl (Z.land byte 0x7f) shift)) in
  let shift := shift + 7 in
  if Z.land byte 0x80 =? 0 then ret (inr (rsize, s64 val))
  else if 10 <=? rsize then throw overlong
  else ret (inl (rsize, val, shift)).

Definition readVarint64 : M P (Z * Z) :=
  let! borrowed := under (t_borrow 10) in
  match borrowed with
  | Some b => iterate 11 (fast_body b) (0, 0, 0)
  | None => iterate 11 slow_body (0, 0, 0)
  end.

Definition readVarint32 : M P (Z * Z) :=
  let! '(rsize, val) := readVarint64 in ret (rsize, s32 val).

Definition readI16 : M P (Z * Z) :=
  let! '(rsize, value) := readVarint32 in ret (rsize, s16 (zigzagToI32 (u32 value))).
Definition readI32 : M P (Z * Z) :=
  let! '(rsize, value) := readVarint32 in ret (rsize, zigzagToI32 (u32 value)).
Definition readI64 : M P (Z * Z) :=
  let! '(rsize, value) := readVarint64 in ret (rsize, zigzagToI64 (u64 value)).

Definition readDouble : M P (Z * Z) :=
  let! b := under (t_readAll 8) in ret (8, letohll (load b)).

Definition readBinary : M P (Z * list Z) :=
  let! '(rsize, size) := readVarint32 in
  let! lim := gets limits_ in
  if size =? 0 then ret (rsize, []) else
  if size <? 0 then throw (EProtocol TProtocolException.NEGATIVE_SIZE "") else
  if string_over lim size then throw (EProtocol TProtocolException.SIZE_LIMIT "") else
  let! p := gets id in
  let! '(b, bsize) := string_buffer (string_buf_ p) (string_buf_size_ p) size in
  do! modify (set_string_buf b bsize) in
  let! got := under (t_readAll (u32 size)) in
  let! b' := store_mem b 0 got in
  do! modify (set_string_buf b' bsize) in
  let! str := load_mem b' 0 size in
  ret (u32 (rsize + u32 size), str).

Definition readString : M P (Z * list Z) := readBinary.

(** [std::string("don't know what type: ") + (char)type] *)
Definition unknown_type (type : Z) : exn :=
  EThrift (String.append "don't know what type: "
             (String (ascii_of_N (Z.to_N (u8 type))) EmptyString)).

Definition getTType (type : Z) : M P Z :=
  if type =? T_STOP then ret T_STOP
  else if ((type =? CT_BOOLEAN_FALSE) || (type =? CT_BOOLEAN_TRUE))%bool then ret T_BOOL
  else if type =? CT_BYTE then ret T_BYTE
  else if type =? CT_I16 then ret T_I16
  else if type =? CT_I32 then ret T_I32
  else if type =? CT_I64 then ret T_I64
  else if type =? CT_DOUBLE then ret T_DOUBLE
  else if type =? CT_BINARY then ret T_STRING
  else if type =? CT_LIST then ret T_LIST
  else if type =? CT_SET then ret T_SET
  else if type =? CT_MAP then ret T_MAP
  else if type =? CT_STRUCT then ret T_STRUCT
  else throw (unknown_type type).

Definition readMessageBegin : M P (Z * (list Z * Z * Z)) :=
  let! '(a, protocolId) := readByte in
  if negb (protocolId =? PROTOCOL_ID) then
    throw (EProtocol TProtocolException.BAD_VERSION "Bad protocol identifier")
  else
  let! '(b, versionAndType) := readByte in
  let version := s8 (Z.land versionAndType VERSION_MASK) in
  if negb (version =? VERSION_N) then
    throw (EProtocol TProtocolException.BAD_VERSION "Bad protocol version")
  else
  let messageType := Z.land (Z.shiftr versionAndType TYPE_SHIFT_AMOUNT) 0x03 in
  let! '(c, seqid) := readVarint32 in
  let! '(d, name) := readString in
  ret (u32 (u32 (u32 (a + b) + c) + d), (name, messageType, seqid)).

Definition readStructBegin : M P (Z * list Z) :=
  do! modify (fun p => set_last (lastFieldId_ p :: lastField_ p) 0 p) in ret (0, []).

Definition readStructEnd : M P Z := do! pop_last in ret 0.

Definition readFieldBegin : M P (Z * (Z * Z)) :=
  let! '(a, byte) := readByte in
  let type := Z.land byte 0x0f in
  if type =? T_STOP then ret (a, (T_STOP, 0)) else
  let modifier := Z.shiftr (Z.land (u8 byte) 0xf0) 4 in
  let! '(rsize, fieldId) :=
    if modifier =? 0 then
      let! '(b, fieldId) := readI16 in ret (u32 (a + b), fieldId)
    else
      let! last := gets lastFieldId_ in ret (a, s16 (last + modifier)) in
  let! fieldType := getTType type in
  do! (if ((type =? CT_BOOLEAN_TRUE) || (type =? CT_BOOLEAN_FALSE))%bool
       then modify (set_boolValue (BoolValue true (type =? CT_BOOLEAN_TRUE)))
       else ret tt) in
  do! modify (fun p => set_last (lastField_ p) fieldId p) in
  ret (rsize, (fieldType, fieldId)).

(** The test of a container's size. *)
Definition checkSize (size : Z) : M P unit :=
  let! lim := gets limits_ in
  if size <? 0 then throw (EProtocol TProtocolException.NEGATIVE_SIZE "")
  else if container_over lim size then throw (EProtocol TProtocolException.SIZE_LIMIT "")
  else ret tt.

Definition readMapBegin : M P (Z * (Z * Z * Z)) :=
  let! '(a, msize) := readVarint32 in
  let! '(b, kvType) := if negb (msize =? 0) then readByte else ret (0, 0) in
  do! checkSize msize in
  let! keyType := getTType (s8 (Z.shiftr (u8 kvType) 4)) in
  let! valType := getTType (s8 (Z.land (u8 kvType) 0xf)) in
  ret (u32 (a + b), (keyType, valType, u32 msize)).

Definition readListBegin : M P (Z * (Z * Z)) :=
  let! '(a, size_and_type) := readByte in
  let lsize := Z.land (Z.shiftr (u8 size_and_type) 4) 0x0f in
  let! '(rsize, lsize) :=
    if lsize =? 15 then let! '(b, lsize) := readVarint32 in ret (u32 (a + b), lsize)
    else ret (a, lsize) in
  do! checkSize lsize in
  let! elemType := getTType (s8 (Z.land size_and_type 0x0f)) in
  ret (rsize, (elemType, u32 lsize)).

Definition readSetBegin : M P (Z * (Z * Z)) := readListBegin.

Definition readBool : M P (Z * bool) :=
  let! bv := gets boolValue_ in
  if hasBoolValue bv then
    do! modify (set_boolValue (BoolValue false (boolValue bv))) in ret (0, boolValue bv)
  else
    let! '(_, val) := readByte in ret (1, val =? CT_BOOLEAN_TRUE).

Definition readMessageEnd : M P Z := ret 0.
Definition readFieldEnd : M P Z := ret 0.
Definition readMapEnd : M P Z := ret 0.
Definition readListEnd : M P Z := ret 0.
Definition readSetEnd : M P Z := ret 0.

#[export] Instance TCompactProtocol_protocol : TProtocol P := {
  p_writeMessageBegin := writeMessageBegin;
  p_writeMessageEnd := writeMessageEnd;
  p_writeStructBegin := writeStructBegin;
  p_writeStructEnd := writeStructEnd;
  p_writeFieldBegin := writeFieldBegin;
  p_writeFieldEnd := writeFieldEnd;
  p_writeFieldStop := writeFieldStop;
  p_writeMapBegin := writeMapBegin;
  p_writeMapEnd := writeMapEnd;
  p_writeListBegin := writeListBegin;
  p_writeListEnd := writeListEnd;
  p_writeSetBegin := writeSetBegin;
  p_writeSetEnd := writeSetEnd;
  p_writeBool := writeBool;
  p_writeByte := writeByte;
  p_writeI16 := writeI16;
  p_writeI32 := writeI32;
  p_writeI64 := writeI64;
  p_writeDouble := writeDouble;
  p_writeString := writeString;
  p_writeBinary := writeBinary;
  p_readMessageBegin := readMessageBegin;
  p_readMessageEnd := readMessageEnd;
  p_readStructBegin := readStructBegin;
  p_readStructEnd := readStructEnd;
  p_readFieldBegin := readFieldBegin;
  p_readFieldEnd := readFieldEnd;
  p_readMapBegin := readMapBegin;
  p_readMapEnd := readMapEnd;
  p_readListBegin := readListBegin;
  p_readListEnd := readListEnd;
  p_readSetBegin := readSetBegin;
  p_readSetEnd := readSetEnd;
  p_readBool := readBool;
  p_readByte := readByte;
  p_readI16 := readI16;
  p_readI32 := readI32;
  p_readI64 := readI64;
  p_readDouble := readDouble;
  p_readString := readString;
  p_readBinary := readBinary
}.
End Operations.

(** ** The wire format *)

Definition ctype (t : Z) : Z := default 0 (znth TTypeToCType t).

(** A field header with the compact type [ct], short when the id is a delta of
    1 to 15 against the last one. *)
Definition e_header (last ct id : Z) : list Z :=
  if ((last <? id) && (id - last <=? 15))%bool then [16 * (id - last) + ct]
  else [ct] ++ varint (zigzag id).

Definition e_boolean (b : bool) : Z := if b then CT_BOOLEAN_TRUE else CT_BOOLEAN_FALSE.

Definition compact_format : WireFormat := {|
  e_bool b := [e_boolean b];
  e_byte z := [u8 z];
  e_i16 z := varint (zigzag z);
  e_i32 z := varint (zigzag z);
  e_i64 z := varint (zigzag z);
  e_double bits := le_bytes 8 bits;
  e_string s := varint (zlen s) ++ s;
  e_field last t id := e_header last (ctype t) id;
  e_boolfield last id b := e_header last (e_boolean b) id;
  e_stop := [0];
  e_map kt vt n := if n =? 0 then [0] else varint n ++ [16 * ctype kt + ctype vt];
  e_coll t n := if n <=? 14 then [16 * n + ctype t] else [0xf0 + ctype t] ++ varint n;
  empty_map_types _ _ := (T_STOP, T_STOP)
|}.
#[local] Existing Instance compact_format.

Definition nibbles_ok (x : Z) : bool :=
  (Z.land (s8 x) 0x0f =? x mod 16) && (Z.shiftr (Z.land (u8 (s8 x)) 0xf0) 4 =? x / 16) &&
  (Z.land (Z.shiftr (u8 (s8 x)) 4) 0x0f =? x / 16) && (s8 (Z.shiftr (u8 (s8 x)) 4) =? x / 16) &&
  (s8 (Z.land (u8 (s8 x)) 0xf) =? x mod 16) && (s8 (Z.land (s8 x) 0x0f) =? x mod 16) &&
  (u8 (s8 (Z.lor (Z.shiftl (x / 16) 4) (x mod 16))) =? x) && (u8 (s8 x) =? x).

Lemma nibbles x : is_byte x -> nibbles_ok x = true.
Proof. apply byte_cases. by vm_compute. Qed.

(** The two halves of a header byte. *)
Lemma nibble_pair a b :
  0 <= a < 16 -> 0 <= b < 16 ->
  is_byte (16 * a + b) /\ (16 * a + b) / 16 = a /\ (16 * a + b) mod 16 = b.
Proof. intros. unfold is_byte. split_and!; dlia. Qed.

Lemma pack_nibbles a b :
  0 <= a < 16 -> 0 <= b < 16 -> u8 (s8 (Z.lor (Z.shiftl a 4) b)) = 16 * a + b.
Proof.
  intros Ha Hb. destruct (nibble_pair a b Ha Hb) as (Hx & Hd & Hm).
  pose proof (nibbles _ Hx) as Hn. unfold nibbles_ok in Hn. breflect.
  by rewrite Hd, Hm in *.
Qed.

Lemma ctype_range t : In t value_types -> 0 < ctype t < 13.
Proof. intros Ht. by repeat destruct Ht as [<-|Ht]. Qed.

Lemma ctype_znth t : In t value_types -> znth TTypeToCType t = Some (ctype t).
Proof. intros Ht. by repeat destruct Ht as [<-|Ht]. Qed.

(** ** What is written *)

Section Writing.
Context `{Platform} {T : Type} `{WriteLaws T}.
Abbreviation P := (TCompactProtocolT T).

(** The writer with a given [booleanField_], and between two fields. *)
Definition comp_at (bf : boolean_field) (p : P) (c out : list Z) (room : Z) : Prop :=
  outgoing (trans_ p) out room /\ booleanField_ p = bf /\ c = lastFieldId_ p :: lastField_ p.
Definition comp_out (p : P) (c out : list Z) (room : Z) : Prop :=
  bf_name (booleanField_ p) = None /\ comp_at (booleanField_ p) p c out room.

Lemma writes_between m c c' e :
  (forall bf, writes (comp_at bf) m c c' e) -> writes comp_out m c c' e.
Proof.
  intros Hm p out room [Hb Hp] Hr. eapply runs_mono; [by apply Hm| |done].
  cbn. intros n p' (-> & Ho & Hbf & Hc). split; [done|]. unfold comp_out. rewrite Hbf.
  split; [done|]. by split_and!.
Qed.

Section At.
Context (bf : boolean_field).

Lemma comp_writes_bytes d k c :
  k = zlen d -> zlen d < 2 ^ 32 -> writes (comp_at bf) (do! under (t_write d) in ret k) c c d.
Proof.
  intros -> Hd p out room (Hp & Hb & Hc) Hr. unfold under. wp.
  eapply runs_mono; [by eapply write_ok| |done]. cbn. intros _ t Ht. wp.
  split; [|done]. symmetry. apply wrapu_small. split; [apply zlen_nonneg|done].
Qed.

(** The encoding loop stores [varint_upto], within its buffer. *)
Lemma varint_loop cap k n (p : P) :
  0 <= n < 128 ^ Z.of_nat (S k) -> Z.of_nat (S k) <= cap -> (k <= 9)%nat ->
  succeeds (iterate 11 (varint_body cap) (n, [])) p (fun buf p' => buf = varint n /\ p' = p).
Proof.
  intros Hn Hcap Hk.
  apply (runs_iterate (fun a p' => p' = p /\ exists j m, zlen a.2 = Z.of_nat (k - j) /\ (j <= k)%nat /\
      0 <= a.1 < 128 ^ Z.of_nat (S j) /\ varint n = a.2 ++ varint_upto (S m) a.1 /\ (j <= m)%nat)
    (fun a => 10 - zlen a.2)).
  - intros [x buf] p1 (-> & j & m & Hl & Hj & Hx & Hv & Hm). cbn [fst snd] in *.
    unfold varint_body. wp. apply runs_require; [lia|].
    assert ((Z.land x (Z.lnot 0x7f) =? 0) = (x <? 128)) as ->.
    { change 0x7f with (Z.ones 7). rewrite <- Z.ldiff_land, Z.ldiff_ones_r by lia.
      rewrite Z.shiftr_div_pow2, Z.shiftl_mul_pow2 by lia. change (2 ^ 7) with 128.
      destruct (x <? 128) eqn:E; breflect; [apply Z.eqb_eq|apply Z.eqb_neq]; dlia. }
    rewrite varint_upto_S in Hv. bif; wp.
    + rewrite u8_byte by (unfold is_byte; lia). done.
    + destruct j as [|j]; [change (128 ^ Z.of_nat 1) with 128 in Hx; lia|].
      destruct m as [|m]; [lia|]. rewrite Nat2Z.inj_succ, Z.pow_succ_r in Hx by lia.
      rewrite Z.shiftr_div_pow2 by lia. change (2 ^ 7) with 128. split.
      * split; [done|]. exists j, m. cbn [fst snd]. zlist. split_and!; try lia.
        { apply Z.div_le_lower_bound; lia. }
        { apply Z.div_lt_upper_bound; lia. }
        rewrite Hv, <- app_assoc. f_equal. cbn [app]. f_equal.
        rewrite land_127, (lor_low _ _ 7) by (try done; dlia). rewrite u8_byte; [done|unfold is_byte; dlia].
      * cbn [snd]. zlist.
  - split; [done|]. exists k, 9%nat. cbn [fst snd]. split_and!; try done; try lia.
    rewrite Nat.sub_diag. done.
  - cbn. done.
Qed.

Lemma zlen_varint n : in_u 64 n -> 0 < zlen (varint n) <= 10.
Proof using Type.
  intros Hn. unfold varint. split; [apply varint_upto_pos|].
  pose proof (zlen_varint_upto 10 n (proj1 Hn)). lia.
Qed.

Lemma writeVarint32_ok c n : in_u 32 n -> writes (comp_at bf) (writeVarint32 n) c c (varint n).
Proof.
  intros Hn p out room Hp Hr. unfold writeVarint32. wp.
  eapply runs_mono; [apply (varint_loop 5 4); [|lia|lia]| |done].
  { unfold in_u in Hn. zconst. lia. }
  cbn beta. intros buf p' [-> ->].
  assert (zlen (varint n) <= 5).
  { apply (zlen_varint_le 4). unfold in_u in Hn. zconst. lia. }
  by apply (comp_writes_bytes _ _ c); [|lia|..].
Qed.

Lemma writeVarint64_ok c n : in_u 64 n -> writes (comp_at bf) (writeVarint64 n) c c (varint n).
Proof.
  intros Hn p out room Hp Hr. unfold writeVarint64. wp.
  eapply runs_mono; [apply (varint_loop 10 9); [|lia|lia]| |done].
  { unfold in_u in Hn. zconst. lia. }
  cbn beta. intros buf p' [-> ->]. pose proof (zlen_varint n Hn).
  by apply (comp_writes_bytes _ _ c); [|lia|..].
Qed.

Lemma comp_writeByte_ok c z : writes (comp_at bf) (writeByte z) c c [u8 z].
Proof. by apply comp_writes_bytes. Qed.

Lemma comp_writeI16_ok c z : in_s 16 z -> writes (comp_at bf) (writeI16 z) c c (varint (zigzag z)).
Proof.
  intros Hz. unfold writeI16. assert (in_s 32 z) by (unfold in_s in *; lia).
  rewrite i32ToZigzag_spec by done. apply writeVarint32_ok. by apply zigzag_range.
Qed.

Lemma comp_writeI32_ok c z : in_s 32 z -> writes (comp_at bf) (writeI32 z) c c (varint (zigzag z)).
Proof.
  intros Hz. unfold writeI32. rewrite i32ToZigzag_spec by done. apply writeVarint32_ok.
  by apply zigzag_range.
Qed.

Lemma comp_writeI64_ok c z : in_s 64 z -> writes (comp_at bf) (writeI64 z) c c (varint (zigzag z)).
Proof.
  intros Hz. unfold writeI64. rewrite i64ToZigzag_spec by done. apply writeVarint64_ok.
  by apply zigzag_range.
Qed.

Lemma comp_writeDouble_ok c z : writes (comp_at bf) (writeDouble z) c c (le_bytes 8 z).
Proof. unfold writeDouble. rewrite htolell_bytes. by apply comp_writes_bytes. Qed.

Lemma comp_writeBinary_ok c s :
  zlen s < 2 ^ 32 -> writes (comp_at bf) (writeBinary s) c c (varint (zlen s) ++ s).
Proof.
  intros Hs p out room Hp Hr. pose proof (zlen_nonneg s). rewrite zlen_app in *.
  pose proof (zlen_nonneg (varint (zlen s))).
  unfold writeBinary. rewrite (wrapu_small 32 (zlen s)) by (unfold in_u; lia).
  eapply writes_step; [apply (writeVarint32_ok c); unfold in_u; lia|exact Hp|lia|].
  intros p1 (Hp1 & Hb & Hc). rewrite ztake_ge by lia. unfold under. wp.
  eapply runs_mono; [eapply write_ok; [exact Hp1|lia|lia]| |done]. cbn. intros _ t Ht. wp.
  autorewrite with wrap. split; [done|]. split_and!; [|done|done].
  cbn. by rewrite app_assoc, Z.sub_add_distr.
Qed.

(** A field header, the compact type being known. *)
Lemma writeFieldBeginInternal_ok l c name t id ov ct :
  in_s 16 id -> in_s 16 l -> 0 <= ct < 16 ->
  (forall p : P, succeeds (if ov =? -1 then getCompactType t else ret ov) p
     (fun r p' => r = ct /\ p' = p)) ->
  writes (comp_at bf) (writeFieldBeginInternal name t id ov) (l :: c) (id :: c) (e_header l ct id).
Proof.
  intros Hid Hl Hct Hov p out room Hp Hr. pose proof Hp as (_ & _ & Hc). injection Hc as Hl' Hc'.
  unfold writeFieldBeginInternal. wp. eapply runs_mono; [apply Hov| |done].
  cbn beta. intros r p' [-> ->]. apply runs_bind, runs_gets. rewrite <- Hl'.
  unfold e_header in *. bif.
  - eapply writes_step; [apply (comp_writeByte_ok (l :: c))|exact Hp| |].
    { exact Hr. }
    intros p1 (Ho & Hbf & Hc1). wp. rewrite pack_nibbles in Ho by lia.
    split; [done|]. split_and!; [exact Ho|done|]. cbn. by injection Hc1 as _ <-.
  - apply runs_bind. eapply runs_mono; [eapply (writes_then _ _ _ _ (l :: c));
      [apply comp_writeByte_ok|by apply comp_writeI16_ok|exact Hp|]| |done].
    { rewrite u8_byte by (unfold is_byte; lia). exact Hr. }
    cbn beta. intros n p1 (-> & Ho & Hbf & Hc1). wp. rewrite u8_byte in * by (unfold is_byte; lia).
    split; [done|]. split_and!; [exact Ho|done|]. cbn. by injection Hc1 as _ <-.
Qed.

Lemma getCompactType_ok t (p : P) :
  In t value_types -> succeeds (getCompactType t) p (fun r p' => r = ctype t /\ p' = p).
Proof using Type. intros Ht. unfold getCompactType. rewrite ctype_znth by done. by wp. Qed.

Lemma writeFieldBegin_ok l c name t id :
  In t value_types -> t <> T_BOOL -> in_s 16 id -> in_s 16 l ->
  writes (comp_at bf) (writeFieldBegin name t id) (l :: c) (id :: c) (e_header l (ctype t) id).
Proof.
  intros Ht Hne Hid Hl p out room Hp Hr. unfold writeFieldBegin. replace (t =? T_BOOL) with false by lia.
  pose proof (ctype_range t Ht).
  eapply writes_step; [eapply writeFieldBeginInternal_ok; [done|done| |]|exact Hp|done|].
  - lia.
  - intros p1. by apply getCompactType_ok.
  - intros p1 Hp1. wp. by autorewrite with wrap.
Qed.

Lemma writeCollectionBegin_ok c t n :
  In t value_types -> 0 <= n < 2 ^ 31 ->
  writes (comp_at bf) (writeCollectionBegin t n) c c (@e_coll compact_format t n).
Proof.
  intros Ht Hn. cbn. unfold writeCollectionBegin. pose proof (ctype_range t Ht).
  bif; intros p out room Hp Hr; apply runs_bind;
    (eapply runs_mono; [by apply getCompactType_ok| |done]); cbn beta; intros r p' [-> ->].
  - rewrite <- pack_nibbles in Hr |- * by lia. by apply comp_writeByte_ok.
  - rewrite (wrapu_small 32 n) by (unfold in_u; lia).
    change (0xf0 + ctype t) with (16 * 15 + ctype t) in *.
    rewrite <- pack_nibbles in Hr |- * by lia.
    eapply (writes_then _ _ _ _ c _ [_]); [apply comp_writeByte_ok| |exact Hp|exact Hr].
    apply writeVarint32_ok. unfold in_u. lia.
Qed.

Lemma writeMapBegin_ok c kt vt n :
  In kt value_types -> In vt value_types -> 0 <= n < 2 ^ 31 ->
  writes (comp_at bf) (writeMapBegin kt vt n) c c (@e_map compact_format kt vt n).
Proof.
  intros Hk Hv Hn. cbn. unfold writeMapBegin. pose proof (ctype_range kt Hk).
  pose proof (ctype_range vt Hv). bif; [apply comp_writeByte_ok|].
  intros p out room Hp Hr. rewrite <- pack_nibbles in Hr |- * by lia. rewrite zlen_app in *.
  pose proof (zlen_nonneg (varint n)). change (zlen [_]) with 1 in *.
  eapply writes_step; [apply (writeVarint32_ok c n); unfold in_u; lia|exact Hp|lia|]. intros p1 Hp1.
  apply runs_bind. eapply runs_mono; [by apply getCompactType_ok| |done]. cbn beta. intros r p' [-> ->].
  apply runs_bind. eapply runs_mono; [by apply getCompactType_ok| |done]. cbn beta. intros r p' [-> ->].
  eapply writes_step; [apply (comp_writeByte_ok c)|exact Hp1|change (zlen [_]) with 1; lia|].
  intros p2 Hp2. wp. autorewrite with wrap. split; [done|]. by rewrite app_assoc, Z.sub_add_distr.
Qed.

Lemma writeStructBegin_ok c l name : writes (comp_at bf) (writeStructBegin name) (l :: c) (0 :: l :: c) [].
Proof.
  intros p out room (Ho & Hb & Hc) Hr. unfold writeStructBegin. wp. injection Hc as -> ->.
  split; [done|]. rewrite app_nil_r, Z.sub_0_r. by split_and!.
Qed.

Lemma writeStructEnd_ok x c l : writes (comp_at bf) writeStructEnd (x :: l :: c) (l :: c) [].
Proof.
  intros p out room (Ho & Hb & Hc) Hr. unfold writeStructEnd, pop_last. injection Hc as _ Hc. wp.
  rewrite <- Hc. wp. split; [done|]. rewrite app_nil_r, Z.sub_0_r. by split_and!.
Qed.

Lemma comp_writes_nothing c : writes (comp_at bf) (ret 0) c c [].
Proof. intros p out room Hp Hr. wp. by rewrite app_nil_r, Z.sub_0_r. Qed.
End At.

(** A boolean between fields is a byte. *)
Lemma writeBool_elem_ok c b : writes comp_out (writeBool b) c c [e_boolean b].
Proof.
  intros p out room [Hb Hp] Hr. unfold writeBool. wp. rewrite Hb.
  eapply (writes_between _ c c [e_boolean b]); [|by split|done].
  intros bf. destruct b; apply (comp_writeByte_ok bf c).
Qed.

(** A boolean field is one header, written when its value comes. *)
Lemma writeBool_field_ok l c name id b :
  in_s 16 id -> in_s 16 l ->
  writes2 comp_out (writeFieldBegin (Some name) T_BOOL id) (writeBool b) (l :: c) (id :: c)
    (e_header l (e_boolean b) id).
Proof.
  intros Hid Hl p out room [Hb (Ho & _ & Hc)] Hr. unfold writeFieldBegin. cbn. wp.
  unfold writeBool. wp. cbn.
  set (p1 := set_booleanField _ p).
  eapply writes_step; [apply (writeFieldBeginInternal_ok (booleanField_ p1) l c (Some name) T_BOOL id _ (e_boolean b));
    [done|done|by destruct b|]|by split_and!|done|].
  { intros p2. destruct b; by wp. }
  intros p2 (Ho2 & Hb2 & Hc2). wp. autorewrite with wrap. split; [done|]. by split_and!.
Qed.

#[export] Instance TCompactProtocol_writer : @WriterLaws P _ compact_format.
Proof.
  refine {| w_state := comp_out |}; cbn -[e_map e_coll compact_format]; intros.
  - apply writeBool_elem_ok.
  - apply writes_between. intros. apply comp_writeByte_ok.
  - apply writes_between. intros. by apply comp_writeI16_ok.
  - apply writes_between. intros. by apply comp_writeI32_ok.
  - apply writes_between. intros. by apply comp_writeI64_ok.
  - apply writes_between. intros. apply comp_writeDouble_ok.
  - apply writes_between. intros. apply comp_writeBinary_ok. lia.
  - apply writes_between. intros. apply comp_writeBinary_ok. lia.
  - apply writes_between. intros. apply writeStructBegin_ok.
  - apply writes_between. intros. apply writeStructEnd_ok.
  - apply writes_between. intros. by apply writeFieldBegin_ok.
  - by apply writeBool_field_ok.
  - apply writes_between. intros. apply comp_writes_nothing.
  - apply writes_between. intros. apply comp_writeByte_ok.
  - apply writes_between. intros. by apply writeMapBegin_ok.
  - apply writes_between. intros. apply comp_writes_nothing.
  - apply writes_between. intros. unfold writeListBegin. rewrite (wraps_small 32) by (unfold in_s; lia).
    by apply writeCollectionBegin_ok.
  - apply writes_between. intros. apply comp_writes_nothing.
  - apply writes_between. intros. unfold writeSetBegin. rewrite (wraps_small 32) by (unfold in_s; lia).
    by apply writeCollectionBegin_ok.
  - apply writes_between. intros. apply comp_writes_nothing.
Defined.
End Writing.

(** ** What is read *)

Section Reading.
Context `{Platform} `{!Unbounded} {T : Type} `{ReadLaws T} (lim : limits).
Abbreviation P := (TCompactProtocolT T).

(** The reader on the stream [bs], [bv] being its pending boolean. *)
Definition comp_at_in (bv : bool_value) (p : P) (c bs : list Z) : Prop :=
  incoming (trans_ p) bs /\ limits_ p = lim /\ string_buf_ok (string_buf_ p) (string_buf_size_ p) /\
  boolValue_ p = bv /\ c = lastFieldId_ p :: lastField_ p.

Definition comp_in (p : P) (c bs : list Z) : Prop :=
  hasBoolValue (boolValue_ p) = false /\ comp_at_in (boolValue_ p) p c bs.

Lemma comp_at_between bv p c bs : hasBoolValue bv = false -> comp_at_in bv p c bs -> comp_in p c bs.
Proof using Type.
  intros Hbv (? & ? & ? & Hb & ?). unfold comp_in. rewrite Hb. split; [done|]. by split_and!.
Qed.

Lemma reads_between {A} m c c' e (a : A) :
  (forall bv, reads (comp_at_in bv) m c c' e a) -> reads comp_in m c c' e a.
Proof using Type.
  intros Hm p rest [Hb Hp]. eapply runs_mono; [by apply Hm| |done].
  cbn. intros r p' [-> Hp']. split; [done|]. by eapply comp_at_between.
Qed.

Lemma any_between {A} (m : M P (Z * A)) c c' k (V : A -> Prop) :
  (forall bv, any_input (comp_at_in bv) m c c' k V) -> any_input comp_in m c c' k V.
Proof using Type.
  intros Hm p bs [Hb Hp]. eapply runs_mono; [by apply Hm| |done].
  cbn. intros r p' (HV & bs' & Hp' & Hle). split; [done|]. exists bs'. split; [|done].
  by eapply comp_at_between.
Qed.

Section At.
Context (bv : bool_value).
Abbreviation st := (comp_at_in bv).

Lemma comp_readAll {A} n d rest (k : list Z -> M P A) p c Q E :
  st p c (d ++ rest) -> zlen d = n -> n < 2 ^ 32 ->
  (forall p', st p' c rest -> runs (k d) p' Q E) ->
  runs (bind (under (t_readAll n)) k) p Q E.
Proof using Type.
  intros (Hin & Hlim & Hbuf & Hbv & Hc) Hd Hn Hk. unfold under. wp.
  eapply runs_mono; [by eapply readAll_ok| |done]. cbn. intros r t [-> Ht]. apply Hk. by split_and!.
Qed.

Lemma comp_readAll_eof {A} n bs (k : list Z -> M P A) p c E :
  st p c bs -> zlen bs < n -> n < 2 ^ 32 ->
  (forall e p', stream_end e -> E e p') ->
  raises (bind (under (t_readAll n)) k) p E.
Proof using Type.
  intros (Hin & _) Hd Hn HE. unfold under. wp.
  eapply runs_mono; [by eapply readAll_eof|done|]. cbn. auto.
Qed.

Lemma comp_total_fixed {A} n (f : list Z -> A) c (V : A -> Prop) :
  0 <= n < 2 ^ 32 -> (forall d, V (f d)) ->
  any_input st (let! b := under (t_readAll n) in ret (n, f b)) c c n V.
Proof using Type.
  intros Hn HV p bs Hp. destruct (Z_le_gt_dec n (zlen bs)) as [Hle|Hgt].
  - rewrite <- (ztake_zdrop n bs) in Hp.
    eapply comp_readAll; [exact Hp|zlist|lia|]. intros p' Hp'. wp. split; [apply HV|].
    exists (zdrop n bs). split; [exact Hp'|]. zlist.
  - eapply runs_mono; [eapply (comp_readAll_eof n bs _ p c (fun _ _ => True)); [exact Hp|lia|lia|done]
      |done|done].
Qed.

Lemma comp_reads_fixed {A} n (f : list Z -> A) c d a :
  zlen d = n -> n < 2 ^ 32 -> f d = a ->
  reads st (let! b := under (t_readAll n) in ret (n, f b)) c c d a.
Proof using Type.
  intros Hd Hn Hf p rest Hp. pose proof (zlen_nonneg d).
  eapply comp_readAll; [exact Hp|done|done|]. intros p' Hp'. wp. rewrite Hf, Hd. unwrap. done.
Qed.

Lemma load_byte x : load [x] = x.
Proof using Type. unfold load. destruct byte_order; cbn; unfold of_be, of_le; cbn; lia. Qed.

Lemma comp_readByte_ok c x : is_byte x -> reads st readByte c c [x] (s8 x).
Proof using Type. intros Hx. apply comp_reads_fixed; [done|done|]. by rewrite load_byte. Qed.

Lemma comp_readByte_s8 c z : in_s 8 z -> reads st readByte c c [u8 z] z.
Proof using Type.
  intros Hz. rewrite <- (wraps_small 8 z) at 2 by done. rewrite <- (s8_u8 z).
  apply comp_readByte_ok. apply is_byte_u8.
Qed.

Lemma comp_readDouble_ok c z : in_u 64 z -> reads st readDouble c c (le_bytes 8 z) z.
Proof using Type. intros Hz. apply comp_reads_fixed; [done|done|]. by apply letohll_load. Qed.

(** ** Varints: the borrowed path and the byte-by-byte path read the same *)

(** What [readVarint64] does with the stream [bs]. *)
Definition varint_post (c bs : list Z) (r : varint_result) : Z * Z -> P -> Prop :=
  fun x p' => match r with
              | VDone v u => x = (u, s64 v) /\ st p' c (zdrop u bs)
              | _ => False
              end.
Definition varint_exn (r : varint_result) : exn -> P -> Prop :=
  fun e _ => match r with
             | VDone _ _ => False
             | VOverlong => e = overlong
             | VShort => stream_end e
             end.

(** The [k]-th round of the parser. *)
Definition parse_at (bs : list Z) (a : Z * Z * Z) : varint_result :=
  let '(rsize, val, shift) := a in
  parse_varint (Z.to_nat (9 - rsize)) rsize val shift (zdrop rsize bs).

Lemma zdrop_cons i (b : list Z) x l : 0 <= i -> zdrop i b = x :: l -> zdrop (i + 1) b = l /\ znth b i = Some x.
Proof using Type.
  intros Hi Hd. rewrite Z.add_comm, <- zdrop_zdrop, Hd by lia. split; [done|].
  unfold znth, zdrop in *. replace (i <? 0) with false by lia.
  rewrite <- (Nat.add_0_r (Z.to_nat i)), <- lookup_drop, Hd. done.
Qed.

Lemma fast_path b c bs (p : P) :
  comp_at_in bv p c bs -> lent (trans_ p) bs (zlen b) -> b = ztake (zlen b) bs -> 10 <= zlen b ->
  runs (iterate 11 (fast_body b) (0, 0, 0)) p
    (varint_post c bs (parse_varint 9 0 0 0 b)) (varint_exn (parse_varint 9 0 0 0 b)).
Proof using Type.
  intros Hp Hlent Hb Hlen.
  apply (runs_iterate (fun a p' => p' = p /\ 0 <= a.1.1 <= 9 /\
      parse_at b a = parse_varint 9 0 0 0 b) (fun a => 9 - a.1.1)).
  - intros [[rsize val] shift] p1 (-> & Hr & Hparse). cbn [fst] in Hr. unfold fast_body.
    rewrite <- Hparse. unfold parse_at.
    destruct (zdrop rsize b) as [|byte l] eqn:Hd.
    { pose proof (zlen_zdrop rsize b) as Hz. rewrite Hd in Hz. zlist. }
    destruct (zdrop_cons rsize b byte l) as [Hd' Hn]; [lia|done|]. rewrite Hn.
    destruct (Z.to_nat (9 - rsize)) as [|more] eqn:Hmore; cbn [parse_varint];
      destruct (Z.land byte 128 =? 0) eqn:Hbit.
    1, 3: unfold under; wp; eapply runs_mono;
      [apply (consume_ok _ (rsize + 1) _ _ Hlent); lia| |done]; cbn; intros _ t Ht; wp;
      destruct Hp as (? & ? & ? & ? & ?); by split_and!.
    + replace (rsize + 1 =? 10) with true by lia. by wp.
    + replace (rsize + 1 =? 10) with false by lia. wp. cbn [fst]. split; [|lia].
      split_and!; [done|lia|lia|]. rewrite Hd'.
      by replace (Z.to_nat (9 - (rsize + 1))) with more by lia.
  - done.
  - done.
Qed.

Lemma slow_path c bs (p : P) :
  comp_at_in bv p c bs ->
  runs (iterate 11 slow_body (0, 0, 0)) p
    (varint_post c bs (parse_varint 9 0 0 0 bs)) (varint_exn (parse_varint 9 0 0 0 bs)).
Proof using Type.
  intros Hp.
  apply (runs_iterate (fun a p' => comp_at_in bv p' c (zdrop a.1.1 bs) /\ 0 <= a.1.1 <= 9 /\
      parse_at bs a = parse_varint 9 0 0 0 bs) (fun a => 9 - a.1.1)); [|done|done].
  intros [[rsize val] shift] p1 (Hp1 & Hr & Hparse). cbn [fst] in Hr, Hp1. unfold slow_body.
  rewrite <- Hparse. unfold parse_at.
  destruct (zdrop rsize bs) as [|byte l] eqn:Hd.
  { destruct (Z.to_nat (9 - rsize)); cbn [parse_varint];
      (eapply runs_mono; [apply (comp_readAll_eof 1 [] _ p1 c
        (fun e _ => stream_end e) Hp1); done|done|done]). }
  destruct (zdrop_cons rsize bs byte l) as [Hd' Hn]; [lia|done|].
  eapply (comp_readAll 1 [byte] l); [exact Hp1|done|done|]. intros p2 Hp2.
  rewrite load_byte. change (zlen [byte]) with 1.
  destruct (Z.to_nat (9 - rsize)) as [|more] eqn:Hmore; cbn [parse_varint];
    destruct (Z.land byte 128 =? 0) eqn:Hbit.
  1, 3: wp; unfold varint_post; rewrite Hd'; done.
  - replace (10 <=? rsize + 1) with true by lia. by wp.
  - replace (10 <=? rsize + 1) with false by lia. wp. cbn [fst]. rewrite Hd'. split; [|lia].
    split_and!; [done|lia|lia|].
    by replace (Z.to_nat (9 - (rsize + 1))) with more by lia.
Qed.

(** Whether the transport lends its buffer or not, the result is the parser's. *)
Lemma readVarint64_spec c bs (p : P) :
  comp_at_in bv p c bs ->
  runs readVarint64 p
    (varint_post c bs (parse_varint 9 0 0 0 bs)) (varint_exn (parse_varint 9 0 0 0 bs)).
Proof using Type.
  intros Hp. pose proof Hp as (Hin & Hlim & Hbuf & Hbv & Hc). unfold readVarint64, under at 1. wp.
  eapply runs_mono; [apply (borrow_ok _ 10 _ Hin); done| |done].
  cbn beta. intros [b|] t Hb.
  - destruct Hb as (Hle & Hbs & Hlent).
    assert (parse_varint 9 0 0 0 bs = parse_varint 9 0 0 0 b) as ->.
    { rewrite Hbs. symmetry. apply parse_varint_take. lia. }
    apply fast_path; [|done|done|done]. split_and!; try done. by apply lent_incoming with (zlen b).
  - by apply slow_path.
Qed.

Lemma readVarint64_ok c n : in_u 64 n -> reads st readVarint64 c c (varint n) (s64 n).
Proof using Type.
  intros Hn p rest Hp. pose proof (readVarint64_spec c _ p Hp) as Hs.
  rewrite parse_varint_varint in Hs by done. eapply runs_mono; [exact Hs| |done].
  cbn. intros r p' [-> Hp']. rewrite zdrop_app in Hp' by done. split; [|done]. f_equal.
  symmetry. apply wrapu_small. unfold in_u, varint in *.
  pose proof (zlen_varint_upto 10 n (proj1 Hn)). lia.
Qed.

Lemma s64_any n : in_s 64 (s64 n).
Proof using Type. apply wraps_range. lia. Qed.
Lemma s32_any n : in_s 32 (s32 n).
Proof using Type. apply wraps_range. lia. Qed.

Lemma readVarint64_total c : any_input st readVarint64 c c 1 (in_s 64).
Proof using Type.
  intros p bs Hp. eapply runs_mono; [by apply readVarint64_spec| |done].
  unfold varint_post. destruct (parse_varint 9 0 0 0 bs) as [v u| |] eqn:Hv; [|done|done].
  cbn. intros r p' [-> Hp']. split; [apply s64_any|].
  exists (zdrop u bs). split; [done|]. apply parse_varint_used in Hv. zlist.
Qed.

Lemma readVarint32_ok c n : in_u 32 n -> reads st readVarint32 c c (varint n) (s32 n).
Proof using Type.
  intros Hn p rest Hp. unfold readVarint32.
  eapply reads_step; [apply (readVarint64_ok c n)|exact Hp|].
  { unfold in_u in *. lia. }
  intros p1 Hp1. wp. unfold in_u in Hn. by rewrite (wraps_small 64 n) by (unfold in_s; lia).
Qed.

Lemma readVarint32_total c : any_input st readVarint32 c c 1 (in_s 32).
Proof using Type.
  intros p bs Hp. unfold readVarint32.
  eapply any_step; [apply readVarint64_total|exact Hp|]. intros n a p1 bs1 _ Hp1 Hle. wp.
  split; [apply s32_any|]. by exists bs1.
Qed.

Lemma zigzagToI32_ok z : in_s 32 z -> zigzagToI32 (u32 (s32 (zigzag z))) = z.
Proof using Type.
  intros Hz. pose proof (zigzag_range 32 z ltac:(lia) Hz). rewrite wrapu_wraps by lia.
  rewrite wrapu_small by done. rewrite zigzagToI32_spec by done. apply unzigzag_zigzag.
Qed.

Lemma comp_readI32_ok c z : in_s 32 z -> reads st readI32 c c (varint (zigzag z)) z.
Proof using Type.
  intros Hz p rest Hp. unfold readI32.
  eapply reads_step; [apply readVarint32_ok; by apply zigzag_range|exact Hp|].
  intros p1 Hp1. wp. by rewrite zigzagToI32_ok.
Qed.

Lemma comp_readI16_ok c z : in_s 16 z -> reads st readI16 c c (varint (zigzag z)) z.
Proof using Type.
  intros Hz p rest Hp. assert (in_s 32 z) by (unfold in_s in *; lia). unfold readI16.
  eapply reads_step; [apply readVarint32_ok; by apply zigzag_range|exact Hp|].
  intros p1 Hp1. wp. by rewrite zigzagToI32_ok, wraps_small.
Qed.

Lemma comp_readI64_ok c z : in_s 64 z -> reads st readI64 c c (varint (zigzag z)) z.
Proof using Type.
  intros Hz p rest Hp. pose proof (zigzag_range 64 z ltac:(lia) Hz). unfold readI64.
  eapply reads_step; [by apply readVarint64_ok|exact Hp|].
  intros p1 Hp1. wp. rewrite wrapu_wraps, (wrapu_small 64) by (lia || done).
  by rewrite zigzagToI64_spec, unzigzag_zigzag.
Qed.

(** Integers on any input. *)
Lemma comp_readI16_total c : any_input st readI16 c c 1 (in_s 16).
Proof using Type.
  intros p bs Hp. unfold readI16. eapply any_step; [apply readVarint32_total|exact Hp|].
  intros n a p1 bs1 _ Hp1 Hle. wp. split; [by apply wraps_range|]. by exists bs1.
Qed.
Lemma comp_readI32_total c : any_input st readI32 c c 1 (in_s 32).
Proof using Type.
  intros p bs Hp. unfold readI32. eapply any_step; [apply readVarint32_total|exact Hp|].
  intros n a p1 bs1 _ Hp1 Hle. wp. split; [by apply wraps_range|]. by exists bs1.
Qed.
Lemma comp_readI64_total c : any_input st readI64 c c 1 (in_s 64).
Proof using Type.
  intros p bs Hp. unfold readI64. eapply any_step; [apply readVarint64_total|exact Hp|].
  intros n a p1 bs1 _ Hp1 Hle. wp. split; [by apply wraps_range|]. by exists bs1.
Qed.
Lemma comp_readByte_total c : any_input st readByte c c 1 (in_s 8).
Proof using Type. apply comp_total_fixed; [done|]. intros. by apply wraps_range. Qed.

(** ** Strings *)

Lemma comp_readBinary_ok c s :
  zlen s < 2 ^ 31 -> string_over lim (zlen s) = false ->
  reads st readBinary c c (varint (zlen s) ++ s) s.
Proof using All.
  intros Hs Hover p rest Hp. rewrite <- app_assoc in Hp. pose proof (zlen_nonneg s).
  unfold readBinary. eapply reads_step; [apply (readVarint32_ok c (zlen s)); unfold in_u; lia|exact Hp|].
  intros p1 Hp1. cbv beta iota. pose proof Hp1 as (_ & Hlim & Hbuf & _).
  apply runs_bind, runs_gets. rewrite (wraps_small 32 (zlen s)) by (unfold in_s; lia).
  rewrite Hlim, Hover. bif.
  { assert (s = []) as -> by (by apply zlen_0). wp. by rewrite app_nil_r. }
  replace (zlen s <? 0) with false by lia. apply runs_bind, runs_gets.
  apply runs_bind, runs_string_buffer; [done|lia|]. intros b k Hbk Hk. cbv beta iota.
  apply runs_bind, runs_modify. rewrite (wrapu_small 32 (zlen s)) by (unfold in_u; lia).
  eapply (comp_readAll (zlen s) s rest); [|done|lia|].
  { destruct Hp1 as (Hi & Hl & _ & Hv & Hc). split_and!; [exact Hi|exact Hl|exact Hbk|exact Hv|exact Hc]. }
  intros p2 (Hi & Hl & _ & Hv & Hc). wp. apply runs_store_mem; [lia|lia|]. wp.
  apply runs_load_mem; [lia|lia|rewrite zlen_zsplice by lia; lia|]. wp.
  rewrite (zslice_zsplice_at 0) by lia. rewrite zlen_app. autorewrite with wrap.
  split; [done|]. split_and!; [done|done| |done|done]. cbn. rewrite zlen_zsplice by lia. done.
Qed.

Lemma comp_readBinary_total c : any_input st readBinary c c 1 (fun s => size_ok lim s = true).
Proof using All.
  intros p bs Hp. unfold readBinary.
  eapply any_step; [apply readVarint32_total|exact Hp|]. intros n size p1 bs1 Hs Hp1 Hle.
  unfold in_s in Hs. pose proof Hp1 as (_ & Hlim & Hbuf & _). apply runs_bind, runs_gets.
  rewrite Hlim. bif; [wp; split; [apply size_ok_nil|]; by exists bs1|]. bif; [by wp|]. bif; [by wp|].
  assert (Hok : forall s, zlen s = size -> size_ok lim s = true) by (intros s Hz; by apply size_ok_len; [lia|rewrite Hz]).
  apply runs_bind, runs_gets. apply runs_bind, runs_string_buffer; [done|lia|].
  intros b k Hbk Hk. cbv beta iota.
  apply runs_bind, runs_modify. rewrite (wrapu_small 32 size) by (unfold in_u; lia).
  assert (Hp2 : st (set_string_buf b k p1) c bs1).
  { destruct Hp1 as (Hi & Hl & _ & Hv & Hc). split_and!; [exact Hi|exact Hl|exact Hbk|exact Hv|exact Hc]. }
  destruct (Z_le_gt_dec size (zlen bs1)) as [Hge|Hgt].
  - rewrite <- (ztake_zdrop size bs1) in Hp2.
    eapply (comp_readAll size (ztake size bs1)); [exact Hp2|zlist|lia|].
    intros p3 (Hi & Hl & _ & Hv & Hc). wp. apply runs_store_mem; [lia|zlist|]. wp.
    apply runs_load_mem; [lia|lia|rewrite zlen_zsplice by zlist; lia|]. wp. split; [apply Hok; cbn [snd]; rewrite zlen_zslice; rewrite ?zlen_zsplice by zlist; lia|].
    exists (zdrop size bs1). split; [|zlist]. split_and!; [done|done| |done|done].
    cbn. rewrite zlen_zsplice by zlist. done.
  - eapply runs_mono; [apply (comp_readAll_eof size bs1 _ _ c (fun _ _ => True)); [exact Hp2|lia|lia|done]
      |done|done].
Qed.

(** ** Headers *)

Lemma getTType_ok t (p : P) :
  In t value_types -> succeeds (getTType (ctype t)) p (fun r p' => r = t /\ p' = p).
Proof using Type. intros Ht. by repeat destruct Ht as [<-|Ht]. Qed.

Lemma getTType_total t (p : P) :
  runs (getTType t) p (fun r p' => p' = p /\
      (r = T_STOP -> t = T_STOP) /\ (r = T_BOOL -> t = CT_BOOLEAN_TRUE \/ t = CT_BOOLEAN_FALSE) /\
      (t = CT_BOOLEAN_TRUE \/ t = CT_BOOLEAN_FALSE -> r = T_BOOL)) (fun _ _ => True).
Proof using Type.
  unfold getTType. repeat (bif; [wp; split; [done|]; repeat split; intros;
    repeat match goal with H : (_ || _)%bool = true |- _ => apply orb_true_iff in H end;
    breflect; unfold CT_BOOLEAN_TRUE, CT_BOOLEAN_FALSE, T_STOP in *; try done;
    try (repeat match goal with H : _ \/ _ |- _ => destruct H end; breflect; lia)|]). by wp.
Qed.

Lemma checkSize_ok n (p : P) Q E :
  limits_ p = lim -> 0 <= n -> container_over lim n = false -> Q tt p -> runs (checkSize n) p Q E.
Proof using Type.
  intros Hl Hn Ho HQ. unfold checkSize. wp. rewrite Hl, Ho. replace (n <? 0) with false by lia. by wp.
Qed.

Lemma checkSize_any n (p : P) (Q : unit -> P -> Prop) :
  limits_ p = lim -> in_s 32 n -> (0 <= u32 n /\ count_ok lim (u32 n) = true -> Q tt p) ->
  runs (checkSize n) p Q (fun _ _ => True).
Proof using Type.
  intros Hl Hs HQ. unfold checkSize. wp. rewrite Hl. unfold in_s in Hs. bif; [by wp|]. bif; wp; [done|]. apply HQ.
  unwrap. split; [lia|]. unfold count_ok. apply andb_true_iff. split; [lia|]. by apply negb_true_iff.
Qed.

Lemma comp_readListBegin_ok c t n :
  In t value_types -> 0 <= n < 2 ^ 31 -> container_over lim n = false ->
  reads st readListBegin c c (@e_coll compact_format t n) (t, n).
Proof using Type.
  intros Ht Hn Ho p rest Hp. cbn in Hp |- *. pose proof (ctype_range t Ht). unfold readListBegin.
  assert (Hhead : forall k, 0 <= k < 16 -> is_byte (16 * k + ctype t) /\
    Z.land (Z.shiftr (u8 (s8 (16 * k + ctype t))) 4) 0x0f = k /\
    s8 (Z.land (s8 (16 * k + ctype t)) 0x0f) = ctype t).
  { intros k Hk. destruct (nibble_pair k (ctype t)) as (Hx & Hd & Hm); [done|lia|].
    pose proof (nibbles _ Hx) as Hnb. unfold nibbles_ok in Hnb. breflect. rewrite Hd, Hm in *.
    by split_and!. }
  bcase (n <=? 14).
  - destruct (Hhead n ltac:(lia)) as (Hx & Hk & Hct).
    eapply reads_step; [by apply (comp_readByte_ok c)|exact Hp|]. intros p1 Hp1. cbv beta iota.
    rewrite Hk. replace (n =? 15) with false by lia. wp.
    apply checkSize_ok; [apply Hp1|lia|done|]. wp. rewrite Hct.
    eapply runs_mono; [by apply getTType_ok| |done]. cbn beta. intros r p2 [-> ->]. wp.
    by unwrap.
  - destruct (Hhead 15 ltac:(lia)) as (Hx & Hk & Hct). change (16 * 15 + ctype t) with (240 + ctype t) in *.
    eapply (reads_step _ _ _ _ _ [_]); [by apply (comp_readByte_ok c)|exact Hp|].
    intros p1 Hp1. cbv beta iota. rewrite Hk. change (15 =? 15) with true. cbv iota.
    apply runs_bind. eapply reads_step; [apply (readVarint32_ok c n); unfold in_u; lia|exact Hp1|].
    intros p2 Hp2. wp. rewrite (wraps_small 32 n) by (unfold in_s; lia).
    apply checkSize_ok; [apply Hp2|lia|done|]. wp. rewrite Hct.
    eapply runs_mono; [by apply getTType_ok| |done]. cbn beta. intros r p3 [-> ->]. wp.
    autorewrite with zlist wrap. by rewrite (wrapu_small 32 n) by (unfold in_u; lia).
Qed.

Lemma comp_readListBegin_total c : any_input st readListBegin c c 1 (fun r => 0 <= r.2 /\ count_ok lim r.2 = true).
Proof using Type.
  intros p bs Hp. unfold readListBegin.
  eapply any_step; [apply comp_readByte_total|exact Hp|]. intros a x p1 bs1 _ Hp1 Hle.
  apply runs_bind. eapply (runs_mono _ _ (fun r p' => in_s 32 r.2 /\ exists bs', st p' c bs' /\ zlen bs' <= zlen bs1)
    _ (fun _ _ => True)).
  - bif; [|wp; split; [|by exists bs1]].
    + eapply any_step; [apply readVarint32_total|exact Hp1|]. intros b n p2 bs2 Hn Hp2 Hle2. wp.
      split; [exact Hn|]. exists bs2. split; [done|lia].
    + cbn [snd]. change 0x0f with (Z.ones 4). rewrite Z.land_ones by lia. unfold in_s. dlia.
  - cbn beta. intros [rs n] p2 (Hn & bs2 & Hp2 & Hle2). wp. apply checkSize_any; [apply Hp2|done|]. intros Hok. wp.
    eapply runs_mono; [apply getTType_total| |done]. cbn beta. intros r p3 [-> _]. wp. cbn [snd].
    split; [exact Hok|]. exists bs2. split; [done|lia].
  - done.
Qed.

Lemma comp_readMapBegin_ok c kt vt n :
  In kt value_types -> In vt value_types -> 0 <= n < 2 ^ 31 -> container_over lim n = false ->
  reads st readMapBegin c c (@e_map compact_format kt vt n)
    (if n =? 0 then (T_STOP, T_STOP) else (kt, vt), n).
Proof using Type.
  intros Hk Hv Hn Ho p rest Hp. cbn in Hp |- *. unfold readMapBegin. bcase (n =? 0).
  - subst n. change [0] with (varint 0) in Hp.
    eapply reads_step; [apply (readVarint32_ok c 0); done|exact Hp|]. intros p1 Hp1. cbv beta iota.
    change (s32 0) with 0. cbn [negb Z.eqb]. wp. apply checkSize_ok; [apply Hp1|lia|done|]. by wp.
  - pose proof (ctype_range kt Hk). pose proof (ctype_range vt Hv). rewrite <- app_assoc in Hp.
    destruct (nibble_pair (ctype kt) (ctype vt)) as (Hx & Hd & Hm); [lia|lia|].
    pose proof (nibbles _ Hx) as Hnb. unfold nibbles_ok in Hnb. breflect. rewrite Hd, Hm in *.
    eapply reads_step; [apply (readVarint32_ok c n); unfold in_u; lia|exact Hp|].
    intros p1 Hp1. cbv beta iota. rewrite (wraps_small 32 n) by (unfold in_s; lia).
    replace (n =? 0) with false by lia. cbn [negb]. apply runs_bind.
    eapply runs_mono; [apply (comp_readByte_ok c _ Hx); exact Hp1| |done]. cbn beta.
    intros r p2 [-> Hp2]. wp. apply checkSize_ok; [apply Hp2|lia|done|]. wp.
    match goal with H : s8 (Z.shiftr _ _) = _ |- _ => rewrite H end.
    eapply runs_mono; [by apply getTType_ok| |done]. cbn beta. intros r p3 [-> ->]. wp.
    match goal with H : s8 (Z.land (u8 _) _) = _ |- _ => rewrite H end.
    eapply runs_mono; [by apply getTType_ok| |done]. cbn beta. intros r p4 [-> ->]. wp.
    rewrite zlen_app. autorewrite with wrap. by rewrite (wrapu_small 32 n) by (unfold in_u; lia).
Qed.

Lemma comp_readMapBegin_total c : any_input st readMapBegin c c 1 (fun r => 0 <= r.2 /\ count_ok lim r.2 = true).
Proof using Type.
  intros p bs Hp. unfold readMapBegin.
  eapply any_step; [apply readVarint32_total|exact Hp|]. intros a n p1 bs1 Hn Hp1 Hle.
  apply runs_bind. eapply (runs_mono _ _ (fun r p' => exists bs', st p' c bs' /\ zlen bs' <= zlen bs1)
    _ (fun _ _ => True)).
  - bif; [|wp; by exists bs1]. eapply runs_mono; [by apply comp_readByte_total| |done].
    cbn beta. intros r p2 (_ & bs2 & Hp2 & Hle2). exists bs2. split; [done|lia].
  - cbn beta. intros [rs kv] p2 (bs2 & Hp2 & Hle2). wp. apply checkSize_any; [apply Hp2|done|]. intros Hok. wp.
    eapply runs_mono; [apply getTType_total| |done]. cbn beta. intros r p3 [-> _]. wp.
    eapply runs_mono; [apply getTType_total| |done]. cbn beta. intros r2 p4 [-> _]. wp. cbn [snd].
    split; [exact Hok|]. exists bs2. split; [done|lia].
  - done.
Qed.

Lemma comp_readStructBegin_ok l c : reads st readStructBegin (l :: c) (0 :: l :: c) [] [].
Proof using Type.
  intros p rest (? & ? & ? & ? & Hc). unfold readStructBegin. wp. injection Hc as -> ->.
  split; [done|]. by split_and!.
Qed.

Lemma comp_readStructEnd_ok x l c : reads_nothing st readStructEnd (x :: l :: c) (l :: c).
Proof using Type.
  intros p rest (? & ? & ? & ? & Hc). unfold readStructEnd, pop_last. injection Hc as _ Hc. wp.
  rewrite <- Hc. wp. split; [done|]. by split_and!.
Qed.

Lemma comp_reads_nothing c : reads_nothing st (ret 0) c c.
Proof using Type. intros p bs Hp. by wp. Qed.

(** The id of a field header: a delta or a zigzag varint after the byte. *)
Definition header_id (a modifier : Z) : M P (Z * Z) :=
  if modifier =? 0 then
    let! '(b, fieldId) := readI16 in ret (u32 (a + b), fieldId)
  else
    let! last := gets lastFieldId_ in ret (a, s16 (last + modifier)).

Lemma header_id_ok l c ct id p rest :
  in_s 16 id -> in_s 16 l -> 0 <= ct < 16 -> st p (l :: c) (e_header l ct id ++ rest) ->
  exists m p1, is_byte (16 * m + ct) /\ 0 <= m < 16 /\
    readByte p = (Ok (1, s8 (16 * m + ct)), p1) /\
    succeeds (header_id 1 m) p1 (fun r p' =>
      r = (u32 (zlen (e_header l ct id)), id) /\ st p' (l :: c) rest).
Proof using Type.
  intros Hid Hl Hct Hp. unfold e_header in *. unfold header_id.
  bcase ((l <? id) && (id - l <=? 15))%bool.
  - exists (id - l). destruct (nibble_pair (id - l) ct) as (Hx & _); [lia|lia|].
    apply (comp_readByte_ok (l :: c) _ Hx) in Hp. apply succeeds_run in Hp as (r & p1 & He & -> & Hp1).
    exists p1. split_and!; [done|lia|lia|done|]. replace (id - l =? 0) with false by lia. wp.
    split; [|done]. destruct Hp1 as (_ & _ & _ & _ & Hc). injection Hc as <- _.
    f_equal. replace (l + (id - l)) with id by lia. by apply wraps_small.
  - exists 0. rewrite <- app_assoc in Hp. assert (Hx : is_byte ct) by (unfold is_byte; lia).
    apply (comp_readByte_ok (l :: c) _ Hx) in Hp. apply succeeds_run in Hp as (r & p1 & He & -> & Hp1).
    exists p1. split_and!; [done|lia|lia|done|]. cbn [Z.eqb].
    eapply reads_step; [by apply (comp_readI16_ok (l :: c) id)|exact Hp1|]. intros p2 Hp2. wp.
    rewrite zlen_app. by autorewrite with wrap.
Qed.
End At.

(** A field header with the compact type of [t], which decides whether a boolean
    value comes with it. *)
Lemma readFieldBegin_header bv l c ct t id p rest :
  in_s 16 id -> in_s 16 l -> 0 < ct < 13 ->
  (forall p : P, succeeds (getTType ct) p (fun r p' => r = t /\ p' = p)) ->
  comp_at_in bv p (l :: c) (e_header l ct id ++ rest) ->
  succeeds readFieldBegin p (fun r p' => r = (u32 (zlen (e_header l ct id)), (t, id)) /\
    comp_at_in (if ((ct =? CT_BOOLEAN_TRUE) || (ct =? CT_BOOLEAN_FALSE))%bool
                then BoolValue true (ct =? CT_BOOLEAN_TRUE) else bv) p' (id :: c) rest).
Proof using Type.
  intros Hid Hl Hct Ht Hp.
  destruct (header_id_ok bv l c ct id p rest Hid Hl ltac:(lia) Hp) as (m & p1 & Hx & Hm & Hrd & Hhd).
  destruct (nibble_pair m ct) as (_ & Hd & Hmod); [lia|lia|].
  pose proof (nibbles _ Hx) as Hnb. unfold nibbles_ok in Hnb. breflect. rewrite Hd, Hmod in *.
  unfold readFieldBegin. apply runs_bind. unfold runs at 1. rewrite Hrd. cbv beta iota.
  match goal with H : Z.land (s8 _) 15 = ct |- _ => rewrite H end.
  match goal with H : Z.shiftr (Z.land (u8 _) 0xf0) 4 = m |- _ => rewrite H end.
  replace (ct =? T_STOP) with false by (unfold T_STOP; lia).
  apply runs_bind. eapply runs_mono; [exact Hhd| |done]. cbn beta. intros r p2 [-> Hp2]. wp.
  eapply runs_mono; [apply Ht| |done]. cbn beta. intros r p3 [-> ->].
  destruct Hp2 as (? & ? & ? & ? & Hc). injection Hc as _ Hc.
  destruct ((ct =? CT_BOOLEAN_TRUE) || (ct =? CT_BOOLEAN_FALSE))%bool; wp; split; try done;
    split_and!; try done; cbn; by rewrite Hc.
Qed.

Lemma comp_readFieldBegin_ok bv l c t id :
  In t value_types -> t <> T_BOOL -> in_s 16 id -> in_s 16 l ->
  reads (comp_at_in bv) readFieldBegin (l :: c) (id :: c) (e_header l (ctype t) id) (t, id).
Proof using Type.
  intros Ht Hne Hid Hl p rest Hp. pose proof (ctype_range t Ht).
  pose proof (readFieldBegin_header bv l c (ctype t) t id p rest Hid Hl ltac:(lia)
                (fun p => getTType_ok t p Ht) Hp) as Hr.
  replace ((ctype t =? CT_BOOLEAN_TRUE) || (ctype t =? CT_BOOLEAN_FALSE))%bool with false in Hr; [exact Hr|].
  by repeat destruct Ht as [<-|Ht].
Qed.

(** A stop byte ends the struct. *)
Lemma comp_readFieldStop_ok bv l c :
  reads (comp_at_in bv) readFieldBegin (l :: c) (l :: c) [0] (T_STOP, 0).
Proof using Type.
  intros p rest Hp. unfold readFieldBegin.
  eapply reads_step; [by apply (comp_readByte_ok bv (l :: c) 0)|exact Hp|]. intros p1 Hp1. by wp.
Qed.

(** The boolean stored by the header, and a boolean byte. *)
Lemma readBool_pending b p c bs :
  comp_at_in (BoolValue true b) p c bs ->
  succeeds readBool p (fun r p' => r = (0, b) /\ comp_in p' c bs).
Proof using Type.
  intros (? & ? & ? & Hb & ?). unfold readBool. wp. rewrite Hb. cbn. wp. split; [done|].
  split; [done|]. by split_and!.
Qed.

Lemma readBool_elem_ok c b : reads comp_in readBool c c [e_boolean b] b.
Proof using Type.
  intros p rest [Hb Hp]. unfold readBool. apply runs_bind, runs_gets. rewrite Hb.
  eapply reads_step; [apply (comp_readByte_ok (boolValue_ p) c (e_boolean b)); by destruct b|exact Hp|].
  intros p1 Hp1. wp. split; [by destruct b|]. by apply comp_at_between in Hp1.
Qed.

Lemma readBool_elem_total c : any_input comp_in readBool c c 1 (fun _ => True).
Proof using Type.
  intros p bs [Hb Hp]. unfold readBool. apply runs_bind, runs_gets. rewrite Hb.
  eapply any_step; [apply comp_readByte_total|exact Hp|]. intros n a p1 bs1 _ Hp1 Hle. wp.
  split; [done|]. exists bs1. split; [by apply comp_at_between in Hp1|done].
Qed.

Lemma readBool_field_ok l c id b p rest :
  in_s 16 id -> in_s 16 l -> comp_in p (l :: c) (e_header l (e_boolean b) id ++ rest) ->
  succeeds readFieldBegin p (fun r p' => r.2 = (T_BOOL, id) /\
    succeeds readBool p' (fun r' p'' =>
      u32 (r.1 + r'.1) = u32 (zlen (e_header l (e_boolean b) id)) /\ r'.2 = b /\
      comp_in p'' (id :: c) rest)).
Proof using Type.
  intros Hid Hl [Hb Hp].
  pose proof (readFieldBegin_header (boolValue_ p) l c (e_boolean b) T_BOOL id p rest Hid Hl) as Hr.
  eapply runs_mono; [apply Hr; [by destruct b| |exact Hp]| |done].
  { intros p1. destruct b; by wp. }
  cbn beta. intros r p1 [-> Hp1]. split; [done|].
  assert (Hp1' : comp_at_in (BoolValue true b) p1 (id :: c) rest) by (by destruct b).
  eapply runs_mono; [by apply readBool_pending| |done]. cbn beta. intros r p2 [-> Hp2]. cbn [fst snd].
  rewrite Z.add_0_r. autorewrite with wrap. by split_and!.
Qed.

#[export] Instance TCompactProtocol_reader : @ReaderLaws P _ compact_format lim.
Proof using All.
  refine {| r_state := comp_in |}; cbn -[e_map e_coll compact_format]; intros.
  - apply readBool_elem_ok.
  - apply reads_between. intros. by apply comp_readByte_s8.
  - apply reads_between. intros. by apply comp_readI16_ok.
  - apply reads_between. intros. by apply comp_readI32_ok.
  - apply reads_between. intros. by apply comp_readI64_ok.
  - apply reads_between. intros. by apply comp_readDouble_ok.
  - apply reads_between. intros. by apply comp_readBinary_ok.
  - apply reads_between. intros. by apply comp_readBinary_ok.
  - apply reads_between. intros. apply comp_readStructBegin_ok.
  - intros p bs [Hb Hp]. eapply runs_mono; [by eapply comp_readStructEnd_ok| |done].
    cbn beta. intros n p' [-> Hp']. split; [done|]. by apply comp_at_between in Hp'.
  - apply reads_between. intros. by apply comp_readFieldBegin_ok.
  - by apply readBool_field_ok.
  - intros p' bs Hp. by wp.
  - apply reads_between. intros. apply comp_readFieldStop_ok.
  - apply reads_between. intros. by apply comp_readMapBegin_ok.
  - intros p bs Hp. by wp.
  - apply reads_between. intros. by apply comp_readListBegin_ok.
  - intros p bs Hp. by wp.
  - apply reads_between. intros. by apply comp_readListBegin_ok.
  - intros p bs Hp. by wp.
Defined.

(** A field header on any input. *)
Lemma comp_readFieldBegin_total l c p bs :
  comp_in p (l :: c) bs ->
  runs readFieldBegin p (fun r p' => in_s 16 r.2.2 /\ exists bs', zlen bs' < zlen bs /\
      (r.2.1 = T_STOP -> comp_in p' (l :: c) bs') /\
      (r.2.1 <> T_STOP -> r.2.1 <> T_BOOL -> exists l', comp_in p' (l' :: c) bs') /\
      (r.2.1 = T_BOOL ->
         runs readBool p' (fun _ p'' => exists l' bs'',
           comp_in p'' (l' :: c) bs'' /\ zlen bs'' <= zlen bs') (fun _ _ => True)))
    (fun _ _ => True).
Proof using Type.
  intros [Hb Hp]. unfold readFieldBegin.
  eapply any_step; [apply comp_readByte_total|exact Hp|]. intros a x p1 bs1 _ Hp1 Hle. bif.
  { wp. split; [done|]. exists bs1. cbn [fst snd]. split; [lia|]. split_and!; [|done|done].
    intros _. by apply comp_at_between in Hp1. }
  apply runs_bind. eapply (runs_mono _ _ (fun r p' => in_s 16 r.2 /\ exists bs', comp_at_in (boolValue_ p) p' (l :: c) bs' /\
    zlen bs' <= zlen bs1) _ (fun _ _ => True)).
  - bif; [|wp; split; [by apply wraps_range|by exists bs1]]. eapply any_step; [apply comp_readI16_total|exact Hp1|].
    intros b n p2 bs2 Hn Hp2 Hle2. wp. split; [exact Hn|]. exists bs2. split; [done|lia].
  - cbn beta. intros [rs id] p2 (Hid & bs2 & Hp2 & Hle2). wp.
    eapply runs_mono; [apply getTType_total| |done]. cbn beta.
    intros t p3 (-> & Hstop & Hbool & Hbool'). destruct Hp2 as (? & ? & ? & Hbv & Hc).
    injection Hc as _ Hc.
    destruct ((_ =? CT_BOOLEAN_TRUE) || (_ =? CT_BOOLEAN_FALSE))%bool eqn:Hbt.
    + wp. split; [exact Hid|]. exists bs2. cbn [fst snd]. split; [lia|].
      apply orb_true_iff in Hbt. rewrite !Z.eqb_eq in Hbt. specialize (Hbool' Hbt).
      rewrite Hbool'. split_and!; [done|done|]. intros _.
      eapply runs_mono; [eapply readBool_pending with (c := id :: c) (bs := bs2)| |done].
      * split_and!; try done. cbn. by rewrite Hc.
      * cbn beta. intros r p4 [_ Hp4]. exists id, bs2. split; [done|lia].
    + wp. split; [exact Hid|]. exists bs2. cbn [fst snd]. split; [lia|].
      apply orb_false_iff in Hbt as [Hb1 Hb2]. breflect. split_and!.
      * intros Ht. specialize (Hstop Ht). done.
      * intros _ _. exists id. split; [by cbn; rewrite Hbv|]. split_and!; try done. cbn. by rewrite Hc.
      * intros Ht. by destruct (Hbool Ht).
  - done.
Qed.

#[export] Instance TCompactProtocol_total : @ReaderTotal P _ compact_format lim _.
Proof using All.
  split; cbn; intros.
  - apply readBool_elem_total.
  - apply any_between. intros. apply comp_readByte_total.
  - apply any_between. intros. apply comp_readI16_total.
  - apply any_between. intros. apply comp_readI32_total.
  - apply any_between. intros. apply comp_readI64_total.
  - apply any_between. intros. eapply any_weaken; [by apply (comp_total_fixed _ 8 _ _ (fun _ => True))|lia].
  - apply any_between. intros. apply comp_readBinary_total.
  - apply any_between. intros. apply comp_readBinary_total.
  - apply any_between. intros. intros p bs Hp.
    pose proof (comp_readStructBegin_ok bv l c p bs Hp) as Hr. unfold succeeds in Hr.
    eapply runs_mono; [exact Hr| |done]. cbn beta. intros r p' [-> Hp']. split; [done|].
    exists bs. split; [done|lia].
  - by apply comp_readFieldBegin_total.
  - apply any_between. intros. apply comp_readMapBegin_total.
  - apply any_between. intros. apply comp_readListBegin_total.
  - apply any_between. intros. apply comp_readListBegin_total.
Qed.
End Reading.

(** ** Message headers *)

Definition e_message (name : list Z) (messageType seqid : Z) : list Z :=
  [0x82] ++ [32 * messageType + VERSION_N] ++ varint (u32 seqid) ++ (varint (zlen name) ++ name).

(** The second byte, for each of the eight types three bits can hold. *)
Definition header_byte_ok (t : Z) : bool :=
  (u8 (s8 (Z.lor (Z.land VERSION_N VERSION_MASK)
        (Z.land (s32 (Z.shiftl t TYPE_SHIFT_AMOUNT)) TYPE_MASK))) =? 32 * t + VERSION_N) &&
  (s8 (Z.land (s8 (32 * t + VERSION_N)) VERSION_MASK) =? VERSION_N) &&
  (Z.land (Z.shiftr (s8 (32 * t + VERSION_N)) TYPE_SHIFT_AMOUNT) 0x03 =? t mod 4) &&
  bool_decide (is_byte (32 * t + VERSION_N)).

Lemma header_byte t : 0 <= t < 8 -> header_byte_ok t = true.
Proof.
  intros Ht. assert (forallb header_byte_ok (map Z.of_nat (seq 0 8)) = true) as Hall by (by vm_compute).
  rewrite forallb_forall in Hall. apply Hall, in_map_iff. exists (Z.to_nat t).
  split; [lia|]. apply in_seq. lia.
Qed.

Section Messages.
Context `{Platform} {T : Type} `{TTransport T}.
Abbreviation P := (TCompactProtocolT T).

Lemma comp_writeMessageBegin_ok `{!WriteLaws T} c name t id :
  0 <= t < 8 -> zlen name < 2 ^ 32 ->
  writes comp_out (writeMessageBegin name t id) c c (e_message name t id).
Proof.
  intros Ht Hn. apply writes_between. intros bf p out room Hp Hr. unfold writeMessageBegin, e_message in *.
  pose proof (header_byte t Ht) as Hb. unfold header_byte_ok in Hb. breflect.
  rewrite !zlen_app in *. change (zlen [_]) with 1 in *.
  pose proof (zlen_nonneg (varint (u32 id))). pose proof (zlen_nonneg (varint (zlen name))).
  pose proof (zlen_nonneg name).
  eapply writes_step; [apply (comp_writeByte_ok bf c)|exact Hp|change (zlen [_]) with 1; lia|].
  intros p1 Hp1. change (zlen [_]) with 1 in *.
  eapply writes_step; [apply (comp_writeByte_ok bf c)|exact Hp1|change (zlen [_]) with 1; lia|].
  intros p2 Hp2. change (zlen [_]) with 1 in *.
  eapply writes_step; [apply (writeVarint32_ok bf c); by apply (wrapu_range 32)|exact Hp2|lia|].
  intros p3 Hp3.
  eapply writes_step; [by apply (comp_writeBinary_ok bf c name)|exact Hp3|rewrite zlen_app; lia|].
  intros p4 Hp4. wp. rewrite zlen_app in *. autorewrite with wrap.
  split; [f_equal; lia|]. match goal with H : u8 (s8 (Z.lor _ _)) = _ |- _ => rewrite H in Hp4 end.
  rewrite <- !app_assoc in Hp4. change (u8 PROTOCOL_ID) with 0x82 in Hp4.
  replace (room - _) with (room - 1 - 1 - zlen (varint (u32 id)) - (zlen (varint (zlen name)) + zlen name))
    by lia. exact Hp4.
Qed.

Context `{!Unbounded} `{!ReadLaws T} (lim : limits).

(** Only two of the three bits of the type are kept. *)
Lemma comp_readMessageBegin_ok c name t id :
  0 <= t < 8 -> in_s 32 id -> zlen name < 2 ^ 31 -> string_over lim (zlen name) = false ->
  reads (comp_in lim) readMessageBegin c c (e_message name t id) (name, t mod 4, id).
Proof.
  intros Ht Hid Hn Ho. apply reads_between. intros bv p rest Hp. unfold e_message in *.
  pose proof (header_byte t Ht) as Hb. unfold header_byte_ok in Hb. breflect.
  match goal with H : bool_decide _ = true |- _ => apply bool_decide_eq_true in H end.
  rewrite <- !app_assoc in Hp. rewrite (app_assoc (varint (zlen name))) in Hp.
  unfold readMessageBegin.
  eapply reads_step; [by apply (comp_readByte_ok lim bv c 0x82)|exact Hp|]. intros p1 Hp1. cbv beta iota.
  change (s8 0x82 =? PROTOCOL_ID) with true. cbn [negb].
  eapply reads_step; [by apply (comp_readByte_ok lim bv c)|exact Hp1|]. intros p2 Hp2. cbv beta iota.
  match goal with H : s8 (Z.land _ VERSION_MASK) = _ |- _ => rewrite H end.
  match goal with H : Z.land (Z.shiftr _ _) 3 = _ |- _ => rewrite H end.
  change (VERSION_N =? VERSION_N) with true. cbn [negb].
  eapply reads_step; [apply (readVarint32_ok lim bv c (u32 id)); by apply (wrapu_range 32)|exact Hp2|].
  intros p3 Hp3. cbv beta iota.
  eapply reads_step; [by apply (comp_readBinary_ok lim bv c name)|exact Hp3|]. intros p4 Hp4. wp.
  rewrite wraps_wrapu, (wraps_small 32 id) by (lia || done).
  rewrite !zlen_app. change (zlen [_]) with 1. autorewrite with wrap.
  split; [|done]. do 2 f_equal. lia.
Qed.

(** Another protocol's first byte, or another version, is refused. *)
Lemma comp_readMessageBegin_bad (p : P) c b v rest :
  is_byte b -> is_byte v -> b <> 0x82 \/ v mod 32 <> VERSION_N ->
  comp_in lim p c (b :: v :: rest) ->
  raises readMessageBegin p (fun e _ => exists m, e = EProtocol TProtocolException.BAD_VERSION m).
Proof.
  intros Hb Hv Hbad [Hbv Hp]. unfold readMessageBegin.
  eapply (reads_step _ _ _ _ _ [b]); [by apply (comp_readByte_ok lim (boolValue_ p) c)|exact Hp|].
  intros p1 Hp1. cbv beta iota. bif; [wp; eauto|].
  assert (b = 0x82) as ->.
  { assert (u8 (s8 b) = u8 PROTOCOL_ID) as Hbb by congruence. rewrite u8_s8 in Hbb by done. exact Hbb. }
  destruct Hbad as [?|Hbad]; [done|].
  eapply (reads_step _ _ _ _ _ [v]); [by apply (comp_readByte_ok lim (boolValue_ p) c)|exact Hp1|].
  intros p2 Hp2. cbv beta iota.
  assert (s8 (Z.land (s8 v) VERSION_MASK) = v mod 32) as ->.
  { assert ((s8 (Z.land (s8 v) VERSION_MASK) =? v mod 32) = true) as Hx.
    { revert v Hv Hbad Hp Hp1 Hp2. intros v Hv _ _ _ _. revert v Hv. apply byte_cases. by vm_compute. }
    by apply Z.eqb_eq. }
  replace (v mod 32 =? VERSION_N) with false by lia. cbn [negb]. wp. eauto.
Qed.
End Messages.
