(* ===== verification/ApplicationException.v ===== *)
(** * [TApplicationException]: TApplicationException.h and .cpp

    The exception a server sends when it cannot call a handler, written and read
    as a struct through any protocol.  [read] updates the object it is called on
    field by field, so an exception thrown on the way leaves what was read. *)

From S2P Require Export Wire.

(** [TApplicationExceptionType]; a value cast from the wire may be any [int32_t]. *)
Definition UNKNOWN : Z := 0.
Definition UNKNOWN_METHOD : Z := 1.
Definition INVALID_MESSAGE_TYPE : Z := 2.
Definition WRONG_METHOD_NAME : Z := 3.
Definition BAD_SEQUENCE_ID : Z := 4.
Definition MISSING_RESULT : Z := 5.
Definition INTERNAL_ERROR : Z := 6.
Definition PROTOCOL_ERROR : Z := 7.
Definition INVALID_TRANSFORM : Z := 8.
Definition INVALID_PROTOCOL : Z := 9.
Definition UNSUPPORTED_CLIENT_TYPE : Z := 10.

Record TApplicationException := AppExn { message_ : list Z; type_ : Z }.

Definition set_message (m : list Z) (x : TApplicationException) := AppExn m (type_ x).
Definition set_type (t : Z) (x : TApplicationException) := AppExn (message_ x) t.

Definition app_what (x : TApplicationException) : list Z :=
  match message_ x with
  | [] =>
      let t := type_ x in
      bytes_of
        (if t =? UNKNOWN then "TApplicationException: Unknown application exception"
         else if t =? UNKNOWN_METHOD then "TApplicationException: Unknown method"
         else if t =? INVALID_MESSAGE_TYPE then "TApplicationException: Invalid message type"
         else if t =? WRONG_METHOD_NAME then "TApplicationException: Wrong method name"
         else if t =? BAD_SEQUENCE_ID then "TApplicationException: Bad sequence identifier"
         else if t =? MISSING_RESULT then "TApplicationException: Missing result"
         else if t =? INTERNAL_ERROR then "TApplicationException: Internal error"
         else if t =? PROTOCOL_ERROR then "TApplicationException: Protocol error"
         else if t =? INVALID_TRANSFORM then "TApplicationException: Invalid transform"
         else if t =? INVALID_PROTOCOL then "TApplicationException: Invalid protocol"
         else if t =? UNSUPPORTED_CLIENT_TYPE then "TApplicationException: Unsupported client type"
         else "TApplicationException: (Invalid exception type)")
  | m => m
  end.

Section Operations.
Context {P : Type} `{TProtocol P}.

(** A call on the protocol, the object standing by; an update of the object. *)
Abbreviation St := (P * TApplicationException)%type.
Definition on_prot {A} (m : M P A) : M St A := lift fst (fun p s => (p, s.2)) m.
Definition modify_this (f : TApplicationException -> TApplicationException) : M St unit :=
  modify (fun s => (s.1, f s.2)).

Definition read_body (depth : nat) (fuel : Z) (xfer : Z) : M St (Z + Z) :=
  let! '(n, (ftype, fid)) := on_prot p_readFieldBegin in
  let xfer := u32 (xfer + n) in
  if ftype =? T_STOP then ret (inr xfer) else
  let! n :=
    if fid =? 1 then
      if ftype =? T_STRING then
        let! '(n, str) := on_prot p_readString in
        do! modify_this (set_message str) in ret n
      else on_prot (skip depth fuel ftype)
    else if fid =? 2 then
      if ftype =? T_I32 then
        let! '(n, type) := on_prot p_readI32 in
        do! modify_this (set_type type) in ret n
      else on_prot (skip depth fuel ftype)
    else on_prot (skip depth fuel ftype) in
  let xfer := u32 (xfer + n) in
  let! n := on_prot p_readFieldEnd in
  ret (inl (u32 (xfer + n))).

Definition read (depth : nat) (fuel : Z) : M St Z :=
  let! '(n, _) := on_prot p_readStructBegin in
  let! xfer := iterate fuel (read_body depth fuel) n in
  let! n := on_prot p_readStructEnd in
  ret (u32 (xfer + n)).

Definition write (x : TApplicationException) : M P Z :=
  let! xfer := p_writeStructBegin (Some (bytes_of "TApplicationException")) in
  let! n := p_writeFieldBegin (Some (bytes_of "message")) T_STRING 1 in
  let xfer := u32 (xfer + n) in
  let! n := p_writeString (message_ x) in
  let xfer := u32 (xfer + n) in
  let! n := p_writeFieldEnd in
  let xfer := u32 (xfer + n) in
  let! n := p_writeFieldBegin (Some (bytes_of "type")) T_I32 2 in
  let xfer := u32 (xfer + n) in
  let! n := p_writeI32 (type_ x) in
  let xfer := u32 (xfer + n) in
  let! n := p_writeFieldEnd in
  let xfer := u32 (xfer + n) in
  let! n := p_writeFieldStop in
  let xfer := u32 (xfer + n) in
  let! n := p_writeStructEnd in
  ret (u32 (xfer + n)).
End Operations.

(** ** What they put on the wire and take from it *)

(** The struct an exception is written as, and the effect of a field read. *)
Definition as_value (x : TApplicationException) : tval :=
  VStruct [(1, VString (message_ x)); (2, VI32 (type_ x))].

Definition apply_field (x : TApplicationException) (f : Z * tval) : TApplicationException :=
  match f.2 with
  | VString s => if f.1 =? 1 then set_message s x else x
  | VI32 t => if f.1 =? 2 then set_type t x else x
  | _ => x
  end.

Section Correctness.
Context {P : Type} `{TProtocol P} `{!WireFormat}.

Lemma write_enc `{!WriterLaws P} x l c :
  zlen (message_ x) < 2 ^ 31 -> bytes_ok (message_ x) -> in_s 32 (type_ x) ->
  writes w_state (write x) (l :: c) (l :: c) (enc (as_value x)).
Proof.
  intros Hm Hb Ht p out room Hp Hr. unfold write. cbn [as_value enc enc_fields] in *.
  change (type_of (VString (message_ x))) with T_STRING in *.
  change (type_of (VI32 (type_ x))) with T_I32 in *.
  rewrite app_nil_r in *. rewrite !zlen_app in *.
  pose proof (zlen_nonneg (e_field 0 T_STRING 1)).
  pose proof (zlen_nonneg (e_string (message_ x))). pose proof (zlen_nonneg e_stop).
  pose proof (zlen_nonneg (e_field 1 T_I32 2)).
  pose proof (zlen_nonneg (e_i32 (type_ x))).
  eapply writes_nil_end; [apply w_structBegin|exact Hp|lia|]. intros p1 Hp1.
  eapply writes_step; [apply (w_field 0); [by cbn; auto 20|done|done|done]|exact Hp1|lia|]. intros p2 Hp2.
  eapply writes_step; [by apply w_string|exact Hp2|lia|]. intros p3 Hp3.
  eapply writes_nil_end; [apply w_fieldEnd|exact Hp3|lia|]. intros p4 Hp4.
  eapply writes_step; [apply (w_field 1); [by cbn; auto 20|done|done|done]|exact Hp4|lia|]. intros p5 Hp5.
  eapply writes_step; [by apply w_i32|exact Hp5|lia|]. intros p6 Hp6.
  eapply writes_nil_end; [apply w_fieldEnd|exact Hp6|lia|]. intros p7 Hp7.
  eapply writes_step; [apply w_stop|exact Hp7|lia|]. intros p8 Hp8.
  eapply writes_nil_end; [apply w_structEnd|exact Hp8|lia|]. intros p9 Hp9. wp.
  rewrite !Z.add_0_r, !Z.add_0_l. rewrite <- !app_assoc in *. split.
  - unfold wrapu. repeat first [rewrite Zplus_mod_idemp_l | rewrite Zplus_mod_idemp_r | rewrite Zmod_mod].
    dlia.
  - match goal with H : w_state p9 _ _ ?r |- w_state p9 _ _ ?r' => replace r' with r by lia end. exact Hp9.
Qed.

Context {lim : limits} `{!ReaderLaws P lim}.

(** A call on the protocol leaves the object alone. *)
Lemma runs_on_prot {A} (m : M P A) p y (Q : A -> P -> Prop) Q' :
  succeeds m p Q -> (forall a p', Q a p' -> Q' a (p', y)) -> succeeds (on_prot m) (p, y) Q'.
Proof using Type.
  intros Hm HQ. unfold on_prot. wp. eapply runs_mono; [exact Hm| |done]. cbn. auto.
Qed.

(** What [read] does with a field: store it or skip it. *)
Definition stores (f : Z * tval) : bool :=
  match f.2 with VString _ => f.1 =? 1 | VI32 _ => f.1 =? 2 | _ => false end.

Lemma read_body_skips depth fuel l c f xfer p y rest :
  stores f = false ->
  in_s 16 l -> in_s 16 f.1 -> wf lim f.2 = true -> (vsize f.2 <= depth)%nat ->
  Z.of_nat (vsize f.2) < fuel -> r_state p (l :: c) (enc_field l f ++ rest) ->
  succeeds (read_body depth fuel xfer) (p, y) (fun r s =>
    exists n, r = inl n /\ u32 n = u32 (xfer + zlen (enc_field l f)) /\
      s.2 = y /\ r_state s.1 (f.1 :: c) rest).
Proof using Type.
  intros Hs Hl Hid Hwf Hd Hf Hp. unfold read_body. apply runs_bind.
  eapply (runs_on_prot _ p y); [by apply (field_then_skip depth fuel l c f p rest)|].
  cbn beta. intros [n [t id]] p1 [[= -> ->] Hskip]. cbn [fst] in Hskip.
  rewrite value_type_not_stop by eauto with thrift.
  apply runs_bind. eapply (runs_mono _ _ (fun k s => s.2 = y /\ u32 (n + k) = u32 (zlen (enc_field l f)) /\
    r_state s.1 (f.1 :: c) rest) _ (fun _ _ => False)); [| |done].
  - assert (Hk : succeeds (on_prot (skip depth fuel (type_of f.2))) (p1, y) (fun k s => s.2 = y /\
      u32 (n + k) = u32 (zlen (enc_field l f)) /\ r_state s.1 (f.1 :: c) rest)).
    { eapply runs_on_prot; [exact Hskip|]. cbn. intros k p2 [Hk Hp2]. by split_and!. }
    bif; [bif; [|exact Hk]|bif; [bif; [|exact Hk]|exact Hk]]; exfalso;
      unfold stores in Hs; destruct f as [id []]; cbn in *; try discriminate; lia.
  - cbn beta. intros k [p2 y2] (Hy & Hk & Hp2). cbn [fst snd] in *. subst y2.
    unfold on_prot. wp. cbn [fst]. eapply runs_mono; [by apply r_fieldEnd| |done].
    cbn beta. intros j p3 [-> Hp3]. wp. eexists. split_and!; [done| |done|done].
    rewrite Z.add_0_r. autorewrite with wrap. rewrite <- Z.add_assoc. by apply u32_add_cong.
Qed.

Lemma apply_field_skipped y f : stores f = false -> apply_field y f = y.
Proof using Type.
  unfold stores, apply_field. destruct f.2; try done; by intros ->.
Qed.

(** One field: taken when it is the one expected, skipped otherwise. *)
Lemma read_body_ok depth fuel l c f xfer p y rest :
  in_s 16 l -> in_s 16 f.1 -> wf lim f.2 = true -> (vsize f.2 <= depth)%nat ->
  Z.of_nat (vsize f.2) < fuel -> r_state p (l :: c) (enc_field l f ++ rest) ->
  succeeds (read_body depth fuel xfer) (p, y) (fun r s =>
    exists n, r = inl n /\ u32 n = u32 (xfer + zlen (enc_field l f)) /\
      s.2 = apply_field y f /\ r_state s.1 (f.1 :: c) rest).
Proof using Type.
  intros Hl Hid Hwf Hd Hf Hp. destruct (stores f) eqn:Hs.
  2: { rewrite apply_field_skipped by done. by apply read_body_skips. }
  destruct f as [id v]. unfold stores in Hs. destruct v as [| | |t| | |s| | | | |]; try discriminate Hs;
    cbn [fst snd] in *; breflect; subst id; unfold read_body.
  - cbn [enc_field enc fst snd] in *. rewrite <- app_assoc in Hp. apply runs_bind.
    eapply (runs_on_prot _ p y);
      [apply (r_field l c T_I32 2 ltac:(cbn; auto 20) ltac:(done) Hid Hl); exact Hp|].
    cbn beta. intros r p1 [-> Hp1]. cbv beta iota. change (T_I32 =? T_STOP) with false.
    change (2 =? 1) with false. change (2 =? 2) with true. change (T_I32 =? T_I32) with true. cbv iota.
    unfold on_prot, modify_this. wp. cbn [fst snd].
    eapply runs_mono; [apply (r_i32 (2 :: c) t (in_sb_true _ _ Hwf)); exact Hp1| |done].
    cbn beta. intros r p2 [-> Hp2]. wp. cbn [fst snd].
    eapply runs_mono; [by apply r_fieldEnd| |done]. cbn beta. intros j p3 [-> Hp3]. wp.
    eexists. split_and!; [done| |done|done]. rewrite Z.add_0_r, zlen_app. autorewrite with wrap.
    f_equal. change (type_of (VI32 t)) with T_I32. lia.
  - apply string_ok_true in Hwf as (Hlen & Hover & _).
    cbn [enc_field enc fst snd] in *. rewrite <- app_assoc in Hp. apply runs_bind.
    eapply (runs_on_prot _ p y);
      [apply (r_field l c T_STRING 1 ltac:(cbn; auto 20) ltac:(done) Hid Hl); exact Hp|].
    cbn beta. intros r p1 [-> Hp1]. cbv beta iota. change (T_STRING =? T_STOP) with false.
    change (1 =? 1) with true. change (T_STRING =? T_STRING) with true. cbv iota.
    unfold on_prot, modify_this. wp. cbn [fst snd].
    eapply runs_mono; [apply (r_string (1 :: c) s Hlen Hover); exact Hp1| |done].
    cbn beta. intros r p2 [-> Hp2]. wp. cbn [fst snd].
    eapply runs_mono; [by apply r_fieldEnd| |done]. cbn beta. intros j p3 [-> Hp3]. wp.
    eexists. split_and!; [done| |done|done]. rewrite Z.add_0_r, zlen_app. autorewrite with wrap.
    f_equal. change (type_of (VString s)) with T_STRING. lia.
Qed.

(** [read] of any struct: the fields it knows are stored, in order, the others
    skipped, and exactly the struct is consumed. *)
Lemma read_struct depth fuel l c fs p y rest :
  wf lim (VStruct fs) = true -> (vsize (VStruct fs) <= depth)%nat ->
  Z.of_nat (vsize (VStruct fs)) < fuel -> r_state p (l :: c) (enc (VStruct fs) ++ rest) ->
  succeeds (read depth fuel) (p, y) (fun n s =>
    n = u32 (zlen (enc (VStruct fs))) /\ s.2 = fold_left apply_field fs y /\ r_state s.1 (l :: c) rest).
Proof using Type.
  intros Hwf Hd Hf Hp. cbn [wf vsize enc] in *. unfold read.
  pose proof (sumnat_map_le (fun f : Z * tval => vsize f.2) fs) as Hlen.
  apply runs_bind. eapply (runs_on_prot _ p y); [apply r_structBegin; exact Hp|].
  cbn beta. intros r p1 [-> Hp1]. cbv beta iota. apply runs_bind.
  eapply runs_mono; [apply (runs_iterate_budget (fun n xfer s => exists fs1 fs2 l', fs = fs1 ++ fs2 /\
      zlen fs2 = n /\ in_s 16 l' /\ s.2 = fold_left apply_field fs1 y /\
      u32 (xfer + zlen (enc_fields enc l' fs2 ++ e_stop)) = u32 (zlen (enc_fields enc 0 fs ++ e_stop)) /\
      r_state s.1 (l' :: l :: c) ((enc_fields enc l' fs2 ++ e_stop) ++ rest))
    (read_body depth fuel) (fun xfer s => u32 xfer = u32 (zlen (enc_fields enc 0 fs ++ e_stop)) /\
      s.2 = fold_left apply_field fs y /\ exists l', r_state s.1 (l' :: l :: c) rest)
    (fun _ _ => False)) with (n := zlen fs)| |done].
  - clear p1 Hp1. intros n xfer [p1 y1] (fs1 & fs2 & l' & -> & Hn & Hl' & Hy & Hx & Hp1). cbn [fst snd] in *.
    destruct fs2 as [|f fs2].
    + cbn [enc_fields app] in *. unfold read_body. apply runs_bind.
      eapply (runs_on_prot _ p1 y1); [apply r_stop; exact Hp1|]. cbn beta. intros r p2 [-> Hp2].
      cbv beta iota. change (T_STOP =? T_STOP) with true. cbv iota. wp.
      cbn [round_post fst snd]. rewrite app_nil_r in *. autorewrite with wrap.
      split_and!; [done|done|by exists l'].
    + rewrite enc_fields_cons in *. rewrite <- !app_assoc in Hp1.
      assert (In f (fs1 ++ f :: fs2)) as Hin by (apply in_or_app; right; by left).
      pose proof (sumnat_in _ _ (in_map (fun f => S (vsize f.2)) _ _ Hin)).
      rewrite forallb_forall in Hwf. specialize (Hwf f Hin). breflect.
      eapply runs_mono; [eapply (read_body_ok depth fuel l' (l :: c) f xfer p1 y1); eauto with thrift; lia| |done].
      cbn beta. intros r [p2 y2] (k & -> & Hk & Hy2 & Hp2). cbn [fst snd] in *.
      cbn [round_post]. exists (zlen fs2). split; [zlist|]. exists (fs1 ++ [f]), fs2, f.1. split_and!; auto with thrift.
      * by rewrite <- app_assoc.
      * by rewrite fold_left_app, Hy2, Hy.
      * rewrite <- Hx, <- app_assoc, (zlen_app (enc_field l' f)), Z.add_assoc. by apply u32_add_cong.
      * by rewrite <- app_assoc.
  - exists [], fs, 0. split_and!; auto with thrift.
  - split; [apply zlen_nonneg|]. unfold zlen. lia.
  - cbn beta. intros xfer [p2 y2] (Hx & Hy & l' & Hp2). cbn [fst snd] in *. unfold on_prot. wp.
    cbn [fst]. eapply runs_mono; [by eapply r_structEnd| |done]. cbn beta. intros n p3 [-> Hp3]. wp.
    rewrite Z.add_0_r. by split_and!.
Qed.
End Correctness.
