(* ===== verification/Base64.v ===== *)
(** * Base 64: protocol/TBase64Utils.cpp

    Groups of three bytes to four characters and back, without padding.
    [base64_encode] and [base64_decode] take the bytes at the input pointer and
    give those stored from the output pointer on; [base64_decode_inplace] is the
    overload that works in one buffer. *)

From S2P Require Export Memory.

Definition kBase64EncodeTable : list Z :=
  map (fun a => Z.of_N (N_of_ascii a)) (list_ascii_of_string
    "ABCDEFGHIJKLMNOPQRSTUVWXYZabcdefghijklmnopqrstuvwxyz0123456789+/").

Definition kBase64DecodeTable : list Z :=
  [0xff; 0xff; 0xff; 0xff; 0xff; 0xff; 0xff; 0xff; 0xff; 0xff; 0xff; 0xff; 0xff; 0xff; 0xff; 0xff;
   0xff; 0xff; 0xff; 0xff; 0xff; 0xff; 0xff; 0xff; 0xff; 0xff; 0xff; 0xff; 0xff; 0xff; 0xff; 0xff;
   0xff; 0xff; 0xff; 0xff; 0xff; 0xff; 0xff; 0xff; 0xff; 0xff; 0xff; 0x3e; 0xff; 0xff; 0xff; 0x3f;
   0x34; 0x35; 0x36; 0x37; 0x38; 0x39; 0x3a; 0x3b; 0x3c; 0x3d; 0xff; 0xff; 0xff; 0xff; 0xff; 0xff;
   0xff; 0x00; 0x01; 0x02; 0x03; 0x04; 0x05; 0x06; 0x07; 0x08; 0x09; 0x0a; 0x0b; 0x0c; 0x0d; 0x0e;
   0x0f; 0x10; 0x11; 0x12; 0x13; 0x14; 0x15; 0x16; 0x17; 0x18; 0x19; 0xff; 0xff; 0xff; 0xff; 0xff;
   0xff; 0x1a; 0x1b; 0x1c; 0x1d; 0x1e; 0x1f; 0x20; 0x21; 0x22; 0x23; 0x24; 0x25; 0x26; 0x27; 0x28;
   0x29; 0x2a; 0x2b; 0x2c; 0x2d; 0x2e; 0x2f; 0x30; 0x31; 0x32; 0x33; 0xff; 0xff; 0xff; 0xff; 0xff;
   0xff; 0xff; 0xff; 0xff; 0xff; 0xff; 0xff; 0xff; 0xff; 0xff; 0xff; 0xff; 0xff; 0xff; 0xff; 0xff;
   0xff; 0xff; 0xff; 0xff; 0xff; 0xff; 0xff; 0xff; 0xff; 0xff; 0xff; 0xff; 0xff; 0xff; 0xff; 0xff;
   0xff; 0xff; 0xff; 0xff; 0xff; 0xff; 0xff; 0xff; 0xff; 0xff; 0xff; 0xff; 0xff; 0xff; 0xff; 0xff;
   0xff; 0xff; 0xff; 0xff; 0xff; 0xff; 0xff; 0xff; 0xff; 0xff; 0xff; 0xff; 0xff; 0xff; 0xff; 0xff;
   0xff; 0xff; 0xff; 0xff; 0xff; 0xff; 0xff; 0xff; 0xff; 0xff; 0xff; 0xff; 0xff; 0xff; 0xff; 0xff;
   0xff; 0xff; 0xff; 0xff; 0xff; 0xff; 0xff; 0xff; 0xff; 0xff; 0xff; 0xff; 0xff; 0xff; 0xff; 0xff;
   0xff; 0xff; 0xff; 0xff; 0xff; 0xff; 0xff; 0xff; 0xff; 0xff; 0xff; 0xff; 0xff; 0xff; 0xff; 0xff;
   0xff; 0xff; 0xff; 0xff; 0xff; 0xff; 0xff; 0xff; 0xff; 0xff; 0xff; 0xff; 0xff; 0xff; 0xff; 0xff].

(** Reads of the tables and of a buffer, all within bounds below. *)
Definition at_ (l : list Z) (i : Z) : Z := default 0 (znth l i).
Abbreviation enc_ := (at_ kBase64EncodeTable).
Abbreviation dec_ := (at_ kBase64DecodeTable).

Definition base64_encode (in_ : list Z) (len : Z) : list Z :=
  let in0 := at_ in_ 0 in
  let in1 := at_ in_ 1 in
  let in2 := at_ in_ 2 in
  let buf0 := enc_ (Z.land (Z.shiftr in0 2) 0x3f) in
  if len =? 3 then
    [buf0;
     enc_ (Z.lor (Z.land (Z.shiftl in0 4) 0x30) (Z.land (Z.shiftr in1 4) 0x0f));
     enc_ (Z.lor (Z.land (Z.shiftl in1 2) 0x3c) (Z.land (Z.shiftr in2 6) 0x03));
     enc_ (Z.land in2 0x3f)]
  else if len =? 2 then
    [buf0;
     enc_ (Z.lor (Z.land (Z.shiftl in0 4) 0x30) (Z.land (Z.shiftr in1 4) 0x0f));
     enc_ (Z.land (Z.shiftl in1 2) 0x3c)]
  else [buf0; enc_ (Z.land (Z.shiftl in0 4) 0x30)].

Definition base64_decode (in_ : list Z) (len : Z) : list Z :=
  let in0 := at_ in_ 0 in
  let in1 := at_ in_ 1 in
  let in2 := at_ in_ 2 in
  let in3 := at_ in_ 3 in
  let out0 := u8 (Z.lor (Z.shiftl (dec_ in0) 2) (Z.shiftr (dec_ in1) 4)) in
  if 2 <? len then
    let out1 := u8 (Z.lor (Z.land (Z.shiftl (dec_ in1) 4) 0xf0) (Z.shiftr (dec_ in2) 2)) in
    if 3 <? len then
      let out2 := u8 (Z.lor (Z.land (Z.shiftl (dec_ in2) 6) 0xc0) (dec_ in3)) in
      [out0; out1; out2]
    else [out0; out1]
  else [out0].

(** The overload on one buffer, with its stores in order. *)
Definition base64_decode_inplace (buf : list Z) (len : Z) : list Z :=
  let buf := zsplice 0 [u8 (Z.lor (Z.shiftl (dec_ (at_ buf 0)) 2) (Z.shiftr (dec_ (at_ buf 1)) 4))] buf in
  if 2 <? len then
    let buf := zsplice 1 [u8 (Z.lor (Z.land (Z.shiftl (dec_ (at_ buf 1)) 4) 0xf0)
                                    (Z.shiftr (dec_ (at_ buf 2)) 2))] buf in
    if 3 <? len then
      zsplice 2 [u8 (Z.lor (Z.land (Z.shiftl (dec_ (at_ buf 2)) 6) 0xc0) (dec_ (at_ buf 3)))] buf
    else buf
  else buf.

Section Strings.
Context `{Platform} {S : Type}.

(** One round of [while (in_ptr != end_ptr)]: [f] turns [i] bytes at [in_ptr]
    into bytes stored at [out_ptr], which advances by [o]. *)
Definition group_body (f : list Z -> Z -> list Z) (i o end_ : Z) (in_ : list Z) (a : Z * Z * list Z)
    : M S (Z * Z * list Z + Z * Z * list Z) :=
  let '(in_ptr, out_ptr, out_data) := a in
  if negb (in_ptr =? end_) then
    let! d := load_mem in_ in_ptr i in
    let! out_data := store_mem out_data out_ptr (f d i) in
    ret (inl (in_ptr + i, out_ptr + o, out_data))
  else ret (inr a).

Definition base64EncodeString (in_ : list Z) : M S (list Z) :=
  match in_ with
  | [] => ret []
  | _ =>
      let in_size := zlen in_ in
      let remainder := in_size mod 3 in
      let out_size := 4 * (in_size / 3) + at_ [0; 2; 3] remainder in
      let! out_data := new_bytes out_size in
      let! '(in_ptr, out_ptr, out_data) :=
        iterate (in_size + 1) (group_body base64_encode 3 4 (in_size - remainder) in_) (0, 0, out_data) in
      if 0 <? remainder then
        let! d := load_mem in_ in_ptr remainder in
        store_mem out_data out_ptr (base64_encode d remainder)
      else ret out_data
  end.

(** [false] is [None]; the output string is then left as it was. *)
Definition base64DecodeString (in_ : list Z) : M S (option (list Z)) :=
  match in_ with
  | [] => ret (Some [])
  | _ =>
      let in_size := zlen in_ in
      let remainder := in_size mod 4 in
      if remainder =? 1 then ret None else
      let out_size := 3 * (in_size / 4) + at_ [0; 0; 1; 2] remainder in
      let! out_data := new_bytes out_size in
      let! '(in_ptr, out_ptr, out_data) :=
        iterate (in_size + 1) (group_body base64_decode 4 3 (in_size - remainder) in_) (0, 0, out_data) in
      if 0 <? remainder then
        let! d := load_mem in_ in_ptr remainder in
        let! out := store_mem out_data out_ptr (base64_decode d remainder) in
        ret (Some out)
      else ret (Some out_data)
  end.
End Strings.

(** ** Reference definitions *)

(** The first [k] groups of [n] bytes, each mapped through [f]. *)
Fixpoint full_groups (k : nat) (n : Z) (f : list Z -> list Z) (l : list Z) : list Z :=
  match k with
  | O => []
  | S k => f (ztake n l) ++ full_groups k n f (zdrop n l)
  end.

(** Full groups, then what is left if anything is. *)
Definition by_groups (n : Z) (f : list Z -> list Z) (l : list Z) : list Z :=
  let k := zlen l / n in
  full_groups (Z.to_nat k) n f l ++
  (if 0 <? zlen l mod n then f (zdrop (n * k) l) else []).

(** The encoding of one to three bytes: four six-bit digits of the 24-bit number
    they make, as many as hold their bits. *)
Definition group_number (g : list Z) : Z := at_ g 0 * 65536 + at_ g 1 * 256 + at_ g 2.
Definition group_digits (v : Z) : list Z := [v / 262144; v / 4096 mod 64; v / 64 mod 64; v mod 64].
Definition encode_group (g : list Z) : list Z :=
  ztake (zlen g + 1) (map enc_ (group_digits (group_number g))).

Definition encoding (l : list Z) : list Z := by_groups 3 encode_group l.

(** The decoding of two to four characters, valid or not. *)
Definition decode_group (g : list Z) : list Z := base64_decode g (zlen g).
Definition decoding (l : list Z) : list Z := by_groups 4 decode_group l.

(** The six-bit digits of a group. *)
Definition digit (i : Z) : Prop := 0 <= i < 64.

Lemma decode_encode_digit i : digit i -> dec_ (enc_ i) = i.
Proof.
  intros Hi. assert (forallb (fun i => dec_ (enc_ i) =? i) (map Z.of_nat (seq 0 64)) = true) as Hall
    by (by vm_compute).
  rewrite forallb_forall in Hall. apply Z.eqb_eq, Hall, in_map_iff. exists (Z.to_nat i).
  unfold digit in Hi. split; [lia|]. apply in_seq. lia.
Qed.

Definition split_ok (x : Z) : bool :=
  (Z.land (Z.shiftr x 2) 0x3f =? x / 4) && (Z.land (Z.shiftl x 4) 0x30 =? 16 * (x mod 4)) &&
  (Z.land (Z.shiftr x 4) 0x0f =? x / 16) && (Z.land (Z.shiftl x 2) 0x3c =? 4 * (x mod 16)) &&
  (Z.land (Z.shiftr x 6) 0x03 =? x / 64) && (Z.land x 0x3f =? x mod 64).

Lemma split_byte x : is_byte x -> split_ok x = true.
Proof. apply byte_cases. by vm_compute. Qed.

Definition join_ok (i j : Z) : bool :=
  (u8 (Z.lor (Z.shiftl i 2) (Z.shiftr j 4)) =? 4 * i + j / 16) &&
  (u8 (Z.lor (Z.land (Z.shiftl i 4) 0xf0) (Z.shiftr j 2)) =? 16 * (i mod 16) + j / 4) &&
  (u8 (Z.lor (Z.land (Z.shiftl i 6) 0xc0) j) =? 64 * (i mod 4) + j).

Lemma join_digits i j : digit i -> digit j -> join_ok i j = true.
Proof.
  intros Hi Hj.
  assert (forallb (fun i => forallb (join_ok i) (map Z.of_nat (seq 0 64))) (map Z.of_nat (seq 0 64)) = true)
    as Hall by (by vm_compute).
  unfold digit in *. rewrite forallb_forall in Hall.
  specialize (Hall i ltac:(apply in_map_iff; exists (Z.to_nat i); split; [lia|apply in_seq; lia])).
  rewrite forallb_forall in Hall. apply Hall, in_map_iff. exists (Z.to_nat j). split; [lia|].
  apply in_seq. lia.
Qed.

Lemma at_0 x l : at_ (x :: l) 0 = x.
Proof. reflexivity. Qed.
Lemma at_1 x y l : at_ (x :: y :: l) 1 = y.
Proof. reflexivity. Qed.
Lemma at_2 x y z l : at_ (x :: y :: z :: l) 2 = z.
Proof. reflexivity. Qed.
Lemma at_3 x y z t l : at_ (x :: y :: z :: t :: l) 3 = t.
Proof. reflexivity. Qed.

(** Elementwise equality of lists. *)
Ltac list_eq := repeat match goal with |- _ :: _ = _ :: _ => f_equal end.

(** The digits of the number three bytes make. *)
Lemma group_digits_bytes a b c :
  is_byte a -> is_byte b -> is_byte c ->
  group_digits (a * 65536 + b * 256 + c)
  = [a / 4; 16 * (a mod 4) + b / 16; 4 * (b mod 16) + c / 64; c mod 64].
Proof. unfold is_byte, group_digits. intros. list_eq; dlia. Qed.

(** The digits [base64_encode] extracts, as sums. *)
Lemma mid_digits a b :
  is_byte a -> is_byte b ->
  Z.lor (Z.land (Z.shiftl a 4) 0x30) (Z.land (Z.shiftr b 4) 0x0f) = 16 * (a mod 4) + b / 16 /\
  Z.lor (Z.land (Z.shiftl a 2) 0x3c) (Z.land (Z.shiftr b 6) 0x03) = 4 * (a mod 16) + b / 64.
Proof.
  intros Ha Hb. pose proof (split_byte a Ha). pose proof (split_byte b Hb).
  unfold split_ok in *. breflect. unfold is_byte in *.
  split; [rewrite (lor_disjoint _ _ 4)|rewrite (lor_disjoint _ _ 2)]; dlia.
Qed.

Lemma end_digits a :
  is_byte a ->
  Z.land (Z.shiftr a 2) 0x3f = a / 4 /\ Z.land (Z.shiftl a 4) 0x30 = 16 * (a mod 4) /\
  Z.land (Z.shiftl a 2) 0x3c = 4 * (a mod 16) /\ Z.land a 0x3f = a mod 64.
Proof.
  intros Ha. pose proof (split_byte a Ha). unfold split_ok in *. by breflect.
Qed.

(** Groups of one, two and three bytes. *)
Lemma group_cases (P : list Z -> Prop) :
  (forall a, is_byte a -> P [a]) -> (forall a b, is_byte a -> is_byte b -> P [a; b]) ->
  (forall a b c, is_byte a -> is_byte b -> is_byte c -> P [a; b; c]) ->
  forall g, bytes_ok g -> 0 < zlen g <= 3 -> P g.
Proof.
  intros H1 H2 H3 g Hg Hlen.
  unfold zlen in Hlen.
  destruct g as [|a [|b [|c [|d g]]]]; cbn [length] in Hlen; try lia;
    repeat match goal with H : Forall _ (_ :: _) |- _ => apply Forall_cons in H as [? H] end; auto.
Qed.

Lemma byte_0 : is_byte 0.
Proof. done. Qed.

(** The encodings of the three kinds of group. *)
Lemma encode_group_1 a :
  is_byte a -> encode_group [a] = map enc_ [a / 4; 16 * (a mod 4)].
Proof.
  intros. change (encode_group [a])
    with (ztake 2 (map enc_ (group_digits (a * 65536 + 0 * 256 + 0)))).
  rewrite (group_digits_bytes a 0 0) by auto using byte_0.
  change (0 / 16) with 0. by rewrite Z.add_0_r.
Qed.

Lemma encode_group_2 a b :
  is_byte a -> is_byte b ->
  encode_group [a; b] = map enc_ [a / 4; 16 * (a mod 4) + b / 16; 4 * (b mod 16)].
Proof.
  intros. change (encode_group [a; b])
    with (ztake 3 (map enc_ (group_digits (a * 65536 + b * 256 + 0)))).
  rewrite (group_digits_bytes a b 0) by auto using byte_0.
  change (0 / 64) with 0. by rewrite Z.add_0_r.
Qed.

Lemma encode_group_3 a b c :
  is_byte a -> is_byte b -> is_byte c ->
  encode_group [a; b; c]
  = map enc_ [a / 4; 16 * (a mod 4) + b / 16; 4 * (b mod 16) + c / 64; c mod 64].
Proof.
  intros. change (encode_group [a; b; c])
    with (ztake 4 (map enc_ (group_digits (a * 65536 + b * 256 + c)))).
  by rewrite group_digits_bytes.
Qed.

Lemma base64_encode_group g :
  bytes_ok g -> 0 < zlen g <= 3 -> base64_encode g (zlen g) = encode_group g.
Proof.
  revert g. apply group_cases; intros.
  - change (base64_encode [a] (zlen [a]))
      with (map enc_ [Z.land (Z.shiftr a 2) 0x3f; Z.land (Z.shiftl a 4) 0x30]).
    rewrite encode_group_1 by done. by destruct (end_digits a) as (-> & -> & _ & _).
  - change (base64_encode [a; b] (zlen [a; b]))
      with (map enc_ [Z.land (Z.shiftr a 2) 0x3f;
              Z.lor (Z.land (Z.shiftl a 4) 0x30) (Z.land (Z.shiftr b 4) 0x0f);
              Z.land (Z.shiftl b 2) 0x3c]).
    rewrite encode_group_2 by done.
    destruct (end_digits a) as (-> & _); [done|].
    destruct (end_digits b) as (_ & _ & -> & _); [done|].
    by destruct (mid_digits a b) as (-> & _).
  - change (base64_encode [a; b; c] (zlen [a; b; c]))
      with (map enc_ [Z.land (Z.shiftr a 2) 0x3f;
              Z.lor (Z.land (Z.shiftl a 4) 0x30) (Z.land (Z.shiftr b 4) 0x0f);
              Z.lor (Z.land (Z.shiftl b 2) 0x3c) (Z.land (Z.shiftr c 6) 0x03);
              Z.land c 0x3f]).
    rewrite encode_group_3 by done.
    destruct (end_digits a) as (-> & _); [done|].
    destruct (end_digits c) as (_ & _ & _ & ->); [done|].
    destruct (mid_digits a b) as (-> & _); [done..|].
    by destruct (mid_digits b c) as (_ & ->).
Qed.

(** Decoding a group's encoding. *)
Lemma join3 i j : digit i -> digit j ->
  u8 (Z.lor (Z.shiftl i 2) (Z.shiftr j 4)) = 4 * i + j / 16 /\
  u8 (Z.lor (Z.land (Z.shiftl i 4) 0xf0) (Z.shiftr j 2)) = 16 * (i mod 16) + j / 4 /\
  u8 (Z.lor (Z.land (Z.shiftl i 6) 0xc0) j) = 64 * (i mod 4) + j.
Proof. intros Hi Hj. pose proof (join_digits i j Hi Hj). unfold join_ok in *. by breflect. Qed.

Ltac digits := unfold digit, is_byte in *; dlia.

Lemma decode_encode_group g :
  bytes_ok g -> 0 < zlen g <= 3 ->
  zlen (encode_group g) = zlen g + 1 /\ decode_group (encode_group g) = g.
Proof.
  revert g. apply group_cases; intros.
  - rewrite encode_group_1 by done. split; [reflexivity|]. cbn [map].
    change (decode_group [?x; ?y]) with [u8 (Z.lor (Z.shiftl (dec_ x) 2) (Z.shiftr (dec_ y) 4))].
    rewrite !decode_encode_digit by digits.
    destruct (join3 (a / 4) (16 * (a mod 4))) as (-> & _); [digits..|]. list_eq. digits.
  - rewrite encode_group_2 by done. split; [reflexivity|]. cbn [map].
    change (decode_group [?x; ?y; ?z])
      with [u8 (Z.lor (Z.shiftl (dec_ x) 2) (Z.shiftr (dec_ y) 4));
            u8 (Z.lor (Z.land (Z.shiftl (dec_ y) 4) 0xf0) (Z.shiftr (dec_ z) 2))].
    rewrite !decode_encode_digit by digits.
    destruct (join3 (a / 4) (16 * (a mod 4) + b / 16)) as (-> & _); [digits..|].
    destruct (join3 (16 * (a mod 4) + b / 16) (4 * (b mod 16))) as (_ & -> & _); [digits..|].
    list_eq; digits.
  - rewrite encode_group_3 by done. split; [reflexivity|]. cbn [map].
    change (decode_group [?x; ?y; ?z; ?t])
      with [u8 (Z.lor (Z.shiftl (dec_ x) 2) (Z.shiftr (dec_ y) 4));
            u8 (Z.lor (Z.land (Z.shiftl (dec_ y) 4) 0xf0) (Z.shiftr (dec_ z) 2));
            u8 (Z.lor (Z.land (Z.shiftl (dec_ z) 6) 0xc0) (dec_ t))].
    rewrite !decode_encode_digit by digits.
    destruct (join3 (a / 4) (16 * (a mod 4) + b / 16)) as (-> & _); [digits..|].
    destruct (join3 (16 * (a mod 4) + b / 16) (4 * (b mod 16) + c / 64)) as (_ & -> & _); [digits..|].
    destruct (join3 (4 * (b mod 16) + c / 64) (c mod 64)) as (_ & _ & ->); [digits..|].
    list_eq; digits.
Qed.

(** The overload on one buffer stores what the other returns. *)
Lemma inplace_decode g :
  2 <= zlen g <= 4 ->
  ztake (zlen g - 1) (base64_decode_inplace g (zlen g)) = base64_decode g (zlen g) /\
  zdrop (zlen g - 1) (base64_decode_inplace g (zlen g)) = zdrop (zlen g - 1) g.
Proof.
  intros Hlen. unfold zlen in Hlen.
  destruct g as [|a [|b [|c [|d [|e g]]]]]; cbn [length] in Hlen; try lia; split; reflexivity.
Qed.

(** *** Groups *)

Lemma full_groups_snoc k n f l :
  0 < n -> n * (Z.of_nat k + 1) <= zlen l ->
  full_groups (S k) n f l
  = full_groups k n f l ++ f (zslice (n * Z.of_nat k) (n * Z.of_nat k + n) l).
Proof.
  intros Hn. revert l. induction k as [|k IH]; intros l Hl.
  - cbn [full_groups]. rewrite app_nil_r. cbn [app]. unfold zslice.
    rewrite zdrop_0 by lia. do 2 f_equal. lia.
  - change (full_groups (S (S k)) n f l) with (f (ztake n l) ++ full_groups (S k) n f (zdrop n l)).
    rewrite IH by (rewrite zlen_zdrop; lia). rewrite app_assoc. f_equal. f_equal.
    unfold zslice. rewrite zdrop_zdrop by lia. f_equal; [lia|]. f_equal. lia.
Qed.

Lemma full_groups_ext k n f g l :
  0 < n -> n * Z.of_nat k <= zlen l ->
  (forall d i, d = zslice i (i + n) l -> 0 <= i -> i + n <= zlen l -> f d = g d) ->
  full_groups k n f l = full_groups k n g l.
Proof.
  intros Hn. induction k as [|k IH]; intros Hl Hfg; [done|].
  rewrite !full_groups_snoc by lia. rewrite IH by (try done; lia). f_equal.
  eapply Hfg; [done|lia..].
Qed.

(** The loop of both string functions: after it the output begins with the full
    groups. *)
Section Loop.
Context {S : Type} (f : list Z -> Z -> list Z) (i o : Z) (in_ : list Z).
Context (Hi : 0 < i) (Ho : 0 <= o) (Hf : forall d, zlen d = i -> zlen (f d i) = o).
Abbreviation k := (zlen in_ / i).

(** [j] groups done. *)
Definition groups_done (size j : Z) (a : Z * Z * list Z) : Prop :=
  0 <= j <= k /\ a.1.1 = i * j /\ a.1.2 = o * j /\ zlen a.2 = size /\
  ztake (o * j) a.2 = full_groups (Z.to_nat j) i (fun d => f d i) in_.

Lemma group_body_spec size a (s : S) j :
  o * k <= size -> groups_done size j a ->
  runs (group_body f i o (zlen in_ - zlen in_ mod i) in_ a) s
    (fun r s' => s' = s /\ match r with
       | inl a' => j < k /\ groups_done size (j + 1) a'
       | inr a' => groups_done size k a'
       end) (fun _ _ => False).
Proof using Hi Ho Hf.
  destruct a as [[in_ptr out_ptr] out]. intros Hsize (Hj & Hin & Hout & Hlen & Hpre).
  cbn [fst snd] in *. subst in_ptr out_ptr. unfold group_body.
  pose proof (Z.div_mod (zlen in_) i ltac:(lia)) as Hdm.
  replace (zlen in_ - zlen in_ mod i) with (i * k) by lia.
  bcase (i * j =? i * k); cbn [negb].
  - apply Z.mul_reg_l in Hb; [|lia]. subst j. wp. split; [done|].
    unfold groups_done; cbn [fst snd]. split_and!; try done; lia.
  - assert (j < k) by nia. pose proof (Z.mod_pos_bound (zlen in_) i Hi).
    assert (zlen (zslice (i * j) (i * j + i) in_) = i) as Hd by (rewrite zlen_zslice; nia).
    wp. apply runs_load_mem; [nia..|]. wp. pose proof (Hf _ Hd) as Hfd.
    apply runs_store_mem; [nia..|]. wp. split; [done|]. split; [done|].
    unfold groups_done; cbn [fst snd]. split_and!; [lia..| |].
    { rewrite zlen_zsplice; nia. }
    replace (Z.to_nat (j + 1)) with (Datatypes.S (Z.to_nat j)) by lia.
    rewrite full_groups_snoc by nia. rewrite <- Hpre, Z2Nat.id by lia.
    unfold zsplice. rewrite app_assoc. apply ztake_app. rewrite zlen_app, zlen_ztake. nia.
Qed.

Lemma groups_loop out (s : S) :
  o * k <= zlen out ->
  succeeds (iterate (zlen in_ + 1) (group_body f i o (zlen in_ - zlen in_ mod i) in_) (0, 0, out)) s
    (fun a s' => s' = s /\ groups_done (zlen out) k a).
Proof using Hi Ho Hf.
  intros Hout. pose proof (zlen_nonneg in_).
  assert (0 <= k <= zlen in_) by (split; [apply Z.div_pos; lia|apply Z.div_le_upper_bound; nia]).
  apply (runs_iterate_budget
    (fun n a s' => s' = s /\ exists j, n = k - j /\ groups_done (zlen out) j a)) with (n := k);
    [|split; [done|] |lia].
  - intros n a s' [-> (j & -> & Hj)]. eapply runs_mono; [by apply group_body_spec| |done].
    intros [a'|a'] s' [-> Hr]; [|done]. destruct Hr as [Hlt Hr].
    exists (k - (j + 1)). split; [lia|]. split; [done|]. exists (j + 1). split; [lia|done].
  - exists 0. split; [lia|]. unfold groups_done. cbn [fst snd]. split_and!; try lia.
    by rewrite ztake_0 by lia.
Qed.
End Loop.

(** *** The reference functions, a group at a time *)

Lemma by_groups_step n f l :
  0 < n <= zlen l -> by_groups n f l = f (ztake n l) ++ by_groups n f (zdrop n l).
Proof.
  intros Hn. unfold by_groups. rewrite zlen_zdrop.
  replace (Z.max 0 (zlen l - Z.max 0 n)) with (zlen l + -1 * n) by lia.
  rewrite Z.div_add, Z.mod_add by lia.
  pose proof (Z.div_le_lower_bound (zlen l) n 1 ltac:(lia) ltac:(lia)).
  replace (Z.to_nat (zlen l / n)) with (Datatypes.S (Z.to_nat (zlen l / n + -1))) by lia.
  cbn [full_groups]. rewrite <- app_assoc. rewrite zdrop_zdrop by nia.
  by replace (n * (zlen l / n + -1) + n) with (n * (zlen l / n)) by lia.
Qed.

Lemma by_groups_small n f l :
  zlen l < n -> by_groups n f l = if 0 <? zlen l then f l else [].
Proof.
  intros. pose proof (zlen_nonneg l). unfold by_groups.
  rewrite Z.div_small, Z.mod_small by lia. cbn [Z.to_nat full_groups app].
  by rewrite zdrop_0 by lia.
Qed.

Lemma bytes_ztake n l : bytes_ok l -> bytes_ok (ztake n l).
Proof. apply Forall_take. Qed.
Lemma bytes_zdrop n l : bytes_ok l -> bytes_ok (zdrop n l).
Proof. apply Forall_drop. Qed.

Lemma decoding_app g l : zlen g = 4 -> decoding (g ++ l) = decode_group g ++ decoding l.
Proof.
  intros Hg. pose proof (zlen_nonneg l). unfold decoding.
  rewrite by_groups_step by (rewrite zlen_app; lia).
  by rewrite ztake_app, zdrop_app by done.
Qed.

(** Induction on a byte string, three bytes at a time. *)
Lemma groups_ind (P : list Z -> Prop) :
  P [] -> (forall g, 0 < zlen g < 3 -> bytes_ok g -> P g) ->
  (forall g l, zlen g = 3 -> bytes_ok g -> bytes_ok l -> P l -> P (g ++ l)) ->
  forall l, bytes_ok l -> P l.
Proof.
  intros H0 Hs Hg l. remember (length l) as n eqn:Hn. revert l Hn.
  induction n as [n IH] using lt_wf_ind. intros l -> Hl. pose proof (zlen_nonneg l).
  destruct (decide (zlen l = 0)) as [Hz|Hz]; [by rewrite (zlen_0 _ Hz)|].
  destruct (decide (zlen l < 3)) as [Hlt|Hge]; [apply Hs; [lia|done]|].
  rewrite <- (ztake_zdrop 3 l).
  assert (zlen (zdrop 3 l) = zlen l - 3) as Hd by (rewrite zlen_zdrop; lia).
  apply Hg; auto using bytes_ztake, bytes_zdrop; [rewrite zlen_ztake; lia|].
  eapply IH; [|done|by apply bytes_zdrop]. unfold zlen in *. lia.
Qed.

Lemma encoding_small g : 0 < zlen g < 3 -> encoding g = encode_group g.
Proof.
  intros. unfold encoding. rewrite by_groups_small by lia. by bif; [|lia].
Qed.

Lemma encoding_app g l : zlen g = 3 -> encoding (g ++ l) = encode_group g ++ encoding l.
Proof.
  intros Hg. pose proof (zlen_nonneg l). unfold encoding.
  rewrite by_groups_step by (rewrite zlen_app; lia). by rewrite ztake_app, zdrop_app by done.
Qed.

Lemma encoding_length l :
  bytes_ok l -> zlen (encoding l) = 4 * (zlen l / 3) + at_ [0; 2; 3] (zlen l mod 3).
Proof.
  revert l. apply groups_ind.
  - reflexivity.
  - intros g Hg Hb. rewrite encoding_small by done.
    destruct (decode_encode_group g) as [-> _]; [done|lia|].
    rewrite Z.div_small, Z.mod_small by lia.
    by assert (zlen g = 1 \/ zlen g = 2) as [-> | ->] by lia.
  - intros g l Hg Hb Hl IH. rewrite encoding_app, !zlen_app, IH by done.
    destruct (decode_encode_group g) as [-> _]; [done|lia|]. rewrite Hg.
    replace (3 + zlen l) with (zlen l + 1 * 3) by lia. rewrite Z.div_add, Z.mod_add by lia. lia.
Qed.

(** Every character of an encoding is ASCII. *)
Lemma enc_ascii i : 0 <= enc_ i < 128.
Proof.
  unfold at_, znth. bif; [cbn; lia|].
  destruct (kBase64EncodeTable !! Z.to_nat i) as [b|] eqn:Hk; [|cbn; lia].
  assert (Forall (fun b => 0 <= b < 128) kBase64EncodeTable) as Hall.
  { rewrite Forall_forall. intros x Hx. apply list_elem_of_In in Hx.
    assert (forallb (fun b => (0 <=? b) && (b <? 128))%bool kBase64EncodeTable = true) as Hf
      by reflexivity.
    rewrite forallb_forall in Hf. specialize (Hf x Hx). lia. }
  exact (Forall_lookup_1 _ _ _ _ Hall Hk).
Qed.

Lemma encode_group_ascii g : Forall (fun b => 0 <= b < 128) (encode_group g).
Proof. apply Forall_take, Forall_fmap, Forall_forall. intros i _. apply enc_ascii. Qed.

Lemma encoding_ascii l : bytes_ok l -> Forall (fun b => 0 <= b < 128) (encoding l).
Proof.
  revert l. apply groups_ind.
  - constructor.
  - intros g Hg Hb. rewrite encoding_small by done. apply encode_group_ascii.
  - intros g l Hg Hb Hl IH. rewrite encoding_app by done. apply Forall_app.
    split; [apply encode_group_ascii|done].
Qed.

(** No encoding has a length the decoder refuses. *)
Lemma encoding_accepted l : bytes_ok l -> zlen (encoding l) mod 4 <> 1.
Proof.
  intros Hl. rewrite encoding_length by done. rewrite Z.add_comm, Z.mul_comm, Z_mod_plus_full.
  pose proof (Z.mod_pos_bound (zlen l) 3 ltac:(lia)).
  by assert (zlen l mod 3 = 0 \/ zlen l mod 3 = 1 \/ zlen l mod 3 = 2) as [-> |[-> | ->]] by lia.
Qed.

Lemma decoding_encoding l : bytes_ok l -> decoding (encoding l) = l.
Proof.
  revert l. apply groups_ind.
  - reflexivity.
  - intros g Hg Hb. rewrite encoding_small by done.
    destruct (decode_encode_group g) as [Hlen Hdec]; [done|lia|].
    unfold decoding. rewrite by_groups_small by lia. rewrite Hdec. bif; [done|lia].
  - intros g l Hg Hb Hl IH. rewrite encoding_app by done.
    destruct (decode_encode_group g) as [Hlen Hdec]; [done|lia|].
    by rewrite decoding_app, Hdec, IH by lia.
Qed.

(** ** The string functions *)

Lemma encode_length d : zlen d = 3 -> zlen (base64_encode d 3) = 4.
Proof. reflexivity. Qed.
Lemma decode_length d : zlen d = 4 -> zlen (base64_decode d 4) = 3.
Proof. reflexivity. Qed.

(** The output once the loop has left and the last group is stored. *)
Lemma last_group f i o in_ size in_ptr out_ptr out d :
  0 < i -> 0 <= o -> groups_done f i o in_ size (zlen in_ / i) (in_ptr, out_ptr, out) ->
  size = o * (zlen in_ / i) + zlen d ->
  zsplice out_ptr d out
  = full_groups (Z.to_nat (zlen in_ / i)) i (fun d => f d i) in_ ++ d /\
  zslice in_ptr (in_ptr + zlen in_ mod i) in_ = zdrop (i * (zlen in_ / i)) in_.
Proof.
  intros Hi Ho (Hk & Hin & Hout & Hlen & Hpre) Hsize. cbn [fst snd] in *. subst.
  pose proof (Z.div_mod (zlen in_) i ltac:(lia)). pose proof (Z.mod_pos_bound (zlen in_) i Hi).
  split.
  - unfold zsplice. rewrite Hpre, zdrop_ge by lia. by rewrite app_nil_r.
  - unfold zslice. apply ztake_ge. rewrite zlen_zdrop. nia.
Qed.

Section Results.
Context `{Platform} `{!Unbounded} {S : Type}.

Lemma encode_groups k l :
  bytes_ok l -> 3 * Z.of_nat k <= zlen l ->
  full_groups k 3 (fun d => base64_encode d 3) l = full_groups k 3 encode_group l.
Proof using.
  intros Hl Hk. apply full_groups_ext; [lia|done|]. intros d i -> ? ?.
  rewrite <- base64_encode_group; rewrite ?zlen_zslice by lia; [|by apply Forall_zslice|lia].
  f_equal. lia.
Qed.

Lemma decode_groups k l :
  4 * Z.of_nat k <= zlen l ->
  full_groups k 4 (fun d => base64_decode d 4) l = full_groups k 4 decode_group l.
Proof using.
  intros Hk. apply full_groups_ext; [lia|done|]. intros d i -> ? ?.
  unfold decode_group. rewrite zlen_zslice by lia. f_equal. lia.
Qed.

Lemma base64EncodeString_spec l (s : S) :
  bytes_ok l -> succeeds (base64EncodeString l) s (fun r s' => s' = s /\ r = encoding l).
Proof using All.
  intros Hl. destruct l as [|b l']; [by wp|]. unfold base64EncodeString.
  set (l := b :: l') in *. clearbody l. pose proof (zlen_nonneg l).
  pose proof (Z.mod_pos_bound (zlen l) 3 ltac:(lia)). pose proof (Z.div_mod (zlen l) 3 ltac:(lia)) as Hdm.
  assert (0 <= zlen l / 3) by (apply Z.div_pos; lia).
  set (size := 4 * (zlen l / 3) + at_ [0; 2; 3] (zlen l mod 3)).
  assert (size = 4 * (zlen l / 3) + (if 0 <? zlen l mod 3 then zlen l mod 3 + 1 else 0)) as Hsize.
  { assert (zlen l mod 3 = 0 \/ zlen l mod 3 = 1 \/ zlen l mod 3 = 2) as [E|[E|E]] by lia;
      unfold size; rewrite E; reflexivity. }
  wp. unfold new_bytes. rewrite always_alloc. wp.
  assert (zlen (zrep size junk) = size) as Hrep by (rewrite zlen_zrep; clearbody size; case_match; lia).
  eapply runs_mono; [apply groups_loop; [lia..| |]; [by intros; apply encode_length|] | |done].
  { rewrite Hrep. clearbody size. case_match; lia. }
  rewrite Hrep. clearbody size. intros [[in_ptr out_ptr] out] s' [-> Hdone].
  unfold encoding, by_groups. rewrite <- encode_groups by (done || lia).
  assert (Hf := last_group base64_encode 3 4 l size in_ptr out_ptr out).
  destruct (0 <? zlen l mod 3) eqn:Hrem; breflect.
  - set (g := zdrop (3 * (zlen l / 3)) l) in *.
    assert (zlen g = zlen l mod 3) as Hg by (unfold g; rewrite zlen_zdrop; lia).
    pose proof (base64_encode_group g (bytes_zdrop _ _ Hl) ltac:(lia)) as Henc.
    destruct (decode_encode_group g (bytes_zdrop _ _ Hl) ltac:(lia)) as [Hlen _].
    destruct (Hf (encode_group g)) as [Hout Hin]; [lia|lia|done|lia|].
    destruct Hdone as (_ & Hip & Hop & Hol & _). cbn [fst snd] in *.
    wp. apply runs_load_mem; [lia..|]. rewrite Hin. fold g. rewrite <- Hg, Henc.
    apply runs_store_mem; [lia..|]. done.
  - wp. split; [done|]. destruct (Hf []) as [Hout _]; [lia|lia|done|change (zlen []) with 0; lia|].
    rewrite <- Hout. destruct Hdone as (_ & _ & Hop & Hol & _). cbn [fst snd] in *.
    unfold zsplice. cbn [app]. change (zlen []) with 0. rewrite Z.add_0_r. symmetry. apply ztake_zdrop.
Qed.

Lemma base64DecodeString_spec l (s : S) :
  succeeds (base64DecodeString l) s (fun r s' => s' = s /\
    r = if zlen l mod 4 =? 1 then None else Some (decoding l)).
Proof using All.
  destruct l as [|b l']; [by wp|]. unfold base64DecodeString.
  set (l := b :: l') in *. clearbody l. pose proof (zlen_nonneg l).
  pose proof (Z.mod_pos_bound (zlen l) 4 ltac:(lia)). pose proof (Z.div_mod (zlen l) 4 ltac:(lia)) as Hdm.
  assert (0 <= zlen l / 4) by (apply Z.div_pos; lia).
  bcase (zlen l mod 4 =? 1); [by wp|].
  set (size := 3 * (zlen l / 4) + at_ [0; 0; 1; 2] (zlen l mod 4)).
  assert (size = 3 * (zlen l / 4) + (if 0 <? zlen l mod 4 then zlen l mod 4 - 1 else 0)) as Hsize.
  { assert (zlen l mod 4 = 0 \/ zlen l mod 4 = 2 \/ zlen l mod 4 = 3) as [E|[E|E]] by lia;
      unfold size; rewrite E; reflexivity. }
  wp. unfold new_bytes. rewrite always_alloc. wp.
  assert (zlen (zrep size junk) = size) as Hrep by (rewrite zlen_zrep; clearbody size; case_match; lia).
  eapply runs_mono; [apply groups_loop; [lia..| |]; [by intros; apply decode_length|] | |done].
  { rewrite Hrep. clearbody size. case_match; lia. }
  rewrite Hrep. clearbody size. intros [[in_ptr out_ptr] out] s' [-> Hdone].
  unfold decoding, by_groups. rewrite <- decode_groups by lia.
  assert (Hf := last_group base64_decode 4 3 l size in_ptr out_ptr out).
  destruct (0 <? zlen l mod 4) eqn:Hrem; breflect.
  - set (g := zdrop (4 * (zlen l / 4)) l) in *.
    assert (zlen g = zlen l mod 4) as Hg by (unfold g; rewrite zlen_zdrop; lia).
    assert (zlen (decode_group g) = zlen g - 1) as Hlen.
    { unfold decode_group, base64_decode.
      assert (zlen g = 2 \/ zlen g = 3) as [-> | ->] by lia; reflexivity. }
    destruct (Hf (decode_group g)) as [Hout Hin]; [lia|lia|done|lia|].
    destruct Hdone as (_ & Hip & Hop & Hol & _). cbn [fst snd] in *.
    wp. apply runs_load_mem; [lia..|]. rewrite Hin. fold g. rewrite <- Hg.
    change (base64_decode g (zlen g)) with (decode_group g). wp.
    apply runs_store_mem; [lia..|]. wp. by rewrite Hout.
  - wp. split; [done|]. destruct (Hf []) as [Hout _]; [lia|lia|done|change (zlen []) with 0; lia|].
    rewrite <- Hout. destruct Hdone as (_ & _ & Hop & Hol & _). cbn [fst snd] in *.
    unfold zsplice. cbn [app]. change (zlen []) with 0. rewrite Z.add_0_r. f_equal. symmetry. apply ztake_zdrop.
Qed.
End Results.
