(* ===== verification/JsonProtocol.v ===== *)
(** * [TJSONProtocol]: protocol/TJSONProtocol.cpp and .h

    The JSON protocol over any transport.  A context says what separates the
    next value from the last one; the contexts of the enclosing values wait on a
    stack.  Input goes through a reader with one byte of lookahead.  Numbers are
    converted to text and back by [boost::lexical_cast], which the repository does
    not contain: [CxxLibrary] has the conversions the protocol calls. *)

From S2P Require Export Transport Memory Wire Base64 Text.

(** ** Characters and tables *)

Definition kJSONObjectStart : Z := chr "{".
Definition kJSONObjectEnd : Z := chr "}".
Definition kJSONArrayStart : Z := chr "[".
Definition kJSONArrayEnd : Z := chr "]".
Definition kJSONPairSeparator : Z := chr ":".
Definition kJSONElemSeparator : Z := chr ",".
Definition kJSONBackslash : Z := chr "\".
Definition kJSONStringDelimiter : Z := 34.
Definition kJSONZeroChar : Z := chr "0".
Definition kJSONEscapeChar : Z := chr "u".
Definition kJSONEscapePrefix : list Z := bytes_of "\u00".
Definition kThriftVersion1 : Z := 1.
Definition kThriftNan : list Z := bytes_of "NaN".
Definition kThriftInfinity : list Z := bytes_of "Infinity".
Definition kThriftNegativeInfinity : list Z := bytes_of "-Infinity".

(** The escapes of the first 0x30 characters: 0 for the \u00xx form, 1 for the
    character itself, else the letter after the backslash. *)
Definition kJSONCharTable : list Z :=
  [0; 0; 0; 0; 0; 0; 0; 0; chr "b"; chr "t"; chr "n"; 0; chr "f"; chr "r"; 0; 0;
   0; 0; 0; 0; 0; 0; 0; 0; 0; 0; 0; 0; 0; 0; 0; 0;
   1; 1; 34; 1; 1; 1; 1; 1; 1; 1; 1; 1; 1; 1; 1; 1].

Definition kEscapeChars : list Z := 34 :: bytes_of "\bfnrt".
Definition kEscapeCharVals : list Z := [34; 92; 8; 12; 10; 13; 9].

Definition hexChar (val : Z) : Z :=
  let val := Z.land val 0x0f in
  if val <? 10 then val + chr "0" else val - 10 + chr "a".

Definition isJSONNumeric (ch : Z) : bool :=
  existsb (Z.eqb ch) (bytes_of "+-.0123456789Ee").

Definition unrecognized_type : exn :=
  EProtocol TProtocolException.NOT_IMPLEMENTED "Unrecognized type".

(** ** Types and their names *)

Definition type_name (typeID : Z) : option string :=
  if typeID =? T_BOOL then Some "tf"
  else if typeID =? T_BYTE then Some "i8"
  else if typeID =? T_I16 then Some "i16"
  else if typeID =? T_I32 then Some "i32"
  else if typeID =? T_I64 then Some "i64"
  else if typeID =? T_DOUBLE then Some "dbl"
  else if typeID =? T_STRING then Some "str"
  else if typeID =? T_STRUCT then Some "rec"
  else if typeID =? T_MAP then Some "map"
  else if typeID =? T_SET then Some "set"
  else if typeID =? T_LIST then Some "lst"
  else None.

Definition getTypeNameForTypeID {S} (typeID : Z) : M S (list Z) :=
  match type_name typeID with
  | Some name => ret (bytes_of name)
  | None => throw unrecognized_type
  end.

Definition getTypeIDForTypeName {S} (name : list Z) : M S Z :=
  let result :=
    if 1 <? zlen name then
      let name0 := at_ name 0 in
      let name1 := at_ name 1 in
      if name0 =? chr "d" then T_DOUBLE
      else if name0 =? chr "i" then
        if name1 =? chr "8" then T_BYTE
        else if name1 =? chr "1" then T_I16
        else if name1 =? chr "3" then T_I32
        else if name1 =? chr "6" then T_I64
        else T_STOP
      else if name0 =? chr "l" then T_LIST
      else if name0 =? chr "m" then T_MAP
      else if name0 =? chr "r" then T_STRUCT
      else if name0 =? chr "s" then
        if name1 =? chr "t" then T_STRING
        else if name1 =? chr "e" then T_SET
        else T_STOP
      else if name0 =? chr "t" then T_BOOL
      else T_STOP
    else T_STOP in
  if result =? T_STOP then throw unrecognized_type else ret result.

(** ** Error messages *)

Definition quote : string := String (ascii_of_nat 34) EmptyString.

Definition expected_char (ch ch2 : Z) : exn :=
  EProtocol TProtocolException.INVALID_DATA
    (String.concat "" ["Expected '"; text [ch]; "'; got '"; text [ch2]; "'."]).
Definition expected_hex (ch : Z) : exn :=
  EProtocol TProtocolException.INVALID_DATA
    (String.concat "" ["Expected hex val ([0-9a-f]); got '"; text [ch]; "'."]).
Definition expected_control (ch : Z) : exn :=
  EProtocol TProtocolException.INVALID_DATA
    (String.concat "" ["Expected control char, got '"; text [ch]; "'."]).
(** These two are thrown as pointers. *)
Definition expected_numeric (str : list Z) : exn :=
  EProtocolPointer TProtocolException.INVALID_DATA
    (String.concat "" ["Expected numeric value; got "; quote; text str; quote]).
Definition unexpectedly_quoted : exn :=
  EProtocolPointer TProtocolException.INVALID_DATA "Numeric data unexpectedly quoted".

(** The value of a hexadecimal digit. *)
Definition hexVal {S} (ch : Z) : M S Z :=
  if ((chr "0" <=? ch) && (ch <=? chr "9"))%bool then ret (ch - chr "0")
  else if ((chr "a" <=? ch) && (ch <=? chr "f"))%bool then ret (ch - chr "a" + 10)
  else throw (expected_hex ch).

(** ** Infinities *)

(** [HUGE_VAL] and its opposite. *)
Definition HUGE_VAL : Z := 0x7ff0000000000000.
Definition minus_HUGE_VAL : Z := 0xfff0000000000000.

(** ** The protocol object *)

Inductive TJSONContext :=
| BaseContext
| JSONPairContext (first_ colon_ : bool)
| JSONListContext (first_ : bool).

#[export] Instance TJSONContext_eq_dec : EqDecision TJSONContext.
Proof. solve_decision. Defined.

(** [escapeNum()]: must numbers be written as strings here? *)
Definition escapeNum (c : TJSONContext) : bool :=
  match c with JSONPairContext _ colon_ => colon_ | _ => false end.

Record LookaheadReader := Reader { hasData_ : bool; data_ : Z }.

Record TJSONProtocol (T : Type) := JsonProt {
  trans_ : T;
  contexts_ : list TJSONContext;  (** the stack, its top first *)
  context_ : TJSONContext;
  reader_ : LookaheadReader
}.
Arguments JsonProt {T}.
Arguments trans_ {T}.
Arguments contexts_ {T}.
Arguments context_ {T}.
Arguments reader_ {T}.

Section Operations.
Context `{CxxLibrary} {T : Type} `{TTransport T}.
Abbreviation P := (TJSONProtocol T).

(** A loop that appends a character in each round ends before. *)
Definition string_rounds : Z := string_max_size + 2.

(** [uninit] is what the reader's [data_] holds before it is assigned. *)
Definition new_protocol (ptrans : T) (uninit : Z) : P :=
  JsonProt ptrans [] BaseContext (Reader false uninit).

Definition set_trans (t : T) (p : P) : P := JsonProt t (contexts_ p) (context_ p) (reader_ p).
Definition set_context (c : TJSONContext) (p : P) : P :=
  JsonProt (trans_ p) (contexts_ p) c (reader_ p).
Definition set_reader (r : LookaheadReader) (p : P) : P :=
  JsonProt (trans_ p) (contexts_ p) (context_ p) r.

(** A call on [trans_]. *)
Definition under {A} (m : M T A) : M P A := lift trans_ set_trans m.

Definition pushContext (c : TJSONContext) : M P unit :=
  modify (fun p => JsonProt (trans_ p) (context_ p :: contexts_ p) c (reader_ p)).

Definition popContext : M P unit :=
  let! cs := gets contexts_ in
  match cs with
  | c :: cs => modify (fun p => JsonProt (trans_ p) cs c (reader_ p))
  | [] => crash_ UndefinedBehaviour
  end.

(** ** Writing *)

(** [write] of each class of context, then [context_->write] on the transport. *)
Definition base_write : M P Z := ret 0.

Definition pair_write (first_ colon_ : bool) : M P Z :=
  if first_ then
    do! modify (set_context (JSONPairContext false true)) in ret 0
  else
    do! under (t_write [if colon_ then kJSONPairSeparator else kJSONElemSeparator]) in
    do! modify (set_context (JSONPairContext first_ (negb colon_))) in ret 1.

Definition list_write (first_ : bool) : M P Z :=
  if first_ then
    do! modify (set_context (JSONListContext false)) in ret 0
  else do! under (t_write [kJSONElemSeparator]) in ret 1.

Definition context_write : M P Z :=
  let! c := gets context_ in
  match c with
  | BaseContext => base_write
  | JSONPairContext first_ colon_ => pair_write first_ colon_
  | JSONListContext first_ => list_write first_
  end.

Definition writeJSONEscapeChar (ch : Z) : M P Z :=
  do! under (t_write kJSONEscapePrefix) in
  do! under (t_write [hexChar (Z.shiftr ch 4)]) in
  do! under (t_write [hexChar ch]) in
  ret 6.

Definition writeJSONChar (ch : Z) : M P Z :=
  if 0x30 <=? ch then
    if ch =? kJSONBackslash then
      do! under (t_write [kJSONBackslash]) in
      do! under (t_write [kJSONBackslash]) in
      ret 2
    else do! under (t_write [ch]) in ret 1
  else
    let outCh := at_ kJSONCharTable ch in
    if outCh =? 1 then do! under (t_write [ch]) in ret 1
    else if 1 <? outCh then
      do! under (t_write [kJSONBackslash]) in
      do! under (t_write [outCh]) in
      ret 2
    else writeJSONEscapeChar ch.

Definition writeJSONString (str : list Z) : M P Z :=
  let! result := context_write in
  let result := u32 (result + 2) in
  do! under (t_write [kJSONStringDelimiter]) in
  let! result := sum_over writeJSONChar result str in
  do! under (t_write [kJSONStringDelimiter]) in
  ret result.

(** One round of [while (len >= 3)]. *)
Definition encode_body (str : list Z) (a : Z * Z * Z) : M P (Z * Z * Z + Z * Z * Z) :=
  let '(bytes, len, result) := a in
  if 3 <=? len then
    let! d := load_mem str bytes 3 in
    do! under (t_write (base64_encode d 3)) in
    ret (inl (bytes + 3, u32 (len - 3), u32 (result + 4)))
  else ret (inr a).

Definition writeJSONBase64 (str : list Z) : M P Z :=
  let! result := context_write in
  let result := u32 (result + 2) in
  do! under (t_write [kJSONStringDelimiter]) in
  if 2 ^ 32 - 1 <? zlen str then throw (EProtocol TProtocolException.SIZE_LIMIT "") else
  let len := u32 (zlen str) in
  let! '(bytes, len, result) := iterate (len + 1) (encode_body str) (0, len, result) in
  let! result :=
    if negb (len =? 0) then
      let! d := load_mem str bytes len in
      do! under (t_write (base64_encode d len)) in
      ret (u32 (result + u32 (len + 1)))
    else ret result in
  do! under (t_write [kJSONStringDelimiter]) in
  ret result.

(** A number's text, in quotes if [quoted]. *)
Definition write_number (result : Z) (val : list Z) (quoted : bool) : M P Z :=
  let! result :=
    if quoted then do! under (t_write [kJSONStringDelimiter]) in ret (u32 (result + 1))
    else ret result in
  if 2 ^ 32 - 1 <? zlen val then throw (EProtocol TProtocolException.SIZE_LIMIT "") else
  do! under (t_write val) in
  let result := u32 (result + u32 (zlen val)) in
  if quoted then do! under (t_write [kJSONStringDelimiter]) in ret (u32 (result + 1))
  else ret result.

Definition writeJSONInteger (num : Z) : M P Z :=
  let! result := context_write in
  let val := lex_show num in
  let! c := gets context_ in
  write_number result val (escapeNum c).

(** The text of a double and whether it is one of the special values. *)
Definition double_text (num : Z) : list Z * bool :=
  let val := lex_show_double num in
  let val0 := at_ val 0 in
  let val1 := at_ val 1 in
  if ((val0 =? chr "N") || (val0 =? chr "n"))%bool then (kThriftNan, true)
  else if ((val0 =? chr "I") || (val0 =? chr "i"))%bool then (kThriftInfinity, true)
  else if (val0 =? chr "-") && ((val1 =? chr "I") || (val1 =? chr "i"))%bool
  then (kThriftNegativeInfinity, true)
  else (val, false).

Definition writeJSONDouble (num : Z) : M P Z :=
  let! result := context_write in
  let '(val, special) := double_text num in
  let! c := gets context_ in
  write_number result val (special || escapeNum c).

Definition writeJSONObjectStart : M P Z :=
  let! result := context_write in
  do! under (t_write [kJSONObjectStart]) in
  do! pushContext (JSONPairContext true true) in
  ret (u32 (result + 1)).

Definition writeJSONObjectEnd : M P Z :=
  do! popContext in do! under (t_write [kJSONObjectEnd]) in ret 1.

Definition writeJSONArrayStart : M P Z :=
  let! result := context_write in
  do! under (t_write [kJSONArrayStart]) in
  do! pushContext (JSONListContext true) in
  ret (u32 (result + 1)).

Definition writeJSONArrayEnd : M P Z :=
  do! popContext in do! under (t_write [kJSONArrayEnd]) in ret 1.

Definition writeMessageBegin (name : list Z) (messageType seqid : Z) : M P Z :=
  let! result := writeJSONArrayStart in
  let! n := writeJSONInteger kThriftVersion1 in
  let result := u32 (result + n) in
  let! n := writeJSONString name in
  let result := u32 (result + n) in
  let! n := writeJSONInteger messageType in
  let result := u32 (result + n) in
  let! n := writeJSONInteger seqid in
  ret (u32 (result + n)).

Definition writeMessageEnd : M P Z := writeJSONArrayEnd.
Definition writeStructBegin (name : option (list Z)) : M P Z := writeJSONObjectStart.
Definition writeStructEnd : M P Z := writeJSONObjectEnd.

Definition writeFieldBegin (name : option (list Z)) (fieldType fieldId : Z) : M P Z :=
  let! result := writeJSONInteger fieldId in
  let! n := writeJSONObjectStart in
  let result := u32 (result + n) in
  let! fieldName := getTypeNameForTypeID fieldType in
  let! n := writeJSONString fieldName in
  ret (u32 (result + n)).

Definition writeFieldEnd : M P Z := writeJSONObjectEnd.
Definition writeFieldStop : M P Z := ret 0.

Definition writeMapBegin (keyType valType size : Z) : M P Z :=
  let! result := writeJSONArrayStart in
  let! keyName := getTypeNameForTypeID keyType in
  let! n := writeJSONString keyName in
  let result := u32 (result + n) in
  let! valName := getTypeNameForTypeID valType in
  let! n := writeJSONString valName in
  let result := u32 (result + n) in
  let! n := writeJSONInteger (s64 size) in
  let result := u32 (result + n) in
  let! n := writeJSONObjectStart in
  ret (u32 (result + n)).

Definition writeMapEnd : M P Z :=
  let! a := writeJSONObjectEnd in let! b := writeJSONArrayEnd in ret (u32 (a + b)).

Definition writeListBegin (elemType size : Z) : M P Z :=
  let! result := writeJSONArrayStart in
  let! elemName := getTypeNameForTypeID elemType in
  let! n := writeJSONString elemName in
  let result := u32 (result + n) in
  let! n := writeJSONInteger (s64 size) in
  ret (u32 (result + n)).

Definition writeListEnd : M P Z := writeJSONArrayEnd.

Definition writeSetBegin (elemType size : Z) : M P Z :=
  let! result := writeJSONArrayStart in
  let! elemName := getTypeNameForTypeID elemType in
  let! n := writeJSONString elemName in
  let result := u32 (result + n) in
  let! n := writeJSONInteger (s64 size) in
  ret (u32 (result + n)).

Definition writeSetEnd : M P Z := writeJSONArrayEnd.

Definition writeBool (value : bool) : M P Z := writeJSONInteger (Z.b2z value).
Definition writeByte (byte : Z) : M P Z := writeJSONInteger (s16 byte).
Definition writeI16 (i16 : Z) : M P Z := writeJSONInteger i16.
Definition writeI32 (i32 : Z) : M P Z := writeJSONInteger i32.
Definition writeI64 (i64 : Z) : M P Z := writeJSONInteger i64.
Definition writeDouble (dub : Z) : M P Z := writeJSONDouble dub.
Definition writeString (str : list Z) : M P Z := writeJSONString str.
Definition writeBinary (str : list Z) : M P Z := writeJSONBase64 str.

(** ** Reading *)

(** [reader_.read()] and [reader_.peek()] *)
Definition reader_read : M P Z :=
  let! r := gets reader_ in
  if hasData_ r then
    do! modify (set_reader (Reader false (data_ r))) in ret (data_ r)
  else
    let! b := under (t_readAll 1) in
    do! modify (set_reader (Reader false (at_ b 0))) in ret (at_ b 0).

Definition reader_peek : M P Z :=
  let! r := gets reader_ in
  if hasData_ r then ret (data_ r)
  else
    let! b := under (t_readAll 1) in
    do! modify (set_reader (Reader true (at_ b 0))) in ret (at_ b 0).

Definition readSyntaxChar (ch : Z) : M P Z :=
  let! ch2 := reader_read in
  if negb (ch2 =? ch) then throw (expected_char ch ch2) else ret 1.

(** [read] of each class of context, then [context_->read(reader_)]. *)
Definition base_read : M P Z := ret 0.

Definition pair_read (first_ colon_ : bool) : M P Z :=
  if first_ then
    do! modify (set_context (JSONPairContext false true)) in ret 0
  else
    let ch := if colon_ then kJSONPairSeparator else kJSONElemSeparator in
    do! modify (set_context (JSONPairContext first_ (negb colon_))) in
    readSyntaxChar ch.

Definition list_read (first_ : bool) : M P Z :=
  if first_ then
    do! modify (set_context (JSONListContext false)) in ret 0
  else readSyntaxChar kJSONElemSeparator.

Definition context_read : M P Z :=
  let! c := gets context_ in
  match c with
  | BaseContext => base_read
  | JSONPairContext first_ colon_ => pair_read first_ colon_
  | JSONListContext first_ => list_read first_
  end.

Definition readJSONSyntaxChar (ch : Z) : M P Z := readSyntaxChar ch.

(** The operands of [+] in [(hexVal(b[0]) << 4) + hexVal(b[1])] are evaluated
    from the left; the order only selects the message when both are bad. *)
Definition readJSONEscapeChar : M P (Z * Z) :=
  do! readJSONSyntaxChar kJSONZeroChar in
  do! readJSONSyntaxChar kJSONZeroChar in
  let! b0 := reader_read in
  let! b1 := reader_read in
  let! h0 := hexVal b0 in
  let! h1 := hexVal b1 in
  ret (4, u8 (Z.shiftl h0 4 + h1)).

(** One round of the loop of [readJSONString]. *)
Definition string_body (a : Z * list Z) : M P (Z * list Z + Z * list Z) :=
  let '(result, str) := a in
  let! ch := reader_read in
  let result := u32 (result + 1) in
  if ch =? kJSONStringDelimiter then ret (inr (result, str)) else
  if ch =? kJSONBackslash then
    let! ch := reader_read in
    let result := u32 (result + 1) in
    if ch =? kJSONEscapeChar then
      let! '(n, ch) := readJSONEscapeChar in
      ret (inl (u32 (result + n), str ++ [ch]))
    else
      match find_char ch kEscapeChars with
      | None => throw (expected_control ch)
      | Some pos => ret (inl (result, str ++ [at_ kEscapeCharVals pos]))
      end
  else ret (inl (result, str ++ [ch])).

Definition readJSONString (skipContext : bool) : M P (Z * list Z) :=
  let! result := if skipContext then ret 0 else context_read in
  let! n := readJSONSyntaxChar kJSONStringDelimiter in
  iterate string_rounds string_body (u32 (result + n), []).

(** One round of [while (len >= 4)]: the group at [b] is decoded in place. *)
Definition decode_body (a : Z * Z * list Z * list Z)
    : M P (Z * Z * list Z * list Z + Z * Z * list Z * list Z) :=
  let '(b, len, tmp, str) := a in
  if 4 <=? len then
    let! d := load_mem tmp b 4 in
    let! tmp := store_mem tmp b (base64_decode_inplace d 4) in
    let! d := load_mem tmp b 3 in
    ret (inl (b + 4, u32 (len - 4), tmp, str ++ d))
  else ret (inr a).

Definition readJSONBase64 : M P (Z * list Z) :=
  let! '(result, tmp) := readJSONString false in
  if 2 ^ 32 - 1 <? zlen tmp then throw (EProtocol TProtocolException.SIZE_LIMIT "") else
  let len := u32 (zlen tmp) in
  let! '(b, len, tmp, str) := iterate (len + 1) decode_body (0, len, tmp, []) in
  if 1 <? len then
    let! d := load_mem tmp b len in
    let! tmp := store_mem tmp b (base64_decode_inplace d len) in
    let! d := load_mem tmp b (u32 (len - 1)) in
    ret (result, str ++ d)
  else ret (result, str).

(** One round of the loop of [readJSONNumericChars]. *)
Definition numeric_body (a : Z * list Z) : M P (Z * list Z + Z * list Z) :=
  let '(result, str) := a in
  let! ch := reader_peek in
  if negb (isJSONNumeric ch) then ret (inr (result, str)) else
  do! reader_read in
  ret (inl (u32 (result + 1), str ++ [ch])).

Definition readJSONNumericChars : M P (Z * list Z) :=
  iterate string_rounds numeric_body (0, []).

Definition readJSONInteger (t : NumberType) : M P (Z * Z) :=
  let! result := context_read in
  let! c := gets context_ in
  let! result :=
    if escapeNum c then
      let! n := readJSONSyntaxChar kJSONStringDelimiter in ret (u32 (result + n))
    else ret result in
  let! '(n, str) := readJSONNumericChars in
  let result := u32 (result + n) in
  match lex_parse t str with
  | None => throw (expected_numeric str)
  | Some num =>
      let! c := gets context_ in
      if escapeNum c then
        let! n := readJSONSyntaxChar kJSONStringDelimiter in ret (u32 (result + n), num)
      else ret (result, num)
  end.

(** [lexical_cast<double>] of the text, or the pointer thrown for what is none. *)
Definition cast_double (result : Z) (str : list Z) : M P (Z * Z) :=
  match lex_parse_double str with
  | None => throw (expected_numeric str)
  | Some num => ret (result, num)
  end.

Definition readJSONDouble : M P (Z * Z) :=
  let! result := context_read in
  let! ch := reader_peek in
  if ch =? kJSONStringDelimiter then
    let! '(n, str) := readJSONString true in
    let result := u32 (result + n) in
    if bool_decide (str = kThriftNan) then ret (result, huge_quotient)
    else if bool_decide (str = kThriftInfinity) then ret (result, HUGE_VAL)
    else if bool_decide (str = kThriftNegativeInfinity) then ret (result, minus_HUGE_VAL)
    else
      let! c := gets context_ in
      if negb (escapeNum c) then throw unexpectedly_quoted else cast_double result str
  else
    let! c := gets context_ in
    do! (if escapeNum c then readJSONSyntaxChar kJSONStringDelimiter else ret 0) in
    let! '(n, str) := readJSONNumericChars in
    cast_double (u32 (result + n)) str.

Definition readJSONObjectStart : M P Z :=
  let! result := context_read in
  let! n := readJSONSyntaxChar kJSONObjectStart in
  do! pushContext (JSONPairContext true true) in
  ret (u32 (result + n)).

Definition readJSONObjectEnd : M P Z :=
  let! result := readJSONSyntaxChar kJSONObjectEnd in do! popContext in ret result.

Definition readJSONArrayStart : M P Z :=
  let! result := context_read in
  let! n := readJSONSyntaxChar kJSONArrayStart in
  do! pushContext (JSONListContext true) in
  ret (u32 (result + n)).

Definition readJSONArrayEnd : M P Z :=
  let! result := readJSONSyntaxChar kJSONArrayEnd in do! popContext in ret result.

Definition size_limit : exn := EProtocol TProtocolException.SIZE_LIMIT "".

Definition readMessageBegin : M P (Z * (list Z * Z * Z)) :=
  let! result := readJSONArrayStart in
  let! '(n, tmpVal) := readJSONInteger NU64 in
  let result := u32 (result + n) in
  if negb (tmpVal =? kThriftVersion1) then
    throw (EProtocol TProtocolException.BAD_VERSION "Message contained bad version.")
  else
  let! '(n, name) := readJSONString false in
  let result := u32 (result + n) in
  let! '(n, tmpVal) := readJSONInteger NU64 in
  let result := u32 (result + n) in
  let messageType := u32 tmpVal in
  let! '(n, tmpVal) := readJSONInteger NU64 in
  let result := u32 (result + n) in
  if 2 ^ 31 - 1 <? tmpVal then throw size_limit else
  ret (result, (name, messageType, s32 tmpVal)).

Definition readMessageEnd : M P Z := readJSONArrayEnd.
Definition readStructBegin : M P (Z * list Z) := let! n := readJSONObjectStart in ret (n, []).
Definition readStructEnd : M P Z := readJSONObjectEnd.

(** At a stop [fieldId] is left alone; the answer here is 0. *)
Definition readFieldBegin : M P (Z * (Z * Z)) :=
  let! ch := reader_peek in
  if ch =? kJSONObjectEnd then ret (0, (T_STOP, 0))
  else
    let! '(result, tmpVal) := readJSONInteger NU64 in
    if 2 ^ 15 - 1 <? tmpVal then throw size_limit else
    let fieldId := s16 tmpVal in
    let! n := readJSONObjectStart in
    let result := u32 (result + n) in
    let! '(n, tmpStr) := readJSONString false in
    let result := u32 (result + n) in
    let! fieldType := getTypeIDForTypeName tmpStr in
    ret (result, (fieldType, fieldId)).

Definition readFieldEnd : M P Z := readJSONObjectEnd.

Definition readMapBegin : M P (Z * (Z * Z * Z)) :=
  let! result := readJSONArrayStart in
  let! '(n, tmpStr) := readJSONString false in
  let result := u32 (result + n) in
  let! keyType := getTypeIDForTypeName tmpStr in
  let! '(n, tmpStr) := readJSONString false in
  let result := u32 (result + n) in
  let! valType := getTypeIDForTypeName tmpStr in
  let! '(n, tmpVal) := readJSONInteger NU64 in
  let result := u32 (result + n) in
  if 2 ^ 32 - 1 <? tmpVal then throw size_limit else
  let size := u32 tmpVal in
  let! n := readJSONObjectStart in
  ret (u32 (result + n), (keyType, valType, size)).

Definition readMapEnd : M P Z :=
  let! a := readJSONObjectEnd in let! b := readJSONArrayEnd in ret (u32 (a + b)).

Definition readListBegin : M P (Z * (Z * Z)) :=
  let! result := readJSONArrayStart in
  let! '(n, tmpStr) := readJSONString false in
  let result := u32 (result + n) in
  let! elemType := getTypeIDForTypeName tmpStr in
  let! '(n, tmpVal) := readJSONInteger NU64 in
  let result := u32 (result + n) in
  if 2 ^ 32 - 1 <? tmpVal then throw size_limit else
  ret (result, (elemType, u32 tmpVal)).

Definition readListEnd : M P Z := readJSONArrayEnd.

Definition readSetBegin : M P (Z * (Z * Z)) :=
  let! result := readJSONArrayStart in
  let! '(n, tmpStr) := readJSONString false in
  let result := u32 (result + n) in
  let! elemType := getTypeIDForTypeName tmpStr in
  let! '(n, tmpVal) := readJSONInteger NU64 in
  let result := u32 (result + n) in
  if 2 ^ 32 - 1 <? tmpVal then throw size_limit else
  ret (result, (elemType, u32 tmpVal)).

Definition readSetEnd : M P Z := readJSONArrayEnd.

Definition readBool : M P (Z * bool) :=
  let! '(n, value) := readJSONInteger NBool in ret (n, negb (value =? 0)).
Definition readByte : M P (Z * Z) :=
  let! '(result, tmp) := readJSONInteger NI16 in
  do! assert_ (tmp <? 256) in
  ret (result, s8 tmp).
Definition readI16 : M P (Z * Z) := readJSONInteger NI16.
Definition readI32 : M P (Z * Z) := readJSONInteger NI32.
Definition readI64 : M P (Z * Z) := readJSONInteger NI64.
Definition readDouble : M P (Z * Z) := readJSONDouble.
Definition readString : M P (Z * list Z) := readJSONString false.
Definition readBinary : M P (Z * list Z) := readJSONBase64.

#[export] Instance TJSONProtocol_protocol : TProtocol P := {|
  p_writeMessageBegin := writeMessageBegin; p_writeMessageEnd := writeMessageEnd;
  p_writeStructBegin := writeStructBegin; p_writeStructEnd := writeStructEnd;
  p_writeFieldBegin := writeFieldBegin; p_writeFieldEnd := writeFieldEnd;
  p_writeFieldStop := writeFieldStop;
  p_writeMapBegin := writeMapBegin; p_writeMapEnd := writeMapEnd;
  p_writeListBegin := writeListBegin; p_writeListEnd := writeListEnd;
  p_writeSetBegin := writeSetBegin; p_writeSetEnd := writeSetEnd;
  p_writeBool := writeBool; p_writeByte := writeByte; p_writeI16 := writeI16;
  p_writeI32 := writeI32; p_writeI64 := writeI64; p_writeDouble := writeDouble;
  p_writeString := writeString; p_writeBinary := writeBinary;
  p_readMessageBegin := readMessageBegin; p_readMessageEnd := readMessageEnd;
  p_readStructBegin := readStructBegin; p_readStructEnd := readStructEnd;
  p_readFieldBegin := readFieldBegin; p_readFieldEnd := readFieldEnd;
  p_readMapBegin := readMapBegin; p_readMapEnd := readMapEnd;
  p_readListBegin := readListBegin; p_readListEnd := readListEnd;
  p_readSetBegin := readSetBegin; p_readSetEnd := readSetEnd;
  p_readBool := readBool; p_readByte := readByte; p_readI16 := readI16;
  p_readI32 := readI32; p_readI64 := readI64; p_readDouble := readDouble;
  p_readString := readString; p_readBinary := readBinary
|}.
End Operations.
