(* ===== verification/Double.v ===== *)
(** * Doubles: the C++ [double] as its 64 bits

    TNativeClientProtocol.cpp compares and converts doubles.  A [double] is the
    64 bits [bitwise_cast] gives, as in the other protocols; here are its value
    in IEEE 754 binary64, the comparison and [fmod(d, 1.0)] of the source, and the
    conversions from and to an integer type, the first rounding to nearest even. *)

From S2P Require Export Machine.

(** ** The value of a bit pattern *)

(** [Finite m e] is [m * 2 ^ e]. *)
Inductive double_value :=
| Finite (m e : Z)
| Infinite (negative : bool)
| NaN.

Definition double_negative (bits : Z) : bool := Z.testbit bits 63.
Definition double_exponent (bits : Z) : Z := Z.land (Z.shiftr bits 52) 0x7ff.
Definition double_fraction (bits : Z) : Z := Z.land bits 0xfffffffffffff.

Definition signed_by (negative : bool) (m : Z) : Z := if negative then - m else m.

Definition value_of_double (bits : Z) : double_value :=
  let negative := double_negative bits in
  let e := double_exponent bits in
  let f := double_fraction bits in
  if e =? 0x7ff then (if f =? 0 then Infinite negative else NaN)
  else if e =? 0 then Finite (signed_by negative f) (-1074)
  else Finite (signed_by negative (2 ^ 52 + f)) (e - 1075).

(** [a < b] on doubles: false when either is a NaN. *)
Definition value_ltb (a b : double_value) : bool :=
  match a, b with
  | Finite m e, Finite n f =>
      let g := Z.min e f in m * 2 ^ (e - g) <? n * 2 ^ (f - g)
  | Infinite true, Finite _ _ | Infinite true, Infinite false => true
  | Finite _ _, Infinite false => true
  | _, _ => false
  end.
Definition double_ltb (a b : Z) : bool := value_ltb (value_of_double a) (value_of_double b).

(** [fmod(d, 1.0) != 0.0]; [fmod] of an infinity or a NaN is a NaN, which
    differs from zero. *)
Definition has_fraction (bits : Z) : bool :=
  match value_of_double bits with
  | Finite m e => negb (if 0 <=? e then true else m mod 2 ^ (- e) =? 0)
  | _ => true
  end.

(** [static_cast<int64_t>(d)]: truncation towards zero; [None] where the C++
    conversion is undefined. *)
Definition int64_of_double (bits : Z) : option Z :=
  match value_of_double bits with
  | Finite m e =>
      let z := if 0 <=? e then m * 2 ^ e else Z.quot m (2 ^ (- e)) in
      if bool_decide (in_s 64 z) then Some z else None
  | _ => None
  end.

(** [static_cast<double>(z)] for [z] of an integer type of at most 64 bits,
    rounding to nearest, ties to even. *)
Definition double_of_int (z : Z) : Z :=
  if z =? 0 then 0 else
  let a := Z.abs z in
  let l := Z.log2 a in
  let m :=
    if l <=? 52 then Z.shiftl a (52 - l)
    else
      let k := l - 52 in
      let q := Z.shiftr a k in
      let r := a mod 2 ^ k in
      if ((2 ^ k <? 2 * r) || ((2 * r =? 2 ^ k) && Z.odd q))%bool then q + 1 else q in
  (* a carry out of the mantissa goes to the exponent *)
  (if z <? 0 then 2 ^ 63 else 0) + (l + 1023) * 2 ^ 52 + (m - 2 ^ 52).

(** The double stands for the integer [z]. *)
Definition double_is (bits z : Z) : Prop :=
  match value_of_double bits with
  | Finite m e => m * 2 ^ Z.max 0 e = z * 2 ^ Z.max 0 (- e)
  | _ => False
  end.

(** ** Reading the fields of a pattern *)

Lemma double_fields (negative : bool) e f :
  0 <= e < 2 ^ 11 -> 0 <= f < 2 ^ 52 ->
  let bits := (if negative then 2 ^ 63 else 0) + e * 2 ^ 52 + f in
  double_negative bits = negative /\ double_exponent bits = e /\ double_fraction bits = f.
Proof.
  intros He Hf bits. unfold double_negative, double_exponent, double_fraction.
  change 0x7ff with (Z.ones 11). change 0xfffffffffffff with (Z.ones 52).
  rewrite !Z.land_ones, Z.shiftr_div_pow2, Z.testbit_eqb by lia.
  subst bits. destruct negative; repeat split; try lia; zconst;
    Z.to_euclidean_division_equations; lia.
Qed.

Lemma value_of_normal (negative : bool) e f :
  0 < e < 2 ^ 11 - 1 -> 0 <= f < 2 ^ 52 ->
  value_of_double ((if negative then 2 ^ 63 else 0) + e * 2 ^ 52 + f)
  = Finite (signed_by negative (2 ^ 52 + f)) (e - 1075).
Proof.
  intros He Hf. destruct (double_fields negative e f) as (H1 & H2 & H3); [lia..|].
  unfold value_of_double. rewrite H1, H2, H3.
  replace (e =? 0x7ff) with false by lia. by replace (e =? 0) with false by lia.
Qed.

Lemma signed_by_abs z m : signed_by (z <? 0) (Z.abs z * m) = z * m.
Proof. unfold signed_by. destruct (Z.ltb_spec z 0); lia. Qed.

(** ** Conversion from integers *)

Lemma log2_abs z k : 0 < Z.abs z < 2 ^ k -> 0 <= Z.log2 (Z.abs z) < k.
Proof.
  intros Hz. split; [apply Z.log2_nonneg|]. apply Z.log2_lt_pow2; lia.
Qed.

(** An integer of at most 53 bits is exact. *)
Lemma double_of_small z : 0 < Z.abs z < 2 ^ 53 ->
  let l := Z.log2 (Z.abs z) in
  value_of_double (double_of_int z) = Finite (z * 2 ^ (52 - l)) (l - 52).
Proof.
  intros Hz l. pose proof (log2_abs z 53 Hz) as Hl. fold l in Hl.
  destruct (Z.log2_spec (Z.abs z)) as [Hlo Hhi]; [lia|]. fold l in Hlo, Hhi.
  unfold double_of_int. replace (z =? 0) with false by lia. fold l.
  replace (l <=? 52) with true by lia. rewrite Z.shiftl_mul_pow2 by lia.
  assert (2 ^ 52 = 2 ^ l * 2 ^ (52 - l)) as Hp by (rewrite <- Z.pow_add_r by lia; f_equal; lia).
  rewrite Z.pow_succ_r in Hhi by lia.
  pose proof (Z.pow_pos_nonneg 2 (52 - l)).
  rewrite value_of_normal; [| |split].
  - f_equal; [|lia]. replace (2 ^ 52 + _) with (Z.abs z * 2 ^ (52 - l)) by lia. apply signed_by_abs.
  - lia.
  - nia.
  - nia.
Qed.

(** The rounded mantissa of an integer of more than 53 bits. *)
Definition rounded (a : Z) : Z :=
  let k := Z.log2 a - 52 in
  let q := Z.shiftr a k in
  let r := a mod 2 ^ k in
  if ((2 ^ k <? 2 * r) || ((2 * r =? 2 ^ k) && Z.odd q))%bool then q + 1 else q.

Lemma rounded_range a : 2 ^ 53 <= a ->
  a / 2 ^ (Z.log2 a - 52) <= rounded a <= a / 2 ^ (Z.log2 a - 52) + 1
  /\ 2 ^ 52 <= a / 2 ^ (Z.log2 a - 52) < 2 ^ 53.
Proof.
  intros Ha. assert (53 <= Z.log2 a) as Hl by (apply Z.log2_le_pow2; lia).
  unfold rounded. rewrite Z.shiftr_div_pow2 by lia. split; [case_match; lia|].
  destruct (Z.log2_spec a) as [Hlo Hhi]; [lia|]. set (l := Z.log2 a) in *.
  pose proof (Z.pow_pos_nonneg 2 (l - 52)).
  assert (2 ^ l = 2 ^ (l - 52) * 2 ^ 52) as E by (rewrite <- Z.pow_add_r by lia; f_equal; lia).
  rewrite Z.pow_succ_r, E in Hhi by lia. rewrite E in Hlo.
  split; [apply Z.div_le_lower_bound; lia|apply Z.div_lt_upper_bound; lia].
Qed.

Lemma double_of_large z : 2 ^ 53 <= Z.abs z <= 2 ^ 63 ->
  let a := Z.abs z in let k := Z.log2 a - 52 in
  exists m e, value_of_double (double_of_int z) = Finite (signed_by (z <? 0) m) e
    /\ 1 <= e /\ m * 2 ^ e = rounded a * 2 ^ k.
Proof.
  intros Hz a k. destruct (rounded_range a) as [Hr Hq]; [lia|]. fold k in Hr, Hq.
  assert (53 <= Z.log2 a) as Hl by (apply Z.log2_le_pow2; lia).
  assert (Z.log2 a < 64) as Hl' by (apply Z.log2_lt_pow2; lia).
  unfold double_of_int. replace (z =? 0) with false by lia. fold a.
  replace (Z.log2 a <=? 52) with false by lia. fold (rounded a).
  destruct (Z.eq_dec (rounded a) (2 ^ 53)) as [E|E].
  - (* the carry *)
    exists (2 ^ 52), (k + 1). split; [|split; [lia|]].
    + replace ((if z <? 0 then 2 ^ 63 else 0) + (Z.log2 a + 1023) * 2 ^ 52 + (rounded a - 2 ^ 52))
        with ((if z <? 0 then 2 ^ 63 else 0) + (Z.log2 a + 1024) * 2 ^ 52 + 0) by lia.
      rewrite value_of_normal by lia. f_equal. unfold k. lia.
    + rewrite E, Z.pow_add_r by lia. lia.
  - exists (rounded a), k. split; [|split; [lia|done]].
    rewrite value_of_normal by lia. f_equal; [f_equal; lia|unfold k; lia].
Qed.

(** ** Integers held exactly *)

Lemma double_is_scaled bits z m e t :
  value_of_double bits = Finite m e -> double_is bits z -> 0 <= t -> 0 <= e + t ->
  m * 2 ^ (e + t) = z * 2 ^ t.
Proof.
  intros E Hz Ht Het. unfold double_is in Hz. rewrite E in Hz.
  replace (e + t) with (Z.max 0 e + (t - Z.max 0 (- e))) by lia.
  replace t with (Z.max 0 (- e) + (t - Z.max 0 (- e))) at 2 by lia.
  rewrite !Z.pow_add_r by lia. rewrite !Z.mul_assoc, Hz. done.
Qed.

Lemma double_is_finite bits z : double_is bits z -> exists m e, value_of_double bits = Finite m e.
Proof. unfold double_is. destruct (value_of_double bits); [eauto|done..]. Qed.

Lemma double_ltb_is a b x y : double_is a x -> double_is b y -> double_ltb a b = (x <? y).
Proof.
  intros Ha Hb. unfold double_ltb.
  destruct (double_is_finite a x Ha) as (m & e & Ea).
  destruct (double_is_finite b y Hb) as (n & f & Eb). rewrite Ea, Eb.
  cbn [value_ltb]. set (g := Z.min e f). set (t := Z.max 0 (- g)).
  pose proof (double_is_scaled a x m e t Ea Ha) as Hx.
  pose proof (double_is_scaled b y n f t Eb Hb) as Hy.
  replace (e + t) with ((e - g) + (g + t)) in Hx by lia.
  replace (f + t) with ((f - g) + (g + t)) in Hy by lia.
  rewrite Z.pow_add_r in Hx, Hy by lia.
  assert (0 < 2 ^ (g + t)) by (apply Z.pow_pos_nonneg; lia).
  assert (0 < 2 ^ t) by (apply Z.pow_pos_nonneg; lia).
  specialize (Hx ltac:(lia) ltac:(lia)). specialize (Hy ltac:(lia) ltac:(lia)).
  apply Bool.eq_iff_eq_true. rewrite !Z.ltb_lt. nia.
Qed.

Lemma double_is_no_fraction bits z : double_is bits z -> has_fraction bits = false.
Proof.
  unfold double_is, has_fraction. destruct (value_of_double bits) as [m e| |]; try done.
  intros Hz. destruct (Z.leb_spec 0 e); [done|].
  rewrite Z.max_l, Z.mul_1_r, Z.max_r in Hz by lia. subst.
  by rewrite Z_mod_mult.
Qed.

Lemma no_fraction_is bits : has_fraction bits = false -> exists z, double_is bits z.
Proof.
  unfold double_is, has_fraction. destruct (value_of_double bits) as [m e| |]; try done.
  destruct (Z.leb_spec 0 e); intros Hf.
  - exists (m * 2 ^ e). rewrite !Z.max_r, (Z.max_l 0 (- e)) by lia. lia.
  - exists (m / 2 ^ (- e)). breflect. rewrite Z.max_l, Z.max_r by lia.
    pose proof (Z.div_mod m (2 ^ (- e))). lia.
Qed.

Lemma int64_of_double_is bits z : double_is bits z -> in_s 64 z -> int64_of_double bits = Some z.
Proof.
  unfold double_is, int64_of_double. destruct (value_of_double bits) as [m e| |]; try done.
  intros Hz Hr. assert ((if 0 <=? e then m * 2 ^ e else Z.quot m (2 ^ (- e))) = z) as ->.
  { destruct (Z.leb_spec 0 e).
    - rewrite Z.max_r, Z.max_l in Hz by lia. lia.
    - rewrite Z.max_l, Z.max_r, Z.mul_1_r in Hz by lia. subst. apply Z.quot_mul. lia. }
  by rewrite bool_decide_eq_true_2.
Qed.

Lemma double_is_unique bits x y : double_is bits x -> double_is bits y -> x = y.
Proof.
  intros Hx Hy. pose proof (double_ltb_is bits bits x y Hx Hy) as H1.
  pose proof (double_ltb_is bits bits y x Hy Hx) as H2.
  assert (double_ltb bits bits = false) as E.
  { rewrite (double_ltb_is bits bits x x) by done. lia. }
  rewrite E in H1, H2. lia.
Qed.

(** [static_cast<double>] of an integer below 2^53 in magnitude, and of 2^53. *)
Lemma double_of_int_exact z : Z.abs z <= 2 ^ 53 -> double_is (double_of_int z) z.
Proof.
  intros Hz. destruct (Z.eq_dec z 0) as [->|Hn]; [done|].
  destruct (Z.eq_dec (Z.abs z) (2 ^ 53)) as [E|E].
  { assert (z = 2 ^ 53 \/ z = - 2 ^ 53) as [-> | ->] by lia; vm_compute; done. }
  unfold double_is. rewrite double_of_small by lia.
  pose proof (log2_abs z 53 ltac:(lia)). rewrite Z.max_l, Z.max_r by lia.
  rewrite <- Z.mul_assoc, Z.mul_1_r. do 2 f_equal. lia.
Qed.

(** The first integer past 2^53 rounds to it. *)
Lemma double_of_int_tie : double_of_int (2 ^ 53 + 1) = double_of_int (2 ^ 53)
  /\ double_of_int (- (2 ^ 53 + 1)) = double_of_int (- 2 ^ 53).
Proof. by vm_compute. Qed.

(** Past that one, the double is an integer past 2^53 too. *)
Lemma double_of_int_beyond z : 2 ^ 53 + 1 < Z.abs z <= 2 ^ 63 ->
  exists x, double_is (double_of_int z) x /\ (if z <? 0 then x < - 2 ^ 53 else 2 ^ 53 < x).
Proof.
  intros Hz. destruct (double_of_large z) as (m & e & E & He & Hm); [lia|].
  set (k := Z.log2 (Z.abs z) - 52) in *.
  exists (signed_by (z <? 0) (m * 2 ^ e)). split.
  { unfold double_is. rewrite E, Z.max_r, Z.max_l by lia. destruct (z <? 0); cbn; lia. }
  destruct (rounded_range (Z.abs z)) as [Hr Hq]; [lia|]. fold k in Hr, Hq.
  assert (2 ^ 53 < m * 2 ^ e) as Hb; [|destruct (z <? 0); cbn; lia].
  rewrite Hm. assert (53 <= Z.log2 (Z.abs z)) by (apply Z.log2_le_pow2; lia).
  destruct (Z.eq_dec k 1) as [K|K].
  - rewrite K in *. change (2 ^ 1) with 2 in *. dlia.
  - assert (2 ^ 2 <= 2 ^ k) by (apply Z.pow_le_mono_r; lia). nia.
Qed.

(** The bits of such a double. *)
Lemma double_of_int_u64 z : Z.abs z <= 2 ^ 53 -> in_u 64 (double_of_int z).
Proof.
  intros Hz. unfold in_u. destruct (Z.eq_dec z 0) as [->|Hn]; [done|].
  destruct (Z.eq_dec (Z.abs z) (2 ^ 53)) as [E|E].
  { assert (z = 2 ^ 53 \/ z = - 2 ^ 53) as [-> | ->] by lia; by vm_compute. }
  pose proof (log2_abs z 53 ltac:(lia)) as Hl.
  destruct (Z.log2_spec (Z.abs z)) as [Hlo Hhi]; [lia|].
  unfold double_of_int. replace (z =? 0) with false by lia. set (l := Z.log2 (Z.abs z)) in *.
  replace (l <=? 52) with true by lia. rewrite Z.shiftl_mul_pow2 by lia.
  assert (2 ^ 52 = 2 ^ l * 2 ^ (52 - l)) as Hp by (rewrite <- Z.pow_add_r by lia; f_equal; lia).
  rewrite Z.pow_succ_r in Hhi by lia. pose proof (Z.pow_pos_nonneg 2 (52 - l)).
  assert (2 ^ 52 <= Z.abs z * 2 ^ (52 - l) < 2 ^ 53) by nia. destruct (z <? 0); lia.
Qed.

(** The proofs above are the interface: clients do not unfold these. *)
#[global] Opaque double_is double_of_int value_of_double.
