(* ===== verification/Processors.v ===== *)
(** * Processors

    [TDispatchProcessor] (TDispatchProcessor.h), [TMultiplexedProcessor]
    (processor/TMultiplexedProcessor.h), [PeekProcessor] (processor/PeekProcessor.h
    and .cpp) and [StatsProcessor] (processor/StatsProcessor.h).  A processor works
    on the state [W] of everything its two protocols reach; [GlobalOutput], a log,
    is not part of it. *)

From stdpp Require Export gmap.
From S2P Require Export ApplicationException Decorators Double MemoryBuffer.

(** ** [TProcessor] *)

(** A protocol with the calls a processor makes on [getTransport()]. *)
Record endpoint (W : Type) := Endpoint {
  ep_protocol : TProtocol W;
  ep_readEnd : M W Z;
  ep_writeEnd : M W Z;
  ep_flush : M W unit
}.
Arguments Endpoint {W}.
Arguments ep_protocol {W}.
Arguments ep_readEnd {W}.
Arguments ep_writeEnd {W}.
Arguments ep_flush {W}.

(** [process(in, out, connectionContext)]. *)
Definition TProcessor (W C : Type) : Type := endpoint W -> endpoint W -> C -> M W bool.

(** [process(io, connectionContext)]. *)
Definition process_io {W C} (p : TProcessor W C) (io : endpoint W) (connectionContext : C) : M W bool :=
  p io io connectionContext.

(** The calls of a protocol that stands in an endpoint. *)
Section Calls.
Context {W : Type} (e : endpoint W).

Definition ep_readMessageBegin : M W (Z * (list Z * Z * Z)) := @p_readMessageBegin W (ep_protocol e).
Definition ep_readMessageEnd : M W Z := @p_readMessageEnd W (ep_protocol e).
Definition ep_skip (depth : nat) (fuel type : Z) : M W Z := @skip W (ep_protocol e) depth fuel type.
End Calls.

(** ** [TDispatchProcessor] *)

Definition callable (mtype : Z) : bool := ((mtype =? T_CALL) || (mtype =? T_ONEWAY))%bool.

Section Dispatch.
Context {W C : Type}.
(** The pure virtual members: in, out, fname, seqid, context. *)
Abbreviation dispatch := (endpoint W -> endpoint W -> list Z -> Z -> C -> M W bool).

Definition TDispatchProcessor (dispatchCall : dispatch) : TProcessor W C := fun inn out connectionContext =>
  let! '(_, (fname, mtype, seqid)) := ep_readMessageBegin inn in
  if negb (callable mtype) then ret false
  else dispatchCall inn out fname seqid connectionContext.

(** [TDispatchProcessorT<Protocol_>]: [specific] is the outcome of the cast of a
    protocol to [Protocol_]. *)
Section Templated.
Context (dispatchCall dispatchCallTemplated : dispatch) (specific : endpoint W -> bool).

Definition processFast (inn out : endpoint W) (connectionContext : C) : M W bool :=
  let! '(_, (fname, mtype, seqid)) := ep_readMessageBegin inn in
  if negb (callable mtype) then ret false
  else dispatchCallTemplated inn out fname seqid connectionContext.

Definition TDispatchProcessorT : TProcessor W C := fun inn out connectionContext =>
  if (specific inn && specific out)%bool then processFast inn out connectionContext
  else
    let! '(_, (fname, mtype, seqid)) := ep_readMessageBegin inn in
    if negb (callable mtype) then ret false
    else dispatchCall inn out fname seqid connectionContext.
End Templated.
End Dispatch.

(** ** [TMultiplexedProcessor] *)

(** [boost::tokenizer] with [char_separator(":")]: the pieces between the colons
    that are not empty. *)
Class Tokenizer := {
  tokens : list Z -> list (list Z);
  tokens_nil : tokens [] = [];
  tokens_piece s : s <> [] -> chr ":" ∉ s -> tokens s = [s];
  tokens_colon s t : tokens (s ++ bytes_of ":" ++ t) = tokens s ++ tokens t
}.

Section Multiplex.
Context `{Tokenizer} {W C : Type} (depth : nat) (fuel : Z).

Record TMultiplexedProcessor := Multiplexed { services : gmap (list Z) (TProcessor W C) }.

Definition registerProcessor (serviceName : list Z) (processor : TProcessor W C)
    (this : TMultiplexedProcessor) : TMultiplexedProcessor :=
  Multiplexed (<[serviceName := processor]> (services this)).

(** [services.find(...)]. *)
Definition find_service (this : TMultiplexedProcessor) (service : list Z) : option (TProcessor W C) :=
  services this !! service.

(** The rest of the message is passed over. *)
Definition discard_call (inn : endpoint W) : M W unit :=
  do! ep_skip inn depth fuel T_STRUCT in
  do! ep_readMessageEnd inn in
  do! ep_readEnd inn in
  ret tt.

(** The answer that is an exception. *)
Definition answer_exception (out : endpoint W) (name : list Z) (seqid : Z) (x : TApplicationException) : M W unit :=
  do! @p_writeMessageBegin W (ep_protocol out) name T_EXCEPTION seqid in
  do! @ApplicationException.write W (ep_protocol out) x in
  do! @p_writeMessageEnd W (ep_protocol out) in
  do! ep_writeEnd out in
  ep_flush out.

Definition unexpected_type : list Z := bytes_of "TMultiplexedProcessor: Unexpected message type".
Definition unknown_service (service : list Z) : list Z :=
  bytes_of "TMultiplexedProcessor: Unknown service: " ++ service.
Definition forgot_register : list Z := bytes_of ". Did you forget to call registerProcessor()?".

(** [in] with the header of the message, which has been read, in front. *)
Definition stored (inn : endpoint W) (name : list Z) (type seqid : Z) : endpoint W :=
  Endpoint (StoredMessageProtocol (ep_protocol inn) name type seqid)
    (ep_readEnd inn) (ep_writeEnd inn) (ep_flush inn).

Definition process (this : TMultiplexedProcessor) : TProcessor W C := fun inn out connectionContext =>
  let! '(_, (name, type, seqid)) := ep_readMessageBegin inn in
  if negb (callable type) then
    do! discard_call inn in
    do! answer_exception out name seqid (AppExn unexpected_type PROTOCOL_ERROR) in
    throw (EThrift (text unexpected_type))
  else
    match tokens name with
    | [service; method] =>
        match find_service this service with
        | Some processor => processor (stored inn method type seqid) out connectionContext
        | None =>
            do! discard_call inn in
            do! answer_exception out name seqid (AppExn (unknown_service service) PROTOCOL_ERROR) in
            throw (EThrift (text (unknown_service service ++ forgot_register)))
        end
    | _ => ret false
    end.
End Multiplex.
Arguments TMultiplexedProcessor W C : clear implicits.

(** ** [PeekProcessor] *)

Module PeekProcessor.

(** The transports [setTargetTransport] tells apart; a buffer is an address. *)
Inductive target :=
| TargetMemory (buffer : Z)
| TargetPiped (getTargetTransport : target)
| TargetOther.

Definition as_memory (t : target) : option Z := match t with TargetMemory b => Some b | _ => None end.

Record object := Peek { memoryBuffer_ : option Z; targetTransport_ : target }.

Definition new_peek (buffer : Z) : object := Peek (Some buffer) (TargetMemory buffer).

Definition setTargetTransport (targetTransport : target) : M object unit :=
  do! modify (fun this =>
    match targetTransport with
    | TargetMemory b => Peek (Some b) targetTransport
    | TargetPiped t => Peek (as_memory t) targetTransport
    | TargetOther => Peek (memoryBuffer_ this) targetTransport
    end) in
  let! this := get in
  match memoryBuffer_ this with
  | None => throw (EThrift "Target transport must be a TMemoryBuffer or a TPipedTransport with TMemoryBuffer")
  | Some _ => ret tt
  end.

Section Process.
Context {W C : Type}.
(** [*memoryBuffer_], which the target of the piped transport behind [in] and the
    transport of [pipedProtocol_] are. *)
Context (mem : W -> TMemoryBuffer) (set_mem : TMemoryBuffer -> W -> W).
Context (pipedProtocol_ : endpoint W) (actualProcessor_ : TProcessor W C).
(** The virtual members. *)
Context (peekName : list Z -> M W unit) (peekBuffer : list Z -> M W unit).
Context (peek : endpoint W -> Z -> Z -> M W unit) (peekEnd : M W unit) (fuel : Z).

Definition peek_body (inn : endpoint W) (_ : unit) : M W (unit + unit) :=
  let! '(_, (ftype, fid)) := @p_readFieldBegin W (ep_protocol inn) in
  if ftype =? T_STOP then ret (inr tt) else
  do! peek inn ftype fid in
  do! @p_readFieldEnd W (ep_protocol inn) in
  ret (inl tt).

Definition process : TProcessor W C := fun inn out connectionContext =>
  let! '(_, (fname, mtype, _)) := ep_readMessageBegin inn in
  if negb (mtype =? T_CALL) then throw (EThrift "Unexpected message type") else
  do! peekName fname in
  do! iterate fuel (peek_body inn) tt in
  do! ep_readMessageEnd inn in
  do! ep_readEnd inn in
  let! buffer := lift mem set_mem getBuffer in
  do! peekBuffer buffer in
  do! peekEnd in
  let! r := actualProcessor_ pipedProtocol_ out connectionContext in
  do! lift mem set_mem resetBuffer in
  ret r.
End Process.

(** The virtual members as the class defines them. *)
Section Defaults.
Context {W : Type}.
Definition peekName (fname : list Z) : M W unit := ret tt.
Definition peekBuffer (buffer : list Z) : M W unit := ret tt.
Definition peek (depth : nat) (fuel : Z) (inn : endpoint W) (ftype fid : Z) : M W unit :=
  do! ep_skip inn depth fuel ftype in ret tt.
Definition peekEnd : M W unit := ret tt.
End Defaults.
End PeekProcessor.

(** ** The arguments that are peeked at *)

Section Arguments.
Context {W : Type} (TP : TProtocol W) (F : WireFormat) (lim : limits) (R : @ReaderLaws W TP F lim).
Context (readEnd writeEnd : M W Z) (flush : M W unit).
Abbreviation inn := (Endpoint TP readEnd writeEnd flush).

(** The fields of a well-formed struct are passed over, the stop included. *)
Lemma peek_args depth fuel c fs w l rest :
  in_s 16 l -> forallb (fun f => in_sb 16 f.1 && wf lim f.2)%bool fs = true ->
  (sumnat (map (fun f => S (vsize f.2)) fs) <= depth)%nat ->
  Z.of_nat (sumnat (map (fun f => S (vsize f.2)) fs)) < fuel ->
  r_state w (l :: c) (enc_fields enc l fs ++ e_stop ++ rest) ->
  succeeds (iterate fuel (PeekProcessor.peek_body (PeekProcessor.peek depth fuel) inn) tt) w (fun _ w' =>
    r_state w' (last_id l fs :: c) rest).
Proof using Type.
  intros Hl Hwf Hd Hf Hw. rewrite List.forallb_forall in Hwf.
  pose proof (sumnat_map_le (fun f : Z * tval => vsize f.2) fs) as Hlen.
  apply (fields_loop _ _ (fun done l2 bs _ w => l2 = last_id l done /\ r_state w (l2 :: c) bs) fs rest) with (l := l);
    [| | |done|unfold zlen; lia|done].
  - intros dn f l2 bs [] w1 Hin Hl2 [-> Hw1]. specialize (Hwf f Hin). breflect.
    pose proof (sumnat_in _ _ (in_map (fun f => S (vsize f.2)) _ _ Hin)).
    unfold PeekProcessor.peek_body. wp.
    eapply runs_mono; [eapply (@field_then_skip _ TP F lim R depth fuel _ c f w1 bs); eauto with thrift; lia| |done].
    cbn beta. intros [n [t id]] w2 [[= -> ->] Hs]. wp. rewrite value_type_not_stop by eauto with thrift.
    unfold PeekProcessor.peek, ep_skip. wp. eapply runs_mono; [exact Hs| |done]. cbn beta. intros k w3 [_ Hw3]. wp.
    eapply runs_mono; [apply (@r_fieldEnd _ TP F lim R _ _ _ Hw3)| |done].
    cbn beta. intros k2 w4 [_ Hw4]. wp. eexists. split; [done|]. split; [|done]. unfold last_id. by rewrite fold_left_app.
  - intros l2 [] w1 _ [-> Hw1]. unfold PeekProcessor.peek_body. wp.
    eapply runs_mono; [apply (@r_stop _ TP F lim R _ _ _ _ Hw1)| |done].
    cbn beta. intros r w2 [-> Hw2]. wp. by eexists.
  - apply List.Forall_forall. intros f Hin. specialize (Hwf f Hin). breflect. auto with thrift.
Qed.
End Arguments.
