(* ===== verification/StatsProcessor.v ===== *)
(** * [StatsProcessor]: processor/StatsProcessor.h

    Counts the calls and prints them on the standard output, and what the printing
    reads and writes: [show] is the text of a value.  [printf] is the C library's:
    [%d] and [%ld] are decimal text, [%s] ends at the first NUL, [%f] is the exact
    value of the double rounded to six digits, ties to even. *)

From S2P Require Export Processors.

(** ** [printf] *)

Definition pad6 (n : Z) : list Z :=
  let d := decimal n in zrep (6 - zlen d) (chr "0") ++ d.

(** [|m * 2 ^ e|] in millionths. *)
Definition millionths (m e : Z) : Z :=
  let a := Z.abs m * 10 ^ 6 in
  if 0 <=? e then a * 2 ^ e
  else
    let q := a / 2 ^ (- e) in
    let r := a mod 2 ^ (- e) in
    if ((2 ^ (- e) <? 2 * r) || ((2 * r =? 2 ^ (- e)) && Z.odd q))%bool then q + 1 else q.

(** As many digits as the largest double has. *)
Definition natural_text (n : Z) : list Z := digits 310 n.

Definition percent_f (bits : Z) : list Z :=
  (if double_negative bits then bytes_of "-" else []) ++
  match value_of_double bits with
  | Double.Finite m e =>
      let n := millionths m e in
      natural_text (n / 10 ^ 6) ++ bytes_of "." ++ pad6 (n mod 10 ^ 6)
  | Double.Infinite _ => bytes_of "inf"
  | Double.NaN => bytes_of "nan"
  end.

Definition percent_s (s : list Z) : list Z := take_while nonzero s.

(** The backspace. *)
Definition backspace : list Z := [8].

(** ** The class *)

Record stats := Stats { frequency_map_ : gmap (list Z) Z; stdout : list Z }.

Section Operations.
Context {W : Type} `{TProtocol W} (print_ frequency_ : bool).
Abbreviation St := (W * stats)%type.

Definition piprot_ {A} (m : M W A) : M St A := lift fst (fun p s => (p, s.2)) m.
Definition printf (s : list Z) : M St unit :=
  if print_
  then modify (fun st => (st.1, Stats (frequency_map_ st.2) (stdout st.2 ++ s)))
  else ret tt.

Definition print_as {A} (rd : M W (Z * A)) (f : A -> list Z) : M St unit :=
  let! '(_, a) := piprot_ rd in printf (f a).

Definition print_field (pass : Z -> M St unit) (_ : unit) : M St (unit + unit) :=
  let! '(_, (ftype, _)) := piprot_ p_readFieldBegin in
  if ftype =? T_STOP then ret (inr tt) else
  do! pass ftype in
  do! printf (bytes_of ",") in
  do! piprot_ p_readFieldEnd in
  ret (inl tt).
Definition print_entry (pass : Z -> M St unit) (keyType valType : Z) (_ : unit) : M St unit :=
  do! pass keyType in
  do! printf (bytes_of "=>") in
  do! pass valType in
  printf (bytes_of ",").
Definition print_elem (pass : Z -> M St unit) (elemType : Z) (_ : unit) : M St unit :=
  do! pass elemType in
  printf (bytes_of ",").

Fixpoint printAndPassToBuffer (depth : nat) (fuel : Z) (ftype : Z) {struct depth} : M St unit :=
  match depth with
  | O => diverge
  | S depth =>
      let pass := printAndPassToBuffer depth fuel in
      if ftype =? T_BOOL then print_as p_readBool (fun boolv => decimal (Z.b2z boolv))
      else if ftype =? T_BYTE then print_as p_readByte decimal
      else if ftype =? T_I16 then print_as p_readI16 decimal
      else if ftype =? T_I32 then print_as p_readI32 decimal
      else if ftype =? T_I64 then print_as p_readI64 decimal
      else if ftype =? T_DOUBLE then print_as p_readDouble percent_f
      else if ftype =? T_STRING then print_as p_readString percent_s
      else if ftype =? T_STRUCT then
        do! piprot_ p_readStructBegin in
        do! printf (bytes_of "<") in
        do! iterate fuel (print_field pass) tt in
        do! piprot_ p_readStructEnd in
        printf (backspace ++ bytes_of ">")
      else if ftype =? T_MAP then
        let! '(_, (keyType, valType, size)) := piprot_ p_readMapBegin in
        do! printf (bytes_of "{") in
        do! for_ size (print_entry pass keyType valType) tt in
        do! piprot_ p_readMapEnd in
        printf (backspace ++ bytes_of "}")
      else if ftype =? T_SET then
        let! '(_, (elemType, size)) := piprot_ p_readSetBegin in
        do! printf (bytes_of "{") in
        do! for_ size (print_elem pass elemType) tt in
        do! piprot_ p_readSetEnd in
        printf (backspace ++ bytes_of "}")
      else if ftype =? T_LIST then
        let! '(_, (elemType, size)) := piprot_ p_readListBegin in
        do! printf (bytes_of "[") in
        do! for_ size (print_elem pass elemType) tt in
        do! piprot_ p_readListEnd in
        printf (backspace ++ bytes_of "]")
      else ret tt
  end.

Definition count_call (fname : list Z) (m : gmap (list Z) Z) : gmap (list Z) Z :=
  match m !! fname with
  | Some n => <[fname := s64 (n + 1)]> m
  | None => <[fname := 1]> m
  end.

Definition args_body (depth : nat) (fuel : Z) (_ : unit) : M St (unit + unit) :=
  let! '(_, (ftype, _)) := piprot_ p_readFieldBegin in
  if ftype =? T_STOP then ret (inr tt) else
  do! printAndPassToBuffer depth fuel ftype in
  do! printf (bytes_of ", ") in
  ret (inl tt).

Definition stats_process (depth : nat) (fuel : Z) : M St bool :=
  let! '(_, (fname, mtype, _)) := piprot_ p_readMessageBegin in
  if negb (mtype =? T_CALL) then
    do! printf (bytes_of "Unknown message type" ++ [10]) in
    throw (EThrift "Unexpected message type")
  else
    do! printf (percent_s fname ++ bytes_of " (") in
    do! (if frequency_
         then modify (fun st => (st.1, Stats (count_call fname (frequency_map_ st.2)) (stdout st.2)))
         else ret tt) in
    do! iterate fuel (args_body depth fuel) tt in
    do! printf (backspace ++ backspace ++ bytes_of ")" ++ [10]) in
    ret true.

Definition get_frequency_map : M St (gmap (list Z) Z) := gets (fun st => frequency_map_ st.2).
End Operations.

(** ** The text of a value *)

Fixpoint show (v : tval) : list Z :=
  match v with
  | VBool b => decimal (Z.b2z b)
  | VByte z | VI16 z | VI32 z | VI64 z => decimal z
  | VDouble z => percent_f z
  | VString s => percent_s s
  | VStruct fs => bytes_of "<" ++ concat (map (fun f => show f.2 ++ bytes_of ",") fs) ++ backspace ++ bytes_of ">"
  | VMap _ _ es =>
      bytes_of "{" ++ concat (map (fun e => show e.1 ++ bytes_of "=>" ++ show e.2 ++ bytes_of ",") es) ++
      backspace ++ bytes_of "}"
  | VSet _ l => bytes_of "{" ++ concat (map (fun x => show x ++ bytes_of ",") l) ++ backspace ++ bytes_of "}"
  | VList _ l => bytes_of "[" ++ concat (map (fun x => show x ++ bytes_of ",") l) ++ backspace ++ bytes_of "]"
  | VNothing _ => []
  end.

(** ** Printing is reading *)

Section Prints.
Context {P : Type} (TP : TProtocol P).
(** Strings and binary data are read alike, as in the binary and compact protocols. *)
Context (same_string : forall p, @p_readString P TP p = @p_readBinary P TP p).

Lemma printf_run s p m o : printf (W := P) true s (p, Stats m o) = (Ok tt, (p, Stats m (o ++ s))).
Proof using Type. done. Qed.

Lemma piprot_run {A} (rd : M P A) p a p' st : rd p = (Ok a, p') -> piprot_ rd (p, st) = (Ok a, (p', st)).
Proof using Type. intros Hr. unfold piprot_, lift. cbn. by rewrite Hr. Qed.

Lemma print_as_run {A} (g : A -> tval) (f : A -> list Z) (rd rd' : M P (Z * A)) p n v p' m o :
  rd' p = rd p -> (forall a, f a = show (g a)) -> read_as g rd p = (Ok (n, v), p') ->
  print_as true rd' f (p, Stats m o) = (Ok tt, (p', Stats m (o ++ show v))).
Proof using Type.
  intros He Hf Hr. apply bind_ok in Hr as ([k a] & p1 & Hr & [= <- <- <-]). unfold print_as.
  rewrite (bind_run _ _ _ (k, a) (p1, Stats m o)) by (apply piprot_run; by rewrite He). rewrite Hf. done.
Qed.

Definition prints (rd : Z -> M P (Z * tval)) (pass : Z -> M (P * stats) unit) : Prop :=
  forall t p n v p', rd t p = (Ok (n, v), p') ->
    forall m o, pass t (p, Stats m o) = (Ok tt, (p', Stats m (o ++ show v))).

Section Loops.
Context (rd : Z -> M P (Z * tval)) (pass : Z -> M (P * stats) unit) (Hrd : prints rd pass).

Lemma print_fields n res fs p res' fs' p' :
  turns (read_field rd) n (res, fs) p = (Ok (inr (res', fs')), p') ->
  exists gs, fs' = fs ++ gs /\ forall m o,
    turns (print_field true pass) n tt (p, Stats m o) =
      (Ok (inr tt), (p', Stats m (o ++ concat (map (fun f => show f.2 ++ bytes_of ",") gs)))).
Proof using Hrd.
  revert res fs p. induction n as [|n IH]; intros res fs p Ht; [done|]. cbn [turns] in *.
  apply bind_ok in Ht as (r & p1 & Hb & Ht). unfold read_field in Hb at 1.
  apply bind_ok in Hb as ([k [ft fid]] & p2 & Hf & Hb). destruct (ft =? T_STOP) eqn:Hstop.
  - injection Hb as <- <-. injection Ht as <- <- <-. exists []. split; [by rewrite app_nil_r|]. intros m o.
    rewrite (bind_run _ _ _ (inr tt) (p2, Stats m o)); [by rewrite app_nil_r|]. unfold print_field.
    rewrite (bind_run _ _ _ (k, (ft, fid)) (p2, Stats m o)) by (by apply piprot_run). by rewrite Hstop.
  - apply bind_ok in Hb as ([j v] & p3 & Hv & Hb). apply bind_ok in Hb as (e & p4 & He & [= <- <-]).
    destruct (IH _ _ _ Ht) as (gs & -> & Hgs). exists ((fid, v) :: gs). split; [by rewrite <- app_assoc|].
    intros m o. cbn [map concat snd]. rewrite (app_assoc o), <- Hgs.
    rewrite (bind_run _ _ _ (inl tt) (p4, Stats m (o ++ show v ++ bytes_of ","))); [done|]. unfold print_field.
    rewrite (bind_run _ _ _ (k, (ft, fid)) (p2, Stats m o)) by (by apply piprot_run). rewrite Hstop.
    rewrite (bind_run _ _ _ _ _ (Hrd _ _ _ _ _ Hv m o)), (bind_run _ _ _ _ _ (printf_run _ _ _ _)).
    rewrite (bind_run _ _ _ _ _ (piprot_run _ _ _ _ _ He)). by rewrite <- app_assoc.
Qed.

Section For.
Context {A : Type} (step : Z * list A -> M P (Z * list A)) (step' : unit -> M (P * stats) unit) (sh : A -> list Z).
Context (Hstep : forall res l p res' l' p', step (res, l) p = (Ok (res', l'), p') ->
  exists x, l' = l ++ [x] /\ forall m o, step' tt (p, Stats m o) = (Ok tt, (p', Stats m (o ++ sh x)))).

Lemma print_turns size n i res l p res' l' p' :
  turns (for_body size step) n (i, (res, l)) p = (Ok (inr (res', l')), p') ->
  exists xs, l' = l ++ xs /\ forall m o,
    turns (for_body size step') n (i, tt) (p, Stats m o) = (Ok (inr tt), (p', Stats m (o ++ concat (map sh xs)))).
Proof using Hstep.
  revert i res l p. induction n as [|n IH]; intros i res l p Ht; [done|]. cbn [turns] in *.
  apply bind_ok in Ht as (r & p1 & Hb & Ht). unfold for_body in Hb at 1. destruct (i <? size) eqn:Hlt.
  - apply bind_ok in Hb as ([r1 l1] & p2 & Hs & [= <- <-]). destruct (Hstep _ _ _ _ _ _ Hs) as (x & -> & Hx).
    apply IH in Ht as (xs & -> & Hxs). exists (x :: xs). split; [by rewrite <- app_assoc|]. intros m o.
    cbn [map concat]. rewrite app_assoc, <- Hxs.
    rewrite (bind_run _ _ _ (inl (i + 1, tt)) (p2, Stats m (o ++ sh x))); [done|]. unfold for_body. rewrite Hlt.
    by rewrite (bind_run _ _ _ _ _ (Hx m o)).
  - injection Hb as <- <-. injection Ht as <- <- <-. exists []. rewrite app_nil_r. split; [done|]. intros m o.
    rewrite (bind_run _ _ _ (inr tt) (p, Stats m o)); [by rewrite app_nil_r|]. unfold for_body. by rewrite Hlt.
Qed.

Lemma print_for size res p res' l p' m o :
  for_ size step (res, []) p = (Ok (res', l), p') ->
  for_ size step' tt (p, Stats m o) = (Ok tt, (p', Stats m (o ++ concat (map sh l)))).
Proof using Hstep.
  unfold for_. intros Ht. apply iterate_turns in Ht. apply print_turns in Ht as (xs & -> & Hxs).
  apply iterate_turns. apply Hxs.
Qed.
End For.

Lemma print_elem_run t res l p res' l' p' : read_elem rd t (res, l) p = (Ok (res', l'), p') ->
  exists x, l' = l ++ [x] /\ forall m o,
    print_elem true pass t tt (p, Stats m o) = (Ok tt, (p', Stats m (o ++ (show x ++ bytes_of ",")))).
Proof using Hrd.
  intros Hr. apply bind_ok in Hr as ([n v] & p1 & Hv & [= <- <- <-]). exists v. split; [done|]. intros m o.
  unfold print_elem. rewrite (bind_run _ _ _ _ _ (Hrd _ _ _ _ _ Hv m o)), printf_run. by rewrite app_assoc.
Qed.

Lemma print_entry_run kt vt res l p res' l' p' : read_entry rd kt vt (res, l) p = (Ok (res', l'), p') ->
  exists x, l' = l ++ [x] /\ forall m o,
    print_entry true pass kt vt tt (p, Stats m o) =
      (Ok tt, (p', Stats m (o ++ (show x.1 ++ bytes_of "=>" ++ show x.2 ++ bytes_of ",")))).
Proof using Hrd.
  intros Hr. apply bind_ok in Hr as ([n v] & p1 & Hv & Hr). apply bind_ok in Hr as ([n2 v2] & p2 & Hv2 & [= <- <- <-]).
  exists (v, v2). split; [done|]. intros m o. unfold print_entry.
  rewrite (bind_run _ _ _ _ _ (Hrd _ _ _ _ _ Hv m o)), (bind_run _ _ _ _ _ (printf_run _ _ _ _)).
  rewrite (bind_run _ _ _ _ _ (Hrd _ _ _ _ _ Hv2 m _)), printf_run. cbn [fst snd]. by rewrite !app_assoc.
Qed.
End Loops.

Lemma print_value depth fuel :
  prints (@read_value P TP depth fuel) (@printAndPassToBuffer P TP true depth fuel).
Proof using same_string.
  induction depth as [|depth IH]; intros t p n v p' Hr m o; [done|]. cbn [read_value printAndPassToBuffer] in *.
  repeat (bif; [eapply print_as_run; [| |exact Hr]; auto|]). bif; [|bif; [|bif; [|bif]]].
  - apply bind_ok in Hr as (r1 & p1 & Hbeg & Hr). destruct r1 as [k name].
    apply bind_ok in Hr as ([res fs] & p2 & Hl & Hr). apply bind_ok in Hr as (e & p3 & He & [= <- <- <-]).
    apply iterate_turns in Hl. destruct (print_fields _ _ IH _ _ _ _ _ _ _ Hl) as (gs & -> & Hgs).
    rewrite (bind_run _ _ _ _ _ (piprot_run _ _ _ _ _ Hbeg)), (bind_run _ _ _ _ _ (printf_run _ _ _ _)).
    rewrite (bind_run _ _ _ _ _ (proj2 (iterate_turns _ _ _ _ _ _) (Hgs m _))).
    rewrite (bind_run _ _ _ _ _ (piprot_run _ _ _ _ _ He)), printf_run. cbn [show]. by rewrite !app_assoc.
  - apply bind_ok in Hr as ([k [[kt vt] size]] & p1 & Hbeg & Hr). apply bind_ok in Hr as ([res l] & p2 & Hl & Hr).
    apply bind_ok in Hr as (e & p3 & He & [= <- <- <-]).
    rewrite (bind_run _ _ _ _ _ (piprot_run _ _ _ _ _ Hbeg)). cbv beta iota. rewrite (bind_run _ _ _ _ _ (printf_run _ _ _ _)).
    rewrite (bind_run _ _ _ _ _ (print_for _ _ _ (print_entry_run _ _ IH kt vt) _ _ _ _ _ _ m _ Hl)).
    rewrite (bind_run _ _ _ _ _ (piprot_run _ _ _ _ _ He)), printf_run. cbn [show]. by rewrite !app_assoc.
  - apply bind_ok in Hr as ([k [et size]] & p1 & Hbeg & Hr). apply bind_ok in Hr as ([res l] & p2 & Hl & Hr).
    apply bind_ok in Hr as (e & p3 & He & [= <- <- <-]).
    rewrite (bind_run _ _ _ _ _ (piprot_run _ _ _ _ _ Hbeg)). cbv beta iota. rewrite (bind_run _ _ _ _ _ (printf_run _ _ _ _)).
    rewrite (bind_run _ _ _ _ _ (print_for _ _ _ (print_elem_run _ _ IH et) _ _ _ _ _ _ m _ Hl)).
    rewrite (bind_run _ _ _ _ _ (piprot_run _ _ _ _ _ He)), printf_run. cbn [show]. by rewrite !app_assoc.
  - apply bind_ok in Hr as ([k [et size]] & p1 & Hbeg & Hr). apply bind_ok in Hr as ([res l] & p2 & Hl & Hr).
    apply bind_ok in Hr as (e & p3 & He & [= <- <- <-]).
    rewrite (bind_run _ _ _ _ _ (piprot_run _ _ _ _ _ Hbeg)). cbv beta iota. rewrite (bind_run _ _ _ _ _ (printf_run _ _ _ _)).
    rewrite (bind_run _ _ _ _ _ (print_for _ _ _ (print_elem_run _ _ IH et) _ _ _ _ _ _ m _ Hl)).
    rewrite (bind_run _ _ _ _ _ (piprot_run _ _ _ _ _ He)), printf_run. cbn [show]. by rewrite !app_assoc.
  - injection Hr as <- <- <-. by rewrite app_nil_r.
Qed.
End Prints.

(** ** The arguments of a call *)

Section Arguments.
Context {P : Type} (TP : TProtocol P) (F : WireFormat) (lim : limits) (R : @ReaderLaws P TP F lim).
Context (same_string : forall p, @p_readString P TP p = @p_readBinary P TP p).

Definition show_arg (f : Z * tval) : list Z := show (canon f.2) ++ bytes_of ", ".

Lemma print_arg depth fuel l c f p rest m o :
  in_s 16 l -> in_s 16 f.1 -> wf lim f.2 = true -> (vsize f.2 <= depth)%nat ->
  Z.of_nat (vsize f.2) < fuel -> r_state p (l :: c) (enc_field l f ++ rest) ->
  succeeds (args_body true depth fuel tt) (p, Stats m o) (fun r s' =>
    r = inl tt /\ r_state s'.1 (f.1 :: c) rest /\ s'.2 = Stats m (o ++ show_arg f)).
Proof using same_string.
  intros Hl Hid Hwf Hd Hf Hp. unfold args_body, piprot_. wp.
  eapply runs_mono; [by apply (field_then_read depth fuel l c f p rest)| |done].
  cbn beta. intros [n [t id]] p1 [[= -> ->] Hv]. wp.
  rewrite value_type_not_stop by eauto with thrift. apply runs_bind. unfold runs at 1.
  destruct (succeeds_run _ _ _ Hv) as ([k v] & p2 & Hr & Hk & Hc & Hp2). cbn in Hc. subst v.
  cbn [snd]. rewrite (print_value TP same_string depth fuel _ _ _ _ _ Hr m o). wp.
  unfold printf. wp. cbn. unfold show_arg. by rewrite app_assoc.
Qed.

Lemma print_args depth fuel c fs : forall p l rest m o,
  in_s 16 l -> forallb (fun f => in_sb 16 f.1 && wf lim f.2)%bool fs = true ->
  (sumnat (map (fun f => S (vsize f.2)) fs) <= depth)%nat ->
  Z.of_nat (sumnat (map (fun f => S (vsize f.2)) fs)) < fuel ->
  r_state p (l :: c) (enc_fields enc l fs ++ e_stop ++ rest) ->
  succeeds (iterate fuel (args_body true depth fuel) tt) (p, Stats m o) (fun _ s' =>
    r_state s'.1 (last_id l fs :: c) rest /\ s'.2 = Stats m (o ++ concat (map show_arg fs))).
Proof using same_string.
  intros p l rest m o Hl Hwf Hd Hf Hp. rewrite List.forallb_forall in Hwf.
  pose proof (sumnat_map_le (fun f : Z * tval => vsize f.2) fs) as Hlen.
  apply (fields_loop _ _ (fun done l2 bs _ s => l2 = last_id l done /\ r_state s.1 (l2 :: c) bs /\
    s.2 = Stats m (o ++ concat (map show_arg done))) fs rest) with (l := l); [| | |done|unfold zlen; lia|].
  - intros dn f l2 bs [] [p1 st] Hin Hl2 (-> & Hp1 & Hst). cbn [fst snd] in Hp1, Hst. subst st.
    specialize (Hwf f Hin). breflect. pose proof (sumnat_in _ _ (in_map (fun f => S (vsize f.2)) _ _ Hin)).
    eapply runs_mono; [eapply (print_arg depth fuel _ c f p1); eauto with thrift; lia| |done].
    cbn beta. intros r s2 (-> & Hp2 & Hst2). eexists. split; [done|]. split; [unfold last_id; by rewrite fold_left_app|].
    split; [done|]. rewrite Hst2, map_app, concat_app, <- app_assoc. cbn. by rewrite app_nil_r.
  - intros l2 [] [p1 st] _ (-> & Hp1 & Hst). cbn [fst snd] in Hp1, Hst. unfold args_body, piprot_. wp.
    eapply runs_mono; [apply (r_stop _ c p1 rest Hp1)| |done]. cbn beta. intros r p2 [-> Hp2]. wp. by eexists.
  - apply List.Forall_forall. intros f Hin. specialize (Hwf f Hin). breflect. auto with thrift.
  - cbn. rewrite app_nil_r. by split_and!.
Qed.
End Arguments.
