(* ===== verification/DebugProtocol.v ===== *)
(** * [TDebugProtocol]: protocol/TDebugProtocol.cpp and .h

    The protocol that prints what is written, for a person to read; it reads
    nothing.  The state is an indentation and two stacks: what kind of value is
    being written, and the index of the next element of each open list.  Numbers
    are printed by [boost::lexical_cast], a parameter. *)

From S2P Require Export Transport Wire Text MemoryBuffer.

(** ** Characters *)

Definition newline : Z := 10.
Definition double_quote : Z := 34.
Definition backslash : Z := 92.

Definition hex_letter (n : Z) : Z := if n <? 10 then chr "0" + n else chr "a" + (n - 10).

(** [sprintf(buf, "%02x", (int)byte)] of a [uint8_t]. *)
Definition byte_to_hex (byte : Z) : list Z := [hex_letter (byte / 16); hex_letter (byte mod 16)].

(** [std::isprint] of the C locale.  The protocol gives it a [char], which may be
    negative; what it answers then the language leaves open. *)
Class Ctype := { isprint_negative : Z -> bool }.

Definition isprint `{Ctype} (ch : Z) : bool :=
  if ch <? 128 then ((32 <=? ch) && (ch <=? 126))%bool else isprint_negative ch.

(** ** The protocol object *)

Inductive write_state_t := UNINIT | STRUCT | LIST | SET | MAP_KEY | MAP_VALUE.

#[export] Instance write_state_eq_dec : EqDecision write_state_t.
Proof. solve_decision. Defined.

Definition DEFAULT_STRING_LIMIT : Z := 256.
Definition DEFAULT_STRING_PREFIX_SIZE : Z := 16.
Definition indent_inc : Z := 2.

(** Of the two vectors the back is first. *)
Record TDebugProtocol (T : Type) := DebugProt {
  trans_ : T;
  string_limit_ : Z;
  string_prefix_size_ : Z;
  indent_str_ : list Z;
  write_state_ : list write_state_t;
  list_idx_ : list Z
}.
Arguments DebugProt {T}.
Arguments trans_ {T}.
Arguments string_limit_ {T}.
Arguments string_prefix_size_ {T}.
Arguments indent_str_ {T}.
Arguments write_state_ {T}.
Arguments list_idx_ {T}.

Definition fieldTypeName (type : Z) : list Z :=
  bytes_of (
    if type =? T_STOP then "stop"
    else if type =? T_VOID then "void"
    else if type =? T_BOOL then "bool"
    else if type =? T_BYTE then "byte"
    else if type =? T_I16 then "i16"
    else if type =? T_I32 then "i32"
    else if type =? T_U64 then "u64"
    else if type =? T_I64 then "i64"
    else if type =? T_DOUBLE then "double"
    else if type =? T_STRING then "string"
    else if type =? T_STRUCT then "struct"
    else if type =? T_MAP then "map"
    else if type =? T_SET then "set"
    else if type =? T_LIST then "list"
    else if type =? T_UTF8 then "utf8"
    else if type =? T_UTF16 then "utf16"
    else "unknown").

Definition message_type_name (messageType : Z) : list Z :=
  bytes_of (
    if messageType =? T_CALL then "call"
    else if messageType =? T_REPLY then "reply"
    else if messageType =? T_EXCEPTION then "exn"
    else if messageType =? T_ONEWAY then "oneway"
    else "").

Section Operations.
Context `{CxxLibrary} `{Ctype} {T : Type} `{TTransport T}.
Abbreviation P := (TDebugProtocol T).

Definition new_protocol (trans : T) : P :=
  DebugProt trans DEFAULT_STRING_LIMIT DEFAULT_STRING_PREFIX_SIZE [] [UNINIT] [].

Definition setStringSizeLimit (string_limit : Z) (p : P) : P :=
  DebugProt (trans_ p) string_limit (string_prefix_size_ p) (indent_str_ p) (write_state_ p) (list_idx_ p).
Definition setStringPrefixSize (string_prefix_size : Z) (p : P) : P :=
  DebugProt (trans_ p) (string_limit_ p) string_prefix_size (indent_str_ p) (write_state_ p) (list_idx_ p).

Definition set_trans (t : T) (p : P) : P :=
  DebugProt t (string_limit_ p) (string_prefix_size_ p) (indent_str_ p) (write_state_ p) (list_idx_ p).
Definition set_indent (i : list Z) (p : P) : P :=
  DebugProt (trans_ p) (string_limit_ p) (string_prefix_size_ p) i (write_state_ p) (list_idx_ p).
Definition set_states (ws : list write_state_t) (p : P) : P :=
  DebugProt (trans_ p) (string_limit_ p) (string_prefix_size_ p) (indent_str_ p) ws (list_idx_ p).
Definition set_indices (l : list Z) (p : P) : P :=
  DebugProt (trans_ p) (string_limit_ p) (string_prefix_size_ p) (indent_str_ p) (write_state_ p) l.

Definition out_ {A} (m : M T A) : M P A := lift trans_ set_trans m.

(** The back of a vector, which must have one, and its removal. *)
Definition back {S A} (l : list A) : M S A :=
  match l with a :: _ => ret a | [] => crash_ UndefinedBehaviour end.
Definition push_state (w : write_state_t) : M P unit := modify (fun p => set_states (w :: write_state_ p) p).
Definition pop_state : M P unit :=
  let! ws := gets write_state_ in do! back ws in modify (set_states (tail ws)).
Definition push_index (i : Z) : M P unit := modify (fun p => set_indices (i :: list_idx_ p) p).
Definition pop_index : M P unit :=
  let! l := gets list_idx_ in do! back l in modify (set_indices (tail l)).

(** ** Text *)

Definition indentUp : M P unit :=
  modify (fun p => set_indent (indent_str_ p ++ zrep indent_inc (chr " ")) p).

Definition indentDown : M P unit :=
  let! indent := gets indent_str_ in
  if zlen indent <? indent_inc then throw (EProtocol TProtocolException.INVALID_DATA "")
  else modify (set_indent (ztake (zlen indent - indent_inc) indent)).

Definition uint32_max : Z := 2 ^ 32 - 1.
Definition over_limit : exn := EProtocol TProtocolException.SIZE_LIMIT "".

Definition writePlain (str : list Z) : M P Z :=
  if uint32_max <? zlen str then throw over_limit else
  do! out_ (t_write str) in
  ret (u32 (zlen str)).

Definition writeIndented (str : list Z) : M P Z :=
  let! indent := gets indent_str_ in
  if uint32_max <? zlen str then throw over_limit else
  if uint32_max <? zlen indent then throw over_limit else
  if uint32_max <? zlen indent + zlen str then throw over_limit else
  do! out_ (t_write indent) in
  do! out_ (t_write str) in
  ret (u32 (zlen indent + zlen str)).

(** [list_idx_.back()++] of an [int]. *)
Definition next_index : M P unit :=
  let! l := gets list_idx_ in
  let! idx := back l in
  do! require (idx <? 2 ^ 31 - 1) in
  modify (set_indices (idx + 1 :: tail l)).

Definition startItem : M P Z :=
  let! ws := gets write_state_ in
  let! w := back ws in
  match w with
  | UNINIT => ret 0
  | STRUCT => ret 0
  | SET => writeIndented []
  | MAP_KEY => writeIndented []
  | MAP_VALUE => writePlain (bytes_of " -> ")
  | LIST =>
      let! l := gets list_idx_ in
      let! idx := back l in
      let! size := writeIndented (bytes_of "[" ++ lex_show idx ++ bytes_of "] = ") in
      do! next_index in
      ret size
  end.

Definition item_end : list Z := [chr ","; newline].

Definition set_back (w : write_state_t) : M P unit :=
  modify (fun p => set_states (w :: tail (write_state_ p)) p).

Definition endItem : M P Z :=
  let! ws := gets write_state_ in
  let! w := back ws in
  match w with
  | UNINIT => ret 0
  | STRUCT => writePlain item_end
  | SET => writePlain item_end
  | MAP_KEY => do! set_back MAP_VALUE in ret 0
  | MAP_VALUE => do! set_back MAP_KEY in writePlain item_end
  | LIST => writePlain item_end
  end.

Definition writeItem (str : list Z) : M P Z :=
  let! a := startItem in
  let! b := writePlain str in
  let! c := endItem in
  ret (u32 (u32 (a + b) + c)).

(** ** Messages, structs and fields *)

Definition writeMessageBegin (name : list Z) (messageType seqid : Z) : M P Z :=
  let! size := writeIndented (bytes_of "(" ++ message_type_name messageType ++ bytes_of ") " ++
                              name ++ bytes_of "(") in
  do! indentUp in
  ret size.

Definition writeMessageEnd : M P Z :=
  do! indentDown in
  writeIndented [chr ")"; newline].

Definition open_brace : list Z := bytes_of " {" ++ [newline].

(** The head of a value with parts, and its end. *)
Definition open_value (head : list Z) (w : write_state_t) : M P Z :=
  let! a := startItem in
  let! b := writePlain head in
  do! indentUp in
  do! push_state w in
  ret (u32 (a + b)).
Definition close_value : M P Z :=
  let! a := writeIndented (bytes_of "}") in
  let! b := endItem in
  ret (u32 (a + b)).

(** A string made from a null [const char*] is undefined. *)
Definition c_name {S} (name : option (list Z)) : M S (list Z) :=
  match name with Some n => ret n | None => crash_ UndefinedBehaviour end.

Definition writeStructBegin (name : option (list Z)) : M P Z :=
  let! a := startItem in
  let! n := c_name name in
  let! b := writePlain (n ++ open_brace) in
  do! indentUp in
  do! push_state STRUCT in
  ret (u32 (a + b)).

Definition writeStructEnd : M P Z :=
  do! indentDown in
  do! pop_state in
  close_value.

(** At least two characters. *)
Definition field_id (fieldId : Z) : list Z :=
  let id_str := lex_show fieldId in
  if zlen id_str =? 1 then chr "0" :: id_str else id_str.

Definition field_head (name : list Z) (fieldType fieldId : Z) : list Z :=
  field_id fieldId ++ bytes_of ": " ++ name ++ bytes_of " (" ++ fieldTypeName fieldType ++
  bytes_of ") = ".

Definition writeFieldBegin (name : option (list Z)) (fieldType fieldId : Z) : M P Z :=
  let! n := c_name name in
  writeIndented (field_head n fieldType fieldId).

Definition writeFieldEnd : M P Z :=
  let! ws := gets write_state_ in
  let! w := back ws in
  do! assert_ (bool_decide (w = STRUCT)) in
  ret 0.

Definition writeFieldStop : M P Z := ret 0.

(** ** Containers *)

Definition coll_head (kind : string) (types : list Z) (size : Z) : list Z :=
  bytes_of kind ++ bytes_of "<" ++ types ++ bytes_of ">" ++ bytes_of "[" ++ lex_show size ++
  bytes_of "]" ++ open_brace.

Definition map_type_names (keyType valType : Z) : list Z :=
  fieldTypeName keyType ++ bytes_of "," ++ fieldTypeName valType.

Definition writeMapBegin (keyType valType size : Z) : M P Z :=
  open_value (coll_head "map" (map_type_names keyType valType) size) MAP_KEY.

Definition writeMapEnd : M P Z :=
  do! indentDown in
  do! pop_state in
  close_value.

Definition writeListBegin (elemType size : Z) : M P Z :=
  let! bsize := open_value (coll_head "list" (fieldTypeName elemType) size) LIST in
  do! push_index 0 in
  ret bsize.

Definition writeListEnd : M P Z :=
  do! indentDown in
  do! pop_state in
  do! pop_index in
  close_value.

Definition writeSetBegin (elemType size : Z) : M P Z :=
  open_value (coll_head "set" (fieldTypeName elemType) size) SET.

Definition writeSetEnd : M P Z :=
  do! indentDown in
  do! pop_state in
  close_value.

(** ** Scalars *)

Definition writeBool (value : bool) : M P Z :=
  writeItem (bytes_of (if value then "true" else "false")).
Definition writeByte (byte : Z) : M P Z := writeItem (bytes_of "0x" ++ byte_to_hex (u8 byte)).
Definition writeI16 (i16 : Z) : M P Z := writeItem (lex_show i16).
Definition writeI32 (i32 : Z) : M P Z := writeItem (lex_show i32).
Definition writeI64 (i64 : Z) : M P Z := writeItem (lex_show i64).
Definition writeDouble (dub : Z) : M P Z := writeItem (lex_show_double dub).

(** The limit and the prefix are [int32_t]s used as sizes. *)
Definition shown (limit prefix : Z) (str : list Z) : list Z :=
  if u64 limit <? zlen str
  then ztake (u64 prefix) str ++ bytes_of "[...](" ++ lex_show (zlen str) ++ bytes_of ")"
  else str.

Definition escape_letters : list (Z * Z) :=
  [(7, chr "a"); (8, chr "b"); (12, chr "f"); (10, chr "n"); (13, chr "r"); (9, chr "t"); (11, chr "v")].

Fixpoint assoc (ch : Z) (l : list (Z * Z)) : option Z :=
  match l with
  | [] => None
  | (x, y) :: l => if ch =? x then Some y else assoc ch l
  end.

Definition escape_char (ch : Z) : list Z :=
  if ch =? backslash then [backslash; backslash]
  else if ch =? double_quote then [backslash; double_quote]
  else if isprint ch then [ch]
  else match assoc ch escape_letters with
       | Some letter => [backslash; letter]
       | None => [backslash; chr "x"] ++ byte_to_hex ch
       end.

Definition quoted_string (limit prefix : Z) (str : list Z) : list Z :=
  double_quote :: concat (map escape_char (shown limit prefix str)) ++ [double_quote].

Definition writeString (str : list Z) : M P Z :=
  let! limit := gets string_limit_ in
  let! prefix := gets string_prefix_size_ in
  writeItem (quoted_string limit prefix str).

Definition writeBinary (str : list Z) : M P Z := writeString str.

(** ** The class *)

#[export] Instance TDebugProtocol_protocol : TProtocol P := {|
  p_writeMessageBegin := writeMessageBegin;
  p_writeMessageEnd := writeMessageEnd;
  p_writeStructBegin := writeStructBegin;
  p_writeStructEnd := writeStructEnd;
  p_writeFieldBegin := writeFieldBegin;
  p_writeFieldEnd := writeFieldEnd;
  p_writeFieldStop := writeFieldStop;
  p_writeMapBegin := writeMapBegin;
  p_writeMapEnd := writeMapEnd;
  p_writeListBegin := writeListBegin;
  p_writeListEnd := writeListEnd;
  p_writeSetBegin := writeSetBegin;
  p_writeSetEnd := writeSetEnd;
  p_writeBool := writeBool;
  p_writeByte := writeByte;
  p_writeI16 := writeI16;
  p_writeI32 := writeI32;
  p_writeI64 := writeI64;
  p_writeDouble := writeDouble;
  p_writeString := writeString;
  p_writeBinary := writeBinary;
  p_readMessageBegin := no_reading;
  p_readMessageEnd := no_reading;
  p_readStructBegin := no_reading;
  p_readStructEnd := no_reading;
  p_readFieldBegin := no_reading;
  p_readFieldEnd := no_reading;
  p_readMapBegin := no_reading;
  p_readMapEnd := no_reading;
  p_readListBegin := no_reading;
  p_readListEnd := no_reading;
  p_readSetBegin := no_reading;
  p_readSetEnd := no_reading;
  p_readBool := no_reading;
  p_readByte := no_reading;
  p_readI16 := no_reading;
  p_readI32 := no_reading;
  p_readI64 := no_reading;
  p_readDouble := no_reading;
  p_readString := no_reading;
  p_readBinary := no_reading
|}.
End Operations.

(** [ThriftDebugString(ts)]: [write] is the [ts.write] it calls. *)
Definition ThriftDebugString `{CxxLibrary} `{Ctype} `{Platform}
    (write : M (TDebugProtocol TMemoryBuffer) Z) : M unit (list Z) :=
  let! buffer := new_default in
  let! protocol := on_new (do! write in ret tt) (new_protocol buffer) in
  let! buf := lift (fun _ => trans_ protocol) (fun _ u => u) getBuffer in
  ret buf.
