(* ===== verification/JsonFormat.v ===== *)
(** * The JSON of a value

    What TJSONProtocol.cpp puts on the wire, as functions on values, and the
    documented behaviour of [boost::lexical_cast] they rely on: integers are
    written in decimal and read back from it, infinities have a name. *)

From S2P Require Export JsonProtocol Double.

(** Close an equation between counts of bytes. *)
Ltac count := autorewrite with wrap zlist; try reflexivity; try (f_equal; lia).

Lemma bytes_of_ok s : bytes_ok (bytes_of s).
Proof.
  apply Forall_fmap, Forall_forall. intros a _. cbn. unfold is_byte.
  pose proof (N_ascii_bounded a). lia.
Qed.

(** ** Numbers *)

Definition wide (z : Z) : Prop := - 2 ^ 63 <= z < 2 ^ 64.

Class CxxLibraryLaws `{CxxLibrary} : Prop := {
  lex_show_decimal z : wide z -> lex_show z = decimal z;
  lex_parse_decimal t z : number_in t z -> lex_parse t (decimal z) = Some z;
  lex_show_inf : at_ (lex_show_double HUGE_VAL) 0 = chr "i" \/
                 at_ (lex_show_double HUGE_VAL) 0 = chr "I";
  lex_show_minus_inf : at_ (lex_show_double minus_HUGE_VAL) 0 = chr "-" /\
                       (at_ (lex_show_double minus_HUGE_VAL) 1 = chr "i" \/
                        at_ (lex_show_double minus_HUGE_VAL) 1 = chr "I")
}.

Lemma decimal_spec z : wide z ->
  of_decimal (decimal z) = Some z /\ forallb isJSONNumeric (decimal z) = true /\
  0 < zlen (decimal z) <= 21.
Proof.
  assert (forall ch, is_digit ch = true -> isJSONNumeric ch = true) as Hdig.
  { intros ch Hch. unfold is_digit in Hch. change (chr "0") with 48 in Hch.
    change (chr "9") with 57 in Hch. breflect.
    assert (ch = 48 \/ ch = 49 \/ ch = 50 \/ ch = 51 \/ ch = 52 \/ ch = 53 \/ ch = 54 \/
            ch = 55 \/ ch = 56 \/ ch = 57) as Hc by lia.
    repeat (destruct Hc as [-> |Hc]; [reflexivity|]). by subst. }
  assert (forall l, forallb is_digit l = true -> forallb isJSONNumeric l = true) as Hall.
  { intros l. rewrite !forallb_forall. intros Hl x Hx. by apply Hdig, Hl. }
  unfold wide. intros Hz. unfold decimal.
  change (2 ^ 63) with 9223372036854775808 in *. change (2 ^ 64) with 18446744073709551616 in *. bif.
  - destruct (digits_spec 20 (- z)) as (Hh & Hf & Hl & Hp);
      [change (10 ^ Z.of_nat 20) with 100000000000000000000; lia|].
    change (Z.of_nat 20) with 20 in *. specialize (Hp ltac:(lia)).
    cbn [of_decimal forallb]. rewrite Z.eqb_refl, Hf, (Hall _ Hf), Hh.
    replace (0 <? zlen (digits 20 (- z))) with true by lia. rewrite zlen_cons.
    split_and!; [cbn [andb]; f_equal; lia|reflexivity|lia|lia].
  - destruct (digits_spec 20 z) as (Hh & Hf & Hl & Hp);
      [change (10 ^ Z.of_nat 20) with 100000000000000000000; lia|].
    change (Z.of_nat 20) with 20 in *. specialize (Hp ltac:(lia)).
    split_and!; [|by apply Hall|lia|lia].
    destruct (digits 20 z) as [|ch l]; [done|]. cbn [of_decimal].
    assert (ch =? chr "-" = false) as ->.
    { cbn [forallb] in Hf. breflect. unfold is_digit in H. change (chr "0") with 48 in H.
      change (chr "-") with 45. breflect. lia. }
    by rewrite Hf, Hh.
Qed.

(** ** The text of each kind of value *)

(** What a context puts before the next value, and what it becomes. *)
Definition prefix (c : TJSONContext) : list Z :=
  match c with
  | BaseContext | JSONPairContext true _ | JSONListContext true => []
  | JSONPairContext false colon_ => [if colon_ then kJSONPairSeparator else kJSONElemSeparator]
  | JSONListContext false => [kJSONElemSeparator]
  end.
Definition next (c : TJSONContext) : TJSONContext :=
  match c with
  | BaseContext => BaseContext
  | JSONPairContext true _ => JSONPairContext false true
  | JSONPairContext false colon_ => JSONPairContext false (negb colon_)
  | JSONListContext _ => JSONListContext false
  end.

(** Before a member of an object or of a list, and between a key and its value. *)
Abbreviation at_member := (JSONPairContext false false).
Abbreviation at_value := (JSONPairContext false true).
Abbreviation at_element := (JSONListContext false).

Definition quoted (l : list Z) : list Z := kJSONStringDelimiter :: l ++ [kJSONStringDelimiter].
Definition quoted_if (q : bool) (l : list Z) : list Z := if q then quoted l else l.

Definition j_int (esc : bool) (z : Z) : list Z := quoted_if esc (decimal z).

Definition j_double `{CxxLibrary} (esc : bool) (num : Z) : list Z :=
  quoted_if ((double_text num).2 || esc) (double_text num).1.

Definition j_char (ch : Z) : list Z :=
  if 0x30 <=? ch then if ch =? kJSONBackslash then [kJSONBackslash; kJSONBackslash] else [ch]
  else
    let outCh := at_ kJSONCharTable ch in
    if outCh =? 1 then [ch]
    else if 1 <? outCh then [kJSONBackslash; outCh]
    else kJSONEscapePrefix ++ [hexChar (Z.shiftr ch 4); hexChar ch].

Definition j_string (s : list Z) : list Z := quoted (concat (map j_char s)).
Definition j_base64 (s : list Z) : list Z := quoted (encoding s).
Definition j_type (t : Z) : list Z := j_string (bytes_of (default "" (type_name t))).

(** The head of a field, from its id to its type's name. *)
Definition j_field (t id : Z) : list Z :=
  j_int true id ++ [kJSONPairSeparator; kJSONObjectStart] ++ j_type t.
Definition j_coll (t n : Z) : list Z :=
  kJSONArrayStart :: j_type t ++ [kJSONElemSeparator] ++ j_int false n.
Definition j_map (kt vt n : Z) : list Z :=
  kJSONArrayStart :: j_type kt ++ [kJSONElemSeparator] ++ j_type vt ++ [kJSONElemSeparator] ++
  j_int false n ++ [kJSONElemSeparator; kJSONObjectStart].

Section Values.
Context `{CxxLibrary}.

(** The members of an object, the first one in the context [c]. *)
Definition j_fields (j : bool -> tval -> list Z) : TJSONContext -> list (Z * tval) -> list Z :=
  fix go c fs :=
    match fs with
    | [] => []
    | f :: fs => prefix c ++ j_field (type_of f.2) f.1 ++ kJSONPairSeparator :: j false f.2 ++
                 kJSONObjectEnd :: go at_member fs
    end.
Definition j_entries (j : bool -> tval -> list Z) : TJSONContext -> list (tval * tval) -> list Z :=
  fix go c es :=
    match es with
    | [] => []
    | e :: es => prefix c ++ j true e.1 ++ kJSONPairSeparator :: j false e.2 ++ go at_member es
    end.

(** [esc]: numbers are quoted, as in the key of a member. *)
Fixpoint j_value (esc : bool) (v : tval) : list Z :=
  match v with
  | VBool b => j_int esc (Z.b2z b)
  | VByte z | VI16 z | VI32 z | VI64 z => j_int esc z
  | VDouble bits => j_double esc bits
  | VString s => j_base64 s
  | VStruct fs =>
      kJSONObjectStart :: j_fields j_value (JSONPairContext true true) fs ++ [kJSONObjectEnd]
  | VMap kt vt es =>
      j_map kt vt (zlen es) ++ j_entries j_value (JSONPairContext true true) es ++
      [kJSONObjectEnd; kJSONArrayEnd]
  | VSet t l | VList t l =>
      j_coll t (zlen l) ++ concat (map (fun x => kJSONElemSeparator :: j_value false x) l) ++
      [kJSONArrayEnd]
  | VNothing _ => []
  end.

(** The message header [writeMessageBegin] leaves open. *)
Definition j_header (name : list Z) (messageType seqid : Z) : list Z :=
  kJSONArrayStart :: j_int false kThriftVersion1 ++ kJSONElemSeparator :: j_string name ++
  kJSONElemSeparator :: j_int false messageType ++ kJSONElemSeparator :: j_int false seqid.

(** ** Values the text holds *)

(** The text of a finite double has numeric characters only and is parsed back;
    an infinity is written by name.  The sign and payload of a NaN are lost. *)
Definition double_ok (d : Z) : bool :=
  (bool_decide (d = HUGE_VAL) || bool_decide (d = minus_HUGE_VAL) ||
   forallb isJSONNumeric (lex_show_double d) &&
   ((0 <? zlen (lex_show_double d)) && (zlen (lex_show_double d) <? 2 ^ 32)) &&
   bool_decide (lex_parse_double (lex_show_double d) = Some d))%bool.

(** Field ids are not negative; doubles are as above. *)
Fixpoint json_ok (v : tval) : bool :=
  match v with
  | VDouble d => double_ok d
  | VStruct fs => forallb (fun f => (0 <=? f.1) && json_ok f.2)%bool fs
  | VMap _ _ es => forallb (fun e => json_ok e.1 && json_ok e.2)%bool es
  | VSet _ l | VList _ l => forallb json_ok l
  | _ => true
  end.
End Values.

(** ** A concrete conversion *)

(** Integers in decimal; of the doubles, the integers in decimal and the others
    by name. *)
Definition number_inb (t : NumberType) (z : Z) : bool :=
  match t with
  | NBool => in_ub 1 z | NI16 => in_sb 16 z | NI32 => in_sb 32 z | NI64 => in_sb 64 z
  | NU64 => in_ub 64 z
  end.

Definition plain_cast : CxxLibrary := {|
  lex_show := decimal;
  lex_show_double d :=
    if bool_decide (d = HUGE_VAL) then bytes_of "inf"
    else if bool_decide (d = minus_HUGE_VAL) then bytes_of "-inf"
    else match int64_of_double d with
         | Some z => if double_of_int z =? d then decimal z else bytes_of "nan"
         | None => bytes_of "nan"
         end;
  lex_parse t l :=
    match of_decimal l with
    | Some z => if number_inb t z then Some z else None
    | None => None
    end;
  lex_parse_double l := option_map double_of_int (of_decimal l);
  huge_quotient := 0xfff8000000000000;
  string_max_size := 2 ^ 62 |}.

Lemma number_wide t z : number_in t z -> wide z.
Proof. unfold wide. destruct t; cbn; unfold in_s, in_u; lia. Qed.

Lemma plain_cast_laws : @CxxLibraryLaws plain_cast.
Proof.
  constructor; cbn [lex_show lex_parse lex_show_double plain_cast].
  - done.
  - intros t z Hz. destruct (decimal_spec z (number_wide t z Hz)) as [-> _].
    assert (number_inb t z = true) as -> by (destruct t; by apply bool_decide_eq_true_2). done.
  - by left.
  - split; [done|by left].
Qed.
