(* ===== verification/JsonWriter.v ===== *)
(** * Writing JSON

    Each operation of TJSONProtocol.cpp puts the text of [JsonFormat] on the wire,
    answers its length and leaves the contexts as that text requires. *)

From S2P Require Export JsonFormat.

Lemma u32_add_l4 a b c d e : u32 (u32 a + b + c + d + e) = u32 (a + b + c + d + e).
Proof. apply u32_add_cong; [apply u32_add_lll|done]. Qed.
Lemma u32_add_l5 a b c d e f : u32 (u32 a + b + c + d + e + f) = u32 (a + b + c + d + e + f).
Proof. apply u32_add_cong; [apply u32_add_l4|done]. Qed.
#[export] Hint Rewrite u32_add_l4 u32_add_l5 : wrap.

Section Writer.
Context `{CxxLibrary} `{!CxxLibraryLaws} {T : Type} `{WriteLaws T}.
Abbreviation P := (TJSONProtocol T).
Abbreviation contexts := (TJSONContext * list TJSONContext)%type.
Implicit Types (p : P) (C : contexts) (c : TJSONContext) (cs : list TJSONContext).

(** The current context and the stack; [out] and [room] of the transport. *)
Definition json_out (p : P) (C : contexts) (out : list Z) (room : Z) : Prop :=
  (context_ p, contexts_ p) = C /\ outgoing (trans_ p) out room.

Lemma json_out_eq p C out out' room room' :
  json_out p C out room -> out = out' -> room = room' -> json_out p C out' room'.
Proof. by intros ? -> ->. Qed.

Lemma emit {A} d (k : unit -> M P A) p C out room Q E :
  json_out p C out room -> zlen d <= room -> zlen d < 2 ^ 32 ->
  (forall p', json_out p' C (out ++ d) (room - zlen d) -> runs (k tt) p' Q E) ->
  runs (bind (under (t_write d)) k) p Q E.
Proof using Type.
  intros [HC Ho] Hr Hd Hk. unfold under. wp.
  eapply runs_mono; [by apply (write_ok _ out room d)| |done]. cbn. intros [] t Ht.
  apply Hk. by split.
Qed.

(** [emit] for the characters written one at a time. *)
Lemma emit1 {A} ch (k : unit -> M P A) p C out room Q E :
  json_out p C out room -> 1 <= room ->
  (forall p', json_out p' C (out ++ [ch]) (room - 1) -> runs (k tt) p' Q E) ->
  runs (bind (under (t_write [ch])) k) p Q E.
Proof using Type. intros ?? Hk. eapply emit; [done|done|done|]. apply Hk. Qed.

Lemma runs_pushContext c p c0 cs out room Q E :
  json_out p (c0, cs) out room ->
  (forall p', json_out p' (c, c0 :: cs) out room -> Q tt p') -> runs (pushContext c) p Q E.
Proof using Type.
  intros [HC Ho] Hk. unfold pushContext. wp. apply Hk. split; [|done]. cbn. by injection HC as -> ->.
Qed.

Lemma runs_popContext p c c0 cs out room Q E :
  json_out p (c, c0 :: cs) out room ->
  (forall p', json_out p' (c0, cs) out room -> Q tt p') -> runs popContext p Q E.
Proof using Type.
  intros [HC Ho] Hk. injection HC as _ Hcs. unfold popContext. wp. rewrite Hcs. wp. apply Hk. by split.
Qed.

(** Close a goal on the count and the state of a write. *)
Ltac wrote := wp; split; [count|eapply json_out_eq; [eassumption|by rewrite ?app_nil_r, <- ?app_assoc|zlist]].

Lemma writes_prefix c cs :
  writes json_out context_write (c, cs) (next c, cs) (prefix c).
Proof using Type.
  intros p out room Hp Hr. pose proof Hp as [HC Ho]. injection HC as Hc Hcs.
  unfold context_write, base_write, pair_write, list_write. wp. rewrite Hc.
  destruct c as [|[] colon|[]]; cbn [prefix next] in *; try (zlist; fail).
  - wrote.
  - wp. split; [done|]. rewrite app_nil_r, Z.sub_0_r. split; [|done]. cbn. by rewrite Hcs.
  - eapply emit1; [done|zlist|]. intros p1 [HC1 Ho1]. wp. split; [done|]. split; [|done].
    cbn. by injection HC1 as _ ->.
  - wp. split; [done|]. rewrite app_nil_r, Z.sub_0_r. split; [|done]. cbn. by rewrite Hcs.
  - eapply emit1; [done|zlist|]. intros p1 Hp1. wrote.
Qed.

(** ** Strings *)

Lemma writes_char C ch : is_byte ch -> writes json_out (writeJSONChar ch) C C (j_char ch).
Proof using Type.
  intros Hch p out room Hp Hr. unfold writeJSONChar, j_char in *. bif; [bif|cbv zeta in *; bif; [|bif]].
  - eapply emit1; [done|zlist|]. intros p1 Hp1. eapply emit1; [done|zlist|]. intros p2 Hp2. wrote.
  - eapply emit1; [done|zlist|]. intros p1 Hp1. wrote.
  - eapply emit1; [done|zlist|]. intros p1 Hp1. wrote.
  - eapply emit1; [done|zlist|]. intros p1 Hp1. eapply emit1; [done|zlist|]. intros p2 Hp2. wrote.
  - unfold writeJSONEscapeChar. assert (zlen kJSONEscapePrefix = 4) as Hpre by reflexivity. zlist.
    eapply emit; [done|lia|lia|]. intros p1 Hp1.
    eapply emit1; [done|lia|]. intros p2 Hp2. eapply emit1; [done|lia|]. intros p3 Hp3. wrote.
Qed.

Lemma writes_string c cs s : bytes_ok s ->
  writes json_out (writeJSONString s) (c, cs) (next c, cs) (prefix c ++ j_string s).
Proof using Type.
  intros Hs p out room Hp Hr. unfold writeJSONString, j_string, quoted in *. zlist.
  eapply writes_step; [apply writes_prefix|done|lia|]. intros p1 Hp1.
  eapply emit1; [done|lia|]. intros p2 Hp2. apply runs_bind.
  eapply runs_mono; [eapply (sum_over_st json_out writeJSONChar j_char (next c, cs) s)
    ; [|exact Hp2|lia]| |done].
  { intros ch Hch. apply writes_char. by eapply (proj1 (List.Forall_forall _ _)). }
  cbn beta. intros n p3 (Hn & Hin & Hp3).
  rewrite (wrapu_small 32 n) in Hn by (apply Hin, wrapu_range; lia). subst n.
  eapply emit1; [done|lia|]. intros p4 Hp4. wrote.
Qed.
(** [dn] of [s] is encoded as [e], [rest] is left. *)
Definition encoded (s dn rest e : list Z) : Prop := s = dn ++ rest /\ e ++ encoding rest = encoding s.

Lemma zslice_middle {A} (dn rest : list A) i n :
  zlen dn = i -> 0 <= n -> zslice i (i + n) (dn ++ rest) = ztake n rest.
Proof using.
  intros Hi Hn. unfold zslice. rewrite zdrop_app by lia. f_equal. lia.
Qed.

Lemma encode_step s dn rest e : bytes_ok rest -> 3 <= zlen rest -> encoded s dn rest e ->
  base64_encode (ztake 3 rest) 3 = encode_group (ztake 3 rest) /\ zlen (encode_group (ztake 3 rest)) = 4 /\
  encoded s (dn ++ ztake 3 rest) (zdrop 3 rest) (e ++ encode_group (ztake 3 rest)).
Proof using.
  intros Hb Hr [Hs He]. assert (zlen (ztake 3 rest) = 3) as H3 by (rewrite zlen_ztake; lia).
  split_and!.
  - rewrite <- base64_encode_group; [by rewrite H3|by apply bytes_ztake|lia].
  - destruct (decode_encode_group (ztake 3 rest)) as [-> _]; [by apply bytes_ztake|lia|lia].
  - split; [by rewrite <- app_assoc, ztake_zdrop|].
    rewrite <- app_assoc, <- encoding_app by done. by rewrite ztake_zdrop.
Qed.

(** The loop of [writeJSONBase64] on [bytes], [len] and [result], from [out] and [r]. *)
Definition encoding_at (s : list Z) C (out : list Z) (room r : Z) (a : Z * Z * Z) (p : P) : Prop :=
  exists dn rest e, encoded s dn rest e /\ bytes_ok rest /\ zlen dn = a.1.1 /\ zlen rest = a.1.2 /\
    a.2 = u32 (r + zlen e) /\ json_out p C (out ++ e) (room - zlen e).

Lemma encode_body_spec s C out room r a p :
  zlen s < 2 ^ 31 -> zlen (encoding s) <= room -> encoding_at s C out room r a p ->
  runs (encode_body s a) p (fun b p' => match b with
    | inl a' => encoding_at s C out room r a' p' /\ 0 <= a'.1.2 < a.1.2
    | inr a' => encoding_at s C out room r a' p' /\ a'.1.2 < 3
    end) (fun _ _ => False).
Proof using Type.
  destruct a as [[bytes len] result].
  intros Hlen Hr (dn & rest & e & Henc & Hrb & Hdn & Hrest & Hres & Hp). cbn [fst snd] in *.
  pose proof (zlen_nonneg rest). pose proof (zlen_nonneg dn).
  assert (zlen s = zlen dn + zlen rest) as Hsl by (destruct Henc as [-> _]; apply zlen_app).
  unfold encode_body. bif; [|wp; split; [by exists dn, rest, e|done]].
  destruct (encode_step s dn rest e) as (He & Hg & Henc'); [done|lia|done|].
  assert (zlen e + 4 <= zlen (encoding s)) as Hle.
  { destruct Henc' as [_ <-]. rewrite !zlen_app, Hg.
    pose proof (zlen_nonneg (encoding (zdrop 3 rest))). lia. }
  wp. apply runs_load_mem; [lia..|].
  destruct Henc as [Hs' _]. rewrite Hs' at 1. rewrite zslice_middle, He by lia.
  eapply emit; [done|lia|lia|]. intros q' Hq'. rewrite Hg in Hq'. wp. cbn [fst snd].
  rewrite (wrapu_small 32 (len - 3)) by (unfold in_u; lia). split; [|lia].
  exists (dn ++ ztake 3 rest), (zdrop 3 rest), (e ++ encode_group (ztake 3 rest)).
  rewrite zlen_app, zlen_zdrop, zlen_app, Hg, zlen_ztake. cbn [fst snd].
  split_and!; [done|by apply bytes_zdrop|lia|lia| |].
  - rewrite Hres. autorewrite with wrap. f_equal. lia.
  - eapply json_out_eq; [exact Hq'|by rewrite <- !app_assoc|lia].
Qed.

(** The last group, of one or two bytes, if there is one. *)
Lemma encode_rest {A} s C out room r bytes len result (k : Z -> M P A) p Q E :
  zlen s < 2 ^ 31 -> zlen (encoding s) <= room ->
  encoding_at s C out room r (bytes, len, result) p -> len < 3 ->
  (forall p', json_out p' C (out ++ encoding s) (room - zlen (encoding s)) ->
     runs (k (u32 (r + zlen (encoding s)))) p' Q E) ->
  runs (bind (if negb (len =? 0) then
                let! d := load_mem s bytes len in
                do! under (t_write (base64_encode d len)) in
                ret (u32 (result + u32 (len + 1)))
              else ret result) k) p Q E.
Proof using Type.
  intros Hlen Hr (dn & rest & e & [Hs He] & Hrb & Hdn & Hrest & Hres & Hp) Hl3 Hk. cbn [fst snd] in *.
  pose proof (zlen_nonneg rest). pose proof (zlen_nonneg dn). subst result bytes len.
  bcase (zlen rest =? 0); cbn [negb].
  - assert (rest = []) as -> by (by apply zlen_0). rewrite app_nil_r in He. subst e. wp. by apply Hk.
  - assert (zlen s = zlen dn + zlen rest) as Hsl by (rewrite Hs; apply zlen_app).
    destruct (decode_encode_group rest Hrb ltac:(lia)) as [Hl _].
    rewrite encoding_small in He by lia.
    assert (zlen (encoding s) = zlen e + (zlen rest + 1)) as Hl2 by (rewrite <- He, zlen_app; lia).
    wp. apply runs_load_mem; [lia..|]. rewrite Hs at 1. rewrite zslice_middle, ztake_ge by lia.
    rewrite base64_encode_group by (done || lia).
    eapply emit; [done|lia|lia|]. intros q' Hq'. wp.
    assert (u32 (u32 (r + zlen e) + u32 (zlen rest + 1)) = u32 (r + zlen (encoding s))) as ->.
    { autorewrite with wrap. f_equal. lia. }
    apply Hk. eapply json_out_eq; [exact Hq'|by rewrite <- He, app_assoc|lia].
Qed.

Lemma writes_base64 c cs s : bytes_ok s -> zlen s < 2 ^ 31 ->
  writes json_out (writeJSONBase64 s) (c, cs) (next c, cs) (prefix c ++ j_base64 s).
Proof using Type.
  intros Hs Hlen p out room Hp Hr. unfold writeJSONBase64, j_base64, quoted in *. zlist.
  eapply writes_step; [apply writes_prefix|done|lia|]. intros p1 Hp1.
  eapply emit1; [done|lia|]. intros p2 Hp2.
  replace (2 ^ 32 - 1 <? zlen s) with false by lia. rewrite (wrapu_small 32 (zlen s)) by (unfold in_u; lia).
  apply runs_bind. eapply runs_mono; [apply (runs_iterate
      (encoding_at s (next c, cs) ((out ++ prefix c) ++ [kJSONStringDelimiter])
         (room - zlen (prefix c) - 1) (zlen (prefix c) + 2)) (fun a => a.1.2) (encode_body s)
      (fun a p' => encoding_at s (next c, cs) ((out ++ prefix c) ++ [kJSONStringDelimiter])
         (room - zlen (prefix c) - 1) (zlen (prefix c) + 2) a p' /\ a.1.2 < 3) (fun _ _ => False))| |done].
  - intros a q Hq. apply encode_body_spec; [done|lia|done].
  - exists [], s, []. cbn [fst snd]. split_and!; [by split|done|done|done| |].
    + autorewrite with wrap zlist. f_equal. lia.
    + by rewrite zlen_nil, Z.sub_0_r, app_nil_r.
  - cbn [fst snd]. lia.
  - intros [[bytes len] result] q [Hq Hl3]. cbv beta iota.
    eapply encode_rest; [done| |exact Hq|exact Hl3|]; [lia|].
    intros p3 Hp3. eapply emit1; [done|lia|]. intros p4 Hp4. wrote.
Qed.
(** ** Numbers *)

Lemma writes_number C q val r p out room :
  zlen val < 2 ^ 32 -> zlen (quoted_if q val) <= room -> json_out p C out room -> in_u 32 r ->
  succeeds (write_number r val q) p (fun n p' =>
    n = u32 (r + zlen (quoted_if q val)) /\
    json_out p' C (out ++ quoted_if q val) (room - zlen (quoted_if q val))).
Proof using Type.
  intros Hl Hr Hp Hrr. unfold write_number, quoted_if, quoted in *.
  replace (2 ^ 32 - 1 <? zlen val) with false by lia. rewrite (wrapu_small 32 (zlen val)) by (unfold in_u; zlist).
  destruct q; zlist.
  - apply runs_bind. eapply emit1; [done|lia|]. intros p1 Hp1. apply runs_ret.
    eapply emit; [done|lia|lia|]. intros p2 Hp2. eapply emit1; [done|lia|]. intros p3 Hp3. wrote.
  - apply runs_bind, runs_ret. eapply emit; [done|lia|lia|]. intros p2 Hp2. wrote.
Qed.

(** A value that is a number: what the context asks for, then the text. *)
Lemma writes_numeric (f : TJSONContext -> bool) val c cs :
  zlen val < 2 ^ 32 ->
  writes json_out (let! result := context_write in let! c := gets context_ in
                   write_number result val (f c))
    (c, cs) (next c, cs) (prefix c ++ quoted_if (f (next c)) val).
Proof using Type.
  intros Hl p out room Hp Hr. rewrite zlen_app in *. pose proof (zlen_nonneg (quoted_if (f (next c)) val)).
  eapply writes_step; [apply writes_prefix|done|lia|]. intros p1 Hp1.
  apply runs_bind, runs_gets. pose proof Hp1 as [HC _]. injection HC as -> _.
  eapply runs_mono; [eapply (writes_number _ (f (next c)) val); [done| |exact Hp1|by apply wrapu_range]| |done];
    [lia|]. cbn. intros n p2 [-> Hp2]. split; [autorewrite with wrap; f_equal; lia|].
  eapply json_out_eq; [exact Hp2|by rewrite app_assoc|lia].
Qed.

Lemma writes_integer c cs z : wide z ->
  writes json_out (writeJSONInteger z) (c, cs) (next c, cs) (prefix c ++ j_int (escapeNum (next c)) z).
Proof using Type*.
  intros Hz. destruct (decimal_spec z Hz) as (_ & _ & Hl). unfold writeJSONInteger.
  rewrite lex_show_decimal by done. apply writes_numeric. lia.
Qed.

Lemma numeric_at l i ch :
  forallb isJSONNumeric l = true -> isJSONNumeric ch = false -> ch <> 0 -> (at_ l i =? ch) = false.
Proof using.
  intros Hl Hch Hz. apply Z.eqb_neq. intros <-. unfold at_, znth in *.
  destruct (i <? 0); [done|]. destruct (l !! Z.to_nat i) as [x|] eqn:Hx; [|done].
  change (default 0 (Some x)) with x in *. rewrite forallb_forall in Hl.
  assert (isJSONNumeric x = true); [|congruence].
  by eapply Hl, list_elem_of_In, list_elem_of_lookup_2.
Qed.

(** What a double that survives is written as. *)
Lemma double_text_ok d : double_ok d = true ->
  zlen (double_text d).1 < 2 ^ 32 /\
  (d = HUGE_VAL /\ double_text d = (kThriftInfinity, true) \/
   d = minus_HUGE_VAL /\ double_text d = (kThriftNegativeInfinity, true) \/
   forallb isJSONNumeric (lex_show_double d) = true /\ 0 < zlen (lex_show_double d) /\
   double_text d = (lex_show_double d, false) /\ lex_parse_double (lex_show_double d) = Some d).
Proof using Type*.
  unfold double_ok. rewrite !orb_true_iff, !andb_true_iff, !bool_decide_eq_true.
  intros [[-> | ->]|[[Hnum [Hpos Hl]] Hparse]].
  - assert (double_text HUGE_VAL = (kThriftInfinity, true)) as ->
      by (unfold double_text; destruct lex_show_inf as [-> | ->]; reflexivity).
    split; [done|by left].
  - assert (double_text minus_HUGE_VAL = (kThriftNegativeInfinity, true)) as ->
      by (unfold double_text; destruct lex_show_minus_inf as [-> [-> | ->]]; reflexivity).
    split; [done|by right; left].
  - assert (double_text d = (lex_show_double d, false)) as ->.
    { unfold double_text. rewrite !(numeric_at (lex_show_double d) 0) by done.
      rewrite !(numeric_at (lex_show_double d) 1) by done. cbn [orb].
      by rewrite andb_false_r. }
    split; [cbn; lia|right; right]. split_and!; [done|lia|done|done].
Qed.

Lemma writes_double c cs d : double_ok d = true ->
  writes json_out (writeJSONDouble d) (c, cs) (next c, cs) (prefix c ++ j_double (escapeNum (next c)) d).
Proof using Type*.
  intros Hd. destruct (double_text_ok d Hd) as [Hl _]. unfold writeJSONDouble, j_double.
  destruct (double_text d) as [val special]. cbn [fst snd] in *.
  by apply (writes_numeric (fun c => special || escapeNum c)%bool).
Qed.

(** ** Brackets *)

Lemma writes_open (m : M P Z) (ch : Z) c0 c cs :
  m = (let! result := context_write in do! under (t_write [ch]) in
       do! pushContext c0 in ret (u32 (result + 1))) ->
  writes json_out m (c, cs) (c0, next c :: cs) (prefix c ++ [ch]).
Proof using Type.
  intros -> p out room Hp Hr. zlist.
  eapply writes_step; [apply writes_prefix|done|lia|]. intros p1 Hp1.
  eapply emit1; [done|lia|]. intros p2 Hp2. apply runs_bind. eapply runs_pushContext; [done|].
  intros p3 Hp3. wrote.
Qed.

Lemma writes_close (m : M P Z) (ch : Z) c0 c cs :
  m = (do! popContext in do! under (t_write [ch]) in ret 1) ->
  writes json_out m (c, c0 :: cs) (c0, cs) [ch].
Proof using Type.
  intros -> p out room Hp Hr. zlist. apply runs_bind. eapply runs_popContext; [done|]. intros p1 Hp1.
  eapply emit1; [done|lia|]. intros p2 Hp2. wrote.
Qed.

Lemma writes_object c cs :
  writes json_out writeJSONObjectStart (c, cs) (JSONPairContext true true, next c :: cs)
    (prefix c ++ [kJSONObjectStart]).
Proof using Type. by apply writes_open. Qed.
Lemma writes_object_end c0 c cs :
  writes json_out writeJSONObjectEnd (c, c0 :: cs) (c0, cs) [kJSONObjectEnd].
Proof using Type. by eapply writes_close. Qed.
Lemma writes_array c cs :
  writes json_out writeJSONArrayStart (c, cs) (JSONListContext true, next c :: cs)
    (prefix c ++ [kJSONArrayStart]).
Proof using Type. by apply writes_open. Qed.
Lemma writes_array_end c0 c cs :
  writes json_out writeJSONArrayEnd (c, c0 :: cs) (c0, cs) [kJSONArrayEnd].
Proof using Type. by eapply writes_close. Qed.

(** ** Headers *)

(** A type's name. *)
Lemma type_name_known t : In t value_types ->
  exists name, type_name t = Some name /\ bytes_ok (bytes_of name) /\ j_type t = j_string (bytes_of name).
Proof using.
  intros Ht. unfold j_type. repeat (destruct Ht as [<-|Ht]; [eexists; split; [reflexivity|split; [|reflexivity]];
    repeat constructor; lia|]). done.
Qed.

Lemma writes_type {A} t (k : Z -> M P A) c cs p out room Q E :
  In t value_types -> json_out p (c, cs) out room -> zlen (prefix c ++ j_type t) <= room ->
  (forall p', json_out p' (next c, cs) (out ++ prefix c ++ j_type t) (room - zlen (prefix c ++ j_type t)) ->
     runs (k (u32 (zlen (prefix c ++ j_type t)))) p' Q E) ->
  runs (let! name := getTypeNameForTypeID t in let! n := writeJSONString name in k n) p Q E.
Proof using Type.
  intros Ht Hp Hr Hk. destruct (type_name_known t Ht) as (name & Hname & Hb & Hj).
  unfold getTypeNameForTypeID. rewrite Hname. apply runs_bind, runs_ret. rewrite Hj in *.
  eapply writes_step; [by apply writes_string|done|done|done].
Qed.
Lemma count_wide n : 0 <= n < 2 ^ 31 -> wide (s64 n).
Proof using. intros. rewrite wraps_small by (unfold in_s; lia). unfold wide. lia. Qed.
Lemma count_s64 n : 0 <= n < 2 ^ 31 -> s64 n = n.
Proof using. intros. apply wraps_small; unfold in_s; lia. Qed.

(** The next write, by the lemma [L], its room found by [lia]. *)
Ltac write L := eapply writes_step; [eapply L|eassumption|cbn [prefix]; zlist|]; intros.
Ltac write_type := eapply writes_type; [eassumption|eassumption|cbn [prefix]; zlist|]; intros.

(** A field's head, where the context waits for a member. *)
Lemma writes_field_begin name c cs t id :
  next c = at_value -> In t value_types -> wide id ->
  writes json_out (writeFieldBegin name t id) (c, cs) (at_value, at_member :: cs)
    (prefix c ++ j_field t id).
Proof using Type*.
  intros Hc Ht Hid p out room Hp Hr. unfold writeFieldBegin, j_field in *. zlist.
  pose proof (writes_integer c cs id Hid) as Hint. rewrite Hc in Hint. cbn [escapeNum] in Hint.
  write Hint. write (writes_object at_value cs). cbn [prefix next negb] in *. zlist.
  write_type. cbn [prefix next app] in *. wrote.
Qed.

Lemma writes_coll_begin (m : M P Z) c cs t n :
  m = (let! result := writeJSONArrayStart in
       let! elemName := getTypeNameForTypeID t in
       let! n1 := writeJSONString elemName in
       let result := u32 (result + n1) in
       let! n1 := writeJSONInteger (s64 n) in
       ret (u32 (result + n1))) ->
  In t value_types -> 0 <= n < 2 ^ 31 ->
  writes json_out m (c, cs) (at_element, next c :: cs) (prefix c ++ j_coll t n).
Proof using Type*.
  intros -> Ht Hn p out room Hp Hr. unfold j_coll in *. zlist.
  pose proof (writes_integer at_element (next c :: cs) (s64 n) (count_wide n Hn)) as Hint.
  rewrite count_s64 in Hint by done. cbn [escapeNum prefix next app] in Hint.
  write writes_array. zlist. write_type. cbn [prefix next app] in *.
  rewrite count_s64 by done. write Hint. zlist. wrote.
Qed.

Lemma writes_map_begin c cs kt vt n :
  In kt value_types -> In vt value_types -> 0 <= n < 2 ^ 31 ->
  writes json_out (writeMapBegin kt vt n) (c, cs)
    (JSONPairContext true true, at_element :: next c :: cs) (prefix c ++ j_map kt vt n).
Proof using Type*.
  intros Hkt Hvt Hn p out room Hp Hr. unfold writeMapBegin, j_map in *. zlist.
  pose proof (writes_integer at_element (next c :: cs) (s64 n) (count_wide n Hn)) as Hint.
  rewrite count_s64 in Hint by done. cbn [escapeNum prefix next app] in Hint.
  write writes_array. zlist. write_type. cbn [prefix next app] in *. write_type.
  cbn [prefix next app] in *. zlist.
  rewrite count_s64 by done. write Hint. zlist. write (writes_object at_element).
  cbn [prefix next app] in *. wrote.
Qed.

(** [writeMessageBegin] leaves an array open. *)
Lemma writes_message_begin c cs name messageType seqid :
  bytes_ok name -> wide messageType -> wide seqid ->
  writes json_out (writeMessageBegin name messageType seqid) (c, cs) (at_element, next c :: cs)
    (prefix c ++ j_header name messageType seqid).
Proof using Type*.
  intros Hname Htype Hseq p out room Hp Hr. unfold writeMessageBegin, j_header in *. zlist.
  write writes_array. zlist.
  assert (wide kThriftVersion1) as Hver by done.
  pose proof (writes_integer (JSONListContext true) (next c :: cs) _ Hver) as H1st.
  pose proof (writes_string at_element (next c :: cs) name Hname) as H2nd.
  pose proof (writes_integer at_element (next c :: cs) _ Htype) as H3rd.
  pose proof (writes_integer at_element (next c :: cs) _ Hseq) as H4th.
  cbn [prefix next app escapeNum] in *.
  write H1st. write H2nd. write H3rd. write H4th. wrote.
Qed.
(** ** Values *)

Definition value_writes (v : tval) : Prop := forall c cs,
  writes json_out (write_value v) (c, cs) (next c, cs) (prefix c ++ j_value (escapeNum (next c)) v).

(** Writes of [l], the first in the context [c], the others in [at_member]. *)
Lemma sum_members {A} (f : A -> M P Z) (e : TJSONContext -> A -> list Z) (es : TJSONContext -> list A -> list Z) cs l :
  (forall c, es c [] = []) -> (forall c x l, es c (x :: l) = e c x ++ es at_member l) ->
  (forall x c, In x l -> next c = at_value -> writes json_out (f x) (c, cs) (at_member, cs) (e c x)) ->
  forall c p xfer out room, next c = at_value -> json_out p (c, cs) out room -> zlen (es c l) <= room ->
  succeeds (sum_over f xfer l) p (fun n p' =>
    u32 n = u32 (xfer + zlen (es c l)) /\
    exists c', json_out p' (c', cs) (out ++ es c l) (room - zlen (es c l))).
Proof using Type.
  intros Hnil Hcons. induction l as [|x l IH]; intros Hf c p xfer out room Hc Hp Hr; cbn [sum_over].
  - rewrite Hnil. wp. rewrite zlen_nil, Z.add_0_r, Z.sub_0_r, app_nil_r. eauto.
  - rewrite Hcons, zlen_app in *. pose proof (zlen_nonneg (es at_member l)).
    eapply writes_step; [apply Hf; [by left|exact Hc]|done|lia|]. intros p1 Hp1.
    eapply runs_mono; [apply (IH (fun y c' Hy => Hf y c' (or_intror Hy)) at_member);
      [reflexivity|exact Hp1|lia]| |done].
    cbn. intros n p2 (Hn & c' & Hp2). split.
    + rewrite Hn. autorewrite with wrap. f_equal. lia.
    + exists c'. by rewrite app_assoc, Z.sub_add_distr.
Qed.

Lemma writes_json_field c cs f :
  next c = at_value -> In (type_of f.2) value_types -> wide f.1 -> value_writes f.2 ->
  writes json_out (write_field f) (c, cs) (at_member, cs)
    (prefix c ++ j_field (type_of f.2) f.1 ++ kJSONPairSeparator :: j_value false f.2 ++ [kJSONObjectEnd]).
Proof using Type*.
  intros Hc Ht Hid Hv. pose proof (Hv at_value (at_member :: cs)) as Hval. rewrite app_assoc.
  change (kJSONPairSeparator :: j_value false f.2 ++ [kJSONObjectEnd])
    with ((kJSONPairSeparator :: j_value false f.2) ++ [kJSONObjectEnd]).
  eapply writes_then3; [by apply writes_field_begin|exact Hval|apply writes_object_end].
Qed.

Lemma writes_json_entry c cs e :
  next c = at_value -> value_writes e.1 -> value_writes e.2 ->
  writes json_out (let! a := write_value e.1 in let! b := write_value e.2 in ret (u32 (a + b)))
    (c, cs) (at_member, cs)
    (prefix c ++ j_value true e.1 ++ kJSONPairSeparator :: j_value false e.2).
Proof using Type.
  intros Hc Hk Hv. rewrite app_assoc. pose proof (Hk c cs) as Hkey. rewrite Hc in Hkey.
  eapply writes_then; [exact Hkey|apply (Hv at_value)].
Qed.

(** Header, members and trailers of a container, the header leaving [c1] and [cs1]. *)
Lemma writes_around (m e : M P Z) (loop : Z -> M P Z) (g : Z -> Z -> Z) C C1 C2 hd mid tl :
  (forall x a, g x a = u32 (x + a)) ->
  writes json_out m C C1 hd ->
  (forall p xfer out room, json_out p C1 out room -> zlen mid <= room ->
     succeeds (loop xfer) p (fun n p' => u32 n = u32 (xfer + zlen mid) /\
       exists c', json_out p' (c', C1.2) (out ++ mid) (room - zlen mid))) ->
  (forall c', writes json_out e (c', C1.2) C2 tl) ->
  writes json_out (let! n := m in let! xfer := loop n in let! a := e in ret (g xfer a))
    C C2 (hd ++ mid ++ tl).
Proof using Type.
  intros Hg Hm Hl He p out room Hp Hr. rewrite !zlen_app in *.
  pose proof (zlen_nonneg hd). pose proof (zlen_nonneg mid). pose proof (zlen_nonneg tl).
  eapply writes_step; [exact Hm|done|lia|]. intros p1 Hp1. apply runs_bind.
  eapply runs_mono; [apply Hl; [exact Hp1|lia]| |done]. cbn. intros n p2 (Hn & c' & Hp2).
  eapply writes_step; [apply He|done|lia|]. intros p3 Hp3. wp. split.
  - rewrite Hg. rewrite (u32_add_cong n (zlen hd + zlen mid) _ (zlen tl)); [f_equal; lia| |by autorewrite with wrap].
    rewrite Hn. by autorewrite with wrap.
  - eapply json_out_eq; [exact Hp3|by rewrite <- !app_assoc|lia].
Qed.
Lemma wide_id z : in_sb 16 z = true -> wide z.
Proof using. intros Hz%in_sb_true. unfold in_s, wide in *. lia. Qed.

Lemma struct_writes lim fs :
  Forall (fun f => wf lim f.2 = true -> json_ok f.2 = true -> value_writes f.2) fs ->
  wf lim (VStruct fs) = true -> json_ok (VStruct fs) = true -> value_writes (VStruct fs).
Proof using Type*.
  intros IH Hwf Hok c cs. cbn [write_value j_value wf json_ok] in *.
  change (prefix c ++ kJSONObjectStart :: ?l) with (prefix c ++ [kJSONObjectStart] ++ l). rewrite app_assoc.
  apply (writes_around _ _ (fun n => sum_over write_field n fs)
    (fun x b => u32 (u32 (x + 0) + b)) _ (JSONPairContext true true, next c :: cs)).
  - intros. rewrite Z.add_0_r. by autorewrite with wrap.
  - apply writes_object.
  - intros p xfer out room Hp Hr.
    apply (sum_members write_field (fun c f => prefix c ++ j_field (type_of f.2) f.1 ++
      kJSONPairSeparator :: j_value false f.2 ++ [kJSONObjectEnd]) (j_fields j_value)); try done.
    { intros c' f l. cbn [j_fields]. rewrite <- !app_assoc. cbn [app]. by rewrite <- app_assoc. }
    intros f c' Hf Hc'. rewrite List.Forall_forall, forallb_forall in *.
    specialize (Hwf f Hf). specialize (Hok f Hf). breflect.
    apply writes_json_field; [done|by eapply wf_value_type|by apply wide_id|by apply IH].
  - intros c'. apply writes_object_end.
Qed.

Lemma map_writes lim kt vt es :
  Forall (fun e => (wf lim e.1 = true -> json_ok e.1 = true -> value_writes e.1) /\
                   (wf lim e.2 = true -> json_ok e.2 = true -> value_writes e.2)) es ->
  wf lim (VMap kt vt es) = true -> json_ok (VMap kt vt es) = true -> value_writes (VMap kt vt es).
Proof using Type*.
  intros IH Hwf Hok c cs. cbn [write_value j_value wf json_ok] in *. breflect.
  match goal with H : count_ok _ _ = true |- _ => apply count_ok_true in H as [? _] end.
  rewrite app_assoc.
  apply (writes_around _ _ (fun n => sum_over _ n es) (fun x a => u32 (x + a)) _
    (JSONPairContext true true, at_element :: next c :: cs)).
  - done.
  - apply writes_map_begin; auto with thrift.
  - intros p xfer out room Hp Hr.
    apply (sum_members _ (fun c e => prefix c ++ j_value true e.1 ++
      kJSONPairSeparator :: j_value false e.2) (j_entries j_value)); try done.
    { intros c' f l. cbn [j_entries]. by rewrite <- !app_assoc. }
    intros e c' He Hc'. rewrite List.Forall_forall, !forallb_forall in *.
    match goal with H1 : forall x, In x es -> _ = true, H2 : forall x, In x es -> _ = true |- _ =>
      specialize (H1 e He); specialize (H2 e He) end.
    breflect. apply writes_json_entry; [done|by apply IH|by apply IH].
  - intros c'. apply (writes_then json_out writeJSONObjectEnd writeJSONArrayEnd _ (at_element, next c :: cs) _
      [kJSONObjectEnd] [kJSONArrayEnd]); [apply writes_object_end|apply writes_array_end].
Qed.

Lemma coll_writes lim t l (m e : M P Z) c cs :
  (In t value_types -> 0 <= zlen l < 2 ^ 31 ->
   writes json_out m (c, cs) (at_element, next c :: cs) (prefix c ++ j_coll t (zlen l))) ->
  (forall c', writes json_out e (c', next c :: cs) (next c, cs) [kJSONArrayEnd]) ->
  Forall (fun x => wf lim x = true -> json_ok x = true -> value_writes x) l ->
  (is_value_type t && count_ok lim (zlen l) &&
   forallb (fun e => (type_of e =? t) && wf lim e) l)%bool = true -> forallb json_ok l = true ->
  writes json_out (let! n := m in let! xfer := sum_over write_value n l in
                   let! a := e in ret (u32 (xfer + a)))
    (c, cs) (next c, cs)
    (prefix c ++ j_coll t (zlen l) ++
     concat (map (fun x => kJSONElemSeparator :: j_value false x) l) ++ [kJSONArrayEnd]).
Proof using Type*.
  intros Hm He IH Hwf Hok. breflect.
  match goal with H : count_ok _ _ = true |- _ => apply count_ok_true in H as [? _] end.
  rewrite app_assoc.
  apply (writes_around _ _ (fun n => sum_over write_value n l) (fun x a => u32 (x + a)) _
    (at_element, next c :: cs)); [done|apply Hm; auto with thrift| |done].
  intros p xfer out room Hp Hr.
  eapply runs_mono; [eapply (sum_over_st json_out write_value); [|exact Hp|exact Hr]| |done].
  - intros x Hx. rewrite List.Forall_forall, !forallb_forall in *.
    match goal with H1 : forall x, In x l -> _ = true, H2 : forall x, In x l -> _ = true |- _ =>
      specialize (H1 x Hx); specialize (H2 x Hx) end.
    breflect. by apply (IH x Hx).
  - cbn. intros n p' (Hn & _ & Hp'). eauto.
Qed.

(** [write_value v] puts the text of [v] on the wire, after what the context asks for. *)
Lemma write_value_json lim v : wf lim v = true -> json_ok v = true -> value_writes v.
Proof using Type*.
  induction v as [b|z|z|z|z|d|s|fs IH|kt vt es IH|t l IH|t l IH|t] using tval_nested_ind;
    intros Hwf Hok; try (intros c cs; cbn [wf json_ok write_value j_value] in * ).
  - apply writes_integer. by destruct b.
  - apply in_sb_true in Hwf. unfold in_s in Hwf. rewrite <- (wraps_small 16 z) at 2 by (unfold in_s; lia).
    apply writes_integer. rewrite wraps_small by (unfold in_s; lia). unfold wide. lia.
  - apply writes_integer. by apply wide_id.
  - apply writes_integer. apply in_sb_true in Hwf. unfold in_s, wide in *. lia.
  - apply writes_integer. apply in_sb_true in Hwf. unfold in_s, wide in *. lia.
  - by apply writes_double.
  - apply string_ok_true in Hwf as (? & _ & ?). by apply writes_base64.
  - by eapply struct_writes.
  - by eapply map_writes.
  - apply (coll_writes lim); [intros; by apply writes_coll_begin|intros; apply writes_array_end|done..].
  - apply (coll_writes lim); [intros; by apply writes_coll_begin|intros; apply writes_array_end|done..].
  - done.
Qed.
End Writer.
