(* ===== verification/JsonReader.v ===== *)
(** * Reading JSON

    Each operation of TJSONProtocol.cpp that reads consumes the text of
    [JsonFormat], answers its length and the value written.  A number ends where
    a character that is no part of one begins, so what follows a value must begin
    with one ([delimited]): it is always a separator or a closing bracket. *)

From S2P Require Export JsonWriter.

Definition delimited (rest : list Z) : Prop :=
  match rest with [] => False | ch :: _ => isJSONNumeric ch = false end.

(** The input [H], its pieces grouped as the goal has them. *)
Ltac regroup H :=
  unfold j_field, j_coll, j_map, j_header in H |- *; cbn [prefix next escapeNum negb] in H |- *;
  repeat first [progress cbn [app] in H | rewrite <- app_assoc in H];
  repeat first [progress cbn [app] | rewrite <- app_assoc]; exact H.

Section Reader.
Context `{CxxLibrary} `{!CxxLibraryLaws} {T : Type} `{ReadLaws T}.
Abbreviation P := (TJSONProtocol T).
Abbreviation contexts := (TJSONContext * list TJSONContext)%type.
Implicit Types (p : P) (C : contexts) (c : TJSONContext) (cs : list TJSONContext).

(** The contexts, and what is still to come: the character looked at, then what
    the transport delivers. *)
Definition json_in (p : P) (C : contexts) (bs : list Z) : Prop :=
  (context_ p, contexts_ p) = C /\
  exists bs', incoming (trans_ p) bs' /\
    bs = if hasData_ (reader_ p) then data_ (reader_ p) :: bs' else bs'.

Lemma read_char {A} ch rest (k : Z -> M P A) p C Q E :
  json_in p C (ch :: rest) ->
  (forall p', json_in p' C rest -> runs (k ch) p' Q E) ->
  runs (bind reader_read k) p Q E.
Proof using Type.
  intros (HC & bs & Hin & Hbs) Hk. unfold reader_read. wp. destruct (hasData_ (reader_ p)).
  - wp. injection Hbs as <- ->. apply Hk. split; [done|]. by exists bs.
  - subst bs. unfold under. wp. eapply runs_mono; [by apply (readAll_ok _ 1 [ch] rest)| |done].
    cbn. intros b t [-> Ht]. wp. apply Hk. split; [done|]. by exists rest.
Qed.

Lemma peek_char {A} ch rest (k : Z -> M P A) p C Q E :
  json_in p C (ch :: rest) ->
  (forall p', json_in p' C (ch :: rest) -> runs (k ch) p' Q E) ->
  runs (bind reader_peek k) p Q E.
Proof using Type.
  intros (HC & bs & Hin & Hbs) Hk. unfold reader_peek. wp. destruct (hasData_ (reader_ p)) eqn:Hd.
  - wp. pose proof Hbs as Heq. injection Heq as <- _. apply Hk. split; [done|].
    exists bs. split; [done|]. by rewrite Hd.
  - subst bs. unfold under. wp. eapply runs_mono; [by apply (readAll_ok _ 1 [ch] rest)| |done].
    cbn. intros b t [-> Ht]. wp. apply Hk. split; [done|]. by exists rest.
Qed.

Lemma syntax_char {A} ch rest (k : Z -> M P A) p C Q E :
  json_in p C (ch :: rest) ->
  (forall p', json_in p' C rest -> runs (k 1) p' Q E) ->
  runs (bind (readSyntaxChar ch) k) p Q E.
Proof using Type.
  intros Hp Hk. unfold readSyntaxChar. apply runs_bind. eapply read_char; [done|]. intros p' Hp'.
  rewrite Z.eqb_refl. cbn [negb]. wp. by apply Hk.
Qed.

Lemma json_in_context p c cs bs : json_in p (c, cs) bs -> context_ p = c /\ contexts_ p = cs.
Proof using Type. intros [HC _]. by injection HC. Qed.

Lemma in_push p c c0 cs bs Q E :
  json_in p (c0, cs) bs ->
  (forall p', json_in p' (c, c0 :: cs) bs -> Q tt p') -> runs (pushContext c) p Q E.
Proof using Type.
  intros Hp Hk. destruct (json_in_context _ _ _ _ Hp) as [<- <-]. destruct Hp as [_ Hi].
  unfold pushContext. wp. apply Hk. by split.
Qed.

Lemma in_pop p c c0 cs bs Q E :
  json_in p (c, c0 :: cs) bs ->
  (forall p', json_in p' (c0, cs) bs -> Q tt p') -> runs popContext p Q E.
Proof using Type.
  intros Hp Hk. destruct (json_in_context _ _ _ _ Hp) as [_ Hcs]. destruct Hp as [_ Hi].
  unfold popContext. wp. rewrite Hcs. wp. apply Hk. by split.
Qed.

(** [m] consumes exactly [e], answers its length and [a]; [e] is followed by
    something that ends a number and fits a string. *)
Definition consumes {A} (m : M P (Z * A)) C C' (e : list Z) (a : A) : Prop :=
  zlen e <= string_max_size ->
  forall p rest, delimited rest -> json_in p C (e ++ rest) ->
    succeeds m p (fun r p' => r = (u32 (zlen e), a) /\ json_in p' C' rest).

(** The same of the operations that only answer a length. *)
Definition passes (m : M P Z) C C' (e : list Z) : Prop :=
  forall p rest, json_in p C (e ++ rest) ->
    succeeds m p (fun n p' => n = u32 (zlen e) /\ json_in p' C' rest).

Lemma consumes_step {A B} (m : M P (Z * A)) (k : Z * A -> M P B) C C' e a p rest Q E :
  consumes m C C' e a -> zlen e <= string_max_size -> json_in p C (e ++ rest) -> delimited rest ->
  (forall p', json_in p' C' rest -> runs (k (u32 (zlen e), a)) p' Q E) ->
  runs (bind m k) p Q E.
Proof using Type.
  intros Hm Hl Hp Hd Hk. apply runs_bind. eapply runs_mono; [by eapply Hm| |done].
  cbn. intros r p' [-> Hp']. by apply Hk.
Qed.

Lemma passes_step {B} (m : M P Z) (k : Z -> M P B) C C' e p rest Q E :
  passes m C C' e -> json_in p C (e ++ rest) ->
  (forall p', json_in p' C' rest -> runs (k (u32 (zlen e))) p' Q E) ->
  runs (bind m k) p Q E.
Proof using Type.
  intros Hm Hp Hk. apply runs_bind. eapply runs_mono; [by eapply Hm| |done].
  cbn. intros r p' [-> Hp']. by apply Hk.
Qed.

Lemma passes_prefix c cs : passes context_read (c, cs) (next c, cs) (prefix c).
Proof using Type.
  intros p rest Hp. destruct (json_in_context _ _ _ _ Hp) as [Hc Hcs].
  assert (forall c' p0 bs, json_in p0 (c, cs) bs -> json_in (set_context c' p0) (c', cs) bs) as Hset.
  { intros c' p0 bs [HC Hi]. injection HC as _ Hcs0. split; [cbn; by rewrite Hcs0|done]. }
  unfold context_read, base_read, pair_read, list_read. wp. rewrite Hc.
  destruct c as [|[] colon|[]]; cbn [prefix next app] in *; wp; try (split; [done|]; auto; fail).
  - unfold readSyntaxChar. eapply read_char; [by apply Hset|]. intros p' Hp'.
    rewrite Z.eqb_refl. cbn [negb]. by wp.
  - unfold readSyntaxChar. eapply read_char; [done|]. intros p' Hp'.
    rewrite Z.eqb_refl. cbn [negb]. by wp.
Qed.

(** ** Brackets *)

Lemma passes_open (m : M P Z) ch c0 c cs :
  m = (let! result := context_read in let! n := readJSONSyntaxChar ch in
       do! pushContext c0 in ret (u32 (result + n))) ->
  passes m (c, cs) (c0, next c :: cs) (prefix c ++ [ch]).
Proof using Type.
  intros -> p rest Hp. rewrite <- app_assoc in Hp.
  eapply passes_step; [apply passes_prefix|done|]. intros p1 Hp1.
  eapply syntax_char; [done|]. intros p2 Hp2. apply runs_bind. eapply in_push; [done|].
  intros p3 Hp3. wp. split; [count|done].
Qed.

Lemma passes_close (m : M P Z) ch c0 c cs :
  m = (let! result := readJSONSyntaxChar ch in do! popContext in ret result) ->
  passes m (c, c0 :: cs) (c0, cs) [ch].
Proof using Type.
  intros -> p rest Hp. eapply syntax_char; [done|]. intros p1 Hp1. apply runs_bind.
  eapply in_pop; [done|]. intros p2 Hp2. by wp.
Qed.

Lemma passes_object c cs :
  passes readJSONObjectStart (c, cs) (JSONPairContext true true, next c :: cs) (prefix c ++ [kJSONObjectStart]).
Proof using Type. by apply passes_open. Qed.
Lemma passes_array c cs :
  passes readJSONArrayStart (c, cs) (JSONListContext true, next c :: cs) (prefix c ++ [kJSONArrayStart]).
Proof using Type. by apply passes_open. Qed.
Lemma passes_object_end c c0 cs : passes readJSONObjectEnd (c, c0 :: cs) (c0, cs) [kJSONObjectEnd].
Proof using Type. by eapply passes_close. Qed.
Lemma passes_array_end c c0 cs : passes readJSONArrayEnd (c, c0 :: cs) (c0, cs) [kJSONArrayEnd].
Proof using Type. by eapply passes_close. Qed.
(** ** Strings *)

Lemma hexVal_hexChar {S} d : 0 <= d < 16 -> @hexVal S (hexChar d) = ret d.
Proof using.
  intros Hd. assert (d = 0 \/ d = 1 \/ d = 2 \/ d = 3 \/ d = 4 \/ d = 5 \/ d = 6 \/ d = 7 \/
    d = 8 \/ d = 9 \/ d = 10 \/ d = 11 \/ d = 12 \/ d = 13 \/ d = 14 \/ d = 15) as Hc by lia.
  repeat (destruct Hc as [-> |Hc]; [reflexivity|]). by subst.
Qed.

(** The three forms of a character below 0x30, and what undoes each. *)
Definition escape_ok (ch : Z) : bool :=
  let outCh := at_ kJSONCharTable ch in
  if 0x30 <=? ch then negb (ch =? kJSONStringDelimiter)
  else if outCh =? 1 then negb (ch =? kJSONStringDelimiter) && negb (ch =? kJSONBackslash)
  else if 1 <? outCh then
    negb (outCh =? kJSONEscapeChar) &&
    match find_char outCh kEscapeChars with
    | Some pos => at_ kEscapeCharVals pos =? ch
    | None => false
    end
  else u8 (Z.shiftl (Z.shiftr ch 4) 4 + Z.land ch 15) =? ch.

Lemma escapes ch : is_byte ch -> escape_ok ch = true.
Proof using. apply byte_cases. by vm_compute. Qed.

Lemma hexChar_land ch : hexChar ch = hexChar (Z.land ch 15).
Proof using. unfold hexChar. by rewrite <- Z.land_assoc. Qed.

(** The four digits after a backslash and a [u]. *)
Lemma escape_digits ch rest p C :
  is_byte ch -> json_in p C ([chr "0"; chr "0"; hexChar (Z.shiftr ch 4); hexChar ch] ++ rest) ->
  u8 (Z.shiftl (Z.shiftr ch 4) 4 + Z.land ch 15) = ch ->
  succeeds readJSONEscapeChar p (fun r p' => r = (4, ch) /\ json_in p' C rest).
Proof using Type.
  intros Hch Hp Hsum. unfold readJSONEscapeChar.
  eapply syntax_char; [exact Hp|]. intros p1 Hp1. eapply syntax_char; [exact Hp1|]. intros p2 Hp2.
  eapply read_char; [exact Hp2|]. intros p3 Hp3. eapply read_char; [exact Hp3|]. intros p4 Hp4.
  rewrite (hexChar_land ch), !hexVal_hexChar; [wp; by rewrite Hsum| |].
  - change 15 with (Z.ones 4). rewrite Z.land_ones by lia. apply Z.mod_pos_bound. lia.
  - rewrite Z.shiftr_div_pow2 by lia. unfold is_byte in Hch. dlia.
Qed.

(** A round that finds a backslash. *)
Lemma string_escape result str rest p C Q E :
  json_in p C (kJSONBackslash :: rest) ->
  (forall p', json_in p' C rest ->
     runs (let! ch := reader_read in
           let result := u32 (u32 (result + 1) + 1) in
           if ch =? kJSONEscapeChar then
             let! '(n, ch) := readJSONEscapeChar in ret (inl (u32 (result + n), str ++ [ch]))
           else match find_char ch kEscapeChars with
                | None => throw (expected_control ch)
                | Some pos => ret (inl (result, str ++ [at_ kEscapeCharVals pos]))
                end) p' Q E) ->
  runs (string_body (result, str)) p Q E.
Proof using Type. intros Hp Hk. unfold string_body. eapply read_char; [exact Hp|]. apply Hk. Qed.

(** One round reads the text of one character. *)
Lemma string_round ch rest p C result str :
  is_byte ch -> json_in p C (j_char ch ++ rest) ->
  succeeds (string_body (result, str)) p (fun r p' =>
    r = inl (u32 (result + zlen (j_char ch)), str ++ [ch]) /\ json_in p' C rest).
Proof using Type.
  intros Hch Hp. pose proof (escapes ch Hch) as Hesc. unfold escape_ok in Hesc. unfold j_char in *.
  assert (ch <> kJSONStringDelimiter -> ch <> kJSONBackslash -> json_in p C (ch :: rest) ->
    succeeds (string_body (result, str)) p (fun r p' =>
      r = inl (u32 (result + 1), str ++ [ch]) /\ json_in p' C rest)) as Hplain.
  { intros Hq Hb Hp0. unfold string_body. eapply read_char; [exact Hp0|]. intros p1 Hp1.
    rewrite (proj2 (Z.eqb_neq _ _) Hq), (proj2 (Z.eqb_neq _ _) Hb). by wp. }
  bif; [bif|cbv zeta in *; bif; [|bif]].
  - subst ch. eapply string_escape; [exact Hp|]. intros p1 Hp1.
    eapply read_char; [exact Hp1|]. intros p2 Hp2. cbn -[wrapu]. wp. split; [|done]. do 2 f_equal. count.
  - by apply Hplain.
  - breflect. by apply Hplain.
  - breflect. eapply string_escape; [exact Hp|]. intros p1 Hp1.
    eapply read_char; [exact Hp1|]. intros p2 Hp2.
    destruct (find_char _ kEscapeChars) as [pos|]; [|done]. breflect.
    rewrite (proj2 (Z.eqb_neq _ _)) by done. wp. subst ch. split; [|done]. do 2 f_equal. count.
  - breflect. eapply string_escape; [exact Hp|]. intros p1 Hp1.
    eapply read_char; [exact Hp1|]. intros p2 Hp2. change (chr "u" =? kJSONEscapeChar) with true. cbv iota.
    apply runs_bind. eapply runs_mono; [apply (escape_digits ch rest); [done|exact Hp2|done]| |done].
    cbn. intros r p3 [-> Hp3]. wp. split; [|done]. do 2 f_equal. count.
Qed.

(** The loop reads the characters of [s] and the closing quote. *)
Lemma string_loop s rest p C r0 :
  bytes_ok s -> zlen s <= string_max_size -> in_u 32 r0 ->
  json_in p C (concat (map j_char s) ++ kJSONStringDelimiter :: rest) ->
  succeeds (iterate string_rounds string_body (r0, [])) p (fun r p' =>
    r = (u32 (r0 + zlen (concat (map j_char s)) + 1), s) /\ json_in p' C rest).
Proof using Type.
  intros Hs Hl Hr0 Hp. eapply (runs_iterate (fun a p' => exists dn rs, s = dn ++ rs /\
    a = (u32 (r0 + zlen (concat (map j_char dn))), dn) /\
    json_in p' C (concat (map j_char rs) ++ kJSONStringDelimiter :: rest)) (fun a => zlen s - zlen a.2)).
  - intros a q (dn & rs & -> & -> & Hq). apply Forall_app in Hs as [_ Hs]. destruct rs as [|ch rs].
    + unfold string_body. eapply read_char; [exact Hq|]. intros q1 Hq1.
      rewrite Z.eqb_refl. wp. rewrite app_nil_r. split; [|done]. f_equal. count.
    + apply Forall_cons in Hs as [Hch Hs]. cbn [map concat] in Hq. rewrite <- app_assoc in Hq.
      eapply runs_mono; [by eapply string_round| |done].
      intros r q1 [-> Hq1]. cbn [snd]. zlist. split; [|lia].
      exists (dn ++ [ch]), rs. rewrite <- app_assoc. split_and!; [done| |done]. f_equal.
      rewrite map_app, concat_app. cbn [map concat]. count.
  - exists [], s. split_and!; [done| |done]. cbn [map concat]. f_equal. rewrite zlen_nil, Z.add_0_r.
    by rewrite wrapu_small.
  - cbn [snd]. unfold string_rounds. zlist.
Qed.

Lemma string_tail s n p C rest :
  bytes_ok s -> zlen s <= string_max_size -> json_in p C (j_string s ++ rest) ->
  succeeds (let! n0 := readJSONSyntaxChar kJSONStringDelimiter in
            iterate string_rounds string_body (u32 (n + n0), [])) p (fun r p' =>
    r = (u32 (n + zlen (j_string s)), s) /\ json_in p' C rest).
Proof using Type.
  intros Hs Hl Hp.
  assert (json_in p C (kJSONStringDelimiter :: concat (map j_char s) ++ kJSONStringDelimiter :: rest)) as Hp0.
  { unfold j_string, quoted in Hp. cbn [app] in Hp. by rewrite <- app_assoc in Hp. }
  unfold succeeds, readJSONSyntaxChar. eapply (syntax_char _ _ _ _ _ _ _ Hp0). intros p1 Hp1.
  eapply runs_mono; [apply (string_loop s rest _ _ _ Hs Hl (wrapu_range 32 _ ltac:(lia)) Hp1)| |done].
  cbn beta. intros r p2 [-> Hp2]. split; [|exact Hp2]. f_equal. unfold j_string, quoted. count.
Qed.

(** A string, behind what the context asks for or not. *)
Lemma read_string c cs s p rest :
  bytes_ok s -> zlen s <= string_max_size -> json_in p (c, cs) (prefix c ++ j_string s ++ rest) ->
  succeeds (readJSONString false) p (fun r p' =>
    r = (u32 (zlen (prefix c ++ j_string s)), s) /\ json_in p' (next c, cs) rest).
Proof using Type.
  intros Hs Hl Hp. unfold readJSONString.
  eapply passes_step; [apply passes_prefix|exact Hp|]. intros p1 Hp1.
  eapply runs_mono; [apply (string_tail s); [exact Hs|exact Hl|exact Hp1]| |done].
  cbn beta. intros r p' [-> Hp']. split; [|exact Hp']. f_equal. count.
Qed.

Lemma read_string_skip C s p rest :
  bytes_ok s -> zlen s <= string_max_size -> json_in p C (j_string s ++ rest) ->
  succeeds (readJSONString true) p (fun r p' => r = (u32 (zlen (j_string s)), s) /\ json_in p' C rest).
Proof using Type.
  intros Hs Hl Hp. unfold readJSONString. apply runs_bind, runs_ret.
  eapply runs_mono; [apply (string_tail s); [exact Hs|exact Hl|exact Hp]| |done].
  cbn beta. intros r p' [-> Hp']. split; [|exact Hp']. f_equal.
Qed.

Lemma j_string_longer s : zlen s + 2 <= zlen (j_string s).
Proof using.
  unfold j_string, quoted. zlist. assert (zlen s <= zlen (concat (map j_char s))); [|lia].
  clear. induction s as [|ch s IH]; cbn [map concat]; zlist.
  assert (1 <= zlen (j_char ch)); [|lia]. unfold j_char. repeat case_match; zlist.
Qed.

Lemma consumes_string c cs s : bytes_ok s ->
  consumes (readJSONString false) (c, cs) (next c, cs) (prefix c ++ j_string s) s.
Proof using Type.
  intros Hs Hl p rest _ Hp. rewrite <- app_assoc in Hp. pose proof (j_string_longer s). zlist.
  eapply runs_mono; [apply (read_string c cs s p rest); [done|lia|done]| |done].
  cbn beta. intros r p' [-> Hp']. split; [|exact Hp']. f_equal. count.
Qed.

(** A string of characters that need no escape is its own text. *)
Lemma j_string_plain s : Forall (fun ch => j_char ch = [ch]) s -> j_string s = quoted s.
Proof using.
  intros Hs. unfold j_string. f_equal. induction Hs as [|ch s Hch _ IH]; [done|].
  cbn [map concat]. by rewrite Hch, IH.
Qed.

(** ** Numbers *)

Lemma numeric_loop l rest p C :
  forallb isJSONNumeric l = true -> zlen l <= string_max_size -> delimited rest -> json_in p C (l ++ rest) ->
  succeeds readJSONNumericChars p (fun r p' => r = (u32 (zlen l), l) /\ json_in p' C rest).
Proof using Type.
  intros Hn Hl Hd Hp. eapply (runs_iterate (fun a p' => exists dn rs, l = dn ++ rs /\
    a = (u32 (zlen dn), dn) /\ json_in p' C (rs ++ rest)) (fun a => zlen l - zlen a.2)).
  - intros a q (dn & rs & -> & -> & Hq). unfold numeric_body. destruct rs as [|ch rs].
    + destruct rest as [|ch rest]; [done|]. cbn [app delimited] in *.
      eapply peek_char; [exact Hq|]. intros q1 Hq1. rewrite Hd. cbn [negb]. wp.
      by rewrite app_nil_r.
    + rewrite forallb_app in Hn. cbn [forallb app] in *. apply andb_true_iff in Hn as [_ Hn].
      apply andb_true_iff in Hn as [Hch _].
      eapply peek_char; [exact Hq|]. intros q1 Hq1. rewrite Hch. cbn [negb].
      eapply read_char; [exact Hq1|]. intros q2 Hq2. wp. cbn [snd]. zlist. split; [|lia].
      exists (dn ++ [ch]), rs. rewrite <- app_assoc. split_and!; [done| |done]. f_equal. count.
  - by exists [], l.
  - cbn [snd]. unfold string_rounds. zlist.
Qed.

Lemma delimited_quote rest : delimited (kJSONStringDelimiter :: rest).
Proof using. done. Qed.

(** A number's text, whatever it is cast to. *)
Lemma integer_text t l c cs p rest Q E :
  forallb isJSONNumeric l = true -> zlen l <= string_max_size -> delimited rest ->
  json_in p (c, cs) ((prefix c ++ quoted_if (escapeNum (next c)) l) ++ rest) ->
  (forall z p', lex_parse t l = Some z -> json_in p' (next c, cs) rest ->
     Q (u32 (zlen (prefix c ++ quoted_if (escapeNum (next c)) l)), z) p') ->
  (forall p', lex_parse t l = None -> E (expected_numeric l) p') ->
  runs (readJSONInteger t) p Q E.
Proof using Type.
  intros Hnum Hl Hd Hp HQ HE. rewrite <- app_assoc in Hp. unfold readJSONInteger.
  eapply passes_step; [apply passes_prefix|exact Hp|]. intros p1 Hp1. apply runs_bind, runs_gets.
  rewrite (proj1 (json_in_context _ _ _ _ Hp1)). unfold quoted_if, quoted in *.
  destruct (escapeNum (next c)) eqn:Hesc.
  - cbn [app] in Hp1. rewrite <- app_assoc in Hp1. apply runs_bind.
    eapply syntax_char; [exact Hp1|]. intros p2 Hp2. apply runs_ret. apply runs_bind.
    eapply succeeds_runs, succeeds_mono; [apply (numeric_loop l (kJSONStringDelimiter :: rest) p2 (next c, cs) Hnum
      Hl (delimited_quote rest) Hp2)|].
    cbn beta. intros r p3 [-> Hp3]. destruct (lex_parse t l) as [z|]; [|apply runs_throw; by apply HE].
    apply runs_bind, runs_gets.
    rewrite (proj1 (json_in_context _ _ _ _ Hp3)), Hesc.
    eapply syntax_char; [exact Hp3|]. intros p4 Hp4. apply runs_ret.
    match goal with |- Q (?a, _) _ => assert (a = u32 (zlen (prefix c ++ kJSONStringDelimiter :: l ++ [kJSONStringDelimiter]))) as -> by count end.
    by apply HQ.
  - apply runs_bind, runs_ret. apply runs_bind.
    eapply succeeds_runs, succeeds_mono; [apply (numeric_loop l rest p1 (next c, cs) Hnum Hl Hd Hp1)|].
    cbn beta. intros r p3 [-> Hp3]. destruct (lex_parse t l) as [z|]; [|apply runs_throw; by apply HE].
    apply runs_bind, runs_gets. rewrite (proj1 (json_in_context _ _ _ _ Hp3)), Hesc. apply runs_ret.
    match goal with |- Q (?a, _) _ => assert (a = u32 (zlen (prefix c ++ l))) as -> by count end.
    by apply HQ.
Qed.

Lemma consumes_integer t c cs z : number_in t z ->
  consumes (readJSONInteger t) (c, cs) (next c, cs) (prefix c ++ j_int (escapeNum (next c)) z) z.
Proof using Type*.
  intros Hz Hl p rest Hd Hp. destruct (decimal_spec z (number_wide t z Hz)) as (_ & Hnum & _).
  unfold j_int, quoted_if, quoted in Hl.
  assert (zlen (decimal z) <= string_max_size) as Hll by (destruct (escapeNum (next c)); zlist).
  apply (integer_text t (decimal z) c cs p rest); [done..| |]; rewrite lex_parse_decimal by done; [|done].
  intros z' p' [= <-] Hp'. done.
Qed.

Lemma numeric_plain l : forallb isJSONNumeric l = true -> Forall (fun ch => j_char ch = [ch]) l.
Proof using.
  intros Hl. apply List.Forall_forall. intros ch Hch. rewrite forallb_forall in Hl.
  specialize (Hl ch Hch). unfold isJSONNumeric in Hl. apply existsb_exists in Hl as (x & Hx & Heq).
  apply Z.eqb_eq in Heq as ->. repeat (destruct Hx as [<-|Hx]; [reflexivity|]). done.
Qed.

Lemma numeric_bytes l : forallb isJSONNumeric l = true -> bytes_ok l.
Proof using.
  intros Hl. apply List.Forall_forall. intros ch Hch. rewrite forallb_forall in Hl.
  specialize (Hl ch Hch). unfold isJSONNumeric in Hl. apply existsb_exists in Hl as (x & Hx & Heq).
  apply Z.eqb_eq in Heq as ->. unfold is_byte.
  repeat (destruct Hx as [<-|Hx]; [split; [discriminate|reflexivity]|]). done.
Qed.

(** A double in quotes, already peeked at: its name or its text. *)
Lemma read_quoted_double d val r p c cs rest :
  bytes_ok val -> zlen val <= string_max_size -> j_string val = quoted val ->
  (val = kThriftInfinity /\ d = HUGE_VAL \/ val = kThriftNegativeInfinity /\ d = minus_HUGE_VAL \/
   forallb isJSONNumeric val = true /\ lex_parse_double val = Some d /\ escapeNum c = true) ->
  json_in p (c, cs) (quoted val ++ rest) ->
  succeeds (let! '(n, str) := readJSONString true in
            let result := u32 (r + n) in
            if bool_decide (str = kThriftNan) then ret (result, huge_quotient)
            else if bool_decide (str = kThriftInfinity) then ret (result, HUGE_VAL)
            else if bool_decide (str = kThriftNegativeInfinity) then ret (result, minus_HUGE_VAL)
            else
              let! c := gets context_ in
              if negb (escapeNum c) then throw unexpectedly_quoted else cast_double result str) p
    (fun a p' => a = (u32 (r + zlen (quoted val)), d) /\ json_in p' (c, cs) rest).
Proof using Type.
  intros Hb Hl Hj Hval Hp. rewrite <- Hj in *. apply runs_bind.
  eapply runs_mono; [apply (read_string_skip (c, cs) val p rest Hb Hl Hp)| |done].
  cbn beta. intros a p1 [-> Hp1]. cbv beta iota. autorewrite with wrap.
  destruct Hval as [[-> ->]|[[-> ->]|(Hnum & Hparse & Hesc)]].
  - rewrite bool_decide_eq_false_2, bool_decide_eq_true_2 by done. by wp.
  - rewrite !bool_decide_eq_false_2, bool_decide_eq_true_2 by done. by wp.
  - rewrite !bool_decide_eq_false_2 by (intros ->; vm_compute in Hnum; done).
    apply runs_bind, runs_gets. rewrite (proj1 (json_in_context _ _ _ _ Hp1)), Hesc. cbn [negb].
    unfold cast_double. rewrite Hparse. by wp.
Qed.

Lemma consumes_double c cs d : double_ok d = true ->
  consumes readJSONDouble (c, cs) (next c, cs) (prefix c ++ j_double (escapeNum (next c)) d) d.
Proof using Type*.
  intros Hok Hl p rest Hd Hp. destruct (double_text_ok d Hok) as [_ Htext]. rewrite <- app_assoc in Hp.
  unfold readJSONDouble. eapply passes_step; [apply passes_prefix|exact Hp|]. intros p1 Hp1.
  unfold j_double, quoted_if in *.
  destruct (((double_text d).2 || escapeNum (next c))%bool) eqn:Hq.
  - eapply peek_char; [exact Hp1|]. intros p2 Hp2. rewrite Z.eqb_refl.
    unfold quoted in Hl. zlist.
    eapply runs_mono; [apply (read_quoted_double d (double_text d).1 _ p2 (next c) cs rest); [..|exact Hp2]| |done].
    + destruct Htext as [[_ ->]|[[_ ->]|(Hn & _ & -> & _)]]; [apply bytes_of_ok..|by apply numeric_bytes].
    + lia.
    + apply j_string_plain. destruct Htext as [[_ ->]|[[_ ->]|(Hn & _ & -> & _)]];
        [repeat constructor..|by apply numeric_plain].
    + destruct Htext as [[-> ->]|[[-> ->]|(Hn & _ & Ht & Hp')]]; [by left|by right; left|right; right].
      rewrite Ht in *. cbn in Hq. split_and!; done.
    + cbn beta. intros a p' [-> Hp']. split; [|exact Hp']. f_equal. unfold quoted. count.
  - apply orb_false_iff in Hq as [Hs Hesc].
    destruct Htext as [[_ Ht]|[[_ Ht]|(Hn & Hpos & Ht & Hparse)]]; rewrite Ht in *; [done..|].
    cbn [fst snd] in *. destruct (lex_show_double d) as [|ch l] eqn:Hshow; [done|].
    eapply peek_char; [exact Hp1|]. intros p2 Hp2.
    assert (ch =? kJSONStringDelimiter = false) as Hch.
    { apply (numeric_at (ch :: l) 0 kJSONStringDelimiter Hn); done. }
    rewrite Hch. apply runs_bind, runs_gets. rewrite (proj1 (json_in_context _ _ _ _ Hp2)), Hesc.
    apply runs_bind, runs_ret, runs_bind. change (ch :: l ++ rest) with ((ch :: l) ++ rest) in Hp2.
    assert (zlen (ch :: l) <= string_max_size) as Hll by zlist.
    eapply runs_mono; [apply (numeric_loop (ch :: l) rest p2 (next c, cs) Hn Hll Hd Hp2)| |done].
    cbn beta. intros a p3 [-> Hp3]. unfold cast_double. rewrite Hparse. wp. split; [|exact Hp3].
    f_equal. count.
Qed.

(** ** Base 64 *)

Lemma enc_plain i : digit i -> j_char (enc_ i) = [enc_ i].
Proof using.
  intros Hi. assert (forallb (fun i => bool_decide (j_char (enc_ i) = [enc_ i])) (map Z.of_nat (seq 0 64)) = true)
    as Hall by (by vm_compute).
  rewrite forallb_forall in Hall. apply (bool_decide_eq_true_1 _), Hall, in_map_iff. exists (Z.to_nat i).
  unfold digit in Hi. split; [lia|]. apply in_seq. lia.
Qed.

Lemma encode_group_plain g : bytes_ok g -> 0 < zlen g <= 3 ->
  Forall (fun ch => j_char ch = [ch]) (encode_group g).
Proof using.
  revert g. apply group_cases; intros; [rewrite encode_group_1|rewrite encode_group_2|rewrite encode_group_3];
    try done; repeat constructor; apply enc_plain; digits.
Qed.

Lemma encoding_plain l : bytes_ok l -> Forall (fun ch => j_char ch = [ch]) (encoding l).
Proof using.
  revert l. apply groups_ind.
  - constructor.
  - intros g Hg Hb. rewrite encoding_small by done. apply encode_group_plain; [done|lia].
  - intros g l Hg Hb Hl IH. rewrite encoding_app by done. apply Forall_app.
    split; [apply encode_group_plain; [done|lia]|done].
Qed.
(** The loop of [readJSONBase64] on [b], [len], [tmp] and [str]: what is before
    [b] has been decoded, in place, what is behind it is as it was. *)
Definition decoding_at (tmp0 : list Z) (a : Z * Z * list Z * list Z) : Prop :=
  let '(b, len, tmp, str) := a in
  0 <= b /\ 0 <= len /\ b + len = zlen tmp0 /\ zlen tmp = zlen tmp0 /\ len mod 4 = zlen tmp0 mod 4 /\
  zdrop b tmp = zdrop b tmp0 /\ str ++ decoding (zdrop b tmp0) = decoding tmp0.

Lemma inplace_length g : 2 <= zlen g <= 4 -> zlen (base64_decode_inplace g (zlen g)) = zlen g.
Proof using.
  intros Hl. destruct (inplace_decode g Hl) as [Ht Hd].
  rewrite <- (ztake_zdrop (zlen g - 1) (base64_decode_inplace g (zlen g))), Ht, Hd.
  rewrite zlen_app, zlen_zdrop. unfold base64_decode.
  assert (zlen g = 2 \/ zlen g = 3 \/ zlen g = 4) as [-> |[-> | ->]] by lia; reflexivity.
Qed.

(** Decode [n] characters at [b] in place and take the [n - 1] bytes they make. *)
Lemma decode_at {A} b n tmp p (k : list Z -> list Z -> M P A) Q E :
  2 <= n <= 4 -> 0 <= b -> b + n <= zlen tmp ->
  (forall tmp', zlen tmp' = zlen tmp -> zdrop (b + n) tmp' = zdrop (b + n) tmp ->
     runs (k tmp' (decode_group (ztake n (zdrop b tmp)))) p Q E) ->
  runs (let! d := load_mem tmp b n in let! tmp := store_mem tmp b (base64_decode_inplace d n) in
        let! d := load_mem tmp b (n - 1) in k tmp d) p Q E.
Proof using Type.
  intros Hn Hb Hl Hk. apply runs_bind, runs_load_mem; [lia..|].
  assert (zslice b (b + n) tmp = ztake n (zdrop b tmp)) as -> by (unfold zslice; f_equal; lia).
  set (g := ztake n (zdrop b tmp)) in *.
  assert (zlen g = n) as Hg by (unfold g; rewrite zlen_ztake, zlen_zdrop; lia).
  pose proof (inplace_length g ltac:(lia)) as Hil. destruct (inplace_decode g ltac:(lia)) as [Ht _].
  rewrite Hg in *. set (d := base64_decode_inplace g n) in *. clearbody d.
  apply runs_bind, runs_store_mem; [lia..|]. apply runs_bind, runs_load_mem;
    rewrite ?zlen_zsplice by lia; [lia..|].
  assert (zslice b (b + (n - 1)) (zsplice b d tmp) = decode_group g) as ->.
  { rewrite <- (zslice_prefix b (b + n)) by lia. replace (b + n) with (b + zlen d) by lia.
    rewrite zslice_zsplice_at by lia. rewrite Ht. unfold decode_group. by rewrite Hg. }
  apply Hk.
  - apply zlen_zsplice; lia.
  - unfold zsplice. rewrite app_assoc. rewrite zdrop_app by (rewrite zlen_app, zlen_ztake; lia).
    by rewrite Hil.
Qed.

Lemma decode_body_spec tmp0 a p :
  zlen tmp0 < 2 ^ 32 -> decoding_at tmp0 a ->
  runs (decode_body a) p (fun r p' => p' = p /\ match r with
    | inl a' => decoding_at tmp0 a' /\ 0 <= a'.1.1.2 < a.1.1.2
    | inr a' => decoding_at tmp0 a' /\ a'.1.1.2 < 4
    end) (fun _ _ => False).
Proof using Type.
  destruct a as [[[b len] tmp] str]. intros Hl (Hb & Hlen & Hsum & Hz & Hmod & Hdrop & Hstr).
  unfold decode_body. cbn [fst snd]. bif; [|by wp; split_and!].
  apply (decode_at b 4); [lia..|]. intros tmp' Hl' Hd'. wp. cbn [fst snd].
  rewrite (wrapu_small 32 (len - 4)) by (unfold in_u; lia). split; [done|]. split; [|lia].
  rewrite Hdrop. split_and!; try lia.
  - rewrite <- Hmod. replace (len - 4) with (len + -1 * 4) by lia. apply Z_mod_plus_full.
  - rewrite Hd'. rewrite Z.add_comm, <- !zdrop_zdrop by lia. by rewrite Hdrop.
  - rewrite <- Hstr, <- app_assoc. f_equal. rewrite Z.add_comm, <- zdrop_zdrop by lia.
    rewrite <- decoding_app by (rewrite zlen_ztake, zlen_zdrop; lia). by rewrite ztake_zdrop.
Qed.

Lemma encoding_size s : bytes_ok s -> zlen s < 2 ^ 31 -> zlen (encoding s) < 2 ^ 32.
Proof using.
  intros Hs Hlen. pose proof (zlen_nonneg s). rewrite encoding_length by done.
  pose proof (Z.mod_pos_bound (zlen s) 3 ltac:(lia)) as Hm.
  assert (at_ [0; 2; 3] (zlen s mod 3) <= 3); [|dlia].
  assert (zlen s mod 3 = 0 \/ zlen s mod 3 = 1 \/ zlen s mod 3 = 2) as [-> |[-> | ->]] by lia; done.
Qed.

(** The last group, of two or three characters, if there is one. *)
Lemma decode_rest s b len tmp str (r : Z) p :
  bytes_ok s -> zlen (encoding s) < 2 ^ 32 -> decoding_at (encoding s) (b, len, tmp, str) -> len < 4 ->
  succeeds (if 1 <? len then
              let! d := load_mem tmp b len in
              let! tmp := store_mem tmp b (base64_decode_inplace d len) in
              let! d := load_mem tmp b (u32 (len - 1)) in
              ret (r, str ++ d)
            else ret (r, str)) p (fun (a : Z * list Z) p' => a = (r, s) /\ p' = p).
Proof using Type.
  intros Hs Hsz (Hb0 & Hlen0 & Hsum & Hz & Hmod & Hdrop & Hstr) Hl4.
  rewrite decoding_encoding in Hstr by done. pose proof (encoding_accepted s Hs) as Hacc.
  rewrite <- Hmod, Z.mod_small in Hacc by lia. bif.
  - rewrite (wrapu_small 32 (len - 1)) by (unfold in_u; lia).
    apply (decode_at b len); [lia..|]. intros tmp' _ _. rewrite Hdrop, ztake_ge by (rewrite zlen_zdrop; lia).
    wp. split; [|done]. f_equal.
    unfold decoding in Hstr. rewrite (by_groups_small 4) in Hstr by (rewrite zlen_zdrop; lia).
    by replace (0 <? zlen (zdrop b (encoding s))) with true in Hstr by (rewrite zlen_zdrop; lia).
  - wp. split; [|done]. f_equal. by rewrite zdrop_ge, app_nil_r in Hstr by lia.
Qed.

Lemma consumes_base64 c cs s : bytes_ok s -> zlen s < 2 ^ 31 ->
  consumes readJSONBase64 (c, cs) (next c, cs) (prefix c ++ j_base64 s) s.
Proof using Type.
  intros Hs Hlen Hl p rest _ Hp. rewrite <- app_assoc in Hp. unfold j_base64 in *.
  assert (bytes_ok (encoding s)) as Hb.
  { eapply Forall_impl; [by apply encoding_ascii|]. cbn. unfold is_byte. lia. }
  rewrite <- (j_string_plain _ (encoding_plain s Hs)) in *.
  pose proof (j_string_longer (encoding s)). pose proof (encoding_size s Hs Hlen) as Hsz. zlist.
  unfold readJSONBase64. apply runs_bind.
  eapply runs_mono; [apply (read_string c cs (encoding s) p rest Hb); [lia|exact Hp]| |done].
  cbn beta. intros r p1 [-> Hp1]. cbv beta iota.
  replace (2 ^ 32 - 1 <? zlen (encoding s)) with false by lia.
  rewrite (wrapu_small 32 (zlen (encoding s))) by (unfold in_u; lia).
  apply runs_bind. eapply runs_mono; [apply (runs_iterate
    (fun a p' => p' = p1 /\ decoding_at (encoding s) a) (fun a => a.1.1.2) decode_body
    (fun a p' => p' = p1 /\ decoding_at (encoding s) a /\ a.1.1.2 < 4) (fun _ _ => False))| |done].
  - intros a q [-> Ha]. eapply runs_mono; [by apply decode_body_spec| |done].
    cbn beta. intros [a'|a'] q [-> Hq]; [|done]. by destruct Hq.
  - split; [done|]. cbn. split_and!; lia || reflexivity.
  - cbn [fst snd]. lia.
  - intros [[[b len] tmp] str] q (-> & Ha & Hl4).
    eapply runs_mono; [apply (decode_rest s b len tmp str _ p1 Hs Hsz Ha Hl4)| |done].
    cbn beta. intros a q [-> ->]. split; [|exact Hp1]. f_equal. count.
Qed.

(** ** Headers *)

(** A type's name gives the type back. *)
Lemma read_type {A} t (k : Z -> M P A) p Q E :
  In t value_types -> runs (k t) p Q E ->
  runs (let! t := getTypeIDForTypeName (bytes_of (default "" (type_name t))) in k t) p Q E.
Proof using.
  intros Ht Hk. repeat (destruct Ht as [<-|Ht]; [exact Hk|]). done.
Qed.

Lemma consumes_type c cs t :
  consumes (readJSONString false) (c, cs) (next c, cs) (prefix c ++ j_type t)
    (bytes_of (default "" (type_name t))).
Proof using Type. apply consumes_string, bytes_of_ok. Qed.

(** The next read, by the lemma [L] on the hypothesis [Hp]. *)
Tactic Notation "pass" uconstr(L) hyp(Hp) :=
  eapply passes_step; [eapply L|exact Hp|clear Hp; intros ? Hp].
Tactic Notation "consume" uconstr(L) hyp(Hp) :=
  eapply consumes_step; [eapply L| |exact Hp| |]; [cbn [prefix next escapeNum]; zlist|try done|clear Hp; intros ? Hp].

Lemma field_not_stop c t id rest : next c = at_value ->
  exists ch l, (prefix c ++ j_field t id) ++ rest = ch :: l /\ ch =? kJSONObjectEnd = false.
Proof using.
  intros Hc. destruct c as [|[] []|[]]; try done; cbn; eexists _, _; split; reflexivity.
Qed.

Lemma consumes_field c cs t id : next c = at_value -> In t value_types -> 0 <= id < 2 ^ 15 ->
  consumes readFieldBegin (c, cs) (at_value, at_member :: cs) (prefix c ++ j_field t id) (t, id).
Proof using Type*.
  intros Hc Ht Hid Hl p rest Hd Hp.
  destruct (field_not_stop c t id rest Hc) as (ch & l & Heq & Hch).
  unfold readFieldBegin. rewrite Heq in Hp. eapply peek_char; [exact Hp|]. intros p1 Hp1.
  rewrite Hch. rewrite <- Heq in Hp1. clear Hp Heq Hch ch l.
  assert (json_in p1 (c, cs) ((prefix c ++ j_int true id) ++ (prefix at_value ++ [kJSONObjectStart]) ++
    (prefix (JSONPairContext true true) ++ j_type t) ++ rest)) as Hp
    by regroup Hp1.
  unfold j_field in *. assert (number_in NU64 id) as Hn by (cbn; unfold in_u; lia).
  pose proof (consumes_integer NU64 c cs id Hn) as Hint. rewrite Hc in Hint. cbn [escapeNum] in Hint.
  zlist. consume Hint Hp. replace (2 ^ 15 - 1 <? id) with false by lia.
  pass (passes_object at_value) Hp. consume consumes_type Hp.
  apply read_type; [done|]. wp. split; [|exact Hp].
  rewrite (wraps_small 16 id) by (unfold in_s; lia). f_equal. cbn [prefix]. count.
Qed.
(** At the end of an object there is no field. *)
Lemma reads_stop p C rest :
  json_in p C (kJSONObjectEnd :: rest) ->
  succeeds readFieldBegin p (fun r p' => r = (0, (T_STOP, 0)) /\ json_in p' C (kJSONObjectEnd :: rest)).
Proof using Type.
  intros Hp. unfold readFieldBegin. eapply peek_char; [exact Hp|]. intros p1 Hp1.
  rewrite Z.eqb_refl. by wp.
Qed.

Lemma consumes_coll (m : M P (Z * (Z * Z))) c cs t n :
  m = (let! result := readJSONArrayStart in
       let! '(n, tmpStr) := readJSONString false in
       let result := u32 (result + n) in
       let! elemType := getTypeIDForTypeName tmpStr in
       let! '(n, tmpVal) := readJSONInteger NU64 in
       let result := u32 (result + n) in
       if 2 ^ 32 - 1 <? tmpVal then throw size_limit else
       ret (result, (elemType, u32 tmpVal))) ->
  In t value_types -> 0 <= n < 2 ^ 31 ->
  consumes m (c, cs) (at_element, next c :: cs) (prefix c ++ j_coll t n) (t, n).
Proof using Type*.
  intros -> Ht Hn Hl p rest Hd Hp1.
  assert (json_in p (c, cs) ((prefix c ++ [kJSONArrayStart]) ++ (prefix (JSONListContext true) ++ j_type t) ++
    (prefix at_element ++ j_int (escapeNum (next at_element)) n) ++ rest)) as Hp
    by regroup Hp1.
  unfold j_coll in Hl. assert (number_in NU64 n) as Hnum by (cbn; unfold in_u; lia). zlist.
  pass passes_array Hp. consume consumes_type Hp. apply read_type; [done|].
  consume (consumes_integer NU64 at_element _ n Hnum) Hp.
  replace (2 ^ 32 - 1 <? n) with false by lia. wp. split; [|exact Hp].
  rewrite (wrapu_small 32 n) by (unfold in_u; lia). f_equal. cbn [prefix next escapeNum]. unfold j_coll. count.
Qed.

Lemma consumes_map c cs kt vt n :
  In kt value_types -> In vt value_types -> 0 <= n < 2 ^ 31 ->
  consumes readMapBegin (c, cs) (JSONPairContext true true, at_element :: next c :: cs)
    (prefix c ++ j_map kt vt n) (kt, vt, n).
Proof using Type*.
  intros Hkt Hvt Hn Hl p rest Hd Hp1.
  assert (json_in p (c, cs) ((prefix c ++ [kJSONArrayStart]) ++ (prefix (JSONListContext true) ++ j_type kt) ++
    (prefix at_element ++ j_type vt) ++ (prefix at_element ++ j_int (escapeNum (next at_element)) n) ++
    (prefix at_element ++ [kJSONObjectStart]) ++ rest)) as Hp
    by regroup Hp1.
  unfold j_map in Hl. assert (number_in NU64 n) as Hnum by (cbn; unfold in_u; lia). zlist.
  unfold readMapBegin.
  pass passes_array Hp. consume consumes_type Hp. apply read_type; [done|].
  consume consumes_type Hp. apply read_type; [done|].
  consume (consumes_integer NU64 at_element _ n Hnum) Hp.
  replace (2 ^ 32 - 1 <? n) with false by lia.
  pass (passes_object at_element) Hp. wp. split; [|exact Hp].
  rewrite (wrapu_small 32 n) by (unfold in_u; lia). f_equal. cbn [prefix next escapeNum]. unfold j_map. count.
Qed.

(** The header of a message with non-negative type and sequence id. *)
Lemma consumes_message_begin c cs name messageType seqid :
  bytes_ok name -> in_u 32 messageType -> 0 <= seqid < 2 ^ 31 ->
  consumes readMessageBegin (c, cs) (at_element, next c :: cs)
    (prefix c ++ j_header name messageType seqid) (name, messageType, seqid).
Proof using Type*.
  intros Hname Htype Hseq Hl p rest Hd Hp1.
  assert (json_in p (c, cs) ((prefix c ++ [kJSONArrayStart]) ++
    (prefix (JSONListContext true) ++ j_int (escapeNum (next (JSONListContext true))) kThriftVersion1) ++
    (prefix at_element ++ j_string name) ++ (prefix at_element ++ j_int (escapeNum (next at_element)) messageType) ++
    (prefix at_element ++ j_int (escapeNum (next at_element)) seqid) ++ rest)) as Hp
    by regroup Hp1.
  assert (number_in NU64 kThriftVersion1) as Hver by done.
  assert (number_in NU64 messageType) as Hmt by (cbn; unfold in_u in *; lia).
  assert (number_in NU64 seqid) as Hsq by (cbn; unfold in_u in *; lia).
  unfold j_header in Hl. zlist. unfold readMessageBegin.
  pass passes_array Hp. consume (consumes_integer NU64 (JSONListContext true) _ _ Hver) Hp.
  rewrite Z.eqb_refl. cbn [negb]. consume (consumes_string at_element _ name Hname) Hp.
  consume (consumes_integer NU64 at_element _ _ Hmt) Hp.
  consume (consumes_integer NU64 at_element _ _ Hsq) Hp.
  replace (2 ^ 31 - 1 <? seqid) with false by lia. wp. split; [|exact Hp].
  rewrite (wrapu_small 32 messageType), (wraps_small 32 seqid) by (unfold in_s, in_u in *; lia).
  f_equal. cbn [prefix next escapeNum]. unfold j_header. count.
Qed.
End Reader.
