(* ===== verification/JsonValues.v ===== *)
(** * Reading values from JSON

    [read_value] on the text of a value gives the value back and leaves what
    follows it; the members of an object and of a list one at a time. *)

From S2P Require Export JsonReader.

Section Values.
Context `{CxxLibrary} `{!CxxLibraryLaws} {T : Type} `{ReadLaws T} (lim : limits).
Abbreviation P := (TJSONProtocol T).
Implicit Types (p : P) (c : TJSONContext) (cs : list TJSONContext).

(** ** Members of a container *)

(** The members [l] of a container, the first one read in a context of [G], the
    others in [c1]; [e] is the text of one, [es] of several, [tail] follows. *)
Section Members.
Context {X A : Type} (G : TJSONContext -> Prop) (c1 : TJSONContext) (cs : list TJSONContext).
Context (e : TJSONContext -> X -> list Z) (es : TJSONContext -> list X -> list Z).
Context (val : X -> A) (tail : list Z).
Context (HG : G c1) (Hnil : forall c, es c [] = []).
Context (Hcons : forall c x l, es c (x :: l) = e c x ++ es c1 l).
Context (Hdel : forall l, delimited (es c1 l ++ tail)).

(** What is left after [l1] of the members [l]. *)
Definition members_left (l : list X) (c0 : TJSONContext) (n : Z) (l1 : list X) (acc : Z * list A) (p : P) : Prop :=
  exists l2 c, l = l1 ++ l2 /\ G c /\ zlen (es c l2) <= string_max_size /\ acc.2 = map val l1 /\
    u32 (acc.1 + zlen (es c l2)) = u32 (n + zlen (es c0 l)) /\ json_in p (c, cs) (es c l2 ++ tail).

Lemma members_start l c0 n p :
  G c0 -> zlen (es c0 l) <= string_max_size -> json_in p (c0, cs) (es c0 l ++ tail) ->
  members_left l c0 n [] (n, []) p.
Proof using Type. intros. by exists l, c0. Qed.

(** A step that reads one member goes on to the next. *)
Lemma members_step l c0 n x l1 l2 c acc acc' p p' :
  l = l1 ++ x :: l2 -> zlen (es c (x :: l2)) <= string_max_size -> acc.2 = map val l1 ->
  u32 (acc.1 + zlen (es c (x :: l2))) = u32 (n + zlen (es c0 l)) ->
  u32 acc'.1 = u32 (acc.1 + zlen (e c x)) -> acc'.2 = acc.2 ++ [val x] ->
  json_in p' (c1, cs) (es c1 l2 ++ tail) ->
  members_left l c0 n (l1 ++ [x]) acc' p'.
Proof using HG Hcons.
  intros -> Hz Ha Hn Ha1 Ha2 Hp. rewrite Hcons, zlen_app in *. pose proof (zlen_nonneg (e c x)).
  exists l2, c1. split_and!; [by rewrite <- app_assoc|done|lia|by rewrite Ha2, Ha, map_app| |done].
  rewrite <- Hn, Z.add_assoc. by apply u32_add_cong.
Qed.

Lemma for_members (step : Z * list A -> M P (Z * list A)) l :
  (forall x c acc p rest, In x l -> G c -> delimited rest -> zlen (e c x) <= string_max_size ->
     json_in p (c, cs) (e c x ++ rest) ->
     succeeds (step acc) p (fun r p' =>
       r = (u32 (acc.1 + zlen (e c x)), acc.2 ++ [val x]) /\ json_in p' (c1, cs) rest)) ->
  forall c0 p n, G c0 -> zlen (es c0 l) <= string_max_size -> json_in p (c0, cs) (es c0 l ++ tail) ->
  succeeds (for_ (zlen l) step (n, [])) p (fun r p' =>
    u32 r.1 = u32 (n + zlen (es c0 l)) /\ r.2 = map val l /\ exists c', json_in p' (c', cs) tail).
Proof using HG Hnil Hcons Hdel.
  intros Hstep c0 p n Hc0 Hz Hp.
  eapply runs_mono; [apply (runs_for (fun i acc p' => exists l1, zlen l1 = i /\ members_left l c0 n l1 acc p')
    (fun _ _ => False))| |done].
  - apply zlen_nonneg.
  - exists []. split; [done|by apply members_start].
  - intros i acc p1 Hi (l1 & Hl1 & l2 & c & Hl & Hc & Hz2 & Ha & Hn & Hp1).
    destruct l2 as [|x l2]; [rewrite Hl, app_nil_r in Hi; lia|].
    rewrite Hcons in Hp1. rewrite <- app_assoc in Hp1.
    assert (zlen (e c x) <= string_max_size) as Hx.
    { rewrite Hcons, zlen_app in Hz2. pose proof (zlen_nonneg (es c1 l2)). lia. }
    eapply runs_mono; [apply (Hstep x c acc p1 _ ltac:(rewrite Hl; apply in_or_app; right; by left) Hc (Hdel l2) Hx Hp1)| |done].
    cbn beta. intros r p2 [-> Hp2]. exists (l1 ++ [x]). split; [zlist|].
    eapply members_step; try done. cbn [fst]. by rewrite u32_u32.
  - cbn beta. intros r p1 (l1 & Hl1 & l2 & c & Hl & Hc & Hz2 & Ha & Hn & Hp1).
    assert (l2 = []) as ->. { apply zlen_0. rewrite Hl, zlen_app in Hl1. lia. }
    rewrite Hnil in *. rewrite app_nil_r in Hl. subst l1. rewrite zlen_nil, Z.add_0_r in Hn. eauto.
Qed.

(** The same of a loop that stops where [tail] begins. *)
Lemma loop_members fuel (body : Z * list A -> M P (Z * list A + Z * list A)) l :
  zlen l < fuel ->
  (forall acc c p, json_in p (c, cs) tail -> succeeds (body acc) p (fun r p' =>
     exists k, r = inr (k, acc.2) /\ u32 k = u32 acc.1 /\ json_in p' (c, cs) tail)) ->
  (forall x c acc p rest, In x l -> G c -> delimited rest -> zlen (e c x) <= string_max_size ->
     json_in p (c, cs) (e c x ++ rest) ->
     succeeds (body acc) p (fun r p' => exists k,
       r = inl (k, acc.2 ++ [val x]) /\ u32 k = u32 (acc.1 + zlen (e c x)) /\ json_in p' (c1, cs) rest)) ->
  forall c0 p n, G c0 -> zlen (es c0 l) <= string_max_size -> json_in p (c0, cs) (es c0 l ++ tail) ->
  succeeds (iterate fuel body (n, [])) p (fun r p' =>
    u32 r.1 = u32 (n + zlen (es c0 l)) /\ r.2 = map val l /\ exists c', json_in p' (c', cs) tail).
Proof using HG Hnil Hcons Hdel.
  intros Hfuel Hstop Hstep c0 p n Hc0 Hz Hp.
  apply (runs_iterate (fun acc p' => exists l1, members_left l c0 n l1 acc p') (fun acc => zlen l - zlen acc.2));
    [|exists []; by apply members_start|cbn; zlist].
  intros acc p1 (l1 & l2 & c & Hl & Hc & Hz2 & Ha & Hn & Hp1).
  destruct l2 as [|x l2].
  - rewrite Hnil in *. rewrite app_nil_r in Hl. subst l1. rewrite zlen_nil, Z.add_0_r in Hn.
    eapply runs_mono; [apply (Hstop acc c p1 Hp1)| |done]. cbn beta. intros r p2 (k & -> & Hk & Hp2).
    cbn [fst snd]. rewrite Hk. eauto.
  - rewrite Hcons in Hp1. rewrite <- app_assoc in Hp1.
    assert (zlen (e c x) <= string_max_size) as Hx.
    { rewrite Hcons, zlen_app in Hz2. pose proof (zlen_nonneg (es c1 l2)). lia. }
    eapply runs_mono; [apply (Hstep x c acc p1 _ ltac:(rewrite Hl; apply in_or_app; right; by left) Hc (Hdel l2) Hx Hp1)| |done].
    cbn beta. intros r p2 (k & -> & Hk & Hp2). split.
    + exists (l1 ++ [x]). by eapply members_step.
    + cbn [snd]. rewrite Ha, Hl. unfold zlen. rewrite !length_app, !length_map. cbn [length]. lia.
Qed.
End Members.
(** ** Values *)

Section Containers.
Context (depth : nat) (fuel : Z).

(** [v] is read back, in any context. *)
Definition value_reads (v : tval) : Prop := forall c cs,
  consumes (read_value depth fuel (type_of v)) (c, cs) (next c, cs)
    (prefix c ++ j_value (escapeNum (next c)) v) v.

Definition fits (n : nat) : Prop := (n <= depth)%nat /\ Z.of_nat n < fuel.

Definition reads_ih (v : tval) : Prop :=
  wf lim v = true -> json_ok v = true -> fits (vsize v) -> value_reads v.

Lemma fits_in {A} (f : A -> nat) x l :
  In x l -> fits (sumnat (map (fun y => S (f y)) l)) -> fits (f x).
Proof using Type.
  intros Hx [Hd Hf]. pose proof (sumnat_in _ _ (in_map (fun y => S (f y)) _ _ Hx)). split; lia.
Qed.

Lemma fits_le n m : fits n -> (m <= n)%nat -> fits m.
Proof using Type. intros [? ?] ?. split; lia. Qed.

Lemma read_member c cs f acc p rest :
  next c = at_value -> In (type_of f.2) value_types -> 0 <= f.1 < 2 ^ 15 -> value_reads f.2 ->
  delimited rest ->
  let e := prefix c ++ j_field (type_of f.2) f.1 ++ kJSONPairSeparator :: j_value false f.2 ++ [kJSONObjectEnd] in
  zlen e <= string_max_size -> json_in p (c, cs) (e ++ rest) ->
  succeeds (read_field (read_value depth fuel) acc) p (fun r p' => exists k,
    r = inl (k, acc.2 ++ [f]) /\ u32 k = u32 (acc.1 + zlen e) /\ json_in p' (at_member, cs) rest).
Proof using Type*.
  intros Hc Ht Hid Hv Hd e Hl Hp. unfold e in *. clear e. destruct acc as [n fs]. unfold read_field.
  assert (json_in p (c, cs) ((prefix c ++ j_field (type_of f.2) f.1) ++
    (prefix at_value ++ j_value (escapeNum (next at_value)) f.2) ++ [kJSONObjectEnd] ++ rest)) as Hp1
    by regroup Hp.
  zlist. eapply consumes_step; [by apply consumes_field|zlist|exact Hp1|done|].
  intros p1 Hp2. cbv beta iota. rewrite value_type_not_stop by done.
  eapply consumes_step; [apply (Hv at_value)|cbn [prefix next escapeNum negb]; zlist|exact Hp2|done|].
  intros p2 Hp3. cbv beta iota.
  eapply passes_step; [apply passes_object_end|exact Hp3|]. intros p3 Hp4. wp.
  eexists. split_and!; [by destruct f| |exact Hp4]. cbn [fst prefix next escapeNum negb]. count.
Qed.

Lemma read_member_entry c cs kt vt x acc p rest :
  next c = at_value -> type_of x.1 = kt -> type_of x.2 = vt -> value_reads x.1 -> value_reads x.2 ->
  delimited rest ->
  let e := prefix c ++ j_value true x.1 ++ kJSONPairSeparator :: j_value false x.2 in
  zlen e <= string_max_size -> json_in p (c, cs) (e ++ rest) ->
  succeeds (read_entry (read_value depth fuel) kt vt acc) p (fun r p' =>
    r = (u32 (acc.1 + zlen e), acc.2 ++ [x]) /\ json_in p' (at_member, cs) rest).
Proof using Type*.
  intros Hc <- <- Hk Hv Hd e Hl Hp. unfold e in *. clear e. unfold read_entry.
  pose proof (Hk c cs) as Hkey. rewrite Hc in Hkey. cbn [escapeNum] in Hkey.
  assert (json_in p (c, cs) ((prefix c ++ j_value true x.1) ++
    (prefix at_value ++ j_value (escapeNum (next at_value)) x.2) ++ rest)) as Hp1 by regroup Hp.
  zlist. eapply consumes_step; [exact Hkey|zlist|exact Hp1|done|]. intros p1 Hp2. cbv beta iota.
  eapply consumes_step; [apply (Hv at_value)|cbn [prefix next escapeNum negb]; zlist|exact Hp2|done|].
  intros p2 Hp3. wp. split; [|exact Hp3]. destruct x. cbn [fst snd]. f_equal.
  cbn [fst prefix next escapeNum negb]. count.
Qed.

Lemma read_member_elem cs t x acc p rest :
  type_of x = t -> value_reads x -> delimited rest ->
  zlen (kJSONElemSeparator :: j_value false x) <= string_max_size ->
  json_in p (at_element, cs) ((kJSONElemSeparator :: j_value false x) ++ rest) ->
  succeeds (read_elem (read_value depth fuel) t acc) p (fun r p' =>
    r = (u32 (acc.1 + zlen (kJSONElemSeparator :: j_value false x)), acc.2 ++ [x]) /\
    json_in p' (at_element, cs) rest).
Proof using Type*.
  intros <- Hv Hd Hl Hp. unfold read_elem.
  eapply consumes_step; [apply (Hv at_element)|exact Hl|exact Hp|done|]. intros p1 Hp1. wp.
  split; [|exact Hp1]. f_equal. cbn [prefix next escapeNum app]. count.
Qed.
(** A key never begins like a number. *)
Lemma key_delimited v rest : wf lim v = true -> delimited (j_value true v ++ rest).
Proof using Type.
  intros Hv. destruct v; try done. cbn [j_value]. unfold j_double. by rewrite orb_true_r.
Qed.

Lemma passes_map_end c c1 c2 cs :
  passes readMapEnd (c, c1 :: c2 :: cs) (c2, cs) [kJSONObjectEnd; kJSONArrayEnd].
Proof using Type.
  intros p rest Hp. unfold readMapEnd.
  eapply passes_step; [apply (passes_object_end c c1)|exact Hp|]. intros p1 Hp1.
  eapply passes_step; [apply (passes_array_end c1 c2)|exact Hp1|]. intros p2 Hp2. wp.
  split; [|exact Hp2]. count.
Qed.

Lemma struct_reads fs :
  Forall (fun f => reads_ih f.2) fs -> wf lim (VStruct fs) = true -> json_ok (VStruct fs) = true ->
  fits (sumnat (map (fun f => S (vsize f.2)) fs)) ->
  forall c cs, consumes
    (let! '(n, _) := p_readStructBegin in
     let! '(result, fs) := iterate fuel (read_field (read_value depth fuel)) (n, []) in
     let! n := p_readStructEnd in ret (u32 (result + n), VStruct fs))
    (c, cs) (next c, cs) (prefix c ++ j_value (escapeNum (next c)) (VStruct fs)) (VStruct fs).
Proof using Type*.
  intros IH Hwf Hok Hfit c cs Hl p rest Hd Hp0. cbn [wf json_ok j_value] in *.
  assert (json_in p (c, cs) ((prefix c ++ [kJSONObjectStart]) ++
    j_fields j_value (JSONPairContext true true) fs ++ kJSONObjectEnd :: rest)) as Hp by regroup Hp0.
  zlist. cbn [p_readStructBegin TJSONProtocol_protocol]. unfold readStructBegin.
  apply runs_bind. eapply passes_step; [apply passes_object|exact Hp|]. intros p1 Hp1. apply runs_ret.
  pose proof (sumnat_map_le (fun f : Z * tval => vsize f.2) fs) as Hlen. destruct Hfit as [Hdep Hfuel].
  apply runs_bind. eapply runs_mono; [apply (loop_members (fun c => next c = at_value) at_member (next c :: cs)
      (fun c f => prefix c ++ j_field (type_of f.2) f.1 ++ kJSONPairSeparator :: j_value false f.2 ++ [kJSONObjectEnd])
      (j_fields j_value) (fun f => f) (kJSONObjectEnd :: rest)) with (l := fs)
      (c0 := JSONPairContext true true); [..|exact Hp1]| |done]; try done.
  - intros c' f l. cbn [j_fields]. rewrite <- !app_assoc. cbn [app]. by rewrite <- app_assoc.
  - by intros [|f l].
  - unfold zlen. lia.
  - intros [k ys] c' q Hq. unfold read_field. apply runs_bind.
    eapply runs_mono; [by apply reads_stop| |done]. cbn beta. intros r q1 [-> Hq1]. cbn. wp.
    eexists. split_and!; [done| |exact Hq1]. count.
  - intros f c' acc q rest' Hf Hc' Hd' Hz Hq. rewrite List.Forall_forall, forallb_forall in *.
    specialize (Hwf f Hf). specialize (Hok f Hf). breflect.
    pose proof (fits_in (fun f : Z * tval => vsize f.2) f fs Hf (conj Hdep Hfuel)).
    apply (read_member c' (next c :: cs) f acc q rest'); try done; [by eapply wf_value_type| |by apply IH].
    match goal with H : in_sb 16 _ = true |- _ => apply in_sb_true in H; unfold in_s in H end. lia.
  - lia.
  - cbn beta. intros [k ys] q (Hk & Hys & c' & Hq). cbn [fst snd] in *. rewrite map_id in Hys. subst ys.
    eapply passes_step; [apply (passes_object_end c' (next c) cs)|exact Hq|]. intros q1 Hq1. wp.
    split; [|exact Hq1]. f_equal. rewrite (u32_add_cong k _ _ _ Hk eq_refl). count.
Qed.

Lemma map_reads kt vt es :
  Forall (fun e => reads_ih e.1 /\ reads_ih e.2) es -> wf lim (VMap kt vt es) = true ->
  json_ok (VMap kt vt es) = true -> fits (sumnat (map (fun e => S (vsize e.1 + vsize e.2)) es)) ->
  forall c cs, consumes
    (let! '(n, (kt, vt, size)) := p_readMapBegin in
     let! '(result, es) := for_ size (read_entry (read_value depth fuel) kt vt) (n, []) in
     let! n := p_readMapEnd in ret (u32 (result + n), VMap kt vt es))
    (c, cs) (next c, cs) (prefix c ++ j_value (escapeNum (next c)) (VMap kt vt es)) (VMap kt vt es).
Proof using Type*.
  intros IH Hwf Hok Hfit c cs Hl p rest Hd Hp0. cbn [wf json_ok j_value] in *. breflect.
  match goal with H : count_ok _ _ = true |- _ => apply count_ok_true in H as [Hn _] end.
  assert (json_in p (c, cs) ((prefix c ++ j_map kt vt (zlen es)) ++
    j_entries j_value (JSONPairContext true true) es ++ kJSONObjectEnd :: kJSONArrayEnd :: rest)) as Hp by regroup Hp0.
  zlist.
  eapply consumes_step; [apply (consumes_map c cs kt vt (zlen es)); auto with thrift; lia|zlist|exact Hp| |].
  { destruct es as [|e es]; [done|]. cbn [forallb] in *. breflect. cbn [j_entries prefix app].
    rewrite <- app_assoc. by apply key_delimited. }
  intros p1 Hp1. cbv beta iota. apply runs_bind.
  eapply runs_mono; [apply (for_members (fun c => next c = at_value) at_member (at_element :: next c :: cs)
      (fun c e => prefix c ++ j_value true e.1 ++ kJSONPairSeparator :: j_value false e.2)
      (j_entries j_value) (fun e => e) (kJSONObjectEnd :: kJSONArrayEnd :: rest)) with (l := es)
      (c0 := JSONPairContext true true); [..|exact Hp1]| |done]; try done.
  - intros c' e l. cbn [j_entries]. by rewrite <- !app_assoc.
  - by intros [|e l].
  - intros e c' acc q rest' He Hc' Hd' Hz Hq. rewrite List.Forall_forall, !forallb_forall in *.
    match goal with H1 : forall x, In x es -> _ = true, H2 : forall x, In x es -> _ = true |- _ =>
      specialize (H1 e He); specialize (H2 e He) end.
    breflect. destruct (IH e He) as [IH1 IH2].
    pose proof (fits_in (fun e : tval * tval => (vsize e.1 + vsize e.2)%nat) e es He Hfit) as Hfe.
    apply (read_member_entry c' _ kt vt e acc q rest'); try done;
      [apply IH1|apply IH2]; try done; eapply fits_le; [exact Hfe|lia|exact Hfe|lia].
  - lia.
  - cbn beta. intros [k ys] q (Hk & Hys & c' & Hq). cbn [fst snd] in *. rewrite map_id in Hys. subst ys.
    eapply passes_step; [apply (passes_map_end c' at_element (next c) cs)|exact Hq|]. intros q1 Hq1. wp.
    split; [|exact Hq1]. f_equal. rewrite (u32_add_cong k _ _ _ Hk eq_refl). count.
Qed.

Definition j_elements (c : TJSONContext) (l : list tval) : list Z :=
  concat (map (fun x => kJSONElemSeparator :: j_value false x) l).

Lemma coll_reads (f : Z -> list tval -> tval) t l (m : M P (Z * (Z * Z))) (e : M P Z) c cs :
  (In t value_types -> 0 <= zlen l < 2 ^ 31 ->
   consumes m (c, cs) (at_element, next c :: cs) (prefix c ++ j_coll t (zlen l)) (t, zlen l)) ->
  (forall c', passes e (c', next c :: cs) (next c, cs) [kJSONArrayEnd]) ->
  Forall reads_ih l ->
  (is_value_type t && count_ok lim (zlen l) &&
   forallb (fun e => (type_of e =? t) && wf lim e) l)%bool = true -> forallb json_ok l = true ->
  fits (sumnat (map (fun e => S (vsize e)) l)) ->
  consumes
    (let! '(n, (t, size)) := m in
     let! '(result, l) := for_ size (read_elem (read_value depth fuel) t) (n, []) in
     let! n := e in ret (u32 (result + n), f t l))
    (c, cs) (next c, cs)
    (prefix c ++ j_coll t (zlen l) ++
     concat (map (fun x => kJSONElemSeparator :: j_value false x) l) ++ [kJSONArrayEnd]) (f t l).
Proof using Type*.
  intros Hm He IH Hwf Hok Hfit Hl p rest Hd Hp0. breflect.
  match goal with H : count_ok _ _ = true |- _ => apply count_ok_true in H as [Hn _] end.
  change (concat (map (fun x => kJSONElemSeparator :: j_value false x) l)) with (j_elements at_element l) in *.
  assert (json_in p (c, cs) ((prefix c ++ j_coll t (zlen l)) ++
    j_elements at_element l ++ kJSONArrayEnd :: rest)) as Hp by regroup Hp0.
  zlist.
  eapply consumes_step; [apply Hm; auto with thrift|zlist|exact Hp|by destruct l|].
  intros p1 Hp1. cbv beta iota. apply runs_bind.
  eapply runs_mono; [apply (for_members (fun c => c = at_element) at_element (next c :: cs)
      (fun c x => kJSONElemSeparator :: j_value false x)
      j_elements (fun e => e) (kJSONArrayEnd :: rest)) with (l := l)
      (c0 := at_element); [..|exact Hp1]| |done]; try done.
  - by intros [|x l'].
  - intros x c' acc q rest' Hx -> Hd' Hz Hq. rewrite List.Forall_forall, !forallb_forall in *.
    match goal with H1 : forall x, In x l -> _ = true, H2 : forall x, In x l -> _ = true |- _ =>
      specialize (H1 x Hx); specialize (H2 x Hx) end.
    breflect. apply (read_member_elem _ t x acc q rest'); try done.
    apply IH; try done. by apply (fits_in vsize x l).
  - lia.
  - cbn beta. intros [k ys] q (Hk & Hys & c' & Hq). cbn [fst snd] in *. rewrite map_id in Hys. subst ys.
    eapply passes_step; [apply He|exact Hq|]. intros q1 Hq1. wp.
    split; [|exact Hq1]. f_equal. rewrite (u32_add_cong k _ _ _ Hk eq_refl). count.
Qed.
End Containers.

Lemma consumes_as {A} (f : A -> tval) (m : M P (Z * A)) C C' e a :
  consumes m C C' e a -> consumes (read_as f m) C C' e (f a).
Proof using Type.
  intros Hm Hl p rest Hd Hp. unfold read_as.
  eapply consumes_step; [exact Hm|exact Hl|exact Hp|exact Hd|]. intros. by wp.
Qed.

(** A number read as another type of C++ value. *)
Lemma consumes_bool c cs (b : bool) :
  consumes readBool (c, cs) (next c, cs) (prefix c ++ j_int (escapeNum (next c)) (Z.b2z b)) b.
Proof using Type*.
  intros Hl p rest Hd Hp. assert (number_in NBool (Z.b2z b)) as Hn by (by destruct b).
  eapply consumes_step; [apply (consumes_integer NBool c cs _ Hn)|exact Hl|exact Hp|exact Hd|].
  intros p1 Hp1. wp. by destruct b.
Qed.

Lemma consumes_byte c cs z : in_s 8 z ->
  consumes readByte (c, cs) (next c, cs) (prefix c ++ j_int (escapeNum (next c)) z) z.
Proof using Type*.
  intros Hz Hl p rest Hd Hp. assert (number_in NI16 z) as Hn by (cbn; unfold in_s in *; lia).
  eapply consumes_step; [apply (consumes_integer NI16 c cs _ Hn)|exact Hl|exact Hp|exact Hd|].
  intros p1 Hp1. wp. unfold in_s in Hz. apply runs_assert; [lia|]. wp.
  by rewrite wraps_small by (unfold in_s; lia).
Qed.

(** [read_value] gives back any value whose text is on the wire. *)
Lemma read_value_json v depth fuel :
  wf lim v = true -> json_ok v = true -> fits depth fuel (vsize v) -> value_reads depth fuel v.
Proof using Type*.
  revert depth. induction v as [b|z|z|z|z|d|s|fs IH|kt vt es IH|t l IH|t l IH|t] using tval_nested_ind;
    intros [|depth] Hwf Hok [Hd Hf]; try (cbn [vsize] in Hd; lia); [..|discriminate Hwf];
    intros c cs; cbn [wf json_ok vsize j_value type_of] in *.
  - apply (consumes_as VBool readBool), consumes_bool.
  - apply (consumes_as VByte readByte), consumes_byte. auto with thrift.
  - apply (consumes_as VI16 readI16), (consumes_integer NI16). by apply in_sb_true.
  - apply (consumes_as VI32 readI32), (consumes_integer NI32). by apply in_sb_true.
  - apply (consumes_as VI64 readI64), (consumes_integer NI64). by apply in_sb_true.
  - apply (consumes_as VDouble readDouble). by apply consumes_double.
  - apply string_ok_true in Hwf as (? & _ & ?).
    apply (consumes_as VString readBinary). by apply consumes_base64.
  - apply struct_reads; try done; [|split; lia].
    eapply Forall_impl; [exact IH|]. intros f IHf ??[??]. by apply IHf.
  - apply (map_reads depth fuel kt vt es); try done; [|split; lia].
    eapply Forall_impl; [exact IH|]. intros e [IH1 IH2]. split; intros ??[??]; [by apply IH1|by apply IH2].
  - apply (coll_reads depth fuel VSet t l readSetBegin readSetEnd); try done; [| | |split; lia].
    + intros. by apply consumes_coll.
    + intros. apply passes_array_end.
    + eapply Forall_impl; [exact IH|]. intros x IHx ??[??]. by apply IHx.
  - apply (coll_reads depth fuel VList t l readListBegin readListEnd); try done; [| | |split; lia].
    + intros. by apply consumes_coll.
    + intros. apply passes_array_end.
    + eapply Forall_impl; [exact IH|]. intros x IHx ??[??]. by apply IHx.
Qed.
End Values.
