(* ===== verification/Ppapi.v ===== *)
(** * The browser's variables: ppapi/cpp/var.h, var_array.h, var_dictionary.h

    The Pepper API is not part of the repository: [Ppapi] holds its operations
    that the sources call, as parameters, and [PpapiLaws] what its documentation
    says of them.  A [pp::Var] is a handle: copying one copies the handle, and the
    dictionary or array behind it lives in the browser ([Heap]), so that a write
    through one copy is seen through every other.

    [Tables] is one implementation of the interface, for concrete runs. *)

From S2P Require Export Double.
From stdpp Require Export gmap.

#[global] Open Scope Z_scope.

(** [PP_VarType] *)
Inductive PP_VarType :=
| PP_VARTYPE_UNDEFINED | PP_VARTYPE_NULL | PP_VARTYPE_BOOL | PP_VARTYPE_INT32
| PP_VARTYPE_DOUBLE | PP_VARTYPE_STRING | PP_VARTYPE_OBJECT | PP_VARTYPE_ARRAY
| PP_VARTYPE_DICTIONARY | PP_VARTYPE_ARRAY_BUFFER.

#[export] Instance PP_VarType_eq_dec : EqDecision PP_VarType.
Proof. solve_decision. Defined.

Class Ppapi := {
  Var : Type;
  Heap : Type;
  var_type : Var -> PP_VarType;
  (** the constructors *)
  undefined_var : Var;
  bool_var : bool -> Var;
  int_var : Z -> Var;
  double_var : Z -> Var;
  string_var : list Z -> Var;
  AsBool : Var -> bool;
  AsInt : Var -> Z;
  AsDouble : Var -> Z;
  AsString : Var -> list Z;
  (** [VarDictionary()], [Get], [HasKey], [Set], [GetKeys] *)
  new_dictionary : Heap -> Var * Heap;
  dictionary_get : Var -> Var -> Heap -> Var;
  dictionary_has_key : Var -> Var -> Heap -> bool;
  dictionary_set : Var -> Var -> Var -> Heap -> bool * Heap;
  dictionary_keys : Var -> Heap -> Var * Heap;
  (** [VarArray()], [Get], [Set], [GetLength] *)
  new_array : Heap -> Var * Heap;
  array_get : Var -> Z -> Heap -> Var;
  array_set : Var -> Z -> Var -> Heap -> bool * Heap;
  array_length : Var -> Heap -> Z
}.

Section Kinds.
Context `{Ppapi}.
Definition is_type (t : PP_VarType) (v : Var) : bool := bool_decide (var_type v = t).
Definition is_undefined : Var -> bool := is_type PP_VARTYPE_UNDEFINED.
Definition is_null : Var -> bool := is_type PP_VARTYPE_NULL.
Definition is_bool : Var -> bool := is_type PP_VARTYPE_BOOL.
Definition is_int : Var -> bool := is_type PP_VARTYPE_INT32.
Definition is_double : Var -> bool := is_type PP_VARTYPE_DOUBLE.
Definition is_string : Var -> bool := is_type PP_VARTYPE_STRING.
Definition is_array : Var -> bool := is_type PP_VARTYPE_ARRAY.
Definition is_dictionary : Var -> bool := is_type PP_VARTYPE_DICTIONARY.

Lemma is_type_true t v : is_type t v = true <-> var_type v = t.
Proof. apply bool_decide_eq_true. Qed.

Lemma is_type_other t u v : is_type t v = true -> t <> u -> is_type u v = false.
Proof. rewrite is_type_true. intros <- Hne. by apply bool_decide_eq_false_2. Qed.
End Kinds.

(** What the documentation promises.  [entries] and [elems] are what a
    dictionary and an array hold, [known] the objects the browser has made. *)
Class PpapiLaws `{Ppapi} := {
  entries : Heap -> Var -> gmap (list Z) Var;
  elems : Heap -> Var -> list Var;
  known : Heap -> Var -> Prop;
  is_utf8 : list Z -> bool;

  type_undefined : var_type undefined_var = PP_VARTYPE_UNDEFINED;
  type_bool b : var_type (bool_var b) = PP_VARTYPE_BOOL;
  type_int z : var_type (int_var z) = PP_VARTYPE_INT32;
  type_double d : var_type (double_var d) = PP_VARTYPE_DOUBLE;
  AsBool_bool b : AsBool (bool_var b) = b;
  AsInt_int z : in_s 32 z -> AsInt (int_var z) = z;
  AsInt_range v : is_int v = true -> in_s 32 (AsInt v);
  AsDouble_double d : in_u 64 d -> AsDouble (double_var d) = d;
  (** "AsDouble() implicitly converts the var to a double if it is an integer" *)
  AsDouble_int v : is_int v = true -> AsDouble v = double_of_int (AsInt v);
  (** "The string must be encoded in valid UTF-8"; on bad input the var is null *)
  string_valid s : is_utf8 s = true ->
    var_type (string_var s) = PP_VARTYPE_STRING /\ AsString (string_var s) = s;
  string_invalid s : is_utf8 s = false -> var_type (string_var s) = PP_VARTYPE_NULL;
  utf8_ascii s : Forall (fun b => 0 <= b < 128) s -> is_utf8 s = true;

  new_dictionary_ok h : let '(d, h') := new_dictionary h in
    var_type d = PP_VARTYPE_DICTIONARY /\ ~ known h d /\ known h' d /\ entries h' d = ∅ /\
    forall o, known h o -> known h' o /\ entries h' o = entries h o /\ elems h' o = elems h o;
  new_array_ok h : let '(a, h') := new_array h in
    var_type a = PP_VARTYPE_ARRAY /\ ~ known h a /\ known h' a /\ elems h' a = [] /\
    forall o, known h o -> known h' o /\ entries h' o = entries h o /\ elems h' o = elems h o;

  (** "the value associated with key; undefined if it does not exist" *)
  dictionary_get_ok h d k : is_dictionary d = true -> is_string k = true ->
    dictionary_get d k h = default undefined_var (entries h d !! AsString k);
  dictionary_has_key_ok h d k : is_dictionary d = true -> is_string k = true ->
    dictionary_has_key d k h = bool_decide (is_Some (entries h d !! AsString k));
  (** "the key must be a string var; an existing value is replaced" *)
  dictionary_set_ok h d k v : is_dictionary d = true -> known h d -> is_string k = true ->
    let '(r, h') := dictionary_set d k v h in
    r = true /\ entries h' d = <[AsString k := v]> (entries h d) /\
    forall o, known h o -> known h' o /\ (o <> d -> entries h' o = entries h o) /\
                           elems h' o = elems h o;
  dictionary_set_refused h d k v : is_dictionary d = true -> is_string k = false ->
    dictionary_set d k v h = (false, h);
  (** "an array of the keys; the order is not defined; a snapshot" *)
  dictionary_keys_ok h d : is_dictionary d = true ->
    let '(a, h') := dictionary_keys d h in
    var_type a = PP_VARTYPE_ARRAY /\ ~ known h a /\ known h' a /\
    Forall (fun k => is_string k = true) (elems h' a) /\
    map AsString (elems h' a) ≡ₚ (map_to_list (entries h d)).*1 /\
    forall o, known h o -> known h' o /\ entries h' o = entries h o /\ elems h' o = elems h o;

  array_length_ok h a : is_array a = true -> zlen (elems h a) < 2 ^ 32 ->
    array_length a h = zlen (elems h a);
  (** "the element at index; undefined past the end" *)
  array_get_ok h a i : is_array a = true -> 0 <= i < 2 ^ 32 ->
    array_get a i h = default undefined_var (elems h a !! Z.to_nat i);
  (** "if index is the length, the array grows by one element" *)
  array_set_end h a v : is_array a = true -> known h a -> zlen (elems h a) + 1 < 2 ^ 32 ->
    let '(r, h') := array_set a (zlen (elems h a)) v h in
    r = true /\ elems h' a = elems h a ++ [v] /\
    forall o, known h o -> known h' o /\ entries h' o = entries h o /\
                           (o <> a -> elems h' o = elems h o)
}.

(** ** What allocation and updates keep *)

Section Heaps.
Context `{PpapiLaws}.
Implicit Types (h : Heap) (o : Var).

Definition same_object (h h' : Heap) (o : Var) : Prop :=
  entries h' o = entries h o /\ elems h' o = elems h o.

(** [h'] has [h]'s objects; those outside [U] are as they were. *)
Definition extends (U : Var -> Prop) (h h' : Heap) : Prop :=
  forall o, known h o -> known h' o /\ (~ U o -> same_object h h' o).
Definition nothing (o : Var) : Prop := False.

Lemma extends_refl U h : extends U h h.
Proof. intros o Ho. split; [done|]. by split. Qed.

Lemma extends_trans (U : Var -> Prop) h1 h2 h3 :
  extends U h1 h2 -> extends U h2 h3 -> extends U h1 h3.
Proof.
  intros H1 H2 o Ho. destruct (H1 o Ho) as [K1 S1]. destruct (H2 o K1) as [K2 S2].
  split; [done|]. intros Hu. destruct (S1 Hu) as [E1 F1], (S2 Hu) as [E2 F2].
  split; congruence.
Qed.

Lemma extends_mono (U V : Var -> Prop) h h' :
  extends U h h' -> (forall o, U o -> V o) -> extends V h h'.
Proof. intros Hx Huv o Ho. destruct (Hx o Ho). split; eauto. Qed.

Lemma extends_known U h h' o : extends U h h' -> known h o -> known h' o.
Proof. intros Hx Ho. by destruct (Hx o Ho). Qed.

Lemma extends_entries U h h' o : extends U h h' -> known h o -> ~ U o -> entries h' o = entries h o.
Proof. intros Hx Ho Hu. destruct (Hx o Ho) as [_ E]. by destruct (E Hu). Qed.

Lemma extends_elems U h h' o : extends U h h' -> known h o -> ~ U o -> elems h' o = elems h o.
Proof. intros Hx Ho Hu. destruct (Hx o Ho) as [_ E]. by destruct (E Hu). Qed.

Lemma new_dictionary_extends h : let '(d, h') := new_dictionary h in
  is_dictionary d = true /\ ~ known h d /\ known h' d /\ entries h' d = ∅ /\ extends nothing h h'.
Proof.
  pose proof (new_dictionary_ok h) as Hn. destruct (new_dictionary h) as [d h'].
  destruct Hn as (Ht & Hf & Hk & He & Hx). repeat split; try done.
  - by apply is_type_true.
  - by apply Hx.
  - by apply Hx.
  - by apply Hx.
Qed.

Lemma new_array_extends h : let '(a, h') := new_array h in
  is_array a = true /\ ~ known h a /\ known h' a /\ elems h' a = [] /\ extends nothing h h'.
Proof.
  pose proof (new_array_ok h) as Hn. destruct (new_array h) as [a h'].
  destruct Hn as (Ht & Hf & Hk & He & Hx). repeat split; try done.
  - by apply is_type_true.
  - by apply Hx.
  - by apply Hx.
  - by apply Hx.
Qed.

Lemma dictionary_set_extends h d k v :
  is_dictionary d = true -> known h d -> is_string k = true ->
  let '(r, h') := dictionary_set d k v h in
  entries h' d = <[AsString k := v]> (entries h d) /\ elems h' d = elems h d /\
  extends (eq d) h h'.
Proof.
  intros Hd Hk Hs. pose proof (dictionary_set_ok h d k v Hd Hk Hs) as Hn.
  destruct (dictionary_set d k v h) as [r h']. destruct Hn as (_ & He & Hx).
  split; [done|]. split; [by apply Hx|]. intros o Ho. destruct (Hx o Ho) as (K & E & F).
  split; [done|]. intros Hne. split; [|done]. apply E. congruence.
Qed.

Lemma array_push_extends h a v :
  is_array a = true -> known h a -> zlen (elems h a) + 1 < 2 ^ 32 ->
  let '(r, h') := array_set a (array_length a h) v h in
  elems h' a = elems h a ++ [v] /\ entries h' a = entries h a /\ extends (eq a) h h'.
Proof.
  intros Ha Hk Hl. rewrite array_length_ok by (done || lia).
  pose proof (array_set_end h a v Ha Hk Hl) as Hn.
  destruct (array_set a _ v h) as [r h']. destruct Hn as (_ & He & Hx).
  split; [done|]. split; [by apply Hx|]. intros o Ho. destruct (Hx o Ho) as (K & E & F).
  split; [done|]. intros Hne. split; [done|]. apply F. congruence.
Qed.

Lemma dictionary_keys_extends h d : is_dictionary d = true ->
  let '(a, h') := dictionary_keys d h in
  is_array a = true /\ known h' a /\ Forall (fun k => is_string k = true) (elems h' a) /\
  map AsString (elems h' a) ≡ₚ (map_to_list (entries h d)).*1 /\ extends nothing h h'.
Proof.
  intros Hd. pose proof (dictionary_keys_ok h d Hd) as Hn.
  destruct (dictionary_keys d h) as [a h']. destruct Hn as (Ht & Hf & Hk & Hs & Hp & Hx).
  repeat split; try done.
  - by apply is_type_true.
  - by apply Hx.
  - by apply Hx.
  - by apply Hx.
Qed.

Lemma string_is_string s : is_utf8 s = true ->
  is_string (string_var s) = true /\ AsString (string_var s) = s.
Proof. intros Hs. destruct (string_valid s Hs) as [Ht Ha]. by rewrite <- is_type_true in Ht. Qed.
End Heaps.

(** ** An implementation with tables, whose strings are ASCII *)

Module Tables.
Inductive var :=
| VUndefined | VNull | VBool (b : bool) | VInt (z : Z) | VDouble (bits : Z)
| VString (s : list Z) | VArray (id : positive) | VDictionary (id : positive).

#[export] Instance var_eq_dec : EqDecision var.
Proof. solve_decision. Defined.

Record tables := MkTables {
  dictionaries : gmap positive (gmap (list Z) var);
  arrays : gmap positive (list var);
  next_id : positive
}.

Definition empty : tables := MkTables ∅ ∅ 1.

Definition type_of_var (v : var) : PP_VarType :=
  match v with
  | VUndefined => PP_VARTYPE_UNDEFINED | VNull => PP_VARTYPE_NULL | VBool _ => PP_VARTYPE_BOOL
  | VInt _ => PP_VARTYPE_INT32 | VDouble _ => PP_VARTYPE_DOUBLE | VString _ => PP_VARTYPE_STRING
  | VArray _ => PP_VARTYPE_ARRAY | VDictionary _ => PP_VARTYPE_DICTIONARY
  end.

Definition ascii (s : list Z) : bool := forallb (fun b => (0 <=? b) && (b <? 128))%bool s.

Definition dictionary_at (h : tables) (v : var) : gmap (list Z) var :=
  match v with VDictionary i => default ∅ (dictionaries h !! i) | _ => ∅ end.
Definition array_at (h : tables) (v : var) : list var :=
  match v with VArray i => default [] (arrays h !! i) | _ => [] end.
Definition made (h : tables) (v : var) : Prop :=
  match v with VArray i | VDictionary i => (i < next_id h)%positive | _ => False end.

Definition text (v : var) : list Z := match v with VString s => s | _ => [] end.

Definition add_dictionary (h : tables) : var * tables :=
  (VDictionary (next_id h),
   MkTables (<[next_id h := ∅]> (dictionaries h)) (arrays h) (Pos.succ (next_id h))).
Definition add_array (l : list var) (h : tables) : var * tables :=
  (VArray (next_id h),
   MkTables (dictionaries h) (<[next_id h := l]> (arrays h)) (Pos.succ (next_id h))).

Definition set_entry (d k v : var) (h : tables) : bool * tables :=
  match d, k with
  | VDictionary i, VString s =>
      (true, MkTables (<[i := <[s := v]> (dictionary_at h d)]> (dictionaries h)) (arrays h)
                      (next_id h))
  | _, _ => (false, h)
  end.

Definition set_elem (a : var) (n : Z) (v : var) (h : tables) : bool * tables :=
  match a with
  | VArray i =>
      let l := array_at h a in
      let l' := take (Z.to_nat n) (l ++ zrep (n - zlen l) VUndefined) ++ [v] ++ zdrop (n + 1) l in
      (true, MkTables (dictionaries h) (<[i := l']> (arrays h)) (next_id h))
  | _ => (false, h)
  end.

#[export] Instance api : Ppapi := {|
  Var := var; Heap := tables; var_type := type_of_var;
  undefined_var := VUndefined; bool_var := VBool; int_var := VInt; double_var := VDouble;
  string_var s := if ascii s then VString s else VNull;
  AsBool v := match v with VBool b => b | _ => false end;
  AsInt v := match v with VInt z => s32 z | _ => 0 end;
  AsDouble v := match v with VDouble d => d | VInt z => double_of_int (s32 z) | _ => 0 end;
  AsString := text;
  new_dictionary := add_dictionary;
  dictionary_get d k h := default VUndefined (dictionary_at h d !! text k);
  dictionary_has_key d k h := bool_decide (is_Some (dictionary_at h d !! text k));
  dictionary_set := set_entry;
  dictionary_keys d h := add_array (map VString (map_to_list (dictionary_at h d)).*1) h;
  new_array := add_array [];
  array_get a i h := default VUndefined (array_at h a !! Z.to_nat i);
  array_set := set_elem;
  array_length a h := zlen (array_at h a)
|}.

Lemma add_array_ok l h : let '(a, h') := add_array l h in
  type_of_var a = PP_VARTYPE_ARRAY /\ ~ made h a /\ made h' a /\ array_at h' a = l /\
  forall o, made h o -> made h' o /\ dictionary_at h' o = dictionary_at h o /\
                        array_at h' o = array_at h o.
Proof.
  cbn. rewrite lookup_insert_eq. repeat split; try lia.
  all: destruct o as [| | | | | |i|i]; cbn in *; try done; try lia.
  by rewrite lookup_insert_ne by lia.
Qed.

Lemma add_dictionary_ok h : let '(d, h') := add_dictionary h in
  type_of_var d = PP_VARTYPE_DICTIONARY /\ ~ made h d /\ made h' d /\ dictionary_at h' d = ∅ /\
  forall o, made h o -> made h' o /\ dictionary_at h' o = dictionary_at h o /\
                        array_at h' o = array_at h o.
Proof.
  cbn. rewrite lookup_insert_eq. repeat split; try lia.
  all: destruct o as [| | | | | |i|i]; cbn in *; try done; try lia.
  by rewrite lookup_insert_ne by lia.
Qed.

Ltac kinds v :=
  destruct v; try (intros Hk; apply is_type_true in Hk; discriminate Hk); intros _.

#[export] Instance laws : @PpapiLaws api.
Proof.
  unshelve refine {| entries := dictionary_at; elems := array_at; known := made;
                     is_utf8 := ascii |}; try done.
  - intros z. apply (wraps_small 32). lia.
  - intros v _. assert (in_s 32 0) as H0 by (unfold in_s; lia).
    destruct v; try exact H0. apply (wraps_range 32). lia.
  - intros v. by kinds v.
  - intros s Hs. cbn. by rewrite Hs.
  - intros s Hs. cbn. by rewrite Hs.
  - intros s Hs. unfold ascii. apply forallb_forall. intros b Hb.
    rewrite <- list_elem_of_In in Hb. rewrite Forall_forall in Hs. specialize (Hs b Hb). lia.
  - apply add_dictionary_ok.
  - intros h. apply (add_array_ok [] h).
  - intros h d k v. kinds d. intros Hm. kinds k. cbn. rewrite lookup_insert_eq.
    split; [done|]. split; [done|]. intros o Ho. split; [done|]. split; [|done].
    intros Hne. destruct o; try done. cbn. rewrite lookup_insert_ne; [done|congruence].
  - intros h d k v. kinds d. intros Hk. destruct k; try done.
  - intros h d _. cbn [dictionary_keys api].
    set (ks := (map_to_list (dictionary_at h d)).*1).
    pose proof (add_array_ok (map VString ks) h) as Ha.
    destruct (add_array (map VString ks) h) as [a h']. destruct Ha as (Ht & Hf & Hm & He & Hx).
    split; [done|]. split; [done|]. split; [done|]. rewrite He. split; [|split; [|done]].
    + apply Forall_forall. intros k Hk. apply list_elem_of_fmap in Hk. by destruct Hk as (s & -> & _).
    + rewrite map_map. cbn. by rewrite map_id.
  - intros h a v. kinds a. intros Hm Hl. cbn. rewrite lookup_insert_eq. cbn.
    split; [done|]. split.
    + replace (zlen _ - zlen _) with 0 by lia. cbn [zrep replicate Z.to_nat].
      rewrite app_nil_r, zdrop_ge by lia. cbn. f_equal. apply take_ge. unfold zlen. lia.
    + intros o Ho. split; [done|]. split; [done|]. intros Hne.
      destruct o; try done. cbn. rewrite lookup_insert_ne; [done|congruence].
Defined.
End Tables.
