(* ===== verification/NativeClient.v ===== *)
(** * Native Client messages: protocol/TNativeClientProtocol.cpp and .h

    The protocol writes a Thrift value into browser variables and reads one from
    them.  The state is the protocol object (two stacks of contexts, the root
    variable) with the browser's heap: a context holds the handle of the
    dictionary or array it fills, its parent already holds a copy of that handle,
    and so what is written later is seen through the parent.

    The head of a stack is its [back()].  Every operation answers the 0 the C++
    function returns, a read also what it stores through its arguments. *)

From S2P Require Export Ppapi Protocol Base64 Effects.

(** [kMaxPreciseDouble] and [kMinPreciseDouble]: 2^53 and its opposite. *)
Definition kMaxPreciseDouble : Z := 0x4340000000000000.
Definition kMinPreciseDouble : Z := 0xc340000000000000.

Inductive ContextType :=
| DICTIONARY_CONTEXT | MAP_KEY_CONTEXT | MAP_VALUE_CONTEXT | LIST_CONTEXT.

#[export] Instance ContextType_eq_dec : EqDecision ContextType.
Proof. solve_decision. Defined.

Definition is_context (a b : ContextType) : bool := bool_decide (a = b).

Definition text_of (s : string) : list Z :=
  map (fun c => Z.of_nat (nat_of_ascii c)) (list_ascii_of_string s).

(** A call of the browser, from a state with a heap. *)
Definition browser `{Ppapi} {A} (f : Heap -> A * Heap) : M Heap A :=
  fun h => let '(a, h') := f h in (Ok a, h').

(** A method of a context: its state is the context and the heap. *)
Definition in_context `{Ppapi} {C A} (m : M Heap A) : M (C * Heap) A :=
  lift snd (fun h s => (s.1, h)) m.

(** ** WriterContext *)

Module WriterContext.
Section WriterContext.
Context `{Ppapi}.

Record t := Make {
  var_ : Var;
  type_ : ContextType;
  field_name_ : list Z;
  map_key_ : Var
}.

Definition constructor (var : Var) (type : ContextType) : M Heap t :=
  do! assert_ ((is_dictionary var &&
                (is_context type DICTIONARY_CONTEXT || is_context type MAP_KEY_CONTEXT)) ||
               (is_array var && is_context type LIST_CONTEXT))%bool in
  ret (Make var type [] undefined_var).

Definition setFieldName (name : list Z) : M (t * Heap) unit :=
  modify (fun s => (Make (var_ s.1) (type_ s.1) name (map_key_ s.1), s.2)).

Definition asDictionary : M (t * Heap) Var :=
  let! c := gets fst in
  do! assert_ (is_dictionary (var_ c)) in ret (var_ c).

Definition asArray : M (t * Heap) Var :=
  let! c := gets fst in
  do! assert_ (is_array (var_ c)) in ret (var_ c).

(** The results of [Set] are not looked at. *)
Definition writeVar (var : Var) : M (t * Heap) unit :=
  let! c := gets fst in
  match type_ c with
  | DICTIONARY_CONTEXT =>
      let! d := asDictionary in
      do! in_context (browser (dictionary_set d (string_var (field_name_ c)) var)) in ret tt
  | LIST_CONTEXT =>
      let! a := asArray in
      let! n := gets (fun s => array_length a s.2) in
      do! in_context (browser (array_set a n var)) in ret tt
  | MAP_KEY_CONTEXT =>
      modify (fun s => (Make (var_ s.1) MAP_VALUE_CONTEXT (field_name_ s.1) var, s.2))
  | MAP_VALUE_CONTEXT =>
      let! d := asDictionary in
      do! in_context (browser (dictionary_set d (map_key_ c) var)) in
      modify (fun s => (Make (var_ s.1) MAP_KEY_CONTEXT (field_name_ s.1) (map_key_ s.1), s.2))
  end.

Definition createDictionaryContext : M Heap t :=
  let! var := browser new_dictionary in constructor var DICTIONARY_CONTEXT.
Definition createMapContext : M Heap t :=
  let! var := browser new_dictionary in constructor var MAP_KEY_CONTEXT.
Definition createListContext : M Heap t :=
  let! var := browser new_array in constructor var LIST_CONTEXT.
End WriterContext.
End WriterContext.

(** ** ReaderContext *)

Module ReaderContext.
Section ReaderContext.
Context `{Ppapi}.

Record t := Make {
  var_ : Var;
  keys_ : Var;
  type_ : ContextType;
  index_ : Z
}.

(** [keys_] starts as an array of its own. *)
Definition constructor (var : Var) (type : ContextType) : M Heap t :=
  let! keys := browser new_array in
  if is_dictionary var then
    do! assert_ (is_context type DICTIONARY_CONTEXT || is_context type MAP_KEY_CONTEXT)%bool in
    let! keys := browser (dictionary_keys var) in
    ret (Make var keys type 0)
  else
    do! assert_ (is_array var && is_context type LIST_CONTEXT)%bool in
    ret (Make var keys type 0).

Definition asDictionary : M (t * Heap) Var :=
  let! c := gets fst in
  do! assert_ (is_dictionary (var_ c)) in ret (var_ c).

Definition asArray : M (t * Heap) Var :=
  let! c := gets fst in
  do! assert_ (is_array (var_ c)) in ret (var_ c).

(** The [uint32_t] length converted to [int]. *)
Definition size : M (t * Heap) Z :=
  let! c := gets fst in
  if is_dictionary (var_ c) then gets (fun s => s32 (array_length (keys_ s.1) s.2))
  else let! a := asArray in gets (fun s => s32 (array_length a s.2)).

Definition isAtEnd : M (t * Heap) bool :=
  let! n := size in gets (fun s => n <=? index_ s.1).

(** [++index_] stays an [int]: [index_] is below [size()]. *)
Definition advance : M (t * Heap) unit :=
  let! end_ := isAtEnd in
  if end_ : bool then ret tt else
  modify (fun s =>
    let c := s.1 in
    (match type_ c with
     | DICTIONARY_CONTEXT | LIST_CONTEXT => Make (var_ c) (keys_ c) (type_ c) (index_ c + 1)
     | MAP_KEY_CONTEXT => Make (var_ c) (keys_ c) MAP_VALUE_CONTEXT (index_ c)
     | MAP_VALUE_CONTEXT => Make (var_ c) (keys_ c) MAP_KEY_CONTEXT (index_ c + 1)
     end, s.2)).

(** [index_ < l.GetLength()] compares as [uint32_t]. *)
Definition below (l : Var) : M (t * Heap) unit :=
  let! s := get in assert_ (u32 (index_ s.1) <? array_length l s.2).

Definition nextKey : M (t * Heap) Var :=
  let! c := gets fst in
  do! below (keys_ c) in
  gets (fun s => array_get (keys_ c) (u32 (index_ c)) s.2).

Definition nextKeyValue : M (t * Heap) (Var * Var) :=
  let! key := nextKey in
  let! d := asDictionary in
  let! value := gets (fun s => dictionary_get d key s.2) in
  ret (key, value).

Definition nextValue : M (t * Heap) Var :=
  let! c := gets fst in
  do! below (keys_ c) in
  let! d := asDictionary in
  gets (fun s => dictionary_get d (array_get (keys_ c) (u32 (index_ c)) s.2) s.2).

Definition nextArrayValue : M (t * Heap) Var :=
  let! a := asArray in
  do! below a in
  gets (fun s => array_get a (u32 (index_ s.1)) s.2).

Definition nextVar : M (t * Heap) Var :=
  let! c := gets fst in
  match type_ c with
  | DICTIONARY_CONTEXT => nextValue
  | LIST_CONTEXT => nextArrayValue
  | MAP_KEY_CONTEXT => nextKey
  | MAP_VALUE_CONTEXT => nextValue
  end.

Definition createDictionaryContext (var : Var) : M Heap t :=
  if negb (is_dictionary var) then
    throw (EProtocol TProtocolException.UNKNOWN
             "Attempt to createDictionaryContext without a dictionary")
  else constructor var DICTIONARY_CONTEXT.
Definition createMapContext (var : Var) : M Heap t :=
  if negb (is_dictionary var) then
    throw (EProtocol TProtocolException.UNKNOWN
             "Attempt to createMapContext without a dictionary")
  else constructor var MAP_KEY_CONTEXT.
Definition createListContext (var : Var) : M Heap t :=
  if negb (is_array var) then
    throw (EProtocol TProtocolException.UNKNOWN
             "Attempt to createListContext without an array")
  else constructor var LIST_CONTEXT.
End ReaderContext.
End ReaderContext.

(** ** TNativeClientProtocol *)

Section TNativeClientProtocol.
Context `{Ppapi}.

Record TNativeClientProtocol := MakeProtocol {
  writer_stack_ : list WriterContext.t;
  reader_stack_ : list ReaderContext.t;
  root_var_ : option Var;
  heap : Heap
}.

(** [TNativeClientProtocol()] and [TNativeClientProtocol(var)] *)
Definition new_protocol (h : Heap) : TNativeClientProtocol := MakeProtocol [] [] None h.
Definition new_protocol_var (var : Var) (h : Heap) : TNativeClientProtocol :=
  MakeProtocol [] [] (Some var) h.

Abbreviation N := TNativeClientProtocol.

Definition set_writers (l : list WriterContext.t) (p : N) : N :=
  MakeProtocol l (reader_stack_ p) (root_var_ p) (heap p).
Definition set_readers (l : list ReaderContext.t) (p : N) : N :=
  MakeProtocol (writer_stack_ p) l (root_var_ p) (heap p).
Definition set_root (v : option Var) (p : N) : N :=
  MakeProtocol (writer_stack_ p) (reader_stack_ p) v (heap p).
Definition set_heap (h : Heap) (p : N) : N :=
  MakeProtocol (writer_stack_ p) (reader_stack_ p) (root_var_ p) h.

Definition reset : M N unit := modify (fun p => MakeProtocol [] [] None (heap p)).
Definition setVar (var : option Var) : M N unit := do! reset in modify (set_root var).
Definition getVar : M N (option Var) := gets root_var_.

Definition on_heap {A} (m : M Heap A) : M N A := lift heap set_heap m.

(** A method of [topWriterContext()] and of [topReaderContext()]: [back()] of an
    empty [ptr_deque] is undefined. *)
Definition topWriterContext {A} (m : M (WriterContext.t * Heap) A) : M N A := fun p =>
  match writer_stack_ p with
  | [] => (Crash UndefinedBehaviour, p)
  | c :: l => let '(r, (c', h)) := m (c, heap p) in (r, set_writers (c' :: l) (set_heap h p))
  end.
Definition topReaderContext {A} (m : M (ReaderContext.t * Heap) A) : M N A := fun p =>
  match reader_stack_ p with
  | [] => (Crash UndefinedBehaviour, p)
  | c :: l => let '(r, (c', h)) := m (c, heap p) in (r, set_readers (c' :: l) (set_heap h p))
  end.

Definition not_implemented {A} : M N A := throw (EProtocol TProtocolException.NOT_IMPLEMENTED "").

Definition writeVar (var : Var) : M N unit :=
  let! stack := gets writer_stack_ in
  match stack with
  | [] =>
      if negb (is_dictionary var) then
        throw (EProtocol TProtocolException.UNKNOWN "Root node must be a dictionary")
      else modify (set_root (Some var))
  | _ => topWriterContext (WriterContext.writeVar var)
  end.

Definition readVar : M N Var :=
  let! stack := gets reader_stack_ in
  match stack with
  | [] =>
      let! root := gets root_var_ in
      match root with
      | None =>
          throw (EProtocol TProtocolException.UNKNOWN
                   ("Trying to read but pp::Var has not been set " ++
                    "(use TNativeClientProtocol(shared_ptr<const pp::Var>) constructor)"))
      | Some v => ret v
      end
  | _ =>
      let! var := topReaderContext ReaderContext.nextVar in
      do! topReaderContext ReaderContext.advance in
      ret var
  end.

Definition pushWriterContext (c : WriterContext.t) : M N unit :=
  let v := WriterContext.var_ c in
  do! assert_ (is_dictionary v || is_array v) in
  do! writeVar v in
  modify (fun p => set_writers (c :: writer_stack_ p) p).

(** [pop_back()] of an empty [ptr_deque] is undefined. *)
Definition popWriterContext : M N unit :=
  let! stack := gets writer_stack_ in
  match stack with [] => crash_ UndefinedBehaviour | _ :: l => modify (set_writers l) end.

Definition pushReaderContext (c : ReaderContext.t) : M N unit :=
  let v := ReaderContext.var_ c in
  do! assert_ (is_dictionary v || is_array v) in
  modify (fun p => set_readers (c :: reader_stack_ p) p).

Definition popReaderContext : M N unit :=
  let! stack := gets reader_stack_ in
  match stack with [] => crash_ UndefinedBehaviour | _ :: l => modify (set_readers l) end.

(** *** Writing *)

Definition zero (m : M N unit) : M N Z := do! m in ret 0.

Definition writeMessageBegin (name : list Z) (messageType seqid : Z) : M N Z := not_implemented.
Definition writeMessageEnd : M N Z := not_implemented.

Definition push_new (m : M Heap WriterContext.t) : M N Z :=
  let! c := on_heap m in zero (pushWriterContext c).

Definition writeStructBegin (name : option (list Z)) : M N Z :=
  push_new WriterContext.createDictionaryContext.
Definition writeStructEnd : M N Z := zero popWriterContext.

(** A null [name] would make the [std::string] conversion undefined. *)
Definition writeFieldBegin (name : option (list Z)) (fieldType fieldId : Z) : M N Z :=
  match name with
  | None => crash_ UndefinedBehaviour
  | Some name => zero (topWriterContext (WriterContext.setFieldName name))
  end.
Definition writeFieldEnd : M N Z := ret 0.
Definition writeFieldStop : M N Z := ret 0.

Definition writeMapBegin (keyType valType size : Z) : M N Z :=
  push_new WriterContext.createMapContext.
Definition writeMapEnd : M N Z := zero popWriterContext.
Definition writeListBegin (elemType size : Z) : M N Z :=
  push_new WriterContext.createListContext.
Definition writeListEnd : M N Z := zero popWriterContext.
Definition writeSetBegin (elemType size : Z) : M N Z :=
  push_new WriterContext.createListContext.
Definition writeSetEnd : M N Z := zero popWriterContext.

Definition writeBool (value : bool) : M N Z := zero (writeVar (bool_var value)).
Definition writeByte (byte : Z) : M N Z := zero (writeVar (int_var byte)).
Definition writeI16 (i16 : Z) : M N Z := zero (writeVar (int_var i16)).
Definition writeI32 (i32 : Z) : M N Z := zero (writeVar (int_var i32)).

(** The comparisons convert [i64] to [double] first. *)
Definition writeI64 (i64 : Z) : M N Z :=
  if (double_ltb kMaxPreciseDouble (double_of_int i64) ||
      double_ltb (double_of_int i64) kMinPreciseDouble)%bool then
    throw (EProtocol TProtocolException.SIZE_LIMIT
             "Int64 value too large to be represented as a double")
  else zero (writeVar (double_var (double_of_int i64))).

Definition writeDouble (dbl : Z) : M N Z := zero (writeVar (double_var dbl)).
Definition writeString (str : list Z) : M N Z := zero (writeVar (string_var str)).
Definition writeBinary `{Platform} (str : list Z) : M N Z :=
  let! b64str := base64EncodeString str in
  zero (writeVar (string_var b64str)).

(** *** Reading *)

Definition readMessageBegin : M N (Z * (list Z * Z * Z)) := not_implemented.
Definition readMessageEnd : M N Z := not_implemented.

Definition readStructBegin : M N Z :=
  let! var := readVar in
  let! c := on_heap (ReaderContext.createDictionaryContext var) in
  zero (pushReaderContext c).
Definition readStructEnd : M N Z := zero popReaderContext.

(** [name] and [fieldId] are left as they came at the end of the struct. *)
Definition readFieldBegin (name : list Z) (fieldId : Z) : M N (Z * (list Z * Z * Z)) :=
  let! end_ := topReaderContext ReaderContext.isAtEnd in
  if end_ : bool then ret (0, (name, T_STOP, fieldId))
  else
    let! '(key, value) := topReaderContext ReaderContext.nextKeyValue in
    let! name :=
      if (is_null value || is_undefined value)%bool then ret []
      else if negb (is_string key) then
        throw (EProtocol TProtocolException.NOT_IMPLEMENTED "Map keys must be strings")
      else ret (AsString key) in
    ret (0, (name, T_UNKNOWN, kFieldIdUnknown)).
Definition readFieldEnd : M N Z := ret 0.

(** The [int] size converted to the caller's [uint32_t]; the element types the
    caller passed are left as they are. *)
Definition push_read (m : M Heap ReaderContext.t) : M N (Z * Z) :=
  let! c := on_heap m in
  do! pushReaderContext c in
  let! size := topReaderContext ReaderContext.size in
  ret (0, u32 size).

Definition readMapBegin : M N (Z * Z) :=
  let! var := readVar in push_read (ReaderContext.createMapContext var).
Definition readMapEnd : M N Z := zero popReaderContext.
Definition readListBegin : M N (Z * Z) :=
  let! var := readVar in push_read (ReaderContext.createListContext var).
Definition readListEnd : M N Z := zero popReaderContext.
Definition readSetBegin : M N (Z * Z) :=
  let! var := readVar in push_read (ReaderContext.createListContext var).
Definition readSetEnd : M N Z := zero popReaderContext.

Definition invalid_data {A} (message : string) : M N A :=
  throw (EProtocol TProtocolException.INVALID_DATA message).

Definition readBool : M N (Z * bool) :=
  let! var := readVar in
  if negb (is_bool var) then invalid_data "Expected boolean value"
  else ret (0, AsBool var).

Definition readIntegerValue : M N Z :=
  let! var := readVar in
  if is_int var then ret (AsInt var)
  else if is_double var then
    let dbl_value := AsDouble var in
    if has_fraction dbl_value then invalid_data "Expected integer value"
    else if (double_ltb kMaxPreciseDouble dbl_value ||
             double_ltb dbl_value kMinPreciseDouble)%bool then
      throw (EProtocol TProtocolException.SIZE_LIMIT "Double value too large for integer")
    else match int64_of_double dbl_value with
         | Some z => ret z
         | None => crash_ UndefinedBehaviour
         end
  else invalid_data "Expected integer value".

(** [READ_INTEGER_VALUE] for a signed type of [w] bits called [type]. *)
Definition READ_INTEGER_VALUE (type : string) (w : Z) : M N (Z * Z) :=
  let! int_value := readIntegerValue in
  if ((2 ^ (w - 1) - 1 <? int_value) || (int_value <? - 2 ^ (w - 1)))%bool then
    throw (EProtocol TProtocolException.SIZE_LIMIT ("Value too large for " ++ type))
  else ret (0, wraps w int_value).

Definition readByte : M N (Z * Z) := READ_INTEGER_VALUE "int8_t" 8.
Definition readI16 : M N (Z * Z) := READ_INTEGER_VALUE "int16_t" 16.
Definition readI32 : M N (Z * Z) := READ_INTEGER_VALUE "int32_t" 32.
Definition readI64 : M N (Z * Z) := let! i64 := readIntegerValue in ret (0, i64).

(** Both branches' values are replaced by the last [AsDouble]. *)
Definition readDouble : M N (Z * Z) :=
  let! var := readVar in
  if (is_double var || is_int var)%bool then ret (0, AsDouble var)
  else invalid_data "Expected double value".

Definition readString : M N (Z * list Z) :=
  let! var := readVar in
  if negb (is_string var) then invalid_data "Expected string value"
  else ret (0, AsString var).

Definition readBinary `{Platform} : M N (Z * list Z) :=
  let! var := readVar in
  if negb (is_string var) then invalid_data "Expected base 64 string value"
  else
    let! str := base64DecodeString (AsString var) in
    match str with
    | None => invalid_data "Invalid base 64 string"
    | Some str => ret (0, str)
    end.

Definition skip (type : Z) : M N Z :=
  let! stack := gets reader_stack_ in
  match stack with
  | [] => ret 0
  | _ => zero (topReaderContext ReaderContext.advance)
  end.
End TNativeClientProtocol.
