(* ===== verification/NativeValues.v ===== *)
(** * Values as browser variables

    [nval] is a Thrift value with named fields, [ntype] the type a reader expects;
    [write_nval] and [read_nval] make the calls of TNativeClientProtocol.cpp that a
    client makes for one.  [denotes D h v x] says that in the heap [h] the variable
    [x] stands for [v], through objects in [D] only; it is what writing
    establishes and reading needs. *)

From S2P Require Export NativeClient Wire Effects.

#[warnings="-register-all"]
Inductive nval :=
| NBool (b : bool)
| NByte (z : Z)
| NI16 (z : Z)
| NI32 (z : Z)
| NI64 (z : Z)
| NDouble (bits : Z)
| NString (s : list Z)
| NBinary (s : list Z)
| NStruct (fields : list (list Z * nval))
| NMap (entries : list (list Z * nval))
| NSet (elems : list nval)
| NList (elems : list nval).

#[warnings="-register-all"]
Inductive ntype :=
| TyBool | TyByte | TyI16 | TyI32 | TyI64 | TyDouble | TyString | TyBinary
| TyStruct (fields : list (list Z * ntype))
| TyMap (value : ntype)
| TySet (elem : ntype)
| TyList (elem : ntype).

Section Induction.
Context (P : nval -> Prop).
Context (Hbool : forall b, P (NBool b)) (Hbyte : forall z, P (NByte z))
  (H16 : forall z, P (NI16 z)) (H32 : forall z, P (NI32 z)) (H64 : forall z, P (NI64 z))
  (Hdouble : forall z, P (NDouble z)) (Hstring : forall s, P (NString s))
  (Hbinary : forall s, P (NBinary s))
  (Hstruct : forall fs, Forall (fun f => P f.2) fs -> P (NStruct fs))
  (Hmap : forall es, Forall (fun e => P e.2) es -> P (NMap es))
  (Hset : forall l, Forall P l -> P (NSet l))
  (Hlist : forall l, Forall P l -> P (NList l)).

Fixpoint nval_nested_ind (v : nval) : P v :=
  match v with
  | NBool b => Hbool b | NByte z => Hbyte z | NI16 z => H16 z | NI32 z => H32 z
  | NI64 z => H64 z | NDouble z => Hdouble z | NString s => Hstring s | NBinary s => Hbinary s
  | NStruct fs => Hstruct fs (Forall_intro _ (fun f => nval_nested_ind f.2) fs)
  | NMap es => Hmap es (Forall_intro _ (fun e => nval_nested_ind e.2) es)
  | NSet l => Hset l (Forall_intro _ nval_nested_ind l)
  | NList l => Hlist l (Forall_intro _ nval_nested_ind l)
  end.
End Induction.

(** The entry of a list of pairs under a name, with [f] applied. *)
Definition assoc {A B} (f : A -> B) (name : list Z) : list (list Z * A) -> option B :=
  fix go l :=
    match l with
    | [] => None
    | (n, a) :: l => if bool_decide (n = name) then Some (f a) else go l
    end.

Definition all_of {A} (P : A -> Prop) : list A -> Prop :=
  fix go l := match l with [] => True | a :: l => P a /\ go l end.
Definition all_pairs {A B} (P : A -> B -> Prop) : list A -> list B -> Prop :=
  fix go l k :=
    match l, k with
    | [], [] => True
    | a :: l, b :: k => P a b /\ go l k
    | _, _ => False
    end.

Lemma all_of_Forall {A} (P : A -> Prop) l : all_of P l <-> Forall P l.
Proof.
  induction l as [|a l IH]; cbn; [by split|]. rewrite IH. symmetry. apply Forall_cons.
Qed.

Lemma all_pairs_Forall2 {A B} (P : A -> B -> Prop) l k : all_pairs P l k <-> Forall2 P l k.
Proof.
  revert k. induction l as [|a l IH]; intros [|b k]; cbn.
  - split; constructor.
  - split; [done|]. intros F. inversion F.
  - split; [done|]. intros F. inversion F.
  - rewrite IH. symmetry. apply Forall2_cons.
Qed.

Lemma assoc_map {A B} (f : A -> B) name l : assoc f name l = f <$> assoc id name l.
Proof. induction l as [|[n a] l IH]; cbn; [done|]. by case_bool_decide. Qed.

Fixpoint nsize (v : nval) : nat :=
  match v with
  | NStruct fs => S (sumnat (map (fun f => S (nsize f.2)) fs))
  | NMap es => S (sumnat (map (fun e => S (nsize e.2)) es))
  | NSet l | NList l => S (sumnat (map (fun e => S (nsize e)) l))
  | _ => 1
  end.

(** ** The calls of a client *)

Section Client.
Context `{Ppapi} `{Platform}.
Abbreviation N := TNativeClientProtocol.

Definition for_each {A} (f : A -> M N unit) : list A -> M N unit :=
  fix go l := match l with [] => ret tt | x :: l => do! f x in go l end.

Definition write_field (write : nval -> M N unit) (f : list Z * nval) : M N unit :=
  do! writeFieldBegin (Some f.1) T_UNKNOWN kFieldIdUnknown in
  do! write f.2 in
  do! writeFieldEnd in ret tt.

Definition write_entry (write : nval -> M N unit) (e : list Z * nval) : M N unit :=
  do! writeString e.1 in write e.2.

Fixpoint write_nval (v : nval) : M N unit :=
  match v with
  | NBool b => do! writeBool b in ret tt
  | NByte z => do! writeByte z in ret tt
  | NI16 z => do! writeI16 z in ret tt
  | NI32 z => do! writeI32 z in ret tt
  | NI64 z => do! writeI64 z in ret tt
  | NDouble d => do! writeDouble d in ret tt
  | NString s => do! writeString s in ret tt
  | NBinary s => do! writeBinary s in ret tt
  | NStruct fs =>
      do! writeStructBegin None in
      do! for_each (write_field write_nval) fs in
      do! writeFieldStop in do! writeStructEnd in ret tt
  | NMap es =>
      do! writeMapBegin T_STRING T_UNKNOWN (zlen es) in
      do! for_each (write_entry write_nval) es in
      do! writeMapEnd in ret tt
  | NSet l =>
      do! writeSetBegin T_UNKNOWN (zlen l) in
      do! for_each write_nval l in
      do! writeSetEnd in ret tt
  | NList l =>
      do! writeListBegin T_UNKNOWN (zlen l) in
      do! for_each write_nval l in
      do! writeListEnd in ret tt
  end.

(** One round of the loop over the fields of a struct: a field the type does
    not name is skipped. *)
Definition read_field (read : list Z -> option (M N nval)) (fs : list (list Z * nval))
    : M N (list (list Z * nval) + list (list Z * nval)) :=
  let! '(_, (name, ftype, _)) := readFieldBegin [] 0 in
  if ftype =? T_STOP then ret (inr fs) else
  let! fs :=
    match read name with
    | Some m => let! v := m in ret (fs ++ [(name, v)])
    | None => do! NativeClient.skip ftype in ret fs
    end in
  do! readFieldEnd in
  ret (inl fs).

Definition read_entry (read : M N nval) (es : list (list Z * nval)) : M N (list (list Z * nval)) :=
  let! '(_, k) := readString in
  let! v := read in
  ret (es ++ [(k, v)]).

Definition read_elem (read : M N nval) (l : list nval) : M N (list nval) :=
  let! v := read in ret (l ++ [v]).

(** [fuel] bounds the loop over the fields of each struct. *)
Fixpoint read_nval (fuel : Z) (t : ntype) : M N nval :=
  match t with
  | TyBool => let! '(_, b) := readBool in ret (NBool b)
  | TyByte => let! '(_, z) := readByte in ret (NByte z)
  | TyI16 => let! '(_, z) := readI16 in ret (NI16 z)
  | TyI32 => let! '(_, z) := readI32 in ret (NI32 z)
  | TyI64 => let! '(_, z) := readI64 in ret (NI64 z)
  | TyDouble => let! '(_, d) := readDouble in ret (NDouble d)
  | TyString => let! '(_, s) := readString in ret (NString s)
  | TyBinary => let! '(_, s) := readBinary in ret (NBinary s)
  | TyStruct fields =>
      do! readStructBegin in
      let! fs := iterate fuel (read_field (fun name => assoc (read_nval fuel) name fields)) [] in
      do! readStructEnd in
      ret (NStruct fs)
  | TyMap t =>
      let! '(_, n) := readMapBegin in
      let! es := for_ n (read_entry (read_nval fuel t)) [] in
      do! readMapEnd in
      ret (NMap es)
  | TySet t =>
      let! '(_, n) := readSetBegin in
      let! l := for_ n (read_elem (read_nval fuel t)) [] in
      do! readSetEnd in
      ret (NSet l)
  | TyList t =>
      let! '(_, n) := readListBegin in
      let! l := for_ n (read_elem (read_nval fuel t)) [] in
      do! readListEnd in
      ret (NList l)
  end.
End Client.

(** ** Types *)

(** The fields the type names have the types it gives them. *)
Fixpoint typed (t : ntype) (v : nval) : bool :=
  match t, v with
  | TyBool, NBool _ | TyDouble, NDouble _ | TyString, NString _ | TyBinary, NBinary _ => true
  | TyByte, NByte z => in_sb 8 z
  | TyI16, NI16 z => in_sb 16 z
  | TyI32, NI32 z => in_sb 32 z
  | TyI64, NI64 z => in_sb 64 z
  | TyStruct fields, NStruct fs =>
      forallb (fun f => match assoc id f.1 fields with
                        | Some t => typed t f.2
                        | None => true
                        end) fs
  | TyMap t, NMap es => forallb (fun e => typed t e.2) es
  | TySet t, NSet l | TyList t, NList l => forallb (typed t) l
  | _, _ => false
  end.

(** [r] is [v] as a reader of type [t] gets it: the fields the type does not
    name are gone, fields and map entries come in some other order. *)
Inductive reads : ntype -> nval -> nval -> Prop :=
| reads_bool b : reads TyBool (NBool b) (NBool b)
| reads_byte z : reads TyByte (NByte z) (NByte z)
| reads_i16 z : reads TyI16 (NI16 z) (NI16 z)
| reads_i32 z : reads TyI32 (NI32 z) (NI32 z)
| reads_i64 z : reads TyI64 (NI64 z) (NI64 z)
| reads_double d : reads TyDouble (NDouble d) (NDouble d)
| reads_string s : reads TyString (NString s) (NString s)
| reads_binary s : reads TyBinary (NBinary s) (NBinary s)
| reads_struct fields fs fs' rs :
    fs ≡ₚ fs' ->
    reads_fields fields fs' rs ->
    reads (TyStruct fields) (NStruct fs) (NStruct rs)
| reads_map t es es' rs :
    es ≡ₚ es' ->
    reads_entries t es' rs ->
    reads (TyMap t) (NMap es) (NMap rs)
| reads_set t l rs : reads_elems t l rs -> reads (TySet t) (NSet l) (NSet rs)
| reads_list t l rs : reads_elems t l rs -> reads (TyList t) (NList l) (NList rs)
with reads_fields : list (list Z * ntype) -> list (list Z * nval) -> list (list Z * nval) -> Prop :=
| reads_none fields : reads_fields fields [] []
| reads_field fields n t v r fs rs :
    assoc id n fields = Some t -> reads t v r -> reads_fields fields fs rs ->
    reads_fields fields (fs ++ [(n, v)]) (rs ++ [(n, r)])
| reads_skipped fields n v fs rs :
    assoc id n fields = None -> reads_fields fields fs rs ->
    reads_fields fields (fs ++ [(n, v)]) rs
with reads_entries : ntype -> list (list Z * nval) -> list (list Z * nval) -> Prop :=
| reads_no_entry t : reads_entries t [] []
| reads_entry t k v r es rs :
    reads t v r -> reads_entries t es rs ->
    reads_entries t (es ++ [(k, v)]) (rs ++ [(k, r)])
with reads_elems : ntype -> list nval -> list nval -> Prop :=
| reads_no_elem t : reads_elems t [] []
| reads_elem t v r l rs :
    reads t v r -> reads_elems t l rs -> reads_elems t (l ++ [v]) (rs ++ [r]).
