(* ===== verification/NativeReading.v ===== *)
(** * Reading browser variables: the lemmas

    [denotes] and the specification of the reading half of
    TNativeClientProtocol.cpp: where the protocol stands ([offers]), what
    [readVar] answers there, and that [read_nval] answers the value a variable
    stands for and leaves the heap's objects as they were. *)

From S2P Require Export NativeValues.

(** [wp], through the asserts that hold too. *)
Ltac wpa :=
  repeat first
    [ wp1
    | lazymatch goal with
      | |- runs (assert_ ?b) _ _ _ => apply runs_assert; [reflexivity|]; cbv beta
      end ].

Section Reading.
Context `{Api : Ppapi} `{Laws : !PpapiLaws} `{Plat : Platform} `{Unb : !Unbounded}.
Abbreviation N := TNativeClientProtocol.

(** ** What a variable stands for *)

(** An integer comes as an int or as a double that holds it. *)
Definition denotes_int (x : Var) (z : Z) : Prop :=
  (is_int x = true /\ AsInt x = z) \/
  (is_double x = true /\ double_is (AsDouble x) z /\ Z.abs z <= 2 ^ 53).

(** [D] holds of the dictionaries and arrays the value is made of. *)
Definition holds_dictionary (D : Var -> Prop) (h : Heap) (x : Var) (names : list (list Z)) : Prop :=
  D x /\ known h x /\ is_dictionary x = true /\ NoDup names /\
  dom (entries h x) = list_to_set (C := gset (list Z)) names /\ zlen names < 2 ^ 31.

Definition holds_array (D : Var -> Prop) (h : Heap) (x : Var) {A} (l : list A) : Prop :=
  D x /\ known h x /\ is_array x = true /\ zlen l < 2 ^ 31.

Fixpoint denotes (D : Var -> Prop) (h : Heap) (v : nval) (x : Var) {struct v} : Prop :=
  match v with
  | NBool b => is_bool x = true /\ AsBool x = b
  | NByte z | NI16 z | NI32 z | NI64 z => denotes_int x z
  | NDouble d => (is_double x = true \/ is_int x = true) /\ AsDouble x = d
  | NString s => is_string x = true /\ AsString x = s
  | NBinary s =>
      is_string x = true /\ zlen (AsString x) mod 4 <> 1 /\ decoding (AsString x) = s
  | NStruct fs | NMap fs =>
      holds_dictionary D h x (map fst fs) /\
      all_of (fun f => exists y, entries h x !! f.1 = Some y /\ denotes D h f.2 y) fs
  | NSet l | NList l => holds_array D h x l /\ all_pairs (fun v y => denotes D h v y) l (elems h x)
  end.

Lemma denotes_defined D h v x : denotes D h v x -> is_null x = false /\ is_undefined x = false.
Proof.
  assert (forall t, is_type t x = true -> t <> PP_VARTYPE_NULL -> t <> PP_VARTYPE_UNDEFINED ->
    is_null x = false /\ is_undefined x = false) as Ht.
  { intros t Hx H1 H2. split; by eapply is_type_other. }
  intros Hd. assert (exists t, is_type t x = true /\ t <> PP_VARTYPE_NULL /\
    t <> PP_VARTYPE_UNDEFINED) as (t & H1 & H2 & H3); [|by apply (Ht t)].
  destruct v; cbn in Hd; unfold denotes_int, holds_dictionary, holds_array in Hd;
    [exists PP_VARTYPE_BOOL| | | | |
     |exists PP_VARTYPE_STRING|exists PP_VARTYPE_STRING|exists PP_VARTYPE_DICTIONARY
     |exists PP_VARTYPE_DICTIONARY|exists PP_VARTYPE_ARRAY|exists PP_VARTYPE_ARRAY];
    try (split; [apply Hd|split; discriminate]).
  1,2,3,4: destruct Hd as [[Hd _]|[Hd _]];
    [exists PP_VARTYPE_INT32|exists PP_VARTYPE_DOUBLE]; (split; [apply Hd|split; discriminate]).
  destruct Hd as [[Hd|Hd] _];
    [exists PP_VARTYPE_DOUBLE|exists PP_VARTYPE_INT32]; (split; [apply Hd|split; discriminate]).
Qed.

Lemma denotes_mono (D D' : Var -> Prop) h v x :
  (forall o, D o -> D' o) -> denotes D h v x -> denotes D' h v x.
Proof.
  intros HD. revert x. induction v as [| | | | | | | |fs IH|fs IH|l IH|l IH] using nval_nested_ind;
    intros x; cbn; try done.
  1,2: intros [(H1 & Hr) Hf]; split; [by split; [apply HD|]|];
    rewrite all_of_Forall in *; rewrite Forall_forall in *; intros f Hin;
    destruct (Hf f Hin) as (y & Hy & Hd); eauto.
  1,2: intros [(H1 & Hr) Hf]; split; [by split; [apply HD|]|];
    rewrite all_pairs_Forall2 in *;
    clear H1 Hr; induction Hf; inversion IH; subst; constructor; auto.
Qed.

(** Heaps that leave [D] alone leave the value alone. *)
Lemma denotes_extends (U D : Var -> Prop) h h' v x :
  extends U h h' -> (forall o, D o -> ~ U o) -> denotes D h v x -> denotes D h' v x.
Proof.
  intros Hx HD. revert x. induction v as [| | | | | | | |fs IH|fs IH|l IH|l IH] using nval_nested_ind;
    intros x; cbn; try done.
  1,2: intros [(H1 & Hk & Hr) Hf]; unfold holds_dictionary;
    rewrite (extends_entries U h h' x) by auto;
    split; [split; [done|]; split; [by eapply extends_known|done]|];
    rewrite all_of_Forall in *; rewrite Forall_forall in *; intros f Hin;
    destruct (Hf f Hin) as (y & Hy & Hd); eauto.
  1,2: intros [(H1 & Hk & Hr) Hf]; unfold holds_array;
    rewrite (extends_elems U h h' x) by auto;
    split; [split; [done|]; split; [by eapply extends_known|done]|];
    rewrite all_pairs_Forall2 in *;
    clear H1 Hk Hr; induction Hf; inversion IH; subst; constructor; auto.
Qed.

Lemma denotes_new (D : Var -> Prop) h h' v x :
  extends nothing h h' -> denotes D h v x -> denotes D h' v x.
Proof. intros Hx. apply (denotes_extends nothing); [done|]. by intros o _ []. Qed.

(** ** Where a context stands *)

Section Context.
Import ReaderContext.
Implicit Types (c : ReaderContext.t) (h : Heap).

Definition entry_at (h : Heap) (c : ReaderContext.t) (k : Var) : Prop :=
  is_dictionary (var_ c) = true /\ known h (var_ c) /\
  is_array (keys_ c) = true /\ known h (keys_ c) /\ zlen (elems h (keys_ c)) < 2 ^ 31 /\
  0 <= index_ c /\ elems h (keys_ c) !! Z.to_nat (index_ c) = Some k /\ is_string k = true.

(** [x] is the variable the context gives next. *)
Inductive next_in (h : Heap) (c : ReaderContext.t) (x : Var) : Prop :=
| next_value k :
    type_ c = DICTIONARY_CONTEXT \/ type_ c = MAP_VALUE_CONTEXT ->
    entry_at h c k -> entries h (var_ c) !! AsString k = Some x -> next_in h c x
| next_key : type_ c = MAP_KEY_CONTEXT -> entry_at h c x -> next_in h c x
| next_elem :
    type_ c = LIST_CONTEXT -> is_array (var_ c) = true -> known h (var_ c) ->
    zlen (elems h (var_ c)) < 2 ^ 31 -> 0 <= index_ c ->
    elems h (var_ c) !! Z.to_nat (index_ c) = Some x -> next_in h c x.

Definition advanced (c : ReaderContext.t) : ReaderContext.t :=
  match type_ c with
  | DICTIONARY_CONTEXT | LIST_CONTEXT => Make (var_ c) (keys_ c) (type_ c) (index_ c + 1)
  | MAP_KEY_CONTEXT => Make (var_ c) (keys_ c) MAP_VALUE_CONTEXT (index_ c)
  | MAP_VALUE_CONTEXT => Make (var_ c) (keys_ c) MAP_KEY_CONTEXT (index_ c + 1)
  end.

Lemma lookup_below {A} (l : list A) i x :
  0 <= i -> l !! Z.to_nat i = Some x -> zlen l < 2 ^ 31 -> i < zlen l /\ u32 i = i.
Proof.
  intros Hi Hl Hs. apply lookup_lt_Some in Hl. unfold zlen in *.
  split; [lia|]. apply wrapu_small. unfold in_u. lia.
Qed.

Lemma size_dictionary h c Q E :
  is_dictionary (var_ c) = true -> is_array (keys_ c) = true -> zlen (elems h (keys_ c)) < 2 ^ 31 ->
  Q (zlen (elems h (keys_ c))) (c, h) -> runs size (c, h) Q E.
Proof.
  intros Hd Ha Hl HQ. unfold size. wpa. cbn [fst]. rewrite Hd. wpa. cbn [fst snd].
  rewrite array_length_ok by (done || lia).
  rewrite (wraps_small 32); [done|lia|]. pose proof (zlen_nonneg (elems h (keys_ c))). unfold in_s. lia.
Qed.

Lemma size_array h c Q E :
  is_array (var_ c) = true -> zlen (elems h (var_ c)) < 2 ^ 31 ->
  Q (zlen (elems h (var_ c))) (c, h) -> runs size (c, h) Q E.
Proof.
  intros Ha Hl HQ. unfold size. wpa. cbn [fst].
  replace (is_dictionary (var_ c)) with false by (symmetry; by eapply is_type_other).
  unfold asArray. wpa. cbn [fst]. rewrite Ha. wpa. cbn [fst snd].
  rewrite array_length_ok by (done || lia).
  rewrite (wraps_small 32); [done|lia|]. pose proof (zlen_nonneg (elems h (var_ c))). unfold in_s. lia.
Qed.

Lemma size_next h c x Q E :
  next_in h c x -> (forall n, index_ c < n < 2 ^ 31 -> Q n (c, h)) -> runs size (c, h) Q E.
Proof.
  intros Hn HQ. inversion Hn as [k _ (Hd & _ & Ha & _ & Hl & Hi & Hk & _)
    |_ (Hd & _ & Ha & _ & Hl & Hi & Hk & _)|_ Ha _ Hl Hi Hk].
  - destruct (lookup_below _ _ _ Hi Hk Hl). by apply size_dictionary; [..|apply HQ].
  - destruct (lookup_below _ _ _ Hi Hk Hl). by apply size_dictionary; [..|apply HQ].
  - destruct (lookup_below _ _ _ Hi Hk Hl). by apply size_array; [..|apply HQ].
Qed.

Lemma isAtEnd_next h c x Q E : next_in h c x -> Q false (c, h) -> runs isAtEnd (c, h) Q E.
Proof.
  intros Hn HQ. unfold isAtEnd. apply runs_bind. eapply size_next; [done|].
  intros n Hi. wpa. cbn [fst]. by replace (n <=? index_ c) with false by lia.
Qed.

Lemma advance_next h c x Q E : next_in h c x -> Q tt (advanced c, h) -> runs advance (c, h) Q E.
Proof.
  intros Hn HQ. unfold advance. apply runs_bind. eapply isAtEnd_next; [done|].
  wpa. unfold advanced in HQ. cbn [fst snd]. by destruct (type_ c).
Qed.

Lemma below_next h c l k Q E :
  is_array l = true -> 0 <= index_ c -> elems h l !! Z.to_nat (index_ c) = Some k ->
  zlen (elems h l) < 2 ^ 31 -> Q tt (c, h) -> runs (below l) (c, h) Q E.
Proof.
  intros Ha Hi Hk Hl HQ. unfold below. wpa. cbn [fst snd].
  destruct (lookup_below _ _ _ Hi Hk Hl) as [Hlt ->].
  rewrite array_length_ok by (done || lia). by replace (_ <? _) with true by lia.
Qed.

Lemma array_get_next h c l k :
  is_array l = true -> 0 <= index_ c -> elems h l !! Z.to_nat (index_ c) = Some k ->
  zlen (elems h l) < 2 ^ 31 -> array_get l (u32 (index_ c)) h = k.
Proof.
  intros Ha Hi Hk Hl. destruct (lookup_below _ _ _ Hi Hk Hl) as [Hlt ->].
  rewrite array_get_ok by (done || lia). by rewrite Hk.
Qed.

Lemma nextKey_entry h c k Q E : entry_at h c k -> Q k (c, h) -> runs nextKey (c, h) Q E.
Proof.
  intros (_ & _ & Ha & _ & Hl & Hi & Hk & _) HQ. unfold nextKey. wpa. cbn [fst].
  eapply below_next; [done..|]. wpa. cbn [snd]. by rewrite (array_get_next h c _ k).
Qed.

Lemma nextValue_entry h c k x Q E :
  entry_at h c k -> entries h (var_ c) !! AsString k = Some x -> Q x (c, h) ->
  runs nextValue (c, h) Q E.
Proof.
  intros (Hd & _ & Ha & _ & Hl & Hi & Hk & Hs) Hx HQ. unfold nextValue, asDictionary. wpa. cbn [fst].
  eapply below_next; [done..|]. wpa. cbn [fst]. rewrite Hd. wpa. cbn [snd].
  rewrite (array_get_next h c _ k) by done. rewrite dictionary_get_ok by done. by rewrite Hx.
Qed.

Lemma nextKeyValue_entry h c k x Q E :
  entry_at h c k -> entries h (var_ c) !! AsString k = Some x -> Q (k, x) (c, h) ->
  runs nextKeyValue (c, h) Q E.
Proof.
  intros Hn Hx HQ. pose proof Hn as (Hd & _ & _ & _ & _ & _ & _ & Hs).
  unfold nextKeyValue, asDictionary. apply runs_bind. eapply nextKey_entry; [done|].
  wpa. cbn [fst]. rewrite Hd. wpa. cbn [snd]. rewrite dictionary_get_ok by done. by rewrite Hx.
Qed.

Lemma nextVar_next h c x Q E : next_in h c x -> Q x (c, h) -> runs nextVar (c, h) Q E.
Proof.
  intros Hn HQ. unfold nextVar. wpa. cbn [fst]. inversion Hn as [k Ht Hk Hx|Ht Hk|Ht Ha Hv Hl Hi Hx].
  - destruct Ht as [-> | ->]; by eapply nextValue_entry.
  - rewrite Ht. by eapply nextKey_entry.
  - rewrite Ht. unfold nextArrayValue, asArray. wpa. cbn [fst]. rewrite Ha. wpa.
    eapply below_next; [done..|]. wpa. cbn [fst snd]. by rewrite (array_get_next h c _ x).
Qed.

(** A context is not disturbed by new objects. *)
Lemma entry_at_extends h h' c k : extends nothing h h' -> entry_at h c k -> entry_at h' c k.
Proof.
  intros Hx (Hd & Hv & Ha & Hk & Hr). unfold entry_at.
  rewrite (extends_elems nothing h h' (keys_ c)) by (done || by intros []).
  split; [done|]. split; [by eapply extends_known|]. split; [done|].
  split; [by eapply extends_known|done].
Qed.

Lemma next_in_extends h h' c x : extends nothing h h' -> next_in h c x -> next_in h' c x.
Proof.
  intros Hx Hn. inversion Hn as [k Ht Hk He|Ht Hk|Ht Ha Hv Hl Hi He].
  - apply (next_value h' c x k); [done|by eapply entry_at_extends|].
    destruct Hk as (_ & Hv & _). by rewrite (extends_entries nothing h h') by (done || by intros []).
  - apply next_key; [done|]. by eapply entry_at_extends.
  - apply next_elem; try done; rewrite ?(extends_elems nothing h h') by (done || by intros []); try done.
    by eapply extends_known.
Qed.
End Context.

(** ** Where the protocol stands *)

Definition offers (p : N) (x : Var) : Prop :=
  match reader_stack_ p with
  | [] => root_var_ p = Some x
  | c :: _ => next_in (heap p) c x
  end.

(** The protocol once that variable is read. *)
Definition consumed (p : N) : N :=
  match reader_stack_ p with
  | [] => p
  | c :: l => set_readers (advanced c :: l) p
  end.

Lemma runs_topReader {A} (m : M (ReaderContext.t * Heap) A) c l p Q E :
  reader_stack_ p = c :: l ->
  runs m (c, heap p) (fun a s => Q a (set_readers (s.1 :: l) (set_heap s.2 p)))
    (fun e s => E e (set_readers (s.1 :: l) (set_heap s.2 p))) ->
  runs (topReaderContext m) p Q E.
Proof.
  intros Hs. unfold runs, topReaderContext. rewrite Hs. by destruct (m (c, heap p)) as [[] []].
Qed.

Lemma set_same c l p : reader_stack_ p = c :: l -> set_readers (c :: l) (set_heap (heap p) p) = p.
Proof. destruct p. cbn. by intros ->. Qed.

Lemma readVar_offers p x Q E : offers p x -> Q x (consumed p) -> runs readVar p Q E.
Proof.
  unfold offers, consumed. intros Ho HQ. unfold readVar. wpa.
  destruct (reader_stack_ p) as [|c l] eqn:Hs; wpa; [by rewrite Ho; wpa|].
  eapply runs_topReader; [done|]. eapply nextVar_next; [done|]. cbn [fst snd].
  rewrite set_same by done. wpa. eapply runs_topReader; [done|].
  eapply advance_next; [done|]. cbn [fst snd]. wpa. by destruct p.
Qed.

Lemma consumed_heap p : heap (consumed p) = heap p.
Proof. unfold consumed. by destruct (reader_stack_ p). Qed.

Lemma offers_extends p x h' : extends nothing (heap p) h' -> offers p x -> offers (set_heap h' p) x.
Proof.
  unfold offers. cbn. destruct (reader_stack_ p); [done|]. by apply next_in_extends.
Qed.

(** *** Scalars *)

Lemma precise_doubles :
  double_is kMaxPreciseDouble (2 ^ 53) /\ double_is kMinPreciseDouble (- 2 ^ 53).
Proof. by vm_compute. Qed.

Lemma readIntegerValue_denotes p x z Q E :
  offers p x -> denotes_int x z -> Q z (consumed p) -> runs readIntegerValue p Q E.
Proof.
  intros Ho Hz HQ. unfold readIntegerValue. wpa. eapply readVar_offers; [done|].
  destruct Hz as [[Hi Hz]|(Hd & Hz & Hb)].
  - rewrite Hi. wpa. by rewrite Hz.
  - replace (is_int x) with false by (symmetry; eapply is_type_other; [exact Hd|discriminate]).
    rewrite Hd. rewrite (double_is_no_fraction _ z) by done.
    destruct precise_doubles as [HM Hm].
    rewrite (double_ltb_is _ _ (2 ^ 53) z), (double_ltb_is _ _ z (- 2 ^ 53)) by done.
    replace (2 ^ 53 <? z) with false by lia. replace (z <? - 2 ^ 53) with false by lia.
    cbn [orb]. assert (in_s 64 z) as Hr by (unfold in_s; lia).
    rewrite (int64_of_double_is _ z) by assumption. wpa. done.
Qed.

Lemma read_integer_denotes type w p x z Q E :
  1 <= w -> offers p x -> denotes_int x z -> in_s w z -> Q (0, z) (consumed p) ->
  runs (READ_INTEGER_VALUE type w) p Q E.
Proof.
  intros Hw Ho Hz Hr HQ. unfold READ_INTEGER_VALUE. wpa. eapply readIntegerValue_denotes; [done..|].
  unfold in_s in Hr. replace (2 ^ (w - 1) - 1 <? z) with false by lia.
  replace (z <? - 2 ^ (w - 1)) with false by lia. cbn [orb]. wpa. by rewrite wraps_small.
Qed.

Lemma readString_denotes p x Q E :
  offers p x -> is_string x = true -> Q (0, AsString x) (consumed p) -> runs readString p Q E.
Proof. intros Ho Hs HQ. unfold readString. wpa. eapply readVar_offers; [done|]. by rewrite Hs. Qed.

(** *** Containers *)

(** What [ReaderContext] makes of a dictionary: its keys, as strings. *)
Definition keys_listed (h : Heap) (keys x : Var) : Prop :=
  is_array keys = true /\ known h keys /\ Forall (fun k => is_string k = true) (elems h keys) /\
  map AsString (elems h keys) ≡ₚ (map_to_list (entries h x)).*1.

Lemma constructor_dictionary h x type Q E :
  is_dictionary x = true -> known h x -> type = DICTIONARY_CONTEXT \/ type = MAP_KEY_CONTEXT ->
  (forall keys h', extends nothing h h' -> keys_listed h' keys x ->
     Q (ReaderContext.Make x keys type 0) h') ->
  runs (ReaderContext.constructor x type) h Q E.
Proof.
  intros Hd Hk Ht HQ. unfold ReaderContext.constructor. apply runs_bind.
  unfold runs at 1, browser. pose proof (new_array_extends h) as Ha.
  destruct (new_array h) as [a h1]. destruct Ha as (_ & _ & _ & _ & Hx1).
  rewrite Hd. apply runs_bind. apply runs_assert; [by destruct Ht as [-> | ->]|].
  apply runs_bind. unfold runs at 1, browser.
  pose proof (dictionary_keys_extends h1 x Hd) as Hks. destruct (dictionary_keys x h1) as [ks h2].
  destruct Hks as (Hka & Hkk & Hkf & Hkp & Hx2). apply runs_ret, HQ.
  - by eapply extends_trans.
  - split; [done|]. split; [done|]. split; [done|].
    rewrite Hkp. rewrite (extends_entries nothing h1 h2 x); [done..| |by intros []].
    by eapply extends_known.
Qed.

Lemma constructor_array h x Q E :
  is_array x = true ->
  (forall keys h', extends nothing h h' -> Q (ReaderContext.Make x keys LIST_CONTEXT 0) h') ->
  runs (ReaderContext.constructor x LIST_CONTEXT) h Q E.
Proof.
  intros Ha HQ. unfold ReaderContext.constructor. apply runs_bind.
  unfold runs at 1, browser. pose proof (new_array_extends h) as Hn.
  destruct (new_array h) as [a h1]. destruct Hn as (_ & _ & _ & _ & Hx1).
  replace (is_dictionary x) with false by (symmetry; by eapply is_type_other). rewrite Ha.
  wpa. by apply HQ.
Qed.

(** The protocol inside a container it has begun to read. *)
Definition inside (p : N) (c : ReaderContext.t) (h : Heap) : N :=
  set_readers (c :: reader_stack_ (consumed p)) (set_heap h (consumed p)).

Lemma pushReader_runs c p Q E :
  (is_dictionary (ReaderContext.var_ c) || is_array (ReaderContext.var_ c))%bool = true ->
  Q tt (set_readers (c :: reader_stack_ p) p) -> runs (pushReaderContext c) p Q E.
Proof. intros Hc HQ. unfold pushReaderContext. wpa. apply runs_assert; [done|]. by wpa. Qed.

Lemma popReader_runs p c h Q E :
  Q tt (set_heap h (consumed p)) -> runs popReaderContext (inside p c h) Q E.
Proof.
  intros HQ. unfold popReaderContext, inside. wpa. cbn. wpa. cbn. by destruct (consumed p).
Qed.

Lemma readStructBegin_denotes p x Q E :
  offers p x -> is_dictionary x = true -> known (heap p) x ->
  (forall keys h, extends nothing (heap p) h -> keys_listed h keys x ->
     Q 0 (inside p (ReaderContext.Make x keys DICTIONARY_CONTEXT 0) h)) ->
  runs readStructBegin p Q E.
Proof.
  intros Ho Hd Hk HQ. unfold readStructBegin. wpa. eapply readVar_offers; [done|].
  unfold on_heap, ReaderContext.createDictionaryContext. wpa. rewrite consumed_heap, Hd. cbn [negb].
  apply constructor_dictionary; [done..|by left|]. intros keys h Hx Hl. cbv beta.
  unfold NativeClient.zero. wpa. apply pushReader_runs; [cbn; by rewrite Hd|]. wpa. by apply HQ.
Qed.

(** The beginning of a map, a set or a list answers the number of elements. *)
Lemma push_read_map p x Q E :
  offers p x -> is_dictionary x = true -> known (heap p) x ->
  zlen (map_to_list (entries (heap p) x)) < 2 ^ 31 ->
  (forall keys h, extends nothing (heap p) h -> keys_listed h keys x ->
     Q (0, zlen (map_to_list (entries (heap p) x)))
       (inside p (ReaderContext.Make x keys MAP_KEY_CONTEXT 0) h)) ->
  runs readMapBegin p Q E.
Proof.
  intros Ho Hd Hk Hl HQ. unfold readMapBegin, push_read. wpa. eapply readVar_offers; [done|].
  unfold on_heap, ReaderContext.createMapContext. wpa. rewrite consumed_heap, Hd. cbn [negb].
  apply constructor_dictionary; [done..|by right|]. intros keys h Hx Hks. cbv beta.
  wpa. apply pushReader_runs; [cbn; by rewrite Hd|]. wpa.
  assert (zlen (elems h keys) = zlen (map_to_list (entries (heap p) x))) as Hn.
  { destruct Hks as (_ & _ & _ & Hp). apply Permutation_length in Hp.
    rewrite (extends_entries nothing (heap p) h) in Hp by (done || by intros []).
    rewrite length_map in Hp. unfold zlen. rewrite Hp. by rewrite length_fmap. }
  eapply runs_topReader; [done|].
  apply size_dictionary; cbn; [done|apply Hks|lia|]. cbn. wpa.
  rewrite Hn, wrapu_small by (unfold in_u; pose proof (zlen_nonneg (map_to_list (entries (heap p) x))); lia).
  by apply HQ.
Qed.

Lemma push_read_array (create : Var -> M Heap ReaderContext.t) p x Q E :
  create = ReaderContext.createListContext ->
  offers p x -> is_array x = true -> known (heap p) x -> zlen (elems (heap p) x) < 2 ^ 31 ->
  (forall keys h, extends nothing (heap p) h ->
     Q (0, zlen (elems (heap p) x)) (inside p (ReaderContext.Make x keys LIST_CONTEXT 0) h)) ->
  runs (bind readVar (fun var => push_read (create var))) p Q E.
Proof.
  intros -> Ho Ha Hk Hl HQ. unfold push_read. wpa. eapply readVar_offers; [done|].
  unfold on_heap, ReaderContext.createListContext. wpa. rewrite consumed_heap, Ha. cbn [negb].
  apply constructor_array; [done|]. intros keys h Hx. cbv beta.
  wpa. apply pushReader_runs; [cbn; by rewrite Ha, orb_true_r|]. wpa.
  eapply runs_topReader; [done|].
  assert (elems h x = elems (heap p) x) as He by (apply (extends_elems nothing); done || by intros []).
  apply size_array; cbn; [done|by rewrite He|]. cbn. wpa. rewrite He.
  rewrite wrapu_small by (unfold in_u; pose proof (zlen_nonneg (elems (heap p) x)); lia).
  by apply HQ.
Qed.
End Reading.
