(* ===== verification/NativeReader.v ===== *)
(** * Reading a value back from the variable that stands for it

    [read_nval_denotes]: where a variable denotes a value of the type a client
    reads, its calls succeed and answer the value, the fields its type does not
    name left out, and no object of the heap is changed. *)

From S2P Require Export NativeReading.

(** ** Lists *)

Lemma take_S_snoc {A} (l : list A) i x : l !! i = Some x -> take (S i) l = take i l ++ [x].
Proof. intros Hx. by apply take_S_r. Qed.

Lemma nsize_elem {A} (f : A -> nat) (l : list A) x :
  x ∈ l -> (f x + length l <= sumnat (map (fun e => S (f e)) l))%nat.
Proof.
  unfold sumnat. induction 1 as [x l|x y l _ IH]; cbn; [|lia].
  assert (length l <= foldr Nat.add 0 (map (fun e => S (f e)) l))%nat; [|lia].
  clear. induction l; cbn; lia.
Qed.

Section Reader.
Context `{Api : Ppapi} `{Laws : !PpapiLaws} `{Plat : Platform} `{Unb : !Unbounded}.
Abbreviation N := TNativeClientProtocol.
Import ReaderContext.

Context (fuel : Z).

(** The keys of a dictionary, in the order of the array the browser gave, with
    the fields in that order. *)
Lemma fields_by_keys D h h' keys x (fs : list (list Z * nval)) :
  extends nothing h h' -> holds_dictionary D h x (map fst fs) -> keys_listed h' keys x ->
  exists fs', fs ≡ₚ fs' /\ map AsString (elems h' keys) = map fst fs' /\
    zlen (elems h' keys) < 2 ^ 31.
Proof.
  intros Hx (_ & Hk & _ & Hnd & Hdom & Hl) (_ & _ & _ & Hp).
  rewrite (extends_entries nothing h h' x) in Hp by (done || by intros []).
  assert (map AsString (elems h' keys) ≡ₚ map fst fs) as Hp'.
  { rewrite Hp. apply NoDup_Permutation; [apply NoDup_fst_map_to_list|done|].
    intros n. rewrite <- (elem_of_list_to_set (C := gset (list Z)) n (map fst fs)), <- Hdom.
    rewrite elem_of_dom, list_elem_of_fmap. split.
    - intros ([k y] & -> & Hin). apply elem_of_map_to_list in Hin. by exists y.
    - intros [y Hy]. exists (n, y). split; [done|]. by apply elem_of_map_to_list. }
  destruct (Permutation_map_inv _ _ Hp') as (fs' & He & Hpf).
  exists fs'. split; [done|]. split; [done|].
  apply Permutation_length in Hp'. rewrite length_map in Hp'. unfold zlen in *. lia.
Qed.

(** The entry at position [i] of a dictionary being read. *)
Definition walks (D : Var -> Prop) (h : Heap) (keys x : Var) (fs : list (list Z * nval)) : Prop :=
  is_dictionary x = true /\ known h x /\ is_array keys = true /\ known h keys /\
  Forall (fun k => is_string k = true) (elems h keys) /\
  map AsString (elems h keys) = map fst fs /\ zlen (elems h keys) < 2 ^ 31 /\
  Forall (fun f => exists y, entries h x !! f.1 = Some y /\ denotes D h f.2 y) fs.

Lemma walks_extends D h h' keys x fs :
  extends nothing h h' -> walks D h keys x fs -> walks D h' keys x fs.
Proof.
  intros Hx (H1 & H2 & H3 & H4 & H5 & H6 & H7 & H8). unfold walks.
  rewrite (extends_elems nothing h h' keys), (extends_entries nothing h h' x) by (done || by intros []).
  split; [done|]. split; [by eapply extends_known|]. split; [done|].
  split; [by eapply extends_known|]. split; [done|]. split; [done|]. split; [done|].
  eapply Forall_impl; [exact H8|]. cbn. intros f (y & Hy & Hd). exists y. split; [done|].
  by eapply denotes_new.
Qed.

Lemma walks_begin D h h' keys x (fs : list (list Z * nval)) :
  extends nothing h h' -> keys_listed h' keys x -> holds_dictionary D h x (map fst fs) ->
  all_of (fun f => exists y, entries h x !! f.1 = Some y /\ denotes D h f.2 y) fs ->
  exists fs', fs ≡ₚ fs' /\ walks D h' keys x fs'.
Proof.
  intros Hx Hl Hd Ha. destruct (fields_by_keys D h h' keys x fs Hx Hd Hl) as (fs' & Hp & He & Hs).
  exists fs'. split; [done|]. destruct Hd as (_ & Hk & Hd & _). destruct Hl as (H1 & H2 & H3 & _).
  split; [done|]. split; [by eapply extends_known|]. split; [done|]. split; [done|].
  split; [done|]. split; [done|]. split; [done|]. rewrite <- Hp.
  rewrite (extends_entries nothing h h' x) by (done || by intros []).
  rewrite all_of_Forall in Ha. eapply Forall_impl; [exact Ha|]. cbn.
  intros f (y & Hy & Hdy). exists y. split; [done|]. by eapply denotes_new.
Qed.

(** The [i]-th key and its value. *)
Lemma walks_at D h keys x fs type i n v :
  walks D h keys x fs -> fs !! i = Some (n, v) ->
  exists k y, entry_at h (Make x keys type (Z.of_nat i)) k /\ AsString k = n /\
    entries h x !! n = Some y /\ denotes D h v y.
Proof.
  intros (H1 & H2 & H3 & H4 & H5 & H6 & H7 & H8) Hi.
  assert (map fst fs !! i = Some n) as Hn by (rewrite list_lookup_fmap, Hi; done).
  rewrite <- H6, list_lookup_fmap in Hn. destruct (elems h keys !! i) as [k|] eqn:Hk; [|done].
  injection Hn as Hn. rewrite Forall_forall in H8.
  destruct (H8 (n, v)) as (y & Hy & Hd); [by eapply list_elem_of_lookup_2|].
  exists k, y. split; [|done]. unfold entry_at. cbn. rewrite Nat2Z.id.
  rewrite Forall_forall in H5. split; [done|]. split; [done|]. split; [done|]. split; [done|].
  split; [done|]. split; [lia|]. split; [done|]. apply H5. by eapply list_elem_of_lookup_2.
Qed.

Lemma walks_length D h keys x fs : walks D h keys x fs -> zlen (elems h keys) = zlen fs.
Proof.
  intros (_ & _ & _ & _ & _ & H6 & _). apply (f_equal length) in H6.
  rewrite !length_map in H6. unfold zlen. lia.
Qed.

(** What a client reads where the variable denotes [v]. *)
Definition read_post (t : ntype) (v : nval) (p : N) (r : nval) (p' : N) : Prop :=
  reads t v r /\ exists h, extends nothing (heap p) h /\ p' = set_heap h (consumed p).

Definition read_ok (v : nval) : Prop := forall t D p x,
  offers p x -> denotes D (heap p) v x -> typed t v = true -> Z.of_nat (nsize v) <= fuel ->
  succeeds (read_nval fuel t) p (read_post t v p).

(** *** The fields of a struct *)

Section Struct.
Context (D : Var -> Prop) (p : N) (keys x : Var) (h1 : Heap).
Context (fields : list (list Z * ntype)) (fs : list (list Z * nval)).
Context (Hw : walks D h1 keys x fs).
Context (Hfs : Forall (fun f => read_ok f.2) fs).
Context (Htyped : forallb (fun f => match assoc id f.1 fields with
                                    | Some t => typed t f.2
                                    | None => true
                                    end) fs = true).
Context (Hsize : Forall (fun f => Z.of_nat (nsize f.2) <= fuel) fs).

(** [n] fields are still to come. *)
Definition fields_read (n : Z) (acc : list (list Z * nval)) (q : N) : Prop :=
  exists i h, n = zlen fs - Z.of_nat i /\ (i <= length fs)%nat /\ extends nothing h1 h /\
    q = inside p (Make x keys DICTIONARY_CONTEXT (Z.of_nat i)) h /\
    reads_fields fields (take i fs) acc.

Lemma readFieldBegin_at i h name id n v Q E :
  walks D h keys x fs -> fs !! i = Some (n, v) ->
  let q := inside p (Make x keys DICTIONARY_CONTEXT (Z.of_nat i)) h in
  (forall y, offers q y -> denotes D h v y -> Q (0, (n, T_UNKNOWN, kFieldIdUnknown)) q) ->
  runs (readFieldBegin name id) q Q E.
Proof using Type.
  intros Hwh Hi q HQ. destruct (walks_at D h keys x fs DICTIONARY_CONTEXT i n v Hwh Hi)
    as (k & y & He & Hk & Hy & Hd).
  assert (next_in h (Make x keys DICTIONARY_CONTEXT (Z.of_nat i)) y) as Hn.
  { apply (next_value _ _ _ k); [by left|done|]. cbn. by rewrite Hk. }
  unfold readFieldBegin. apply runs_bind. eapply runs_topReader; [done|].
  eapply isAtEnd_next; [done|]. cbn [fst snd]. rewrite set_same by done.
  apply runs_bind. eapply runs_topReader; [done|].
  eapply nextKeyValue_entry; [done|cbn; by rewrite Hk|]. cbn [fst snd]. rewrite set_same by done.
  destruct (denotes_defined D h v y Hd) as [-> ->]. cbn [orb].
  destruct He as (_ & _ & _ & _ & _ & _ & _ & ->). cbn [negb]. wpa. rewrite Hk. by apply (HQ y).
Qed.

Lemma readFieldBegin_end h name id Q E :
  walks D h keys x fs ->
  let q := inside p (Make x keys DICTIONARY_CONTEXT (zlen fs)) h in
  Q (0, (name, T_STOP, id)) q -> runs (readFieldBegin name id) q Q E.
Proof using Type.
  intros Hwh q HQ. pose proof (walks_length D h keys x fs Hwh) as Hl.
  destruct Hwh as (H1 & H2 & H3 & H4 & H5 & H6 & H7 & H8).
  unfold readFieldBegin. apply runs_bind. eapply runs_topReader; [done|].
  unfold isAtEnd. apply runs_bind. apply size_dictionary; [done..|]. cbn [fst snd]. wpa.
  cbn [fst snd]. rewrite set_same by done. cbn [index_ keys_].
  change (heap q) with h. rewrite Hl, Z.leb_refl. by wpa.
Qed.

Lemma read_field_step n acc q :
  fields_read n acc q ->
  succeeds (read_field (fun name => assoc (read_nval fuel) name fields) acc) q
    (fun r q' => match r with
       | inl acc' => exists n', 0 <= n' <= n - 1 /\ fields_read n' acc' q'
       | inr acc' => fields_read 0 acc' q'
       end).
Proof using All.
  intros (i & h & -> & Hi & Hx & -> & Hr). pose proof (walks_extends D h1 h keys x fs Hx Hw) as Hwh.
  unfold read_field. destruct (fs !! i) as [[m v]|] eqn:Hl.
  - apply runs_bind. eapply readFieldBegin_at; [done..|]. intros y Ho Hd. cbv beta iota.
    change (T_UNKNOWN =? T_STOP) with false. cbv iota. pose proof (lookup_lt_Some _ _ _ Hl).
    rewrite assoc_map. pose proof (list_elem_of_lookup_2 _ _ _ Hl) as Hin.
    destruct (assoc id m fields) as [t|] eqn:Ha; cbn [fmap option_fmap option_map].
    + rewrite Forall_forall in Hfs, Hsize.
      rewrite forallb_forall in Htyped. specialize (Htyped (m, v)). cbn [fst snd] in Htyped.
      rewrite Ha in Htyped. apply runs_bind, runs_bind.
      eapply runs_mono; [apply (Hfs (m, v) Hin t D _ y Ho Hd)| |done].
      * apply Htyped. by apply list_elem_of_In.
      * apply (Hsize (m, v) Hin).
      * cbv beta. intros r q' (Hrv & h' & Hx' & ->). wpa. exists (zlen fs - Z.of_nat (S i)).
        unfold zlen. split; [lia|]. exists (S i), h'. split; [done|]. split; [lia|].
        split; [by eapply extends_trans|].
        split; [unfold inside, consumed; cbn; by replace (Z.of_nat i + 1) with (Z.of_nat (S i)) by lia|].
        rewrite (take_S_snoc _ _ _ Hl). by eapply reads_field.
    + apply runs_bind, runs_bind. unfold NativeClient.skip, NativeClient.zero.
      apply runs_bind, runs_gets. cbn [reader_stack_ inside set_readers]. apply runs_bind.
      eapply runs_topReader; [done|].
      eapply advance_next; [exact Ho|]. cbn [fst snd]. wpa. exists (zlen fs - Z.of_nat (S i)).
      unfold zlen. split; [lia|]. exists (S i), h. split; [done|]. split; [lia|].
      split; [done|].
      split; [unfold inside; cbn; by replace (Z.of_nat i + 1) with (Z.of_nat (S i)) by lia|].
      rewrite (take_S_snoc _ _ _ Hl). by apply reads_skipped.
  - apply lookup_ge_None in Hl. assert (i = length fs) as -> by lia.
    apply runs_bind. apply (readFieldBegin_end h); [done|]. cbn [Z.eqb T_STOP]. wpa.
    exists (length fs), h. unfold zlen. split; [lia|]. done.
Qed.

Lemma read_fields_ok :
  Z.of_nat (length fs) < fuel ->
  succeeds (iterate fuel (read_field (fun name => assoc (read_nval fuel) name fields)) [])
    (inside p (Make x keys DICTIONARY_CONTEXT 0) h1)
    (fun r q => reads_fields fields fs r /\
       exists h c, extends nothing h1 h /\ q = inside p c h).
Proof using All.
  intros Hf. eapply (succeeds_mono _ _ (fun r q => fields_read 0 r q)).
  - apply (runs_iterate_budget fields_read) with (n := zlen fs).
    + intros n acc q Hq. eapply runs_mono; [by apply read_field_step| |done].
      intros [acc'|acc'] q'; cbn; [|done]. intros (n' & Hn' & Hr). by exists n'.
    + exists O, h1. split; [lia|]. split; [lia|]. split; [apply extends_refl|]. split; [done|constructor].
    + unfold zlen. lia.
  - intros r q (i & h & Hi & Hl & Hx & -> & Hr). unfold zlen in Hi.
    assert (i = length fs) as -> by lia. rewrite firstn_all in Hr. split; [done|].
    by exists h, (Make x keys DICTIONARY_CONTEXT (Z.of_nat (length fs))).
Qed.
End Struct.

(** *** The entries of a map *)

Section Map.
Context (D : Var -> Prop) (p : N) (keys x : Var) (h1 : Heap) (t : ntype).
Context (es : list (list Z * nval)).
Context (Hw : walks D h1 keys x es).
Context (Hes : Forall (fun e => read_ok e.2) es).
Context (Htyped : forallb (fun e => typed t e.2) es = true).
Context (Hsize : Forall (fun e => Z.of_nat (nsize e.2) <= fuel) es).

Definition entries_read (i : Z) (acc : list (list Z * nval)) (q : N) : Prop :=
  exists h, extends nothing h1 h /\ q = inside p (Make x keys MAP_KEY_CONTEXT i) h /\
    reads_entries t (ztake i es) acc.

Lemma read_entry_step i acc q :
  0 <= i < zlen es -> entries_read i acc q ->
  succeeds (read_entry (read_nval fuel t) acc) q (fun acc' q' => entries_read (i + 1) acc' q').
Proof using All.
  intros Hi (h & Hx & -> & Hr). pose proof (walks_extends D h1 h keys x es Hx Hw) as Hwh.
  destruct (lookup_lt_is_Some_2 es (Z.to_nat i)) as [[m v] Hl]; [unfold zlen in Hi; lia|].
  pose proof (list_elem_of_lookup_2 _ _ _ Hl) as Hin.
  destruct (walks_at D h keys x es MAP_KEY_CONTEXT _ m v Hwh Hl) as (k & y & He & Hk & Hy & Hd).
  rewrite Z2Nat.id in He by lia. pose proof He as (_ & _ & _ & _ & _ & _ & _ & Hs).
  unfold read_entry. apply runs_bind.
  apply (readString_denotes _ k); [by apply next_key|done|]. cbv beta iota.
  change (consumed _) with (inside p (Make x keys MAP_VALUE_CONTEXT i) h). apply runs_bind.
  rewrite Forall_forall in Hes, Hsize. rewrite forallb_forall in Htyped.
  eapply runs_mono; [apply (Hes (m, v) Hin t D _ y)| |done].
  - apply (next_value _ _ _ k); [by right|done|]. cbn [var_]. by rewrite Hk.
  - exact Hd.
  - apply (Htyped (m, v)). by apply list_elem_of_In.
  - apply (Hsize (m, v) Hin).
  - cbv beta. intros r q' (Hrv & h' & Hx' & ->). wpa. exists h'.
    split; [by eapply extends_trans|]. split; [done|]. rewrite Hk.
    unfold ztake. replace (Z.to_nat (i + 1)) with (S (Z.to_nat i)) by lia.
    rewrite (take_S_snoc _ _ _ Hl). by apply reads_entry.
Qed.

Lemma read_entries_ok :
  succeeds (for_ (zlen es) (read_entry (read_nval fuel t)) [])
    (inside p (Make x keys MAP_KEY_CONTEXT 0) h1)
    (fun r q => reads_entries t es r /\ exists h c, extends nothing h1 h /\ q = inside p c h).
Proof using All.
  eapply (succeeds_mono _ _ (fun r q => entries_read (zlen es) r q)).
  - apply (runs_for entries_read); [apply zlen_nonneg| |].
    + exists h1. split; [apply extends_refl|]. split; [done|constructor].
    + intros. by apply read_entry_step.
  - intros r q (h & Hx & -> & Hr). rewrite ztake_ge in Hr by lia. split; [done|]. by eexists h, _.
Qed.
End Map.

(** *** The elements of a set or a list *)

Section Elems.
Context (D : Var -> Prop) (p : N) (keys x : Var) (h1 : Heap) (t : ntype) (l : list nval).
Context (Ha : is_array x = true) (Hk : known h1 x) (Hlen : zlen l < 2 ^ 31).
Context (Hden : Forall2 (fun v y => denotes D h1 v y) l (elems h1 x)).
Context (Hl : Forall read_ok l) (Htyped : forallb (typed t) l = true).
Context (Hsize : Forall (fun e => Z.of_nat (nsize e) <= fuel) l).

Definition elems_read (i : Z) (acc : list nval) (q : N) : Prop :=
  exists h, extends nothing h1 h /\ q = inside p (Make x keys LIST_CONTEXT i) h /\
    reads_elems t (ztake i l) acc.

Lemma read_elem_step i acc q :
  0 <= i < zlen l -> elems_read i acc q ->
  succeeds (read_elem (read_nval fuel t) acc) q (fun acc' q' => elems_read (i + 1) acc' q').
Proof using All.
  intros Hi (h & Hx & -> & Hr).
  destruct (lookup_lt_is_Some_2 l (Z.to_nat i)) as [v Hv]; [unfold zlen in Hi; lia|].
  pose proof (list_elem_of_lookup_2 _ _ _ Hv) as Hin.
  destruct (Forall2_lookup_l _ _ _ _ _ Hden Hv) as (y & Hy & Hd).
  assert (elems h x = elems h1 x) as He by (apply (extends_elems nothing); done || by intros []).
  unfold read_elem. apply runs_bind.
  rewrite Forall_forall in Hl, Hsize. rewrite forallb_forall in Htyped.
  eapply runs_mono; [apply (Hl v Hin t D _ y)| |done].
  - apply next_elem; cbn [var_ type_ index_ heap inside set_readers set_heap];
      [done|done|by eapply extends_known| |lia|by rewrite He].
    rewrite He. apply Forall2_length in Hden. unfold zlen in *. lia.
  - by eapply denotes_new.
  - apply (Htyped v). by apply list_elem_of_In.
  - apply (Hsize v Hin).
  - cbv beta. intros r q' (Hrv & h' & Hx' & ->). wpa. exists h'.
    split; [by eapply extends_trans|]. split; [done|].
    unfold ztake. replace (Z.to_nat (i + 1)) with (S (Z.to_nat i)) by lia.
    rewrite (take_S_snoc _ _ _ Hv). by apply reads_elem.
Qed.

Lemma read_elems_ok :
  succeeds (for_ (zlen l) (read_elem (read_nval fuel t)) [])
    (inside p (Make x keys LIST_CONTEXT 0) h1)
    (fun r q => reads_elems t l r /\ exists h c, extends nothing h1 h /\ q = inside p c h).
Proof using All.
  eapply (succeeds_mono _ _ (fun r q => elems_read (zlen l) r q)).
  - apply (runs_for elems_read); [apply zlen_nonneg| |].
    + exists h1. split; [apply extends_refl|]. split; [done|constructor].
    + intros. by apply read_elem_step.
  - intros r q (h & Hx & -> & Hr). rewrite ztake_ge in Hr by lia. split; [done|]. by eexists h, _.
Qed.
End Elems.

(** *** Values *)

Lemma read_post_scalar t v p : reads t v v -> read_post t v p v (consumed p).
Proof.
  intros Hr. split; [done|]. exists (heap p). split; [apply extends_refl|].
  rewrite <- consumed_heap at 1. by destruct (consumed p).
Qed.

(** A scalar: the read of its type, then the constructor. *)
Lemma read_scalar {A} (m : M N (Z * A)) (f : A -> nval) p t v a :
  reads t v v -> v = f a ->
  (forall Q, Q (0, a) (consumed p) -> runs m p Q (fun _ _ => False)) ->
  succeeds (let! '(_, a) := m in ret (f a)) p (read_post t v p).
Proof.
  intros Hr -> Hm. apply runs_bind, Hm. cbv beta iota. apply runs_ret. by apply read_post_scalar.
Qed.

(** Sets and lists are read alike. *)
Lemma read_array D p x t l (container : list nval -> nval) type :
  (forall rs, reads_elems t l rs -> reads type (container l) (container rs)) ->
  offers p x -> holds_array D (heap p) x l ->
  all_pairs (fun v y => denotes D (heap p) v y) l (elems (heap p) x) ->
  Forall read_ok l -> forallb (typed t) l = true ->
  Z.of_nat (S (sumnat (map (fun e => S (nsize e)) l))) <= fuel ->
  succeeds (let! '(_, n) := readListBegin in
            let! l := for_ n (read_elem (read_nval fuel t)) [] in
            do! readListEnd in ret (container l)) p (read_post type (container l) p).
Proof using All.
  intros Hc Ho (_ & Hk & Ha & Hlen) Hden IH Ht Hf. rewrite all_pairs_Forall2 in Hden.
  assert (zlen (elems (heap p) x) = zlen l) as Hn.
  { apply Forall2_length in Hden. unfold zlen. lia. }
  apply runs_bind. unfold readListBegin.
  eapply push_read_array; [done|done|done|done|by rewrite Hn|]. intros keys h Hx. rewrite Hn.
  cbv beta iota. apply runs_bind.
  eapply runs_mono; [eapply (read_elems_ok D p keys x h t l); try done| |done].
  - by eapply extends_known.
  - rewrite (extends_elems nothing (heap p) h) by (done || by intros []).
    eapply Forall2_impl; [exact Hden|]. intros v y. by apply denotes_new.
  - apply Forall_forall. intros e Hin. pose proof (nsize_elem nsize l e Hin). lia.
  - cbv beta. intros r q (Hr & h' & c & Hx' & ->). apply runs_bind.
    unfold readListEnd, NativeClient.zero. apply runs_bind, popReader_runs. wpa.
    split; [by apply Hc|]. exists h'. split; [by eapply extends_trans|done].
Qed.

Lemma read_denotes v : read_ok v.
Proof using All.
  induction v as [b|z|z|z|z|d|s|s|fs IH|es IH|l IH|l IH] using nval_nested_ind;
    intros t D p x Ho Hd Ht Hf; destruct t as [| | | | | | | |fields|t|t|t]; try discriminate Ht; cbn [read_nval].
  - destruct Hd as [Hb <-]. eapply read_scalar; [constructor|done|]. intros Q HQ.
    unfold readBool. apply runs_bind. eapply readVar_offers; [done|]. by rewrite Hb.
  - eapply read_scalar; [constructor|done|]. intros Q HQ.
    apply (read_integer_denotes _ 8 p x z); [lia|done|done|by apply bool_decide_eq_true in Ht|done].
  - eapply read_scalar; [constructor|done|]. intros Q HQ.
    apply (read_integer_denotes _ 16 p x z); [lia|done|done|by apply bool_decide_eq_true in Ht|done].
  - eapply read_scalar; [constructor|done|]. intros Q HQ.
    apply (read_integer_denotes _ 32 p x z); [lia|done|done|by apply bool_decide_eq_true in Ht|done].
  - eapply read_scalar; [constructor|done|]. intros Q HQ.
    unfold readI64. apply runs_bind. by eapply readIntegerValue_denotes.
  - destruct Hd as [Hk <-]. eapply read_scalar; [constructor|done|]. intros Q HQ.
    unfold readDouble. apply runs_bind. eapply readVar_offers; [done|].
    replace (is_double x || is_int x)%bool with true; [done|].
    destruct Hk as [-> | ->]; [done|by rewrite orb_true_r].
  - destruct Hd as [Hs <-]. eapply read_scalar; [constructor|done|]. intros Q HQ.
    by eapply readString_denotes.
  - destruct Hd as (Hs & Hm & <-). eapply read_scalar; [constructor|done|]. intros Q HQ.
    unfold readBinary. apply runs_bind. eapply readVar_offers; [done|]. rewrite Hs. cbn [negb].
    apply runs_bind. eapply succeeds_runs, succeeds_mono; [apply base64DecodeString_spec|].
    cbv beta. intros r q (-> & ->). by replace (zlen (AsString x) mod 4 =? 1) with false by lia.
  - destruct Hd as [Hd Ha]. pose proof Hd as (_ & Hk & Hdict & _).
    apply runs_bind. eapply readStructBegin_denotes; [done..|]. intros keys h Hx Hl.
    destruct (walks_begin D _ h keys x fs Hx Hl Hd Ha) as (fs' & Hp & Hw).
    cbn [typed] in Ht. cbn [nsize] in Hf.
    assert (Forall (fun f => Z.of_nat (nsize f.2) + Z.of_nat (length fs) < fuel) fs) as Hs.
    { apply Forall_forall. intros f Hin.
      pose proof (nsize_elem (fun f => nsize f.2) fs f Hin). lia. }
    apply runs_bind. eapply runs_mono; [eapply (read_fields_ok D p keys x h fields fs')| |done].
    + done.
    + by rewrite <- Hp.
    + rewrite forallb_forall in *. intros f Hin. apply Ht. by rewrite Hp.
    + rewrite <- Hp. eapply Forall_impl; [exact Hs|]. cbn. lia.
    + rewrite <- (Permutation_length Hp). destruct fs; [cbn in *; lia|]. inversion Hs; lia.
    + cbv beta. intros r q (Hr & h' & c & Hx' & ->). apply runs_bind.
      unfold readStructEnd, NativeClient.zero. apply runs_bind, popReader_runs. wpa.
      split; [by eapply reads_struct|]. exists h'. split; [by eapply extends_trans|done].
  - destruct Hd as [Hd Ha]. pose proof Hd as (_ & Hk & Hdict & Hnd & Hdom & Hlen).
    assert (zlen (map_to_list (entries (heap p) x)) = zlen es) as Hn.
    { unfold zlen. rewrite length_map_to_list, <- (size_dom (D := gset (list Z))), Hdom.
      rewrite size_list_to_set by done. by rewrite length_map. }
    apply runs_bind. eapply push_read_map; [done..| |].
    { rewrite Hn. unfold zlen in *. by rewrite length_map in Hlen. }
    intros keys h Hx Hl. rewrite Hn. cbv beta iota.
    destruct (walks_begin D _ h keys x es Hx Hl Hd Ha) as (es' & Hp & Hw).
    cbn [typed] in Ht. cbn [nsize] in Hf.
    replace (zlen es) with (zlen es') by (unfold zlen; by rewrite (Permutation_length Hp)).
    apply runs_bind. eapply runs_mono; [eapply (read_entries_ok D p keys x h t es')| |done].
    + done.
    + by rewrite <- Hp.
    + rewrite forallb_forall in *. intros f Hin. apply Ht. by rewrite Hp.
    + rewrite <- Hp. apply Forall_forall. intros f Hin.
      pose proof (nsize_elem (fun f => nsize f.2) es f Hin). lia.
    + cbv beta. intros r q (Hr & h' & c & Hx' & ->). apply runs_bind.
      unfold readMapEnd, NativeClient.zero. apply runs_bind, popReader_runs. wpa.
      split; [by eapply reads_map|]. exists h'. split; [by eapply extends_trans|done].
  - destruct Hd as [Hd Ha]. apply (read_array D p x t l NSet (TySet t)); try done.
    intros rs. by constructor.
  - destruct Hd as [Hd Ha]. apply (read_array D p x t l NList (TyList t)); try done.
    intros rs. by constructor.
Qed.
End Reader.
