(* ===== verification/NativeWriter.v ===== *)
(** * Writing a value into a variable that stands for it

    [write_denotes]: wherever the protocol can take a value, the calls that write
    one put a variable there which denotes it, built of new objects only, and
    change no other object than the one being filled. *)

From S2P Require Export NativeReading.

Section Writer.
Context `{Api : Ppapi} `{Laws : !PpapiLaws} `{Plat : Platform} `{Unb : !Unbounded}.
Abbreviation N := TNativeClientProtocol.

(** ** Values that can be written *)

(** Within the types, the strings UTF-8, the 64-bit integers held by a double,
    and no name twice. *)
Definition names_ok (names : list (list Z)) : bool :=
  (bool_decide (NoDup names) && forallb is_utf8 names && (zlen names <? 2 ^ 31))%bool.

Fixpoint writable (v : nval) : bool :=
  match v with
  | NBool _ => true
  | NByte z => in_sb 8 z
  | NI16 z => in_sb 16 z
  | NI32 z => in_sb 32 z
  | NI64 z => Z.abs z <=? 2 ^ 53
  | NDouble d => in_ub 64 d
  | NString s => is_utf8 s
  | NBinary s => forallb (fun b => (0 <=? b) && (b <? 256))%bool s
  | NStruct fs | NMap fs => names_ok (map fst fs) && forallb (fun f => writable f.2) fs
  | NSet l | NList l => (zlen l <? 2 ^ 31) && forallb writable l
  end.

(** Only a dictionary can be the root. *)
Definition is_root (v : nval) : bool :=
  match v with NStruct _ | NMap _ => true | _ => false end.

(** ** What a context takes *)

Section Context.
Import WriterContext.
Implicit Types (c : WriterContext.t) (h : Heap) (x : Var).

Definition takes (h : Heap) (c : WriterContext.t) : Prop :=
  known h (var_ c) /\
  match type_ c with
  | DICTIONARY_CONTEXT => is_dictionary (var_ c) = true /\ is_utf8 (field_name_ c) = true
  | LIST_CONTEXT => is_array (var_ c) = true /\ zlen (elems h (var_ c)) + 1 < 2 ^ 32
  | MAP_KEY_CONTEXT => is_dictionary (var_ c) = true
  | MAP_VALUE_CONTEXT => is_dictionary (var_ c) = true /\ is_string (map_key_ c) = true
  end.

(** Between [h] and [h'] the context took [x], and is now [c']. *)
Inductive took (h : Heap) (c : WriterContext.t) (x : Var) (h' : Heap) : WriterContext.t -> Prop :=
| took_field :
    type_ c = DICTIONARY_CONTEXT ->
    entries h' (var_ c) = <[field_name_ c := x]> (entries h (var_ c)) ->
    took h c x h' c
| took_elem :
    type_ c = LIST_CONTEXT -> elems h' (var_ c) = elems h (var_ c) ++ [x] ->
    took h c x h' c
| took_key :
    type_ c = MAP_KEY_CONTEXT -> entries h' (var_ c) = entries h (var_ c) ->
    took h c x h' (Make (var_ c) MAP_VALUE_CONTEXT (field_name_ c) x)
| took_value :
    type_ c = MAP_VALUE_CONTEXT ->
    entries h' (var_ c) = <[AsString (map_key_ c) := x]> (entries h (var_ c)) ->
    took h c x h' (Make (var_ c) MAP_KEY_CONTEXT (field_name_ c) (map_key_ c)).

Lemma took_var h c x h' c' : took h c x h' c' -> var_ c' = var_ c.
Proof. by intros []. Qed.

Lemma took_after h c x h1 h2 c' :
  entries h2 (var_ c) = entries h1 (var_ c) -> elems h2 (var_ c) = elems h1 (var_ c) ->
  took h c x h1 c' -> took h c x h2 c'.
Proof.
  intros He Hl [H1 H2|H1 H2|H1 H2|H1 H2];
    [apply took_field|apply took_elem|apply took_key|apply took_value]; congruence.
Qed.

Lemma took_before h0 h1 c x h2 c' :
  entries h1 (var_ c) = entries h0 (var_ c) -> elems h1 (var_ c) = elems h0 (var_ c) ->
  took h1 c x h2 c' -> took h0 c x h2 c'.
Proof.
  intros He Hl [H1 H2|H1 H2|H1 H2|H1 H2];
    [apply took_field|apply took_elem|apply took_key|apply took_value]; congruence.
Qed.

Lemma writeVar_takes h c x Q E :
  takes h c ->
  (forall c' h', took h c x h' c' -> extends (eq (var_ c)) h h' -> Q tt (c', h')) ->
  runs (WriterContext.writeVar x) (c, h) Q E.
Proof.
  intros [Hk Ht] HQ. unfold WriterContext.writeVar. wpa. cbn [fst].
  destruct (type_ c) eqn:Hty.
  - destruct Ht as [Hd Hu]. unfold asDictionary. wpa. cbn [fst]. rewrite Hd. wpa.
    unfold in_context. wpa. unfold runs at 1, browser. cbn [snd fst].
    destruct (string_is_string _ Hu) as [Hs Ha].
    pose proof (dictionary_set_extends h (var_ c) (string_var (field_name_ c)) x Hd Hk Hs) as Hset.
    destruct (dictionary_set _ _ _ h) as [r h']. destruct Hset as (He & _ & Hx).
    wpa. apply HQ; [|done]. apply took_field; [done|]. by rewrite He, Ha.
  - wpa. apply HQ; [|apply extends_refl]. by apply took_key.
  - destruct Ht as [Hd Hs]. unfold asDictionary. wpa. cbn [fst]. rewrite Hd. wpa.
    unfold in_context. wpa. unfold runs at 1, browser. cbn [snd fst].
    pose proof (dictionary_set_extends h (var_ c) (map_key_ c) x Hd Hk Hs) as Hset.
    destruct (dictionary_set _ _ _ h) as [r h']. destruct Hset as (He & _ & Hx).
    wpa. apply HQ; [|done]. by apply took_value.
  - destruct Ht as [Ha Hl]. unfold asArray. wpa. cbn [fst]. rewrite Ha. wpa.
    unfold in_context. wpa. unfold runs at 1, browser. cbn [snd fst].
    pose proof (array_push_extends h (var_ c) x Ha Hk Hl) as Hset.
    destruct (array_set _ _ _ h) as [r h']. destruct Hset as (He & _ & Hx).
    wpa. apply HQ; [|done]. by apply took_elem.
Qed.
End Context.

(** ** What the protocol takes *)

Definition ready (p : N) : Prop :=
  match writer_stack_ p with [] => True | c :: _ => takes (heap p) c end.

(** Between [p] and [p'] the protocol took [x]. *)
Definition wrote (p p' : N) (x : Var) : Prop :=
  reader_stack_ p' = reader_stack_ p /\
  match writer_stack_ p with
  | [] => writer_stack_ p' = [] /\ root_var_ p' = Some x /\ extends nothing (heap p) (heap p')
  | c :: l => exists c', writer_stack_ p' = c' :: l /\ root_var_ p' = root_var_ p /\
      took (heap p) c x (heap p') c' /\ extends (eq (WriterContext.var_ c)) (heap p) (heap p')
  end.

Lemma runs_topWriter {A} (m : M (WriterContext.t * Heap) A) c l p Q E :
  writer_stack_ p = c :: l ->
  runs m (c, heap p) (fun a s => Q a (set_writers (s.1 :: l) (set_heap s.2 p)))
    (fun e s => E e (set_writers (s.1 :: l) (set_heap s.2 p))) ->
  runs (topWriterContext m) p Q E.
Proof.
  intros Hs. unfold runs, topWriterContext. rewrite Hs. by destruct (m (c, heap p)) as [[] []].
Qed.

Lemma writeVar_ready p x Q E :
  ready p -> (writer_stack_ p = [] -> is_dictionary x = true) ->
  (forall p', wrote p p' x -> Q tt p') -> runs (writeVar x) p Q E.
Proof.
  unfold ready, wrote. intros Hr Hd HQ. unfold writeVar. wpa.
  destruct (writer_stack_ p) as [|c l] eqn:Hs; wpa.
  - rewrite Hd by done. cbn [negb]. wpa. apply HQ. cbn. rewrite Hs. do 3 (split; [done|]).
    apply extends_refl.
  - eapply runs_topWriter; [done|]. apply writeVar_takes; [done|].
    intros c' h' Ht Hx. apply HQ. cbn. split; [done|]. by exists c'.
Qed.

(** Where a computation from [p] leaves a value: a variable that denotes it is
    in [p]'s place for one, and the objects it is made of are new. *)
Definition written (v : nval) (p p' : N) : Prop :=
  exists x, wrote p p' x /\ denotes (fun o => ~ known (heap p) o) (heap p') v x.

Definition write_ok (v : nval) : Prop := forall p,
  ready p -> writable v = true -> (writer_stack_ p = [] -> is_root v = true) ->
  succeeds (write_nval v) p (fun _ p' => written v p p').

(** *** Scalars *)

Lemma write_scalar (m : M N Z) v x p :
  m = NativeClient.zero (writeVar x) ->
  ready p -> writer_stack_ p <> [] -> (forall D h, denotes D h v x) ->
  succeeds (do! m in ret tt) p (fun _ p' => written v p p').
Proof.
  intros -> Hr Hs Hd. unfold NativeClient.zero. wpa. apply writeVar_ready; [done|done|].
  intros p' Hw. wpa. by exists x.
Qed.

Lemma int_var_denotes z : in_s 32 z -> denotes_int (int_var z) z.
Proof.
  intros Hz. left. split; [apply is_type_true, type_int|by apply AsInt_int].
Qed.

Lemma in_s_mono w w' z : 1 <= w <= w' -> in_s w z -> in_s w' z.
Proof.
  unfold in_s. intros Hw Hz. assert (2 ^ (w - 1) <= 2 ^ (w' - 1)) by (apply Z.pow_le_mono_r; lia). lia.
Qed.

Lemma int64_double_denotes z :
  Z.abs z <= 2 ^ 53 -> denotes_int (double_var (double_of_int z)) z.
Proof.
  intros Hz. right. split; [apply is_type_true, type_double|].
  rewrite AsDouble_double by (by apply double_of_int_u64). split; [by apply double_of_int_exact|done].
Qed.

Lemma writeI64_runs z p Q E :
  Z.abs z <= 2 ^ 53 ->
  runs (NativeClient.zero (writeVar (double_var (double_of_int z)))) p Q E -> runs (writeI64 z) p Q E.
Proof.
  intros Hz HQ. unfold writeI64. destruct precise_doubles as [HM Hm].
  pose proof (double_of_int_exact z Hz) as Hd.
  rewrite (double_ltb_is _ _ (2 ^ 53) z), (double_ltb_is _ _ z (- 2 ^ 53)) by done.
  replace (2 ^ 53 <? z) with false by lia. by replace (z <? - 2 ^ 53) with false by lia.
Qed.

(** *** Opening and closing a container *)

Lemma extends_fresh (U : Var -> Prop) x h h1 h2 :
  extends U h h1 -> extends (eq x) h1 h2 -> ~ known h x -> extends U h h2.
Proof.
  intros H1 H2 Hx o Ho. destruct (H1 o Ho) as [K S1]. destruct (H2 o K) as [K2 S2].
  split; [done|]. intros Hu. destruct (S1 Hu) as [E1 F1].
  destruct S2 as [E2 F2]; [by intros ->|]. split; congruence.
Qed.

(** The context's object is new: as far as what was known goes, [p1] differs
    from [p] by having taken [x]. *)
Definition opened (p p1 : N) (x : Var) : Prop :=
  wrote p p1 x /\ ~ known (heap p) x /\ known (heap p1) x.

Lemma wrote_new p h1 p1 x :
  extends nothing (heap p) h1 -> ready p -> wrote (set_heap h1 p) p1 x -> wrote p p1 x.
Proof.
  unfold ready, wrote. intros Hx Hr [Hread Hw]. split; [done|]. cbn in Hw.
  destruct (writer_stack_ p) as [|c l].
  - destruct Hw as (H1 & H2 & H3). split; [done|]. split; [done|]. by eapply extends_trans.
  - destruct Hw as (c' & H1 & H2 & H3 & H4). exists c'. split; [done|]. split; [done|].
    destruct Hr as [Hk _]. split.
    + eapply took_before; [| |exact H3];
        [by apply (extends_entries nothing); [..|intros []]|by apply (extends_elems nothing); [..|intros []]].
    + eapply extends_trans; [eapply extends_mono; [exact Hx|by intros o []]|done].
Qed.

Lemma ready_new p h1 : extends nothing (heap p) h1 -> ready p -> ready (set_heap h1 p).
Proof.
  unfold ready. intros Hx. cbn. destruct (writer_stack_ p) as [|c l]; [done|].
  intros [Hk Ht]. split; [by eapply extends_known|].
  by rewrite (extends_elems nothing (heap p) h1) by (done || by intros []).
Qed.

(** The new object is still empty once the parent has taken it. *)
Lemma wrote_others p p1 x o :
  ready p -> wrote p p1 x -> known (heap p) o ->
  match writer_stack_ p with [] => True | c :: _ => o <> WriterContext.var_ c end ->
  known (heap p1) o /\ entries (heap p1) o = entries (heap p) o /\ elems (heap p1) o = elems (heap p) o.
Proof.
  unfold ready, wrote. intros Hr [_ Hw] Ho Hne. destruct (writer_stack_ p) as [|c l].
  - destruct Hw as (_ & _ & Hx). destruct (Hx o Ho) as [K S].
    destruct S as [He Hl]; [by intros []|]. done.
  - destruct Hw as (c' & _ & _ & _ & Hx). destruct (Hx o Ho) as [K S].
    destruct S as [He Hl]; [congruence|]. done.
Qed.

Definition new_context (x : Var) (type : ContextType) : WriterContext.t :=
  WriterContext.Make x type [] undefined_var.

Lemma pushWriter_runs p x type Q E :
  (is_dictionary x || is_array x)%bool = true -> ready p ->
  (writer_stack_ p = [] -> is_dictionary x = true) ->
  (forall p1, wrote p p1 x -> Q tt (set_writers (new_context x type :: writer_stack_ p1) p1)) ->
  runs (pushWriterContext (new_context x type)) p Q E.
Proof.
  intros Hx Hr Hd HQ. unfold pushWriterContext. wpa. apply runs_assert; [exact Hx|]. wpa.
  apply writeVar_ready; [done..|]. intros p1 Hw. wpa. by apply HQ.
Qed.

Lemma not_known_ne p x : ready p -> ~ known (heap p) x ->
  match writer_stack_ p with [] => True | c :: _ => x <> WriterContext.var_ c end.
Proof.
  unfold ready. destruct (writer_stack_ p) as [|c l]; [done|]. by intros [Hk _] Hx ->.
Qed.

(** [createDictionaryContext] and [createMapContext], pushed. *)
Lemma push_dictionary type create p Q E :
  (type = DICTIONARY_CONTEXT /\ create = WriterContext.createDictionaryContext) \/
  (type = MAP_KEY_CONTEXT /\ create = WriterContext.createMapContext) ->
  ready p ->
  (forall p1 x, opened p p1 x -> is_dictionary x = true -> entries (heap p1) x = ∅ ->
     Q 0 (set_writers (new_context x type :: writer_stack_ p1) p1)) ->
  runs (push_new create) p Q E.
Proof.
  intros Hc Hr HQ. unfold push_new, on_heap. wpa.
  assert (create = (let! var := browser new_dictionary in WriterContext.constructor var type)) as ->
    by (by destruct Hc as [[-> ->]|[-> ->]]).
  apply runs_bind. unfold runs at 1, browser. pose proof (new_dictionary_extends (heap p)) as Hn.
  destruct (new_dictionary (heap p)) as [x h1]. destruct Hn as (Hd & Hf & Hk & He & Hx).
  unfold WriterContext.constructor. rewrite Hd.
  assert ((is_context type DICTIONARY_CONTEXT || is_context type MAP_KEY_CONTEXT)%bool = true) as ->
    by (by destruct Hc as [[-> _]|[-> _]]).
  wpa. unfold NativeClient.zero. wpa.
  apply (pushWriter_runs (set_heap h1 p) x type); [by rewrite Hd|by apply ready_new|done|].
  intros p1 Hw. wpa. pose proof (ready_new p h1 Hx Hr) as Hr1.
  destruct (wrote_others (set_heap h1 p) p1 x x Hr1 Hw Hk) as (K & E1 & _);
    [exact (not_known_ne p x Hr Hf)|].
  apply HQ; [split; [by eapply wrote_new|done]|done|]. by rewrite E1.
Qed.

Lemma push_list p Q E :
  ready p -> writer_stack_ p <> [] ->
  (forall p1 x, opened p p1 x -> is_array x = true -> elems (heap p1) x = [] ->
     Q 0 (set_writers (new_context x LIST_CONTEXT :: writer_stack_ p1) p1)) ->
  runs (push_new WriterContext.createListContext) p Q E.
Proof.
  intros Hr Hs HQ. unfold push_new, on_heap, WriterContext.createListContext. wpa.
  unfold runs at 1, browser. pose proof (new_array_extends (heap p)) as Hn.
  destruct (new_array (heap p)) as [x h1]. destruct Hn as (Ha & Hf & Hk & He & Hx).
  unfold WriterContext.constructor. rewrite Ha, orb_true_r. wpa. unfold NativeClient.zero. wpa.
  apply (pushWriter_runs (set_heap h1 p) x LIST_CONTEXT);
    [by rewrite Ha, orb_true_r|by apply ready_new|done|].
  intros p1 Hw. wpa. pose proof (ready_new p h1 Hx Hr) as Hr1.
  destruct (wrote_others (set_heap h1 p) p1 x x Hr1 Hw Hk) as (K & _ & E1);
    [exact (not_known_ne p x Hr Hf)|].
  apply HQ; [split; [by eapply wrote_new|done]|done|]. by rewrite E1.
Qed.

(** [q] fills the object [x] that [p1] was left with. *)
Definition filling (p1 : N) (x : Var) (q : N) (c : WriterContext.t) : Prop :=
  writer_stack_ q = c :: writer_stack_ p1 /\ WriterContext.var_ c = x /\
  reader_stack_ q = reader_stack_ p1 /\ root_var_ q = root_var_ p1 /\
  extends (eq x) (heap p1) (heap q).

Lemma closed p p1 x q c :
  ready p -> opened p p1 x -> filling p1 x q c -> wrote p (set_writers (writer_stack_ p1) q) x.
Proof.
  intros Hr ([Hread Hw] & Hf & Hk) (Hs & Hv & Hread' & Hroot & Hx).
  unfold wrote. cbn. split; [congruence|]. unfold ready in Hr.
  destruct (writer_stack_ p) as [|c0 l].
  - destruct Hw as (H1 & H2 & H3). split; [done|]. split; [congruence|]. by eapply extends_fresh.
  - destruct Hw as (c' & H1 & H2 & H3 & H4). destruct Hr as [Hk0 _].
    exists c'. split; [done|]. split; [congruence|]. split; [|by eapply extends_fresh].
    assert (x <> WriterContext.var_ c0) as Hne by (by intros ->).
    pose proof (extends_known _ _ _ _ H4 Hk0) as Hk1.
    eapply took_after; [| |exact H3];
      [by apply (extends_entries (eq x))|by apply (extends_elems (eq x))].
Qed.

Lemma popWriter_runs p1 x q c Q E :
  filling p1 x q c -> Q tt (set_writers (writer_stack_ p1) q) -> runs popWriterContext q Q E.
Proof. intros (Hs & _) HQ. unfold popWriterContext. wpa. rewrite Hs. by wpa. Qed.

(** A value written while [x] is filled. *)
Lemma filling_wrote p1 x q c q' y :
  filling p1 x q c -> wrote q q' y ->
  exists c', filling p1 x q' c' /\ took (heap q) c y (heap q') c' /\ extends (eq x) (heap q) (heap q').
Proof.
  intros (Hs & Hv & Hread & Hroot & Hx) [Hread' Hw]. rewrite Hs in Hw.
  destruct Hw as (c' & H1 & H2 & H3 & H4). rewrite Hv in H4. exists c'.
  split; [|done]. split; [done|]. split; [by rewrite (took_var _ _ _ _ _ H3)|].
  split; [congruence|]. split; [congruence|]. by eapply extends_trans.
Qed.

Lemma runs_for_each {A} (f : A -> M N unit) (I : list A -> N -> Prop) E l p :
  I [] p ->
  (forall d a r p, l = d ++ a :: r -> I d p -> runs (f a) p (fun _ p' => I (d ++ [a]) p') E) ->
  runs (for_each f l) p (fun _ p' => I l p') E.
Proof.
  intros HI Hf. assert (forall r d p, l = d ++ r -> I d p ->
    runs (for_each f r) p (fun _ p' => I l p') E) as Hgo; [|by apply (Hgo l [])].
  induction r as [|a r IH]; intros d q Hl Hq; cbn [for_each].
  - rewrite app_nil_r in Hl. subst. by apply runs_ret.
  - apply runs_bind. eapply runs_mono; [by apply (Hf d a r)| |done]. cbv beta. intros _ q' Hq'.
    apply (IH (d ++ [a])); [by rewrite <- app_assoc|done].
Qed.

(** *** What has been put into the object so far *)

Definition dictionary_holds (p1 : N) (h : Heap) (x : Var) (fs : list (list Z * nval)) : Prop :=
  dom (entries h x) = list_to_set (C := gset (list Z)) (map fst fs) /\
  all_of (fun f => exists y, entries h x !! f.1 = Some y /\
                             denotes (fun o => ~ known (heap p1) o) h f.2 y) fs.

Lemma dictionary_holds_add p1 q q' x fs n v y c :
  known (heap p1) x -> filling p1 x q c ->
  dictionary_holds p1 (heap q) x fs -> n ∉ map fst fs ->
  entries (heap q') x = <[n := y]> (entries (heap q) x) -> extends (eq x) (heap q) (heap q') ->
  denotes (fun o => ~ known (heap q) o) (heap q') v y ->
  dictionary_holds p1 (heap q') x (fs ++ [(n, v)]).
Proof.
  intros Hk (_ & _ & _ & _ & Hx1) [Hdom Ha] Hn He Hx Hd. split.
  - rewrite He, dom_insert_L, Hdom, map_app, list_to_set_app_L. cbn. set_solver.
  - rewrite all_of_Forall in *. apply Forall_app. split.
    + rewrite Forall_forall in *. intros f Hin. destruct (Ha f Hin) as (z & Hz & Hdz).
      exists z. split.
      * rewrite He, lookup_insert_ne; [done|]. intros ->. apply Hn. apply list_elem_of_fmap. by exists f.
      * eapply (denotes_extends (eq x)); [exact Hx| |exact Hdz]. by intros o Ho <-.
    + constructor; [|constructor]. exists y. split; [cbn; rewrite He; apply lookup_insert_eq|].
      eapply denotes_mono; [|exact Hd]. intros o Ho Hko. apply Ho. by eapply extends_known.
Qed.

Lemma dictionary_denotes p p1 q x c fs :
  ready p -> opened p p1 x -> filling p1 x q c -> is_dictionary x = true ->
  NoDup (map fst fs) -> zlen (map fst fs) < 2 ^ 31 -> dictionary_holds p1 (heap q) x fs ->
  denotes (fun o => ~ known (heap p) o) (heap q) (NStruct fs) x.
Proof.
  intros Hr (Hw & Hf & Hk) (_ & _ & _ & _ & Hx) Hd Hnd Hl [Hdom Ha]. cbn [denotes].
  split.
  - split; [done|]. split; [by eapply extends_known|]. done.
  - rewrite all_of_Forall in *. eapply Forall_impl; [exact Ha|]. cbn. intros f (y & Hy & Hdy).
    exists y. split; [done|]. eapply denotes_mono; [|exact Hdy]. cbn. intros o Ho Hko. apply Ho.
    destruct Hw as [_ Hw]. destruct (writer_stack_ p).
    + destruct Hw as (_ & _ & Hx1). by eapply extends_known.
    + destruct Hw as (c' & _ & _ & _ & Hx1). by eapply extends_known.
Qed.

Lemma filling_ready p1 x q c type :
  known (heap p1) x -> filling p1 x q c -> WriterContext.type_ c = type ->
  match type with
  | DICTIONARY_CONTEXT => is_dictionary x = true /\ is_utf8 (WriterContext.field_name_ c) = true
  | LIST_CONTEXT => is_array x = true /\ zlen (elems (heap q) x) + 1 < 2 ^ 32
  | MAP_KEY_CONTEXT => is_dictionary x = true
  | MAP_VALUE_CONTEXT => is_dictionary x = true /\ is_string (WriterContext.map_key_ c) = true
  end -> ready q.
Proof.
  intros Hk (Hs & Hv & _ & _ & Hx) <- Ht. unfold ready. rewrite Hs. unfold takes. rewrite Hv.
  split; [by eapply extends_known|done].
Qed.

Lemma filling_stack p1 x q c : filling p1 x q c -> writer_stack_ q <> [].
Proof. intros (-> & _). done. Qed.

Lemma filling_new p1 x type :
  filling p1 x (set_writers (new_context x type :: writer_stack_ p1) p1) (new_context x type).
Proof. repeat split; try done; apply extends_refl. Qed.

Lemma name_fresh (fs d r : list (list Z * nval)) n v :
  NoDup (map fst fs) -> fs = d ++ (n, v) :: r -> n ∉ map fst d.
Proof.
  intros Hnd ->. rewrite map_app in Hnd. cbn in Hnd. apply NoDup_app in Hnd.
  destruct Hnd as (_ & Hdis & _). intros Hin. apply (Hdis n Hin). by left.
Qed.

Lemma field_facts (fs d r : list (list Z * nval)) n v :
  forallb is_utf8 (map fst fs) = true -> Forall (fun f => write_ok f.2) fs ->
  forallb (fun f => writable f.2) fs = true -> fs = d ++ (n, v) :: r ->
  is_utf8 n = true /\ write_ok v /\ writable v = true.
Proof.
  intros Hutf Hw Hok E. assert ((n, v) ∈ fs) as Hin by (rewrite E; set_solver).
  rewrite forallb_forall in Hutf, Hok. rewrite Forall_forall in Hw. split; [|split].
  - apply Hutf. apply in_map_iff. exists (n, v). split; [done|]. by apply list_elem_of_In.
  - exact (Hw (n, v) Hin).
  - apply (Hok (n, v)). by apply list_elem_of_In.
Qed.

(** *** Structs *)

Section Fields.
Context (p1 : N) (x : Var) (fs : list (list Z * nval)).
Context (Hk : known (heap p1) x) (Hd : is_dictionary x = true).
Context (Hnd : NoDup (map fst fs)) (Hutf : forallb is_utf8 (map fst fs) = true).
Context (Hw : Forall (fun f => write_ok f.2) fs) (Hok : forallb (fun f => writable f.2) fs = true).

Definition fields_written (d : list (list Z * nval)) (q : N) : Prop :=
  exists c, filling p1 x q c /\ WriterContext.type_ c = DICTIONARY_CONTEXT /\
    dictionary_holds p1 (heap q) x d.

Lemma write_field_step d f r q :
  fs = d ++ f :: r -> fields_written d q ->
  succeeds (write_field write_nval f) q (fun _ q' => fields_written (d ++ [f]) q').
Proof using All.
  intros E (c & Hf & Ht & Hh). destruct f as [n v].
  destruct (field_facts fs d r n v Hutf Hw Hok E) as (Hu & Hv & Ho). pose proof (name_fresh fs d r n v Hnd E) as Hn.
  unfold write_field, writeFieldBegin, NativeClient.zero. cbn [fst snd].
  pose proof Hf as (Hs & Hvar & Hread & Hroot & Hx). wpa. eapply runs_topWriter; [exact Hs|].
  unfold WriterContext.setFieldName. wpa. cbn [fst snd].
  set (c1 := WriterContext.Make (WriterContext.var_ c) (WriterContext.type_ c) n
               (WriterContext.map_key_ c)).
  set (q1 := set_writers (c1 :: writer_stack_ p1) (set_heap (heap q) q)).
  assert (filling p1 x q1 c1) as Hf1 by (by repeat split; try done; apply Hx).
  eapply runs_mono; [apply (Hv q1)| |done].
  - eapply (filling_ready p1 x q1 c1 DICTIONARY_CONTEXT); done.
  - done.
  - done.
  - cbv beta. intros _ q' (y & Hwr & Hdy).
    destruct (filling_wrote p1 x q1 c1 q' y Hf1 Hwr) as (c' & Hf' & Htk & Hx').
    inversion Htk as [T He|T He|T He|T He]; subst; try (cbn in T; congruence).
    wpa. unfold writeFieldEnd. wpa. exists c1. split; [done|]. split; [done|].
    eapply (dictionary_holds_add p1 q1 q' _ d n v y c1); try done.
    cbn in He. by rewrite Hvar in He.
Qed.
End Fields.

(** *** Maps *)

Section Entries.
Context (p1 : N) (x : Var) (es : list (list Z * nval)).
Context (Hk : known (heap p1) x) (Hd : is_dictionary x = true).
Context (Hnd : NoDup (map fst es)) (Hutf : forallb is_utf8 (map fst es) = true).
Context (Hw : Forall (fun f => write_ok f.2) es) (Hok : forallb (fun f => writable f.2) es = true).

Definition entries_written (d : list (list Z * nval)) (q : N) : Prop :=
  exists c, filling p1 x q c /\ WriterContext.type_ c = MAP_KEY_CONTEXT /\
    dictionary_holds p1 (heap q) x d.

Lemma write_entry_step d f r q :
  es = d ++ f :: r -> entries_written d q ->
  succeeds (write_entry write_nval f) q (fun _ q' => entries_written (d ++ [f]) q').
Proof using All.
  intros E (c & Hf & Ht & Hh). destruct f as [n v].
  destruct (field_facts es d r n v Hutf Hw Hok E) as (Hu & Hv & Ho).
  pose proof (name_fresh es d r n v Hnd E) as Hn. destruct (string_is_string n Hu) as [Hstr Has].
  unfold write_entry, writeString, NativeClient.zero. cbn [fst snd]. wpa.
  apply writeVar_ready; [by eapply (filling_ready p1 x q c MAP_KEY_CONTEXT)| |].
  { intros Hs. by destruct (filling_stack p1 x q c Hf). }
  intros q1 Hw1. wpa. destruct (filling_wrote p1 x q c q1 _ Hf Hw1) as (c1 & Hf1 & Htk1 & Hx1).
  inversion Htk1 as [T He|T He|T He1|T He]; subst; try congruence.
  set (c1 := WriterContext.Make _ _ _ _) in *.
  eapply runs_mono; [apply (Hv q1)| |done].
  - by eapply (filling_ready p1 _ q1 c1 MAP_VALUE_CONTEXT).
  - done.
  - intros Hs. by destruct (filling_stack p1 _ q1 c1 Hf1).
  - cbv beta. intros _ q' (y & Hwr & Hdy).
    destruct (filling_wrote p1 _ q1 c1 q' y Hf1 Hwr) as (c' & Hf' & Htk & Hx').
    inversion Htk as [T' He|T' He|T' He|T' He]; subst; try (cbn in T'; congruence).
    cbn in He. rewrite Has in He. pose proof Hf as (_ & Hvar & _). rewrite Hvar in He, He1.
    eexists. split; [exact Hf'|]. split; [done|].
    apply (dictionary_holds_add p1 q1 q' x d n v y c1); try done.
    destruct Hh as [Hdom Hh]. split; [by rewrite He1|]. rewrite He1.
    rewrite all_of_Forall in *. eapply Forall_impl; [exact Hh|]. cbn.
    intros f (z & Hz & Hdz). exists z. split; [done|].
    eapply (denotes_extends (eq x)); [exact Hx1| |exact Hdz]. by intros o Hno <-.
Qed.
End Entries.

(** *** Sets and lists *)

Section Elems.
Context (p1 : N) (x : Var) (l : list nval).
Context (Hk : known (heap p1) x) (Ha : is_array x = true) (Hlen : zlen l < 2 ^ 31).
Context (Hw : Forall write_ok l) (Hok : forallb writable l = true).

Definition elems_written (d : list nval) (q : N) : Prop :=
  exists c, filling p1 x q c /\ WriterContext.type_ c = LIST_CONTEXT /\
    all_pairs (fun v y => denotes (fun o => ~ known (heap p1) o) (heap q) v y) d (elems (heap q) x).

Lemma write_elem_step d v r q :
  l = d ++ v :: r -> elems_written d q ->
  succeeds (write_nval v) q (fun _ q' => elems_written (d ++ [v]) q').
Proof using All.
  intros E (c & Hf & Ht & Hh). rewrite all_pairs_Forall2 in Hh.
  pose proof (Forall2_length _ _ _ Hh) as Hl.
  assert (v ∈ l) as Hin by (rewrite E; set_solver).
  rewrite forallb_forall in Hok. rewrite Forall_forall in Hw.
  eapply runs_mono; [apply (Hw v Hin q)| |done].
  - eapply (filling_ready p1 x q c LIST_CONTEXT); [done..|]. split; [done|].
    apply (f_equal zlen) in E. rewrite zlen_app, zlen_cons in E.
    pose proof (zlen_nonneg r). unfold zlen in *. lia.
  - apply Hok. by apply list_elem_of_In.
  - intros Hs. by destruct (filling_stack p1 x q c Hf).
  - cbv beta. intros _ q' (y & Hwr & Hdy).
    destruct (filling_wrote p1 x q c q' y Hf Hwr) as (c' & Hf' & Htk & Hx').
    inversion Htk as [T He|T He|T He|T He]; subst; try congruence.
    eexists. split; [exact Hf'|]. split; [done|].
    destruct Hf as (_ & Hvar & _ & _ & Hx). rewrite Hvar in He. rewrite He, all_pairs_Forall2.
    apply Forall2_app.
    + eapply Forall2_impl; [exact Hh|]. cbn. intros w z Hwz.
      eapply (denotes_extends (eq x)); [exact Hx'| |exact Hwz]. by intros o Ho <-.
    + constructor; [|constructor]. eapply denotes_mono; [|exact Hdy].
      intros o Ho Hko. apply Ho. by eapply extends_known.
Qed.
End Elems.

(** *** Values *)

Lemma names_ok_facts names : names_ok names = true ->
  NoDup names /\ forallb is_utf8 names = true /\ zlen names < 2 ^ 31.
Proof.
  unfold names_ok. intros Hn. breflect. split; [by eapply bool_decide_eq_true|done].
Qed.

Lemma writable_bytes s : forallb (fun b => (0 <=? b) && (b <? 256))%bool s = true -> bytes_ok s.
Proof.
  rewrite forallb_forall, Forall_forall. intros Hs b Hb. apply list_elem_of_In in Hb.
  specialize (Hs b Hb). unfold is_byte. lia.
Qed.

(** A container: open it, fill it, close it. *)
Lemma write_container p p1 x q c v :
  ready p -> opened p p1 x -> filling p1 x q c ->
  denotes (fun o => ~ known (heap p) o) (heap q) v x ->
  written v p (set_writers (writer_stack_ p1) q).
Proof. intros Hr Ho Hf Hd. exists x. split; [by eapply closed|done]. Qed.

Lemma opened_known p p1 x o : ready p -> opened p p1 x -> known (heap p) o -> known (heap p1) o.
Proof.
  intros Hr ([_ Hw] & _) Ho. destruct (writer_stack_ p).
  - destruct Hw as (_ & _ & Hx). by eapply extends_known.
  - destruct Hw as (c' & _ & _ & _ & Hx). by eapply extends_known.
Qed.

(** Sets and lists are written alike. *)
Lemma write_array p l (container : list nval -> nval) :
  (forall D h x, denotes D h (container l) x =
     (holds_array D h x l /\ all_pairs (fun v y => denotes D h v y) l (elems h x))) ->
  ready p -> writer_stack_ p <> [] -> Forall write_ok l -> forallb writable l = true ->
  zlen l < 2 ^ 31 ->
  succeeds (do! writeListBegin T_UNKNOWN (zlen l) in do! for_each write_nval l in
            do! writeListEnd in ret tt) p (fun _ p' => written (container l) p p').
Proof using All.
  intros Hc Hr Hs IH Hok Hlen. apply runs_bind. unfold writeListBegin. apply push_list; [done..|].
  intros p1 x Ho Ha He. cbv beta. pose proof Ho as (_ & _ & Hk). apply runs_bind.
  eapply runs_mono; [apply (runs_for_each _ (elems_written p1 x) (fun _ _ => False))| |done].
  - eexists. split; [apply filling_new|]. split; [done|]. cbn. by rewrite He.
  - intros d v r q E Hq. by eapply (write_elem_step p1 x l).
  - cbv beta. intros _ q (c & Hf & Ht & Hh). apply runs_bind.
    unfold writeListEnd, NativeClient.zero. wpa. eapply popWriter_runs; [done|]. wpa.
    eapply write_container; [done..|]. rewrite Hc. pose proof Hf as (_ & _ & _ & _ & Hx). split.
    + split; [by destruct Ho as (_ & ? & _)|]. split; [by eapply extends_known|]. done.
    + rewrite all_pairs_Forall2 in *. eapply Forall2_impl; [exact Hh|]. intros v y.
      apply denotes_mono. intros o Hno Hko. apply Hno. by eapply opened_known.
Qed.

Lemma write_denotes v : write_ok v.
Proof using All.
  induction v as [b|z|z|z|z|d|s|s|fs IH|es IH|l IH|l IH] using nval_nested_ind;
    intros p Hr Hok Hroot; cbn [write_nval].
  - eapply write_scalar; [done|done|by intros Hs; specialize (Hroot Hs)|].
    intros D h. split; [apply is_type_true, type_bool|apply AsBool_bool].
  - eapply write_scalar; [done|done|by intros Hs; specialize (Hroot Hs)|].
    intros D h. apply int_var_denotes. apply bool_decide_eq_true in Hok.
    by apply (in_s_mono 8 32).
  - eapply write_scalar; [done|done|by intros Hs; specialize (Hroot Hs)|].
    intros D h. apply int_var_denotes. apply bool_decide_eq_true in Hok.
    by apply (in_s_mono 16 32).
  - eapply write_scalar; [done|done|by intros Hs; specialize (Hroot Hs)|].
    intros D h. apply int_var_denotes. by apply bool_decide_eq_true in Hok.
  - cbn [writable] in Hok. breflect. apply runs_bind, writeI64_runs; [done|]. apply runs_bind.
    apply writeVar_ready; [done|by intros Hs; specialize (Hroot Hs)|].
    intros p' Hw. wpa. exists (double_var (double_of_int z)). split; [done|].
    by apply int64_double_denotes.
  - eapply write_scalar; [done|done|by intros Hs; specialize (Hroot Hs)|].
    intros D h. apply bool_decide_eq_true in Hok.
    split; [left; apply is_type_true, type_double|by apply AsDouble_double].
  - eapply write_scalar; [done|done|by intros Hs; specialize (Hroot Hs)|].
    intros D h. by apply string_is_string.
  - apply writable_bytes in Hok. unfold writeBinary. wpa. eapply succeeds_runs, succeeds_mono;
      [by apply base64EncodeString_spec|]. cbv beta. intros r q (-> & ->).
    unfold NativeClient.zero. wpa.
    apply writeVar_ready; [done|by intros Hs; specialize (Hroot Hs)|].
    intros p' Hw. wpa. exists (string_var (encoding s)). split; [done|].
    destruct (string_is_string (encoding s)) as [Hstr Has]; [by apply utf8_ascii, encoding_ascii|].
    cbn [denotes]. rewrite Has. split; [done|].
    split; [by apply encoding_accepted|by apply decoding_encoding].
  - cbn [writable] in Hok. apply andb_true_iff in Hok as [Hn Hok].
    destruct (names_ok_facts _ Hn) as (Hnd & Hutf & Hlen).
    apply runs_bind. unfold writeStructBegin. apply (push_dictionary DICTIONARY_CONTEXT); [by left|done|].
    intros p1 x Ho Hd He. cbv beta. pose proof Ho as (_ & _ & Hk). apply runs_bind.
    eapply runs_mono; [apply (runs_for_each _ (fields_written p1 x) (fun _ _ => False))| |done].
    + eexists. split; [apply filling_new|]. split; [done|]. split; [|done]. cbn. rewrite He. set_solver.
    + intros d f r q E Hq. by eapply (write_field_step p1 x fs).
    + cbv beta. intros _ q (c & Hf & Ht & Hh). unfold writeFieldStop. wpa.
      unfold writeStructEnd, NativeClient.zero. wpa. eapply popWriter_runs; [done|]. wpa.
      eapply write_container; [done..|]. by eapply dictionary_denotes.
  - cbn [writable] in Hok. apply andb_true_iff in Hok as [Hn Hok].
    destruct (names_ok_facts _ Hn) as (Hnd & Hutf & Hlen).
    apply runs_bind. unfold writeMapBegin. apply (push_dictionary MAP_KEY_CONTEXT); [by right|done|].
    intros p1 x Ho Hd He. cbv beta. pose proof Ho as (_ & _ & Hk). apply runs_bind.
    eapply runs_mono; [apply (runs_for_each _ (entries_written p1 x) (fun _ _ => False))| |done].
    + eexists. split; [apply filling_new|]. split; [done|]. split; [|done]. cbn. rewrite He. set_solver.
    + intros d f r q E Hq. by eapply (write_entry_step p1 x es).
    + cbv beta. intros _ q (c & Hf & Ht & Hh). wpa.
      unfold writeMapEnd, NativeClient.zero. wpa. eapply popWriter_runs; [done|]. wpa.
      eapply write_container; [done..|].
      change (denotes _ (heap q) (NMap es) x) with
        (denotes (fun o => ~ known (heap p) o) (heap q) (NStruct es) x).
      by eapply dictionary_denotes.
  - cbn [writable] in Hok. apply andb_true_iff in Hok as [Hn Hok]. apply Z.ltb_lt in Hn.
    apply (write_array p l NSet); try done. by intros Hs; specialize (Hroot Hs).
  - cbn [writable] in Hok. apply andb_true_iff in Hok as [Hn Hok]. apply Z.ltb_lt in Hn.
    apply (write_array p l NList); try done. by intros Hs; specialize (Hroot Hs).
Qed.
End Writer.
