(* ===== verification/NativeMessages.v ===== *)
(** * Messages of the page: examples/hello_world/thrift_nacl.cc and .h

    The module instance: a registry of handlers, [ParseMessage] and
    [HandleMessage], which answers every message from the page with one message,
    and the wrapper the macro MAKE_HANDLER_WRAPPER makes of a handler on Thrift
    structs.  The state has the static registry, the messages posted so far and
    the browser's heap. *)

From S2P Require Export NativeReader NativeWriter Effects.

Section Messages.
Context `{Ppapi}.

(** [bool handler(in, &out, &error)]: the results stored through [out] and
    [error] are [None] where they are left null. *)
Definition MessageHandler : Type := Var -> M Heap (bool * option Var * option Var).

Record Instance_ := MakeInstance {
  message_handler_map : gmap (list Z) MessageHandler;
  posted : list Var;
  browser_heap : Heap
}.
Abbreviation I := Instance_.

Definition on_browser {A} (m : M Heap A) : M I A :=
  lift browser_heap (fun h s => MakeInstance (message_handler_map s) (posted s) h) m.

(** [std::map::insert] keeps the handler that is there. *)
Definition RegisterMessageHandler (message_type : list Z) (handler : MessageHandler) : M I bool :=
  do! modify (fun s =>
    match message_handler_map s !! message_type with
    | Some _ => s
    | None => MakeInstance (<[message_type := handler]> (message_handler_map s)) (posted s)
                           (browser_heap s)
    end) in
  ret true.

Definition GetMessageHandler (message_type : list Z) : M I (option MessageHandler) :=
  gets (fun s => message_handler_map s !! message_type).

Definition literal (s : string) : Var := string_var (text_of s).

(** [Set(pp::Var(key), value)], the result not looked at. *)
Definition set_literal (d : Var) (key : string) (value : Var) : M Heap unit :=
  do! browser (dictionary_set d (literal key) value) in ret tt.

(** What has been stored through [message_id], [message_type] and [data] when it
    answers. *)
Record parsed := MakeParsed { message_id : list Z; message_type : list Z; data : option Var }.

Definition ParseMessage (var_message : Var) (out : parsed) : M Heap (bool * parsed) :=
  if negb (is_dictionary var_message) then ret (false, out) else
  let! has_type := gets (dictionary_has_key var_message (literal "type")) in
  if negb has_type then ret (false, out) else
  let! var_id := gets (dictionary_get var_message (literal "id")) in
  if negb (is_string var_id) then ret (false, out) else
  let out := MakeParsed (AsString var_id) (message_type out) (data out) in
  let! var_type := gets (dictionary_get var_message (literal "type")) in
  if negb (is_string var_type) then ret (false, out) else
  let out := MakeParsed (message_id out) (AsString var_type) (data out) in
  let! has_data := gets (dictionary_has_key var_message (literal "data")) in
  if negb has_data then ret (false, out) else
  let! var_data := gets (dictionary_get var_message (literal "data")) in
  let out := MakeParsed (message_id out) (message_type out) (Some var_data) in
  if negb (is_dictionary var_data) then ret (false, out) else
  ret (true, out).

(** The dictionary of an error the instance itself answers. *)
Definition error_response (response : Var) (type : string) (message : Var) : M Heap unit :=
  let! error_var := browser new_dictionary in
  do! set_literal error_var "type" (literal type) in
  do! set_literal error_var "message" message in
  set_literal response "error" error_var.

(** [*p] of a null [shared_ptr] is undefined. *)
Definition deref (p : option Var) : M Heap Var :=
  match p with Some v => ret v | None => crash_ UndefinedBehaviour end.

Definition PostMessage (v : Var) : M I unit :=
  modify (fun s => MakeInstance (message_handler_map s) (posted s ++ [v]) (browser_heap s)).

Definition HandleMessage (var_message : Var) : M I unit :=
  let! var_response := on_browser (browser new_dictionary) in
  let! '(valid, p) := on_browser (ParseMessage var_message (MakeParsed [] [] None)) in
  do! if negb valid then
        on_browser (error_response var_response "invalid_message" (literal "Invalid message"))
      else
        do! on_browser (set_literal var_response "id" (string_var (message_id p))) in
        let! handler := GetMessageHandler (message_type p) in
        match handler with
        | None =>
            on_browser (error_response var_response "unknown_message_type"
              (string_var (text_of "Unknown message type: " ++ message_type p)))
        | Some message_handler =>
            on_browser (
              let! in_ := deref (data p) in
              let! '(ok, out, error) := message_handler in_ in
              if negb ok then let! error := deref error in set_literal var_response "error" error
              else let! out := deref out in set_literal var_response "data" out)
        end in
  PostMessage var_response.

(** MAKE_HANDLER_WRAPPER: [read] and the two [write]s are the methods generated
    for the structs of the handler. *)
Section Wrapper.
Context {Request Response Error : Type}.
Context (read : M TNativeClientProtocol Request).
Context (write_response : Response -> M TNativeClientProtocol unit).
Context (write_error : Error -> M TNativeClientProtocol unit).
Context (handler : Request -> bool * Response * Error).

Definition wrapped (in_ : Var) : M TNativeClientProtocol (bool * option Var * option Var) :=
  do! setVar (Some in_) in
  let! request := read in
  let '(ok, response, error) := handler request in
  if ok : bool then
    do! write_response response in
    let! out := getVar in
    ret (true, out, None)
  else
    do! write_error error in
    let! err := getVar in
    ret (false, None, err).

(** The protocol object lives for the call. *)
Definition handler_wrapper : MessageHandler := fun in_ h =>
  let '(r, p) := wrapped in_ (new_protocol h) in (r, heap p).
End Wrapper.
End Messages.

(** [TestMessage] of hello_world.cc, a handler of the example: the request has an
    optional [name], the response a [result]. *)
Definition TestMessage (request : nval) : bool * nval * nval :=
  let result (s : list Z) := NStruct [(text_of "result", NString s)] in
  match request with
  | NStruct [(_, NString name)] =>
      if negb (bool_decide (name = [])) then (true, result (text_of "Hello " ++ name), NStruct [])
      else (true, result (text_of "Hello World!"), NStruct [])
  | _ => (true, result (text_of "Hello World!"), NStruct [])
  end.

(** ** What the page gets *)

Section Replies.
Context `{Api : Ppapi} `{Laws : !PpapiLaws} `{Plat : Platform} `{Unb : !Unbounded}.

Lemma literal_ok s : forallb (fun b => (0 <=? b) && (b <? 128))%bool (text_of s) = true ->
  is_string (literal s) = true /\ AsString (literal s) = text_of s.
Proof.
  intros Hs. apply string_is_string, utf8_ascii. rewrite forallb_forall in Hs.
  apply Forall_forall. intros b Hb. apply list_elem_of_In in Hb. specialize (Hs b Hb). lia.
Qed.

Lemma set_literal_runs d key v h Q E :
  is_dictionary d = true -> known h d ->
  forallb (fun b => (0 <=? b) && (b <? 128))%bool (text_of key) = true ->
  (forall h', entries h' d = <[text_of key := v]> (entries h d) -> extends (eq d) h h' -> Q tt h') ->
  runs (set_literal d key v) h Q E.
Proof.
  intros Hd Hk Hs HQ. unfold set_literal. wpa. unfold runs at 1, browser.
  destruct (literal_ok key Hs) as [Hstr Has].
  pose proof (dictionary_set_extends h d (literal key) v Hd Hk Hstr) as Hset.
  destruct (dictionary_set d (literal key) v h) as [r h']. destruct Hset as (He & _ & Hx).
  wpa. apply HQ; [by rewrite He, Has|done].
Qed.

Lemma new_dictionary_runs h Q E :
  (forall d h', is_dictionary d = true -> ~ known h d -> known h' d -> entries h' d = ∅ ->
     extends nothing h h' -> Q d h') ->
  runs (browser new_dictionary) h Q E.
Proof.
  intros HQ. unfold runs, browser. pose proof (new_dictionary_extends h) as Hn.
  destruct (new_dictionary h) as [d h']. destruct Hn as (H1 & H2 & H3 & H4 & H5). by apply HQ.
Qed.

(** A message that ParseMessage accepts: id, type and data. *)
Definition valid_message (h : Heap) (m : Var) (id type : list Z) (data : Var) : Prop :=
  is_dictionary m = true /\
  (exists v, entries h m !! text_of "id" = Some v /\ is_string v = true /\ AsString v = id) /\
  (exists v, entries h m !! text_of "type" = Some v /\ is_string v = true /\ AsString v = type) /\
  entries h m !! text_of "data" = Some data /\ is_dictionary data = true.

Lemma undefined_kinds : is_string undefined_var = false /\ is_dictionary undefined_var = false.
Proof.
  split; eapply is_type_other; try (apply is_type_true, type_undefined); discriminate.
Qed.

Lemma get_literal h d key :
  is_dictionary d = true ->
  forallb (fun b => (0 <=? b) && (b <? 128))%bool (text_of key) = true ->
  dictionary_get d (literal key) h = default undefined_var (entries h d !! text_of key) /\
  dictionary_has_key d (literal key) h =
    match entries h d !! text_of key with Some _ => true | None => false end.
Proof.
  intros Hd Hs. destruct (literal_ok key Hs) as [Hstr <-].
  split; [by apply dictionary_get_ok|]. rewrite dictionary_has_key_ok by done.
  destruct (entries h d !! AsString (literal key)) as [v|];
    [by apply bool_decide_eq_true_2|]. apply bool_decide_eq_false_2. by intros [].
Qed.

(** Either the message is valid and is taken apart, or it is not. *)
Lemma ParseMessage_runs m out h Q E :
  (forall id type data, valid_message h m id type data ->
     Q (true, MakeParsed id type (Some data)) h) ->
  (forall out', (forall id type data, ~ valid_message h m id type data) -> Q (false, out') h) ->
  runs (ParseMessage m out) h Q E.
Proof.
  intros Hv Hi. unfold ParseMessage, valid_message in *.
  destruct (is_dictionary m) eqn:Hd; cbn [negb];
    [|apply runs_ret, Hi; intros ? ? ? (? & _); congruence].
  destruct (get_literal h m "type") as [Gt Kt]; [done..|].
  destruct (get_literal h m "id") as [Gi _]; [done..|].
  destruct (get_literal h m "data") as [Gd Kd]; [done..|].
  destruct undefined_kinds as [Us Ud].
  apply runs_bind, runs_gets. cbv beta. rewrite Kt.
  destruct (entries h m !! text_of "type") as [vt|] eqn:Ht; cbn [negb];
    [|apply runs_ret, Hi; intros ? ? ? (_ & _ & (v & E1 & _) & _); congruence].
  cbn [default from_option id] in Gt.
  apply runs_bind, runs_gets. cbv beta. rewrite Gi.
  destruct (entries h m !! text_of "id") as [vi|] eqn:Hid; cbn [default from_option id];
    [|rewrite Us; cbn [negb]; apply runs_ret, Hi; intros ? ? ? (_ & (v & E1 & _) & _); congruence].
  destruct (is_string vi) eqn:Hsi; cbn [negb];
    [|apply runs_ret, Hi; intros ? ? ? (_ & (v & E1 & ? & _) & _); congruence].
  apply runs_bind, runs_gets. cbv beta. rewrite Gt.
  destruct (is_string vt) eqn:Hst; cbn [negb];
    [|apply runs_ret, Hi; intros ? ? ? (_ & _ & (v & E1 & ? & _) & _); congruence].
  apply runs_bind, runs_gets. cbv beta. rewrite Kd.
  destruct (entries h m !! text_of "data") as [vd|] eqn:Hda; cbn [negb];
    [|apply runs_ret, Hi; intros ? ? ? (_ & _ & _ & E1 & _); congruence].
  cbn [default from_option id] in Gd.
  apply runs_bind, runs_gets. cbv beta. rewrite Gd. cbn [data message_id message_type].
  destruct (is_dictionary vd) eqn:Hdd; cbn [negb];
    [|apply runs_ret, Hi; intros ? ? ? (_ & _ & _ & E1 & ?); congruence].
  apply runs_ret, Hv. split; [reflexivity|].
  split; [exists vi; split; [reflexivity|]; split; [exact Hsi|reflexivity]|].
  split; [exists vt; split; [reflexivity|]; split; [exact Hst|reflexivity]|].
  split; [reflexivity|exact Hdd].
Qed.

(** A handler made by the wrapper: it reads the request, answers its response or
    its error, in new objects. *)
Section Wrapped.
Context (fuel : Z) (t : ntype) (f : nval -> bool * nval * nval).

Definition wrapper : MessageHandler :=
  handler_wrapper (read_nval fuel t) write_nval write_nval f.

(** What the handler answers to the request can be written at the root. *)
Definition answers_ok (req : nval) : Prop := forall r ok response error,
  reads t req r -> f r = (ok, response, error) ->
  let v := if ok : bool then response else error in writable v = true /\ is_root v = true.

Lemma wrapper_runs D req x h Q E :
  answers_ok req -> denotes D h req x -> typed t req = true -> Z.of_nat (nsize req) <= fuel ->
  (forall r ok response error d h', reads t req r -> f r = (ok, response, error) ->
     extends nothing h h' ->
     denotes (fun o => ~ known h o) h' (if ok : bool then response else error) d ->
     Q (if ok : bool then (true, Some d, None) else (false, None, Some d)) h') ->
  runs (wrapper x) h Q E.
Proof using All.
  intros Hans Hd Ht Hf HQ.
  assert (succeeds (wrapped (read_nval fuel t) write_nval write_nval f x) (new_protocol h)
    (fun a p => Q a (heap p))) as Hw.
  { unfold wrapped, setVar, reset. wpa. cbn.
    eapply runs_mono; [apply (read_denotes fuel req t D _ x); done| |done].
    cbv beta. intros r p (Hr & h1 & Hx1 & ->). cbn.
    destruct (f r) as [[ok response] error] eqn:Hfr.
    destruct (Hans r ok response error Hr Hfr) as [Hw Hroot].
    assert (forall v, writable v = true -> is_root v = true ->
      succeeds (write_nval v) (set_heap h1 (set_root (Some x) (new_protocol h)))
        (fun _ p' => exists d, root_var_ p' = Some d /\ extends nothing h (heap p') /\
           denotes (fun o => ~ known h o) (heap p') v d)) as Hwrite.
    { intros v Hv Hrv. eapply succeeds_mono; [apply write_denotes; done|].
      intros _ p' (d & [_ (_ & Hroot' & Hx2)] & Hdd). exists d. split; [done|].
      split; [by eapply extends_trans|]. eapply denotes_mono; [|exact Hdd].
      intros o Ho Hko. apply Ho. by eapply extends_known. }
    destruct ok; apply runs_bind; (eapply runs_mono; [by apply Hwrite| |done]);
      cbv beta; intros _ p' (d & Hroot' & Hx & Hdd); unfold getVar; wpa; rewrite Hroot'.
    - by apply (HQ r true response error).
    - by apply (HQ r false response error). }
  unfold wrapper, handler_wrapper, runs, succeeds in *. unfold runs in Hw.
  by destruct (wrapped _ _ _ _ _ _) as [[] ?].
Qed.
End Wrapped.

(** ** HandleMessage *)

(** One message more is posted: a new dictionary [r]. *)
Definition posts (s s' : Instance_) (r : Var) : Prop :=
  posted s' = posted s ++ [r] /\ message_handler_map s' = message_handler_map s /\
  is_dictionary r = true /\ ~ known (browser_heap s) r /\ known (browser_heap s') r /\
  extends nothing (browser_heap s) (browser_heap s').

(** The error dictionary of [error_response]. *)
Definition has_error (h : Heap) (r : Var) (type : string) (message : list Z) : Prop :=
  exists e v w, entries h r !! text_of "error" = Some e /\ is_dictionary e = true /\
    entries h e = {[text_of "message" := v; text_of "type" := w]} /\
    is_string w = true /\ AsString w = text_of type /\ v = string_var message.

Lemma error_response_runs r type msg h h0 Q E :
  is_dictionary r = true -> known h r -> ~ known h0 r -> extends nothing h0 h ->
  forallb (fun b => (0 <=? b) && (b <? 128))%bool (text_of type) = true ->
  (forall h' e, entries h' r = <[text_of "error" := e]> (entries h r) ->
     has_error h' r type msg -> known h' r -> extends nothing h0 h' -> Q tt h') ->
  runs (error_response r type (string_var msg)) h Q E.
Proof.
  intros Hd Hk Hf Hx0 Hty HQ. unfold error_response. apply runs_bind, new_dictionary_runs.
  intros e h1 He Hfe Hke Hee Hx1. cbv beta. destruct (literal_ok type Hty) as [Hts Hta].
  apply runs_bind, set_literal_runs; [done..|]. intros h2 E2 Hx2. cbv beta.
  apply runs_bind, set_literal_runs; [done|by eapply extends_known|done|]. intros h3 E3 Hx3. cbv beta.
  assert (r <> e) as Hne by (by intros ->).
  pose proof (extends_trans (eq e) h1 h2 h3 Hx2 Hx3) as Hx13.
  assert (known h3 r) as Hk3 by (eapply extends_known; [exact Hx13|]; by eapply extends_known).
  apply set_literal_runs; [done..|]. intros h4 E4 Hx4.
  assert (entries h3 r = entries h r) as Er.
  { rewrite (extends_entries (eq e) h1 h3 r); [|done|by eapply extends_known|congruence].
    apply (extends_entries nothing); [done..|by intros []]. }
  apply (HQ h4 e).
  - by rewrite E4, Er.
  - exists e, (string_var msg), (literal type). split; [by rewrite E4, lookup_insert_eq|].
    split; [done|]. split; [|done].
    rewrite (extends_entries (eq r) h3 h4 e); [|done| |congruence].
    + by rewrite E3, E2, Hee.
    + eapply extends_known; [exact Hx13|done].
  - by eapply extends_known.
  - eapply extends_fresh; [|exact Hx4|done].
    eapply extends_fresh; [|exact Hx13|].
    + by eapply extends_trans.
    + intros Hk0. apply Hfe. by eapply extends_known.
Qed.

Lemma valid_message_unique h m id type data id' type' data' :
  valid_message h m id type data -> valid_message h m id' type' data' ->
  id' = id /\ type' = type /\ data' = data.
Proof.
  intros (_ & (v & V1 & _ & V2) & (w & W1 & _ & W2) & D1 & _)
    (_ & (v' & V1' & _ & V2') & (w' & W1' & _ & W2') & D1' & _).
  split; [congruence|]. split; congruence.
Qed.

Lemma valid_message_extends h h' m id type data :
  extends nothing h h' -> known h m ->
  valid_message h m id type data <-> valid_message h' m id type data.
Proof.
  intros Hx Hk. unfold valid_message.
  by rewrite (extends_entries nothing h h' m) by (done || by intros []).
Qed.

(** The response is begun and the message taken apart. *)
Lemma HandleMessage_begin s m Q E (k : Var -> bool * parsed -> M Instance_ unit) :
  (is_dictionary m = true -> known (browser_heap s) m) ->
  (forall r h, is_dictionary r = true -> ~ known (browser_heap s) r -> known h r -> entries h r = ∅ ->
     extends nothing (browser_heap s) h ->
     let s1 := MakeInstance (message_handler_map s) (posted s) h in
     (forall id type data, valid_message (browser_heap s) m id type data ->
        runs (k r (true, MakeParsed id type (Some data))) s1 Q E) /\
     ((forall id type data, ~ valid_message (browser_heap s) m id type data) ->
        forall p, runs (k r (false, p)) s1 Q E)) ->
  runs (let! r := on_browser (browser new_dictionary) in
        let! vp := on_browser (ParseMessage m (MakeParsed [] [] None)) in k r vp) s Q E.
Proof.
  intros Hm HQ. apply runs_bind. unfold on_browser. apply runs_lift, new_dictionary_runs.
  intros r h Hd Hf Hk He Hx. cbv beta. destruct (HQ r h Hd Hf Hk He Hx) as [Hv Hi].
  apply runs_bind, runs_lift. cbn [browser_heap].
  assert (forall id type data, valid_message h m id type data <->
    valid_message (browser_heap s) m id type data) as Hiff.
  { intros id type data. split; intros Hvm; pose proof Hvm as (Hdm & _).
    - apply (valid_message_extends (browser_heap s) h); auto.
    - apply (valid_message_extends (browser_heap s) h) in Hvm; auto. }
  apply ParseMessage_runs.
  - intros id type data Hvm. by apply Hv, Hiff.
  - intros out Hno. apply Hi. intros id type data Hvm. by apply (Hno id type data), Hiff.
Qed.

Lemma PostMessage_runs r s0 h Q E :
  is_dictionary r = true -> ~ known (browser_heap s0) r -> known h r ->
  extends nothing (browser_heap s0) h ->
  (forall s', posts s0 s' r -> browser_heap s' = h -> Q tt s') ->
  runs (PostMessage r) (MakeInstance (message_handler_map s0) (posted s0) h) Q E.
Proof. intros Hd Hf Hk Hx HQ. unfold PostMessage. wpa. by apply HQ. Qed.

(** *** A message that reaches its handler *)

Section Handled.
Context (s : Instance_) (m x : Var) (id type : list Z).
Context (fuel : Z) (t : ntype) (f : nval -> bool * nval * nval) (req : nval).
Context (Hm : known (browser_heap s) m) (Hvm : valid_message (browser_heap s) m id type x).
Context (Hh : message_handler_map s !! type = Some (wrapper fuel t f)).
Context (Hid : is_utf8 id = true).

(** The message posted answers [v] under [key]. *)
Definition answered (s' : Instance_) (key : string) (v : nval) : Prop :=
  exists r i d, posts s s' r /\ is_string i = true /\ AsString i = id /\
    entries (browser_heap s') r = {[text_of key := d; text_of "id" := i]} /\
    denotes (fun o => ~ known (browser_heap s) o) (browser_heap s') v d.

Lemma HandleMessage_wrapper :
  answers_ok t f req -> denotes (known (browser_heap s)) (browser_heap s) req x -> typed t req = true ->
  Z.of_nat (nsize req) <= fuel ->
  succeeds (HandleMessage m) s (fun _ s' => exists req' ok response error,
    reads t req req' /\ f req' = (ok, response, error) /\
    answered s' (if ok : bool then "data" else "error") (if ok : bool then response else error)).
Proof using All.
  intros Hans Hd Ht Hf. unfold HandleMessage. apply (HandleMessage_begin s m); [done|].
  intros r h Hdr Hfr Hkr Her Hx s1. split; [|intros Hno; by destruct (Hno id type x)].
  intros id' type' x' Hvm'.
  destruct (valid_message_unique _ _ _ _ _ _ _ _ Hvm Hvm') as (-> & -> & ->). cbn [negb].
  unfold on_browser. wpa. subst s1. cbn [browser_heap message_id].
  apply set_literal_runs; [done..|]. intros h2 E2 Hx2. cbv beta. wpa.
  unfold GetMessageHandler. wpa. cbn [message_handler_map message_type]. rewrite Hh. wpa.
  cbn [data deref]. wpa. cbn [browser_heap].
  assert (extends nothing (browser_heap s) h2) as Hx02 by (by eapply extends_fresh).
  pose proof (extends_known _ _ _ _ Hx2 Hkr) as Hk2.
  destruct (string_is_string id Hid) as [Hsi Hai].
  eapply (wrapper_runs fuel t f (known (browser_heap s)) req x h2);
    [done|by eapply denotes_new|done|done|].
  intros req' ok response error d h3 Hr Hfr' Hx3 Hdd.
  assert (exists key, (key = if ok then "data" else "error") /\
    forallb (fun b => (0 <=? b) && (b <? 128))%bool (text_of key) = true /\
    text_of key <> text_of "id") as (key & Ek & Hak & Hne).
  { by exists (if ok then "data" else "error"); destruct ok. }
  assert (runs (set_literal r key d) h3 (fun _ h' =>
      runs (PostMessage r) (MakeInstance (message_handler_map s) (posted s) h')
        (fun _ s' => exists req' ok response error, reads t req req' /\
           f req' = (ok, response, error) /\
           answered s' (if ok : bool then "data" else "error") (if ok : bool then response else error))
        (fun _ _ => False))
    (fun _ _ => False)) as Hpost.
  { apply set_literal_runs; [done|by eapply extends_known|done|]. intros h4 E4 Hx4.
    assert (extends nothing (browser_heap s) h4) as Hx04.
    { eapply extends_fresh; [|exact Hx4|done]. by eapply extends_trans. }
    apply PostMessage_runs; [done..| |exact Hx04|].
    { eapply extends_known; [exact Hx4|]. by eapply extends_known. }
    intros s' Hp Es. exists req', ok, response, error. split; [done|]. split; [done|].
    rewrite <- Ek. exists r, (string_var id), d. rewrite Es. split; [done|]. split; [done|].
    split; [done|]. split.
    - rewrite E4, (extends_entries nothing h2 h3 r), E2, Her by (done || by intros []). done.
    - eapply denotes_mono; [|eapply (denotes_extends (eq r)); [exact Hx4| |exact Hdd]].
      + cbn. intros o Ho Hko. apply Ho. by eapply extends_known.
      + by intros o Ho <-. }
  destruct ok; cbn [negb]; wpa; cbn [deref]; wpa; subst key; exact Hpost.
Qed.
End Handled.

(** *** Messages that reach no handler *)

Lemma text_utf8 s : forallb (fun b => (0 <=? b) && (b <? 128))%bool (text_of s) = true ->
  is_utf8 (text_of s) = true.
Proof.
  intros Hs. apply utf8_ascii. rewrite forallb_forall in Hs. apply Forall_forall.
  intros b Hb. apply list_elem_of_In in Hb. specialize (Hs b Hb). lia.
Qed.

Lemma HandleMessage_invalid s m :
  (is_dictionary m = true -> known (browser_heap s) m) ->
  (forall id type data, ~ valid_message (browser_heap s) m id type data) ->
  succeeds (HandleMessage m) s (fun _ s' => exists r e, posts s s' r /\
    entries (browser_heap s') r = {[text_of "error" := e]} /\
    has_error (browser_heap s') r "invalid_message" (text_of "Invalid message")).
Proof.
  intros Hm Hno. unfold HandleMessage. apply (HandleMessage_begin s m); [done|].
  intros r h Hdr Hfr Hkr Her Hx s1. split; [intros; by exfalso; eapply Hno|]. intros _ p.
  cbn [negb]. apply runs_bind. unfold on_browser, literal. apply runs_lift.
  eapply (error_response_runs r _ _ h (browser_heap s)); [done..|].
  intros h' e E4 He Hk Hx'. cbv beta. apply (PostMessage_runs r s); [done..|].
  intros s' Hp Es. exists r, e. split; [done|]. rewrite Es. split; [by rewrite E4, Her|done].
Qed.

Lemma HandleMessage_unknown s m id type data :
  known (browser_heap s) m -> valid_message (browser_heap s) m id type data ->
  message_handler_map s !! type = None -> is_utf8 id = true ->
  succeeds (HandleMessage m) s (fun _ s' => exists r i e, posts s s' r /\
    is_string i = true /\ AsString i = id /\
    entries (browser_heap s') r = {[text_of "error" := e; text_of "id" := i]} /\
    has_error (browser_heap s') r "unknown_message_type"
      (text_of "Unknown message type: " ++ type)).
Proof.
  intros Hm Hvm Hh Hid. unfold HandleMessage. apply (HandleMessage_begin s m); [done|].
  intros r h Hdr Hfr Hkr Her Hx s1. split; [|intros Hno; by destruct (Hno id type data)].
  intros id' type' x' Hvm'.
  destruct (valid_message_unique _ _ _ _ _ _ _ _ Hvm Hvm') as (-> & -> & ->). cbn [negb].
  unfold on_browser. wpa. subst s1. cbn [browser_heap message_id].
  apply set_literal_runs; [done..|]. intros h2 E2 Hx2. cbv beta. wpa.
  unfold GetMessageHandler. wpa. cbn [message_handler_map message_type]. rewrite Hh. wpa.
  cbn [browser_heap]. pose proof (extends_known _ _ _ _ Hx2 Hkr) as Hk2.
  destruct (string_is_string id Hid) as [Hsi Hai].
  eapply (error_response_runs r _ _ h2 (browser_heap s)); [done..|by eapply extends_fresh|done|].
  intros h' e E4 He Hk Hx'. cbv beta. cbn [message_handler_map posted].
  apply (PostMessage_runs r s); [done..|].
  intros s' Hp Es. exists r, (string_var id), e. split; [done|]. split; [done|]. split; [done|].
  rewrite Es. split; [by rewrite E4, E2, Her|done].
Qed.

(** An exception of a handler is not caught: nothing is posted. *)
Lemma HandleMessage_escapes s m id type x E (handler : MessageHandler) :
  known (browser_heap s) m -> valid_message (browser_heap s) m id type x ->
  message_handler_map s !! type = Some handler ->
  (forall h', extends nothing (browser_heap s) h' -> raises (handler x) h' (fun e _ => E e)) ->
  raises (HandleMessage m) s (fun e s' => E e /\ posted s' = posted s).
Proof.
  intros Hm Hvm Hh Hr. unfold HandleMessage. apply (HandleMessage_begin s m); [done|].
  intros r h1 Hdr Hfr Hkr Her Hx s1. split; [|intros Hno; by destruct (Hno id type x)].
  intros id' type' x' Hvm'.
  destruct (valid_message_unique _ _ _ _ _ _ _ _ Hvm Hvm') as (-> & -> & ->). cbn [negb].
  unfold on_browser. wpa. subst s1. cbn [browser_heap message_id].
  apply set_literal_runs; [done..|]. intros h2 E2 Hx2. cbv beta. wpa.
  unfold GetMessageHandler. wpa. cbn [message_handler_map message_type]. rewrite Hh. wpa.
  cbn [data deref browser_heap]. wpa. eapply runs_mono; [apply Hr; by eapply extends_fresh| |]; done.
Qed.

(** A request whose one field is not the string its type expects. *)
Lemma wrong_field_raises fuel n y f x h :
  0 < fuel -> is_dictionary x = true -> known h x -> entries h x = {[n := y]} ->
  is_string y = false -> is_null y = false -> is_undefined y = false ->
  raises (wrapper fuel (TyStruct [(n, TyString)]) f x) h
    (fun e _ => e = EProtocol TProtocolException.INVALID_DATA "Expected string value").
Proof.
  intros Hf Hd Hk He Hs Hn Hu.
  assert (raises (wrapped (read_nval fuel (TyStruct [(n, TyString)])) write_nval write_nval f x)
    (new_protocol h)
    (fun e _ => e = EProtocol TProtocolException.INVALID_DATA "Expected string value")) as Hw.
  { unfold wrapped, setVar, reset. wpa. cbn [read_nval]. apply runs_bind.
    eapply (readStructBegin_denotes _ x); [done|done|done|]. cbn [heap set_root new_protocol].
    intros keys h1 Hx (Ha & Hk1 & Hks & Hp). cbv beta.
    rewrite (extends_entries nothing h h1 x), He, map_to_list_singleton in Hp by (done || by intros []).
    cbn in Hp. apply Permutation_sym, Permutation_length_1_inv in Hp.
    destruct (elems h1 keys) as [|k [|]] eqn:Hel; try discriminate Hp. injection Hp as Hkn.
    set (c := ReaderContext.Make x keys DICTIONARY_CONTEXT 0).
    assert (entry_at h1 c k) as Hat.
    { unfold entry_at. cbn. rewrite Hel. split_and!; try done; [by eapply extends_known|].
      by inversion Hks. }
    assert (entries h1 x !! n = Some y) as Hy.
    { rewrite (extends_entries nothing h h1 x), He by (done || by intros []). apply lookup_insert_eq. }
    assert (next_in h1 c y) as Hnext.
    { apply (next_value _ _ _ k); [by left|done|]. cbn. by rewrite Hkn. }
    pose proof Hat as (_ & _ & _ & _ & _ & _ & _ & Hsk).
    set (q := inside _ c h1).
    assert (raises (read_field (fun name => NativeValues.assoc (read_nval fuel) name [(n, TyString)]) []) q
      (fun e _ => e = EProtocol TProtocolException.INVALID_DATA "Expected string value")) as Hfield.
    { unfold read_field, readFieldBegin. apply runs_bind, runs_bind. eapply runs_topReader; [done|].
      eapply isAtEnd_next; [done|]. cbn [fst snd]. rewrite set_same by done. apply runs_bind.
      eapply runs_topReader; [done|]. eapply nextKeyValue_entry; [done|cbn; by rewrite Hkn|].
      cbn [fst snd]. rewrite set_same by done. rewrite Hn, Hu. cbn [orb]. rewrite Hsk. cbn [negb].
      wpa. rewrite Hkn. change (T_UNKNOWN =? T_STOP) with false. cbn [NativeValues.assoc].
      rewrite bool_decide_eq_true_2 by done. cbn [read_nval]. unfold readString. wpa.
      eapply readVar_offers; [exact Hnext|]. rewrite Hs. cbn [negb]. by wpa. }
    apply runs_bind.
    apply (runs_iterate (fun a p => a = [] /\ p = q) (fun _ => 0)); [|done|lia].
    intros a p [-> ->]. by eapply runs_mono. }
  unfold wrapper, handler_wrapper, runs, raises in *. unfold runs in *.
  by destruct (wrapped _ _ _ _ _ _) as [[] ?].
Qed.
End Replies.
