(* ===== verification/Examples.v ===== *)
(** * Concrete hosts and objects

    Two build configurations and small objects in known states, on which the
    theorems of the development are exercised. *)

From S2P Require Export MemoryBuffer BufferedTransport FramedTransport PipedTransport.
From S2P Require Export BinaryProtocol CompactProtocol.

Lemma zero_byte : is_byte 0.
Proof. unfold is_byte. lia. Defined.

(** A little-endian machine with the GNU C library, a big-endian one without. *)
Definition x86_64 : Platform := {|
  byte_order := LittleEndian; glibc := true; can_alloc _ := true; junk := 0; junk_byte := zero_byte |}.
Definition power : Platform := {|
  byte_order := BigEndian; glibc := false; can_alloc _ := true; junk := 0; junk_byte := zero_byte |}.

Definition x86_64_unbounded : @Unbounded x86_64 := fun _ => eq_refl.
Definition power_unbounded : @Unbounded power := fun _ => eq_refl.

(** A memory buffer holding [bs], full, and an empty one of [n] bytes. *)
Definition buffer_of (bs : list Z) : TMemoryBuffer :=
  MemBuf (Some bs) (zlen bs) true (Pointers 0 (zlen bs) (zlen bs) (zlen bs)).
Definition empty_buffer (n : Z) : TMemoryBuffer :=
  MemBuf (Some (zrep n 0)) n true (Pointers 0 0 0 n).

Lemma buffer_of_inv bs : zlen bs < 2 ^ 32 -> mb_inv (buffer_of bs).
Proof.
  intros. pose proof (zlen_nonneg bs). unfold mb_inv, buffer_of. rewrite block_some. cbn.
  split_and!; done || lia.
Qed.

Lemma buffer_of_content bs : content (buffer_of bs) = bs.
Proof. apply zslice_full. Qed.

Lemma empty_buffer_inv n : 0 <= n < 2 ^ 32 -> mb_inv (empty_buffer n).
Proof.
  intros. unfold mb_inv, empty_buffer. rewrite block_some. cbn. zlist. split_and!; intros; done || lia.
Qed.

Lemma buffer_of_incoming `{Platform} bs : zlen bs < 2 ^ 32 -> incoming (buffer_of bs) bs.
Proof. intros. split; [by apply buffer_of_inv|apply buffer_of_content]. Qed.

Lemma empty_buffer_outgoing `{Platform} `{!Unbounded} n :
  0 <= n < 2 ^ 32 -> outgoing (empty_buffer n) [] (2 ^ 31).
Proof. intros. split; [by apply empty_buffer_inv|]. by split_and!. Qed.

(** Transports over them, freshly constructed with buffers of [n] bytes. *)
Definition buffered {T} (t : T) (n : Z) : TBufferedTransport T :=
  BufTrans t n n (zrep n 0) (zrep n 0) (BufferedTransport.initPointers n).
Definition framed {T} (t : T) (n : Z) : TFramedTransport T :=
  FrTrans t 0 n [] (zrep n 0) (Pointers 0 0 4 n).

Lemma buffered_inv {T} (t : T) n :
  0 < n < 2 ^ 31 -> bt_inv (buffered t n) /\ BufferedTransport.pending (buffered t n) = [].
Proof. intros. split; [|done]. unfold bt_inv, buffered. cbn. zlist. Qed.

Lemma framed_inv {T} (t : T) n : 4 <= n < 2 ^ 31 -> fr_inv (framed t n).
Proof. intros. unfold fr_inv, framed. cbn. zlist. Qed.

(** A struct with a field of every type, nested containers and field ids that
    need a long header. *)
Definition sample : tval :=
  VStruct [(1, VBool true); (2, VByte (-1)); (20, VI16 (-300)); (21, VI32 70000);
           (-5, VI64 (-2)); (3, VDouble 4607182418800017408); (4, VString [104; 105]);
           (5, VList T_I32 [VI32 1; VI32 (-1)]); (6, VSet T_BOOL [VBool true; VBool false]);
           (7, VMap T_STRING T_STRUCT [(VString [], VStruct [(1, VBool false)])]);
           (8, VMap T_I32 T_I32 [])].

Example sample_wf : wf (Limits 0 0) sample = true.
Proof. vm_compute. reflexivity. Qed.

(** The parts a protocol reads it from. *)
Definition binary_over {T} (t : T) : TBinaryProtocolT T := BinProt t (Limits 0 0) false true None 0.
Definition compact_over {T} (t : T) : TCompactProtocolT T :=
  CompactProtocol.new_protocol t.

(** A pipe between two memory buffers, with buffers of [n] bytes. *)
Definition piped_over {T D} (t : T) (d : D) (n : Z) (r w : bool) : TPipedTransport T D :=
  Piped t d (zrep n 0) n 0 0 (zrep n 0) n 0 (Some r) (Some w).

Lemma piped_over_reads `{Platform} {D} (d : D) bs n r w :
  0 < n < 2 ^ 32 -> zlen bs < 2 ^ 31 ->
  pt_reads (d, Some r) (piped_over (buffer_of bs) d n r w) [] bs.
Proof.
  intros Hn Hbs. unfold pt_reads, pt_inv, delivered, ahead, piped_over. cbn. zlist.
  split_and?; try done; try lia. exists bs. split; [done|]. by apply buffer_of_incoming; lia.
Qed.

Lemma piped_over_outgoing `{Platform} `{!Unbounded} {D} (d : D) n r w :
  0 < n < 2 ^ 32 -> pt_outgoing (piped_over (empty_buffer 0) d n r w) [] (2 ^ 30).
Proof.
  intros Hn. unfold pt_outgoing, pt_inv, unflushed, piped_over. cbn. zlist.
  split_and?; try done; try lia. exists []. split; [done|].
  split; [by apply empty_buffer_inv|]. by split_and!.
Qed.
