(* ===== verification/SocketTheorems.v ===== *)
(** * Theorems on sockets and descriptors

    They carry values; what becomes of the errors of the system; what opening leaves
    open.  Each with a concrete host. *)

From S2P Require Export Examples FdTransport SocketOpen.

(** ** A host *)

(** Descriptors are given out in order; a call of [recv] is interrupted while
    [h_alarm] is not 0 and then gives at most three bytes, one of [send] takes at most
    two; [connect] answers with the errors in [h_connects], [getaddrinfo] with
    [h_addresses]. *)
Record Host := MakeHost {
  h_errno : Z;
  h_next : Z;
  h_open : gset Z;
  h_lists : Z;
  h_in : list Z;
  h_alarm : Z;
  h_out : list Z;
  h_connects : list Z;
  h_addresses : list addrinfo
}.

Definition host_errno e h := MakeHost e (h_next h) (h_open h) (h_lists h) (h_in h) (h_alarm h) (h_out h) (h_connects h) (h_addresses h).
Definition host_table n o h := MakeHost (h_errno h) n o (h_lists h) (h_in h) (h_alarm h) (h_out h) (h_connects h) (h_addresses h).
Definition host_lists l h := MakeHost (h_errno h) (h_next h) (h_open h) l (h_in h) (h_alarm h) (h_out h) (h_connects h) (h_addresses h).
Definition host_in i a h := MakeHost (h_errno h) (h_next h) (h_open h) (h_lists h) i a (h_out h) (h_connects h) (h_addresses h).
Definition host_out o h := MakeHost (h_errno h) (h_next h) (h_open h) (h_lists h) (h_in h) (h_alarm h) o (h_connects h) (h_addresses h).
Definition host_connects c h := MakeHost (h_errno h) (h_next h) (h_open h) (h_lists h) (h_in h) (h_alarm h) (h_out h) c (h_addresses h).

Definition host_socket (h : Host) : Z * Host :=
  if decide (0 <= h_next h /\ h_next h ∉ h_open h)
  then (h_next h, host_table (h_next h + 1) ({[h_next h]} ∪ h_open h) h) else (-1, h).

Definition host_recv (n flags : Z) (h : Host) : (Z * list Z) * Host :=
  if 0 <? h_alarm h then ((-1, []), host_errno EINTR (host_in (h_in h) (h_alarm h - 1) h))
  else
    let k := Z.min (Z.min n 3) (zlen (h_in h)) in
    ((k, ztake k (h_in h)), if flags =? MSG_PEEK then h else host_in (zdrop k (h_in h)) 2 h).

Definition host_send (d : list Z) (h : Host) : Z * Host :=
  let k := Z.min 2 (zlen d) in (k, host_out (h_out h ++ ztake k d) h).

Definition host_connect (h : Host) : Z * Host :=
  match h_connects h with
  | e :: l => if e =? 0 then (0, host_connects l h) else (-1, host_errno e (host_connects l h))
  | [] => (0, h)
  end.

#[export] Instance Host_posix : Posix Host := {
  errno := h_errno;
  strerror_s e := text (bytes_of "errno " ++ decimal e);
  sys_socket _ _ _ := host_socket;
  sys_connect _ _ _ := host_connect;
  sys_fcntl _ _ _ h := (0, h);
  sys_poll _ _ _ h := (1, h);
  sys_getsockopt_error _ h := ((0, 0), h);
  sys_setsockopt _ _ _ _ h := (0, h);
  sys_recv _ := host_recv;
  sys_send _ d _ := host_send d;
  sys_shutdown _ _ h := (0, h);
  sys_close fd h := (0, host_table (h_next h) (h_open h ∖ {[fd]}) h);
  sys_getaddrinfo _ _ _ _ _ h :=
    match h_addresses h with [] => ((-2, []), h) | l => ((0, l), host_lists (h_lists h + 1) h) end;
  sys_freeaddrinfo _ h := (tt, host_lists (h_lists h - 1) h);
  sys_getpeername _ h := ((-1, (unspecified, 0)), h);
  sys_getnameinfo _ _ _ h := (([0], [0]), h);
  sys_gettimeofday h := ((0, 0), h);
  sys_usleep _ h := (tt, h);
  sys_read _ n := host_recv n 0;
  sys_write _ := host_send;
  sys_open _ _ _ := host_socket
}.

Lemma host_recv_ok h n : 0 <= h_alarm h <= 2 -> 0 < n < 2 ^ 32 ->
  let '((got, d), h') := host_recv n 0 h in
  got = -1 /\ h_errno h' = EINTR /\ 0 < h_alarm h /\ h_in h' = h_in h /\ h_alarm h' = h_alarm h - 1 \/
  0 <= got <= Z.min n (zlen (h_in h)) /\ (0 < zlen (h_in h) -> 0 < got) /\ got < 2 ^ 31 /\
    d = ztake got (h_in h) /\ h_in h' = zdrop got (h_in h) /\ h_alarm h' = 2.
Proof.
  intros Ha Hn. unfold host_recv. pose proof (zlen_nonneg (h_in h)). bcase (0 <? h_alarm h); [by left|right].
  change (0 =? MSG_PEEK) with false. cbv iota. cbn. split_and!; done || lia.
Qed.

#[export] Instance Host_stream : StreamLaws Host.
Proof.
  refine {| pending h fd bs i := 0 <= fd /\ h_in h = bs /\ h_alarm h = i /\ 0 <= i <= 2;
            accepting h fd out room := 0 <= fd /\ h_out h = out;
            patience := 2 |}.
  - by intros os fd bs i (? & _ & _ & ?).
  - by intros os fd out room [? _].
  - intros h fd bs i n (Hfd & <- & <- & Ha) Hn. pose proof (host_recv_ok h n Ha Hn) as Hr. cbn.
    destruct (host_recv n 0 h) as [[got d] h']. destruct Hr as [(-> & He & Hp & Hi & Ha')|(Hk & Hk0 & Hk31 & -> & Hi & Ha')].
    + left. split_and!; done || lia.
    + right. exists 2. split_and!; done || lia.
  - intros h fd bs (Hfd & <- & Ha & _). cbn. unfold host_recv. rewrite Ha. change (0 <? 0) with false.
    change (MSG_PEEK =? MSG_PEEK) with true. cbv iota zeta. change (Z.min 1 3) with 1. by split_and!; try lia.
  - intros h fd out room d (Hfd & <-) Hd Hm. cbn. unfold host_send. split_and!; done || lia.
  - intros h fd bs i n (Hfd & <- & <- & Ha) Hn. pose proof (host_recv_ok h n Ha Hn) as Hr. cbn.
    destruct (host_recv n 0 h) as [[got d] h']. destruct Hr as [(-> & He & Hp & Hi & Ha')|(Hk & Hk0 & Hk31 & -> & Hi & Ha')].
    + left. split_and!; done || lia.
    + right. exists 2. split_and!; done || lia.
  - intros h fd out room d (Hfd & <-) Hd Hm. cbn. unfold host_send. split_and!; done || lia.
  - intros h fd bs i Hp. exact Hp.
Defined.

#[export] Instance Host_descriptors : DescriptorLaws Host.
Proof.
  refine {| descriptors := h_open; lists := h_lists |}; try done.
  - intros h f t p. cbn. unfold host_socket. destruct (decide _) as [[Hn Hf]|_]; cbn; split; try done; [by right|by left].
  - intros h host port f t fl. cbn. destruct (h_addresses h) as [|a l]; cbn; split; try done; [by right|by left].
  - intros h fd a l. cbn. unfold host_connect. destruct (h_connects h) as [|e c]; [done|]. by destruct (e =? 0).
Defined.

Definition no_clib : CLibrary := {| out_of_range l := 0 |}.

(** A socket and a descriptor with the number 3, connected: [bs] is to come, and two
    interruptions before it. *)
Definition host_with (bs : list Z) : Host := MakeHost 0 4 {[3]} 0 bs 2 [] [] [].
Definition connected (bs : list Z) : TSocket * Host := (constructor_socket 3 0, host_with bs).
Definition descriptor (bs : list Z) : TFDTransport * Host := (FdTransport 3 NO_CLOSE_ON_DESTROY, host_with bs).

(** ** Streams *)

(** C26. Sockets and descriptors: a value written in the binary protocol on a connected
    socket is taken by the system in full, in whatever pieces, and so it is on a
    descriptor; where its bytes arrive, from whatever sender, in whatever pieces and
    with as many interruptions between them as the retries of the transport allow, a
    socket's binary protocol reads the value back, and leaves what follows it; and so
    does a descriptor's. *)
Theorem sockets_carry_values (W R : Platform) (U : @Unbounded R) (C : CLibrary) {OS1 OS2 : Type}
    (P1 : Posix OS1) (P2 : Posix OS2) (L1 : StreamLaws OS1) (L2 : StreamLaws OS2)
    (lim : limits) (v : tval) (out rest : list Z) (room : Z) (depth : nat) (fuel : Z)
    (p1 : TBinaryProtocolT (TSocket * OS1)) (p2 : TBinaryProtocolT (TSocket * OS2))
    (q1 : TBinaryProtocolT (TFDTransport * OS1)) (q2 : TBinaryProtocolT (TFDTransport * OS2)) :
  let e := @enc binary_format v in
  wf lim v = true -> (vsize v <= depth)%nat -> Z.of_nat (vsize v) < fuel -> zlen e <= room ->
  sending (BinaryProtocol.trans_ p1) out room -> outgoing_fd (BinaryProtocol.trans_ q1) out room ->
  receiving (BinaryProtocol.trans_ p2) (e ++ rest) -> incoming_fd (BinaryProtocol.trans_ q2) (e ++ rest) ->
  BinaryProtocol.limits_ p2 = lim -> BinaryProtocol.limits_ q2 = lim ->
  string_buf_ok (BinaryProtocol.string_buf_ p2) (BinaryProtocol.string_buf_size_ p2) ->
  string_buf_ok (BinaryProtocol.string_buf_ q2) (BinaryProtocol.string_buf_size_ q2) ->
  succeeds (@write_value _ (@TBinaryProtocol_protocol W _ (@TSocket_transport _ P1 C)) v) p1 (fun n p1' =>
    n = u32 (zlen e) /\ sending (BinaryProtocol.trans_ p1') (out ++ e) (room - zlen e)) /\
  succeeds (@write_value _ (@TBinaryProtocol_protocol W _ (@TFDTransport_transport _ P1)) v) q1 (fun n q1' =>
    n = u32 (zlen e) /\ outgoing_fd (BinaryProtocol.trans_ q1') (out ++ e) (room - zlen e)) /\
  succeeds (@read_value _ (@TBinaryProtocol_protocol R _ (@TSocket_transport _ P2 C)) depth fuel (type_of v)) p2 (fun r p2' =>
    r = (u32 (zlen e), v) /\ receiving (BinaryProtocol.trans_ p2') rest) /\
  succeeds (@read_value _ (@TBinaryProtocol_protocol R _ (@TFDTransport_transport _ P2)) depth fuel (type_of v)) q2 (fun r q2' =>
    r = (u32 (zlen e), v) /\ incoming_fd (BinaryProtocol.trans_ q2') rest).
Proof.
  intros e Hwf Hd Hf Hroom Hp1 Hq1 Hp2 Hq2 Hl1 Hl2 Hb1 Hb2. split; [|split; [|split]].
  - pose proof (@write_value_enc _ _ binary_format (@TBinaryProtocol_writer W _ (@TSocket_transport _ P1 C) (@TSocket_writes _ P1 C L1)) lim v Hwf 0 []) as Hw.
    eapply succeeds_mono; [by apply (Hw p1 out room Hp1)|]. cbn. auto.
  - pose proof (@write_value_enc _ _ binary_format (@TBinaryProtocol_writer W _ (@TFDTransport_transport _ P1) (@TFDTransport_writes _ P1 L1)) lim v Hwf 0 []) as Hw.
    eapply succeeds_mono; [by apply (Hw q1 out room Hq1)|]. cbn. auto.
  - pose proof (@read_value_enc _ _ binary_format lim (@TBinaryProtocol_reader R U _ (@TSocket_transport _ P2 C) (@TSocket_reads _ P2 C L2) lim)
      v depth fuel 0 [] Hwf Hd Hf p2 rest) as Hr. rewrite binary_canon in Hr.
    eapply succeeds_mono; [apply Hr; by split_and!|]. intros r p2' (-> & Hi & _). done.
  - pose proof (@read_value_enc _ _ binary_format lim (@TBinaryProtocol_reader R U _ (@TFDTransport_transport _ P2) (@TFDTransport_reads _ P2 L2) lim)
      v depth fuel 0 [] Hwf Hd Hf q2 rest) as Hr. rewrite binary_canon in Hr.
    eapply succeeds_mono; [apply Hr; by split_and!|]. intros r q2' (-> & Hi & _). done.
Qed.

Lemma sockets_carry_values_witness :
  let e := @enc binary_format sample in
  succeeds (@write_value _ (@TBinaryProtocol_protocol x86_64 _ (@TSocket_transport _ Host_posix no_clib)) sample)
    (binary_over (connected [])) (fun n p => n = 105 /\ h_out (BinaryProtocol.trans_ p).2 = e) /\
  succeeds (@read_value _ (@TBinaryProtocol_protocol power _ (@TSocket_transport _ Host_posix no_clib)) 60 60 T_STRUCT)
    (binary_over (connected (e ++ [7]))) (fun r p => r = (105, sample) /\ h_in (BinaryProtocol.trans_ p).2 = [7]).
Proof.
  destruct (sockets_carry_values x86_64 power power_unbounded no_clib Host_posix Host_posix Host_stream Host_stream
    (Limits 0 0) sample [] [7] 200 60 60 (binary_over (connected [])) (binary_over (connected (@enc binary_format sample ++ [7])))
    (binary_over (descriptor [])) (binary_over (descriptor (@enc binary_format sample ++ [7])))) as (Hw & _ & Hr & _).
  - reflexivity.
  - vm_compute. lia.
  - vm_compute. reflexivity.
  - vm_compute. discriminate.
  - split; [discriminate|reflexivity].
  - split; [discriminate|reflexivity].
  - split; [split; [vm_compute; discriminate|vm_compute; split; [discriminate|reflexivity]]|].
    exists 2. split; [discriminate|]. split; [reflexivity|]. split; [reflexivity|]. split; discriminate.
  - split; [vm_compute; discriminate|]. exists 2. split; [discriminate|]. split; [reflexivity|]. split; [reflexivity|]. split; discriminate.
  - reflexivity.
  - reflexivity.
  - exact I.
  - exact I.
  - split.
    + eapply succeeds_mono; [exact Hw|]. intros n p [Hn [_ Ho]]. split; [exact Hn|exact Ho].
    + eapply succeeds_mono; [exact Hr|]. intros r p [Hv [_ [i [_ [Hi _]]]]]. split; [exact Hv|exact Hi].
Defined.

(** ** Errors *)

(** C28. Sockets, with a receive timeout whose microseconds fit an [int]: whatever the
    system answers, [read] ends, with bytes or a transport exception; a socket that is
    not open refuses to read and to write, and there is nothing to [peek] at.  With no
    receive timeout set (0), an error of the first [recv] other than an interruption is
    thrown as the exception the code has for it, [EAGAIN] at once as lack of resources.
    So is an error of [send] at the start of [write]: [EAGAIN] as a timeout; a broken
    connection closes the socket; and an interruption, which [read] would retry, is a
    failure. *)
Theorem socket_failures {OS : Type} (P : Posix OS) (C : CLibrary) (s : TSocket * OS) (len : Z) (d : list Z) :
  recvTimeout_ s.1 * 1000 < 2 ^ 31 -> d <> [] ->
  runs (read len) s (fun _ s' => same_settings s.1 s'.1) (fun e s' => transport_exception e /\ same_settings s.1 s'.1) /\
  (socket_ s.1 = INVALID_SOCKET ->
     raises (read len) s (fun e _ => e = ETransport NOT_OPEN "Called read on non-open socket") /\
     raises (write d) s (fun e _ => e = ETransport NOT_OPEN "Called write on non-open socket") /\
     succeeds peek s (fun r s' => r = false /\ s' = s)) /\
  (forall buf os, socket_ s.1 <> INVALID_SOCKET -> recvTimeout_ s.1 = 0 ->
     sys_recv (socket_ s.1) len 0 s.2 = ((-1, buf), os) -> errno os <> EINTR ->
     raises (read len) s (fun e _ =>
       e = if errno os =? EAGAIN then ETransport TTransportException.TIMED_OUT "THRIFT_EAGAIN (unavailable resources)"
           else if errno os =? ECONNRESET then ETransport NOT_OPEN "THRIFT_ECONNRESET"
           else if errno os =? ENOTCONN then ETransport NOT_OPEN "THRIFT_ENOTCONN"
           else if errno os =? ETIMEDOUT then ETransport TTransportException.TIMED_OUT "THRIFT_ETIMEDOUT"
           else transport_error TTransportException.UNKNOWN "Unknown" (errno os))) /\
  (forall os, socket_ s.1 <> INVALID_SOCKET -> sys_send (socket_ s.1) d MSG_NOSIGNAL s.2 = (-1, os) ->
     raises (write d) s (fun e s' =>
       if errno os =? EAGAIN then e = ETransport TTransportException.TIMED_OUT "send timeout expired"
       else if ((errno os =? EPIPE) || (errno os =? ECONNRESET) || (errno os =? ENOTCONN))%bool
       then e = transport_error NOT_OPEN "write() send()" (errno os) /\ socket_ s'.1 = INVALID_SOCKET
       else e = transport_error TTransportException.UNKNOWN "write() send()" (errno os) /\ socket_ s'.1 = socket_ s.1)).
Proof.
  intros Ht Hd. split; [by apply read_ends|]. split; [intros Hs; by apply closed_refuses|]. split.
  - intros buf os Hs Ht0 Hr Hi. exact (recv_refused s len buf os Hs Ht0 Hr Hi).
  - intros os Hs Hse. exact (send_refused s d os Hs Hd Hse).
Qed.

(** A host on which every [recv] is interrupted. *)
Lemma socket_failures_witness :
  let s := (constructor_socket 3 0, MakeHost 0 4 {[3]} 0 [1; 2; 3] 100 [] [] []) in
  runs (@read _ Host_posix no_clib 3) s (fun _ s' => same_settings s.1 s'.1) (fun e s' => transport_exception e /\ same_settings s.1 s'.1) /\
  (@read _ Host_posix no_clib 3 s).1 = Throw (transport_error TTransportException.UNKNOWN "Unknown" EINTR).
Proof.
  intros s. split; [|vm_compute; reflexivity].
  refine (proj1 (socket_failures Host_posix no_clib s 3 [1] _ _)); [reflexivity|discriminate].
Defined.

(** ** Opening *)

(** Two addresses, and sockets that are not open: one for a host, one for a path. *)
Definition address (n : Z) : addrinfo := AddrInfo AF_INET SOCK_STREAM IPPROTO_TCP (Sockaddr AF_INET [n]) sizeof_sockaddr_in.
Definition refusing (connects : list Z) : Host := MakeHost 0 7 {[3]} 0 [] 0 [] connects [address 1; address 2].
Definition for_host (connects : list Z) : TSocket * Host :=
  (constructor_host (bytes_of "localhost") 9090 0 unspecified, refusing connects).
Definition for_path (connects : list Z) : TSocket * Host := (constructor_path (bytes_of "/tmp/thrift") 0, refusing connects).

(** C27. Sockets: [open] for a host ends with one new descriptor, the socket's, or throws
    that the socket is not open and leaves it so: of the sockets that were made for the
    addresses that failed none is left, and the list of addresses has been freed.  For a
    path it throws no other exception either, but the socket that was made may be left:
    then it passes for open, and another [open] does nothing; so it is when the
    connection is refused. *)
Theorem socket_opens {OS : Type} (P : Posix OS) (C : CLibrary) (L : DescriptorLaws OS) (s : TSocket * OS) :
  socket_ s.1 = INVALID_SOCKET ->
  (path_ s.1 = [] ->
     runs open s (fun _ s' => opened_beside s s')
       (fun e s' => not_open e /\ socket_ s'.1 = INVALID_SOCKET /\ descriptors s'.2 = descriptors s.2 /\ lists s'.2 = lists s.2)) /\
  (path_ s.1 <> [] ->
     runs open s (fun _ s' => opened_beside s s')
       (fun e s' => not_open e /\
          (closed_beside s s' \/ opened_beside s s' /\ succeeds open s' (fun _ s'' => s'' = s')))) /\
  raises (@open _ Host_posix C) (for_path [111]) (fun e s' => not_open e /\ opened_beside (for_path [111]) s').
Proof.
  intros Hs. split; [|split].
  - intros Hp. eapply runs_mono; [by apply open_host_ok|done|]. cbv beta. intros e s' (? & ? & ? & ? & ?). by split_and!.
  - intros Hp. eapply runs_mono; [by apply open_path_ok|done|]. cbv beta. intros e s' [He [Hc|Ho]]; (split; [done|]); [by left|right].
    split; [done|]. apply open_again. destruct Ho as (? & _). unfold INVALID_SOCKET. lia.
  - vm_compute. split; [by eexists|]. by split_and!; try (intros Hc; discriminate Hc).
Qed.

(** The first address refuses, the second accepts; then both refuse. *)
Lemma socket_opens_witness :
  (let r := @open _ Host_posix no_clib (for_host [111; 0]) in
   r.1 = Ok tt /\ socket_ r.2.1 = 8 /\ h_open r.2.2 = {[8; 3]} /\ h_lists r.2.2 = 0) /\
  raises (@open _ Host_posix no_clib) (for_host [111; 111]) (fun e s' => not_open e /\ descriptors s'.2 = {[3]} /\ lists s'.2 = 0).
Proof.
  split; [vm_compute; split; [reflexivity|]; split; [reflexivity|]; split; reflexivity|].
  assert (Hr : runs (@open _ Host_posix no_clib) (for_host [111; 111]) (fun _ s' => opened_beside (for_host [111; 111]) s')
    (fun e s' => not_open e /\ socket_ s'.1 = INVALID_SOCKET /\ descriptors s'.2 = {[3]} /\ lists s'.2 = 0)).
  { exact (proj1 (socket_opens Host_posix no_clib Host_descriptors (for_host [111; 111]) eq_refl) eq_refl). }
  revert Hr. unfold raises, runs. destruct (@open _ Host_posix no_clib (for_host [111; 111])) as [[|e|c|] s'] eqn:He.
  - exfalso. revert He. vm_compute. discriminate.
  - intros (Hn & _ & Hd & Hl). split; [exact Hn|]. split; [exact Hd|exact Hl].
  - intros [].
  - intros [].
Defined.
