(* ===== verification/ProtocolTheorems.v ===== *)
(** * Theorems on the wire protocols

    What the binary and compact protocols promise to generated code: values
    survive the wire between any two hosts, skipping a value consumes what reading
    it would, and no input, however malformed, keeps a reader from stopping. *)

From S2P Require Export Examples.

(** ** Values *)

(** C1. Binary protocol: whatever well-formed value one host writes (any type of
    field, nested containers, any field ids), on any transport that keeps the
    stream contract, with either byte order and either C library, another host
    reads back unchanged; both count the bytes on the wire, and what follows the
    value in the stream is left for the next read. *)
Theorem binary_round_trip (W R : Platform) (U : @Unbounded R) {T1 T2 : Type}
    (X1 : TTransport T1) (X2 : TTransport T2) (L1 : WriteLaws T1) (L2 : ReadLaws T2)
    (lim : limits) (v : tval) (p1 : TBinaryProtocolT T1) (p2 : TBinaryProtocolT T2)
    (out rest : list Z) (room : Z) (depth : nat) (fuel : Z) :
  let e := @enc binary_format v in
  wf lim v = true -> (vsize v <= depth)%nat -> Z.of_nat (vsize v) < fuel ->
  outgoing (BinaryProtocol.trans_ p1) out room -> zlen e <= room ->
  incoming (BinaryProtocol.trans_ p2) (e ++ rest) -> BinaryProtocol.limits_ p2 = lim ->
  string_buf_ok (BinaryProtocol.string_buf_ p2) (BinaryProtocol.string_buf_size_ p2) ->
  succeeds (@write_value _ (@TBinaryProtocol_protocol W T1 X1) v) p1 (fun n p1' =>
    n = u32 (zlen e) /\ outgoing (BinaryProtocol.trans_ p1') (out ++ e) (room - zlen e)) /\
  succeeds (@read_value _ (@TBinaryProtocol_protocol R T2 X2) depth fuel (type_of v)) p2 (fun r p2' =>
    r = (u32 (zlen e), v) /\ incoming (BinaryProtocol.trans_ p2') rest).
Proof.
  intros e Hwf Hd Hf Hout Hroom Hin Hlim Hbuf. split.
  - pose proof (@write_value_enc _ _ binary_format (@TBinaryProtocol_writer W T1 X1 L1) lim v Hwf 0 [])
      as Hw. eapply succeeds_mono; [by apply (Hw p1 out room Hout)|]. cbn. auto.
  - pose proof (@read_value_enc _ _ binary_format lim (@TBinaryProtocol_reader R U T2 X2 L2 lim)
      v depth fuel 0 [] Hwf Hd Hf p2 rest) as Hr. rewrite binary_canon in Hr.
    eapply succeeds_mono; [apply Hr; by split_and!|]. intros r p2' (-> & Hi & _). done.
Qed.
Lemma binary_round_trip_witness :
  let e := @enc binary_format sample in
  succeeds (@write_value _ (@TBinaryProtocol_protocol x86_64 _ (@TMemoryBuffer_transport x86_64)) sample)
    (binary_over (empty_buffer 16)) (fun n p =>
      n = 105 /\ @outgoing _ _ (@TMemoryBuffer_writes x86_64 x86_64_unbounded)
                   (BinaryProtocol.trans_ p) e (2 ^ 31 - 105)) /\
  succeeds (@read_value _ (@TBinaryProtocol_protocol power _ (@TMemoryBuffer_transport power)) 60 60 T_STRUCT)
    (binary_over (buffer_of (e ++ [7]))) (fun r p =>
      r = (105, sample) /\ @incoming _ _ (@TMemoryBuffer_reads power) (BinaryProtocol.trans_ p) [7]).
Proof.
  apply (binary_round_trip x86_64 power power_unbounded _ _
    (@TMemoryBuffer_writes x86_64 x86_64_unbounded) (@TMemoryBuffer_reads power)
    (Limits 0 0) sample (binary_over (empty_buffer 16))
    (binary_over (buffer_of (@enc binary_format sample ++ [7]))) [] [7] (2 ^ 31) 60 60).
  - reflexivity.
  - vm_compute. lia.
  - vm_compute. reflexivity.
  - apply (@empty_buffer_outgoing x86_64 x86_64_unbounded). lia.
  - vm_compute. discriminate.
  - apply (@buffer_of_incoming power). vm_compute. reflexivity.
  - reflexivity.
  - exact I.
Defined.

(** C2. Compact protocol: the same between any two hosts, through field-id
    deltas, booleans folded into field headers, zigzag varints and little-endian
    doubles; the stack of field ids is back where it was.  The only loss is that
    an empty map comes back without its key and value types ([canon]). *)
Theorem compact_round_trip (W R : Platform) (U : @Unbounded R) {T1 T2 : Type}
    (X1 : TTransport T1) (X2 : TTransport T2) (L1 : WriteLaws T1) (L2 : ReadLaws T2)
    (lim : limits) (v : tval) (p1 : TCompactProtocolT T1) (p2 : TCompactProtocolT T2)
    (l : Z) (c out rest : list Z) (room : Z) (depth : nat) (fuel : Z) :
  let e := @enc compact_format v in
  wf lim v = true -> (vsize v <= depth)%nat -> Z.of_nat (vsize v) < fuel ->
  comp_out p1 (l :: c) out room -> zlen e <= room ->
  comp_in lim p2 (l :: c) (e ++ rest) ->
  succeeds (@write_value _ (@TCompactProtocol_protocol W T1 X1) v) p1 (fun n p1' =>
    n = u32 (zlen e) /\ comp_out p1' (l :: c) (out ++ e) (room - zlen e)) /\
  succeeds (@read_value _ (@TCompactProtocol_protocol R T2 X2) depth fuel (type_of v)) p2 (fun r p2' =>
    r = (u32 (zlen e), @canon compact_format v) /\ comp_in lim p2' (l :: c) rest).
Proof.
  intros e Hwf Hd Hf Hout Hroom Hin. split.
  - by apply (@write_value_enc _ _ compact_format (@TCompactProtocol_writer W T1 X1 L1) lim v Hwf l c).
  - by apply (@read_value_enc _ _ compact_format lim (@TCompactProtocol_reader R U T2 X2 L2 lim)
      v depth fuel l c Hwf Hd Hf p2 rest).
Qed.
Lemma compact_round_trip_witness :
  let e := @enc compact_format sample in
  succeeds (@write_value _ (@TCompactProtocol_protocol power _ (@TMemoryBuffer_transport power)) sample)
    (compact_over (empty_buffer 16)) (fun n p =>
      n = 44 /\ @comp_out _ _ (@TMemoryBuffer_writes power power_unbounded) p [0] e (2 ^ 31 - 44)) /\
  succeeds (@read_value _ (@TCompactProtocol_protocol x86_64 _ (@TMemoryBuffer_transport x86_64)) 60 60 T_STRUCT)
    (compact_over (buffer_of (e ++ [7]))) (fun r p =>
      r = (44, @canon compact_format sample) /\
      @comp_in _ _ (@TMemoryBuffer_reads x86_64) (Limits 0 0) p [0] [7]).
Proof.
  apply (compact_round_trip power x86_64 x86_64_unbounded _ _
    (@TMemoryBuffer_writes power power_unbounded) (@TMemoryBuffer_reads x86_64)
    (Limits 0 0) sample (compact_over (empty_buffer 16))
    (compact_over (buffer_of (@enc compact_format sample ++ [7]))) 0 [] [] [7] (2 ^ 31) 60 60).
  - reflexivity.
  - vm_compute. lia.
  - vm_compute. reflexivity.
  - split; [reflexivity|]. split; [|split; reflexivity].
    apply (@empty_buffer_outgoing power power_unbounded). lia.
  - vm_compute. discriminate.
  - split; [reflexivity|]. split; [|split_and!; try reflexivity; exact I].
    apply (@buffer_of_incoming x86_64). vm_compute. reflexivity.
Defined.

(** ** Skipping *)

(** C18. On either protocol (any reader that meets the laws), [skip] of a
    well-formed value answers the number of bytes on the wire and leaves the
    reader exactly behind the value, its field-id stack included; on any input at
    all it makes the same calls as reading the value: same count, same exception,
    same state. *)
Theorem skip_consumes_value {P : Type} (TP : TProtocol P) (F : WireFormat) (lim : limits)
    (L : ReaderLaws P lim) (v : tval) (depth : nat) (fuel l : Z) (c : list Z) (p : P) (rest : list Z) :
  wf lim v = true -> (vsize v <= depth)%nat -> Z.of_nat (vsize v) < fuel ->
  r_state p (l :: c) (enc v ++ rest) ->
  succeeds (skip depth fuel (type_of v)) p (fun n p' =>
    n = u32 (zlen (enc v)) /\ r_state p' (l :: c) rest) /\
  (forall d f t q, skip d f t q = map_outcome fst (read_value d f t q)).
Proof.
  intros Hwf Hd Hf Hp. split; [by apply (skip_enc v)|]. intros. apply skip_read_value.
Qed.
Lemma skip_consumes_value_witness :
  let e := @enc compact_format sample in
  succeeds (@skip _ (@TCompactProtocol_protocol x86_64 _ (@TMemoryBuffer_transport x86_64)) 60 60 T_STRUCT)
    (compact_over (buffer_of (e ++ [7]))) (fun n p =>
      n = 44 /\ @comp_in _ _ (@TMemoryBuffer_reads x86_64) (Limits 0 0) p [0] [7]).
Proof.
  eapply (proj1 (skip_consumes_value _ compact_format (Limits 0 0)
    (@TCompactProtocol_reader x86_64 x86_64_unbounded _ _ (@TMemoryBuffer_reads x86_64) (Limits 0 0))
    sample 60 60 0 [] (compact_over (buffer_of (@enc compact_format sample ++ [7]))) [7]
    ltac:(reflexivity) ltac:(vm_compute; lia) ltac:(vm_compute; reflexivity) _)).
  Unshelve. split; [reflexivity|]. split; [|split_and!; try reflexivity; exact I].
  apply (@buffer_of_incoming x86_64). vm_compute. reflexivity.
Defined.

(** The elements of a list of a type that takes no bytes. *)
Lemma skip_no_bytes `{Platform} `{!Unbounded} {T : Type} `{ReadLaws T} lim (p : TBinaryProtocolT T) n rest depth fuel :
  0 <= n < 2 ^ 31 -> container_over lim n = false -> (2 <= depth)%nat ->
  bin_in lim p [] (([u8 T_VOID] ++ be_bytes 4 n) ++ rest) ->
  succeeds (skip depth fuel T_LIST) p (fun k p' => k = 5 /\ bin_in lim p' [] rest).
Proof.
  intros Hn Hover Hd Hp. destruct depth as [|[|depth]]; [lia..|]. cbn [skip]. cbn -[for_ skip_elem].
  eapply reads_step; [apply (readListBegin_ok lim [] T_VOID n); [split; done|done|done]|exact Hp|].
  intros p1 Hp1. cbv beta iota. apply runs_bind.
  eapply (runs_mono _ _ (fun k p => k = 5 /\ bin_in lim p [] rest) _ (fun _ _ => False));
    [apply (runs_for (fun _ k p => k = 5 /\ bin_in lim p [] rest)); [lia| |]| |done].
  - split; [|done]. rewrite zlen_app, zlen_be_bytes by lia. done.
  - intros i k q _ [-> Hq]. unfold skip_elem. change (T_VOID =? _) with false. wp. by split.
  - intros k q [-> Hq]. wp. by split.
Qed.

(** C19. Binary protocol: on ANY input, malformed, truncated or hostile, [skip] of
    any type tag ends: it neither runs for ever nor reads or writes outside its
    buffers; it throws, or leaves no more input than there was.  The length of the
    input bounds the depth of the recursion and the rounds of each loop over the
    fields of a struct.  It does not bound the loop over the elements of a container,
    which goes as many rounds as announced: a list of [n] elements of a type that
    takes no bytes is passed over by [n] rounds, up to 2^31 - 1, for its five bytes. *)
Theorem binary_skip_stops (Pl : Platform) (U : Unbounded) {T : Type} (X : TTransport T)
    (L : ReadLaws T) (lim : limits) (p : TBinaryProtocolT T) (bs : list Z) (t : Z)
    (depth : nat) (fuel : Z) :
  zlen bs < Z.of_nat depth -> zlen bs < fuel ->
  incoming (BinaryProtocol.trans_ p) bs -> BinaryProtocol.limits_ p = lim ->
  string_buf_ok (BinaryProtocol.string_buf_ p) (BinaryProtocol.string_buf_size_ p) ->
  runs (skip depth fuel t) p
    (fun _ p' => exists bs', incoming (BinaryProtocol.trans_ p') bs' /\ zlen bs' <= zlen bs)
    (fun _ _ => True) /\
  (forall n rest, bs = ([T_VOID] ++ be_bytes 4 n) ++ rest -> 0 <= n < 2 ^ 31 -> container_over lim n = false ->
     succeeds (skip depth fuel T_LIST) p (fun k p' => k = 5 /\ incoming (BinaryProtocol.trans_ p') rest)).
Proof.
  intros Hd Hf Hin Hlim Hbuf. split.
  2: { intros n rest -> Hn Hover. eapply succeeds_mono; [apply (skip_no_bytes lim p n rest)|]; [done|done| |by split_and!|].
    - rewrite !zlen_app, zlen_be_bytes in Hd by lia. change (zlen [T_VOID]) with 1 in Hd. pose proof (zlen_nonneg rest). lia.
    - intros k p' [-> [Hp' _]]. by split. }
  pose proof (skip_total (lim := lim) (ReaderTotal0 := TBinaryProtocol_total lim) depth fuel
    (zlen bs + 1) ltac:(lia) ltac:(lia) t p 0 [] bs) as Hs.
  eapply runs_mono; [apply Hs; [by split_and!|lia]| |done].
  cbn. intros _ p' (bs' & (Hin' & _) & Hle). eauto.
Qed.
Lemma binary_skip_stops_witness :
  let hostile := [13; 15; 255; 255; 255; 255] in
  runs (@skip _ (@TBinaryProtocol_protocol x86_64 _ (@TMemoryBuffer_transport x86_64)) 10 10 T_MAP)
    (binary_over (buffer_of hostile))
    (fun _ p' => exists bs', @incoming _ _ (@TMemoryBuffer_reads x86_64) (BinaryProtocol.trans_ p') bs' /\
                   zlen bs' <= 6)
    (fun _ _ => True).
Proof.
  refine (proj1 (binary_skip_stops x86_64 x86_64_unbounded _ (@TMemoryBuffer_reads x86_64) (Limits 0 0)
    (binary_over (buffer_of [13; 15; 255; 255; 255; 255])) [13; 15; 255; 255; 255; 255] T_MAP 10 10 _ _ _ _ _)).
  - reflexivity.
  - reflexivity.
  - apply (@buffer_of_incoming x86_64). reflexivity.
  - reflexivity.
  - exact I.
Defined.

(** Compact protocol: the same, through the varint reader's borrowed and
    byte-by-byte paths. *)
Theorem compact_skip_stops (Pl : Platform) (U : Unbounded) {T : Type} (X : TTransport T)
    (L : ReadLaws T) (lim : limits) (p : TCompactProtocolT T) (bs : list Z) (t l : Z) (c : list Z)
    (depth : nat) (fuel : Z) :
  zlen bs < Z.of_nat depth -> zlen bs < fuel -> comp_in lim p (l :: c) bs ->
  runs (skip depth fuel t) p
    (fun _ p' => exists bs', comp_in lim p' (l :: c) bs' /\ zlen bs' <= zlen bs)
    (fun _ _ => True).
Proof.
  intros Hd Hf Hin.
  apply (skip_total (lim := lim) (ReaderTotal0 := TCompactProtocol_total lim) depth fuel
    (zlen bs + 1) ltac:(lia) ltac:(lia) t p l c bs); [done|lia].
Qed.
Lemma compact_skip_stops_witness :
  let hostile := [0xfb; 255; 255; 255; 255; 255; 255; 255; 255; 255; 255] in
  runs (@skip _ (@TCompactProtocol_protocol x86_64 _ (@TMemoryBuffer_transport x86_64)) 12 12 T_LIST)
    (compact_over (buffer_of hostile))
    (fun _ p' => exists bs', @comp_in _ _ (@TMemoryBuffer_reads x86_64) (Limits 0 0) p' [0] bs' /\
                   zlen bs' <= 11)
    (fun _ _ => True).
Proof.
  apply (compact_skip_stops x86_64 x86_64_unbounded _ (@TMemoryBuffer_reads x86_64) (Limits 0 0)
    (compact_over (buffer_of [0xfb; 255; 255; 255; 255; 255; 255; 255; 255; 255; 255]))
    [0xfb; 255; 255; 255; 255; 255; 255; 255; 255; 255; 255] T_LIST 0 [] 12 12).
  - reflexivity.
  - reflexivity.
  - split; [reflexivity|]. split; [|split_and!; try reflexivity; exact I].
    apply (@buffer_of_incoming x86_64). reflexivity.
Defined.


(** ** Varints and zigzag *)

(** C21. [readVarint64] on any stream, valid or not: whether the transport lends
    ten bytes (the fast path) or bytes are read one by one (the slow path), the
    result is that of one parser: the value and the bytes used, the refusal of a
    varint longer than ten bytes, or the end of the input. *)
Theorem compact_varint_paths_agree (Pl : Platform) {T : Type} (X : TTransport T) (L : ReadLaws T)
    (lim : limits) (p : TCompactProtocolT T) (c bs : list Z) :
  comp_in lim p c bs ->
  runs CompactProtocol.readVarint64 p
    (fun r p' => exists v used, parse_varint 9 0 0 0 bs = VDone v used /\
       r = (used, s64 v) /\ 1 <= used <= 10 /\ comp_in lim p' c (zdrop used bs))
    (fun e _ => match parse_varint 9 0 0 0 bs with
                | VDone _ _ => False
                | VOverlong => e = EProtocol TProtocolException.INVALID_DATA
                                     "Variable-length int over 10 bytes."
                | VShort => stream_end e
                end).
Proof.
  intros [Hb Hp]. eapply runs_mono; [by apply readVarint64_spec| |].
  - unfold varint_post. intros r p'. destruct (parse_varint 9 0 0 0 bs) as [v u| |] eqn:Hv; [|done|done].
    intros [-> Hp']. apply parse_varint_used in Hv as Hu. exists v, u. split_and!; try done; [lia|lia|].
    by eapply comp_at_between.
  - unfold varint_exn. intros e p'. by destruct (parse_varint 9 0 0 0 bs).
Qed.
Lemma compact_varint_paths_agree_witness :
  runs (@CompactProtocol.readVarint64 x86_64 _ (@TMemoryBuffer_transport x86_64))
    (compact_over (buffer_of [172; 2; 9]))
    (fun r p' => exists v used, parse_varint 9 0 0 0 [172; 2; 9] = VDone v used /\
       r = (used, s64 v) /\ 1 <= used <= 10 /\
       @comp_in _ _ (@TMemoryBuffer_reads x86_64) (Limits 0 0) p' [0] (zdrop used [172; 2; 9]))
    (fun e _ => match parse_varint 9 0 0 0 [172; 2; 9] with
                | VDone _ _ => False
                | VOverlong => e = EProtocol TProtocolException.INVALID_DATA
                                     "Variable-length int over 10 bytes."
                | VShort => e = ETransport END_OF_FILE "No more data to read."
                end).
Proof.
  apply (compact_varint_paths_agree x86_64 _ (@TMemoryBuffer_reads x86_64) (Limits 0 0)
    (compact_over (buffer_of [172; 2; 9])) [0] [172; 2; 9]).
  split; [reflexivity|]. split; [|split_and!; try reflexivity; exact I].
  apply (@buffer_of_incoming x86_64). reflexivity.
Defined.

(** [writeVarint64] of any 64-bit value puts one to ten bytes on the wire, in
    groups of seven bits, within its ten-byte buffer, and the reader's parser gets
    the value back from them whatever follows; a 32-bit value takes at most five. *)
Theorem compact_varint_round_trip (Pl : Platform) {T : Type} (X : TTransport T) (L : WriteLaws T)
    (p : TCompactProtocolT T) (c out rest : list Z) (room n : Z) :
  in_u 64 n -> comp_out p c out room -> 10 <= room ->
  succeeds (CompactProtocol.writeVarint64 n) p (fun used p' => exists e,
    comp_out p' c (out ++ e) (room - used) /\ used = zlen e /\ 1 <= used <= 10 /\ bytes_ok e /\
    (n < 2 ^ 32 -> used <= 5) /\ parse_varint 9 0 0 0 (e ++ rest) = VDone n used).
Proof.
  intros Hn Hp Hr. pose proof (zlen_varint n Hn) as Hlen.
  eapply succeeds_mono;
    [apply (writes_between (CompactProtocol.writeVarint64 n) c c (varint n)); [|exact Hp|lia]|].
  { intros bf. by apply writeVarint64_ok. }
  cbn beta. intros used p' [-> Hp']. rewrite wrapu_small by (unfold in_u; lia).
  exists (varint n). split_and!; try done; try lia.
  - apply varint_bytes_ok, Hn.
  - intros Hn'. unfold in_u in Hn. apply (zlen_varint_le 4 10 n). zconst. lia.
  - by apply parse_varint_varint.
Qed.
Lemma compact_varint_round_trip_witness :
  succeeds (@CompactProtocol.writeVarint64 _ (@TMemoryBuffer_transport x86_64) 300)
    (compact_over (empty_buffer 0)) (fun used p' => exists e,
    @comp_out _ _ (@TMemoryBuffer_writes x86_64 x86_64_unbounded) p' [0] e (2 ^ 31 - used) /\
    used = zlen e /\ 1 <= used <= 10 /\ bytes_ok e /\
    (300 < 2 ^ 32 -> used <= 5) /\ parse_varint 9 0 0 0 (e ++ [5]) = VDone 300 used).
Proof.
  apply (compact_varint_round_trip x86_64 _ (@TMemoryBuffer_writes x86_64 x86_64_unbounded)
    (compact_over (empty_buffer 0)) [0] [] [5] (2 ^ 31) 300).
  - unfold in_u. lia.
  - split; [reflexivity|]. split; [|split; reflexivity].
    apply (@empty_buffer_outgoing x86_64 x86_64_unbounded). lia.
  - lia.
Defined.

(** The zigzag maps, written with shifts and exclusive or on machine words,
    are inverse on every 32-bit and every 64-bit value, and fold the sign into the
    lowest bit: small magnitudes give small codes. *)
Theorem zigzag_bijection (n m : Z) :
  in_s 32 n -> in_s 64 m ->
  zigzagToI32 (i32ToZigzag n) = n /\ zigzagToI64 (i64ToZigzag m) = m /\
  i32ToZigzag n = (if n <? 0 then 2 * - n - 1 else 2 * n) /\
  i64ToZigzag m = (if m <? 0 then 2 * - m - 1 else 2 * m).
Proof.
  intros Hn Hm. rewrite i32ToZigzag_spec, i64ToZigzag_spec by done.
  rewrite zigzagToI32_spec, zigzagToI64_spec by (by apply zigzag_range).
  rewrite !unzigzag_zigzag. unfold zigzag. split_and!; try done; bif; lia.
Qed.
Lemma zigzag_bijection_witness :
  zigzagToI32 (i32ToZigzag (- 2 ^ 31)) = - 2 ^ 31 /\ zigzagToI64 (i64ToZigzag (- 2 ^ 63)) = - 2 ^ 63 /\
  i32ToZigzag (- 2 ^ 31) = (if - 2 ^ 31 <? 0 then 2 * - - 2 ^ 31 - 1 else 2 * - 2 ^ 31) /\
  i64ToZigzag (- 2 ^ 63) = (if - 2 ^ 63 <? 0 then 2 * - - 2 ^ 63 - 1 else 2 * - 2 ^ 63).
Proof. apply (zigzag_bijection (- 2 ^ 31) (- 2 ^ 63)); unfold in_s; lia. Defined.

(** The field header of the compact protocol: an id one to fifteen above the
    last one takes a single byte, any other id a full zigzag varint of at most
    three more; either way the reader gets type and id back. *)
Theorem compact_field_header (Pl : Platform) {T : Type} (X : TTransport T)
    (LW : WriteLaws T) (LR : ReadLaws T) (lim : limits) (p q : TCompactProtocolT T)
    (c out rest name : list Z) (room last t id : Z) :
  In t value_types -> t <> T_BOOL -> in_s 16 id -> in_s 16 last ->
  comp_out p (last :: c) out room -> 4 <= room ->
  comp_in lim q (last :: c) (e_header last (ctype t) id ++ rest) ->
  succeeds (CompactProtocol.writeFieldBegin (Some name) t id) p (fun n p' =>
    n = zlen (e_header last (ctype t) id) /\
    (1 <= id - last <= 15 -> n = 1) /\ (~ 1 <= id - last <= 15 -> 2 <= n <= 4) /\
    comp_out p' (id :: c) (out ++ e_header last (ctype t) id) (room - n)) /\
  succeeds CompactProtocol.readFieldBegin q (fun r q' =>
    r = (zlen (e_header last (ctype t) id), (t, id)) /\ comp_in lim q' (id :: c) rest).
Proof.
  intros Ht Hb Hid Hlast Hp Hr Hq.
  assert (Hlen : (1 <= id - last <= 15 -> zlen (e_header last (ctype t) id) = 1) /\
                 (~ 1 <= id - last <= 15 -> 2 <= zlen (e_header last (ctype t) id) <= 4)).
  { unfold e_header. destruct (last <? id) eqn:E1, (id - last <=? 15) eqn:E2; breflect; cbn [andb];
      (split; intros; [try lia; try reflexivity|try lia]); rewrite zlen_app; change (zlen [_]) with 1;
      pose proof (zigzag_range 16 id ltac:(lia) Hid) as Hz; unfold in_u in Hz;
      pose proof (varint_upto_pos 9 (zigzag id)); pose proof (zlen_varint_le 2 10 (zigzag id) ltac:(zconst; lia));
      unfold varint; lia. }
  assert (zlen (e_header last (ctype t) id) <= 4 /\ 0 <= zlen (e_header last (ctype t) id)) as [Hmax Hpos].
  { destruct Hlen. destruct (Z_lt_le_dec (id - last) 1), (Z_lt_le_dec 15 (id - last)); lia. }
  split.
  - eapply succeeds_mono; [apply (writes_between (CompactProtocol.writeFieldBegin (Some name) t id)
      (last :: c) (id :: c) (e_header last (ctype t) id)); [|exact Hp|lia]|].
    { intros bf. by apply writeFieldBegin_ok. }
    cbn beta. intros n p' [-> Hp']. rewrite wrapu_small by (unfold in_u; lia). destruct Hlen. by split_and!.
  - destruct Hq as [Hbv Hq]. eapply succeeds_mono;
      [by apply (comp_readFieldBegin_ok lim (boolValue_ q) last c t id Ht Hb Hid Hlast q rest)|].
    cbn beta. intros r q' [-> Hq']. rewrite wrapu_small by (unfold in_u; lia).
    split; [done|]. by eapply comp_at_between.
Qed.
Lemma compact_field_header_witness :
  succeeds (@CompactProtocol.writeFieldBegin _ (@TMemoryBuffer_transport x86_64) (Some []) T_I32 17)
    (compact_over (empty_buffer 8)) (fun n p' =>
    n = zlen (e_header 0 (ctype T_I32) 17) /\
    (1 <= 17 - 0 <= 15 -> n = 1) /\ (~ 1 <= 17 - 0 <= 15 -> 2 <= n <= 4) /\
    @comp_out _ _ (@TMemoryBuffer_writes x86_64 x86_64_unbounded) p' [17]
      ([] ++ e_header 0 (ctype T_I32) 17) (2 ^ 31 - n)) /\
  succeeds (@CompactProtocol.readFieldBegin x86_64 _ (@TMemoryBuffer_transport x86_64))
    (compact_over (buffer_of (e_header 0 (ctype T_I32) 17 ++ [1]))) (fun r q' =>
    r = (zlen (e_header 0 (ctype T_I32) 17), (T_I32, 17)) /\
    @comp_in _ _ (@TMemoryBuffer_reads x86_64) (Limits 0 0) q' [17] [1]).
Proof.
  apply (compact_field_header x86_64 _ (@TMemoryBuffer_writes x86_64 x86_64_unbounded)
    (@TMemoryBuffer_reads x86_64) (Limits 0 0) (compact_over (empty_buffer 8))
    (compact_over (buffer_of (e_header 0 (ctype T_I32) 17 ++ [1]))) [] [] [1] [] (2 ^ 31) 0 T_I32 17).
  - cbn. auto 10.
  - discriminate.
  - unfold in_s. lia.
  - unfold in_s. lia.
  - split; [reflexivity|]. split; [|split; reflexivity].
    apply (@empty_buffer_outgoing x86_64 x86_64_unbounded). lia.
  - lia.
  - split; [reflexivity|]. split; [|split_and!; try reflexivity; exact I].
    apply (@buffer_of_incoming x86_64). reflexivity.
Defined.

(** ** Message headers and limits *)

(** Binary message headers: with or without the version word (the writer's
    [strict_write_]), the header read by another host is the one written, name,
    type and sequence id; a lenient reader takes both forms, a strict reader the
    versioned one. *)
Theorem binary_message_header (W R : Platform) (U : @Unbounded R) {T1 T2 : Type}
    (X1 : TTransport T1) (X2 : TTransport T2) (L1 : WriteLaws T1) (L2 : ReadLaws T2)
    (lim : limits) (p : TBinaryProtocolT T1) (q : TBinaryProtocolT T2)
    (c out rest name : list Z) (room t id : Z) :
  let e := BinaryProtocol.e_message (strict_write_ p) name t id in
  zlen name < 2 ^ 31 -> string_over lim (zlen name) = false -> in_s 32 id ->
  header_type_ok (strict_write_ p) t -> strict_write_ p = true \/ strict_read_ q = false ->
  bin_out p c out room -> zlen e <= room -> bin_in lim q c (e ++ rest) ->
  succeeds (@BinaryProtocol.writeMessageBegin W T1 X1 name t id) p (fun n p' =>
    n = u32 (zlen e) /\ bin_out p' c (out ++ e) (room - zlen e)) /\
  succeeds (@BinaryProtocol.readMessageBegin R T2 X2) q (fun r q' =>
    r = (u32 (zlen e), (name, t, id)) /\ bin_in lim q' c rest).
Proof.
  intros e Hn Hover Hid Ht Hmode Hp Hr Hq. split.
  - by apply (@BinaryProtocol.writeMessageBegin_ok W T1 X1 L1).
  - by apply (@BinaryProtocol.readMessageBegin_ok R T2 X2 U L2).
Qed.
Lemma binary_message_header_witness :
  let e := BinaryProtocol.e_message true [112; 105] T_CALL (-7) in
  succeeds (@BinaryProtocol.writeMessageBegin power _ (@TMemoryBuffer_transport power) [112; 105] T_CALL (-7))
    (binary_over (empty_buffer 1)) (fun n p' => n = 14 /\
    @bin_out _ _ (@TMemoryBuffer_writes power power_unbounded) p' [] e (2 ^ 31 - 14)) /\
  succeeds (@BinaryProtocol.readMessageBegin x86_64 _ (@TMemoryBuffer_transport x86_64))
    (binary_over (buffer_of (e ++ [0]))) (fun r q' => r = (14, ([112; 105], T_CALL, -7)) /\
    @bin_in _ _ (@TMemoryBuffer_reads x86_64) (Limits 0 0) q' [] [0]).
Proof.
  apply (binary_message_header power x86_64 x86_64_unbounded _ _
    (@TMemoryBuffer_writes power power_unbounded) (@TMemoryBuffer_reads x86_64) (Limits 0 0)
    (binary_over (empty_buffer 1))
    (binary_over (buffer_of (BinaryProtocol.e_message true [112; 105] T_CALL (-7) ++ [0])))
    [] [] [0] [112; 105] (2 ^ 31) T_CALL (-7)).
  - reflexivity.
  - reflexivity.
  - unfold in_s. lia.
  - unfold header_type_ok, in_u. cbn. unfold T_CALL. lia.
  - left. reflexivity.
  - apply (@empty_buffer_outgoing power power_unbounded). lia.
  - vm_compute. discriminate.
  - split; [|split; [reflexivity|exact I]]. apply (@buffer_of_incoming x86_64). vm_compute. reflexivity.
Defined.

(** A first word that is negative but not version 1, or not negative while
    the reader is strict, is refused as BAD_VERSION, nothing but the word being
    taken from the stream. *)
Theorem binary_bad_version (Pl : Platform) {T : Type} (X : TTransport T) (L : ReadLaws T)
    (lim : limits) (p : TBinaryProtocolT T) (c rest : list Z) (w : Z) :
  in_s 32 w -> bin_in lim p c (be_bytes 4 w ++ rest) ->
  (w < 0 /\ Z.land w BinaryProtocol.VERSION_MASK <> BinaryProtocol.VERSION_1) \/
  (0 <= w /\ strict_read_ p = true) ->
  raises BinaryProtocol.readMessageBegin p (fun e p' =>
    (exists m, e = EProtocol TProtocolException.BAD_VERSION m) /\ bin_in lim p' c rest).
Proof. intros. by apply (BinaryProtocol.readMessageBegin_bad_version lim p c w rest). Qed.
Lemma binary_bad_version_witness :
  raises (@BinaryProtocol.readMessageBegin x86_64 _ (@TMemoryBuffer_transport x86_64))
    (binary_over (buffer_of [0x80; 0x02; 0; 1; 5]))
    (fun e p' => (exists m, e = EProtocol TProtocolException.BAD_VERSION m) /\
      @bin_in _ _ (@TMemoryBuffer_reads x86_64) (Limits 0 0) p' [] [5]).
Proof.
  apply (binary_bad_version x86_64 _ (@TMemoryBuffer_reads x86_64) (Limits 0 0)
    (binary_over (buffer_of [0x80; 0x02; 0; 1; 5])) [] [5] (s32 0x80020001)).
  - apply wraps_range. lia.
  - split; [|split; [reflexivity|exact I]]. apply (@buffer_of_incoming x86_64). reflexivity.
  - left. split; [reflexivity|]. vm_compute. discriminate.
Defined.

(** Compact message headers: name and sequence id come back, but the reader
    keeps only two of the three type bits.  T_CALL, T_REPLY and T_EXCEPTION
    survive; T_ONEWAY (4) is read as 0, which is no message type. *)
Theorem compact_message_header (W R : Platform) (U : @Unbounded R) {T1 T2 : Type}
    (X1 : TTransport T1) (X2 : TTransport T2) (L1 : WriteLaws T1) (L2 : ReadLaws T2)
    (lim : limits) (p : TCompactProtocolT T1) (q : TCompactProtocolT T2)
    (c d out rest name : list Z) (room t id : Z) :
  let e := CompactProtocol.e_message name t id in
  In t [T_CALL; T_REPLY; T_EXCEPTION; T_ONEWAY] -> in_s 32 id ->
  zlen name < 2 ^ 31 -> string_over lim (zlen name) = false ->
  comp_out p c out room -> zlen e <= room -> comp_in lim q d (e ++ rest) ->
  succeeds (@CompactProtocol.writeMessageBegin T1 X1 name t id) p (fun n p' =>
    n = u32 (zlen e) /\ comp_out p' c (out ++ e) (room - zlen e)) /\
  succeeds (@CompactProtocol.readMessageBegin R T2 X2) q (fun r q' =>
    r = (u32 (zlen e), (name, if t =? T_ONEWAY then 0 else t, id)) /\ comp_in lim q' d rest).
Proof.
  intros e Ht Hid Hn Hover Hp Hr Hq.
  assert (0 <= t < 8 /\ t mod 4 = if t =? T_ONEWAY then 0 else t) as [Ht8 Hmod]
    by (destruct Ht as [<-|[<-|[<-|[<-|[]]]]]; by split).
  rewrite <- Hmod. split.
  - by apply (@CompactProtocol.comp_writeMessageBegin_ok _ X1 L1 c name t id); [|lia|..].
  - by apply (@CompactProtocol.comp_readMessageBegin_ok R T2 X2 U L2 lim d name t id).
Qed.
Lemma compact_message_header_witness :
  let e := CompactProtocol.e_message [112] T_ONEWAY (-1) in
  succeeds (@CompactProtocol.writeMessageBegin _ (@TMemoryBuffer_transport power) [112] T_ONEWAY (-1))
    (compact_over (empty_buffer 1)) (fun n p' => n = 9 /\
    @comp_out _ _ (@TMemoryBuffer_writes power power_unbounded) p' [0] e (2 ^ 31 - 9)) /\
  succeeds (@CompactProtocol.readMessageBegin x86_64 _ (@TMemoryBuffer_transport x86_64))
    (compact_over (buffer_of (e ++ [0]))) (fun r q' => r = (9, ([112], 0, -1)) /\
    @comp_in _ _ (@TMemoryBuffer_reads x86_64) (Limits 0 0) q' [0] [0]).
Proof.
  apply (compact_message_header power x86_64 x86_64_unbounded _ _
    (@TMemoryBuffer_writes power power_unbounded) (@TMemoryBuffer_reads x86_64) (Limits 0 0)
    (compact_over (empty_buffer 1))
    (compact_over (buffer_of (CompactProtocol.e_message [112] T_ONEWAY (-1) ++ [0])))
    [0] [0] [] [0] [112] (2 ^ 31) T_ONEWAY (-1)).
  - cbn. auto 10.
  - unfold in_s. lia.
  - reflexivity.
  - reflexivity.
  - split; [reflexivity|]. split; [|split; reflexivity].
    apply (@empty_buffer_outgoing power power_unbounded). lia.
  - vm_compute. discriminate.
  - split; [reflexivity|]. split; [|split_and!; try reflexivity; exact I].
    apply (@buffer_of_incoming x86_64). vm_compute. reflexivity.
Defined.

(** A compact reader refuses a message of another protocol or version. *)
Theorem compact_bad_header (Pl : Platform) {T : Type} (X : TTransport T) (L : ReadLaws T)
    (lim : limits) (p : TCompactProtocolT T) (c rest : list Z) (b v : Z) :
  is_byte b -> is_byte v -> b <> 0x82 \/ v mod 32 <> VERSION_N ->
  comp_in lim p c (b :: v :: rest) ->
  raises CompactProtocol.readMessageBegin p
    (fun e _ => exists m, e = EProtocol TProtocolException.BAD_VERSION m).
Proof. intros. by eapply (CompactProtocol.comp_readMessageBegin_bad lim p c b v rest). Qed.
Lemma compact_bad_header_witness :
  raises (@CompactProtocol.readMessageBegin x86_64 _ (@TMemoryBuffer_transport x86_64))
    (compact_over (buffer_of [0x82; 0x22; 0]))
    (fun e _ => exists m, e = EProtocol TProtocolException.BAD_VERSION m).
Proof.
  apply (compact_bad_header x86_64 _ (@TMemoryBuffer_reads x86_64) (Limits 0 0)
    (compact_over (buffer_of [0x82; 0x22; 0])) [0] [0] 0x82 0x22).
  - unfold is_byte. lia.
  - unfold is_byte. lia.
  - right. discriminate.
  - split; [reflexivity|]. split; [|split_and!; try reflexivity; exact I].
    apply (@buffer_of_incoming x86_64). reflexivity.
Defined.

(** Binary strings: a declared size that is negative, or over the reader's
    limit, is refused before the body is touched: nothing is allocated, the string
    buffer keeps its block and the stream stands just behind the size. *)
Theorem binary_string_limits (Pl : Platform) {T : Type} (X : TTransport T) (L : ReadLaws T)
    (p : TBinaryProtocolT T) (size : Z) (rest : list Z) :
  in_s 32 size -> incoming (BinaryProtocol.trans_ p) (be_bytes 4 size ++ rest) ->
  size < 0 \/ string_over (BinaryProtocol.limits_ p) size = true ->
  raises BinaryProtocol.readString p (fun e p' =>
    e = EProtocol (if size <? 0 then TProtocolException.NEGATIVE_SIZE
                   else TProtocolException.SIZE_LIMIT) "" /\
    exists t, p' = BinaryProtocol.set_trans t p /\ incoming t rest).
Proof.
  intros Hs Hin Hbad. unfold BinaryProtocol.readString, BinaryProtocol.readI32, BinaryProtocol.under. wp.
  eapply runs_mono; [by eapply (readAll_ok _ 4 (be_bytes 4 size) rest)| |done].
  cbn beta. intros d t [-> Ht]. wp. rewrite (wraps_ntoh 4 size) by (lia || done).
  unfold runs. destruct (size <? 0) eqn:Hneg; breflect.
  - rewrite readStringBody_negative by done. eauto.
  - rewrite readStringBody_limit; [eauto|done|]. destruct Hbad as [?|Ho]; [lia|exact Ho].
Qed.
Lemma binary_string_limits_witness :
  raises (@BinaryProtocol.readString x86_64 _ (@TMemoryBuffer_transport x86_64))
    (BinProt (buffer_of [0; 0; 1; 0; 65]) (Limits 100 0) false true None 0)
    (fun e p' => e = EProtocol TProtocolException.SIZE_LIMIT "" /\
      exists t, p' = BinProt t (Limits 100 0) false true None 0 /\
        @incoming _ _ (@TMemoryBuffer_reads x86_64) t [65]).
Proof.
  apply (binary_string_limits x86_64 _ (@TMemoryBuffer_reads x86_64)
    (BinProt (buffer_of [0; 0; 1; 0; 65]) (Limits 100 0) false true None 0) 256 [65]).
  - unfold in_s. lia.
  - apply (@buffer_of_incoming x86_64). reflexivity.
  - right. reflexivity.
Defined.
