(* ===== verification/TransportTheorems.v ===== *)
(** * Theorems on the transports

    The memory buffer is a queue; buffering changes what reaches the underlying
    transport only in when it does; framing delivers each flushed message as one
    frame, and the reader refuses what is not a frame. *)

From S2P Require Export MemoryQueue Examples.

(** ** [TMemoryBuffer] *)

(** C23. Refinement: any sequence of writes, reads, exact reads, borrow/consume
    pairs, peeks, [readEnd]s and resets on an owned memory buffer (growing,
    wrapping to the slow paths and resetting as it likes) gives, call for call,
    the answers and the exceptions of a queue of bytes, as long as what is written
    fits in 2 GiB. *)
Theorem memory_buffer_is_queue (Pl : Platform) (U : Unbounded) (ops : list queue_op)
    (s : TMemoryBuffer) (q : list Z) (room : Z) :
  forallb op_ok ops = true -> stands_for s q room ->
  fold_right (fun o n => op_cost o + n) 0 ops <= room ->
  (buffer_run ops s).1 = (queue_run ops q).1 /\
  stands_for (buffer_run ops s).2 (queue_run ops q).2
    (room - fold_right (fun o n => op_cost o + n) 0 ops).
Proof.
  revert s q room. induction ops as [|o ops IH]; intros s q room Hok Hs Hroom;
    cbn [forallb buffer_run queue_run fold_right fst snd] in *; [by rewrite Z.sub_0_r|].
  breflect. assert (0 <= fold_right (fun o n => op_cost o + n) 0 ops).
  { clear. induction ops as [|[] ops IH]; cbn; try pose proof (zlen_nonneg d); lia. }
  destruct (buffer_refines o q room s) as [Hr Hs1]; [done|lia|done|].
  destruct (buffer_step o s) as [r s1], (queue_step o q) as [r' q1]. cbn in Hr, Hs1. subst r'.
  destruct (IH s1 q1 (room - op_cost o)) as [Hrs Hs2]; [done|done|lia|].
  destruct (buffer_run ops s1) as [rs s2], (queue_run ops q1) as [rs' q2]. cbn in *. subst rs'.
  split; [done|]. by rewrite Z.sub_add_distr.
Qed.
Lemma memory_buffer_is_queue_witness :
  (@buffer_run x86_64 [Write [1; 2; 3]; Read 2; Write [4]; ReadAll 2; ReadAll 1; Reset; Write [5]; Take 1]
     (empty_buffer 1)).1
  = [Ok []; Ok [1; 2]; Ok []; Ok [3; 4]; Throw no_more_data; Ok []; Ok []; Ok [5]].
Proof.
  apply (proj1 (memory_buffer_is_queue x86_64 x86_64_unbounded
    [Write [1; 2; 3]; Read 2; Write [4]; ReadAll 2; ReadAll 1; Reset; Write [5]; Take 1]
    (empty_buffer 1) [] 100 ltac:(reflexivity)
    ltac:(split; [apply empty_buffer_inv; lia|split; [reflexivity|split; [reflexivity|cbn; lia]]])
    ltac:(vm_compute; discriminate))).
Defined.

(** Growth: [ensureCanWrite] of an owned buffer makes the room asked for,
    keeps what is stored and never shrinks the block, whenever the bytes written
    stay below 2 GiB; a buffer over foreign memory refuses instead. *)
Theorem memory_buffer_growth (Pl : Platform) (U : Unbounded) (s : TMemoryBuffer) (n : Z) :
  mb_inv s -> 0 <= n ->
  (owner_ s = true -> wBase_ (mb_ptrs s) + n <= 2 ^ 31 ->
   succeeds (ensureCanWrite n) s (fun _ s' =>
     mb_inv s' /\ content s' = content s /\ n <= wBound_ (mb_ptrs s') - wBase_ (mb_ptrs s') /\
     bufferSize_ s <= bufferSize_ s')) /\
  (owner_ s = false -> forall d, 0 < zlen d ->
   t_write d s = (Throw (ETransport TTransportException.UNKNOWN
                           "Insufficient space in external MemoryBuffer"), s)).
Proof.
  intros Hi Hn. split.
  - intros Ho Hcap. eapply succeeds_mono; [apply ensureCanWrite_spec; [done|done|by right]|].
    cbn. intros _ s' (? & ? & ? & ? & ? & Hgrow). split_and!; auto.
  - intros Ho d Hd. by apply write_refused.
Qed.
Lemma memory_buffer_growth_witness :
  succeeds (@ensureCanWrite x86_64 5000) (empty_buffer 3) (fun _ s' =>
     mb_inv s' /\ content s' = [] /\ 5000 <= wBound_ (mb_ptrs s') - wBase_ (mb_ptrs s') /\
     3 <= bufferSize_ s').
Proof.
  apply (proj1 (memory_buffer_growth x86_64 x86_64_unbounded (empty_buffer 3) 5000
    ltac:(apply empty_buffer_inv; lia) ltac:(lia)) ltac:(reflexivity) ltac:(cbn; lia)).
Defined.

(** At 2 GiB the growth loop fails: doubling the 32-bit [new_size] wraps to
    zero, the room then computed from it looks large enough, and the loop leaves
    with a size of 0, which [ensureCanWrite] hands to [realloc]. *)
Theorem memory_buffer_growth_wraps (Pl : Platform) (s : TMemoryBuffer) (avail len : Z) :
  0 <= avail < 2 ^ 31 -> avail < len <= avail + 2 ^ 31 ->
  grow len avail (2 ^ 31) s = (Ok 0, s).
Proof. apply grow_overflow. Qed.
Lemma memory_buffer_growth_wraps_witness :
  grow 1 0 (2 ^ 31) (empty_buffer 8) = (Ok 0, empty_buffer 8).
Proof. apply (memory_buffer_growth_wraps x86_64 (empty_buffer 8) 0 1); lia. Defined.

(** ** [TBufferedTransport] *)

(** Writing through a buffered transport is transparent: whatever the sizes
    of the chunks against the buffer, after [flush] the underlying transport has
    been given exactly their concatenation and nothing is left in the buffer. *)
Theorem buffered_writes_pass_through (Pl : Platform) {T : Type} (X : TTransport T) (L : WriteLaws T)
    (F : FlushLaws T) (s : TBufferedTransport T) (out : list Z) (room : Z) (ds : list (list Z)) :
  bt_inv s -> BufferedTransport.pending s = [] ->
  outgoing (BufferedTransport.transport_ s) out room -> room <= 2 ^ 31 ->
  Forall (fun d => zlen d < 2 ^ 32) ds -> zlen (concat ds) <= room ->
  succeeds (send ds) s (fun _ s' =>
    bt_inv s' /\ BufferedTransport.pending s' = [] /\
    outgoing (BufferedTransport.transport_ s') (out ++ concat ds) (room - zlen (concat ds))).
Proof.
  intros Hi Hp Hout Hroom Hds Hlen. pose proof (zlen_nonneg (concat ds)).
  assert (bt_outgoing s out room) as Hs.
  { split; [done|]. split; [lia|]. exists out. rewrite Hp, app_nil_r. by rewrite Z.add_0_r. }
  unfold send. wp. eapply runs_mono; [apply (write_all_ok (WriteLaws0 := TBufferedTransport_writes) s out room ds Hs Hds Hlen)| |done].
  cbn beta. intros _ s1 Hs1. eapply runs_mono; [apply (flush_hands_down s1 _ _ Hs1)| |done].
  cbn. intros _ s2 ((Hi2 & _) & Hp2 & Ho2). done.
Qed.
Lemma buffered_writes_pass_through_witness :
  succeeds (@send _ (@TBufferedTransport_transport _ (@TMemoryBuffer_transport x86_64))
      [[1]; [2; 3]; [4; 5; 6; 7; 8]])
    (buffered (empty_buffer 1) 2) (fun _ s' =>
    bt_inv s' /\ BufferedTransport.pending s' = [] /\
    @outgoing _ _ (@TMemoryBuffer_writes x86_64 x86_64_unbounded)
      (BufferedTransport.transport_ s') [1; 2; 3; 4; 5; 6; 7; 8] (2 ^ 31 - 8)).
Proof.
  apply (buffered_writes_pass_through x86_64 _ (@TMemoryBuffer_writes x86_64 x86_64_unbounded)
    (@TMemoryBuffer_flush x86_64 x86_64_unbounded) (buffered (empty_buffer 1) 2) [] (2 ^ 31)
    [[1]; [2; 3]; [4; 5; 6; 7; 8]]).
  - apply buffered_inv. lia.
  - reflexivity.
  - apply (@empty_buffer_outgoing x86_64 x86_64_unbounded). lia.
  - lia.
  - repeat constructor.
  - vm_compute. discriminate.
Defined.

(** Reading through a buffered transport is transparent: exact reads of any
    sizes give the consecutive pieces of the underlying stream, however short the
    reads of the underlying transport are, and asking for more than is left
    throws END_OF_FILE. *)
Theorem buffered_reads_pass_through (Pl : Platform) {T : Type} (X : TTransport T) (L : ReadLaws T)
    (Q : EndLaws T) (s : TBufferedTransport T) (ds : list (list Z)) (n : Z) (rest : list Z) :
  bt_inv s -> BufferedTransport.stash s = [] ->
  incoming (BufferedTransport.transport_ s) (concat ds ++ rest) ->
  Forall (fun d => zlen d < 2 ^ 32) ds -> zlen rest < n < 2 ^ 32 ->
  runs (let! r := read_all (map zlen ds) in do! t_readAll n in ret r) s
    (fun _ _ => False)
    (fun e _ => e = ETransport END_OF_FILE "No more data to read.") /\
  succeeds (read_all (map zlen ds)) s (fun r s' => r = ds /\ bt_inv s' /\ exists more,
    incoming (BufferedTransport.transport_ s') more /\ rest = BufferedTransport.stash s' ++ more).
Proof.
  intros Hi Hst Hin Hds Hn.
  assert (bt_incoming s (concat ds ++ rest)) as Hs.
  { split; [done|]. exists (concat ds ++ rest). by rewrite Hst. }
  pose proof (read_all_ok (ReadLaws0 := TBufferedTransport_reads) s ds rest Hs Hds) as Hr. split.
  - wp. eapply runs_mono; [exact Hr| |done]. cbn beta. intros r s1 [-> Hs1]. wp.
    eapply runs_mono; [apply (readAll_stream_bt_eof s1 n rest Hs1); lia|done|done].
  - eapply succeeds_mono; [exact Hr|]. cbn. intros r s' [-> [? ?]]. done.
Qed.
Lemma buffered_reads_pass_through_witness :
  @runs _ _ (@bind _ _ _ (@read_all _ (@TBufferedTransport_transport _ (@TMemoryBuffer_transport x86_64)) [1; 3])
    (fun r => do! @t_readAll _ (@TBufferedTransport_transport _ (@TMemoryBuffer_transport x86_64)) 2 in ret r))
    (buffered (buffer_of [1; 2; 3; 4; 5]) 2) (fun _ _ => False)
    (fun e _ => e = ETransport END_OF_FILE "No more data to read.").
Proof.
  apply (proj1 (buffered_reads_pass_through x86_64 _ (@TMemoryBuffer_reads x86_64) (@TMemoryBuffer_end x86_64)
    (buffered (buffer_of [1; 2; 3; 4; 5]) 2) [[1]; [2; 3; 4]] 2 [5]
    ltac:(apply buffered_inv; lia) ltac:(reflexivity)
    ltac:(apply (@buffer_of_incoming x86_64); reflexivity) ltac:(repeat constructor)
    ltac:(vm_compute; split; reflexivity))).
Defined.

(** When the underlying write of a [flush] throws, the exception gets out and
    the write buffer is emptied all the same: the bytes are not sent twice by a
    later flush.  What was read ahead is kept. *)
Theorem buffered_flush_failure (Pl : Platform) {T : Type} (X : TTransport T)
    (s : TBufferedTransport T) (e : exn) (t : T) :
  bt_inv s -> 0 < wBase_ (bt_ptrs s) ->
  t_write (BufferedTransport.pending s) (BufferedTransport.transport_ s) = (Throw e, t) ->
  exists s', BufferedTransport.flush s = (Throw e, s') /\ bt_inv s' /\
    BufferedTransport.pending s' = [] /\ BufferedTransport.transport_ s' = t /\
    BufferedTransport.stash s' = BufferedTransport.stash s.
Proof. intros. by apply flush_failure_empties. Qed.
Lemma buffered_flush_failure_witness :
  let full := MemBuf (Some [9]) 1 false (Pointers 0 1 1 1) in
  let s := BufTrans full 4 4 [7; 7; 7; 7] [1; 2; 0; 0] (Pointers 1 2 2 4) in
  exists s', @BufferedTransport.flush _ (@TMemoryBuffer_transport x86_64) s
    = (Throw (ETransport TTransportException.UNKNOWN "Insufficient space in external MemoryBuffer"), s') /\
    bt_inv s' /\ BufferedTransport.pending s' = [] /\ BufferedTransport.transport_ s' = full /\
    BufferedTransport.stash s' = [7].
Proof.
  apply (buffered_flush_failure x86_64 (@TMemoryBuffer_transport x86_64)
    (BufTrans (MemBuf (Some [9]) 1 false (Pointers 0 1 1 1)) 4 4 [7; 7; 7; 7] [1; 2; 0; 0] (Pointers 1 2 2 4))).
  - unfold bt_inv, zlen. cbn. lia.
  - reflexivity.
  - reflexivity.
Defined.

(** ** [TFramedTransport] *)

(** C24. Framing: each message, written in chunks of any sizes and flushed, goes
    to the underlying transport as one frame (its length in network byte order,
    then its bytes), and a framed transport of any host over a stream of those
    frames delivers the messages' bytes in order, to exact reads that need not
    follow the frame boundaries. *)
Theorem framed_messages (W R : Platform) (U : @Unbounded W) (UR : @Unbounded R) {T1 T2 : Type}
    (X1 : TTransport T1) (X2 : TTransport T2) (L1 : WriteLaws T1) (F : FlushLaws T1) (L2 : ReadLaws T2)
    (Q : EndLaws T2) (s : TFramedTransport T1) (q : TFramedTransport T2) (ms : list (list (list Z))) (ds : list (list Z))
    (out : list Z) (room : Z) :
  let fs := map (@concat Z) ms in
  fr_inv s -> body s = [] -> outgoing (FramedTransport.transport_ s) out room ->
  Forall (fun m => 0 < zlen (concat m) <= 0x7ffffffb) ms -> zlen (frames fs) <= room ->
  fr_inv q -> FramedTransport.stash q = [] -> incoming (FramedTransport.transport_ q) (frames fs) ->
  concat ds = concat fs -> Forall (fun d => zlen d < 2 ^ 32) ds ->
  succeeds (@send_all _ (@TFramedTransport_transport W T1 X1) ms) s (fun _ s' =>
    fr_inv s' /\ body s' = [] /\
    outgoing (FramedTransport.transport_ s') (out ++ frames fs) (room - zlen (frames fs))) /\
  succeeds (@read_all _ (@TFramedTransport_transport R T2 X2) (map zlen ds)) q (fun r _ => r = ds).
Proof.
  intros fs Hi Hb Hout Hms Hroom Hiq Hst Hin Hcat Hds. split.
  - subst fs. clear -Hi Hb Hout Hms Hroom U F. revert s out room Hi Hb Hout Hroom.
    induction ms as [|m ms IH]; intros s out room Hi Hb Hout Hroom; cbn [send_all fold_right map].
    + wp. cbn. by rewrite app_nil_r, Z.sub_0_r.
    + apply Forall_cons in Hms as [Hm Hms]. cbn [map] in Hroom.
      change (frames (concat m :: map (@concat Z) ms))
        with (frame (concat m) ++ frames (map (@concat Z) ms)) in *.
      rewrite zlen_app in *. pose proof (zlen_nonneg (frames (map (@concat Z) ms))).
      pose proof (zlen_nonneg (frame (concat m))).
      apply runs_bind. eapply runs_mono; [apply (send_message s m out room); try done; lia| |done].
      cbn beta. intros _ s1 (Hi1 & Hb1 & Hout1).
      eapply runs_mono; [by apply (IH Hms s1 _ _ Hi1 Hb1 Hout1); lia| |done].
      cbn beta. intros _ s2 (Hi2 & Hb2 & Hout2). by rewrite app_assoc, Z.sub_add_distr.
  - assert (fr_incoming q (concat ds ++ [])) as Hq.
    { split; [done|]. exists fs. rewrite Hst, app_nil_r. split_and!; [done|done|].
      unfold fs. apply Forall_map. eapply Forall_impl; [exact Hms|].
      cbn. unfold payload_ok. intros m Hm. lia. }
    eapply succeeds_mono; [by apply (read_all_ok (ReadLaws0 := TFramedTransport_reads) q ds [] Hq)|].
    by intros r q' [-> _].
Qed.
Lemma framed_messages_witness :
  succeeds (@send_all _ (@TFramedTransport_transport power _ (@TMemoryBuffer_transport power))
      [[[1]; [2]]; [[3; 4; 5]]])
    (framed (empty_buffer 0) 4) (fun _ s' => fr_inv s' /\ body s' = [] /\
    @outgoing _ _ (@TMemoryBuffer_writes power power_unbounded) (FramedTransport.transport_ s')
      (frames [[1; 2]; [3; 4; 5]]) (2 ^ 31 - 13)) /\
  succeeds (@read_all _ (@TFramedTransport_transport x86_64 _ (@TMemoryBuffer_transport x86_64)) [1; 3; 1])
    (framed (buffer_of (frames [[1; 2]; [3; 4; 5]])) 512) (fun r _ => r = [[1]; [2; 3; 4]; [5]]).
Proof.
  apply (framed_messages power x86_64 power_unbounded x86_64_unbounded _ _
    (@TMemoryBuffer_writes power power_unbounded) (@TMemoryBuffer_flush power power_unbounded)
    (@TMemoryBuffer_reads x86_64) (@TMemoryBuffer_end x86_64) (framed (empty_buffer 0) 4)
    (framed (buffer_of (frames [[1; 2]; [3; 4; 5]])) 512)
    [[[1]; [2]]; [[3; 4; 5]]] [[1]; [2; 3; 4]; [5]] [] (2 ^ 31)).
  - apply framed_inv. lia.
  - reflexivity.
  - apply (@empty_buffer_outgoing power power_unbounded). lia.
  - repeat constructor; vm_compute; try reflexivity; discriminate.
  - vm_compute. discriminate.
  - apply framed_inv. lia.
  - reflexivity.
  - apply (@buffer_of_incoming x86_64). vm_compute. reflexivity.
  - reflexivity.
  - repeat constructor.
Defined.

(** [readFrame] on ANY stream, well formed or not: it answers [false] exactly
    at the end of the stream, delivers a complete frame and stops right behind it,
    and otherwise refuses with the error of the case, a size cut short, a size with
    its sign bit set (taking only the size), or a payload cut short. *)
Theorem framed_reader_total (Pl : Platform) (U : Unbounded) {T : Type} (X : TTransport T) (L : ReadLaws T)
    (Q : EndLaws T) (s : TFramedTransport T) (bs : list Z) :
  fr_inv s -> bytes_ok bs -> incoming (FramedTransport.transport_ s) bs ->
  runs readFrame s
    (fun r s' => match parse_frame bs with
       | FrameNone => r = false /\ incoming (FramedTransport.transport_ s') [] /\
           FramedTransport.stash s' = FramedTransport.stash s
       | FrameGood b rest => r = true /\ fr_inv s' /\ FramedTransport.stash s' = b /\
           incoming (FramedTransport.transport_ s') rest
       | _ => False
       end)
    (fun e s' => match parse_frame bs with
       | FramePartial =>
           e = ETransport END_OF_FILE "No more data to read after partial frame header."
       | FrameNegative rest =>
           e = ETransport TTransportException.UNKNOWN "Frame size has negative value" /\
           incoming (FramedTransport.transport_ s') rest
       | FrameTruncated => stream_end e
       | _ => False
       end).
Proof. apply readFrame_parse. Qed.
Lemma framed_reader_total_witness :
  runs (@readFrame x86_64 _ (@TMemoryBuffer_transport x86_64)) (framed (buffer_of [0; 0; 0; 2; 7; 8; 9]) 4)
    (fun r s' => r = true /\ fr_inv s' /\ FramedTransport.stash s' = [7; 8] /\
           @incoming _ _ (@TMemoryBuffer_reads x86_64) (FramedTransport.transport_ s') [9])
    (fun _ _ => False).
Proof.
  apply (framed_reader_total x86_64 x86_64_unbounded _ (@TMemoryBuffer_reads x86_64) (@TMemoryBuffer_end x86_64)
    (framed (buffer_of [0; 0; 0; 2; 7; 8; 9]) 4) [0; 0; 0; 2; 7; 8; 9]).
  - apply framed_inv. lia.
  - repeat constructor; discriminate.
  - apply (@buffer_of_incoming x86_64). reflexivity.
Defined.

(** A framed transport refuses a write that would take its frame over 2 GB,
    and keeps what it has; a flush with nothing written sends no frame. *)
Theorem framed_write_limits (Pl : Platform) {T : Type} (X : TTransport T) (L : WriteLaws T) (F : FlushLaws T)
    (s : TFramedTransport T) (d out : list Z) (room : Z) :
  fr_inv s -> zlen d < 2 ^ 32 -> outgoing (FramedTransport.transport_ s) out room ->
  (0x7fffffff < wBase_ (fr_ptrs s) + zlen d -> wBound_ (fr_ptrs s) < wBase_ (fr_ptrs s) + zlen d ->
   t_write d s = (Throw (ETransport BAD_ARGS
                    "Attempted to write over 2 GB to TFramedTransport."), s)) /\
  (body s = [] -> 4 < FramedTransport.wBufSize_ s ->
   succeeds t_flush s (fun _ s' =>
     fr_inv s' /\ body s' = [] /\ outgoing (FramedTransport.transport_ s') out room)).
Proof.
  intros Hi Hd Hout. split.
  - intros. by apply write_too_big.
  - intros. by apply flush_empty.
Qed.
Lemma framed_write_limits_witness :
  (0x7fffffff < 4 + 0x7ffffffc -> 8 < 4 + 0x7ffffffc ->
   @t_write _ (@TFramedTransport_transport x86_64 _ (@TMemoryBuffer_transport x86_64)) (zrep 0x7ffffffc 0)
     (framed (empty_buffer 0) 8) = (Throw (ETransport BAD_ARGS
                    "Attempted to write over 2 GB to TFramedTransport."), framed (empty_buffer 0) 8)) /\
  succeeds (@t_flush _ (@TFramedTransport_transport x86_64 _ (@TMemoryBuffer_transport x86_64)))
    (framed (empty_buffer 0) 8) (fun _ s' =>
     fr_inv s' /\ body s' = [] /\
     @outgoing _ _ (@TMemoryBuffer_writes x86_64 x86_64_unbounded) (FramedTransport.transport_ s') [] (2 ^ 31)).
Proof.
  destruct (framed_write_limits x86_64 (@TMemoryBuffer_transport x86_64)
    (@TMemoryBuffer_writes x86_64 x86_64_unbounded) (@TMemoryBuffer_flush x86_64 x86_64_unbounded)
    (framed (empty_buffer 0) 8) (zrep 0x7ffffffc 0) [] (2 ^ 31)) as [Hw Hf].
  - apply framed_inv. lia.
  - rewrite zlen_zrep. lia.
  - apply (@empty_buffer_outgoing x86_64 x86_64_unbounded). lia.
  - rewrite zlen_zrep in Hw. split; [exact Hw|]. apply Hf; [reflexivity|cbn; lia].
Defined.

(** ** The [readAll] template *)

(** [readAll] over a [read] that delivers prefixes, however short but not
    empty while there is data: it ends, returns exactly the bytes asked for and
    leaves the rest, or, if there are fewer, throws END_OF_FILE having taken all. *)
Theorem readAll_exact {T : Type} (read : Z -> M T (list Z)) (I : T -> list Z -> Prop)
    (s : T) (n : Z) (bs : list Z) :
  reads_prefix read I -> I s bs -> n < 2 ^ 32 ->
  (0 <= n <= zlen bs -> succeeds (readAll read n) s (fun r s' => r = ztake n bs /\ I s' (zdrop n bs))) /\
  (zlen bs < n -> raises (readAll read n) s (fun e s' =>
     e = ETransport END_OF_FILE "No more data to read." /\ I s' [])).
Proof.
  intros Hr Hs Hn. split; intros Hlen.
  - apply (readAll_stream read I); [by apply reads_prefix_some|by rewrite ztake_zdrop|rewrite zlen_ztake; lia|done].
  - by apply (readAll_stream_eof read I s n bs).
Qed.

(** A stream read one byte at a time. *)
Definition drip (len : Z) : M (list Z) (list Z) :=
  fun s => (Ok (ztake (Z.min 1 len) s), zdrop (Z.min 1 len) s).
Lemma drip_prefix : reads_prefix drip (fun s bs => s = bs).
Proof.
  intros s n bs -> Hn. unfold drip, succeeds, runs. exists (Z.min 1 (zlen bs)).
  pose proof (zlen_nonneg bs). destruct bs as [|b bs]; [rewrite ztake_ge, zdrop_ge by (unfold zlen; cbn; lia);
    unfold zlen; cbn; split_and!; done || lia|].
  rewrite zlen_cons in *. pose proof (zlen_nonneg bs).
  replace (Z.min 1 n) with 1 by lia. replace (Z.min 1 (1 + zlen bs)) with 1 by lia.
  split_and!; done || lia.
Qed.
Lemma readAll_exact_witness :
  succeeds (readAll drip 3) [1; 2; 3; 4] (fun r s' => r = [1; 2; 3] /\ s' = [4]) /\
  raises (readAll drip 5) [1; 2; 3; 4] (fun e s' =>
     e = ETransport END_OF_FILE "No more data to read." /\ s' = []).
Proof.
  split.
  - apply (proj1 (readAll_exact drip (fun s bs => s = bs) [1; 2; 3; 4] 3 [1; 2; 3; 4] drip_prefix
      ltac:(reflexivity) ltac:(reflexivity))). vm_compute. split; discriminate.
  - apply (proj2 (readAll_exact drip (fun s bs => s = bs) [1; 2; 3; 4] 5 [1; 2; 3; 4] drip_prefix
      ltac:(reflexivity) ltac:(reflexivity))). reflexivity.
Defined.
