(* ===== verification/MessageTheorems.v ===== *)
(** * Theorems on application exceptions, byte order and base 64 *)

From S2P Require Export ApplicationException Base64 Examples.

(** [TApplicationException] over either protocol, between any two peers:
    [read] into any object gets back the message and type that [write] put on the
    wire, and both take exactly the same bytes. *)
Theorem application_exception_round_trip {P1 P2 : Type} (TP1 : TProtocol P1) (TP2 : TProtocol P2)
    (F : WireFormat) (lim : limits) (LW : WriterLaws P1) (LR : ReaderLaws P2 lim)
    (x y : TApplicationException) (p : P1) (q : P2) (l : Z) (c out rest : list Z) (room : Z) :
  let e := enc (as_value x) in
  zlen (message_ x) < 2 ^ 31 -> string_over lim (zlen (message_ x)) = false ->
  bytes_ok (message_ x) -> in_s 32 (type_ x) ->
  w_state p (l :: c) out room -> zlen e <= room -> r_state q (l :: c) (e ++ rest) ->
  succeeds (ApplicationException.write x) p (fun n p' =>
    n = u32 (zlen e) /\ w_state p' (l :: c) (out ++ e) (room - zlen e)) /\
  succeeds (ApplicationException.read 10 10) (q, y) (fun n s =>
    n = u32 (zlen e) /\ s.2 = x /\ r_state s.1 (l :: c) rest).
Proof.
  intros e Hm Hover Hb Ht Hp Hroom Hq. split; [by apply (write_enc x l c)|].
  eapply succeeds_mono; [apply (read_struct 10 10 l c
    [(1, VString (message_ x)); (2, VI32 (type_ x))] q y rest); [|cbn; lia|cbn; lia|exact Hq]|].
  - cbn. unfold string_ok, in_sb. rewrite Hover, (bool_decide_eq_true_2 _ Ht).
    replace (zlen (message_ x) <? 2 ^ 31) with true by lia.
    rewrite !andb_true_r. cbn. apply forallb_forall. intros b Hin. apply bool_decide_eq_true_2.
    apply is_byte_in_u. by apply (proj1 (List.Forall_forall _ _) Hb).
  - cbn. intros n s (-> & -> & Hs). split_and!; [done| |done]. by destruct x, y.
Qed.
Lemma application_exception_round_trip_witness :
  let x := AppExn [111; 104] WRONG_METHOD_NAME in
  succeeds (@ApplicationException.write _ (@TBinaryProtocol_protocol power _ (@TMemoryBuffer_transport power)) x)
    (binary_over (empty_buffer 0)) (fun n p' => n = 17 /\
    @bin_out _ _ (@TMemoryBuffer_writes power power_unbounded) p' [0] (@enc binary_format (as_value x)) (2 ^ 31 - 17)) /\
  succeeds (@ApplicationException.read _ (@TBinaryProtocol_protocol x86_64 _ (@TMemoryBuffer_transport x86_64)) 10 10)
    (binary_over (buffer_of (@enc binary_format (as_value x) ++ [9])), AppExn [] 0) (fun n s =>
    n = 17 /\ s.2 = x /\ @bin_in _ _ (@TMemoryBuffer_reads x86_64) (Limits 0 0) s.1 [0] [9]).
Proof.
  apply (application_exception_round_trip
    (@TBinaryProtocol_protocol power _ (@TMemoryBuffer_transport power))
    (@TBinaryProtocol_protocol x86_64 _ (@TMemoryBuffer_transport x86_64)) binary_format (Limits 0 0)
    (@TBinaryProtocol_writer power _ _ (@TMemoryBuffer_writes power power_unbounded))
    (@TBinaryProtocol_reader x86_64 x86_64_unbounded _ _ (@TMemoryBuffer_reads x86_64) (Limits 0 0))
    (AppExn [111; 104] WRONG_METHOD_NAME) (AppExn [] 0) (binary_over (empty_buffer 0))
    (binary_over (buffer_of (@enc binary_format (as_value (AppExn [111; 104] WRONG_METHOD_NAME)) ++ [9])))
    0 [] [] [9] (2 ^ 31)).
  - reflexivity.
  - reflexivity.
  - repeat constructor; discriminate.
  - unfold in_s, WRONG_METHOD_NAME. cbn. lia.
  - apply (@empty_buffer_outgoing power power_unbounded). lia.
  - vm_compute. discriminate.
  - split; [|split; [reflexivity|exact I]]. apply (@buffer_of_incoming x86_64). vm_compute. reflexivity.
Defined.

(** Forward compatibility: [read] of ANY well-formed struct, with fields of
    any ids and types in any order, stores those it knows ([apply_field], later
    ones winning), skips the others and stops right behind the struct. *)
Theorem application_exception_skips_unknown {P : Type} (TP : TProtocol P)
    (F : WireFormat) (lim : limits) (LR : ReaderLaws P lim)
    (y : TApplicationException) (fs : list (Z * tval)) (q : P) (l : Z)
    (c rest : list Z) (depth : nat) (fuel : Z) :
  let e := enc (VStruct fs) in
  wf lim (VStruct fs) = true -> (vsize (VStruct fs) <= depth)%nat ->
  Z.of_nat (vsize (VStruct fs)) < fuel -> r_state q (l :: c) (e ++ rest) ->
  succeeds (ApplicationException.read depth fuel) (q, y) (fun n s =>
    n = u32 (zlen e) /\ s.2 = fold_left apply_field fs y /\ r_state s.1 (l :: c) rest).
Proof. intros. by apply read_struct. Qed.
Lemma application_exception_skips_unknown_witness :
  let fs := [(7, VList T_I32 [VI32 1]); (2, VI32 5); (1, VI64 3); (1, VString [65])] in
  succeeds (@ApplicationException.read _ (@TCompactProtocol_protocol x86_64 _ (@TMemoryBuffer_transport x86_64)) 30 30)
    (compact_over (buffer_of (@enc compact_format (VStruct fs) ++ [9])), AppExn [] 0) (fun n s =>
    n = 14 /\ s.2 = AppExn [65] 5 /\ @comp_in _ _ (@TMemoryBuffer_reads x86_64) (Limits 0 0) s.1 [0] [9]).
Proof.
  apply (application_exception_skips_unknown
    (@TCompactProtocol_protocol x86_64 _ (@TMemoryBuffer_transport x86_64)) compact_format (Limits 0 0)
    (@TCompactProtocol_reader x86_64 x86_64_unbounded _ _ (@TMemoryBuffer_reads x86_64) (Limits 0 0))
    (AppExn [] 0) [(7, VList T_I32 [VI32 1]); (2, VI32 5); (1, VI64 3); (1, VString [65])]
    (compact_over (buffer_of (@enc compact_format
      (VStruct [(7, VList T_I32 [VI32 1]); (2, VI32 5); (1, VI64 3); (1, VString [65])]) ++ [9])))
    0 [] [9] 30 30).
  - reflexivity.
  - vm_compute. lia.
  - vm_compute. reflexivity.
  - split; [reflexivity|]. split; [|split_and!; try reflexivity; exact I].
    apply (@buffer_of_incoming x86_64). vm_compute. reflexivity.
Defined.

(** ** Byte order *)

(** Byte-order independence: on every host, of either byte order and with
    the GNU definitions or the header's own macros, [htonll] stores the big-endian
    and [htolell] the little-endian bytes of a 64-bit value, and [ntohll] and
    [letohll] of the loaded bytes are the value again. *)
Theorem byte_order_independent (Pl : Platform) (n : Z) :
  in_u 64 n ->
  store 8 (htonll n) = be_bytes 8 n /\ ntohll (load (be_bytes 8 n)) = n /\
  store 8 (htolell n) = le_bytes 8 n /\ letohll (load (le_bytes 8 n)) = n /\
  bswap_64 n = bswap 8 n.
Proof.
  intros Hn. split_and!; auto using store_htonll, ntohll_load, htolell_bytes, letohll_load, bswap_64_bswap.
Qed.
Lemma byte_order_independent_witness :
  let n := 0x0102030405060708 in
  @store power 8 (@htonll power n) = be_bytes 8 n /\ @ntohll power (@load power (be_bytes 8 n)) = n /\
  @store power 8 (@htolell power n) = le_bytes 8 n /\ @letohll power (@load power (le_bytes 8 n)) = n /\
  bswap_64 n = bswap 8 n.
Proof. apply (byte_order_independent power 0x0102030405060708). unfold in_u. lia. Defined.

(** ** Base 64 *)

(** Base 64: [base64EncodeString] of any bytes gives the standard encoding
    (four six-bit digits for three bytes, without padding), and
    [base64DecodeString] of it gives the bytes back. *)
Theorem base64_round_trip (Pl : Platform) (U : Unbounded) {S : Type} (s : S) (l : list Z) :
  bytes_ok l ->
  base64EncodeString l s = (Ok (encoding l), s) /\
  base64DecodeString (encoding l) s = (Ok (Some l), s).
Proof.
  intros Hl. split.
  - destruct (succeeds_run _ _ _ (base64EncodeString_spec l s Hl)) as (r & s' & -> & -> & ->). done.
  - destruct (succeeds_run _ _ _ (base64DecodeString_spec (encoding l) s)) as (r & s' & -> & -> & ->).
    rewrite decoding_encoding by done. pose proof (Z.mod_pos_bound (zlen l) 3 ltac:(lia)).
    replace (zlen (encoding l) mod 4 =? 1) with false; [done|]. rewrite encoding_length by done.
    assert (zlen l mod 3 = 0 \/ zlen l mod 3 = 1 \/ zlen l mod 3 = 2) as [-> | [-> | ->]] by lia;
      symmetry; apply Z.eqb_neq; rewrite Z.mul_comm, Z.add_comm, Z.mod_add by lia; discriminate.
Qed.
Lemma base64_round_trip_witness :
  @base64EncodeString x86_64 unit [77; 97; 110; 0; 255] tt = (Ok (encoding [77; 97; 110; 0; 255]), tt) /\
  @base64DecodeString x86_64 unit (encoding [77; 97; 110; 0; 255]) tt = (Ok (Some [77; 97; 110; 0; 255]), tt).
Proof.
  apply (base64_round_trip x86_64 x86_64_unbounded tt [77; 97; 110; 0; 255]).
  repeat constructor; discriminate.
Defined.

(** Decoding is refused exactly for a length that is one more than a multiple
    of four, and never otherwise, whatever the characters; the overload that works
    in one buffer stores what the other one returns and nothing past it. *)
Theorem base64_decode_any (Pl : Platform) (U : Unbounded) {S : Type} (s : S) (l g : list Z) :
  2 <= zlen g <= 4 ->
  base64DecodeString l s = (Ok (if zlen l mod 4 =? 1 then None else Some (decoding l)), s) /\
  base64_decode_inplace g (zlen g)
  = base64_decode g (zlen g) ++ zdrop (zlen g - 1) g.
Proof.
  intros Hg. split.
  - destruct (succeeds_run _ _ _ (base64DecodeString_spec l s)) as (r & s' & -> & -> & ->). done.
  - destruct (inplace_decode g Hg) as [H1 H2].
    by rewrite <- H1, <- H2, ztake_zdrop.
Qed.
Lemma base64_decode_any_witness :
  @base64DecodeString x86_64 unit [84; 87; 70; 117; 33] tt = (Ok None, tt) /\
  base64_decode_inplace [84; 87; 70; 117] 4 = [77; 97; 110; 117].
Proof. apply (base64_decode_any x86_64 x86_64_unbounded tt [84; 87; 70; 117; 33] [84; 87; 70; 117]).
  vm_compute. split; discriminate. Defined.
