(* ===== verification/NativeTheorems.v ===== *)
(** * Native Client messages: the theorems

    Of protocol/TNativeClientProtocol.cpp and of
    examples/hello_world/thrift_nacl.cc, each with a concrete run over
    [Tables]. *)

From S2P Require Export Examples NativeMessages.

(** A struct with a field of every kind, and the type of a reader that does not
    know the field [old]. *)
Definition native_sample : nval :=
  NStruct [(text_of "flag", NBool true); (text_of "id", NI64 (2 ^ 53)); (text_of "old", NI32 7);
           (text_of "raw", NBinary [0; 255; 7]); (text_of "ratio", NDouble 4607182418800017408);
           (text_of "tags", NList [NString (text_of "a"); NString []]);
           (text_of "bytes", NSet [NByte (-1); NByte 127]);
           (text_of "index", NMap [(text_of "k", NStruct [(text_of "n", NI16 (-300))]);
                                   (text_of "l", NStruct [])])].
Definition native_sample_type : ntype :=
  TyStruct [(text_of "flag", TyBool); (text_of "id", TyI64); (text_of "raw", TyBinary);
            (text_of "ratio", TyDouble); (text_of "tags", TyList TyString);
            (text_of "bytes", TySet TyByte); (text_of "absent", TyString);
            (text_of "index", TyMap (TyStruct [(text_of "n", TyI16)]))].

(** One protocol object writes a value; another, given the root variable, reads it. *)
Definition write_then_read `{Ppapi} `{Platform} (fuel : Z) (v : nval) (t : ntype)
    : M TNativeClientProtocol nval :=
  do! write_nval v in
  let! x := getVar in
  do! setVar x in
  read_nval fuel t.

Section Theorems.
Context (Api : Ppapi) (Laws : PpapiLaws) (Plat : Platform) (Unb : Unbounded).
Abbreviation N := TNativeClientProtocol.

(** C39. A struct or map written to a fresh protocol and read back through the
    root variable gives the value: the fields the reader's type does not name are
    skipped, fields and map entries come in the order the browser lists the keys,
    and everything else is equal (64-bit integers up to 2^53, strings, bytes
    through base 64, nested containers).  Both stacks end empty, and no object the
    browser had before is changed. *)
Theorem native_round_trip (fuel : Z) (v : nval) (t : ntype) (h : Heap) :
  writable v = true -> is_root v = true -> typed t v = true -> Z.of_nat (nsize v) <= fuel ->
  succeeds (write_then_read fuel v t) (new_protocol h) (fun r p =>
    reads t v r /\ writer_stack_ p = [] /\ reader_stack_ p = [] /\ extends nothing h (heap p)).
Proof.
  intros Hw Hroot Ht Hf. unfold write_then_read. apply runs_bind.
  eapply runs_mono; [by apply (write_denotes v (new_protocol h))| |done].
  cbv beta. intros _ p (x & [_ (_ & Hx & He)] & Hd). unfold getVar, setVar, reset. wpa. cbn.
  rewrite Hx. eapply runs_mono; [by eapply (read_denotes fuel v t _ _ x)| |done].
  cbv beta. intros r q (Hr & h' & He' & ->). cbn. repeat split; try done;
    by apply (extends_trans nothing h (heap p) h' He He').
Qed.

(** Wherever the protocol can take a value (at the root a struct or map, in
    a struct, list, set or map the next element), writing one puts there a
    variable that denotes it and is made of new objects; of the objects there
    were, only the container being filled changes, and its other contents stay. *)
Theorem native_write (v : nval) (p : N) :
  ready p -> writable v = true -> (writer_stack_ p = [] -> is_root v = true) ->
  succeeds (write_nval v) p (fun _ p' => exists x,
    wrote p p' x /\ denotes (fun o => ~ known (heap p) o) (heap p') v x).
Proof. intros. by apply write_denotes. Qed.

(** Wherever the protocol stands before a variable that denotes a value of
    the type the reader expects, whoever made it (the page may give an integer as
    an int or as a double), the reader gets that value and the protocol stands one
    element further; the loop over the fields of a struct ends because a field that
    is not read is skipped. *)
Theorem native_read (fuel : Z) (v : nval) (t : ntype) (D : Var -> Prop) (p : N) (x : Var) :
  offers p x -> denotes D (heap p) v x -> typed t v = true -> Z.of_nat (nsize v) <= fuel ->
  succeeds (read_nval fuel t) p (fun r p' =>
    reads t v r /\ exists h, extends nothing (heap p) h /\ p' = set_heap h (consumed p)).
Proof. intros. by eapply read_denotes. Qed.

(** Every 64-bit integer: up to 2^53 in magnitude [writeI64] writes a double
    that holds it; past 2^53 + 1 it throws SIZE_LIMIT and leaves the protocol
    alone; but 2^53 + 1 itself, which the conversion in the comparison rounds
    down, passes the check and is written as 2^53. *)
Theorem native_i64 (z : Z) (p : N) :
  in_s 64 z -> ready p -> writer_stack_ p <> [] ->
  if Z.abs z <=? 2 ^ 53 + 1 then
    succeeds (writeI64 z) p (fun n p' => n = 0 /\ exists x, wrote p p' x /\
      denotes_int x (Z.max (- 2 ^ 53) (Z.min z (2 ^ 53))))
  else
    raises (writeI64 z) p (fun e p' => p' = p /\
      e = EProtocol TProtocolException.SIZE_LIMIT
            "Int64 value too large to be represented as a double").
Proof.
  intros Hz Hr Hs. assert (forall y, Z.abs y <= 2 ^ 53 -> double_of_int z = double_of_int y ->
    y = Z.max (- 2 ^ 53) (Z.min z (2 ^ 53)) ->
    succeeds (writeI64 z) p (fun n p' => n = 0 /\ exists x, wrote p p' x /\
      denotes_int x (Z.max (- 2 ^ 53) (Z.min z (2 ^ 53))))) as Hw.
  { intros y Hy E Ey. unfold writeI64. rewrite E. fold (writeI64 y).
    eapply writeI64_runs; [done|]. unfold NativeClient.zero. apply runs_bind.
    apply writeVar_ready; [done|done|]. intros p' Hp'. apply runs_ret. split; [done|].
    exists (double_var (double_of_int y)). split; [done|]. rewrite <- Ey. by apply int64_double_denotes. }
  bif.
  - destruct (Z.eq_dec (Z.abs z) (2 ^ 53 + 1)) as [E|E].
    + destruct double_of_int_tie as [T1 T2].
      assert (z = 2 ^ 53 + 1 \/ z = - (2 ^ 53 + 1)) as [-> | ->] by lia;
        [apply (Hw (2 ^ 53))|apply (Hw (- 2 ^ 53))]; done || lia.
    + apply (Hw z); [lia|done|lia].
  - unfold in_s in Hz. destruct (double_of_int_beyond z) as (x & Hd & Hx); [lia|].
    destruct precise_doubles as [HM Hm]. unfold writeI64.
    rewrite (double_ltb_is _ _ (2 ^ 53) x), (double_ltb_is _ _ x (- 2 ^ 53)) by assumption.
    assert (((2 ^ 53 <? x) || (x <? - 2 ^ 53))%bool = true) as -> by (destruct (z <? 0); lia).
    by apply runs_throw.
Qed.

(** The integer a variable holds, of whatever size. *)
Definition holds_integer (x : Var) (z : Z) : Prop :=
  (is_int x = true /\ AsInt x = z) \/ (is_double x = true /\ double_is (AsDouble x) z).

(** Reading an integer of [w] bits from any variable: it is read exactly when
    the variable holds an integer of that range and of at most 2^53 in magnitude;
    an integer outside gives SIZE_LIMIT, and a variable that holds none (a fraction,
    an infinity, a NaN, another kind) gives INVALID_DATA.  No conversion is ever
    undefined, and in every case the element is passed over. *)
Theorem native_integer_errors (type : string) (w : Z) (p : N) (x : Var) :
  1 <= w <= 64 -> offers p x ->
  runs (READ_INTEGER_VALUE type w) p
    (fun r p' => p' = consumed p /\ exists z, r = (0, z) /\ in_s w z /\ holds_integer x z)
    (fun e p' => p' = consumed p /\
       ((exists z m, e = EProtocol TProtocolException.SIZE_LIMIT m /\ holds_integer x z /\
                     (~ in_s w z \/ 2 ^ 53 < Z.abs z)) \/
        (exists m, e = EProtocol TProtocolException.INVALID_DATA m /\
                   forall z, ~ holds_integer x z))).
Proof.
  intros Hw Ho.
  assert (runs readIntegerValue p (fun z p' => p' = consumed p /\ holds_integer x z)
    (fun e p' => p' = consumed p /\
       ((exists z m, e = EProtocol TProtocolException.SIZE_LIMIT m /\ holds_integer x z /\
                     2 ^ 53 < Z.abs z) \/
        (exists m, e = EProtocol TProtocolException.INVALID_DATA m /\
                   forall z, ~ holds_integer x z)))) as Hr.
  { unfold readIntegerValue. apply runs_bind. eapply readVar_offers; [done|].
    destruct (is_int x) eqn:Hi; [apply runs_ret; split; [done|]; by left|].
    destruct (is_double x) eqn:Hd.
    - destruct (has_fraction (AsDouble x)) eqn:Hfr.
      + apply runs_throw. split; [done|]. right. eexists. split; [done|].
        intros z [[? _]|[_ Hz]]; [congruence|]. apply double_is_no_fraction in Hz. congruence.
      + destruct (no_fraction_is _ Hfr) as [z Hz]. destruct precise_doubles as [HM Hm].
        rewrite (double_ltb_is _ _ (2 ^ 53) z), (double_ltb_is _ _ z (- 2 ^ 53)) by assumption.
        bif.
        * apply runs_throw. split; [done|]. left. exists z. eexists. split; [done|].
          split; [by right|]. apply orb_true_iff in Hb as [Hb|Hb]; lia.
        * assert (in_s 64 z) as Hz64 by (unfold in_s; lia).
          rewrite (int64_of_double_is _ z) by assumption. apply runs_ret. split; [done|]. by right.
    - apply runs_throw. split; [done|]. right. eexists. split; [done|].
      intros z [[? _]|[? _]]; congruence. }
  unfold READ_INTEGER_VALUE. apply runs_bind. eapply runs_mono; [exact Hr| |].
  - cbv beta. intros z p' [-> Hz]. bif.
    + apply runs_throw. split; [done|]. left. exists z. eexists. split; [done|]. split; [done|].
      left. unfold in_s. apply orb_true_iff in Hb as [Hb|Hb]; lia.
    + apply runs_ret. split; [done|]. exists z.
      assert (in_s w z) as Hzw by (unfold in_s; lia). rewrite wraps_small by (assumption || lia). done.
  - cbv beta. intros e p' [-> [(z & m & He & Hz & Hb)|He]]; (split; [done|]); [left|by right].
    exists z, m. auto.
Qed.

(** Any bytes written with [writeBinary] are a string the reader's
    [readBinary] turns back into them.  [writeString] of bytes that are not UTF-8
    reports nothing: it writes a null variable, which [readString] refuses. *)
Theorem native_binary_and_strings (s bad : list Z) (p q : N) (x : Var) :
  bytes_ok s -> is_utf8 bad = false -> ready p -> writer_stack_ p <> [] -> offers q x ->
  succeeds (writeBinary s) p (fun _ p' => exists y, wrote p p' y /\ is_string y = true /\
    (x = y -> succeeds readBinary q (fun r q' => r = (0, s) /\ q' = consumed q))) /\
  succeeds (writeString bad) p (fun _ p' => exists y, wrote p p' y /\ is_null y = true /\
    (x = y -> raises readString q (fun e q' => q' = consumed q /\
       e = EProtocol TProtocolException.INVALID_DATA "Expected string value"))).
Proof.
  intros Hs Hbad Hr Hst Ho. split.
  - unfold writeBinary. wpa. eapply succeeds_runs, succeeds_mono;
      [by apply base64EncodeString_spec|]. cbv beta. intros r p1 (-> & ->).
    unfold NativeClient.zero. wpa. apply writeVar_ready; [done|done|]. intros p' Hw. wpa.
    destruct (string_is_string (encoding s)) as [Hstr Has]; [by apply utf8_ascii, encoding_ascii|].
    exists (string_var (encoding s)). split; [done|]. split; [done|]. intros ->.
    unfold readBinary. wpa. eapply readVar_offers; [done|]. rewrite Hstr, Has. cbn [negb]. wpa.
    eapply succeeds_runs, succeeds_mono; [apply base64DecodeString_spec|]. cbv beta.
    intros r q' (-> & ->). pose proof (encoding_accepted s Hs).
    replace (zlen (encoding s) mod 4 =? 1) with false by lia. wpa. by rewrite decoding_encoding.
  - pose proof (string_invalid bad Hbad) as Hn. apply is_type_true in Hn.
    unfold writeString, NativeClient.zero. wpa. apply writeVar_ready; [done|done|].
    intros p' Hw. wpa. exists (string_var bad). split; [done|]. split; [done|]. intros ->.
    unfold readString. wpa. eapply readVar_offers; [done|].
    replace (is_string (string_var bad)) with false by (symmetry; by eapply is_type_other).
    cbn [negb]. by wpa.
Qed.

(** C40. A message with an id, a registered type and data that denotes a request
    is answered by one message: a new dictionary with the same id and either the
    response of the handler under [data] or its error under [error]; the handler
    is given the request as its type reads it, and nothing the page holds is
    changed. *)
Theorem handle_message_reply (s : Instance_) (m x : Var) (id type : list Z) (fuel : Z) (t : ntype)
    (f : nval -> bool * nval * nval) (req : nval) :
  known (browser_heap s) m -> valid_message (browser_heap s) m id type x -> is_utf8 id = true ->
  message_handler_map s !! type = Some (wrapper fuel t f) -> answers_ok t f req ->
  denotes (known (browser_heap s)) (browser_heap s) req x -> typed t req = true ->
  Z.of_nat (nsize req) <= fuel ->
  succeeds (HandleMessage m) s (fun _ s' => exists req' ok response error,
    reads t req req' /\ f req' = (ok, response, error) /\
    answered s id s' (if ok : bool then "data" else "error") (if ok : bool then response else error)).
Proof. intros. by eapply HandleMessage_wrapper. Qed.

(** A message that lacks an id, a type or data, or has one of the wrong kind,
    is answered by an error [invalid_message] without an id; one whose type has no
    handler by an error [unknown_message_type] with its id.  Neither runs a handler. *)
Theorem handle_message_rejects (s : Instance_) (m : Var) :
  (is_dictionary m = true -> known (browser_heap s) m) ->
  ((forall id type x, ~ valid_message (browser_heap s) m id type x) ->
   succeeds (HandleMessage m) s (fun _ s' => exists r e, posts s s' r /\
     entries (browser_heap s') r = {[text_of "error" := e]} /\
     has_error (browser_heap s') r "invalid_message" (text_of "Invalid message"))) /\
  (forall id type x, valid_message (browser_heap s) m id type x ->
   message_handler_map s !! type = None -> is_utf8 id = true ->
   succeeds (HandleMessage m) s (fun _ s' => exists r i e, posts s s' r /\
     is_string i = true /\ AsString i = id /\
     entries (browser_heap s') r = {[text_of "error" := e; text_of "id" := i]} /\
     has_error (browser_heap s') r "unknown_message_type" (text_of "Unknown message type: " ++ type))).
Proof.
  intros Hm. split; [by apply HandleMessage_invalid|].
  intros id type x Hv Hh Hid. eapply HandleMessage_unknown; try done. apply Hm. by destruct Hv.
Qed.

(** [HandleMessage] catches nothing: a valid message whose data has a field
    of the wrong kind makes the generated [read] throw, and the page is never
    answered, though it waits for its id. *)
Theorem handle_message_unanswered (s : Instance_) (m x y : Var) (id type n : list Z) (fuel : Z)
    (f : nval -> bool * nval * nval) :
  known (browser_heap s) m -> valid_message (browser_heap s) m id type x ->
  message_handler_map s !! type = Some (wrapper fuel (TyStruct [(n, TyString)]) f) -> 0 < fuel ->
  known (browser_heap s) x -> entries (browser_heap s) x = {[n := y]} ->
  is_string y = false -> is_null y = false -> is_undefined y = false ->
  raises (HandleMessage m) s (fun e s' =>
    e = EProtocol TProtocolException.INVALID_DATA "Expected string value" /\ posted s' = posted s).
Proof.
  intros Hm Hv Hh Hf Hk He Hs Hn Hu. pose proof Hv as (_ & _ & _ & _ & Hd).
  apply (HandleMessage_escapes s m id type x
    (fun e => e = EProtocol TProtocolException.INVALID_DATA "Expected string value")
    (wrapper fuel (TyStruct [(n, TyString)]) f)); [done..|].
  intros h' Hx. eapply wrong_field_raises; try done; [by eapply extends_known|].
  rewrite <- He. apply (extends_entries nothing); [done..|by intros []].
Qed.

(** A map entry whose key is not a string is lost without an error: the
    dictionary refuses it, the protocol does not look at the answer, and goes on to
    the next key. *)
Theorem native_map_key_lost (p : N) (c : WriterContext.t) (l : list WriterContext.t) (key : Z) (x : Var) :
  writer_stack_ p = c :: l -> WriterContext.type_ c = MAP_KEY_CONTEXT ->
  is_dictionary (WriterContext.var_ c) = true ->
  succeeds (do! writeI32 key in writeVar x) p (fun _ p' => heap p' = heap p /\
    writer_stack_ p' = WriterContext.Make (WriterContext.var_ c) MAP_KEY_CONTEXT
      (WriterContext.field_name_ c) (int_var key) :: l).
Proof.
  intros Hs Ht Hd. unfold writeI32, NativeClient.zero, writeVar. wpa. rewrite Hs.
  eapply runs_topWriter; [done|]. unfold WriterContext.writeVar at 1. wpa. cbn [fst]. rewrite Ht.
  wpa. cbn [fst snd]. cbn [writer_stack_ set_writers].
  eapply runs_topWriter; [done|]. unfold WriterContext.writeVar. wpa. cbn [fst WriterContext.type_].
  unfold WriterContext.asDictionary. wpa. cbn [fst WriterContext.var_]. rewrite Hd. wpa.
  unfold in_context. wpa. cbn [snd WriterContext.map_key_].
  assert (is_string (int_var key) = false) as Hk.
  { eapply is_type_other; [apply is_type_true, type_int|discriminate]. }
  unfold runs at 1, browser. rewrite dictionary_set_refused by done. wpa. by cbn.
Qed.
End Theorems.

(** ** Concrete runs *)

Import Tables.

Lemma native_round_trip_witness :
  succeeds (@write_then_read Tables.api x86_64 100 native_sample native_sample_type)
    (new_protocol Tables.empty) (fun r p =>
    reads native_sample_type native_sample r /\ writer_stack_ p = [] /\ reader_stack_ p = [] /\
    @extends Tables.api Tables.laws nothing Tables.empty (heap p)).
Proof.
  apply (native_round_trip Tables.api Tables.laws x86_64 x86_64_unbounded);
    [vm_compute; reflexivity..|]. vm_compute. discriminate.
Defined.

(** A protocol filling an empty array. *)
Definition array_heap : tables := (add_array [] Tables.empty).2.
Definition in_array : @TNativeClientProtocol Tables.api :=
  MakeProtocol [@WriterContext.Make Tables.api (VArray 1) LIST_CONTEXT [] VUndefined] [] None array_heap.

Lemma in_array_ready : @ready Tables.api Tables.laws in_array.
Proof. split; [reflexivity|]. split; reflexivity. Defined.

Lemma native_write_witness :
  succeeds (@write_nval Tables.api x86_64 native_sample) in_array (fun _ p' => exists x,
    @wrote Tables.api Tables.laws in_array p' x /\
    @denotes Tables.api Tables.laws (fun o => ~ @known Tables.api Tables.laws (heap in_array) o)
      (heap p') native_sample x).
Proof.
  apply (native_write Tables.api Tables.laws x86_64 x86_64_unbounded);
    [apply in_array_ready|vm_compute; reflexivity|discriminate].
Defined.

(** A page's object [{n: 5.0}], whose integer is a double. *)
Definition page_heap : tables :=
  MkTables {[1%positive := {[text_of "n" := VDouble (double_of_int 5)]}]} ∅ 2.
Definition page_value : nval := NStruct [(text_of "n", NI32 5)].

Lemma page_denotes :
  @denotes Tables.api Tables.laws (fun _ => True) page_heap page_value (VDictionary 1).
Proof.
  split.
  - split; [done|]. split; [reflexivity|]. split; [reflexivity|].
    split; [apply NoDup_singleton|]. split; [|reflexivity].
    assert (entries page_heap (VDictionary 1) =
      ({[text_of "n" := VDouble (double_of_int 5)]} : gmap (list Z) var)) as -> by reflexivity.
    rewrite dom_singleton_L. cbn [map fst list_to_set page_value]. set_solver.
  - split; [|done]. exists (VDouble (double_of_int 5)). split; [vm_compute; reflexivity|].
    right. split; [reflexivity|]. split; [apply (double_of_int_exact 5)|]; lia.
Defined.

Lemma native_read_witness :
  succeeds (@read_nval Tables.api x86_64 3 (TyStruct [(text_of "n", TyI32)]))
    (@new_protocol_var Tables.api (VDictionary 1) page_heap) (fun r p' =>
    reads (TyStruct [(text_of "n", TyI32)]) page_value r /\
    exists h, @extends Tables.api Tables.laws nothing page_heap h /\
      p' = set_heap h (consumed (@new_protocol_var Tables.api (VDictionary 1) page_heap))).
Proof.
  apply (native_read Tables.api Tables.laws x86_64 x86_64_unbounded 3 page_value _ (fun _ => True)
    (@new_protocol_var Tables.api (VDictionary 1) page_heap) (VDictionary 1)).
  - reflexivity.
  - apply page_denotes.
  - vm_compute; reflexivity.
  - vm_compute; discriminate.
Defined.

Lemma native_i64_witness :
  succeeds (writeI64 (2 ^ 53 + 1)) in_array (fun n p' => n = 0 /\ exists x,
    @wrote Tables.api Tables.laws in_array p' x /\ @denotes_int Tables.api x (2 ^ 53)).
Proof.
  apply (native_i64 Tables.api Tables.laws (2 ^ 53 + 1) in_array);
    [unfold in_s; lia|apply in_array_ready|discriminate].
Defined.

Lemma native_integer_errors_witness :
  let p := @new_protocol_var Tables.api (VInt 300) Tables.empty in
  runs (READ_INTEGER_VALUE "int8_t" 8) p
    (fun r p' => p' = consumed p /\
       exists z, r = (0, z) /\ in_s 8 z /\ @holds_integer Tables.api (VInt 300) z)
    (fun e p' => p' = consumed p /\
       ((exists z m, e = EProtocol TProtocolException.SIZE_LIMIT m /\
           @holds_integer Tables.api (VInt 300) z /\ (~ in_s 8 z \/ 2 ^ 53 < Z.abs z)) \/
        (exists m, e = EProtocol TProtocolException.INVALID_DATA m /\
                   forall z, ~ @holds_integer Tables.api (VInt 300) z))).
Proof.
  apply (native_integer_errors Tables.api Tables.laws "int8_t" 8
    (@new_protocol_var Tables.api (VInt 300) Tables.empty) (VInt 300)); [lia|reflexivity].
Defined.

Lemma native_binary_and_strings_witness :
  let q := @new_protocol_var Tables.api VNull Tables.empty in
  succeeds (@writeBinary Tables.api x86_64 [0; 255]) in_array (fun _ p' => exists y,
    @wrote Tables.api Tables.laws in_array p' y /\ is_string y = true /\
    (VNull = y -> succeeds (@readBinary Tables.api x86_64) q
       (fun r q' => r = (0, [0; 255]) /\ q' = consumed q))) /\
  succeeds (writeString [255]) in_array (fun _ p' => exists y,
    @wrote Tables.api Tables.laws in_array p' y /\ is_null y = true /\
    (VNull = y -> raises readString q (fun e q' => q' = consumed q /\
       e = EProtocol TProtocolException.INVALID_DATA "Expected string value"))).
Proof.
  apply (native_binary_and_strings Tables.api Tables.laws x86_64 x86_64_unbounded [0; 255] [255]
    in_array (@new_protocol_var Tables.api VNull Tables.empty) VNull);
    [by repeat constructor|reflexivity|apply in_array_ready|discriminate|reflexivity].
Defined.

(** The page sends [{id: "7", type: "testMessage", data: {name: v}}]. *)
Definition hello_heap (v : var) : tables :=
  MkTables {[1%positive := {[text_of "id" := VString (text_of "7");
                            text_of "type" := VString (text_of "testMessage");
                            text_of "data" := VDictionary 2]};
            2%positive := {[text_of "name" := v]}]} ∅ 3.
Definition hello_type : ntype := TyStruct [(text_of "name", TyString)].
Definition hello_instance (v : var) : @Instance_ Tables.api :=
  @MakeInstance Tables.api
    {[text_of "testMessage" := @wrapper Tables.api x86_64 4 hello_type TestMessage]} [] (hello_heap v).
Definition hello_request : nval := NStruct [(text_of "name", NString (text_of "Bob"))].

Lemma hello_valid v : @valid_message Tables.api Tables.laws (hello_heap v) (VDictionary 1)
  (text_of "7") (text_of "testMessage") (VDictionary 2).
Proof.
  split; [reflexivity|].
  split; [by exists (VString (text_of "7"))|].
  split; [by exists (VString (text_of "testMessage"))|]. by split.
Defined.

Lemma hello_reads r : reads hello_type hello_request r -> r = hello_request.
Proof.
  intros Hr. inversion Hr as [| | | | | | | |fields fs fs' rs Hp Hf| | |]; subst.
  apply Permutation_length_1_inv in Hp. subst.
  inversion Hf as [|? n t v w fs rs' Ha Hw Hr'|? n v fs rs' Ha Hr']; subst;
    match goal with E : _ ++ [_] = [_] |- _ =>
      apply app_singleton in E as [[-> E]|[_ E]]; [injection E as -> ->|discriminate E] end.
  - vm_compute in Ha. injection Ha as <-. inversion Hr'; subst.
    + by inversion Hw; subst.
    + by destruct fs.
    + by destruct fs.
  - vm_compute in Ha. discriminate.
Qed.

Lemma handle_message_reply_witness :
  let s := hello_instance (VString (text_of "Bob")) in
  succeeds (HandleMessage (VDictionary 1)) s (fun _ s' => exists req' ok response error,
    reads hello_type hello_request req' /\ TestMessage req' = (ok, response, error) /\
    @answered Tables.api Tables.laws s (text_of "7") s' (if ok : bool then "data" else "error")
      (if ok : bool then response else error)).
Proof.
  apply (handle_message_reply Tables.api Tables.laws x86_64 x86_64_unbounded
    (hello_instance (VString (text_of "Bob"))) (VDictionary 1) (VDictionary 2) (text_of "7")
    (text_of "testMessage") 4 hello_type TestMessage hello_request).
  - reflexivity.
  - apply hello_valid.
  - reflexivity.
  - apply lookup_singleton_eq.
  - intros r ok response error Hr. rewrite (hello_reads r Hr). intros E.
    injection E as <- <- <-. vm_compute. by split.
  - split.
    + split; [reflexivity|]. split; [reflexivity|]. split; [reflexivity|].
      split; [apply NoDup_singleton|]. split; [|reflexivity].
      change (dom ({[text_of "name" := VString (text_of "Bob")]} : gmap (list Z) var) =
        list_to_set (C := gset (list Z)) (map fst [(text_of "name", NString (text_of "Bob"))])).
      rewrite dom_singleton_L. cbn [map fst list_to_set]. set_solver.
    + split; [|done]. exists (VString (text_of "Bob")). split; [reflexivity|]. by split.
  - reflexivity.
  - vm_compute. discriminate.
Defined.

Lemma handle_message_rejects_witness :
  succeeds (HandleMessage VNull) (hello_instance VNull) (fun _ s' => exists r e,
    @posts Tables.api Tables.laws (hello_instance VNull) s' r /\
    @entries Tables.api Tables.laws (browser_heap s') r = {[text_of "error" := e]} /\
    @has_error Tables.api Tables.laws (browser_heap s') r "invalid_message"
      (text_of "Invalid message")).
Proof.
  destruct (handle_message_rejects Tables.api Tables.laws (hello_instance VNull) VNull) as [H _];
    [discriminate|]. apply H. intros id type x [E _]. discriminate E.
Defined.

Lemma handle_message_unanswered_witness :
  raises (HandleMessage (VDictionary 1)) (hello_instance (VInt 5)) (fun e s' =>
    e = EProtocol TProtocolException.INVALID_DATA "Expected string value" /\
    posted s' = posted (hello_instance (VInt 5))).
Proof.
  apply (handle_message_unanswered Tables.api Tables.laws x86_64
    (hello_instance (VInt 5)) (VDictionary 1) (VDictionary 2) (VInt 5) (text_of "7")
    (text_of "testMessage") (text_of "name") 4 TestMessage);
    [reflexivity|apply hello_valid|apply lookup_singleton_eq|lia|reflexivity..].
Defined.

Lemma native_map_key_lost_witness :
  let c := @WriterContext.Make Tables.api (VDictionary 1) MAP_KEY_CONTEXT [] VUndefined in
  let p := @MakeProtocol Tables.api [c] [] None page_heap in
  succeeds (do! writeI32 9 in writeVar (VBool true)) p (fun _ p' => heap p' = heap p /\
    writer_stack_ p' = [@WriterContext.Make Tables.api (VDictionary 1) MAP_KEY_CONTEXT [] (VInt 9)]).
Proof.
  apply (native_map_key_lost Tables.api Tables.laws
    (@MakeProtocol Tables.api
      [@WriterContext.Make Tables.api (VDictionary 1) MAP_KEY_CONTEXT [] VUndefined] [] None page_heap)
    (@WriterContext.Make Tables.api (VDictionary 1) MAP_KEY_CONTEXT [] VUndefined) [] 9 (VBool true));
    reflexivity.
Defined.
