(* ===== verification/JsonTheorems.v ===== *)
(** * Theorems on the JSON protocol

    Messages survive the wire; what is not a message of this protocol is refused,
    in the ways the code has of refusing it. *)

From S2P Require Export Examples JsonValues.

(** ** Messages *)

Section Messages.
Context `{CxxLibrary} {T : Type} `{TTransport T}.

(** What generated code does with a message of one value. *)
Definition write_message (name : list Z) (messageType seqid : Z) (v : tval) : M (TJSONProtocol T) Z :=
  let! a := JsonProtocol.writeMessageBegin name messageType seqid in
  let! b := write_value v in
  let! c := JsonProtocol.writeMessageEnd in
  ret (u32 (u32 (a + b) + c)).

Definition read_message (depth : nat) (fuel type : Z)
    : M (TJSONProtocol T) (Z * (list Z * Z * Z) * tval) :=
  let! '(a, header) := JsonProtocol.readMessageBegin in
  let! '(b, v) := read_value depth fuel type in
  let! c := JsonProtocol.readMessageEnd in
  ret (u32 (u32 (a + b) + c), header, v).

Definition json_message (name : list Z) (messageType seqid : Z) (v : tval) : list Z :=
  j_header name messageType seqid ++ (kJSONElemSeparator :: j_value false v) ++ [kJSONArrayEnd].
End Messages.

(** C3. JSON protocol: a message with any name and any well-formed value
    (doubles finite with a text that is parsed back, or infinite; field ids and
    sequence id not negative) is put on the wire as exactly its JSON text, every
    string escaped or in base 64, every number in a key quoted; a reader with one
    character of lookahead gives back the name, the type, the sequence id and the
    value, both count the bytes, the contexts are back where they were, and what
    follows the message is left for the next read.  On any transports that keep
    the stream contract. *)
Theorem json_round_trip (L : CxxLibrary) (LL : CxxLibraryLaws) {T1 T2 : Type}
    (X1 : TTransport T1) (X2 : TTransport T2) (L1 : WriteLaws T1) (L2 : ReadLaws T2)
    (lim : limits) (v : tval) (name : list Z) (messageType seqid : Z)
    (p1 : TJSONProtocol T1) (p2 : TJSONProtocol T2) (cs1 cs2 : list TJSONContext)
    (out rest : list Z) (room : Z) (depth : nat) (fuel : Z) :
  let e := json_message name messageType seqid v in
  wf lim v = true -> json_ok v = true -> (vsize v <= depth)%nat -> Z.of_nat (vsize v) < fuel ->
  bytes_ok name -> in_u 32 messageType -> 0 <= seqid < 2 ^ 31 ->
  zlen e <= room -> zlen e <= string_max_size ->
  json_out p1 (BaseContext, cs1) out room -> json_in p2 (BaseContext, cs2) (e ++ rest) ->
  succeeds (write_message name messageType seqid v) p1 (fun n p1' =>
    n = u32 (zlen e) /\ json_out p1' (BaseContext, cs1) (out ++ e) (room - zlen e)) /\
  succeeds (read_message depth fuel (type_of v)) p2 (fun r p2' =>
    r = (u32 (zlen e), (name, messageType, seqid), v) /\ json_in p2' (BaseContext, cs2) rest).
Proof.
  intros e Hwf Hok Hd Hf Hname Htype Hseq Hroom Hmax Hout Hin. split.
  - apply (writes_then3 json_out _ _ _ (BaseContext, cs1) (at_element, BaseContext :: cs1) (at_element, BaseContext :: cs1)
      (BaseContext, cs1)); [| | |exact Hout|exact Hroom].
    + apply (writes_message_begin BaseContext cs1); [done| |]; unfold wide, in_u in *; lia.
    + by apply (write_value_json lim v Hwf Hok at_element).
    + apply writes_array_end.
  - unfold e, json_message in *. clear e. rewrite <- !app_assoc in Hin. zlist. unfold read_message.
    eapply consumes_step; [by apply (consumes_message_begin BaseContext cs2)|cbn [prefix app]; lia|exact Hin|done|].
    intros p3 Hp3. cbv beta iota.
    eapply consumes_step; [by apply (read_value_json lim v depth fuel Hwf Hok (conj Hd Hf) at_element)
      |cbn [prefix next escapeNum]; zlist|exact Hp3|done|].
    intros p4 Hp4. cbv beta iota.
    eapply passes_step; [eapply (passes_array_end at_element BaseContext)|exact Hp4|]. intros p5 Hp5. wp.
    split; [|exact Hp5]. do 2 f_equal. cbn [prefix next escapeNum app]. count.
Qed.

Definition json_over {T} (t : T) : TJSONProtocol T := JsonProtocol.new_protocol t 0.

(** A struct with a field of every type, nested containers, map keys that are
    numbers and strings. *)
Definition json_sample : tval :=
  VStruct [(1, VBool true); (2, VByte (-1)); (20, VI16 (-300)); (21, VI32 70000);
           (5, VI64 (-2)); (3, VDouble 4607182418800017408); (13, VDouble HUGE_VAL);
           (4, VString [104; 0; 105; 255]);
           (6, VSet T_BOOL [VBool true; VBool false]);
           (7, VMap T_STRING T_STRUCT [(VString [], VStruct [(1, VBool false)])]);
           (8, VMap T_I32 T_I32 []);
           (9, VMap T_DOUBLE T_LIST [(VDouble minus_HUGE_VAL, VList T_I32 [VI32 1; VI32 (-1)]);
                                     (VDouble 4607182418800017408, VList T_I32 [])])].

Lemma json_round_trip_witness :
  let e := @json_message plain_cast [34; 7; 97] T_CALL 5 json_sample in
  succeeds (@write_message plain_cast _ (@TMemoryBuffer_transport x86_64) [34; 7; 97] T_CALL 5 json_sample)
    (json_over (empty_buffer 16)) (fun n p =>
      n = 334 /\ @json_out _ _ (@TMemoryBuffer_writes x86_64 x86_64_unbounded) p (BaseContext, []) e (2 ^ 31 - 334)) /\
  succeeds (@read_message plain_cast _ (@TMemoryBuffer_transport power) 60 60 T_STRUCT)
    (json_over (buffer_of (e ++ [7]))) (fun r p =>
      r = (334, ([34; 7; 97], T_CALL, 5), json_sample) /\
      @json_in _ _ (@TMemoryBuffer_reads power) p (BaseContext, []) [7]).
Proof.
  apply (json_round_trip plain_cast plain_cast_laws (@TMemoryBuffer_transport x86_64)
    (@TMemoryBuffer_transport power) (@TMemoryBuffer_writes x86_64 x86_64_unbounded) (@TMemoryBuffer_reads power)
    (Limits 0 0) json_sample [34; 7; 97] T_CALL 5 (json_over (empty_buffer 16))
    (json_over (buffer_of (@json_message plain_cast [34; 7; 97] T_CALL 5 json_sample ++ [7]))) [] [] [] [7] (2 ^ 31) 60 60).
  - vm_compute. reflexivity.
  - vm_compute. reflexivity.
  - vm_compute. lia.
  - vm_compute. reflexivity.
  - repeat constructor; discriminate || reflexivity.
  - split; [discriminate|reflexivity].
  - split; [discriminate|reflexivity].
  - vm_compute. discriminate.
  - vm_compute. discriminate.
  - split; [reflexivity|]. apply (@empty_buffer_outgoing x86_64 x86_64_unbounded). lia.
  - split; [reflexivity|]. eexists. split; [|reflexivity].
    apply (@buffer_of_incoming power). vm_compute. reflexivity.
Defined.

(** ** What is refused *)

Section Refusals.
Context `{CxxLibrary} {T : Type} `{ReadLaws T}.

Lemma byte_assertion (p : TJSONProtocol T) :
  succeeds (JsonProtocol.readJSONInteger NI16) p (fun r _ => 256 <= r.2) ->
  (JsonProtocol.readByte p).1 = Crash AssertionFailed.
Proof.
  intros (r & p' & Hr & Hz)%succeeds_run. unfold JsonProtocol.readByte, bind. rewrite Hr.
  destruct r as [n z]. cbn [snd] in Hz. replace (z <? 256) with false by lia. done.
Qed.

Lemma field_id_refused l c cs p rest z :
  forallb isJSONNumeric l = true -> zlen l <= string_max_size -> delimited rest ->
  lex_parse NU64 l = Some z -> 2 ^ 15 <= z -> next c = at_value ->
  json_in p (c, cs) ((prefix c ++ quoted_if (escapeNum (next c)) l) ++ rest) ->
  raises (JsonProtocol.readFieldBegin (T := T)) p (fun e _ => e = EProtocol TProtocolException.SIZE_LIMIT "").
Proof.
  intros Hl Hmax Hd Hz Hlarge Hc Hp. unfold JsonProtocol.readFieldBegin.
  assert (exists ch l', (prefix c ++ quoted_if (escapeNum (next c)) l) ++ rest = ch :: l' /\
    ch =? kJSONObjectEnd = false) as (ch & l' & Heq & Hch).
  { rewrite Hc. destruct c as [|[] []|[]]; try done; eexists _, _; split; reflexivity. }
  rewrite Heq in Hp. eapply peek_char; [exact Hp|]. intros p1 Hp1. rewrite Hch. rewrite <- Heq in Hp1.
  apply runs_bind. eapply integer_text; [exact Hl|exact Hmax|exact Hd|exact Hp1| |]; rewrite Hz; [|done].
  intros ? p2 [= <-] _. replace (2 ^ 15 - 1 <? z) with true by lia. by wp.
Qed.
End Refusals.

(** C22. JSON protocol: of a number whose text does not convert, what is thrown is
    a pointer, which no handler of exceptions takes; a field id above 32767 (and
    so, where the cast to unsigned wraps, a negative one) exceeds the size limit;
    a message of another version is refused; but [readByte] of a number from 256
    to 32767 fails an assertion. *)
Theorem json_rejects (L : CxxLibrary) {T : Type} (X : TTransport T) (R : ReadLaws T)
    (c : TJSONContext) (cs : list TJSONContext) (rest l : list Z) (p : TJSONProtocol T) :
  delimited rest -> forallb isJSONNumeric l = true -> zlen l <= string_max_size ->
  (json_in p (c, cs) ((prefix c ++ quoted_if (escapeNum (next c)) l) ++ rest) ->
   (forall t, lex_parse t l = None ->
      raises (JsonProtocol.readJSONInteger t) p (fun e _ => e = expected_numeric l /\ what e = None)) /\
   (forall z, lex_parse NI16 l = Some z -> 256 <= z -> (JsonProtocol.readByte p).1 = Crash AssertionFailed) /\
   (forall z, lex_parse NU64 l = Some z -> 2 ^ 15 <= z -> next c = at_value ->
      raises JsonProtocol.readFieldBegin p (fun e _ => e = EProtocol TProtocolException.SIZE_LIMIT ""))) /\
  (json_in p (c, cs) ((prefix c ++ [kJSONArrayStart]) ++ l ++ rest) ->
   forall z, lex_parse NU64 l = Some z -> z <> kThriftVersion1 ->
     raises JsonProtocol.readMessageBegin p (fun e _ =>
       e = EProtocol TProtocolException.BAD_VERSION "Message contained bad version.")).
Proof.
  intros Hd Hl Hmax. split.
  - intros Hp. split_and!.
    + intros t Ht. eapply integer_text; [exact Hl|exact Hmax|exact Hd|exact Hp| |]; [|done].
      intros z p'. by rewrite Ht.
    + intros z Hz Hlarge. apply byte_assertion. eapply integer_text; [exact Hl|exact Hmax|exact Hd|exact Hp| |];
        rewrite Hz; [|done]. by intros ? p' [= <-] _.
    + intros z Hz Hlarge Hc. by eapply field_id_refused.
  - intros Hp z Hz Hv. unfold JsonProtocol.readMessageBegin.
    eapply passes_step; [apply passes_array|exact Hp|]. intros p1 Hp1. apply runs_bind.
    eapply (integer_text NU64 l (JSONListContext true)); [exact Hl|exact Hmax|exact Hd|exact Hp1| |];
      rewrite Hz; [|done]. intros ? p2 [= <-] _. rewrite (proj2 (Z.eqb_neq _ _) Hv). by wp.
Qed.

Lemma json_over_in bs : zlen bs < 2 ^ 32 ->
  @json_in _ _ (@TMemoryBuffer_reads x86_64) (json_over (buffer_of bs)) (BaseContext, []) bs.
Proof.
  intros Hl. split; [reflexivity|]. eexists. split; [|reflexivity]. by apply (@buffer_of_incoming x86_64).
Qed.

Lemma json_rejects_witness :
  raises (@JsonProtocol.readJSONInteger plain_cast _ (@TMemoryBuffer_transport x86_64) NI16)
    (json_over (buffer_of (bytes_of "70000,"))) (fun e _ => e = expected_numeric (bytes_of "70000") /\ what e = None) /\
  (@JsonProtocol.readByte plain_cast _ (@TMemoryBuffer_transport x86_64)
    (json_over (buffer_of (bytes_of "300,")))).1 = Crash AssertionFailed /\
  raises (@JsonProtocol.readMessageBegin plain_cast _ (@TMemoryBuffer_transport x86_64))
    (json_over (buffer_of (bytes_of "[2,"))) (fun e _ =>
      e = EProtocol TProtocolException.BAD_VERSION "Message contained bad version.").
Proof.
  pose proof (fun l p => json_rejects plain_cast (@TMemoryBuffer_transport x86_64) (@TMemoryBuffer_reads x86_64)
    BaseContext [] (bytes_of ",") l p eq_refl) as Hall.
  split; [|split].
  - destruct (Hall (bytes_of "70000") (json_over (buffer_of (bytes_of "70000,"))) eq_refl
      ltac:(vm_compute; discriminate)) as [Hint _].
    destruct (Hint (json_over_in (bytes_of "70000,") ltac:(vm_compute; reflexivity))) as [Hbad _].
    apply (Hbad NI16). vm_compute. reflexivity.
  - destruct (Hall (bytes_of "300") (json_over (buffer_of (bytes_of "300,"))) eq_refl
      ltac:(vm_compute; discriminate)) as [Hint _].
    destruct (Hint (json_over_in (bytes_of "300,") ltac:(vm_compute; reflexivity))) as (_ & Hbad & _).
    apply (Hbad 300); [vm_compute; reflexivity|discriminate].
  - destruct (Hall (bytes_of "2") (json_over (buffer_of (bytes_of "[2,"))) eq_refl
      ltac:(vm_compute; discriminate)) as [_ Hver].
    apply (Hver (json_over_in (bytes_of "[2,") ltac:(vm_compute; reflexivity)) 2);
      [vm_compute; reflexivity|discriminate].
Defined.
