(* ===== verification/HttpTheorems.v ===== *)
(** * Theorems on the HTTP transports

    A request and a response get through; on any input at all a read ends, and
    delivers what the reference parser of HttpReader finds; chunked bodies, and
    where the code falls short of them. *)

From S2P Require Export Examples HttpMessages.

(** ** A connection to try them on *)

(** A memory buffer to read from, and what has been sent. *)
Record Duplex := Pair { inbox : TMemoryBuffer; sent : list Z }.
Definition set_inbox (b : TMemoryBuffer) (p : Duplex) : Duplex := Pair b (sent p).
Definition put (d : list Z) (p : Duplex) : Duplex := Pair (inbox p) (sent p ++ d).

Section Connection.
Context `{Platform}.

#[export] Instance Duplex_transport : TTransport Duplex := {
  t_isOpen := ret true;
  t_peek := lift inbox set_inbox t_peek;
  t_open := ret tt;
  t_close := ret tt;
  t_read n := lift inbox set_inbox (t_read n);
  t_readAll n := lift inbox set_inbox (t_readAll n);
  t_readEnd := lift inbox set_inbox t_readEnd;
  t_write d := modify (put d);
  t_writeEnd := ret 0;
  t_flush := ret tt;
  t_borrow n := lift inbox set_inbox (t_borrow n);
  t_consume n := lift inbox set_inbox (t_consume n)
}.

#[export] Instance Duplex_reads : ReadLaws Duplex.
Proof using Type.
  refine {| incoming p bs := incoming (inbox p) bs; lent p bs m := lent (inbox p) bs m;
            stream_end := stream_end (T := TMemoryBuffer) |}.
  - intros p bs m. apply lent_incoming.
  - intros p n bs Hp Hn Hb. apply runs_lift. by apply (read_some (inbox p) n bs).
  - intros p n bs rest Hp Hn Hm. apply runs_lift. by apply readAll_ok.
  - intros p n bs Hp Hn Hm. apply runs_lift. by apply (readAll_eof (inbox p) n bs).
  - intros p n bs Hp Hn. apply runs_lift. by apply borrow_ok.
  - intros p n bs m Hp Hn. apply runs_lift. by apply (consume_ok (inbox p) n bs m).
Defined.

#[export] Instance Duplex_end : EndLaws Duplex.
Proof using Type. intros p n Hp Hn. apply runs_lift. by apply (read_end (inbox p)). Defined.

#[export] Instance Duplex_writes : WriteLaws Duplex.
Proof using Type.
  refine {| outgoing p out room := sent p = out |}.
  intros p out room d <- _ _. done.
Defined.

#[export] Instance Duplex_flush : FlushLaws Duplex.
Proof using Type. by intros p out room Hp. Defined.

#[export] Instance Duplex_duplex : DuplexLaws Duplex.
Proof using Type. split; [done|]. by intros p bs Hp. Defined.
End Connection.

(** What there is of the C library and of boost here. *)
Definition saturating : CLibrary := {| out_of_range l := 2 ^ 31 - 1 |}.
Definition ascii_strings : BoostStrings := {|
  istarts_with l p := starts_with (map tolower p) (map tolower l);
  iends_with l p := starts_with (rev (map tolower p)) (rev (map tolower l))
|}.
Lemma ascii_laws : @BoostLaws ascii_strings.
Proof. by split. Defined.

(** A connection between two messages, with [bs] to come. *)
Definition http_over (bs : list Z) : THttpTransport Duplex :=
  Http (Pair (buffer_of bs) []) (empty_buffer 16) (empty_buffer 16) true false false 0 0
    (Some (zrep 1025 0)) 0 0 1024.

Lemma http_over_idle `{Platform} `{!Unbounded} bs : zlen bs <= max_input -> idle (http_over bs) bs.
Proof.
  unfold max_input. intros Hbs. split; [|done]. split.
  - split; [done|]. split; [by eexists|]. split; [by apply empty_buffer_inv|]. exists bs.
    split; [done|]. split; [by apply buffer_of_incoming; lia|done].
  - split; [done|]. eapply less_room; [by apply empty_buffer_outgoing|lia].
Qed.

(** A Thursday in 2015. *)
Definition a_day : tm := Tm 4 1 0 115 12 0 0.
Lemma a_day_valid : valid_time a_day.
Proof. by split. Defined.

(** ** Requests and responses *)

(** What is written waits for the flush. *)
Section Waiting.
Context `{Platform} `{!Unbounded} `{CLibrary} {T : Type} `{TTransport T}.
Context (v : virtuals T) (fuel : Z) (flush : M (THttpTransport T) unit).

Lemma sends (P : T -> Prop) s ds room (Q : THttpTransport T -> Prop) :
  outgoing (writeBuffer_ s) [] room -> P (transport_ s) -> Forall (fun d => zlen d < 2 ^ 32) ds ->
  zlen (concat ds) <= room ->
  (forall s1, outgoing (writeBuffer_ s1) (concat ds) (room - zlen (concat ds)) -> P (transport_ s1) ->
     succeeds flush s1 (fun _ s' => Q s')) ->
  succeeds (@send _ (http_transport v fuel flush) ds) s (fun _ s' => Q s').
Proof using All.
  intros Hw HP Hds Hroom Hflush. unfold send. apply runs_bind.
  eapply runs_mono; [apply (@write_all_ok _ (http_transport v fuel flush)
    (http_writes v fuel flush P) s [] room ds)| |done]; [done|done|done|].
  cbn beta. intros _ s1 [Hw1 HP1]. by apply Hflush.
Qed.
End Waiting.

(** What every reader of one message promises, for both sides. *)
Section Shared.
Context `{Platform} `{!Unbounded} `{CLibrary} {T : Type} `{TTransport T} `{!ReadLaws T} `{!EndLaws T}.
Context (v : virtuals T) (status : list Z -> exn + bool) (step : list Z -> header_info -> header_info).
Context `{!VirtualLaws v status step} (fuel : Z) (flush : M (THttpTransport T) unit).

Lemma receives s wire m ds :
  idle s wire -> zlen wire < fuel -> message_of status step wire = inr m ->
  (forall m', message_of status step (msg_tail m) <> inr m') ->
  concat ds = msg_body m -> 0 < zlen (msg_body m) -> Forall (fun d => zlen d < 2 ^ 32) ds ->
  succeeds (@read_all _ (http_transport v fuel flush) (map zlen ds)) s (fun r s' => r = ds /\
    within fuel status step m s' []).
Proof using All.
  intros Hs Hf Hm Hend Hd Hpos Hds.
  assert (Hw : within fuel status step m s (concat ds ++ [])).
  { rewrite app_nil_r, Hd. by eapply idle_message. }
  apply (@read_all_ok _ (http_transport v fuel flush)
    (http_reads fuel v status step flush m Hend) s ds [] Hw Hds).
Qed.

(** Of a message with nothing behind it. *)
Lemma receives_all s wire i d last ds :
  idle s wire -> zlen wire < fuel -> message_of status step wire = inr (Message i d last []) ->
  concat ds = d -> 0 < zlen d -> Forall (fun d => zlen d < 2 ^ 32) ds ->
  succeeds (@read_all _ (http_transport v fuel flush) (map zlen ds)) s (fun r s' => r = ds /\
    forall n, 0 < n < 2 ^ 32 -> raises (HttpTransport.read v fuel n) s' (fun e _ => e = refill_failed)).
Proof using All.
  intros Hs Hf Hm Hd Hpos Hds. eapply runs_mono; [by apply (receives s wire _ ds Hs Hf Hm)|  |done].
  cbn beta. intros r s' [-> Hs']. split; [done|]. intros n Hn.
  eapply runs_mono; [by apply (read_behind fuel v status step _ s' n Hs' Hn)|done|].
  cbn beta. intros e s2 [He|He]; [done|]. by injection He as <-.
Qed.
End Shared.

(** C29. HTTP request: what is written to a client in any pieces goes to its
    transport on [flush] as one request under a header that tells its length, and
    nothing waits then; a server on any transport that keeps the stream contract,
    however the bytes arrive, gives the same bytes to reads of any sizes, in order
    and without the header, and then reports that there is no more. *)
Theorem http_request_round_trip (W R : Platform) (UW : @Unbounded W) (UR : @Unbounded R) (C : CLibrary)
    (BS : BoostStrings) {T1 T2 : Type} (X1 : TTransport T1) (X2 : TTransport T2) (L1 : WriteLaws T1) (F1 : FlushLaws T1)
    (L2 : ReadLaws T2) (E2 : EndLaws T2) (D2 : DuplexLaws T2) (host path : list Z) (now : tm)
    (c : THttpTransport T1) (s : THttpTransport T2) (ds ds2 : list (list Z))
    (out : list Z) (room troom fuel : Z) :
  let d := concat ds in
  let wire := Client.header host path (zlen d) ++ d in
  let client := @Client.transport C BS T1 X1 host path W fuel in
  let server := @Server.transport C T2 X2 now R fuel in
  address_ok host path = true -> valid_time now ->
  Forall (fun d => zlen d < 2 ^ 32) ds -> Forall (fun d => zlen d < 2 ^ 32) ds2 ->
  concat ds2 = d -> 0 < zlen d <= room -> zlen wire <= troom -> zlen wire < fuel ->
  outgoing (writeBuffer_ c) [] room -> outgoing (transport_ c) out troom -> idle s wire ->
  succeeds (@send _ client ds) c (fun _ c' =>
    outgoing (transport_ c') (out ++ wire) (troom - zlen wire) /\
    outgoing (writeBuffer_ c') [] (2 ^ 31)) /\
  succeeds (@read_all _ server (map zlen ds2)) s (fun r s' => r = ds2 /\
    forall n, 0 < n < 2 ^ 32 -> raises (@t_read _ server n) s' (fun e _ => e = refill_failed)).
Proof.
  intros d wire client server Ha Hn Hds Hds2 Hcat Hd Htr Hf Hw Ht Hs.
  pose proof (http_at_le _ _ (proj2 (proj1 (proj1 Hs)))) as Hmax. unfold max_input in Hmax.
  assert (Hdw : zlen d <= zlen wire) by (unfold wire; zlist). split.
  - apply (sends Client.client fuel (Client.flush host path) (fun t => outgoing t out troom) c ds room);
      [done|done|done|exact (proj2 Hd)|].
    intros c1 Hw1 Ht1. eapply runs_mono; [apply (client_flush_spec host path c1 d _ out troom Hw1 Ht1)| |done];
      [exact Htr|fold wire; lia|].
    cbn beta. intros _ c2 (Ht2 & Hw2 & _). by split.
  - assert (Hm : message_of server_status Server.header_step wire =
      inr (Message (HeaderInfo false (zlen d)) d false [])).
    { unfold wire. rewrite <- (app_nil_r (_ ++ d)), <- app_assoc. apply request_message; [done|lia]. }
    pose proof (@server_laws R UR C T2 X2 L2 E2 D2 now Hn) as VL.
    pose proof (receives_all (Server.server now) server_status Server.header_step fuel (Server.flush now) s wire) as Hr.
    specialize (Hr _ _ _ ds2 Hs Hf Hm Hcat (proj1 Hd) Hds2). exact Hr.
Qed.
Lemma http_request_round_trip_witness :
  let host := bytes_of "localhost" in
  let path := bytes_of "/api" in
  let wire := Client.header host path 3 ++ [7; 8; 9] in
  let client := @Client.transport saturating ascii_strings _ (@Duplex_transport x86_64) host path x86_64 1000 in
  let server := @Server.transport saturating _ (@Duplex_transport power) a_day power 1000 in
  succeeds (@send _ client [[7]; [8; 9]]) (http_over []) (fun _ c' =>
    sent (transport_ c') = wire /\
    @outgoing _ _ (@TMemoryBuffer_writes x86_64 x86_64_unbounded) (writeBuffer_ c') [] (2 ^ 31)) /\
  succeeds (@read_all _ server [2; 1]) (http_over wire) (fun r s' => r = [[7; 8]; [9]] /\
    forall n, 0 < n < 2 ^ 32 -> raises (@t_read _ server n) s' (fun e _ => e = refill_failed)).
Proof.
  apply (http_request_round_trip x86_64 power x86_64_unbounded power_unbounded saturating ascii_strings
    (@Duplex_transport x86_64) (@Duplex_transport power) (@Duplex_writes x86_64) (@Duplex_flush x86_64)
    (@Duplex_reads power) (@Duplex_end power) (@Duplex_duplex power)
    (bytes_of "localhost") (bytes_of "/api") a_day (http_over [])
    (http_over (Client.header (bytes_of "localhost") (bytes_of "/api") 3 ++ [7; 8; 9]))
    [[7]; [8; 9]] [[7; 8]; [9]] [] 3 1000 1000).
  - reflexivity.
  - exact a_day_valid.
  - repeat constructor.
  - repeat constructor.
  - reflexivity.
  - split; [reflexivity|discriminate].
  - vm_compute. discriminate.
  - vm_compute. reflexivity.
  - eapply less_room; [apply (@empty_buffer_outgoing x86_64 x86_64_unbounded); lia|lia].
  - reflexivity.
  - apply (@http_over_idle power power_unbounded). vm_compute. discriminate.
Defined.

(** C30. HTTP response: what is written to a server in any pieces goes to its
    transport on [flush] as one response, dated and with its length; a client gives
    the same bytes to reads of any sizes, after any number of "100 Continue"
    answers, and then reports that there is no more. *)
Theorem http_response_round_trip (W R : Platform) (UW : @Unbounded W) (UR : @Unbounded R) (C : CLibrary)
    (BS : BoostStrings) (BL : BoostLaws) {T1 T2 : Type} (X1 : TTransport T1) (X2 : TTransport T2)
    (L1 : WriteLaws T1) (F1 : FlushLaws T1) (L2 : ReadLaws T2) (E2 : EndLaws T2) (host path : list Z) (now : tm)
    (date : list Z) (s : THttpTransport T1) (c : THttpTransport T2) (ds ds2 : list (list Z)) (provisional : nat)
    (out : list Z) (room troom fuel : Z) :
  let d := concat ds in
  let wire := Server.header date (zlen d) ++ d in
  let stream := continues provisional ++ wire in
  let server := @Server.transport C T1 X1 now W fuel in
  let client := @Client.transport C BS T2 X2 host path R fuel in
  valid_time now -> Server.getTimeRFC1123 now = Some date ->
  Forall (fun d => zlen d < 2 ^ 32) ds -> Forall (fun d => zlen d < 2 ^ 32) ds2 ->
  concat ds2 = d -> 0 < zlen d <= room -> zlen wire <= troom -> zlen stream < fuel ->
  outgoing (writeBuffer_ s) [] room -> outgoing (transport_ s) out troom -> idle c stream ->
  succeeds (@send _ server ds) s (fun _ s' =>
    outgoing (transport_ s') (out ++ wire) (troom - zlen wire) /\
    outgoing (writeBuffer_ s') [] (2 ^ 31)) /\
  succeeds (@read_all _ client (map zlen ds2)) c (fun r c' => r = ds2 /\
    forall n, 0 < n < 2 ^ 32 -> raises (@t_read _ client n) c' (fun e _ => e = refill_failed)).
Proof.
  intros d wire stream server client Hn Hdate Hds Hds2 Hcat Hd Htr Hf Hw Ht Hc.
  pose proof (http_at_le _ _ (proj2 (proj1 (proj1 Hc)))) as Hmax. unfold max_input in Hmax.
  assert (Hdw : zlen d <= zlen wire) by (unfold wire; zlist).
  assert (Hws : zlen wire <= zlen stream) by (unfold stream; zlist). split.
  - apply (sends (Server.server now) fuel (Server.flush now) (fun t => outgoing t out troom) s ds room);
      [done|done|done|exact (proj2 Hd)|].
    intros s1 Hw1 Ht1. eapply runs_mono;
      [apply (server_flush_spec now s1 d _ out troom date Hdate Hw1 Ht1)| |done]; [exact Htr|fold wire; lia|].
    cbn beta. intros _ s2 (Ht2 & Hw2 & _). by split.
  - destruct (date_ok now Hn) as (date' & Hdate' & Hp & _). assert (date' = date) as -> by congruence.
    assert (Hm : message_of Client.status_line Client.header_step stream =
      inr (Message (HeaderInfo false (zlen d)) d false [])).
    { apply message_after_continues. unfold wire. rewrite <- (app_nil_r (_ ++ d)), <- app_assoc.
      apply response_message; [done|lia]. }
    pose proof (@client_laws R UR C T2 X2 L2 BS) as VL.
    pose proof (receives_all Client.client Client.status_line Client.header_step fuel (Client.flush host path) c stream) as Hr.
    specialize (Hr _ _ _ ds2 Hc Hf Hm Hcat (proj1 Hd) Hds2). exact Hr.
Qed.
Lemma http_response_round_trip_witness :
  let date := bytes_of "Thu, 1 Jan 2015 12:0:0 GMT" in
  let wire := Server.header date 3 ++ [7; 8; 9] in
  let server := @Server.transport saturating _ (@Duplex_transport power) a_day power 1000 in
  let client := @Client.transport saturating ascii_strings _ (@Duplex_transport x86_64) [] [] x86_64 1000 in
  succeeds (@send _ server [[7; 8; 9]]) (http_over []) (fun _ s' =>
    sent (transport_ s') = wire /\
    @outgoing _ _ (@TMemoryBuffer_writes power power_unbounded) (writeBuffer_ s') [] (2 ^ 31)) /\
  succeeds (@read_all _ client [1; 2]) (http_over (continues 2 ++ wire)) (fun r c' => r = [[7]; [8; 9]] /\
    forall n, 0 < n < 2 ^ 32 -> raises (@t_read _ client n) c' (fun e _ => e = refill_failed)).
Proof.
  apply (http_response_round_trip power x86_64 power_unbounded x86_64_unbounded saturating ascii_strings ascii_laws
    (@Duplex_transport power) (@Duplex_transport x86_64) (@Duplex_writes power) (@Duplex_flush power)
    (@Duplex_reads x86_64) (@Duplex_end x86_64) [] [] a_day (bytes_of "Thu, 1 Jan 2015 12:0:0 GMT") (http_over [])
    (http_over (continues 2 ++ Server.header (bytes_of "Thu, 1 Jan 2015 12:0:0 GMT") 3 ++ [7; 8; 9]))
    [[7; 8; 9]] [[7]; [8; 9]] 2 [] 3 1000 1000).
  - exact a_day_valid.
  - reflexivity.
  - repeat constructor.
  - repeat constructor.
  - reflexivity.
  - split; [reflexivity|discriminate].
  - vm_compute. discriminate.
  - vm_compute. reflexivity.
  - eapply less_room; [apply (@empty_buffer_outgoing power power_unbounded); lia|lia].
  - reflexivity.
  - apply (@http_over_idle x86_64 x86_64_unbounded). vm_compute. discriminate.
Defined.

(** ** Any input *)

(** C31. Of a connection with nothing buffered yet in the HTTP transport, on any bytes
    at all still to come (at most 2^30, in whatever pieces they arrive), a read of the
    client and a read of the server end without leaving their buffers, and what they
    answer depends on those bytes alone: the body of the message the reference parser
    finds (with what is left of it waiting, and the stream at what follows), or that
    parser's error. *)
Theorem http_reads_any_input (Pl : Platform) (U : Unbounded) (C : CLibrary) (BS : BoostStrings) {T : Type}
    (X : TTransport T) (L : ReadLaws T) (E : EndLaws T) (D : DuplexLaws T) (host path : list Z) (now : tm)
    (s : THttpTransport T) (bs : list Z) (n fuel : Z) :
  let gives (r : exn + message) (d : list Z) (s' : THttpTransport T) :=
    exists m, r = inr m /\ d = ztake n (msg_body m) /\
      ready s' (zdrop n (msg_body m)) (msg_tail m) (zlen (msg_tail m)) /\
      flags s' = (true, msg_info m, msg_done m) in
  idle s bs -> 0 < n < 2 ^ 32 -> zlen bs < fuel -> valid_time now ->
  (let r := message_of Client.status_line Client.header_step bs in
   runs (@t_read _ (Client.transport host path fuel) n) s (gives r) (fun e _ => r = inl e)) /\
  (let r := message_of server_status Server.header_step bs in
   runs (@t_read _ (Server.transport now fuel) n) s (gives r) (fun e _ => r = inl e)).
Proof.
  intros gives [Hs Hb] Hn Hf Hnow.
  assert (Hall : forall v status step (VL : VirtualLaws v status step),
    runs (HttpTransport.read v fuel n) s (gives (message_of status step bs))
      (fun e _ => message_of status step bs = inl e)).
  { intros v status step VL.
    eapply runs_mono; [by apply (read_http fuel v status step s [] bs 0 n)| |].
    - cbn beta. change (zlen (@nil Z) =? 0) with true. cbv iota. intros d s' (m & Hm & Hd & Hs' & _ & Hfl).
      by exists m.
    - cbn beta. intros e s' [_ [He|[-> He]]]; [done|]. by rewrite He, Hb. }
  split; apply Hall; [apply client_laws|by apply server_laws].
Qed.
Lemma http_reads_any_input_witness :
  let junk := bytes_of "GET / HTTP/1.0" ++ CRLF ++ [0; 255; 13] in
  let conn := http_over junk in
  runs (@t_read _ (@Server.transport saturating _ (@Duplex_transport x86_64) a_day x86_64 100) 5) conn
    (fun _ _ => False) (fun e _ => e = Server.unsupported_method (bytes_of "GET")).
Proof.
  intros junk conn. eapply runs_mono.
  - apply (http_reads_any_input x86_64 x86_64_unbounded saturating ascii_strings (@Duplex_transport x86_64)
      (@Duplex_reads x86_64) (@Duplex_end x86_64) (@Duplex_duplex x86_64) [] [] a_day conn junk 5 100).
    + apply (@http_over_idle x86_64 x86_64_unbounded). vm_compute. discriminate.
    + split; reflexivity.
    + vm_compute. reflexivity.
    + exact a_day_valid.
  - intros d s' (m & Hm & _). vm_compute in Hm. discriminate.
  - intros e s' He. vm_compute in He. injection He as <-. vm_compute. reflexivity.
Defined.

(** ** Chunked responses *)

(** The line behind the first chunk. *)
Definition next_line (cs : list (list Z * list Z)) : list Z :=
  match cs with [] => bytes_of "0" | c :: _ => c.1 end.

Lemma next_is_no_status `{CLibrary} `{BoostStrings} cs rest :
  Forall chunk_ok cs -> Forall (fun c => find_char 32 c.1 = None) cs ->
  message_of Client.status_line Client.header_step (chunks_text cs ++ rest) = inl (bad_status (next_line cs)).
Proof.
  intros Hcs Hb. destruct cs as [|[h d] cs].
  - unfold message_of. cbn [chunks_text]. rewrite <- !app_assoc. set (tail := CRLF ++ rest).
    change (length (bytes_of "0" ++ CRLF ++ tail)) with (S (S (S (length tail)))). cbn [headers_of].
    by rewrite cut_line_plain.
  - apply Forall_cons in Hcs as [Hc _]. apply Forall_cons in Hb as [Hb _]. cbn [chunks_text next_line].
    rewrite <- !app_assoc. by apply (no_status_line (h, d)).
Qed.

(** A chunked response: the first chunk is delivered to reads of any sizes, and
    [readEnd] then drains the message to the end of the stream's last chunk, so that
    the next message is met where it begins; but what the other chunks hold is left
    in the read buffer, where the next read finds it, and a reader that asks for
    more than the first chunk is thrown an error, the line of the next chunk having
    been taken for a status line. *)
Theorem http_chunked_response (Pl : Platform) (U : Unbounded) (C : CLibrary) (BS : BoostStrings) (BL : BoostLaws)
    {T : Type} (X : TTransport T) (L : ReadLaws T) (E : EndLaws T) (host path : list Z) (s : THttpTransport T)
    (c : list Z * list Z) (cs : list (list Z * list Z)) (rest : list Z) (ds : list (list Z)) (n fuel : Z) :
  let wire := crlf_lines chunked_lines ++ CRLF ++ chunks_text (c :: cs) ++ rest in
  let client := Client.transport host path fuel in
  Forall chunk_ok (c :: cs) -> Forall (fun c => find_char 32 c.1 = None) cs ->
  idle s wire -> zlen wire < fuel ->
  concat ds = c.2 -> Forall (fun d => zlen d < 2 ^ 32) ds -> zlen c.2 < n < 2 ^ 32 ->
  succeeds (let! r := @read_all _ client (map zlen ds) in
            let! k := @t_readEnd _ client in ret (r, k)) s
    (fun r s' => r = (ds, 0) /\ ready s' (concat (map snd cs)) rest 0) /\
  raises (@t_readAll _ client n) s (fun e _ =>
    no_more e \/ e = refill_failed \/ e = bad_status (next_line cs)).
Proof.
  intros wire client Hcs Hb Hs Hf Hd Hds Hn. apply Forall_cons in Hcs as [Hc Hcs].
  set (m := Message (HeaderInfo true 0) c.2 false (chunks_text cs ++ rest)).
  assert (Hm : message_of Client.status_line Client.header_step wire = inr m) by (by apply chunked_message).
  pose proof (next_is_no_status cs rest Hcs Hb) as Hnext.
  assert (Hend : forall m', message_of Client.status_line Client.header_step (msg_tail m) <> inr m').
  { cbn [m msg_tail]. rewrite Hnext. done. }
  pose proof (proj2 (proj2 Hc)) as Hpos. pose proof (@client_laws Pl U C T X L BS) as VL. split.
  - apply runs_bind. eapply runs_mono;
      [apply (receives Client.client Client.status_line Client.header_step fuel (Client.flush host path) s wire m ds
         Hs Hf Hm Hend Hd Hpos Hds)| |done].
    cbn beta. intros r s1 [-> [(Hr & Htl & Hfl)|[? _]]]; [|done]. injection Hfl as Hh1 Hc1 Hl1 Hd1.
    destruct Hr as (Hin & Hh & Hout). apply runs_bind.
    eapply runs_mono; [apply (readEnd_drains fuel s1 cs rest Hcs (conj Hin Hout) Hc1 Hd1 Htl)| |done].
    cbn beta. intros k s2 (-> & [Hin2 Hout2] & Hf2). wp. split; [done|]. split; [done|].
    split; [by injection Hf2 as -> _ _|]. eapply less_room; [exact Hout2|apply zlen_nonneg].
  - apply (readAll_short _ (within fuel Client.status_line Client.header_step m) s n c.2
      (fun e => no_more e \/ e = refill_failed \/ e = bad_status (next_line cs))).
    + by apply read_within.
    + intros s1 k Hs1 Hk. eapply runs_mono; [by apply (read_behind fuel Client.client _ _ m s1 k Hs1)|done|].
      cbn [m msg_tail]. rewrite Hnext. intros e s2 [->|[= ->]]; auto.
    + by left.
    + by apply (idle_message _ _ fuel s wire m).
    + lia.
    + lia.
Qed.

Lemma http_chunked_response_witness :
  let wire := crlf_lines chunked_lines ++ CRLF ++ bytes_of "1;x=y" ++ CRLF ++ [7] ++ CRLF ++
    bytes_of "2" ++ CRLF ++ [8; 9] ++ CRLF ++ bytes_of "0" ++ CRLF ++ CRLF ++ [5] in
  let client := @Client.transport saturating ascii_strings _ (@Duplex_transport x86_64) [] [] x86_64 1000 in
  succeeds (let! r := @read_all _ client [1] in let! k := @t_readEnd _ client in ret (r, k)) (http_over wire)
    (fun r s' => r = ([[7]], 0) /\
       @ready x86_64 x86_64_unbounded _ (@Duplex_transport x86_64) (@Duplex_reads x86_64) s' [8; 9] [5] 0) /\
  raises (@t_readAll _ client 3) (http_over wire) (fun e _ =>
    no_more e \/ e = refill_failed \/ e = bad_status (bytes_of "2")).
Proof.
  apply (http_chunked_response x86_64 x86_64_unbounded saturating ascii_strings ascii_laws
    (@Duplex_transport x86_64) (@Duplex_reads x86_64) (@Duplex_end x86_64) [] []
    (http_over (crlf_lines chunked_lines ++ CRLF ++
       chunks_text [(bytes_of "1;x=y", [7]); (bytes_of "2", [8; 9])] ++ [5]))
    (bytes_of "1;x=y", [7]) [(bytes_of "2", [8; 9])] [5] [[7]] 3 1000).
  - repeat constructor.
  - repeat constructor.
  - apply (@http_over_idle x86_64 x86_64_unbounded). vm_compute. discriminate.
  - vm_compute. reflexivity.
  - reflexivity.
  - repeat constructor.
  - split; reflexivity.
Defined.

(** C25. A call over HTTP: a message in the binary protocol (its header, then any
    well-formed arguments) written through a client and flushed is one request on
    the client's transport; a server's binary protocol, on another host and any
    transport that delivers that request, reads back the name, the type, the
    sequence id and the arguments. *)
Theorem binary_call_over_http (W R : Platform) (UW : @Unbounded W) (UR : @Unbounded R) (C : CLibrary)
    (BS : BoostStrings) {T1 T2 : Type} (X1 : TTransport T1) (X2 : TTransport T2) (L1 : WriteLaws T1) (F1 : FlushLaws T1)
    (L2 : ReadLaws T2) (E2 : EndLaws T2) (D2 : DuplexLaws T2) (host path name out : list Z) (now : tm) (lim : limits)
    (p : TBinaryProtocolT (THttpTransport T1)) (q : TBinaryProtocolT (THttpTransport T2)) (args : tval)
    (id room troom fuel vfuel : Z) (depth : nat) :
  let h := BinaryProtocol.e_message (strict_write_ p) name T_CALL id in
  let a := @enc binary_format args in
  let wire := Client.header host path (zlen (h ++ a)) ++ h ++ a in
  let client := @Client.transport C BS T1 X1 host path W fuel in
  let server := @Server.transport C T2 X2 now R fuel in
  address_ok host path = true -> valid_time now ->
  zlen name < 2 ^ 31 -> string_over lim (zlen name) = false -> in_s 32 id ->
  strict_write_ p = true \/ strict_read_ q = false ->
  wf lim args = true -> (vsize args <= depth)%nat -> Z.of_nat (vsize args) < vfuel ->
  zlen wire <= troom -> zlen wire < fuel -> zlen (h ++ a) <= room ->
  outgoing (writeBuffer_ (BinaryProtocol.trans_ p)) [] room ->
  outgoing (transport_ (BinaryProtocol.trans_ p)) out troom ->
  idle (BinaryProtocol.trans_ q) wire -> BinaryProtocol.limits_ q = lim ->
  string_buf_ok (BinaryProtocol.string_buf_ q) (BinaryProtocol.string_buf_size_ q) ->
  succeeds (do! @BinaryProtocol.writeMessageBegin W _ client name T_CALL id in
            @write_value _ (@TBinaryProtocol_protocol W _ client) args) p (fun _ p' =>
    succeeds (@t_flush _ client) (BinaryProtocol.trans_ p') (fun _ c' =>
      outgoing (transport_ c') (out ++ wire) (troom - zlen wire))) /\
  succeeds (let! m := @BinaryProtocol.readMessageBegin R _ server in
            let! v := @read_value _ (@TBinaryProtocol_protocol R _ server) depth vfuel (type_of args) in
            ret (m, v)) q (fun r _ => r = ((u32 (zlen h), (name, T_CALL, id)), (u32 (zlen a), args))).
Proof.
  intros h a wire client server Ha Hnow Hname Hover Hid Hmode Hwf Hdep Hvf Htr Hf Hroom Hw Ht Hq Hlim Hbuf.
  pose proof (http_at_le _ _ (proj2 (proj1 (proj1 Hq)))) as Hmax. unfold max_input in Hmax.
  pose proof (zlen_nonneg h) as Hh0. pose proof (zlen_nonneg a) as Ha0. assert (Hdw : zlen (h ++ a) <= zlen wire).
  { unfold wire. rewrite (zlen_app (Client.header _ _ _)). pose proof (zlen_nonneg (Client.header host path (zlen (h ++ a)))). lia. }
  rewrite zlen_app in Hroom. split.
  - set (LW := @http_writes W UW C T1 X1 Client.client fuel (Client.flush host path) (fun t => outgoing t out troom)).
    apply runs_bind. eapply runs_mono;
      [apply (@BinaryProtocol.writeMessageBegin_ok W _ client LW p [] [] room name T_CALL id Hname (conj Hw Ht)); fold h; lia| |done].
    cbn beta. intros k p1 [_ Hp1].
    eapply runs_mono;
      [apply (@write_value_enc _ _ binary_format (@TBinaryProtocol_writer W _ client LW) lim args Hwf 0 [] p1 _ _ Hp1); fold h a; lia| |done].
    cbn beta. intros k2 p2 [_ [Hp2 Hp3]]. cbn [app] in Hp2.
    eapply runs_mono; [apply (client_flush_spec host path _ (h ++ a) _ out troom Hp2 Hp3)| |done]; [exact Htr|fold wire; lia|].
    by cbn beta; intros _ c2 (Ht2 & _).
  - set (m := Message (HeaderInfo false (zlen (h ++ a))) (h ++ a) false []).
    assert (Hm : message_of server_status Server.header_step wire = inr m).
    { unfold wire. rewrite <- (app_nil_r (_ ++ h ++ a)), <- app_assoc. apply request_message; [done|lia]. }
    pose proof (@server_laws R UR C T2 X2 L2 E2 D2 now Hnow) as VL.
    assert (Hend : forall m', message_of server_status Server.header_step (msg_tail m) <> inr m') by done.
    set (LR := @http_reads R UR C T2 X2 L2 E2 fuel (Server.server now) server_status Server.header_step VL (Server.flush now) m Hend).
    assert (Hpos : 0 < zlen (h ++ a)).
    { unfold h, BinaryProtocol.e_message. destruct (strict_write_ p); zlist; rewrite !zlen_be_bytes; zlist. }
    assert (Hin : @bin_in _ server LR lim q [] (h ++ a)).
    { split; [|by split]. by apply (idle_message _ _ fuel _ wire m). }
    apply runs_bind. eapply runs_mono;
      [apply (@BinaryProtocol.readMessageBegin_ok R _ server UR LR lim q [] (strict_write_ p) name T_CALL id a); try done|  |done].
    + unfold header_type_ok, T_CALL. by destruct (strict_write_ p).
    + cbn beta. intros r q1 [-> Hq1]. apply runs_bind.
      pose proof (@read_value_enc _ _ binary_format lim (@TBinaryProtocol_reader R UR _ server LR lim)
        args depth vfuel 0 [] Hwf Hdep Hvf q1 []) as Hr. rewrite binary_canon, app_nil_r in Hr.
      eapply runs_mono; [by apply Hr| |done]. cbn beta. intros r2 q2 [-> _]. by wp.
Qed.
Lemma binary_call_over_http_witness :
  let wire := Client.header (bytes_of "localhost") (bytes_of "/") 119 ++
    BinaryProtocol.e_message true [112; 105] T_CALL 9 ++ @enc binary_format sample in
  let client := @Client.transport saturating ascii_strings _ (@Duplex_transport x86_64)
    (bytes_of "localhost") (bytes_of "/") x86_64 1000 in
  let server := @Server.transport saturating _ (@Duplex_transport power) a_day power 1000 in
  succeeds (do! @BinaryProtocol.writeMessageBegin x86_64 _ client [112; 105] T_CALL 9 in
            @write_value _ (@TBinaryProtocol_protocol x86_64 _ client) sample) (binary_over (http_over [])) (fun _ p' =>
    succeeds (@t_flush _ client) (BinaryProtocol.trans_ p') (fun _ c' => sent (transport_ c') = wire)) /\
  succeeds (let! m := @BinaryProtocol.readMessageBegin power _ server in
            let! v := @read_value _ (@TBinaryProtocol_protocol power _ server) 60 60 T_STRUCT in
            ret (m, v)) (binary_over (http_over wire)) (fun r _ => r = ((14, ([112; 105], T_CALL, 9)), (105, sample))).
Proof.
  apply (binary_call_over_http x86_64 power x86_64_unbounded power_unbounded saturating ascii_strings
    (@Duplex_transport x86_64) (@Duplex_transport power) (@Duplex_writes x86_64) (@Duplex_flush x86_64)
    (@Duplex_reads power) (@Duplex_end power) (@Duplex_duplex power)
    (bytes_of "localhost") (bytes_of "/") [112; 105] [] a_day (Limits 0 0) (binary_over (http_over []))
    (binary_over (http_over (Client.header (bytes_of "localhost") (bytes_of "/") 119 ++
       BinaryProtocol.e_message true [112; 105] T_CALL 9 ++ @enc binary_format sample)))
    sample 9 1000 1000 1000 60 60).
  - reflexivity.
  - exact a_day_valid.
  - reflexivity.
  - reflexivity.
  - unfold in_s. lia.
  - left. reflexivity.
  - reflexivity.
  - vm_compute. lia.
  - vm_compute. reflexivity.
  - vm_compute. discriminate.
  - vm_compute. reflexivity.
  - vm_compute. discriminate.
  - eapply less_room; [apply (@empty_buffer_outgoing x86_64 x86_64_unbounded); lia|lia].
  - reflexivity.
  - apply (@http_over_idle power power_unbounded). vm_compute. discriminate.
  - reflexivity.
  - exact I.
Defined.

(** A message that has already been buffered whole, because it came right
    behind the one before, is not delivered: both sides try to fill their buffer
    first, and report that they could not when nothing more comes. *)
Theorem http_buffered_message_stalls (Pl : Platform) (U : Unbounded) (C : CLibrary) (BS : BoostStrings) {T : Type}
    (X : TTransport T) (L : ReadLaws T) (E : EndLaws T) (host path : list Z) (now : tm)
    (s : THttpTransport T) (bs : list Z) (room n fuel : Z) :
  ready s [] bs room -> bs = buffered s ->
  raises (@t_read _ (Client.transport host path fuel) n) s (fun e _ => e = refill_failed) /\
  raises (@t_read _ (Server.transport now fuel) n) s (fun e _ => e = refill_failed).
Proof. intros Hs Hb. split; exact (read_stalls fuel _ s bs room n Hs Hb). Qed.
Lemma http_buffered_message_stalls_witness :
  let request := Client.header (bytes_of "localhost") (bytes_of "/") 2 ++ [7; 8] in
  let s := Http (Pair (buffer_of []) []) (empty_buffer 16) (empty_buffer 16) true false false 0 0
             (Some (request ++ zrep (1025 - zlen request) 0)) 0 (zlen request) 1024 in
  @message_of saturating server_status (@Server.header_step saturating) request =
    inr (Message (HeaderInfo false 2) [7; 8] false []) /\
  raises (@t_read _ (@Server.transport saturating _ (@Duplex_transport x86_64) a_day x86_64 1000) 2) s
    (fun e _ => e = refill_failed).
Proof.
  intros request s. split; [vm_compute; reflexivity|].
  apply (http_buffered_message_stalls x86_64 x86_64_unbounded saturating ascii_strings (@Duplex_transport x86_64)
    (@Duplex_reads x86_64) (@Duplex_end x86_64) [] [] a_day s request 0 2 1000).
  - split; [|split; [reflexivity|]].
    + split; [vm_compute; reflexivity|]. split; [|split; [apply empty_buffer_inv; lia|]].
      * eexists. split; [reflexivity|]. vm_compute. repeat split; discriminate || reflexivity.
      * exists []. split; [vm_compute; reflexivity|]. split; [|vm_compute; discriminate].
        apply (@buffer_of_incoming x86_64). reflexivity.
    + eapply less_room; [apply (@empty_buffer_outgoing x86_64 x86_64_unbounded); lia|lia].
  - vm_compute. reflexivity.
Defined.
