(* ===== verification/PipedTheorems.v ===== *)
(** * Theorems on the piped transport

    What the second transport is given, and where the code goes wrong. *)

From S2P Require Export PipedTransport Examples.

(** A piped transport gives exact reads the bytes of its source in order, and
    the [readEnd] behind a request that is no shorter than what is still to come
    gives the second transport exactly the bytes of that request, if told to pipe
    reads; what is written reaches the source's transport in order with the
    [flush], and the [writeEnd] before it gives the second transport the reply, if
    told to pipe writes. *)
Theorem piped_exchange_logged (Pl : Platform) (U : Unbounded) {T D : Type} (X : TTransport T) (Y : TTransport D)
    (LR : ReadLaws T) (E : EndLaws T) (RE : ReadEndLaws T) (LW : WriteLaws T) (F : FlushLaws T) (LD : WriteLaws D)
    (FD : FlushLaws D) (s w : TPipedTransport T D) (d : D) (request reply : list (list Z)) (rest out log : list Z)
    (r_pipe w_pipe : bool) (room log_room : Z) :
  let q := concat request in
  let a := concat reply in
  Forall (fun d => zlen d < 2 ^ 32) request -> Forall (fun d => zlen d < 2 ^ 32) reply ->
  pt_reads (d, Some r_pipe) s [] (q ++ rest) -> zlen rest <= zlen q ->
  outgoing d log log_room -> zlen q <= log_room -> zlen a <= log_room ->
  pt_outgoing w out room -> unflushed w = [] -> zlen a <= room ->
  pipeOnWrite_ w = Some w_pipe -> dstTrans_ w = d ->
  succeeds (let! r := read_all (map zlen request) in let! n := t_readEnd in ret (r, n)) s (fun r s' =>
    r = (request, zlen q) /\ pt_reads (dstTrans_ s', Some r_pipe) s' [] rest /\
    outgoing (dstTrans_ s') (log ++ (if r_pipe then q else [])) (log_room - (if r_pipe then zlen q else 0))) /\
  succeeds (do! write_all reply in let! n := t_writeEnd in do! t_flush in ret n) w (fun n w' =>
    n = zlen a /\ pt_outgoing w' (out ++ a) (room - zlen a) /\ unflushed w' = [] /\
    outgoing (srcTrans_ w') (out ++ a) (room - zlen a) /\
    outgoing (dstTrans_ w') (log ++ (if w_pipe then a else [])) (log_room - (if w_pipe then zlen a else 0))).
Proof.
  intros q a Hq Ha Hs Hrest Hd Hlq Hla Hw Hu Hroom Hp Hdst. split.
  - apply runs_bind. eapply runs_mono;
      [apply (read_all_ok (ReadLaws0 := TPipedTransport_reads (d, Some r_pipe) (q ++ rest)) s request rest); [|done]| |done].
    { exists []. by split. }
    cbn beta. intros r s1 [-> Hs1]. apply pt_incoming_delivered in Hs1 as [Hs1 Hall].
    apply app_inv_tail in Hall. rewrite Hall in Hs1. apply runs_bind.
    eapply runs_mono; [apply (readEnd_piped d s1 q rest r_pipe log log_room Hs1); [|done|done]| |done].
    { destruct Hs1 as (_ & _ & _ & _ & r' & -> & _). zlist. }
    cbn beta. intros n s2 (-> & Hs2 & Hout). by wp.
  - apply runs_bind. eapply runs_mono; [by apply (write_all_piped reply w out room Hw)| |done].
    cbn beta. intros _ w1 (Hw1 & Hu1 & Hd1 & Hp1). rewrite Hu in Hu1. cbn [app] in Hu1. fold a in Hu1, Hw1.
    rewrite <- Hdst, <- Hd1 in Hd. rewrite Hp in Hp1. apply runs_bind.
    eapply runs_mono; [apply (writeEnd_piped w1 _ _ w_pipe log log_room Hw1 Hp1 Hd); by rewrite Hu1| |done].
    cbn beta. rewrite Hu1. intros n w2 (-> & Hw2 & Hu2 & Hd2). apply runs_bind.
    eapply runs_mono; [apply (flush_piped w2 _ _ Hw2)| |done].
    cbn beta. intros _ w3 (Hw3 & Hu3 & Hs3 & Hd3). wp. rewrite Hd3. by split_and?.
Qed.
Lemma piped_exchange_logged_witness :
  succeeds (let! r := @read_all _ (@TPipedTransport_transport x86_64 _ _ (@TMemoryBuffer_transport x86_64)
                        (@TMemoryBuffer_transport x86_64)) (map zlen [[7; 8]; [9]]) in
            let! n := @t_readEnd _ (@TPipedTransport_transport x86_64 _ _ (@TMemoryBuffer_transport x86_64)
                        (@TMemoryBuffer_transport x86_64)) in ret (r, n))
    (piped_over (buffer_of [7; 8; 9; 1]) (empty_buffer 0) 2 true false) (fun r s' =>
      r = ([[7; 8]; [9]], 3) /\
      @outgoing _ _ (@TMemoryBuffer_writes x86_64 x86_64_unbounded) (dstTrans_ s') [7; 8; 9] (2 ^ 30 - 3)) /\
  succeeds (do! @write_all _ (@TPipedTransport_transport x86_64 _ _ (@TMemoryBuffer_transport x86_64)
                        (@TMemoryBuffer_transport x86_64)) [[4; 5]; [6]] in
            let! n := @t_writeEnd _ (@TPipedTransport_transport x86_64 _ _ (@TMemoryBuffer_transport x86_64)
                        (@TMemoryBuffer_transport x86_64)) in
            do! @t_flush _ (@TPipedTransport_transport x86_64 _ _ (@TMemoryBuffer_transport x86_64)
                        (@TMemoryBuffer_transport x86_64)) in ret n)
    (piped_over (empty_buffer 0) (empty_buffer 0) 2 true false) (fun n w' => n = 3 /\
      @outgoing _ _ (@TMemoryBuffer_writes x86_64 x86_64_unbounded) (srcTrans_ w') [4; 5; 6] (2 ^ 30 - 3)).
Proof.
  destruct (piped_exchange_logged x86_64 x86_64_unbounded
    (@TMemoryBuffer_transport x86_64) (@TMemoryBuffer_transport x86_64) (@TMemoryBuffer_reads x86_64)
    (@TMemoryBuffer_end x86_64) (@TMemoryBuffer_readEnd x86_64) (@TMemoryBuffer_writes x86_64 x86_64_unbounded)
    (@TMemoryBuffer_flush x86_64 x86_64_unbounded) (@TMemoryBuffer_writes x86_64 x86_64_unbounded)
    (@TMemoryBuffer_flush x86_64 x86_64_unbounded) (piped_over (buffer_of [7; 8; 9; 1]) (empty_buffer 0) 2 true false)
    (piped_over (empty_buffer 0) (empty_buffer 0) 2 true false) (empty_buffer 0) [[7; 8]; [9]] [[4; 5]; [6]] [1] [] []
    true false (2 ^ 30) (2 ^ 30)) as [Hr Hw].
  - repeat constructor.
  - repeat constructor.
  - apply (@piped_over_reads x86_64); [lia|reflexivity].
  - vm_compute. discriminate.
  - split; [apply empty_buffer_inv; lia|]. by split_and!.
  - vm_compute. discriminate.
  - vm_compute. discriminate.
  - apply (@piped_over_outgoing x86_64 x86_64_unbounded). lia.
  - reflexivity.
  - vm_compute. discriminate.
  - reflexivity.
  - reflexivity.
  - split.
    + eapply succeeds_mono; [exact Hr|]. intros r s' (Hn & _ & Ho). split; [exact Hn|exact Ho].
    + eapply succeeds_mono; [exact Hw|]. intros n w' (Hn & _ & _ & Ho & _). split; [exact Hn|exact Ho].
Defined.

(** Where the piped transport goes wrong.  A [readEnd] while more has been read
    ahead than the request was long copies between overlapping regions with
    [memcpy]; a transport constructed with a write buffer of size zero hangs in its
    first write, whatever the bound on its loop; and the constructor that takes a
    size leaves both flags without a value, which [readEnd] and [writeEnd] test. *)
Theorem piped_faults (Pl : Platform) (U : Unbounded) {T D : Type} (X : TTransport T) (Y : TTransport D)
    (LR : ReadLaws T) (RE : ReadEndLaws T) (s : TPipedTransport T D) (d : D) (dn bs : list Z)
    (src : T) (sz want fuel : Z) (b : Z) (buf : list Z) (u : unit) :
  pt_reads (d, Some false) s dn bs -> zlen dn < zlen (ahead s) -> 0 <= want ->
  (PipedTransport.readEnd s).1 = Crash UndefinedBehaviour /\
  (new_piped_size src d 0 u).1 = Ok (Piped src d (zrep 512 junk) 512 0 0 [] 0 0 None None) /\
  (PipedTransport.write (b :: buf) (Piped src d (zrep 512 junk) 512 0 0 [] 0 0 None None)).1 = OutOfFuel /\
  (iterate fuel (write_grow want) 0 s).1 = OutOfFuel /\
  exists s', (new_piped_size src d sz u).1 = Ok s' /\
    (PipedTransport.readEnd s').1 = Crash UndefinedBehaviour /\ (PipedTransport.writeEnd s').1 = Crash UndefinedBehaviour.
Proof.
  intros Hs Hlt Hw. assert (Hnew : forall n,
    (new_piped_size src d n u).1 = Ok (Piped src d (zrep 512 junk) 512 0 0 (zrep n junk) n 0 None None)).
  { intros n. unfold new_piped_size, new_bytes, bind. rewrite !always_alloc. done. }
  split_and?.
  - destruct Hs as (Hi & <- & [= _ Hb] & Hsz & rest & -> & Hin). pose proof Hi as (? & ? & ? & ? & _).
    rewrite zlen_delivered, zlen_ahead in * by done. pose proof (zlen_nonneg rest). rewrite zlen_app, zlen_ahead in Hsz by done.
    destruct (succeeds_run _ _ _ (readEnd_ok _ _ Hin)) as (k & t & Hr & _).
    assert (Hv : s32 (u32 (rLen_ s - rPos_ s)) = rLen_ s - rPos_ s) by (unwrap; done).
    unfold PipedTransport.readEnd, on_src, initialised, bind, gets, lift, require. cbn. rewrite Hb. cbn. rewrite Hr. cbn.
    rewrite Hv. replace (_ =? 0) with false by lia. by replace (_ <=? _) with false by lia.
  - by rewrite Hnew.
  - unfold PipedTransport.write. rewrite zlen_cons. pose proof (zlen_nonneg buf). replace (_ =? 0) with false by lia.
    unfold bind, Effects.get. cbn [PipedTransport.wBufSize_ wLen_].
    assert (Hu : 0 <= u32 (1 + zlen buf + 0)) by (by apply wrapu_range).
    replace (0 <=? _) with true by lia. change (u32 (0 * 2)) with 0. by rewrite write_grow_stuck.
  - by rewrite write_grow_stuck.
  - eexists. split; [apply Hnew|]. by split.
Qed.
Lemma piped_faults_witness :
  let s := Piped (buffer_of []) (empty_buffer 0) [7; 8; 9] 3 1 3 [0] 1 0 (Some false) (Some false) in
  (@PipedTransport.readEnd _ _ (@TMemoryBuffer_transport x86_64) (@TMemoryBuffer_transport x86_64) s).1 =
    Crash UndefinedBehaviour.
Proof.
  destruct (piped_faults x86_64 x86_64_unbounded (@TMemoryBuffer_transport x86_64)
    (@TMemoryBuffer_transport x86_64) (@TMemoryBuffer_reads x86_64) (@TMemoryBuffer_readEnd x86_64)
    (Piped (buffer_of []) (empty_buffer 0) [7; 8; 9] 3 1 3 [0] 1 0 (Some false) (Some false))
    (empty_buffer 0) [7] [8; 9] (buffer_of []) 4 1 1000 5 [] tt) as [Hr _].
  - split; [|split; [reflexivity|split; [reflexivity|split; [reflexivity|]]]].
    + vm_compute. repeat split; discriminate || reflexivity.
    + exists []. split; [reflexivity|]. apply (@buffer_of_incoming x86_64). reflexivity.
  - reflexivity.
  - lia.
  - exact Hr.
Defined.
