(* ===== verification/ProcessorTheorems.v ===== *)
(** * Theorems on decorated protocols and processors

    A call made through [TMultiplexedProtocol] finds the processor of its service;
    what [TProtocolTap] copies, what [StatsProcessor] counts and prints, and what
    [PeekProcessor] hands over. *)

From S2P Require Export Examples StatsProcessor PipedTransport.

(** ** Examples and helpers *)

(** A tokenizer. *)
Fixpoint split_colon (piece s : list Z) : list (list Z) :=
  match s with
  | [] => match piece with [] => [] | _ => [piece] end
  | ch :: s =>
      if ch =? chr ":"
      then match piece with [] => split_colon [] s | _ => piece :: split_colon [] s end
      else split_colon (piece ++ [ch]) s
  end.

Lemma split_colon_piece piece s : piece ++ s <> [] -> chr ":" ∉ s -> split_colon piece s = [piece ++ s].
Proof.
  revert piece. induction s as [|ch s IH]; intros piece Hp Hs; cbn [split_colon].
  - rewrite app_nil_r in *. by destruct piece.
  - apply not_elem_of_cons in Hs as [Hch Hs]. replace (ch =? chr ":") with false by lia.
    rewrite IH; [by rewrite <- app_assoc| |done]. by destruct piece.
Qed.

Lemma split_colon_app piece s t :
  split_colon piece (s ++ bytes_of ":" ++ t) = split_colon piece s ++ split_colon [] t.
Proof.
  revert piece. induction s as [|ch s IH]; intros piece; cbn [app split_colon].
  - change (chr ":" =? chr ":") with true. by destruct piece.
  - destruct (ch =? chr ":"); rewrite IH; by destruct piece.
Qed.

#[refine] Definition splitter : Tokenizer := {| tokens := split_colon [] |}.
Proof.
  - done.
  - intros s Hs Hc. by apply split_colon_piece.
  - intros s t. apply split_colon_app.
Defined.

Section Endpoints.
Context `{Platform} {T : Type} `{TTransport T} {W : Type}.
Context (proj : W -> TBinaryProtocolT T) (put : TBinaryProtocolT T -> W -> W).

(** The binary protocol over a transport, as a part of [W]. *)
Definition binary_endpoint : endpoint W :=
  Endpoint (lift_protocol proj put)
    (lift proj put (BinaryProtocol.under t_readEnd)) (lift proj put (BinaryProtocol.under t_writeEnd)) (lift proj put (BinaryProtocol.under t_flush)).
End Endpoints.

Lemma under_spec {T} (m : M T Z) (p : TBinaryProtocolT T) (Q : Z -> T -> Prop) E :
  runs m (BinaryProtocol.trans_ p) Q E -> runs (BinaryProtocol.under m) p (fun n q => exists t, q = BinaryProtocol.set_trans t p /\ Q n t)
    (fun e q => exists t, q = BinaryProtocol.set_trans t p /\ E e t).
Proof. intros Hm. apply runs_lift. eapply runs_mono; [exact Hm| |]; cbn; eauto. Qed.

Lemma then_throw {S A B D} (a : M S A) (b : M S B) s (Q : S -> Prop) e :
  succeeds (do! a in b) s (fun _ s' => Q s') ->
  raises (A := D) (do! a in do! b in throw e) s (fun e' s' => e' = e /\ Q s').
Proof.
  unfold succeeds, raises, runs, bind. destruct (a s) as [[x| | |] s1]; try done.
  by destruct (b s1) as [[y| | |] s2].
Qed.

(** ** Multiplexing *)

(** A call written through [TMultiplexedProtocol], binary, has the name
    [service:method] in its header and is otherwise what the protocol writes. *)
Definition multiplexed_name (service method : list Z) : list Z := service ++ separator ++ method.

Lemma multiplexed_tokens `{Tokenizer} service method :
  service <> [] -> method <> [] -> chr ":" ∉ service -> chr ":" ∉ method ->
  tokens (multiplexed_name service method) = [service; method].
Proof.
  intros. unfold multiplexed_name, separator. by rewrite tokens_colon, !tokens_piece.
Qed.

Lemma multiplexed_writes {P} (TP : TProtocol P) service name t id :
  @p_writeMessageBegin P (TMultiplexedProtocol TP service) name t id =
  if callable t then @p_writeMessageBegin P TP (multiplexed_name service name) t id
  else @p_writeMessageBegin P TP name t id.
Proof. done. Qed.

(** The header of a call read by the endpoint. *)
Section Header.
Context `{Platform} {T : Type} `{TTransport T} `{!Unbounded} `{!ReadLaws T} (lim : limits).
Context {W : Type} (proj : W -> TBinaryProtocolT T) (put : TBinaryProtocolT T -> W -> W).

Lemma endpoint_header (w : W) c strict name t id rest :
  zlen name < 2 ^ 31 -> string_over lim (zlen name) = false -> in_s 32 id -> header_type_ok strict t ->
  strict = true \/ strict_read_ (proj w) = false ->
  bin_in lim (proj w) c (BinaryProtocol.e_message strict name t id ++ rest) ->
  exists n q, bin_in lim q c rest /\
    ep_readMessageBegin (binary_endpoint proj put) w = (Ok (n, (name, t, id)), put q w).
Proof.
  intros Hn Ho Hid Ht Hm Hin.
  destruct (succeeds_run _ _ _ (BinaryProtocol.readMessageBegin_ok lim (proj w) c strict name t id rest Hn Ho Hid Ht Hm Hin))
    as (r & q & Hr & -> & Hq).
  eexists _, q. split; [exact Hq|].
  change (ep_readMessageBegin _ w) with (lift proj put BinaryProtocol.readMessageBegin w). unfold lift. by rewrite Hr.
Qed.
End Header.

(** C32. A multiplexed call: what a client writes through [TMultiplexedProtocol] over
    the binary protocol reaches, on the server, the processor registered last under
    its service's name, however many others are registered, and that processor's
    [dispatchCall] is given the method's own name, the sequence id, and the stream
    right behind the header. *)
Theorem multiplexed_call_routed (Tok : Tokenizer) (S R : Platform) (U : @Unbounded R) {T1 T2 : Type}
    (X1 : TTransport T1) (X2 : TTransport T2) (L1 : WriteLaws T1) (L2 : ReadLaws T2) {W C : Type}
    (proj : W -> TBinaryProtocolT T2) (put : TBinaryProtocolT T2 -> W -> W) (lim : limits)
    (p : TBinaryProtocolT T1) (w : W) (c d out_bytes rest : list Z) (room t id : Z) (service method : list Z)
    (this : TMultiplexedProcessor W C) (depth : nat) (fuel : Z) (out : endpoint W) (ctx : C)
    (dispatchCall : endpoint W -> endpoint W -> list Z -> Z -> C -> M W bool) :
  let e := BinaryProtocol.e_message (strict_write_ p) (multiplexed_name service method) t id in
  let inn := @binary_endpoint R T2 X2 W proj put in
  service <> [] -> method <> [] -> chr ":" ∉ service -> chr ":" ∉ method ->
  zlen (multiplexed_name service method) < 2 ^ 31 ->
  string_over lim (zlen (multiplexed_name service method)) = false ->
  t = T_CALL \/ t = T_ONEWAY -> in_s 32 id ->
  strict_write_ p = true \/ strict_read_ (proj w) = false ->
  bin_out p c out_bytes room -> zlen e <= room -> bin_in lim (proj w) d (e ++ rest) ->
  succeeds (@p_writeMessageBegin _ (TMultiplexedProtocol (@TBinaryProtocol_protocol S T1 X1) service) method t id) p
    (fun n p' => n = u32 (zlen e) /\ bin_out p' c (out_bytes ++ e) (room - zlen e)) /\
  exists q, bin_in lim q d rest /\
    process depth fuel (registerProcessor service (TDispatchProcessor dispatchCall) this) inn out ctx w =
    dispatchCall (stored inn method t id) out method id ctx (put q w).
Proof.
  intros e inn Hs Hm Hsc Hmc Hlen Hover Ht Hid Hmode Hp Hroom Hin.
  assert (callable t = true /\ header_type_ok (strict_write_ p) t) as [Hcall Hty].
  { by destruct Ht as [->| ->], (strict_write_ p). }
  split.
  - rewrite multiplexed_writes, Hcall. by apply (@BinaryProtocol.writeMessageBegin_ok S T1 X1 L1).
  - destruct (@endpoint_header R T2 X2 U L2 lim W proj put w d (strict_write_ p) _ t id rest Hlen Hover Hid Hty Hmode Hin)
      as (n & q & Hq & Hr). exists q. split; [exact Hq|].
    unfold process. rewrite (bind_run _ _ _ _ _ Hr). cbv beta iota. rewrite Hcall. cbn [negb].
    rewrite multiplexed_tokens by done. unfold find_service, registerProcessor. cbn [services]. rewrite lookup_insert_eq.
    unfold TDispatchProcessor. rewrite (bind_run _ _ _ (0, (method, t, id)) (put q w)) by done. by rewrite Hcall.
Qed.
Lemma multiplexed_call_routed_witness :
  let e := BinaryProtocol.e_message true (bytes_of "Calc:add") T_CALL 9 in
  let inn := @binary_endpoint power _ (@TMemoryBuffer_transport power) _ id (fun q _ => q) in
  let this := Multiplexed {[ bytes_of "Other" := fun _ _ _ => ret false ]} in
  succeeds (@p_writeMessageBegin _ (TMultiplexedProtocol
      (@TBinaryProtocol_protocol x86_64 _ (@TMemoryBuffer_transport x86_64)) (bytes_of "Calc")) (bytes_of "add") T_CALL 9)
    (binary_over (empty_buffer 16)) (fun n p' => n = 20 /\
      @bin_out _ _ (@TMemoryBuffer_writes x86_64 x86_64_unbounded) p' [] e (2 ^ 31 - 20)) /\
  exists q, @bin_in _ _ (@TMemoryBuffer_reads power) (Limits 0 0) q [] [7] /\
    @process splitter _ Z 9 9 (registerProcessor (bytes_of "Calc") (TDispatchProcessor (fun _ _ fname seqid ctx =>
       ret (bool_decide (fname = bytes_of "add") && (seqid =? 9) && (ctx =? 5))%bool)) this) inn inn 5
      (binary_over (buffer_of (e ++ [7]))) = (Ok true, q).
Proof.
  destruct (multiplexed_call_routed splitter x86_64 power power_unbounded _ _
    (@TMemoryBuffer_writes x86_64 x86_64_unbounded) (@TMemoryBuffer_reads power) id (fun q _ => q) (Limits 0 0)
    (binary_over (empty_buffer 16))
    (binary_over (buffer_of (BinaryProtocol.e_message true (bytes_of "Calc:add") T_CALL 9 ++ [7]))) [] [] [] [7]
    (2 ^ 31) T_CALL 9 (bytes_of "Calc") (bytes_of "add") (Multiplexed {[ bytes_of "Other" := fun _ _ _ => ret false ]})
    9 9 (@binary_endpoint power _ (@TMemoryBuffer_transport power) _ id (fun q _ => q)) 5
    (fun _ _ fname seqid ctx => ret (bool_decide (fname = bytes_of "add") && (seqid =? 9) && (ctx =? 5))%bool))
    as [Hw (q & Hq & Hp)].
  - discriminate.
  - discriminate.
  - refine (bool_decide_unpack _ _). vm_compute. exact I.
  - refine (bool_decide_unpack _ _). vm_compute. exact I.
  - reflexivity.
  - reflexivity.
  - left. reflexivity.
  - unfold in_s. lia.
  - left. reflexivity.
  - apply (@empty_buffer_outgoing x86_64 x86_64_unbounded). lia.
  - vm_compute. discriminate.
  - split; [|split; [reflexivity|exact I]]. apply (@buffer_of_incoming power). vm_compute. reflexivity.
  - split; [exact Hw|]. exists q. split; [exact Hq|exact Hp].
Defined.

(** What the processor does with a message it refuses. *)
Section Refusals.
Context `{Platform} {T1 T2 : Type} `{TTransport T1} `{TTransport T2}.
Abbreviation W := (TBinaryProtocolT T1 * TBinaryProtocolT T2)%type.

Definition inn : endpoint W := binary_endpoint fst (fun p s => (p, s.2)).
Definition out : endpoint W := binary_endpoint snd (fun q s => (s.1, q)).

Context `{!Unbounded} `{!ReadLaws T1} `{!ReadEndLaws T1} (lim : limits).

Lemma discard_call_ok depth fuel v c rest p q :
  type_of v = T_STRUCT -> wf lim v = true -> (vsize v <= depth)%nat -> Z.of_nat (vsize v) < fuel ->
  bin_in lim p c (@enc binary_format v ++ rest) ->
  succeeds (discard_call depth fuel inn) (p, q) (fun _ s' => exists p', s' = (p', q) /\ bin_in lim p' c rest).
Proof using All.
  intros Hv Hwf Hd Hf Hp. unfold discard_call. wp.
  pose (L := @lift_reader W _ fst (fun p s => (p, s.2)) _ (fun _ _ => eq_refl) (fun s => s.2 = q) (fun _ _ Hs => Hs)
               binary_format lim (@TBinaryProtocol_reader _ _ T1 _ _ lim)).
  pose proof (@skip_enc _ _ _ lim L v depth fuel 0 [] (p, q) rest Hwf Hd Hf (conj Hp eq_refl)) as Hs.
  rewrite Hv in Hs. eapply runs_mono; [exact Hs| |by intros e s' []].
  cbn beta. intros n [p1 q1] (_ & Hp1 & Hq). cbn in Hp1, Hq. subst q1. wp. unfold ep_readMessageEnd, inn, binary_endpoint.
  cbn. wp. destruct Hp1 as [Hin Hlim]. unfold BinaryProtocol.under. wp.
  eapply runs_mono; [apply (readEnd_ok _ _ Hin)| |done].
  cbn beta. intros k t Ht. wp. eexists. split; [done|]. by split.
Qed.

Context `{!WriteLaws T2} `{!FlushLaws T2} `{!WriteEndLaws T2}.

(** The answer that is an exception, on the wire. *)
Definition exception_reply (q : TBinaryProtocolT T2) (name : list Z) (id : Z) (x : TApplicationException) : list Z :=
  BinaryProtocol.e_message (strict_write_ q) name T_EXCEPTION id ++ @enc binary_format (as_value x).

Lemma answer_exception_ok name id x p q c o room :
  let e := exception_reply q name id x in
  zlen name < 2 ^ 31 -> zlen (message_ x) < 2 ^ 31 -> bytes_ok (message_ x) -> in_s 32 (type_ x) ->
  bin_out q c o room -> zlen e <= room ->
  succeeds (answer_exception out name id x) (p, q) (fun _ s' =>
    exists q', s' = (p, q') /\ bin_out q' c (o ++ e) (room - zlen e)).
Proof using All.
  intros e Hn Hm Hb Ht Hq Hr. unfold e, exception_reply in *. rewrite zlen_app in *.
  set (e1 := BinaryProtocol.e_message _ _ _ _) in *. set (e2 := enc _) in *.
  pose proof (zlen_nonneg e1). pose proof (zlen_nonneg e2).
  pose (L := @lift_writer W _ snd (fun q s => (s.1, q)) _ (fun _ _ => eq_refl) (fun s => s.1 = p) (fun _ _ Hs => Hs)
               binary_format (@TBinaryProtocol_writer _ T2 _ _)).
  unfold answer_exception. wp. unfold out at 1, binary_endpoint. cbn. wp.
  eapply runs_mono; [apply (BinaryProtocol.writeMessageBegin_ok q c o room name T_EXCEPTION id Hn Hq); fold e1; lia| |done].
  cbn beta. fold e1. intros n q1 [_ Hq1]. wp.
  eapply runs_mono; [apply (@write_enc _ _ _ L x 0 [] Hm Hb Ht (p, q1) (o ++ e1) (room - zlen e1) (conj Hq1 eq_refl)); fold e2; lia| |done].
  cbn beta. fold e2. intros k [p2 q2] (_ & Hq2 & Hp2). cbn in Hp2. subst p2. change (bin_out q2 c ((o ++ e1) ++ e2) (room - zlen e1 - zlen e2)) in Hq2.
  wp. unfold out, binary_endpoint, BinaryProtocol.under. cbn. wp.
  eapply runs_mono; [apply (writeEnd_ok _ _ _ Hq2)| |done]. cbn beta. intros k2 t2 Ht2. wp.
  eapply runs_mono; [apply (flush_ok _ _ _ Ht2)| |done]. cbn beta. intros k3 t3 Ht3.
  eexists. split; [done|]. unfold bin_out. cbn. by rewrite app_assoc, Z.sub_add_distr.
Qed.
End Refusals.

(** What the multiplexing processor refuses.  A message that is no call, and a
    call of a service nobody registered, are read to their end, answered by a
    TApplicationException of type PROTOCOL_ERROR under the name and sequence id
    that came, flushed, and then a TException is thrown. *)
Theorem multiplexed_refusals (Tok : Tokenizer) (Pl : Platform) (U : Unbounded) {T1 T2 : Type}
    (X1 : TTransport T1) (X2 : TTransport T2) (L1 : ReadLaws T1) (E1 : ReadEndLaws T1) (L2 : WriteLaws T2)
    (F2 : FlushLaws T2) (E2 : WriteEndLaws T2) {C : Type} (lim : limits)
    (p : TBinaryProtocolT T1) (q : TBinaryProtocolT T2) (c d sent rest name service method : list Z)
    (strict : bool) (room t id : Z) (v : tval) (this : TMultiplexedProcessor _ C) (depth : nat) (fuel : Z) (ctx : C) :
  let why := if callable t then unknown_service service else unexpected_type in
  let reply := exception_reply q name id (AppExn why PROTOCOL_ERROR) in
  (callable t = true ->
     tokens name = [service; method] /\ find_service this service = None /\ bytes_ok service /\ zlen service < 2 ^ 30) ->
  zlen name < 2 ^ 31 -> string_over lim (zlen name) = false -> in_s 32 id -> header_type_ok strict t ->
  strict = true \/ strict_read_ p = false ->
  type_of v = T_STRUCT -> wf lim v = true -> (vsize v <= depth)%nat -> Z.of_nat (vsize v) < fuel ->
  bin_in lim p c (BinaryProtocol.e_message strict name t id ++ @enc binary_format v ++ rest) ->
  bin_out q d sent room -> zlen reply <= room ->
  raises (process depth fuel this inn out ctx) (p, q) (fun e s' =>
    e = EThrift (text (if callable t then why ++ forgot_register else why)) /\
    bin_in lim s'.1 c rest /\ bin_out s'.2 d (sent ++ reply) (room - zlen reply)).
Proof.
  intros why reply Hcall Hn Ho Hid Ht Hm Hv Hwf Hd Hf Hin Hout Hroom.
  destruct (endpoint_header lim fst (fun p s => (p, s.2)) (p, q) c strict name t id _ Hn Ho Hid Ht Hm Hin)
    as (n & p1 & Hp1 & Hr). change (binary_endpoint _ _) with (@inn _ T1 T2 _) in Hr. cbn [snd] in Hr.
  assert (zlen why < 2 ^ 31 /\ bytes_ok why) as [Hw Hb].
  { unfold why, unknown_service, unexpected_type. destruct (callable t); [|split; [reflexivity|repeat constructor; done]].
    destruct (Hcall eq_refl) as (_ & _ & Hb & Hl). rewrite zlen_app.
    split; [change (zlen (bytes_of "TMultiplexedProcessor: Unknown service: ")) with 40; lia|].
    apply Forall_app. split; [repeat constructor; done|done]. }
  assert (succeeds (do! discard_call depth fuel inn in answer_exception out name id (AppExn why PROTOCOL_ERROR)) (p1, q)
    (fun _ s' => bin_in lim s'.1 c rest /\ bin_out s'.2 d (sent ++ reply) (room - zlen reply))) as Hs.
  { apply runs_bind. eapply runs_mono; [by apply (discard_call_ok lim depth fuel v c rest p1 q)| |done].
    cbn beta. intros _ s1 (p2 & -> & Hp2).
    eapply runs_mono; [apply (answer_exception_ok lim name id (AppExn why PROTOCOL_ERROR) p2 q d sent room); try done| |done].
    cbn beta. intros _ s2 (q2 & -> & Hq2). done. }
  unfold raises, process. unfold runs. rewrite (bind_run _ _ _ _ _ Hr). cbv beta iota.
  destruct (callable t) eqn:Hc; cbn [negb]; [|exact (then_throw _ _ _ _ _ Hs)].
  destruct (Hcall eq_refl) as (Htok & Hnone & _). rewrite Htok. cbv beta iota.
  rewrite Hnone.
  exact (then_throw _ _ _ _ _ Hs).
Qed.
Lemma multiplexed_refusals_witness :
  let m := BinaryProtocol.e_message true (bytes_of "Calc:add") T_CALL 9 ++ @enc binary_format sample ++ [7] in
  let q := binary_over (empty_buffer 16) in
  let reply := exception_reply q (bytes_of "Calc:add") 9 (AppExn (unknown_service (bytes_of "Calc")) PROTOCOL_ERROR) in
  raises (@process splitter _ Z 60 60 (Multiplexed {[ bytes_of "Other" := fun _ _ _ => ret true ]})
      (@inn x86_64 _ _ (@TMemoryBuffer_transport x86_64)) (@out x86_64 _ _ (@TMemoryBuffer_transport x86_64)) 5)
    (binary_over (buffer_of m), q) (fun e s' =>
      e = EThrift "TMultiplexedProcessor: Unknown service: Calc. Did you forget to call registerProcessor()?" /\
      @bin_in _ _ (@TMemoryBuffer_reads x86_64) (Limits 0 0) s'.1 [] [7] /\
      @bin_out _ _ (@TMemoryBuffer_writes x86_64 x86_64_unbounded) s'.2 [] reply (2 ^ 31 - 79)).
Proof.
  apply (multiplexed_refusals splitter x86_64 x86_64_unbounded (@TMemoryBuffer_transport x86_64)
    (@TMemoryBuffer_transport x86_64) (@TMemoryBuffer_reads x86_64) (@TMemoryBuffer_readEnd x86_64)
    (@TMemoryBuffer_writes x86_64 x86_64_unbounded) (@TMemoryBuffer_flush x86_64 x86_64_unbounded)
    (@TMemoryBuffer_writeEnd x86_64 x86_64_unbounded) (Limits 0 0)
    (binary_over (buffer_of (BinaryProtocol.e_message true (bytes_of "Calc:add") T_CALL 9 ++ @enc binary_format sample ++ [7])))
    (binary_over (empty_buffer 16)) [] [] [] [7] (bytes_of "Calc:add") (bytes_of "Calc") (bytes_of "add") true
    (2 ^ 31) T_CALL 9 sample (Multiplexed {[ bytes_of "Other" := fun _ _ _ => ret true ]}) 60 60 5).
  - intros _. split; [reflexivity|]. split; [reflexivity|]. split; [repeat constructor; done|reflexivity].
  - reflexivity.
  - reflexivity.
  - unfold in_s. lia.
  - unfold header_type_ok, in_u. cbn. unfold T_CALL. lia.
  - left. reflexivity.
  - reflexivity.
  - reflexivity.
  - vm_compute. lia.
  - vm_compute. reflexivity.
  - split; [|split; [reflexivity|exact I]]. apply (@buffer_of_incoming x86_64). vm_compute. reflexivity.
  - apply (@empty_buffer_outgoing x86_64 x86_64_unbounded). lia.
  - vm_compute. discriminate.
Defined.

(** A call whose name is not two names around one colon, such as any call that
    does not go through [TMultiplexedProtocol] or a service name that has a colon
    itself, is left where it is: [process] answers false, and neither answers the
    client nor reads the arguments nor throws. *)
Theorem multiplexed_unroutable (Tok : Tokenizer) (Pl : Platform) (U : Unbounded) {T : Type} (X : TTransport T)
    (L : ReadLaws T) {W C : Type} (proj : W -> TBinaryProtocolT T) (put : TBinaryProtocolT T -> W -> W) (lim : limits)
    (w : W) (c rest name : list Z) (strict : bool) (t id : Z) (this : TMultiplexedProcessor W C)
    (depth : nat) (fuel : Z) (out : endpoint W) (ctx : C) :
  callable t = true -> zlen name < 2 ^ 31 -> string_over lim (zlen name) = false -> in_s 32 id ->
  header_type_ok strict t -> strict = true \/ strict_read_ (proj w) = false ->
  (name <> [] /\ chr ":" ∉ name) \/
  (exists a b c, name = a ++ bytes_of ":" ++ b ++ bytes_of ":" ++ c /\
     a <> [] /\ b <> [] /\ c <> [] /\ chr ":" ∉ a /\ chr ":" ∉ b /\ chr ":" ∉ c) ->
  bin_in lim (proj w) c (BinaryProtocol.e_message strict name t id ++ rest) ->
  exists q, bin_in lim q c rest /\
    process depth fuel this (binary_endpoint proj put) out ctx w = (Ok false, put q w).
Proof.
  intros Hc Hn Ho Hid Ht Hm Hname Hin.
  destruct (endpoint_header lim proj put w c strict name t id rest Hn Ho Hid Ht Hm Hin) as (n & q & Hq & Hr).
  exists q. split; [exact Hq|]. unfold process. rewrite (bind_run _ _ _ _ _ Hr). cbv beta iota. rewrite Hc. cbn [negb].
  destruct Hname as [[Hne Hcol]|(x & y & z & -> & ? & ? & ? & ? & ? & ?)].
  - by rewrite tokens_piece.
  - by rewrite !tokens_colon, !tokens_piece.
Qed.
Lemma multiplexed_unroutable_witness :
  let m := BinaryProtocol.e_message true (bytes_of "a:b:c") T_CALL 9 ++ [7] in
  let inn := @binary_endpoint x86_64 _ (@TMemoryBuffer_transport x86_64) _ id (fun q _ => q) in
  exists q, @bin_in _ _ (@TMemoryBuffer_reads x86_64) (Limits 0 0) q [] [7] /\
    @process splitter _ Z 9 9 (Multiplexed ∅) inn inn 5 (binary_over (buffer_of m)) = (Ok false, q).
Proof.
  apply (multiplexed_unroutable splitter x86_64 x86_64_unbounded _ (@TMemoryBuffer_reads x86_64) id (fun q _ => q)
    (Limits 0 0) (binary_over (buffer_of (BinaryProtocol.e_message true (bytes_of "a:b:c") T_CALL 9 ++ [7])))
    [] [7] (bytes_of "a:b:c") true T_CALL 9 (Multiplexed ∅) 9 9
    (@binary_endpoint x86_64 _ (@TMemoryBuffer_transport x86_64) _ id (fun q _ => q)) 5).
  - reflexivity.
  - reflexivity.
  - reflexivity.
  - unfold in_s. lia.
  - unfold header_type_ok, in_u. cbn. unfold T_CALL. lia.
  - left. reflexivity.
  - right. exists (bytes_of "a"), (bytes_of "b"), (bytes_of "c").
    split; [reflexivity|]. repeat split; try discriminate; refine (bool_decide_unpack _ _); vm_compute; exact I.
  - split; [|split; [reflexivity|exact I]]. apply (@buffer_of_incoming x86_64). vm_compute. reflexivity.
Defined.

(** ** Tapping *)

(** C33. A tap: whatever well-formed value is read through [TProtocolTap], whoever
    wrote it, comes back with the source's byte count as it would without the tap,
    the source is left right behind it, and the sink has been written the same
    value in its own protocol, of any depth and with any mixture of types. *)
Theorem tap_copies_value {P Q : Type} (TP : TProtocol P) (TQ : TProtocol Q) (F G : WireFormat) (lim lim' : limits)
    (R : @ReaderLaws P TP F lim) (Wr : @WriterLaws Q TQ G) (v : tval) (depth : nat) (fuel l k room : Z) (c d out rest : list Z)
    (p : P) (q : Q) :
  let e := @enc G (@canon F v) in
  (forall p n name p', @p_readStructBegin P TP p = (Ok (n, name), p') -> name = []) ->
  wf lim v = true -> wf lim' (@canon F v) = true -> (vsize v <= depth)%nat -> Z.of_nat (vsize v) < fuel ->
  r_state p (l :: c) (@enc F v ++ rest) -> w_state q (k :: d) out room -> zlen e <= room ->
  succeeds (@read_value _ (TProtocolTap.protocol TP TQ) depth fuel (type_of v)) (p, q) (fun r s' =>
    r = (u32 (zlen (@enc F v)), @canon F v) /\ r_state s'.1 (l :: c) rest /\
    w_state s'.2 (k :: d) (out ++ e) (room - zlen e)).
Proof.
  intros e Hnames Hwf Hwf' Hd Hf Hp Hq Hr.
  destruct (succeeds_run _ _ _ (@read_value_enc P TP F lim R v depth fuel l c Hwf Hd Hf p rest Hp)) as (r & p1 & Hrun & -> & Hp1).
  destruct (succeeds_run _ _ _ (@write_value_enc Q TQ G Wr lim' (@canon F v) Hwf' k d q out room Hq Hr)) as (m & q1 & Hwr & _ & Hq1).
  destruct (mirror_value TP TQ Hnames depth fuel _ _ _ _ _ Hrun) as [_ Htap].
  specialize (Htap _ _ _ Hwr). unfold tap in Htap. unfold succeeds, runs. by rewrite Htap.
Qed.
Lemma tap_copies_value_witness :
  let source := @TBinaryProtocol_protocol power _ (@TMemoryBuffer_transport power) in
  let sink := @TCompactProtocol_protocol x86_64 _ (@TMemoryBuffer_transport x86_64) in
  let e := @enc binary_format sample in
  succeeds (@read_value _ (TProtocolTap.protocol source sink) 60 60 T_STRUCT)
    (binary_over (buffer_of (e ++ [7])), compact_over (empty_buffer 16)) (fun r s' =>
      r = (105, sample) /\ @bin_in _ _ (@TMemoryBuffer_reads power) (Limits 0 0) s'.1 [0] [7] /\
      @comp_out _ _ (@TMemoryBuffer_writes x86_64 x86_64_unbounded) s'.2 [0] (@enc compact_format sample) (2 ^ 31 - 44)).
Proof.
  apply (tap_copies_value (@TBinaryProtocol_protocol power _ (@TMemoryBuffer_transport power))
    (@TCompactProtocol_protocol x86_64 _ (@TMemoryBuffer_transport x86_64)) binary_format compact_format
    (Limits 0 0) (Limits 0 0)
    (@TBinaryProtocol_reader power power_unbounded _ _ (@TMemoryBuffer_reads power) (Limits 0 0))
    (@TCompactProtocol_writer x86_64 _ _ (@TMemoryBuffer_writes x86_64 x86_64_unbounded))
    sample 60 60 0 0 (2 ^ 31) [] [] [] [7] (binary_over (buffer_of (@enc binary_format sample ++ [7]))) (compact_over (empty_buffer 16))).
  - intros p n name p' [= _ <- _]. reflexivity.
  - reflexivity.
  - reflexivity.
  - vm_compute. lia.
  - vm_compute. reflexivity.
  - split; [|split; [reflexivity|exact I]]. apply (@buffer_of_incoming power). vm_compute. reflexivity.
  - split; [reflexivity|]. split; [|split; reflexivity].
    apply (@empty_buffer_outgoing x86_64 x86_64_unbounded). lia.
  - vm_compute. discriminate.
Defined.

(** ** Statistics *)

(** [StatsProcessor] over the binary protocol: of a call it counts the name,
    prints the name and the text of every argument ([show], nested containers
    included), and has read exactly the message; anything but a T_CALL, one-way
    calls included, is refused after its header. *)
Theorem stats_counts_and_prints (Pl : Platform) (U : Unbounded) {T : Type} (X : TTransport T) (L : ReadLaws T)
    (lim : limits) (p : TBinaryProtocolT T) (c rest name o : list Z) (strict : bool) (t id : Z)
    (fs : list (Z * tval)) (m : gmap (list Z) Z) (depth : nat) (fuel : Z) :
  let args := concat (map (fun f => show f.2 ++ bytes_of ", ") fs) in
  zlen name < 2 ^ 31 -> string_over lim (zlen name) = false -> in_s 32 id -> header_type_ok strict t ->
  strict = true \/ strict_read_ p = false ->
  wf lim (VStruct fs) = true -> (vsize (VStruct fs) <= depth)%nat -> Z.of_nat (vsize (VStruct fs)) < fuel ->
  bin_in lim p c (BinaryProtocol.e_message strict name t id ++ @enc binary_format (VStruct fs) ++ rest) ->
  runs (stats_process true true depth fuel) (p, Stats m o)
    (fun r s' => t = T_CALL /\ r = true /\ bin_in lim s'.1 c rest /\
       s'.2 = Stats (count_call name m) (o ++ percent_s name ++ bytes_of " (" ++ args ++ [8; 8] ++ bytes_of ")" ++ [10]))
    (fun e s' => t <> T_CALL /\ e = EThrift "Unexpected message type" /\
       bin_in lim s'.1 c (@enc binary_format (VStruct fs) ++ rest) /\
       s'.2 = Stats m (o ++ bytes_of "Unknown message type" ++ [10])).
Proof.
  intros args Hn Ho Hid Ht Hm Hwf Hd Hf Hp. unfold stats_process, piprot_. wp.
  eapply runs_mono; [apply (BinaryProtocol.readMessageBegin_ok lim p c strict name t id _ Hn Ho Hid Ht Hm Hp)| |by intros e s' []].
  cbn beta. intros r p1 [-> Hp1]. wp. destruct (t =? T_CALL) eqn:Hc; breflect; cbn [negb]; unfold printf; wp; [|by split_and!].
  cbn [wf vsize] in *. change (@enc binary_format (VStruct fs)) with (@enc_fields binary_format (@enc binary_format) 0 fs ++ @e_stop binary_format) in Hp1.
  rewrite <- app_assoc in Hp1.
  eapply runs_mono; [apply (print_args TBinaryProtocol_protocol binary_format lim (TBinaryProtocol_reader lim) (fun _ => eq_refl)
    depth fuel [] fs p1 0 rest (count_call name m) _ zero_in_s16 Hwf); [lia|lia|exact Hp1]| |by intros e s' []].
  cbn beta. intros _ [p2 st2] [Hp2 Hst]. cbn in Hst. subst st2. wp. split_and!; [done|done|exact Hp2|].
  assert (map (show_arg binary_format) fs = map (fun f => show f.2 ++ bytes_of ", ") fs) as ->.
  { apply map_ext. intros f. unfold show_arg. by rewrite binary_canon. }
  cbn [fst snd stdout frequency_map_]. rewrite <- !app_assoc. reflexivity.
Qed.
Lemma stats_counts_and_prints_witness :
  let m := BinaryProtocol.e_message true (bytes_of "add") T_CALL 9 ++
    @enc binary_format (VStruct [(1, VI32 7); (2, VList T_BOOL [VBool true; VBool false])]) ++ [5] in
  runs (@stats_process _ (@TBinaryProtocol_protocol x86_64 _ (@TMemoryBuffer_transport x86_64)) true true 20 20)
    (binary_over (buffer_of m), Stats {[ bytes_of "add" := 4 ]} [])
    (fun r s' => r = true /\ @bin_in _ _ (@TMemoryBuffer_reads x86_64) (Limits 0 0) s'.1 [] [5] /\
       s'.2 = Stats {[ bytes_of "add" := 5 ]} (bytes_of "add (7, [1,0," ++ [8] ++ bytes_of "], " ++ [8; 8] ++ bytes_of ")" ++ [10]))
    (fun e s' => False).
Proof.
  eapply runs_mono; [apply (stats_counts_and_prints x86_64 x86_64_unbounded (@TMemoryBuffer_transport x86_64)
    (@TMemoryBuffer_reads x86_64) (Limits 0 0) (binary_over (buffer_of (BinaryProtocol.e_message true (bytes_of "add") T_CALL 9 ++
    @enc binary_format (VStruct [(1, VI32 7); (2, VList T_BOOL [VBool true; VBool false])]) ++ [5])))
    [] [5] (bytes_of "add") [] true T_CALL 9 [(1, VI32 7); (2, VList T_BOOL [VBool true; VBool false])]
    {[ bytes_of "add" := 4 ]} 20 20)| |].
  - reflexivity.
  - reflexivity.
  - unfold in_s. lia.
  - unfold header_type_ok, in_u. cbn. unfold T_CALL. lia.
  - left. reflexivity.
  - reflexivity.
  - vm_compute. lia.
  - vm_compute. reflexivity.
  - split; [|split; [reflexivity|exact I]]. apply (@buffer_of_incoming x86_64). vm_compute. reflexivity.
  - intros r s' (_ & Hr & Hs & ->). split; [exact Hr|]. split; [exact Hs|]. vm_compute. reflexivity.
  - intros e s' [Ht _]. apply Ht. reflexivity.
Defined.

(** ** Peeking *)

(** The objects of a [PeekProcessor]: the protocol it reads, over a piped transport
    whose target is its memory buffer, and the settings of [pipedProtocol_], whose
    transport is that buffer; [O] is the rest of the world. *)
Section Peeking.
Context `{Platform} {T O : Type} `{TTransport T}.
Abbreviation Pt := (TPipedTransport T TMemoryBuffer).
Abbreviation W := (TBinaryProtocolT Pt * TBinaryProtocolT unit * O)%type.

Definition set_peeked (p : TBinaryProtocolT Pt) (w : W) : W := (p, w.1.2, w.2).
Definition memory (w : W) : TMemoryBuffer := dstTrans_ (BinaryProtocol.trans_ w.1.1).
Definition set_memory (b : TMemoryBuffer) (w : W) : W :=
  set_peeked (BinaryProtocol.set_trans (set_dst b (BinaryProtocol.trans_ w.1.1)) w.1.1) w.

(** [*pipedProtocol_]. *)
Definition piped_protocol (w : W) : TBinaryProtocolT TMemoryBuffer :=
  let s := w.1.2 in
  BinProt (memory w) (BinaryProtocol.limits_ s) (strict_read_ s) (strict_write_ s)
    (BinaryProtocol.string_buf_ s) (BinaryProtocol.string_buf_size_ s).
Definition set_piped_protocol (p : TBinaryProtocolT TMemoryBuffer) (w : W) : W :=
  let w := set_memory (BinaryProtocol.trans_ p) w in
  (w.1.1, BinProt tt (BinaryProtocol.limits_ p) (strict_read_ p) (strict_write_ p)
            (BinaryProtocol.string_buf_ p) (BinaryProtocol.string_buf_size_ p), w.2).

Definition peeked_in : endpoint W := binary_endpoint (fun w => w.1.1) set_peeked.
Definition pipedProtocol_ : endpoint W := binary_endpoint piped_protocol set_piped_protocol.
End Peeking.

(** The [readEnd] of the piped transport hands the request over, and the buffer holds it. *)
Lemma peeked_readEnd `{Platform} `{!Unbounded} {T O : Type} `{TTransport T} `{!ReadLaws T} `{!EndLaws T} `{!ReadEndLaws T}
    (p : TBinaryProtocolT (TPipedTransport T TMemoryBuffer)) (st : TBinaryProtocolT unit) (o : O) b request rest room :
  pt_reads (b, Some true) (BinaryProtocol.trans_ p) request rest -> zlen rest <= zlen request ->
  outgoing b [] room -> zlen request <= room ->
  exists n k t, let p' := BinaryProtocol.set_trans t p in
    ep_readEnd peeked_in (p, st, o) = (Ok n, (p', st, o)) /\
    lift memory set_memory getBuffer (p', st, o) = (Ok k, (p', st, o)) /\ k = request /\
    pt_reads (dstTrans_ t, Some true) t [] rest /\ incoming (dstTrans_ t) request.
Proof.
  intros Hp Hle Hb Hroom.
  destruct (succeeds_run _ _ _ (readEnd_piped b (BinaryProtocol.trans_ p) request rest true [] room Hp
    ltac:(destruct Hp as (_ & _ & _ & _ & r & -> & _); pose proof (zlen_nonneg r); rewrite zlen_app in Hle; lia) Hb Hroom))
    as (n & t & Hr & -> & Ht & Ho).
  destruct Ho as (Hi & Hc & _). destruct (succeeds_run _ _ _ (getBuffer_spec _ Hi)) as (k & w & Hg & -> & ->).
  eexists _, _, t. cbn zeta. split; [|split; [|split; [exact Hc|split; [done|by split]]]].
  - change (ep_readEnd peeked_in) with (lift (fun w : TBinaryProtocolT (TPipedTransport T TMemoryBuffer) * TBinaryProtocolT unit * O => w.1.1) set_peeked
      (BinaryProtocol.under (PipedTransport.readEnd (T := T) (D := TMemoryBuffer)))). unfold lift, BinaryProtocol.under, lift. cbn [fst snd]. by rewrite Hr.
  - unfold lift. cbn [fst snd memory]. change (memory _) with (dstTrans_ t). rewrite Hg. by destruct t.
Qed.

(** C34. [PeekProcessor] with its own virtual members, over the binary protocol and a
    piped transport: of a well-formed request within the limits, with no more bytes
    waiting behind it than it is long itself, the actual processor is handed exactly the
    request's bytes, header included, through [pipedProtocol_], once they have all been
    read off the source, which stands right behind them; and the buffer is emptied when
    it returns.  (With more read ahead than the request is long, the [readEnd] of the
    piped transport copies between overlapping regions: [piped_faults].) *)
Theorem peek_hands_over (Pl : Platform) (U : Unbounded) {T O C : Type} (X : TTransport T) (L : ReadLaws T)
    (E : EndLaws T) (RE : ReadEndLaws T) (lim lim' : limits) (p : TBinaryProtocolT (TPipedTransport T TMemoryBuffer))
    (st : TBinaryProtocolT unit) (o : O) (rest name : list Z) (strict : bool) (id room : Z) (fs : list (Z * tval))
    (depth : nat) (fuel : Z) (actual : TProcessor _ C) (out : endpoint _) (ctx : C) :
  let request := BinaryProtocol.e_message strict name T_CALL id ++ @enc binary_format (VStruct fs) in
  let b := dstTrans_ (BinaryProtocol.trans_ p) in
  zlen name < 2 ^ 31 -> string_over lim (zlen name) = false -> in_s 32 id ->
  strict = true \/ strict_read_ p = false ->
  wf lim (VStruct fs) = true -> (vsize (VStruct fs) <= depth)%nat -> Z.of_nat (vsize (VStruct fs)) < fuel ->
  pt_reads (b, Some true) (BinaryProtocol.trans_ p) [] (request ++ rest) -> zlen rest <= zlen request ->
  BinaryProtocol.limits_ p = lim -> string_buf_ok (BinaryProtocol.string_buf_ p) (BinaryProtocol.string_buf_size_ p) ->
  BinaryProtocol.limits_ st = lim' -> string_buf_ok (BinaryProtocol.string_buf_ st) (BinaryProtocol.string_buf_size_ st) ->
  outgoing b [] room -> zlen request <= room ->
  exists p',
    PeekProcessor.process memory set_memory pipedProtocol_ actual PeekProcessor.peekName PeekProcessor.peekBuffer
      (PeekProcessor.peek depth fuel) PeekProcessor.peekEnd fuel peeked_in out ctx (p, st, o) =
    (let! r := actual pipedProtocol_ out ctx in
     do! lift memory set_memory MemoryBuffer.resetBuffer in ret r) (p', st, o) /\
    pt_reads (dstTrans_ (BinaryProtocol.trans_ p'), Some true) (BinaryProtocol.trans_ p') [] rest /\
    bin_in lim' (piped_protocol (p', st, o)) [] request.
Proof.
  intros request b Hn Ho Hid Hm Hwf Hd Hf Hp Hrest Hlim Hsb Hlim' Hsb' Hb Hroom.
  pose (RL := @TPipedTransport_reads Pl T TMemoryBuffer X _ U L E (b, Some true) (request ++ rest)).
  pose (keeps := fun w : TBinaryProtocolT (TPipedTransport T TMemoryBuffer) * TBinaryProtocolT unit * O => w.1.2 = st /\ w.2 = o).
  pose (R := @lift_reader _ _ (fun w => w.1.1) (@set_peeked T O) _ (fun _ _ => eq_refl) keeps (fun _ _ Hk => Hk) binary_format lim
    (@TBinaryProtocol_reader Pl U _ _ RL lim)).
  assert (bin_in lim p [] (request ++ rest)) as Hin by (split; [by exists []|by split]).
  unfold request in Hin. rewrite <- app_assoc in Hin.
  destruct (endpoint_header lim (fun w => w.1.1) (@set_peeked T O) (p, st, o) [] strict name T_CALL id _ Hn Ho Hid
    ltac:(by destruct strict) Hm Hin) as (n & q & Hq & Hhdr). cbn [wf vsize] in *.
  change (@enc binary_format (VStruct fs)) with (@enc_fields binary_format (@enc binary_format) 0 fs ++ @e_stop binary_format) in Hq.
  rewrite <- app_assoc in Hq.
  destruct (succeeds_run _ _ _ (peek_args _ binary_format lim R (ep_readEnd peeked_in) (ep_writeEnd peeked_in) (ep_flush peeked_in)
    depth fuel [] fs (set_peeked q (p, st, o)) 0 rest zero_in_s16 Hwf ltac:(lia) ltac:(lia) (conj Hq (conj eq_refl eq_refl))))
    as (u & [[p1 st1] o1] & Hloop & Hp1 & Hk & Hk2). cbn in Hk, Hk2. subst st1 o1. destruct Hp1 as (Hpt & Hl1 & Hs1).
  apply pt_incoming_delivered in Hpt as [Hpt Hall]. apply app_inv_tail in Hall. cbn [fst] in Hpt, Hall. rewrite Hall in Hpt.
  destruct (peeked_readEnd p1 st o b request rest room Hpt Hrest Hb Hroom) as (n2 & k & t & He & Hg & -> & Ht & Hmem).
  exists (BinaryProtocol.set_trans t p1). split; [|split; [exact Ht|by split]].
  unfold PeekProcessor.process. rewrite (bind_run _ _ _ _ _ Hhdr). cbv beta iota. change (T_CALL =? T_CALL) with true. cbn [negb].
  rewrite (bind_run _ _ _ tt (set_peeked q (p, st, o))) by done. rewrite (bind_run _ _ _ _ _ Hloop).
  rewrite (bind_run _ _ _ 0 (p1, st, o)) by done. rewrite (bind_run _ _ _ _ _ He), (bind_run _ _ _ _ _ Hg).
  rewrite (bind_run _ _ _ tt (BinaryProtocol.set_trans t p1, st, o)) by done. by rewrite (bind_run _ _ _ tt (BinaryProtocol.set_trans t p1, st, o)).
Qed.
Lemma peek_hands_over_witness :
  let fs := [(1, VI32 7); (2, VList T_BOOL [VBool true; VBool false])] in
  let request := BinaryProtocol.e_message true (bytes_of "add") T_CALL 9 ++ @enc binary_format (VStruct fs) in
  let p := binary_over (piped_over (buffer_of (request ++ [7])) (empty_buffer 0) 4 true false) in
  let actual : TProcessor _ Z := fun inn _ _ => let! '(_, (name, _, _)) := ep_readMessageBegin inn in
    ret (bool_decide (name = bytes_of "add")) in
  exists p',
    PeekProcessor.process memory set_memory (@pipedProtocol_ x86_64 TMemoryBuffer unit) actual
      PeekProcessor.peekName PeekProcessor.peekBuffer (PeekProcessor.peek 20 20) PeekProcessor.peekEnd 20
      (@peeked_in x86_64 _ unit (@TMemoryBuffer_transport x86_64)) (@pipedProtocol_ x86_64 TMemoryBuffer unit) 5
      (p, binary_over tt, tt) =
    (let! r := actual (@pipedProtocol_ x86_64 TMemoryBuffer unit) (@pipedProtocol_ x86_64 TMemoryBuffer unit) 5 in
     do! lift memory set_memory MemoryBuffer.resetBuffer in ret r) (p', binary_over tt, tt) /\
    @pt_reads _ _ _ (@TMemoryBuffer_reads x86_64) (dstTrans_ (BinaryProtocol.trans_ p'), Some true) (BinaryProtocol.trans_ p') [] [7] /\
    @bin_in _ _ (@TMemoryBuffer_reads x86_64) (Limits 0 0) (@piped_protocol _ unit (p', binary_over tt, tt)) [] request.
Proof.
  intros fs request p actual.
  apply (peek_hands_over x86_64 x86_64_unbounded (@TMemoryBuffer_transport x86_64) (@TMemoryBuffer_reads x86_64)
    (@TMemoryBuffer_end x86_64) (@TMemoryBuffer_readEnd x86_64) (Limits 0 0) (Limits 0 0) p (binary_over tt) tt [7]
    (bytes_of "add") true 9 (2 ^ 30) fs 20 20 actual (@pipedProtocol_ x86_64 TMemoryBuffer unit) 5).
  - reflexivity.
  - reflexivity.
  - unfold in_s. lia.
  - left. reflexivity.
  - reflexivity.
  - vm_compute. lia.
  - vm_compute. reflexivity.
  - apply (@piped_over_reads x86_64); [lia|reflexivity].
  - vm_compute. discriminate.
  - reflexivity.
  - exact I.
  - reflexivity.
  - exact I.
  - split; [apply empty_buffer_inv; lia|]. by split_and!.
  - vm_compute. discriminate.
Defined.

(** What [PeekProcessor] tells of a second call over the compact protocol is
    wrong: it does not call [readStructBegin], so the ids of the fields of a call
    count on from the last id of the call before, and [peek] is given the sum. *)
Theorem peek_compact_ids_drift (Pl : Platform) (U : Unbounded) {T : Type} (X : TTransport T) (L : ReadLaws T)
    (lim : limits) (p : TCompactProtocolT T) (c name rest : list Z) (fs : list (Z * tval)) (t id seqid : Z)
    (depth : nat) (fuel : Z) (readEnd writeEnd : M (TCompactProtocolT T) Z) (flush : M (TCompactProtocolT T) unit)
    (peek' : endpoint (TCompactProtocolT T) -> Z -> Z -> M (TCompactProtocolT T) unit) :
  let inn := Endpoint (@TCompactProtocol_protocol Pl T X) readEnd writeEnd flush in
  wf lim (VStruct fs) = true -> (vsize (VStruct fs) <= depth)%nat -> Z.of_nat (vsize (VStruct fs)) < fuel ->
  zlen name < 2 ^ 31 -> string_over lim (zlen name) = false -> in_s 32 seqid ->
  In t value_types -> t <> T_BOOL -> 1 <= id <= 15 -> 0 <= last_id 0 fs < 2 ^ 15 - 15 ->
  comp_in lim p (0 :: c) (@enc compact_format (VStruct fs) ++ CompactProtocol.e_message name T_CALL seqid ++
                          e_header 0 (ctype t) id ++ rest) ->
  succeeds (do! iterate fuel (PeekProcessor.peek_body (PeekProcessor.peek depth fuel) inn) tt in
            do! ep_readMessageEnd inn in ep_readMessageBegin inn) p (fun r p1 =>
    r.2 = (name, T_CALL, seqid) /\
    exists p2, comp_in lim p2 (last_id 0 fs + id :: c) rest /\
      PeekProcessor.peek_body peek' inn tt p1 =
      (do! peek' inn t (last_id 0 fs + id) in do! CompactProtocol.readFieldEnd in ret (inl tt)) p2).
Proof.
  intros inn Hwf Hd Hf Hn Ho Hid Ht Htb Hfid Hlast Hp. cbn [wf vsize] in *.
  change (@enc compact_format (VStruct fs)) with (@enc_fields compact_format (@enc compact_format) 0 fs ++ @e_stop compact_format) in Hp.
  rewrite <- app_assoc in Hp.
  apply runs_bind. eapply runs_mono; [apply (peek_args _ compact_format lim (@TCompactProtocol_reader Pl U T X L lim) readEnd writeEnd flush
    depth fuel c fs p 0 _ zero_in_s16 Hwf ltac:(lia) ltac:(lia) Hp)| |done].
  cbn beta. intros _ p0 Hp0. unfold ep_readMessageEnd, ep_readMessageBegin. cbn. unfold CompactProtocol.readMessageEnd. wp.
  eapply runs_mono; [apply (@comp_readMessageBegin_ok Pl T X U L lim _ name T_CALL seqid ltac:(unfold T_CALL; lia) Hid Hn Ho p0 _ Hp0)| |done].
  cbn beta. intros r p1 [-> Hp1]. split; [done|]. set (l := last_id 0 fs) in *.
  assert (e_header 0 (ctype t) id = e_header l (ctype t) (l + id)) as He.
  { unfold e_header. replace (0 <? id) with true by lia. replace (id - 0 <=? 15) with true by lia.
    replace (l <? l + id) with true by lia. replace (l + id - l <=? 15) with true by lia. cbn [andb]. do 2 f_equal. lia. }
  rewrite He in Hp1. destruct Hp1 as [Hbv Hp1].
  destruct (succeeds_run _ _ _ (comp_readFieldBegin_ok lim (boolValue_ p1) l c t (l + id) Ht Htb ltac:(unfold in_s; lia)
    ltac:(unfold in_s; lia) p1 rest Hp1)) as (r2 & p2 & Hr & -> & Hp2).
  exists p2. split; [by eapply comp_at_between|]. unfold PeekProcessor.peek_body. cbn [ep_protocol inn].
  rewrite (bind_run _ _ _ _ _ Hr). cbv beta iota. by rewrite value_type_not_stop.
Qed.
Lemma peek_compact_ids_drift_witness :
  let m := @enc compact_format (VStruct [(1, VI32 7); (3, VBool true)]) ++ CompactProtocol.e_message [97] T_CALL 2 ++
           e_header 0 (ctype T_I32) 1 ++ [14] in
  let inn := Endpoint (@TCompactProtocol_protocol x86_64 _ (@TMemoryBuffer_transport x86_64)) (ret 0) (ret 0) (ret tt) in
  succeeds (do! iterate 20 (PeekProcessor.peek_body (PeekProcessor.peek 20 20) inn) tt in
            do! ep_readMessageEnd inn in ep_readMessageBegin inn) (compact_over (buffer_of m)) (fun r p1 =>
    r.2 = ([97], T_CALL, 2) /\
    exists p2, @comp_in _ _ (@TMemoryBuffer_reads x86_64) (Limits 0 0) p2 [3 + 1] [14] /\
      PeekProcessor.peek_body (fun _ _ fid => throw (EThrift (text [fid]))) inn tt p1 =
        (Throw (EThrift (text [3 + 1])), p2)).
Proof.
  apply (peek_compact_ids_drift x86_64 x86_64_unbounded (@TMemoryBuffer_transport x86_64) (@TMemoryBuffer_reads x86_64)
    (Limits 0 0) (compact_over (buffer_of (@enc compact_format (VStruct [(1, VI32 7); (3, VBool true)]) ++
       CompactProtocol.e_message [97] T_CALL 2 ++ e_header 0 (ctype T_I32) 1 ++ [14]))) [] [97] [14]
    [(1, VI32 7); (3, VBool true)] T_I32 1 2 20 20 (ret 0) (ret 0) (ret tt) (fun _ _ fid => throw (EThrift (text [fid])))).
  - reflexivity.
  - vm_compute. lia.
  - vm_compute. reflexivity.
  - reflexivity.
  - reflexivity.
  - unfold in_s. lia.
  - cbn. auto 20.
  - discriminate.
  - lia.
  - cbn. lia.
  - split; [reflexivity|]. split; [|split_and!; try reflexivity; exact I].
    apply (@buffer_of_incoming x86_64). vm_compute. reflexivity.
Defined.
