(* ===== verification/DebugTheorems.v ===== *)
(** * What [TDebugProtocol] prints

    [layout] is the specification: the text of a value as a reader sees it, with
    nothing of the protocol's in it.  [pretty] is the same text put together from the
    pieces of TDebugProtocol.cpp; every operation puts its part of it on the transport
    and leaves the indentation and the two stacks as the text requires, and
    [pretty_layout] shows that it is the specified one.  A printed string is read back
    by [unquote]. *)

From S2P Require Export JsonFormat Examples DebugProtocol.

Lemma length_spaces n : 0 <= n -> zlen (zrep n (chr " ")) = n.
Proof. intros. rewrite zlen_zrep. lia. Qed.

(** ** The text *)

Definition spaces (n : Z) : list Z := zrep n (chr " ").

(** Where a value is printed. *)
Record level := Level { indent : Z; states : list write_state_t; indices : list Z }.

(** The texts of the elements of a list, which know their positions. *)
Definition numbered {A} (f : Z -> A -> list Z) : Z -> list A -> list Z :=
  fix go i l := match l with [] => [] | x :: l => f i x ++ go (i + 1) l end.

Section Text.
Context `{CxxLibrary} `{Ctype} (limit prefix : Z).

Definition index_label (i : Z) : list Z := bytes_of "[" ++ lex_show i ++ bytes_of "] = ".

(** Printed at the indentation [n]. *)
Fixpoint pretty (n : Z) (v : tval) : list Z :=
  match v with
  | VBool b => bytes_of (if b then "true" else "false")
  | VByte z => bytes_of "0x" ++ byte_to_hex (u8 z)
  | VI16 z | VI32 z | VI64 z => lex_show z
  | VDouble bits => lex_show_double bits
  | VString s => quoted_string limit prefix s
  | VStruct fs =>
      open_brace ++
      concat (map (fun f => spaces (n + 2) ++ field_head [] (type_of f.2) f.1 ++
                            pretty (n + 2) f.2 ++ item_end) fs) ++
      spaces n ++ bytes_of "}"
  | VMap kt vt es =>
      coll_head "map" (map_type_names kt vt) (zlen es) ++
      concat (map (fun e => spaces (n + 2) ++ pretty (n + 2) e.1 ++ bytes_of " -> " ++
                            pretty (n + 2) e.2 ++ item_end) es) ++
      spaces n ++ bytes_of "}"
  | VSet t l =>
      coll_head "set" (fieldTypeName t) (zlen l) ++
      concat (map (fun x => spaces (n + 2) ++ pretty (n + 2) x ++ item_end) l) ++
      spaces n ++ bytes_of "}"
  | VList t l =>
      coll_head "list" (fieldTypeName t) (zlen l) ++
      numbered (fun i x => spaces (n + 2) ++ index_label i ++ pretty (n + 2) x ++ item_end) 0 l ++
      spaces n ++ bytes_of "}"
  | VNothing _ => []
  end.

(** What [startItem] and [endItem] print around an item, and what becomes of the level. *)
Definition item_prefix (c : level) : list Z :=
  match states c with
  | SET :: _ | MAP_KEY :: _ => spaces (indent c)
  | MAP_VALUE :: _ => bytes_of " -> "
  | LIST :: _ => spaces (indent c) ++ index_label (hd 0 (indices c))
  | _ => []
  end.
Definition item_suffix (c : level) : list Z :=
  match states c with
  | UNINIT :: _ | MAP_KEY :: _ | [] => []
  | _ => item_end
  end.
Definition started (c : level) : level :=
  match states c, indices c with
  | LIST :: _, i :: l => Level (indent c) (states c) (i + 1 :: l)
  | _, _ => c
  end.
Definition finished (c : level) : level :=
  match states c with
  | MAP_KEY :: ws => Level (indent c) (MAP_VALUE :: ws) (indices c)
  | MAP_VALUE :: ws => Level (indent c) (MAP_KEY :: ws) (indices c)
  | _ => c
  end.

(** A level [startItem] accepts. *)
Definition level_ok (c : level) : bool :=
  ((0 <=? indent c) &&
   match states c, indices c with
   | [], _ | LIST :: _, [] => false
   | LIST :: _, i :: _ => i <? 2 ^ 31 - 1
   | _, _ => true
   end)%bool.
End Text.

Section Printing.
Context `{CxxLibrary} `{Ctype} {T : Type} `{WriteLaws T} (limit prefix : Z).
Abbreviation P := (TDebugProtocol T).

(** [out] has been printed, the transport takes [room] more bytes. *)
Definition dbg_out (p : P) (c : level) (out : list Z) (room : Z) : Prop :=
  (indent_str_ p = spaces (indent c) /\ write_state_ p = states c /\ list_idx_ p = indices c /\
   string_limit_ p = limit /\ string_prefix_size_ p = prefix) /\
  outgoing (trans_ p) out room /\ room < 2 ^ 32.

Abbreviation prints := (writes dbg_out).

Lemma dbg_out_eq p c out out' room room' :
  dbg_out p c out room -> out = out' -> room = room' -> dbg_out p c out' room'.
Proof. by intros ? -> ->. Qed.

Lemma emits {A} d (k : unit -> M P A) p c out room Q E :
  dbg_out p c out room -> zlen d <= room ->
  (forall p', dbg_out p' c (out ++ d) (room - zlen d) -> runs (k tt) p' Q E) ->
  runs (bind (out_ (t_write d)) k) p Q E.
Proof using Type.
  intros (Hc & Ho & Hr) Hd Hk. unfold out_. wp. pose proof (zlen_nonneg d).
  eapply runs_mono; [apply (write_ok _ out room d Ho); lia| |done]. cbn. intros [] t Ht.
  apply Hk. split; [exact Hc|]. split; [exact Ht|lia].
Qed.

Lemma prints_plain c str : prints (writePlain str) c c str.
Proof using Type.
  intros p out room Hp Hr. pose proof Hp as (_ & _ & Hmax). unfold writePlain, uint32_max.
  replace (_ <? zlen str) with false by lia.
  eapply emits; [done|done|]. intros p1 Hp1. by wp.
Qed.

Lemma prints_indented c str : 0 <= indent c -> prints (writeIndented str) c c (spaces (indent c) ++ str).
Proof using Type.
  intros Hi p out room Hp Hr. pose proof Hp as ((Hind & _) & _ & Hmax). unfold writeIndented, uint32_max.
  wp. rewrite Hind. zlist.
  replace (_ <? zlen str) with false by lia.
  replace (_ <? zlen (spaces (indent c))) with false by lia.
  replace (_ <? zlen (spaces (indent c)) + zlen str) with false by lia.
  eapply emits; [done|lia|]. intros p1 Hp1. eapply emits; [done|lia|]. intros p2 Hp2. wp.
  split; [done|]. eapply dbg_out_eq; [exact Hp2|by rewrite app_assoc|lia].
Qed.

Lemma prints_eq m c c' e e' : prints m c c' e -> e = e' -> prints m c c' e'.
Proof using Type. by intros ? ->. Qed.

Lemma prints_start c : level_ok c = true -> prints startItem c (started c) (item_prefix c).
Proof using Type.
  intros Hok p out room Hp Hr. pose proof Hp as ((_ & Hws & Hidx & _) & _ & _).
  unfold level_ok, item_prefix, started in *. apply andb_true_iff in Hok as [Hi Hok]. breflect.
  unfold startItem. wp. rewrite Hws. destruct c as [n [|w ws] idx]; [done|]. cbn [states indices indent back] in *.
  wp. destruct w; try (wp; split; [done|]; by rewrite app_nil_r, Z.sub_0_r).
  - destruct idx as [|i idx]; [done|]. breflect. wp. rewrite Hidx. cbn [back]. wp. cbn [hd] in *.
    eapply runs_mono; [by apply (prints_indented (Level n (LIST :: ws) (i :: idx)) (index_label i) Hi p out room Hp Hr)| |done].
    intros n1 p1 [-> Hp1]. pose proof Hp1 as ((Hi1 & Hw1 & Hidx1 & Hl1) & Ho1 & Hr1).
    cbn [states indices indent] in *. unfold next_index. wp. rewrite Hidx1. cbn [back]. wp. apply runs_require; [lia|]. wp.
    split; [done|]. by split_and?.
  - eapply prints_eq; [by apply prints_indented|by rewrite app_nil_r|done|done].
  - eapply prints_eq; [by apply prints_indented|by rewrite app_nil_r|done|done].
  - by apply prints_plain.
Qed.

Lemma prints_end c : states c <> [] -> prints endItem c (finished c) (item_suffix c).
Proof using Type.
  intros Hne p out room Hp Hr. pose proof Hp as ((Hind & Hws & Hidx & Hl) & Ho & Hmax).
  destruct c as [n [|w ws] idx]; [done|]. cbn [states indices indent] in *.
  unfold endItem, finished, item_suffix, set_back in *. wp. rewrite Hws. cbn [back states] in *. wp.
  destruct w; try (by apply prints_plain).
  - wp. split; [done|]. by rewrite app_nil_r, Z.sub_0_r.
  - wp. split; [done|]. rewrite app_nil_r, Z.sub_0_r. split; [|done]. cbn. by rewrite Hws.
  - wp. eapply runs_mono; [apply prints_plain with (c := Level n (MAP_KEY :: ws) idx); [|done]| |done].
    + split; [|done]. cbn. by rewrite Hws.
    + done.
Qed.

Lemma started_states c : states (started c) = states c.
Proof using Type. destruct c as [n [|[] ws] [|]]; reflexivity. Qed.
Lemma started_indent c : indent (started c) = indent c.
Proof using Type. destruct c as [n [|[] ws] [|]]; reflexivity. Qed.
Lemma started_suffix c : item_suffix (started c) = item_suffix c.
Proof using Type. unfold item_suffix. by rewrite started_states. Qed.
Lemma level_ok_states c : level_ok c = true -> states c <> [].
Proof using Type. unfold level_ok. destruct c as [n [|] idx]; cbn; [by rewrite andb_false_r|done]. Qed.
Lemma level_ok_indent c : level_ok c = true -> 0 <= indent c.
Proof using Type. unfold level_ok. intros Hok. breflect. done. Qed.

(** A whole item, whose text the caller has. *)
Lemma prints_item c str : level_ok c = true ->
  prints (writeItem str) c (finished (started c)) (item_prefix c ++ str ++ item_suffix c).
Proof using Type.
  intros Hok. unfold writeItem. eapply writes_then3; [by apply prints_start|apply prints_plain|].
  rewrite <- started_suffix. apply prints_end. rewrite started_states. by apply level_ok_states.
Qed.

(** ** Steps that print nothing *)

Definition silently (m : M P unit) (c c' : level) : Prop :=
  forall p out room, dbg_out p c out room -> succeeds m p (fun _ p' => dbg_out p' c' out room).

Lemma silent_step {A} (m : M P unit) (k : unit -> M P A) c c' p out room Q E :
  silently m c c' -> dbg_out p c out room ->
  (forall p', dbg_out p' c' out room -> runs (k tt) p' Q E) -> runs (bind m k) p Q E.
Proof using Type.
  intros Hm Hp Hk. apply runs_bind. eapply runs_mono; [by apply (Hm p out room)| |done]. cbn.
  intros [] p'. apply Hk.
Qed.

Lemma silent_seq m1 m2 c c1 c2 :
  silently m1 c c1 -> silently m2 c1 c2 -> silently (do! m1 in m2) c c2.
Proof using Type. intros H1' H2' p out room Hp. eapply silent_step; [exact H1'|exact Hp|]. intros p1 Hp1. by apply H2'. Qed.

Lemma silent_then m m' c c1 c2 e : silently m c c1 -> prints m' c1 c2 e -> prints (do! m in m') c c2 e.
Proof using Type. intros Hm Hm' p out room Hp Hr. eapply silent_step; [exact Hm|exact Hp|]. intros p1 Hp1. by apply Hm'. Qed.

Ltac silent := intros p out room ((Hind & Hws & Hidx & Hl) & Ho & Hmax); cbn [states indices indent] in *; wp.

Lemma silent_indentUp n ws idx : 0 <= n -> silently indentUp (Level n ws idx) (Level (n + 2) ws idx).
Proof using Type.
  intros Hn. unfold indentUp. silent. split; [|done]. cbn. split; [|done].
  rewrite Hind. unfold spaces, zrep, indent_inc. rewrite <- replicate_add. f_equal. lia.
Qed.

Lemma silent_indentDown n ws idx : 0 <= n -> silently indentDown (Level (n + 2) ws idx) (Level n ws idx).
Proof using Type.
  intros Hn. unfold indentDown. silent. rewrite Hind. unfold spaces, indent_inc. rewrite length_spaces by lia.
  replace (n + 2 <? 2) with false by lia. wp. split; [|done]. cbn. split; [|done].
  unfold spaces, ztake, zrep. rewrite take_replicate. f_equal. lia.
Qed.

Lemma silent_push_state w n ws idx : silently (push_state w) (Level n ws idx) (Level n (w :: ws) idx).
Proof using Type. unfold push_state. silent. split; [|done]. cbn. by rewrite Hws. Qed.
Lemma silent_pop_state w n ws idx : silently pop_state (Level n (w :: ws) idx) (Level n ws idx).
Proof using Type. unfold pop_state. silent. rewrite Hws. cbn [back]. wp. by split. Qed.
Lemma silent_push_index i n ws idx : silently (push_index i) (Level n ws idx) (Level n ws (i :: idx)).
Proof using Type. unfold push_index. silent. split; [|done]. cbn. by rewrite Hidx. Qed.
Lemma silent_pop_index i n ws idx : silently pop_index (Level n ws (i :: idx)) (Level n ws idx).
Proof using Type. unfold pop_index. silent. rewrite Hidx. cbn [back]. wp. by split. Qed.

(** ** Values with parts *)

(** The level inside a value that is printed at [c]. *)
Definition inner (w : write_state_t) (idx : list Z) (c : level) : level :=
  Level (indent c + 2) (w :: states c) (idx ++ indices c).
Definition closed (c : level) : list Z := spaces (indent c) ++ bytes_of "}" ++ item_suffix c.

Lemma prints_open c head w : level_ok c = true ->
  prints (open_value head w) c (inner w [] (started c)) (item_prefix c ++ head).
Proof using Type.
  intros Hok p out room Hp Hr. rewrite zlen_app in *. pose proof (zlen_nonneg head).
  pose proof (level_ok_indent c Hok) as Hi. rewrite <- started_indent in Hi. unfold open_value.
  eapply writes_step; [by apply prints_start|done|lia|]. intros p1 Hp1.
  eapply writes_step; [apply prints_plain|done|lia|]. intros p2 Hp2.
  destruct (started c) as [n ws idx].
  eapply silent_step; [by apply silent_indentUp|done|]. intros p3 Hp3.
  eapply silent_step; [by apply silent_push_state|done|]. intros p4 Hp4. wp.
  autorewrite with wrap. split; [done|]. by rewrite app_assoc, Z.sub_add_distr.
Qed.

Lemma prints_struct_open c name : level_ok c = true ->
  prints (writeStructBegin (Some name)) c (inner STRUCT [] (started c)) (item_prefix c ++ name ++ open_brace).
Proof using Type. apply prints_open. Qed.

Lemma prints_list_open c t n : level_ok c = true ->
  prints (writeListBegin t n) c (inner LIST [0] (started c))
    (item_prefix c ++ coll_head "list" (fieldTypeName t) n).
Proof using Type.
  intros Hok p out room Hp Hr. unfold writeListBegin.
  eapply writes_step; [by apply prints_open|done|done|]. intros p1 Hp1.
  eapply silent_step; [apply silent_push_index|exact Hp1|]. intros p2 Hp2. by wp.
Qed.

Lemma prints_close c : 0 <= indent c -> states c <> [] -> prints close_value c (finished c) (closed c).
Proof using Type.
  intros Hi Hne. unfold close_value, closed. rewrite app_assoc.
  eapply writes_then; [by apply prints_indented|by apply prints_end].
Qed.

Lemma prints_value_end w c : 0 <= indent c -> states c <> [] ->
  prints (do! indentDown in do! pop_state in close_value) (inner w [] c) (finished c) (closed c).
Proof using Type.
  intros Hi Hne. eapply silent_then; [by apply silent_indentDown|].
  eapply silent_then; [apply silent_pop_state|]. destruct c. by apply prints_close.
Qed.

Lemma prints_list_end i c : 0 <= indent c -> states c <> [] ->
  prints writeListEnd (inner LIST [i] c) (finished c) (closed c).
Proof using Type.
  intros Hi Hne. eapply silent_then; [by apply silent_indentDown|].
  eapply silent_then; [apply silent_pop_state|].
  eapply silent_then; [apply silent_pop_index|]. destruct c. by apply prints_close.
Qed.

Lemma closed_started c : closed (started c) = closed c.
Proof using Type. unfold closed. by rewrite started_indent, started_suffix. Qed.

(** What every value must do. *)
Definition printed (v : tval) : Prop :=
  forall c, level_ok c = true ->
  prints (write_value v) c (finished (started c)) (item_prefix c ++ pretty limit prefix (indent c) v ++ item_suffix c).

(** A value from its head, its parts and its end. *)
Lemma prints_parts {A} (m e : M P Z) (f : A -> M P Z) (add : Z -> Z -> Z) xs c w idx idx' head (body : list Z) :
  (forall x b, add x b = u32 (x + b)) ->
  level_ok c = true ->
  prints m c (inner w idx (started c)) (item_prefix c ++ head) ->
  (forall p xfer out room, dbg_out p (inner w idx (started c)) out room -> zlen body <= room ->
     succeeds (sum_over f xfer xs) p (fun n p' =>
       u32 n = u32 (xfer + zlen body) /\
       dbg_out p' (inner w idx' (started c)) (out ++ body) (room - zlen body))) ->
  prints e (inner w idx' (started c)) (finished (started c)) (closed (started c)) ->
  prints (let! n := m in let! xfer := sum_over f n xs in let! a := e in ret (add xfer a))
    c (finished (started c)) (item_prefix c ++ (head ++ body ++ spaces (indent c) ++ bytes_of "}") ++ item_suffix c).
Proof using Type.
  intros Hadd Hok Hm Hf He. rewrite closed_started in He. unfold closed in He.
  rewrite <- !app_assoc. rewrite (app_assoc (item_prefix c)).
  set (h := item_prefix c ++ head) in *. set (tl := spaces (indent c) ++ bytes_of "}" ++ item_suffix c) in *.
  intros p out room Hp Hr. rewrite !zlen_app in *. pose proof (zlen_nonneg h). pose proof (zlen_nonneg body). pose proof (zlen_nonneg tl).
  eapply writes_step; [exact Hm|done|lia|]. intros p1 Hp1.
  apply runs_bind. eapply runs_mono; [apply Hf; [exact Hp1|lia]| |done]. cbn. intros n p2 [Hn Hp2].
  eapply writes_step; [exact He|done|lia|]. intros p3 Hp3. wp.
  split.
  - autorewrite with wrap in Hn. rewrite Hadd, (u32_add_cong _ _ _ _ Hn (u32_u32 _)).
    autorewrite with wrap. f_equal. lia.
  - eapply dbg_out_eq; [exact Hp3|by rewrite <- !app_assoc|lia].
Qed.

(** Parts that leave the level as they find it. *)
Lemma prints_same {A} (f : A -> M P Z) (e : A -> list Z) c xs :
  (forall x, In x xs -> prints (f x) c c (e x)) ->
  forall p xfer out room, dbg_out p c out room -> zlen (concat (map e xs)) <= room ->
  succeeds (sum_over f xfer xs) p (fun n p' =>
    u32 n = u32 (xfer + zlen (concat (map e xs))) /\
    dbg_out p' c (out ++ concat (map e xs)) (room - zlen (concat (map e xs)))).
Proof using Type.
  intros Hf p xfer out room Hp Hr. eapply runs_mono; [by apply (sum_over_st dbg_out f e c xs)| |done].
  cbn. tauto.
Qed.

(** Parts that are counted. *)
Lemma prints_counted {A} (f : A -> M P Z) (e : Z -> A -> list Z) (c : Z -> level) xs : forall i,
  (forall j x, In x xs -> i <= j < i + zlen xs -> prints (f x) (c j) (c (j + 1)) (e j x)) ->
  forall p xfer out room, dbg_out p (c i) out room -> zlen (numbered e i xs) <= room ->
  succeeds (sum_over f xfer xs) p (fun n p' =>
    u32 n = u32 (xfer + zlen (numbered e i xs)) /\
    dbg_out p' (c (i + zlen xs)) (out ++ numbered e i xs) (room - zlen (numbered e i xs))).
Proof using Type.
  induction xs as [|x xs IH]; intros i Hf p xfer out room Hp Hr; cbn [sum_over numbered] in *.
  - wp. rewrite zlen_nil, !Z.add_0_r, Z.sub_0_r, app_nil_r. done.
  - rewrite zlen_app in *. pose proof (zlen_nonneg (numbered e (i + 1) xs)).
    eapply writes_step; [apply (Hf i x); [by left|zlist]|done|lia|]. intros p1 Hp1.
    eapply runs_mono; [apply (IH (i + 1)); [|exact Hp1|lia]| |done].
    { intros j y Hy Hj. apply (Hf j y); [by right|zlist]. }
    cbn. intros n p2 [Hn Hp2]. split.
    + rewrite Hn. autorewrite with wrap. f_equal. lia.
    + rewrite zlen_cons, Z.add_assoc. eapply dbg_out_eq; [exact Hp2|by rewrite <- app_assoc|lia].
Qed.
(** ** Values *)

Lemma prints_field lim c f : let c' := inner STRUCT [] c in
  0 <= indent c -> wf lim f.2 = true -> printed f.2 ->
  prints (write_field f) c' c' (spaces (indent c + 2) ++ field_head [] (type_of f.2) f.1 ++
                                pretty limit prefix (indent c + 2) f.2 ++ item_end).
Proof using Type.
  cbv zeta. intros Hi Hwf Hv. set (c' := inner STRUCT [] c). unfold write_field.
  assert (level_ok c' = true) as Hok by (unfold level_ok; cbn; lia).
  eapply prints_eq; [eapply (writes_then3 dbg_out _ _ _ c' c' c' c' _ _ [])|].
  - apply (prints_indented c'). cbn. lia.
  - exact (Hv c' Hok).
  - intros p out room ((Hind & Hws & Hidx & Hl) & Ho & Hmax) Hr. cbn. unfold writeFieldEnd. wp.
    rewrite Hws. cbn [back states inner c']. wp. apply runs_assert; [done|]. wp.
    split; [done|]. by rewrite app_nil_r, Z.sub_0_r.
  - cbn. by rewrite <- !app_assoc, !app_nil_r.
Qed.

Lemma prints_entry c e : let c' := inner MAP_KEY [] c in
  0 <= indent c -> printed e.1 -> printed e.2 ->
  prints (let! a := write_value e.1 in let! b := write_value e.2 in ret (u32 (a + b))) c' c'
    (spaces (indent c + 2) ++ pretty limit prefix (indent c + 2) e.1 ++ bytes_of " -> " ++
     pretty limit prefix (indent c + 2) e.2 ++ item_end).
Proof using Type.
  cbv zeta. intros Hi H1v H2v. eapply prints_eq; [eapply (writes_then dbg_out _ _ _ (inner MAP_VALUE [] c))|].
  - apply (H1v (inner MAP_KEY [] c)). unfold level_ok. cbn. lia.
  - apply (H2v (inner MAP_VALUE [] c)). unfold level_ok. cbn. lia.
  - cbn. rewrite <- !app_assoc. by rewrite app_nil_l.
Qed.

Lemma prints_value lim v : wf lim v = true -> printed v.
Proof using Type.
  induction v as [b|z|z|z|z|z|s|fs IH|kt vt es IH|t l IH|t l IH|t] using tval_nested_ind; intros Hwf c Hok;
    cbn [write_value pretty p_writeBool p_writeByte p_writeI16 p_writeI32 p_writeI64 p_writeDouble p_writeBinary
         p_writeStructBegin p_writeStructEnd p_writeFieldStop p_writeMapBegin p_writeMapEnd p_writeSetBegin
         p_writeSetEnd p_writeListBegin p_writeListEnd TDebugProtocol_protocol];
    try (by apply prints_item); try discriminate Hwf;
    pose proof (level_ok_indent c Hok) as Hi; pose proof (level_ok_states c Hok) as Hne;
    rewrite <- (started_states c) in Hne; rewrite <- (started_indent c) in Hi.
  - intros p out room Hp Hr. unfold writeBinary, writeString. wp. pose proof Hp as ((_ & _ & _ & -> & ->) & _).
    by apply prints_item.
  - apply (prints_parts _ writeStructEnd write_field (fun x b => u32 (u32 (x + 0) + b)) fs c STRUCT [] []);
      [intros; rewrite Z.add_0_r; by autorewrite with wrap|done|by apply prints_struct_open| |by apply prints_value_end].
    apply prints_same. intros f Hf. rewrite List.Forall_forall in IH. cbn [wf] in Hwf.
    rewrite forallb_forall in Hwf. specialize (Hwf f Hf). breflect. rewrite <- started_indent.
    apply (prints_field lim); auto.
  - apply (prints_parts _ writeMapEnd _ (fun x b => u32 (x + b)) es c MAP_KEY [] []);
      [done|done|by apply prints_open| |by apply prints_value_end].
    apply prints_same. intros e He. rewrite List.Forall_forall in IH. cbn [wf] in Hwf.
    apply andb_true_iff in Hwf as [_ Hwf].
    rewrite forallb_forall in Hwf. specialize (Hwf e He). breflect. destruct (IH e He). rewrite <- started_indent.
    apply prints_entry; auto.
  - apply (prints_parts _ writeSetEnd _ (fun x b => u32 (x + b)) l c SET [] []);
      [done|done|by apply prints_open| |by apply prints_value_end].
    apply prints_same. intros x Hx. rewrite List.Forall_forall in IH. cbn [wf] in Hwf.
    apply andb_true_iff in Hwf as [_ Hwf].
    rewrite forallb_forall in Hwf. specialize (Hwf x Hx). breflect. rewrite <- started_indent.
    eapply prints_eq; [apply (IH x Hx ltac:(done) (inner SET [] (started c)))|done]. unfold level_ok. cbn. lia.
  - apply (prints_parts _ writeListEnd _ (fun x b => u32 (x + b)) l c LIST [0] [0 + zlen l]);
      [done|done|by apply prints_list_open| |by apply prints_list_end].
    apply (prints_counted write_value _ (fun i => inner LIST [i] (started c)) l 0).
    intros j x Hx Hj. rewrite List.Forall_forall in IH. cbn [wf] in Hwf.
    apply andb_true_iff in Hwf as [Hwf0 Hwf]. apply andb_true_iff in Hwf0 as [_ Hn].
    apply count_ok_true in Hn as [Hn _].
    rewrite forallb_forall in Hwf. specialize (Hwf x Hx). breflect. rewrite <- started_indent.
    eapply prints_eq; [apply (IH x Hx ltac:(done) (inner LIST [j] (started c)))|].
    + unfold level_ok. cbn. lia.
    + unfold item_prefix, item_suffix. cbn [inner states indices indent hd app]. by rewrite <- !app_assoc.
Qed.
End Printing.

(** ** Reading a printed string *)

Definition escaped_letter (c : Z) : option Z :=
  if c =? backslash then Some backslash
  else if c =? double_quote then Some double_quote
  else assoc c (map (fun p => (p.2, p.1)) escape_letters).

(** The characters up to the closing quote, and what follows it. *)
Fixpoint unescape (l : list Z) : option (list Z * list Z) :=
  let add (ch : Z) (r : option (list Z * list Z)) :=
    match r with Some (s, rest) => Some (ch :: s, rest) | None => None end in
  match l with
  | [] => None
  | ch :: l =>
      if ch =? double_quote then Some ([], l)
      else if ch =? backslash then
        match l with
        | [] => None
        | c :: l1 =>
            if c =? chr "x" then
              match l1 with
              | h1 :: h2 :: l2 =>
                  match hex_digit h1, hex_digit h2 with
                  | Some a, Some b => add (16 * a + b) (unescape l2)
                  | _, _ => None
                  end
              | _ => None
              end
            else match escaped_letter c with
                 | Some x => add x (unescape l1)
                 | None => None
                 end
        end
      else add ch (unescape l)
  end.

Definition unquote (l : list Z) : option (list Z * list Z) :=
  match l with
  | q :: l => if q =? double_quote then unescape l else None
  | [] => None
  end.

Lemma hex_digit_letter n : 0 <= n < 16 -> hex_digit (hex_letter n) = Some n.
Proof.
  intros Hn. unfold hex_letter. change (chr "0") with 48. change (chr "a") with 97. bif.
  - unfold hex_digit. assert (is_digit (48 + n) = true) as ->.
    { unfold is_digit. change (chr "0") with 48. change (chr "9") with 57. lia. }
    change (chr "0") with 48. f_equal. lia.
  - unfold hex_digit. assert (is_digit (97 + (n - 10)) = false) as ->.
    { unfold is_digit. change (chr "0") with 48. change (chr "9") with 57. lia. }
    unfold tolower. replace ((65 <=? 97 + (n - 10)) && (97 + (n - 10) <=? 90))%bool with false by lia.
    change (chr "a") with 97. change (chr "f") with 102.
    replace ((97 <=? 97 + (n - 10)) && (97 + (n - 10) <=? 102))%bool with true by lia. f_equal. lia.
Qed.

Lemma assoc_letters ch letter : assoc ch escape_letters = Some letter ->
  letter <> chr "x" /\ escaped_letter letter = Some ch.
Proof.
  cbn [escape_letters assoc]. repeat (bif; [intros [= <-]; subst ch; split; [done|reflexivity]|]). done.
Qed.

Section Quotes.
Context `{CxxLibrary} `{Ctype}.

Lemma unescape_char ch l : is_byte ch ->
  unescape (escape_char ch ++ l) =
  match unescape l with Some (s, rest) => Some (ch :: s, rest) | None => None end.
Proof.
  intros Hch. unfold is_byte in Hch. unfold escape_char. bif; [by subst ch|]. bif; [by subst ch|]. bif.
  - cbn [app unescape]. replace (ch =? double_quote) with false by lia.
    by replace (ch =? backslash) with false by lia.
  - destruct (assoc ch escape_letters) as [letter|] eqn:Ha.
    + destruct (assoc_letters ch letter Ha) as [Hx Hl]. cbn [app unescape]. cbn [Z.eqb backslash double_quote Pos.eqb].
      replace (letter =? chr "x") with false by lia. by rewrite Hl.
    + unfold byte_to_hex. cbn [app unescape]. cbn [Z.eqb backslash double_quote Pos.eqb].
      rewrite Z.eqb_refl, !hex_digit_letter by dlia.
      by replace (16 * (ch / 16) + ch mod 16) with ch by dlia.
Qed.

Lemma unescape_string s rest : bytes_ok s ->
  unescape (concat (map escape_char s) ++ double_quote :: rest) = Some (s, rest).
Proof.
  induction 1 as [|ch s Hch _ IH]; [done|]. cbn [map concat]. rewrite <- app_assoc.
  by rewrite unescape_char, IH.
Qed.
End Quotes.

(** The level of a new protocol, and inside a message. *)
Abbreviation top_level := (Level 0 [UNINIT] []).
Abbreviation message_level := (Level 2 [UNINIT] []).

Definition message_open (name : list Z) (messageType : Z) : list Z :=
  bytes_of "(" ++ message_type_name messageType ++ bytes_of ") " ++ name ++ bytes_of "(".
Definition message_close : list Z := [chr ")"; newline].

(** The calls a client makes for a message, each adding to the count. *)
Definition write_message {P} `{TProtocol P} (name : list Z) (messageType seqid : Z) (v : tval) : M P Z :=
  let! a := p_writeMessageBegin name messageType seqid in
  let! b := write_value v in
  let! c := p_writeMessageEnd in
  ret (u32 (u32 (a + b) + c)).

(** ** The specification of the text

    What a reader is promised, written with nothing of the protocol's: the words, the
    digits and the escapes are spelled out here, numbers are in decimal. *)

(** The numbers of [TType] and of [TMessageType]. *)
Definition type_word (t : Z) : string :=
  match t with
  | 2 => "bool" | 3 => "byte" | 4 => "double" | 6 => "i16" | 8 => "i32" | 10 => "i64" | 11 => "string"
  | 12 => "struct" | 13 => "map" | 14 => "set" | 15 => "list" | _ => "unknown"
  end.
Definition message_word (t : Z) : string :=
  match t with 1 => "call" | 2 => "reply" | 3 => "exn" | 4 => "oneway" | _ => "" end.

Definition two_digits (id : Z) : list Z :=
  if ((0 <=? id) && (id <=? 9))%bool then [48; 48 + id] else decimal id.

(** A byte in hexadecimal. *)
Definition two_hex (z : Z) : list Z :=
  let digit i := nth (Z.to_nat i) (bytes_of "0123456789abcdef") 0 in
  [digit (Z.shiftr z 4); digit (Z.land z 15)].

Definition control_letter (ch : Z) : option string :=
  match ch with
  | 7 => Some "\a" | 8 => Some "\b" | 9 => Some "\t" | 10 => Some "\n" | 11 => Some "\v" | 12 => Some "\f"
  | 13 => Some "\r" | _ => None
  end%string.

Section Layout.
Context `{Ctype}.

(** A byte of a string: 92 is the backslash, 34 the quote; of a byte from 128 up it
    is the platform that says whether it can be printed. *)
Definition spelled (ch : Z) : list Z :=
  if ((ch =? 92) || (ch =? 34))%bool then [92; ch]
  else if (((32 <=? ch) && (ch <? 127)) || ((128 <=? ch) && isprint_negative ch))%bool then [ch]
  else match control_letter ch with
       | Some s => bytes_of s
       | None => bytes_of "\x" ++ two_hex ch
       end.

(** Of a string over the limit the prefix is shown, with a mark and the length; there
    is no limit when it is negative, and the prefix is the whole when that is. *)
Definition string_text (limit prefix : Z) (s : list Z) : list Z :=
  let chars l := concat (map spelled l) in
  [34] ++
  (if ((0 <=? limit) && (limit <? zlen s))%bool
   then chars (if prefix <? 0 then s else take (Z.to_nat prefix) s) ++
        bytes_of "[...](" ++ decimal (zlen s) ++ bytes_of ")"
   else chars s) ++ [34].

Context `{CxxLibrary} (limit prefix : Z).

(** The text of a value that starts at the indentation [n]. *)
Fixpoint layout (n : Z) (v : tval) : list Z :=
  let line (text : list Z) := spaces (n + 2) ++ text ++ [44; 10] in
  let block (head lines : list Z) := head ++ [32; 123; 10] ++ lines ++ spaces n ++ [125] in
  let sized (kind types : string) (size : Z) :=
    bytes_of (kind ++ "<" ++ types ++ ">[") ++ decimal size ++ bytes_of "]" in
  match v with
  | VBool true => bytes_of "true"
  | VBool false => bytes_of "false"
  | VByte z => bytes_of "0x" ++ two_hex (z mod 256)
  | VI16 z | VI32 z | VI64 z => decimal z
  | VDouble bits => lex_show_double bits
  | VString s => string_text limit prefix s
  | VStruct fs =>
      block [] (concat (map (fun f =>
        line (two_digits f.1 ++ bytes_of (":  (" ++ type_word (type_of f.2) ++ ") = ") ++
              layout (n + 2) f.2)) fs))
  | VMap kt vt es =>
      block (sized "map" (type_word kt ++ "," ++ type_word vt) (zlen es))%string
        (concat (map (fun e => line (layout (n + 2) e.1 ++ bytes_of " -> " ++ layout (n + 2) e.2)) es))
  | VSet t l =>
      block (sized "set" (type_word t) (zlen l))%string
        (concat (map (fun x => line (layout (n + 2) x)) l))
  | VList t l =>
      block (sized "list" (type_word t) (zlen l))%string
        (numbered (fun i x => line (bytes_of "[" ++ decimal i ++ bytes_of "] = " ++ layout (n + 2) x)) 0 l)
  | VNothing _ => []
  end.

(** A message around its text. *)
Definition message_text (name : list Z) (messageType : Z) (text : list Z) : list Z :=
  bytes_of ("(" ++ message_word messageType ++ ") ") ++ name ++ [40] ++ text ++ [41; 10].
End Layout.

(** ** The text printed is the one specified *)

Lemma bytes_of_app s1 s2 : bytes_of (s1 ++ s2)%string = bytes_of s1 ++ bytes_of s2.
Proof. induction s1 as [|a s1 IH]; [done|]. exact (f_equal (cons _) IH). Qed.

Lemma message_open_text name messageType text :
  message_open name messageType ++ text ++ message_close = message_text name messageType text.
Proof.
  unfold message_open, message_text. rewrite !bytes_of_app, <- !app_assoc. do 2 f_equal.
  unfold message_type_name, T_CALL, T_REPLY, T_EXCEPTION, T_ONEWAY.
  destruct messageType as [|[[[]|[]|]|[[]|[]|]|]|]; reflexivity.
Qed.

(** Two functions agree on the numbers below [n], by trying them. *)
Lemma agree_below {A} `{EqDecision A} (f g : Z -> A) n :
  forallb (fun i => bool_decide (f (Z.of_nat i) = g (Z.of_nat i))) (seq 0 (Z.to_nat n)) = true ->
  forall z, 0 <= z < n -> f z = g z.
Proof.
  rewrite forallb_forall. intros Hall z Hz. specialize (Hall (Z.to_nat z)). rewrite Z2Nat.id in Hall by lia.
  refine (bool_decide_eq_true_1 _ (Hall _)). apply in_seq. lia.
Qed.

Lemma byte_to_hex_text z : 0 <= z < 256 -> byte_to_hex z = two_hex z.
Proof. revert z. by apply agree_below. Qed.

Lemma fieldTypeName_text t : is_value_type t = true -> fieldTypeName t = bytes_of (type_word t).
Proof.
  unfold is_value_type. rewrite existsb_exists. intros (t' & Hin & ->%Z.eqb_eq).
  repeat (destruct Hin as [<-|Hin]; [done|]). done.
Qed.

Lemma type_of_value lim v : wf lim v = true -> is_value_type (type_of v) = true.
Proof. by destruct v. Qed.

Lemma shown_whole `{CxxLibrary} limit prefix s :
  - 2 ^ 31 <= limit < 2 ^ 31 -> zlen s < 2 ^ 63 -> limit < 0 \/ zlen s <= limit -> shown limit prefix s = s.
Proof.
  intros Hl Hs Hcase. unfold shown. replace (u64 limit <? zlen s) with false; [done|].
  symmetry. apply Z.ltb_ge. unfold wrapu. destruct Hcase.
  - rewrite <- (Z_mod_plus_full limit 1). rewrite Z.mod_small; lia.
  - pose proof (zlen_nonneg s). rewrite Z.mod_small; lia.
Qed.

Section Specified.
Context `{CxxLibrary} `{!CxxLibraryLaws} `{Ctype}.

Lemma decimal_long z : wide z -> z < 0 \/ 10 <= z -> 1 < zlen (decimal z).
Proof using Type.
  unfold wide, decimal. change (2 ^ 63) with 9223372036854775808. change (2 ^ 64) with 18446744073709551616.
  intros Hz Hr. bif.
  - destruct (digits_spec 20 (- z)) as (_ & _ & _ & Hp); [change (10 ^ Z.of_nat 20) with 100000000000000000000; lia|].
    zlist.
  - cbn [digits]. replace (z <? 10) with false by lia. fold (digits 19 (z / 10)).
    destruct (digits_spec 19 (z / 10)) as (_ & _ & _ & Hp); [change (10 ^ Z.of_nat 19) with 10000000000000000000; dlia|].
    zlist.
Qed.

Lemma field_id_text id : in_s 16 id -> field_id id = two_digits id.
Proof using Type*.
  unfold in_s. intros Hid. assert (wide id) as Hw by (unfold wide; lia).
  unfold field_id, two_digits. rewrite lex_show_decimal by done. destruct (_ && _)%bool eqn:Hb.
  - assert (forall id, 0 <= id < 10 ->
      (if zlen (decimal id) =? 1 then chr "0" :: decimal id else decimal id) = [48; 48 + id]) as Hd
      by by apply agree_below.
    apply Hd. lia.
  - apply andb_false_iff in Hb. pose proof (decimal_long id Hw ltac:(destruct Hb; breflect; lia)). by replace (_ =? 1) with false by lia.
Qed.

(** What becomes of a byte that is neither printed as it is nor [\\] or a quote. *)
Lemma escape_letter_text ch : 0 <= ch < 256 ->
  match assoc ch escape_letters with
  | Some letter => [backslash; letter]
  | None => [backslash; chr "x"] ++ byte_to_hex ch
  end = match control_letter ch with Some s => bytes_of s | None => bytes_of "\x" ++ two_hex ch end.
Proof using Type.
  revert ch. by apply agree_below.
Qed.

Lemma escape_char_text ch : is_byte ch -> escape_char ch = spelled ch.
Proof using Type.
  unfold is_byte. intros Hch. unfold escape_char, spelled, isprint. change backslash with 92. change double_quote with 34.
  destruct (Z.eqb_spec ch 92) as [->|Hn1]; [done|]. destruct (Z.eqb_spec ch 34) as [->|Hn2]; [done|]. cbn [orb].
  assert ((if ch <? 128 then (32 <=? ch) && (ch <=? 126) else isprint_negative ch) =
          ((32 <=? ch) && (ch <? 127)) || ((128 <=? ch) && isprint_negative ch))%bool as ->.
  { bif; [replace (128 <=? ch) with false by lia; cbn [andb]; rewrite orb_false_r; f_equal; lia|].
    replace (ch <? 127) with false by lia. replace (128 <=? ch) with true by lia. by rewrite andb_false_r. }
  destruct (_ || _)%bool; [done|]. by apply escape_letter_text.
Qed.

Lemma escape_chars_text s : bytes_ok s -> concat (map escape_char s) = concat (map spelled s).
Proof using Type. induction 1 as [|ch s Hch _ IH]; [done|]. cbn [map concat]. by rewrite IH, escape_char_text. Qed.

(** The mark and the length are printed as they are. *)
Lemma escape_chars_plain s : Forall (fun ch => 35 <= ch < 127 /\ ch <> 92) s -> concat (map escape_char s) = s.
Proof using Type.
  induction 1 as [|ch s Hch _ IH]; [done|]. cbn [map concat]. rewrite IH, escape_char_text by (unfold is_byte; lia).
  unfold spelled. replace ((ch =? 92) || (ch =? 34))%bool with false by lia.
  by replace ((32 <=? ch) && (ch <? 127))%bool with true by lia.
Qed.

Lemma decimal_chars z : wide z -> Forall (fun ch => 35 <= ch < 127 /\ ch <> 92) (decimal z).
Proof using Type.
  intros Hz. destruct (decimal_spec z Hz) as (_ & Hd & _). rewrite forallb_forall in Hd.
  apply List.Forall_forall. intros ch Hch. specialize (Hd ch Hch).
  unfold isJSONNumeric in Hd. apply existsb_exists in Hd as (ch' & Hin & ->%Z.eqb_eq).
  assert (forallb (fun ch => (35 <=? ch) && (ch <? 127) && negb (ch =? 92))%bool (bytes_of "+-.0123456789Ee") = true) as Hall by done.
  rewrite forallb_forall in Hall. specialize (Hall _ Hin). breflect. lia.
Qed.

Lemma quoted_string_text limit prefix s : in_s 32 limit -> in_s 32 prefix -> bytes_ok s -> zlen s < 2 ^ 31 ->
  quoted_string limit prefix s = string_text limit prefix s.
Proof using Type*.
  unfold in_s. intros Hl Hp Hs Hn. pose proof (zlen_nonneg s). unfold quoted_string, string_text. cbn [app]. f_equal. f_equal.
  bif.
  - unfold shown. rewrite wrapu_small by (unfold in_u; lia). replace (limit <? zlen s) with true by lia.
    rewrite lex_show_decimal by (unfold wide; lia). rewrite map_app, concat_app. f_equal.
    + rewrite escape_chars_text by (unfold ztake; by apply Forall_take). do 2 f_equal. bif.
      * unfold ztake. rewrite take_ge; [done|]. unfold zlen in *. unfold wrapu.
        rewrite <- (Z_mod_plus_full prefix 1), Z.mod_small; lia.
      * by rewrite wrapu_small by (unfold in_u; lia).
    + apply escape_chars_plain. apply Forall_app. split; [repeat (constructor; [cbn; lia|]); constructor|].
      apply Forall_app. split; [apply decimal_chars; unfold wide; lia|repeat (constructor; [cbn; lia|]); constructor].
  - rewrite shown_whole by (apply andb_false_iff in Hb as [Hb|Hb]; breflect; lia). by apply escape_chars_text.
Qed.

(** ** Values *)

Context (limit prefix : Z) (Hlimit : in_s 32 limit) (Hprefix : in_s 32 prefix).
Abbreviation specified v := (forall n, pretty limit prefix n v = layout limit prefix n v).

Lemma coll_head_text kind types words size body : wide size -> types = bytes_of words ->
  coll_head kind types size ++ body =
  (bytes_of (kind ++ "<" ++ words ++ ">[")%string ++ decimal size ++ bytes_of "]") ++ [32; 123; 10] ++ body.
Proof using Type*.
  intros Hn ->. unfold coll_head. rewrite lex_show_decimal, !bytes_of_app, <- !app_assoc by done. reflexivity.
Qed.

Lemma block_ext n lines lines' : lines = lines' ->
  open_brace ++ lines ++ spaces n ++ bytes_of "}" = [32; 123; 10] ++ lines' ++ spaces n ++ [125].
Proof using Type. by intros ->. Qed.

Lemma concat_map_ext {A} (f g : A -> list Z) l :
  (forall x, In x l -> f x = g x) -> concat (map f l) = concat (map g l).
Proof using Type. intros Hfg. f_equal. by apply map_ext_in. Qed.

Lemma numbered_ext {A} (f g : Z -> A -> list Z) l : forall i,
  (forall j x, In x l -> i <= j < i + zlen l -> f j x = g j x) -> numbered f i l = numbered g i l.
Proof using Type.
  induction l as [|x l IH]; intros i Hfg; [done|]. cbn [numbered]. f_equal.
  - apply Hfg; [by left|zlist].
  - apply IH. intros j y Hy Hj. apply Hfg; [by right|zlist].
Qed.

Lemma size_wide lim n : count_ok lim n = true -> 0 <= n -> wide n.
Proof using Type. intros [Hn _]%count_ok_true Hp. unfold wide. lia. Qed.

Lemma wf_elements lim t l (P : tval -> Prop) :
  (is_value_type t && count_ok lim (zlen l) && forallb (fun e => (type_of e =? t) && wf lim e) l)%bool = true ->
  Forall (fun x => wf lim x = true -> P x) l ->
  is_value_type t = true /\ wide (zlen l) /\ forall x, In x l -> P x.
Proof using Type.
  intros Hwf HP. apply andb_true_iff in Hwf as [Hwf Hall]. apply andb_true_iff in Hwf as [Ht Hn].
  split; [done|]. split; [by apply (size_wide lim), zlen_nonneg|].
  intros x Hx. rewrite List.Forall_forall in HP. rewrite forallb_forall in Hall. specialize (Hall x Hx).
  apply andb_true_iff in Hall as [_ Hall]. by apply HP.
Qed.

Lemma pretty_layout lim v : wf lim v = true -> specified v.
Proof using Type*.
  induction v as [b|z|z|z|z|z|s|fs IH|kt vt es IH|t l IH|t l IH|t] using tval_nested_ind; intros Hwf n;
    cbn [pretty layout]; cbn [wf] in Hwf; try discriminate Hwf.
  - by destruct b.
  - f_equal. apply byte_to_hex_text. apply Z.mod_pos_bound. lia.
  - apply lex_show_decimal. apply bool_decide_eq_true_1 in Hwf. unfold wide, in_s in *. lia.
  - apply lex_show_decimal. apply bool_decide_eq_true_1 in Hwf. unfold wide, in_s in *. lia.
  - apply lex_show_decimal. apply bool_decide_eq_true_1 in Hwf. unfold wide, in_s in *. lia.
  - done.
  - unfold string_ok in Hwf. apply quoted_string_text; [done|done| |by breflect].
    apply andb_true_iff in Hwf as [_ Hs]. rewrite forallb_forall in Hs. apply List.Forall_forall. intros ch Hch.
    specialize (Hs ch Hch). apply bool_decide_eq_true_1 in Hs. unfold is_byte. unfold in_u in Hs. lia.
  - apply block_ext, concat_map_ext. intros f Hf.
    rewrite List.Forall_forall in IH. rewrite forallb_forall in Hwf. specialize (Hwf f Hf). apply andb_true_iff in Hwf as [Hid Hv].
    apply bool_decide_eq_true_1 in Hid. rewrite (IH f Hf Hv). unfold field_head.
    rewrite field_id_text, (fieldTypeName_text _ (type_of_value lim _ Hv)), !bytes_of_app, <- !app_assoc by done. reflexivity.
  - apply andb_true_iff in Hwf as [Hwf Hall]. apply andb_true_iff in Hwf as [Ht Hn]. apply andb_true_iff in Ht as [Hk Hvt].
    rewrite (coll_head_text _ _ (type_word kt ++ "," ++ type_word vt)%string _ _ (size_wide _ _ Hn (zlen_nonneg es)))
      by (unfold map_type_names; by rewrite !bytes_of_app, !fieldTypeName_text).
    f_equal. apply (block_ext n), concat_map_ext. intros e He.
    rewrite List.Forall_forall in IH. destruct (IH e He) as [IH1 IH2]. rewrite forallb_forall in Hall. specialize (Hall e He).
    breflect. by rewrite IH1, IH2, <- !app_assoc.
  - destruct (wf_elements _ _ _ _ Hwf IH) as (Ht & Hn & Hall).
    rewrite (coll_head_text _ _ (type_word t)) by (done || by apply fieldTypeName_text).
    f_equal. apply (block_ext n), concat_map_ext. intros x Hx. by rewrite (Hall x Hx).
  - destruct (wf_elements _ _ _ _ Hwf IH) as (Ht & Hn & Hall).
    rewrite (coll_head_text _ _ (type_word t)) by (done || by apply fieldTypeName_text).
    f_equal. apply (block_ext n), numbered_ext. intros j x Hx Hj. rewrite (Hall x Hx). unfold index_label.
    rewrite lex_show_decimal, <- !app_assoc by (unfold wide in *; lia). reflexivity.
Qed.
End Specified.

Section Messages.
Context `{CxxLibrary} `{Ctype} {T : Type} `{WriteLaws T} (limit prefix : Z).

Lemma prints_message lim name messageType seqid v : wf lim v = true ->
  writes (dbg_out limit prefix) (write_message (P := TDebugProtocol T) name messageType seqid v) top_level top_level
    (message_open name messageType ++ pretty limit prefix 2 v ++ message_close).
Proof using Type.
  intros Hv. unfold write_message. eapply (writes_then3 (dbg_out limit prefix) _ _ _ _ message_level message_level).
  - cbn. unfold writeMessageBegin. intros p out room Hp Hr.
    eapply writes_step; [by apply (prints_indented limit prefix top_level)|exact Hp|exact Hr|]. intros p1 Hp1.
    eapply silent_step; [by apply (silent_indentUp limit prefix 0)|exact Hp1|]. intros p2 Hp2. by wp.
  - pose proof (prints_value limit prefix lim v Hv message_level eq_refl) as Hpv. cbn in Hpv.
    by rewrite app_nil_r in Hpv.
  - cbn. eapply silent_then; [by apply (silent_indentDown limit prefix 0)|].
    by apply (prints_indented limit prefix top_level).
Qed.
End Messages.

Section DebugString.
Context `{CxxLibrary} `{Ctype} `{Platform} `{!Unbounded}.

(** [ThriftDebugString] answers the text of the value. *)
Lemma debug_string_spec lim v u : wf lim v = true ->
  zlen (pretty DEFAULT_STRING_LIMIT DEFAULT_STRING_PREFIX_SIZE 0 v) <= 2 ^ 31 ->
  succeeds (ThriftDebugString (write_value v)) u (fun s _ =>
    s = pretty DEFAULT_STRING_LIMIT DEFAULT_STRING_PREFIX_SIZE 0 v).
Proof using Type*.
  intros Hv Hlen. unfold ThriftDebugString.
  wp. eapply runs_mono; [apply new_default_spec| |done]. cbn. intros buf u1 (Hi & Hc & Ho & Hw & _).
  apply runs_bind, runs_on_new. apply runs_bind.
  assert (dbg_out DEFAULT_STRING_LIMIT DEFAULT_STRING_PREFIX_SIZE (new_protocol buf) top_level [] (2 ^ 31)) as Hp.
  { split; [by split_and!|]. split; [|done].
    split; [exact Hi|]. split; [exact Hc|]. split; [exact Ho|]. cbn [trans_ new_protocol]. lia. }
  pose proof (prints_value (T := TMemoryBuffer) DEFAULT_STRING_LIMIT DEFAULT_STRING_PREFIX_SIZE lim v Hv top_level eq_refl) as Hpv.
  cbn [item_prefix item_suffix states app] in Hpv. rewrite app_nil_r in Hpv.
  eapply runs_mono; [apply (Hpv _ [] (2 ^ 31) Hp Hlen)| |done]. cbn [app].
  intros n p' [_ (_ & (Hi' & Hc' & _) & _)]. wp.
  eapply runs_mono; [by apply getBuffer_spec| |done]. cbn. intros s w [-> _]. by wp.
Qed.
End DebugString.

(** C38. Debug protocol: over any transport, the calls for a message and its value
    print exactly the text of [layout], whose words, digits and escapes are spelled out
    there apart from the protocol's: two spaces deeper at every level, fields with an id
    of at least two digits and their type, elements numbered from 0, keys joined to
    values by an arrow, strings with the escapes of C and cut to the prefix over the
    limit, integers in decimal.  They answer the number of characters and leave the
    protocol as it was, ready for the next message. *)
Theorem debug_prints {L : CxxLibrary} {LL : CxxLibraryLaws} {K : Ctype} {T : Type} {X : TTransport T} {W : WriteLaws T}
    (lim : limits) (name : list Z) (messageType seqid : Z) (v : tval) (p : TDebugProtocol T)
    (out : list Z) (room : Z) :
  let text := message_text name messageType (layout (string_limit_ p) (string_prefix_size_ p) 2 v) in
  wf lim v = true -> in_s 32 (string_limit_ p) -> in_s 32 (string_prefix_size_ p) ->
  indent_str_ p = [] -> write_state_ p = [UNINIT] -> list_idx_ p = [] ->
  outgoing (trans_ p) out room -> zlen text <= room < 2 ^ 32 ->
  succeeds (write_message name messageType seqid v) p (fun n p' =>
    n = zlen text /\ outgoing (trans_ p') (out ++ text) (room - zlen text) /\
    p' = set_trans (trans_ p') p).
Proof.
  intros text Hv Hlim Hpre Hi Hs Hx Ho Hr. pose proof (zlen_nonneg text).
  pose proof (prints_message (string_limit_ p) (string_prefix_size_ p) lim name messageType seqid v Hv p out room) as Hm.
  rewrite (pretty_layout _ _ Hlim Hpre lim v Hv), message_open_text in Hm. fold text in Hm.
  eapply runs_mono; [apply Hm; [|lia]| |done].
  - split; [by split_and!|]. split; [done|lia].
  - intros n p' [-> ((Hi' & Hs' & Hx' & Hl & Hp) & Ho' & _)].
    split; [apply wrapu_small; unfold in_u; lia|]. split; [done|].
    change (indent_str_ p' = []) in Hi'. change (write_state_ p' = [UNINIT]) in Hs'.
    change (list_idx_ p' = []) in Hx'. unfold set_trans. rewrite Hi, Hs, Hx.
    destruct p'. cbn in *. by subst.
Qed.

#[local] Instance no_negative_printed : Ctype := {| isprint_negative _ := false |}.
#[local] Existing Instances plain_cast x86_64 x86_64_unbounded.

Definition newline_text : string := String (ascii_of_nat 10) EmptyString.

Definition printed_sample : tval :=
  VStruct [(1, VList T_BOOL [VBool true]);
           (-12, VMap T_I32 T_STRING [(VI32 5, VString [104; 10; 200])])].

Lemma debug_prints_witness :
  succeeds (write_message (bytes_of "f") T_CALL 7 printed_sample) (new_protocol (empty_buffer 1024)) (fun n p' =>
    n = 144 /\ content (trans_ p') = bytes_of (String.concat newline_text [
      "(call) f( {";
      "    01:  (list) = list<bool>[1] {";
      "      [0] = true,";
      "    },";
      "    -12:  (map) = map<i32,string>[1] {";
      String.concat "" ["      5 -> "; quote; "h\n\xc8"; quote; ","];
      "    },";
      "  })"; ""]%string)).
Proof.
  eapply succeeds_mono.
  - apply (debug_prints (L := plain_cast) (LL := plain_cast_laws) (K := no_negative_printed) (Limits 0 0) (bytes_of "f") T_CALL 7
             printed_sample (new_protocol (empty_buffer 1024)) [] (2 ^ 31)).
    + vm_compute. reflexivity.
    + split; [discriminate|reflexivity].
    + split; [discriminate|reflexivity].
    + reflexivity.
    + reflexivity.
    + reflexivity.
    + apply (@empty_buffer_outgoing x86_64 x86_64_unbounded 1024). lia.
    + vm_compute. split; [discriminate|reflexivity].
  - cbv beta zeta. intros n p' (-> & (_ & -> & _) & _). vm_compute. split; reflexivity.
Defined.

Lemma shown_bytes `{CxxLibrary} limit prefix s :
  bytes_ok s -> bytes_ok (lex_show (zlen s)) -> bytes_ok (shown limit prefix s).
Proof.
  intros Hs Hn. unfold shown. bif; [|done]. apply Forall_app. split; [by apply Forall_take|].
  apply Forall_app. split; [apply bytes_of_ok|]. apply Forall_app. split; [done|apply bytes_of_ok].
Qed.

(** Debug protocol: whatever its bytes, a string is printed so that it can be
    read back: the characters to the closing quote, unescaped, are the string, and
    what follows the quote is not touched.  Of a string over the limit it is the
    prefix with a mark and the length that is read back; a negative limit is none. *)
Theorem debug_strings_read_back {L : CxxLibrary} {K : Ctype} {T : Type} {X : TTransport T} {W : WriteLaws T}
    (s : list Z) (p : TDebugProtocol T) (out : list Z) (room : Z) :
  let text := quoted_string (string_limit_ p) (string_prefix_size_ p) s in
  bytes_ok s -> bytes_ok (lex_show (zlen s)) -> zlen s < 2 ^ 63 ->
  - 2 ^ 31 <= string_limit_ p < 2 ^ 31 ->
  write_state_ p = [UNINIT] -> outgoing (trans_ p) out room -> zlen text <= room < 2 ^ 32 ->
  succeeds (writeString s) p (fun n p' => exists text',
    outgoing (trans_ p') (out ++ text') (room - n) /\
    (forall rest, unquote (text' ++ rest) =
       Some (if ((0 <=? string_limit_ p) && (string_limit_ p <? zlen s))%bool
             then ztake (u64 (string_prefix_size_ p)) s ++ bytes_of "[...](" ++ lex_show (zlen s) ++ bytes_of ")"
             else s, rest))).
Proof.
  intros text Hs Hn Hlen Hlim Hw Ho Hr. pose proof (zlen_nonneg text).
  unfold writeString, writeItem, startItem, endItem, writePlain. wp. rewrite Hw. cbn [back]. wp.
  fold text. unfold uint32_max. replace (_ <? zlen text) with false by lia. unfold out_. wp.
  eapply runs_mono; [apply (write_ok _ out room text Ho); lia| |done]. cbn [out_]. intros _ t Ht. wp.
  cbn [write_state_ set_trans]. rewrite Hw. cbn [back]. wp. exists text. split.
  { rewrite Z.add_0_l, Z.add_0_r. rewrite !u32_u32, wrapu_small by (unfold in_u; lia). exact Ht. }
  intros rest. unfold text, quoted_string. cbn [app unquote]. rewrite Z.eqb_refl, <- app_assoc. cbn [app].
  rewrite unescape_string by (by apply shown_bytes). do 2 f_equal.
  bif; [|apply shown_whole; [done|done|]].
  - unfold shown. rewrite wrapu_small by (unfold in_u; lia). by replace (_ <? zlen s) with true by lia.
  - apply andb_false_iff in Hb as [Hb|Hb]; breflect; lia.
Qed.

Lemma debug_strings_read_back_witness :
  let s := [34; 92; 0; 255; 65; 10] in
  succeeds (writeString s) (new_protocol (empty_buffer 16)) (fun n p' =>
    exists text', outgoing (trans_ p') text' (2 ^ 31 - n) /\ unquote (text' ++ [1]) = Some (s, [1])).
Proof.
  cbv zeta. eapply succeeds_mono.
  - apply (debug_strings_read_back (L := plain_cast) (K := no_negative_printed) [34; 92; 0; 255; 65; 10]
             (new_protocol (empty_buffer 16)) [] (2 ^ 31)).
    + repeat constructor; discriminate || reflexivity.
    + repeat constructor; discriminate || reflexivity.
    + reflexivity.
    + split; [discriminate|reflexivity].
    + reflexivity.
    + apply (@empty_buffer_outgoing x86_64 x86_64_unbounded 16). lia.
    + vm_compute. split; [discriminate|reflexivity].
  - cbv beta zeta. intros n p' (text' & Ht & Hu). exists text'. split; [exact Ht|]. exact (Hu [1]).
Defined.
