(* ===== verification/DenseTheorems.v ===== *)
(** * Theorems on the dense protocol

    A whole struct, from the fingerprint on: what is written is read back, any
    input is refused or read as a value of the type, and what a refusal leaves
    behind in the protocol object. *)

From S2P Require Export Examples.
From S2P Require Export DenseProtocol DenseStacks DenseWriter DenseReader DenseValues DenseStruct.

(** C35. Dense protocol: a struct that fits its type spec, however its optional
    fields and containers nest, is written as the four bytes of the fingerprint and
    then its values alone, with one byte for each optional field; another host with
    the same type specs reads back exactly that struct, on any transport whose
    [read] gives the four bytes at once.  Both stacks are empty again, and both
    answer the number of bytes on the wire less those of the fingerprint. *)
Theorem dense_round_trip (W R : Platform) (U : @Unbounded R) (S : TypeSpecs) {T1 T2 : Type}
    (X1 : TTransport T1) (X2 : TTransport T2) (L1 : WriteLaws T1) (L2 : ReadLaws T2)
    (lim : limits) (t : Z) (sp : TypeSpec) (fs : list (Z * tval)) (p1 : TDenseProtocol T1) (p2 : TDenseProtocol T2)
    (out rest : list Z) (room : Z) (depth : nat) (fuel : Z) :
  let v := VStruct fs in
  let e := d_enc t v in
  typespecs !! t = Some sp -> zlen (fp_prefix sp) = FP_PREFIX_LEN ->
  fits lim (string_ok lim) (in_ub 64) t v = true -> (vsize v <= depth)%nat -> Z.of_nat (vsize v) < fuel ->
  dense_out (Some t) p1 at_rest out room -> FP_PREFIX_LEN + zlen e <= room ->
  dense_in (Some t) lim p2 at_rest (fp_prefix sp ++ e ++ rest) ->
  succeeds (t_read FP_PREFIX_LEN) (BinaryProtocol.trans_ (base_ p2))
    (fun got s => got = fp_prefix sp /\ incoming s (e ++ rest)) ->
  succeeds (@write_value _ (@TDenseProtocol_protocol W S T1 X1) v) p1 (fun n p1' =>
    n = u32 (zlen e) /\ dense_out (Some t) p1' at_rest (out ++ fp_prefix sp ++ e) (room - FP_PREFIX_LEN - zlen e)) /\
  succeeds (@read_value _ (@TDenseProtocol_protocol R S T2 X2) depth fuel T_STRUCT) p2 (fun r p2' =>
    r = (u32 (zlen e), v) /\ dense_in (Some t) lim p2' at_rest rest).
Proof.
  intros v e Hsp Hfp Hfit Hd Hf Hout Hroom Hin Hread. split; [by eapply write_dense_struct|].
  pose proof Hfit as Hall. unfold v in Hall. rewrite fits_struct in Hall.
  apply andb_true_iff in Hall as [(sp' & Hsp' & Hty)%has_type_spec Hall]. assert (sp' = sp) as -> by congruence.
  unfold fields_at in Hall. rewrite Hsp in Hall. cbn [from_option] in Hall. unfold fields_of in Hall.
  destruct (parts sp) as [|metas specs|] eqn:Hparts; try (by destruct fs).
  by apply (read_dense_struct lim t sp metas specs Hsp Hty Hparts).
Qed.

(** Type specs for the witnesses: a person, with a name, maybe an age, maybe
    samples by day and maybe an address, which is a struct of its own. *)
#[local] Instance person_specs : TypeSpecs := list_to_map (M := gmap Z TypeSpec) [
  (1, struct_spec T_STRUCT [17; 34; 51; 68; 85; 102]
        [Meta 1 false; Meta 2 true; Meta 3 true; Meta 4 true; Meta 0 false] [2; 3; 4; 7; 9]);
  (2, scalar_spec T_STRING); (3, scalar_spec T_I32); (4, container_spec T_MAP 3 5);
  (5, container_spec T_LIST 6 0); (6, scalar_spec T_DOUBLE);
  (7, struct_spec T_STRUCT [1; 2; 3; 4; 5] [Meta (-1) true; Meta 6 true; Meta 0 false] [8; 2; 9]);
  (8, scalar_spec T_BOOL); (9, scalar_spec T_STOP)].

Definition person : list (Z * tval) :=
  [(1, VString [97; 98]);
   (3, VMap T_I32 T_LIST [(VI32 (-1), VList T_DOUBLE [VDouble 1]); (VI32 300, VList T_DOUBLE [])]);
   (4, VStruct [(6, VString [])])].
Definition person_bytes : list Z :=
  [2; 97; 98] ++ [0; 1] ++
  [2] ++ [129; 255; 255; 255; 255; 255; 255; 255; 255; 127] ++ [1; 0; 0; 0; 0; 0; 0; 0; 1] ++ [130; 44; 0] ++
  [1; 0; 1; 0].

Example person_encoded : d_enc 1 (VStruct person) = person_bytes.
Proof. vm_compute. reflexivity. Qed.

#[local] Existing Instances x86_64 x86_64_unbounded.

Definition dense_over {T} (t : T) : TDenseProtocol T := new_dense t (Some 1).

Lemma dense_over_out n : 0 <= n < 2 ^ 32 -> dense_out (Some 1) (dense_over (empty_buffer n)) at_rest [] (2 ^ 31).
Proof. intros. split; [done|]. split; [by apply empty_buffer_outgoing|done]. Qed.
Lemma dense_over_in bs : zlen bs < 2 ^ 32 -> dense_in (Some 1) (Limits 0 0) (dense_over (buffer_of bs)) at_rest bs.
Proof. intros. split; [done|]. split; [by apply buffer_of_incoming|done]. Qed.

Lemma dense_round_trip_witness :
  succeeds (write_value (VStruct person)) (dense_over (empty_buffer 16)) (fun n p =>
    n = zlen person_bytes /\
    content (BinaryProtocol.trans_ (base_ p)) = [17; 34; 51; 68] ++ person_bytes) /\
  succeeds (read_value 60 60 T_STRUCT) (dense_over (buffer_of ([17; 34; 51; 68] ++ person_bytes ++ [7]))) (fun r p =>
    r = (zlen person_bytes, VStruct person) /\ content (BinaryProtocol.trans_ (base_ p)) = [7]).
Proof.
  pose proof (dense_round_trip x86_64 x86_64 x86_64_unbounded person_specs _ _ TMemoryBuffer_writes TMemoryBuffer_reads
    (Limits 0 0) 1 _ person (dense_over (empty_buffer 16))
    (dense_over (buffer_of ([17; 34; 51; 68] ++ person_bytes ++ [7]))) [] [7] (2 ^ 31) 60 60
    ltac:(reflexivity) ltac:(reflexivity) ltac:(vm_compute; reflexivity) ltac:(vm_compute; lia) ltac:(vm_compute; reflexivity)
    ltac:(apply dense_over_out; lia) ltac:(vm_compute; discriminate)
    ltac:(apply dense_over_in; vm_compute; reflexivity)) as [Hw Hr].
  - eapply succeeds_mono; [apply read_dequeue; [by apply buffer_of_inv|done]|]. cbn beta. intros got s (-> & Hi & Hc).
    split; [vm_compute; reflexivity|]. split; [exact Hi|]. rewrite Hc. vm_compute. reflexivity.
  - split.
    + eapply succeeds_mono; [exact Hw|]. cbn beta. intros n p (-> & (_ & (_ & Hc & _))). split; [vm_compute; reflexivity|]. rewrite Hc. vm_compute. reflexivity.
    + eapply succeeds_mono; [exact Hr|]. cbn beta. intros r p (-> & (_ & (_ & Hc) & _)). split; [vm_compute; reflexivity|exact Hc].
Defined.

(** C36. Dense protocol: whatever bytes come, reading a struct by well-formed type
    specs ends, without a failed assertion or an access outside an array: it
    throws, or answers a value that fits the type (only fields of the spec, in
    its order and none of the required ones missing, containers and strings within
    the limits) with the stacks empty again.  The nesting of the types, not of the
    input, bounds the depth. *)
Theorem dense_reads_any_input (R : Platform) (U : Unbounded) (S : TypeSpecs) {T : Type} (X : TTransport T)
    (L : ReadLaws T) (E : EndLaws T) (rank : Z -> Z) (lim : limits) (t : Z) (sp : TypeSpec)
    (p : TDenseProtocol T) (bs : list Z) (depth : nat) (fuel : Z) :
  typespecs !! t = Some sp -> ttype sp = T_STRUCT ->
  specs_ok rank -> map_Forall (fun _ sp => zlen (fields_of sp) < fuel) typespecs -> 0 <= rank t < Z.of_nat depth ->
  dense_in (Some t) lim p at_rest bs ->
  runs (read_value depth fuel T_STRUCT) p
    (fun r p' => fits lim (size_ok lim) (fun _ => true) t r.2 = true /\
       exists bs', dense_in (Some t) lim p' at_rest bs' /\ zlen bs' <= zlen bs)
    (fun _ _ => True).
Proof.
  intros Hsp Hty Hok Hfuel Hd Hp. destruct (struct_parts rank t sp (Hok t sp Hsp) Hty) as (metas & specs & Hparts).
  by apply (read_dense_any lim t sp metas specs Hsp Hty Hparts rank).
Qed.

(** How deep the types are nested. *)
Definition person_rank (t : Z) : Z := if t =? 1 then 3 else if t =? 4 then 2 else if (t =? 5) || (t =? 7) then 1 else 0.

Lemma dense_reads_any_input_witness :
  let bs := [17; 34; 51; 68; 0; 0; 1; 5; 0; 99] in
  runs (read_value 4 10 T_STRUCT) (dense_over (buffer_of bs))
    (fun r p => fits (Limits 0 0) (size_ok (Limits 0 0)) (fun _ => true) 1 r.2 = true /\ exists bs', content (BinaryProtocol.trans_ (base_ p)) = bs' /\ zlen bs' <= 10)
    (fun _ _ => True).
Proof.
  intros bs.
  eapply runs_mono;
    [apply (dense_reads_any_input x86_64 x86_64_unbounded person_specs _ _ _ person_rank (Limits 0 0) 1
      (struct_spec T_STRUCT [17; 34; 51; 68; 85; 102]
        [Meta 1 false; Meta 2 true; Meta 3 true; Meta 4 true; Meta 0 false] [2; 3; 4; 7; 9])
      (dense_over (buffer_of bs)) bs 4 10)| |done].
  - reflexivity.
  - reflexivity.
  - unfold specs_ok. refine (bool_decide_unpack _ _). vm_compute. exact I.
  - refine (bool_decide_unpack _ _). vm_compute. exact I.
  - vm_compute. split; [discriminate|reflexivity].
  - apply dense_over_in. reflexivity.
  - cbn beta. intros r p (Hf & bs' & (_ & (_ & Hc) & _) & Hle). split; [exact Hf|]. exists bs'. split; [exact Hc|exact Hle].
Defined.

(** C37. Dense protocol: an integer of more than ten bytes or out of its range, a
    size below zero or over the limit, a fingerprint that is not the type's and a
    missing type spec are refused, each with its exception and with the stacks
    emptied; but when the input ends within an integer they stay as they were, and
    a [readStructBegin] that finds them so checks no fingerprint at all. *)
Theorem dense_refusals (R : Platform) (U : Unbounded) (S : TypeSpecs) {T : Type} (X : TTransport T) (L : ReadLaws T)
    (top : option Z) (lim : limits) (p : TDenseProtocol T) (c : stacks) (bs : list Z) :
  dense_in top lim p c bs ->
  match parse_vlq 9 0 0 bs with
  | VOverlong => raises vlqRead p (fun e p' => e = vlq_too_long /\ dense_at top p' at_rest)
  | VShort => raises vlqRead p (fun e p' => stream_end e /\ dense_at top p' c)
  | VDone v n => forall w what, 1 <= w <= 64 ->
      if in_sb w (s64 v)
      then succeeds (vlq_signed w what) p (fun r p' => r = (n, s64 v) /\ dense_in top lim p' c (zdrop n bs))
      else raises (vlq_signed w what) p (fun e p' => e = out_of_range_exn what /\ dense_at top p' at_rest)
  end /\
  (forall size rest, in_s 32 size -> bs = vlq (u64 size) ++ rest ->
     size < 0 \/ container_over lim size = true ->
     raises read_size p (fun e p' => dense_at top p' at_rest /\
       e = EProtocol (if size <? 0 then TProtocolException.NEGATIVE_SIZE else TProtocolException.SIZE_LIMIT) "")) /\
  (forall t sp got rest, c = at_rest -> top = Some t -> typespecs !! t = Some sp -> ttype sp = T_STRUCT ->
     succeeds (t_read FP_PREFIX_LEN) (BinaryProtocol.trans_ (base_ p)) (fun d s => d = got /\ incoming s rest) ->
     ztake (zlen got) (fp_prefix sp) <> got ->
     raises readStructBegin p (fun e p' => e = wrong_fingerprint /\ dense_in top lim p' at_rest rest)) /\
  (c = at_rest -> top = None ->
     raises readStructBegin p (fun e p' => e = no_type /\ dense_in top lim p' at_rest bs)) /\
  (ts c <> [] -> succeeds readStructBegin p (fun r p' => r = (0, []) /\ dense_in top lim p' (in_struct 0 c) bs)).
Proof.
  intros Hp. split_and?.
  - pose proof (vlqRead_spec top lim c bs p Hp) as Hv. unfold vlq_post, vlq_exn in Hv.
    destruct (parse_vlq 9 0 0 bs) as [v n| |]; [|exact Hv|exact Hv]. intros w what Hw. unfold vlq_signed.
    unfold in_sb, succeeds, raises. case_bool_decide as Hin; (apply runs_bind; eapply runs_mono; [exact Hv| |done]);
      cbn beta; intros x p' [-> Hp']; unfold in_s in Hin.
    + replace (2 ^ (w - 1) - 1 <? s64 v) with false by lia. replace (s64 v <? - 2 ^ (w - 1)) with false by lia.
      apply runs_ret. split; [|done]. by rewrite wraps_small by (unfold in_s; lia).
    + replace ((2 ^ (w - 1) - 1 <? s64 v) || (s64 v <? - 2 ^ (w - 1)))%bool with true by lia.
      eapply runs_reset; [exact Hp'|]. intros p2 [Hp2 _]. by wp.
  - intros size rest Hs -> Hbad. unfold read_size, raises.
    eapply reads_step; [by apply (reads_signed top lim 32)|exact Hp|]. intros p1 Hp1. cbv beta iota.
    pose proof Hp1 as (_ & _ & Hlim & _). wp. rewrite Hlim.
    destruct (size <? 0) eqn:Hz; [|replace (container_over lim size) with true by (destruct Hbad; [lia|done])];
      (eapply runs_reset; [exact Hp1|]; intros p2 [Hp2 _]; by wp).
  - intros t sp got rest -> -> Hsp Hty Hread Hne. pose proof Hp as [Hat (_ & Hlim & Hbuf)].
    eapply (top_begin t sp Hsp Hty); [exact Hat|exact Hread|]. cbn beta. intros got' s p' [-> Hi] Hb.
    rewrite bool_decide_eq_false_2.
    + intros Hp'. split; [done|]. split; [done|]. rewrite Hb. by split_and!.
    + intros Heq. apply Hne. rewrite <- Heq. by rewrite ztake_app.
  - intros -> ->. unfold readStructBegin.
    eapply in_step; [apply moves_get_ts|exact Hp|]. intros p1 Hp1. cbn [ts at_rest].
    apply runs_bind, runs_bind. eapply runs_mono; [by apply (top_spec_none lim at_rest p1 bs)|done|done].
  - intros Hne. unfold readStructBegin.
    eapply in_step; [apply moves_get_ts|exact Hp|]. intros p1 Hp1. destruct (ts c) as [|t l] eqn:Hts; [done|].
    eapply in_step; [apply moves_ret|exact Hp1|]. intros p2 Hp2.
    eapply in_step; [apply (moves_push_idx top c)|exact Hp2|]. intros p3 Hp3. by apply runs_ret.
Qed.

(** Inside the first field of a struct of type 7. *)
Definition inside_struct : stacks := in_struct 0 (before 7 at_rest).
Definition dense_inside {T} (t : T) : TDenseProtocol T := set_ts [7] (set_idx [0] (new_dense t (Some 1))).

Lemma dense_inside_in bs : zlen bs < 2 ^ 32 ->
  dense_in (Some 1) (Limits 0 0) (dense_inside (buffer_of bs)) inside_struct bs.
Proof. intros. split; [done|]. split; [by apply buffer_of_incoming|done]. Qed.

Lemma dense_refusals_witness :
  raises readStructBegin (dense_over (buffer_of [17; 34; 51; 69; 1])) (fun e p =>
    e = wrong_fingerprint /\ ts_stack_ p = [] /\ content (BinaryProtocol.trans_ (base_ p)) = [1]) /\
  raises vlqRead (dense_inside (buffer_of (zrep 12 255))) (fun e p => e = vlq_too_long /\ ts_stack_ p = []) /\
  raises vlqRead (dense_inside (buffer_of [255; 255])) (fun e p => no_more e /\ ts_stack_ p = [7]) /\
  succeeds readStructBegin (dense_inside (buffer_of [17; 34; 51; 69])) (fun _ p =>
    content (BinaryProtocol.trans_ (base_ p)) = [17; 34; 51; 69]).
Proof.
  pose proof (fun p => dense_refusals x86_64 x86_64_unbounded person_specs _ TMemoryBuffer_reads (Some 1) (Limits 0 0) p) as Hall.
  split_and?.
  - destruct (Hall _ at_rest _ (dense_over_in [17; 34; 51; 69; 1] eq_refl)) as (_ & _ & Hfp & _).
    eapply runs_mono; [apply (Hfp 1 _ [17; 34; 51; 69] [1] eq_refl eq_refl eq_refl eq_refl)|done|].
    + eapply succeeds_mono; [apply read_dequeue; [by apply buffer_of_inv|done]|]. cbn beta. intros got s (-> & Hi & Hc).
      split; [vm_compute; reflexivity|]. split; [exact Hi|]. rewrite Hc. vm_compute. reflexivity.
    + vm_compute. discriminate.
    + cbn beta. intros e p (-> & (Hts & _) & (_ & Hc) & _). split_and?; [done|exact Hts|exact Hc].
  - destruct (Hall _ inside_struct _ (dense_inside_in (zrep 12 255) eq_refl)) as (Hv & _).
    replace (parse_vlq 9 0 0 (zrep 12 255)) with VOverlong in Hv by (vm_compute; reflexivity).
    unfold raises in Hv. eapply runs_mono; [exact Hv|done|]. cbn beta. intros e p (-> & Hts & _). by split.
  - destruct (Hall _ inside_struct _ (dense_inside_in [255; 255] eq_refl)) as (Hv & _).
    replace (parse_vlq 9 0 0 [255; 255]) with VShort in Hv by (vm_compute; reflexivity).
    unfold raises in Hv. eapply runs_mono; [exact Hv|done|]. cbn beta. intros e p (He & Hts & _). by split.
  - destruct (Hall _ inside_struct _ (dense_inside_in [17; 34; 51; 69] eq_refl)) as (_ & _ & _ & _ & Hb).
    eapply runs_mono; [apply Hb; discriminate| |done]. cbn beta. intros r p (_ & _ & (_ & Hc) & _). exact Hc.
Defined.
